(* ===== verification/_CoqProject ===== *)
-Q . S2P
Prelude.v
Bytes.v
Hash.v
GoSort.v
Scrub.v
Json.v
JsonSpec.v
Mvcc.v
MvccSpec.v
FsmCommand.v
Fsm.v
FsmSpec.v
FsmSnapshot.v
RaftTypes.v
RaftMembership.v
RaftMembershipSpec.v
RaftCore.v
RaftInv.v
RaftSpec.v
WalRecord.v
Wal.v
WalSpec.v
WalScrub.v
Storage.v
StorageSpec.v
RaftPersist.v
RaftDriver.v
Protocol.v
ProtocolCore.v
ProtocolStep.v
ProtocolAppend.v
Fault.v
FaultInv.v
FaultSpec.v
Txn.v
TxnSpec.v
SqlSyntax.v
SqlSyntaxSpec.v
SqlRow.v
SqlExec.v
SqlWrites.v
SqlExecSpec.v
SqlStandalone.v
SqlReplicated.v
Snapshot.v
SnapshotSpec.v
Backup.v
BackupSpec.v
BackupTerm.v
AuditTrail.v
AuditTrailSpec.v
Leases.v
Admission.v
NodePressure.v
ControlPlane.v
ControlPlaneSpec.v
Node.v
Maintenance.v
MaintenanceSpec.v
NodeInv.v
NodeRun.v
NodeEvents.v
NodeSpec.v
AdmissionSpec.v
Oracle.v
OracleSpec.v
