(* ===== verification/Prelude.v ===== *)
(** * ChronicleDB: a verification development

    ChronicleDB is a replicated SQL database: statements are planned and run as
    transactions over a multi-version key-value store; a transaction commits
    through a deterministic state machine; the commands of that machine are
    ordered by Raft, made durable by a write-ahead log and compacted into
    snapshot files; one event loop per node drives all of it.  A standalone
    mode runs the same state machine on the log without replication.

    ** Parts and files

    Each Go package is one or more files here; a definition has the name of the
    function or type it translates (with a short prefix where two packages use
    the same name) and the theorems about it follow in a file called [...Spec].

    - Foundations.  [Prelude] (integers at their width, the result monad with
      its error values, record update, shared tactics), [Bytes] (byte strings
      and the bounded decoders over them; [reads] says that a decoder never
      indexes out of range), [Hash] (SHA-256 and CRC-32), [GoSort] ([sort] of
      the Go library), [Scrub] (findings, file names), [Json], [JsonSpec] (the
      part of [encoding/json] that the code uses, with its UTF-8: printing,
      parsing and decoding into structs, and their round trips).
    - [internal/mvcc]: [Mvcc], [MvccSpec].  Version chains, visibility, garbage
      collection; the store refines the list of committed transactions.
    - [internal/fsm]: [FsmCommand], [Fsm], [FsmSpec], [FsmSnapshot].  Commands
      and their codecs, the outcome tables, first-committer-wins, replicated
      garbage collection, cluster generation, the encoded state.
    - [internal/raft]: [RaftTypes], [RaftMembership], [RaftMembershipSpec],
      [RaftCore], [RaftInv], [RaftSpec], [RaftDriver].  The whole single-node
      protocol state machine: [Step] takes an input and returns the new core
      and the outputs for its driver; [core_wf] is its invariant and
      [RaftDriver] what a driver may rely on.
    - The protocol between cores: [Protocol] (an abstract history of terms,
      votes and leaders' logs, the events that extend it, and their safety),
      [ProtocolCore], [ProtocolStep], [ProtocolAppend] (every step of a core is
      an event of that history, whether its disk write succeeds or fails).
    - [internal/fault]: [Fault], [FaultInv], [FaultSpec].  The deterministic
      simulator: nodes with disks and timers, a network under the control of a
      script, and whole clusters of them.
    - [internal/wal], [internal/storage]: [WalRecord], [Wal], [WalSpec],
      [WalScrub].  Frames, segments, rotation, truncation, compaction, crashes
      and recovery.  A crash keeps what was synced and any prefix of the rest.
    - [internal/raft/storage.go], [internal/node/storage.go],
      [internal/fault/storage.go]: [Storage] (the Go interface as a class with
      its contract as laws), [StorageSpec] (both implementations keep it),
      [RaftPersist] (the core mirrored by any storage that keeps it).
    - [internal/txn]: [Txn], [TxnSpec].  Sessions and commits of the standalone
      database, on the log and the state machine.
    - [internal/sql]: [SqlSyntax], [SqlSyntaxSpec], [SqlRow], [SqlExec],
      [SqlWrites], [SqlExecSpec], [SqlStandalone], [SqlReplicated].  Lexer,
      parser, storage format, planner, executor, and the two engines; the
      engine interfaces are classes with laws, against which the refinement of
      a relational database is proved.
    - [internal/snapshot]: [Snapshot], [SnapshotSpec].  The frame of a snapshot
      file, the directory with its crashes, loading, pruning, scrubbing.
    - [internal/backup]: [Backup], [BackupSpec], [BackupTerm].  Exports with
      their manifest, validation, restoring through a staging directory; what
      a cluster does that starts from a restored log.
    - [internal/audit]: [AuditTrail], [AuditTrailSpec].  The chain of audit records, with
      crashes and failing writes.
    - [internal/admission]: [Admission], [AdmissionSpec].  A gate as a step
      relation over its concurrent callers.
    - [internal/authn], [internal/authz], [cmd/chronicledb-node/auth.go]:
      [ControlPlane], [ControlPlaneSpec].  Credentials, roles, the routes of the
      control plane and the middleware that records every call.
    - [internal/node]: [Leases] (read leases in a heap), [NodePressure] (disk
      and heap pressure), [Node] (the event loop: opening, ticks, messages,
      proposals, reads, membership, upgrades, garbage collection, snapshots and
      their installation), [NodeInv], [NodeRun], [NodeEvents], [NodeSpec] (what
      one entry, one output of the core, one event and a whole run do);
      [Maintenance], [MaintenanceSpec] (the backup of a running node and the
      scrub of its data directory).
    - [internal/oracle]: [Oracle], [OracleSpec].  The reference model the
      program's own tests compare it with, against the state machine.

    ** How code is modelled

    A Go value is a Rocq value of the same shape: a struct is a record, a tagged
    union an inductive type, a map a [gmap] (a map that may be nil is an
    [option] of one, and writing to nil panics), a string or byte slice a list
    of integers.  Unsigned arithmetic that can leave its width wraps
    explicitly.  An operation is a function of the state it owns; an error is a
    value of a [result] type; a panic is a distinguished error, so that
    theorems say when it cannot happen.  Code that a mutex or a single
    goroutine makes atomic is one step; where goroutines interleave (admission
    gates, readers during garbage collection) there is a step relation.  What
    a node sends, answers and dials is recorded in its state.  Random numbers
    and disk measurements are arguments.

    ** What the theorems show

    - Data: reads of the store agree with the commit history at every snapshot
      that is still served, under commits and garbage collection; the state
      machine decides each request once, commits only without conflicts, and
      never fails on a well-formed command; decoders invert encoders and are
      total on arbitrary bytes.
    - Consensus core: a step keeps the invariant, never panics by itself,
      delivers committed entries once and in order, and never changes a
      committed entry; changes of the configuration keep majorities
      intersecting.
    - Consensus between nodes: in every run of a simulated cluster with a fixed
      membership, under crashes, restarts, failing log writes and any network
      fault, a term has one leader, later leaders have what was committed,
      nodes never commit different entries at an index, and nothing panics.
      A failing write of the hard state is excluded, and
      [hard_state_fault_diverges] shows why.
    - Durability: after a crash the log recovers everything synced and nothing
      that was not written; every operation refines the abstract history; the
      storages mirror the core; snapshot files survive crashes at any point.
    - Standalone database: commits are atomic and durable, sessions read their
      snapshot, and SQL statements implement a relational database on it.
    - Replicated SQL: on a node that keeps its promises, statements compute
      what the relational database does at a snapshot that covers everything
      decided before, and propose exactly that change.
    - Node: every event is handled in bounded recursion without panics of its
      own; the state machine is the replay of the committed entries, in order
      and without repetition, or of those after an installed snapshot; each
      request is answered exactly once; a read sees what was committed before
      it; garbage collection spares live reads.
    - Backups: restoring an export gives back the snapshot and the entries it
      captured, up to any index of the range; a restore that fails leaves its
      target alone; the backup of a running node restores to a storage with
      its entries; a scrub that reports nothing has found every file readable.
    - Audit log: recorded entries survive crashes and read back, and a chain
      with the same last hash has the same records.
    - Control plane: a handler runs only for a permitted principal and with its
      audit record on disk, and every refusal has its exact cause.
    - Oracle: the independent reference model predicts the decisions of the
      state machine and reads what the store reads, and its tracker of outcomes
      never accuses a run.
    - Admission: capacity is never exceeded or leaked and callers get answers.

    Theorems named in the sections called Findings are about behaviour that
    differs from what the code or its documents intend.

    ** Bounds and fuel

    Recursion that is not structural carries fuel that the theorems show to be
    enough: the decoders' loops run on the remaining bytes, the binary search
    on the interval, the lexer and the parser on the text, the lease heap on
    its size, and [processOutput] three deep, since the answer to a persisted
    request asks for nothing more and a new leader's own entry makes no leader.
    The simulator's [applyOutput] is two deep for the same reason; the loop of
    [DeliverEligible] takes its fuel from the script, and the theorems hold for
    every amount of it, spent or not.
    Theorems about indices and terms assume that they stay below 2^64 by a
    margin that is written in their statements ([input_ok], [roomy]).

    ** Not modelled

    Errors of the operating system (a failed write or sync), clocks, sockets
    and the message encoding of [internal/transport], metrics, logs,
    certificates, the HTTP handlers and flags of
    [cmd/chronicledb-node] and the test support packages.  They are I/O, glue on libraries outside the repository, or test
    code.  The safety of a cluster is proved for a fixed membership and whole
    logs: changes of the configuration and compaction are modelled, and proved
    safe for one node, but are not part of those runs. *)

From Stdlib Require Export ZArith Lia Bool.
From stdpp Require Export prelude sorting gmap numbers list.
#[export] Set Default Goal Selector "!".
Global Open Scope Z_scope.

(** ** Fixed-width unsigned integers

    A Go unsigned integer is a [Z]; every arithmetic operation of the code
    that can leave the range goes through the wrap-around of its width. *)

Definition u16 (x : Z) : Z := x mod 2 ^ 16.
Definition u32 (x : Z) : Z := x mod 2 ^ 32.
Definition u64 (x : Z) : Z := x mod 2 ^ 64.

(** The value of a 64-bit pattern as a signed integer, Go's [int]. *)
Definition i64 (x : Z) : Z := if u64 x <? 2 ^ 63 then u64 x else u64 x - 2 ^ 64.

Definition is_u16 (x : Z) : Prop := 0 ≤ x < 2 ^ 16.
Definition is_u32 (x : Z) : Prop := 0 ≤ x < 2 ^ 32.
Definition is_u64 (x : Z) : Prop := 0 ≤ x < 2 ^ 64.

Declare Scope u64_scope.
Delimit Scope u64_scope with u64.
Notation "x + y" := (u64 (x + y)) : u64_scope.
Notation "x - y" := (u64 (x - y)) : u64_scope.

Lemma u32_small x : is_u32 x → u32 x = x.
Proof. intros. by apply Z.mod_small. Qed.

Lemma u64_small x : is_u64 x → u64 x = x.
Proof. intros. by apply Z.mod_small. Qed.

Lemma u64_range x : is_u64 (u64 x).
Proof. unfold is_u64, u64. by apply Z.mod_pos_bound. Qed.

Lemma u32_range x : is_u32 (u32 x).
Proof. unfold is_u32, u32. by apply Z.mod_pos_bound. Qed.

(** ** Lengths

    Go's [len] as an integer. *)

Definition zlen {A} (l : list A) : Z := Z.of_nat (length l).

Lemma zlen_nonneg {A} (l : list A) : 0 ≤ zlen l.
Proof. unfold zlen. lia. Qed.

Lemma zlen_app {A} (l1 l2 : list A) : zlen (l1 ++ l2) = zlen l1 + zlen l2.
Proof. unfold zlen. rewrite length_app. lia. Qed.

Lemma zlen_cons {A} (x : A) l : zlen (x :: l) = 1 + zlen l.
Proof. unfold zlen. simpl. lia. Qed.

Lemma to_nat_zlen {A} (l : list A) : Z.to_nat (zlen l) = length l.
Proof. unfold zlen. lia. Qed.

Lemma zlen_nil {A} : zlen (@nil A) = 0.
Proof. done. Qed.

Lemma last_drop_lt {A} (l : list A) n : (n < length l)%nat → last (drop n l) = last l.
Proof.
  intros Hn. rewrite <- (take_drop n l) at 2. rewrite last_app.
  destruct (last (drop n l)) eqn:E; [done|].
  apply last_None, (f_equal length) in E. rewrite length_drop in E. simpl in E. lia.
Qed.

(** ** Filters *)

Lemma filter_all {A} (P : A → Prop) `{!∀ x, Decision (P x)} l : Forall P l → filter P l = l.
Proof. induction 1; [done|]. rewrite filter_cons_True by done. by f_equal. Qed.

Lemma filter_none {A} (P : A → Prop) `{!∀ x, Decision (P x)} l : Forall (λ x, ¬ P x) l → filter P l = [].
Proof. induction 1; [done|]. by rewrite filter_cons_False. Qed.

(** ** Results

    A Go function that returns an error next to its value, or that can
    panic: [Ok] of the value, or [Err] of the sentinel. *)

Inductive result (E A : Type) : Type :=
| Ok (a : A)
| Err (e : E).
Arguments Ok {E A} a.
Arguments Err {E A} e.

#[global] Instance result_ret E : MRet (result E) := λ A, Ok.
#[global] Instance result_bind E : MBind (result E) := λ A B f r,
  match r with Ok a => f a | Err e => Err e end.

Definition is_Ok {E A} (r : result E A) : bool :=
  match r with Ok _ => true | Err _ => false end.

(** Guard of an early error return: [check b e] continues when [b] holds. *)
Definition check {E} (b : bool) (e : E) : result E () := if b then Ok () else Err e.

Lemma bind_Ok {E A B} (a : A) (f : A → result E B) : (Ok a ≫= f) = f a.
Proof. done. Qed.

Lemma bind_Ok_inv {E A B} (r : result E A) (f : A → result E B) b :
  (r ≫= f) = Ok b → ∃ a, r = Ok a ∧ f a = Ok b.
Proof. destruct r; simpl; [by eauto | done]. Qed.

Lemma bind_Err_inv {E A B} (r : result E A) (f : A → result E B) e :
  (r ≫= f) = Err e → r = Err e ∨ ∃ a, r = Ok a ∧ f a = Err e.
Proof. destruct r; simpl; [by eauto | intros; left; congruence]. Qed.

Lemma check_Ok_inv {E} b (e : E) u : check b e = Ok u → b = true.
Proof. by destruct b. Qed.

(** ** Functional record update

    [r <| f := v |>] is the record [r] with field [f] replaced. *)

Class Eta (R : Type) := eta : R → R.
Class Setter {R T : Type} (proj : R → T) := modify : (T → T) → R → R.
Arguments modify {R T} proj {_} f r : simpl nomatch.

Ltac derive_setter :=
  lazymatch goal with
  | |- @Setter ?R ?T ?proj =>
      let e := eval cbv [eta] in (@eta R _) in
      let e := lazymatch e with
               | ?c => let c := eval unfold c in c in c
               | ?c => c
               end in
      let F := eval pattern proj in e in
      lazymatch F with
      | ?G proj =>
          let body := eval cbv beta in (λ (f : T → T) (r : R), G (λ x, f (proj x)) r) in
          exact body
      end
  end.
#[global] Hint Extern 1 (Setter _) => derive_setter : typeclass_instances.

Notation "r <| f := v |>" := (modify f (λ _, v) r)
  (at level 1, left associativity, format "r  <| f  :=  v |>").

(** ** Proof automation *)

Create HintDb chronicle.
#[export] Hint Resolve u64_range u32_range zlen_nonneg : chronicle.

(** Invert every equation between results of the monad in the context. *)
Ltac inv_result :=
  repeat match goal with
  | H : Ok _ = Ok _ |- _ => injection H as H; try subst
  | H : Err _ = Err _ |- _ => injection H as H; try subst
  | H : Ok _ = Err _ |- _ => discriminate H
  | H : Err _ = Ok _ |- _ => discriminate H
  | H : (_ ≫= _) = Ok _ |- _ => apply bind_Ok_inv in H as (? & ? & ?)
  | H : check _ _ = Ok _ |- _ => apply check_Ok_inv in H
  | H : mret _ = Ok _ |- _ => injection H as H; try subst
  end.

(** Turn boolean tests of the code into propositions. *)
Ltac bool_to_prop :=
  repeat match goal with
  | H : (_ && _) = true |- _ => apply andb_true_iff in H as [? ?]
  | H : (_ || _) = false |- _ => apply orb_false_iff in H as [? ?]
  | H : negb _ = true |- _ => apply negb_true_iff in H
  | H : negb _ = false |- _ => apply negb_false_iff in H
  | H : (_ <? _) = true |- _ => apply Z.ltb_lt in H
  | H : (_ <? _) = false |- _ => apply Z.ltb_ge in H
  | H : (_ <=? _) = true |- _ => apply Z.leb_le in H
  | H : (_ <=? _) = false |- _ => apply Z.leb_gt in H
  | H : (_ =? _) = true |- _ => apply Z.eqb_eq in H
  | H : (_ =? _) = false |- _ => apply Z.eqb_neq in H
  | H : bool_decide _ = true |- _ => apply bool_decide_eq_true in H
  | H : bool_decide _ = false |- _ => apply bool_decide_eq_false in H
  end.

Ltac case_if :=
  match goal with
  | |- context [if ?b then _ else _] => let E := fresh "E" in destruct b eqn:E
  end.
