(* ===== verification/Bytes.v ===== *)
(** * Byte strings, big-endian integers and length-prefixed fields

    A Go [[]byte] or [string] is a list of byte values; a Go string is
    compared byte-wise and lexicographically.  Every decoder of the code
    walks an offset over a slice: here the offset is the remaining suffix
    [b[off:]], so [len(b)-off] is the length of that suffix. *)

From Stdlib Require Import String Ascii.
From S2P Require Import Prelude.

Abbreviation bytes := (list Z).

(** The bytes of a Go string constant. *)
Definition str (s : string) : bytes := (λ a, Z.of_nat (nat_of_ascii a)) <$> list_ascii_of_string s.

Definition is_byte (b : Z) : Prop := 0 ≤ b < 256.
Definition wf_bytes (b : bytes) : Prop := Forall is_byte b.

Definition is_wf_bytes (b : bytes) : bool := forallb (λ x, (0 <=? x) && (x <? 256)) b.

Lemma wf_bytes_compute b : is_wf_bytes b = true → wf_bytes b.
Proof.
  unfold is_wf_bytes. rewrite forallb_forall. intros H. apply Forall_forall. intros x Hx.
  specialize (H x). rewrite list_elem_of_In in Hx. specialize (H Hx).
  bool_to_prop. unfold is_byte. lia.
Qed.

(** ** Big-endian integers ([binary.BigEndian.PutUint*], [Uint*]) *)

Fixpoint be_put (n : nat) (v : Z) : bytes :=
  match n with
  | O => []
  | S m => (v / 2 ^ (8 * Z.of_nat m)) mod 256 :: be_put m v
  end.

#[global] Arguments be_put : simpl never.

Lemma be_put_S m v : be_put (S m) v = (v / 2 ^ (8 * Z.of_nat m)) mod 256 :: be_put m v.
Proof. done. Qed.

Definition be_get (b : bytes) : Z := foldl (λ acc x, acc * 256 + x) 0 b.

Abbreviation put_u16 := (be_put 2).
Abbreviation put_u32 := (be_put 4).
Abbreviation put_u64 := (be_put 8).
Definition get_u16 (b : bytes) : Z := be_get (take 2 b).
Definition get_u32 (b : bytes) : Z := be_get (take 4 b).
Definition get_u64 (b : bytes) : Z := be_get (take 8 b).

Lemma length_be_put n v : length (be_put n v) = n.
Proof. induction n; [done|]. rewrite be_put_S. simpl. by f_equal. Qed.

Lemma zlen_be_put n v : zlen (be_put n v) = Z.of_nat n.
Proof. unfold zlen. by rewrite length_be_put. Qed.

Lemma wf_be_put n v : wf_bytes (be_put n v).
Proof.
  induction n; [constructor|]. rewrite be_put_S. constructor; [|done].
  by apply Z.mod_pos_bound.
Qed.

Lemma be_get_acc a b : foldl (λ acc x, acc * 256 + x) a b = a * 256 ^ zlen b + be_get b.
Proof.
  unfold be_get. revert a. induction b as [|x b IH]; intros a; cbn [foldl].
  { rewrite zlen_nil. lia. }
  rewrite (IH (a * 256 + x)), (IH (0 * 256 + x)), zlen_cons, Z.pow_add_r
    by (auto with chronicle; lia).
  lia.
Qed.

Lemma be_get_cons x b : be_get (x :: b) = x * 256 ^ zlen b + be_get b.
Proof. unfold be_get at 1. simpl. by rewrite be_get_acc. Qed.

Lemma pow256 n : 256 ^ Z.of_nat n = 2 ^ (8 * Z.of_nat n).
Proof. change 256 with (2 ^ 8). rewrite <- Z.pow_mul_r; lia. Qed.

Lemma be_get_put_mod n v : be_get (be_put n v) = v mod 2 ^ (8 * Z.of_nat n).
Proof.
  induction n as [|n IH].
  { by rewrite Z.mod_1_r. }
  rewrite be_put_S, be_get_cons, IH, zlen_be_put, Nat2Z.inj_succ.
  replace (8 * Z.succ (Z.of_nat n)) with (8 * Z.of_nat n + 8) by lia.
  rewrite Z.pow_add_r, Z.rem_mul_r by lia.
  rewrite pow256. change (2 ^ 8) with 256. lia.
Qed.

Lemma be_get_put n v : 0 ≤ v < 2 ^ (8 * Z.of_nat n) → be_get (be_put n v) = v.
Proof. intros. by rewrite be_get_put_mod, Z.mod_small. Qed.

Lemma get_u16_put v rest : is_u16 v → get_u16 (put_u16 v ++ rest) = v.
Proof.
  intros Hv. unfold get_u16. rewrite take_app_le, take_ge by (rewrite length_be_put; lia).
  by apply be_get_put.
Qed.

Lemma get_u32_put v rest : is_u32 v → get_u32 (put_u32 v ++ rest) = v.
Proof.
  intros. unfold get_u32. rewrite take_app_length'; [|by rewrite length_be_put].
  by apply be_get_put.
Qed.

Lemma get_u64_put v rest : is_u64 v → get_u64 (put_u64 v ++ rest) = v.
Proof.
  intros. unfold get_u64. rewrite take_app_length'; [|by rewrite length_be_put].
  by apply be_get_put.
Qed.

Lemma be_get_range b : wf_bytes b → 0 ≤ be_get b < 256 ^ zlen b.
Proof.
  induction 1 as [|x b [Hx Hx'] Hb IH]; [done|].
  rewrite be_get_cons, zlen_cons, Z.pow_add_r by (auto with chronicle; lia). nia.
Qed.

Lemma be_put_mod n w w' :
  w mod 2 ^ (8 * Z.of_nat n) = w' mod 2 ^ (8 * Z.of_nat n) → be_put n w = be_put n w'.
Proof.
  revert w w'. induction n as [|n IHn]; intros w w' Hw; [done|]. rewrite !be_put_S.
  rewrite Nat2Z.inj_succ in Hw.
  replace (8 * Z.succ (Z.of_nat n)) with (8 * Z.of_nat n + 8) in Hw by lia.
  rewrite Z.pow_add_r, !Z.rem_mul_r in Hw by lia. change (2 ^ 8) with 256 in Hw.
  pose proof (Z.mod_pos_bound w (2 ^ (8 * Z.of_nat n)) ltac:(lia)).
  pose proof (Z.mod_pos_bound w' (2 ^ (8 * Z.of_nat n)) ltac:(lia)).
  assert ((w / 2 ^ (8 * Z.of_nat n)) mod 256 = (w' / 2 ^ (8 * Z.of_nat n)) mod 256) by nia.
  f_equal; [done|]. apply IHn. nia.
Qed.

Lemma be_put_get b : wf_bytes b → be_put (length b) (be_get b) = b.
Proof.
  induction 1 as [|x b [Hx Hx'] Hb IH]; [done|].
  cbn [length]. rewrite be_put_S. pose proof (be_get_range b Hb) as Hr. rewrite be_get_cons.
  assert (He : 256 ^ zlen b = 2 ^ (8 * Z.of_nat (length b))).
  { apply pow256. }
  rewrite He in *. f_equal.
  - rewrite Z.div_add_l, Z.div_small by lia. rewrite Z.mod_small; lia.
  - etrans; [|exact IH]. apply be_put_mod.
    by rewrite Z.add_comm, Z.mod_add by lia.
Qed.

(** ** Length-prefixed fields *)

Definition put_len_prefixed (b : bytes) : bytes := put_u32 (zlen b) ++ b.

(** Read a length-prefixed field from the suffix [b]; [e] is the decoder's
    error for a truncated prefix or field. *)
Definition get_len_prefixed {E} (e : E) (b : bytes) : result E (bytes * bytes) :=
  if zlen b <? 4 then Err e else
  let n := get_u32 b in
  let b := drop 4 b in
  if zlen b <? n then Err e else
  Ok (take (Z.to_nat n) b, drop (Z.to_nat n) b).

Lemma take_app_zlen {A} (l1 l2 : list A) : take (Z.to_nat (zlen l1)) (l1 ++ l2) = l1.
Proof. unfold zlen. rewrite Nat2Z.id. apply take_app_length. Qed.

Lemma drop_app_zlen {A} (l1 l2 : list A) : drop (Z.to_nat (zlen l1)) (l1 ++ l2) = l2.
Proof. unfold zlen. rewrite Nat2Z.id. apply drop_app_length. Qed.

Lemma drop_be_put n v rest : drop n (be_put n v ++ rest) = rest.
Proof. apply drop_app_length'. by rewrite length_be_put. Qed.

Lemma take_be_put n v rest : take n (be_put n v ++ rest) = be_put n v.
Proof. apply take_app_length'. by rewrite length_be_put. Qed.

Lemma get_put_len_prefixed {E} (e : E) b rest :
  zlen b < 2 ^ 32 → get_len_prefixed e (put_len_prefixed b ++ rest) = Ok (b, rest).
Proof.
  intros Hb. pose proof (zlen_nonneg b). pose proof (zlen_nonneg rest).
  unfold get_len_prefixed, put_len_prefixed. rewrite <- app_assoc.
  rewrite !zlen_app, zlen_be_put, get_u32_put, drop_be_put, zlen_app by (split; lia).
  rewrite !(proj2 (Z.ltb_ge _ _)) by lia.
  by rewrite take_app_zlen, drop_app_zlen.
Qed.

Lemma zlen_put_len_prefixed b : zlen (put_len_prefixed b) = 4 + zlen b.
Proof. unfold put_len_prefixed. by rewrite zlen_app, zlen_be_put. Qed.

Lemma get_len_prefixed_length {E} (e : E) b x rest :
  get_len_prefixed e b = Ok (x, rest) → wf_bytes b → zlen b = 4 + zlen x + zlen rest.
Proof.
  unfold get_len_prefixed. intros H Hwf. repeat case_match; inv_result. bool_to_prop.
  simplify_eq.
  assert (0 ≤ get_u32 b).
  { apply be_get_range. by apply Forall_take. }
  unfold zlen in *. rewrite length_take, !length_drop in *. lia.
Qed.

Create Rewrite HintDb zlen.
#[export] Hint Rewrite @zlen_app @zlen_cons @zlen_nil zlen_be_put zlen_put_len_prefixed
  length_be_put : zlen.
#[export] Hint Resolve wf_be_put : chronicle.

(** ** String order ([<] on Go strings) *)

Fixpoint bltb (a b : bytes) : bool :=
  match a, b with
  | _, [] => false
  | [], _ :: _ => true
  | x :: a, y :: b => if x <? y then true else if y <? x then false else bltb a b
  end.

Definition blt (a b : bytes) : Prop := bltb a b = true.

#[export] Instance blt_dec : RelDecision blt.
Proof. intros a b. unfold blt. apply _. Defined.

Ltac bltb_cases :=
  repeat match goal with
  | |- context [?x <? ?y] => destruct (Z.ltb_spec x y)
  | H : context [?x <? ?y] |- _ => destruct (Z.ltb_spec x y)
  end.

Lemma blt_irrefl a : ¬ blt a a.
Proof.
  unfold blt. induction a as [|x a IH]; simpl; [done|]. by rewrite Z.ltb_irrefl.
Qed.

#[export] Instance blt_trans : Transitive blt.
Proof.
  unfold blt. intros a b c. revert a c.
  induction b as [|y b IH]; intros [|x a] [|z c]; simpl; try done.
  intros H1 H2. bltb_cases; try done; try lia. eauto.
Qed.

Lemma blt_trichotomy a b : blt a b ∨ a = b ∨ blt b a.
Proof.
  unfold blt. revert b. induction a as [|x a IH]; intros [|y b]; simpl; auto.
  bltb_cases; auto; try lia.
  assert (x = y) as -> by lia. destruct (IH b) as [|[->|]]; auto.
Qed.

Lemma bltb_ge a b : bltb a b = false ↔ a = b ∨ blt b a.
Proof.
  split.
  - intros H. destruct (blt_trichotomy a b) as [H'|[?|?]]; auto. unfold blt in H'. congruence.
  - intros [->|H].
    + apply not_true_iff_false. exact (blt_irrefl b).
    + apply not_true_iff_false. intros H'. apply (blt_irrefl a). by transitivity b.
Qed.

Lemma blt_asym a b : blt a b → ¬ blt b a.
Proof. intros H1 H2. apply (blt_irrefl a). by transitivity b. Qed.

(** The non-strict order, for sorting. *)
Definition ble (a b : bytes) : Prop := ¬ blt b a.
#[export] Instance ble_dec : RelDecision ble.
Proof. intros a b. unfold ble. apply _. Defined.

#[export] Instance ble_trans : Transitive ble.
Proof.
  intros a b c H1 H2 H3. unfold ble in *.
  destruct (blt_trichotomy b a) as [?|[->|?]]; [done|done|].
  apply H2. by transitivity a.
Qed.

#[export] Instance ble_total : Total ble.
Proof.
  intros a b. unfold ble. destruct (blt_trichotomy a b) as [H|[->|H]].
  - left. by apply blt_asym.
  - left. apply blt_irrefl.
  - right. by apply blt_asym.
Qed.

#[export] Instance ble_antisymm : AntiSymm (=) ble.
Proof.
  intros a b H1 H2. unfold ble in *. destruct (blt_trichotomy a b) as [?|[?|?]]; done.
Qed.

(** [strings.HasPrefix] *)
Fixpoint has_prefix (s p : bytes) {struct p} : bool :=
  match p, s with
  | [], _ => true
  | y :: p, x :: s => (x =? y) && has_prefix s p
  | _ :: _, [] => false
  end.

Lemma has_prefix_spec s p : has_prefix s p = true ↔ p `prefix_of` s.
Proof.
  revert s. induction p as [|y p IH]; intros s; simpl.
  { split; [intros _; apply prefix_nil | done]. }
  destruct s as [|x s].
  { split; [done|]. by intros ?%prefix_nil_not. }
  rewrite andb_true_iff, Z.eqb_eq, IH. split.
  - intros [-> H]. by apply prefix_cons.
  - intros H. split; [by apply prefix_cons_inv_1 in H | by apply prefix_cons_inv_2 in H].
Qed.

(** ** Bounds-checked reads

    [b[off:]] reads of the decoders.  Go panics when an index or a slice
    bound is out of range; here that is the error [out_of_range] of the
    package, which the decoders are proved never to produce. *)

Class Panicking (E : Type) := out_of_range : E.

Section reads.
  Context {E : Type} `{!Panicking E}.

Definition u8_at (b : bytes) : result E (Z * bytes) :=
  match b with x :: b => Ok (x, b) | [] => Err out_of_range end.

Definition u16_at (b : bytes) : result E (Z * bytes) :=
  if zlen b <? 2 then Err out_of_range else Ok (get_u16 b, drop 2 b).

Definition u32_at (b : bytes) : result E (Z * bytes) :=
  if zlen b <? 4 then Err out_of_range else Ok (get_u32 b, drop 4 b).

Definition u64_at (b : bytes) : result E (Z * bytes) :=
  if zlen b <? 8 then Err out_of_range else Ok (get_u64 b, drop 8 b).

Definition slice_at (n : Z) (b : bytes) : result E (bytes * bytes) :=
  if (n <? 0) || (zlen b <? n) then Err out_of_range
  else Ok (take (Z.to_nat n) b, drop (Z.to_nat n) b).

Lemma u8_at_put x r : u8_at (x :: r) = Ok (x, r).
Proof. done. Qed.

Lemma u16_at_put v r : is_u16 v → u16_at (put_u16 v ++ r) = Ok (v, r).
Proof.
  intros Hv. unfold u16_at. rewrite zlen_app, zlen_be_put, get_u16_put, drop_be_put by done.
  pose proof (zlen_nonneg r). by rewrite (proj2 (Z.ltb_ge _ _)) by lia.
Qed.

Lemma u32_at_put v r : is_u32 v → u32_at (put_u32 v ++ r) = Ok (v, r).
Proof.
  intros Hv. unfold u32_at. rewrite zlen_app, zlen_be_put, get_u32_put, drop_be_put by done.
  pose proof (zlen_nonneg r). by rewrite (proj2 (Z.ltb_ge _ _)) by lia.
Qed.

Lemma u64_at_put v r : is_u64 v → u64_at (put_u64 v ++ r) = Ok (v, r).
Proof.
  intros Hv. unfold u64_at. rewrite zlen_app, zlen_be_put, get_u64_put, drop_be_put by done.
  pose proof (zlen_nonneg r). by rewrite (proj2 (Z.ltb_ge _ _)) by lia.
Qed.

Lemma u32_at_ok b : 4 ≤ zlen b → u32_at b = Ok (get_u32 b, drop 4 b).
Proof. intros H. unfold u32_at. by rewrite (proj2 (Z.ltb_ge _ _)). Qed.

Lemma u64_at_ok b : 8 ≤ zlen b → u64_at b = Ok (get_u64 b, drop 8 b).
Proof. intros H. unfold u64_at. by rewrite (proj2 (Z.ltb_ge _ _)). Qed.

Lemma slice_at_ok n b :
  0 ≤ n ≤ zlen b → slice_at n b = Ok (take (Z.to_nat n) b, drop (Z.to_nat n) b).
Proof. intros H. unfold slice_at. by rewrite !(proj2 (Z.ltb_ge _ _)) by lia. Qed.

Lemma slice_at_app n b r : zlen b = n → slice_at n (b ++ r) = Ok (b, r).
Proof.
  intros <-. unfold slice_at. rewrite zlen_app.
  pose proof (zlen_nonneg r). pose proof (zlen_nonneg b).
  rewrite !(proj2 (Z.ltb_ge _ _)) by lia. simpl. by rewrite take_app_zlen, drop_app_zlen.
Qed.

(** A counted sequence of items, read by the same item decoder. *)
Fixpoint decode_n {A} (n : nat) (dec : bytes → result E (A * bytes)) (b : bytes)
    : result E (list A * bytes) :=
  match n with
  | O => Ok ([], b)
  | S n => '(x, b) ← dec b; '(xs, b) ← decode_n n dec b; Ok (x :: xs, b)
  end.

(** Round trip of a counted sequence whose whole encoding, with what follows
    it, has at most [N] bytes. *)
Lemma decode_n_encode_le {A} (N : Z) (enc : A → bytes) (dec : bytes → result E (A * bytes)) l r :
  (∀ x r, x ∈ l → zlen (enc x ++ r) ≤ N → dec (enc x ++ r) = Ok (x, r)) →
  zlen (mjoin (enc <$> l) ++ r) ≤ N →
  decode_n (length l) dec (mjoin (enc <$> l) ++ r) = Ok (l, r).
Proof.
  induction l as [|x l IH]; intros Hdec HN; [done|].
  change (mjoin (enc <$> x :: l)) with (enc x ++ mjoin (enc <$> l)) in *.
  rewrite <- app_assoc in *. simpl. rewrite Hdec by (done || set_solver). simpl.
  rewrite IH; [done|set_solver|]. rewrite zlen_app in HN. pose proof (zlen_nonneg (enc x)). lia.
Qed.

Lemma decode_n_encode {A} (enc : A → bytes) (dec : bytes → result E (A * bytes)) l r :
  (∀ x r, x ∈ l → dec (enc x ++ r) = Ok (x, r)) →
  decode_n (length l) dec (mjoin (enc <$> l) ++ r) = Ok (l, r).
Proof. intros Hdec. eapply decode_n_encode_le; [by intros; apply Hdec|done]. Qed.

Lemma decode_n_no_panic {A} n (dec : bytes → result E (A * bytes)) b e :
  (∀ b, dec b ≠ Err e) → decode_n n dec b ≠ Err e.
Proof.
  intros Hdec. revert b. induction n as [|n IH]; intros b; simpl; [done|].
  destruct (dec b) as [[x b']|e'] eqn:E1; simpl; [|congruence].
  specialize (IH b'). destruct (decode_n n dec b') as [[xs b'']|] eqn:E2; simpl; [done|congruence].
Qed.
End reads.

Lemma zlen_mjoin_ge {A} (enc : A → bytes) c l :
  (∀ x, x ∈ l → c ≤ zlen (enc x)) → c * zlen l ≤ zlen (mjoin (enc <$> l)).
Proof.
  induction l as [|x l IH]; intros H; [rewrite Z.mul_0_r; apply zlen_nonneg|].
  change (mjoin (enc <$> x :: l)) with (enc x ++ mjoin (enc <$> l)).
  rewrite zlen_cons, zlen_app. specialize (IH ltac:(set_solver)).
  pose proof (H x ltac:(left)). lia.
Qed.

Lemma zlen_mjoin_elem {A} (enc : A → bytes) x l :
  x ∈ l → zlen (enc x) ≤ zlen (mjoin (enc <$> l)).
Proof.
  induction 1 as [x l|x y l Hin IH].
  - change (mjoin (enc <$> x :: l)) with (enc x ++ mjoin (enc <$> l)).
    rewrite zlen_app. pose proof (zlen_nonneg (mjoin (enc <$> l))). lia.
  - change (mjoin (enc <$> y :: l)) with (enc y ++ mjoin (enc <$> l)).
    rewrite zlen_app. pose proof (zlen_nonneg (enc y)). lia.
Qed.

(** The count guard [n > uint32(remaining/c)] passes on bytes that hold [n]
    items of at least [c] bytes. *)
Lemma count_guard (b : bytes) c n :
  0 < c → c * n ≤ zlen b → zlen b < 2 ^ 32 → (u32 (zlen b / c) <? n) = false.
Proof.
  intros Hc Hn Hb. pose proof (zlen_nonneg b). rewrite u32_small.
  - apply Z.ltb_ge. by apply Z.div_le_lower_bound.
  - split; [by apply Z.div_pos|]. apply Z.div_lt_upper_bound; [done|]. nia.
Qed.

(** Solve a length inequality of a decoder's guard. *)
Ltac zlen_facts :=
  repeat match goal with
  | |- context [zlen ?x] => assert_fails (assert (0 ≤ zlen x) by assumption);
      pose proof (zlen_nonneg x)
  | _ : context [zlen ?x] |- _ => assert_fails (assert (0 ≤ zlen x) by assumption);
      pose proof (zlen_nonneg x)
  end.
Ltac zlen_lia :=
  autorewrite with zlen in *; cbn [Z.of_nat Pos.of_succ_nat Pos.succ] in *; zlen_facts;
  unfold is_u16, is_u32, is_u64, is_byte in *; lia.

(** Step through one guard or read of a decoder applied to encoded bytes. *)
Ltac decode_step :=
  first
  [ progress rewrite <- ?app_assoc
  | rewrite <- app_comm_cons
  | rewrite app_nil_l
  | rewrite bind_Ok
  | progress cbv beta iota
  | progress cbn [negb]
  | rewrite u8_at_put
  | rewrite u16_at_put by zlen_lia
  | rewrite u32_at_put by zlen_lia
  | rewrite u64_at_put by zlen_lia
  | rewrite slice_at_app by zlen_lia
  | match goal with
    | |- context [(?a <? ?b) = _] => fail 1
    | |- context [?a <? ?b] =>
        first [rewrite (proj2 (Z.ltb_ge a b)) by zlen_lia | rewrite (proj2 (Z.ltb_lt a b)) by zlen_lia]
    | |- context [?a =? ?b] =>
        first [rewrite (proj2 (Z.eqb_eq a b)) by zlen_lia | rewrite (proj2 (Z.eqb_neq a b)) by zlen_lia]
    end ].

(** ** Decoding arbitrary bytes

    [reads r Q]: the decoder result [r] is either a value satisfying [Q] or
    an error of the package other than an out-of-range access. *)

Section safe_reads.
  Context {E : Type} `{!Panicking E}.

Definition reads {A} (r : result E A) (Q : A → Prop) : Prop :=
  match r with Ok a => Q a | Err e => e ≠ out_of_range end.

Lemma reads_bind {A B} (r : result E A) (f : A → result E B) Q :
  reads r (λ a, reads (f a) Q) → reads (r ≫= f) Q.
Proof. by destruct r. Qed.

Lemma reads_mono {A} (r : result E A) (P Q : A → Prop) :
  reads r P → (∀ a, P a → Q a) → reads r Q.
Proof. destruct r; simpl; auto. Qed.

Lemma get_u16_range b : wf_bytes b → is_u16 (get_u16 b).
Proof.
  intros H. pose proof (be_get_range (take 2 b) (Forall_take _ _ _ H)) as [H1 H2].
  split; [done|]. eapply Z.lt_le_trans; [exact H2|].
  change (2 ^ 16) with (256 ^ 2). apply Z.pow_le_mono_r; [lia|].
  unfold zlen. rewrite length_take. lia.
Qed.

Lemma get_u32_range b : wf_bytes b → is_u32 (get_u32 b).
Proof.
  intros H. pose proof (be_get_range (take 4 b) (Forall_take _ _ _ H)) as [H1 H2].
  split; [done|]. eapply Z.lt_le_trans; [exact H2|].
  change (2 ^ 32) with (256 ^ 4). apply Z.pow_le_mono_r; [lia|].
  unfold zlen. rewrite length_take. lia.
Qed.

Lemma get_u64_range b : wf_bytes b → is_u64 (get_u64 b).
Proof.
  intros H. pose proof (be_get_range (take 8 b) (Forall_take _ _ _ H)) as [H1 H2].
  split; [done|]. eapply Z.lt_le_trans; [exact H2|].
  change (2 ^ 64) with (256 ^ 8). apply Z.pow_le_mono_r; [lia|].
  unfold zlen. rewrite length_take. lia.
Qed.

Lemma zlen_drop {A} n (b : list A) : Z.of_nat n ≤ zlen b → zlen (drop n b) = zlen b - Z.of_nat n.
Proof. unfold zlen. rewrite length_drop. lia. Qed.

Lemma reads_u8 b Q :
  wf_bytes b → 1 ≤ zlen b →
  (∀ x b', is_byte x → wf_bytes b' → zlen b' = zlen b - 1 → Q (x, b')) → reads (u8_at b) Q.
Proof.
  intros Hb Hl HQ. destruct Hb as [|x b' Hx Hb']; [rewrite zlen_nil in Hl; lia|].
  simpl. apply HQ; [done..|]. rewrite zlen_cons. lia.
Qed.

Lemma reads_u16 b Q :
  wf_bytes b → 2 ≤ zlen b →
  (∀ x b', is_u16 x → wf_bytes b' → zlen b' = zlen b - 2 → Q (x, b')) → reads (u16_at b) Q.
Proof.
  intros Hb Hl HQ. unfold u16_at. rewrite (proj2 (Z.ltb_ge _ _)) by done. simpl.
  apply HQ; [by apply get_u16_range|by apply Forall_drop|]. by rewrite zlen_drop.
Qed.

Lemma reads_u32 b Q :
  wf_bytes b → 4 ≤ zlen b →
  (∀ x b', is_u32 x → wf_bytes b' → zlen b' = zlen b - 4 → Q (x, b')) → reads (u32_at b) Q.
Proof.
  intros Hb Hl HQ. unfold u32_at. rewrite (proj2 (Z.ltb_ge _ _)) by done. simpl.
  apply HQ; [by apply get_u32_range|by apply Forall_drop|]. by rewrite zlen_drop.
Qed.

Lemma reads_u64 b Q :
  wf_bytes b → 8 ≤ zlen b →
  (∀ x b', is_u64 x → wf_bytes b' → zlen b' = zlen b - 8 → Q (x, b')) → reads (u64_at b) Q.
Proof.
  intros Hb Hl HQ. unfold u64_at. rewrite (proj2 (Z.ltb_ge _ _)) by done. simpl.
  apply HQ; [by apply get_u64_range|by apply Forall_drop|]. by rewrite zlen_drop.
Qed.

Lemma reads_slice n b Q :
  wf_bytes b → 0 ≤ n ≤ zlen b →
  (∀ x b', wf_bytes x → wf_bytes b' → zlen x = n → zlen b' = zlen b - n → Q (x, b')) →
  reads (slice_at n b) Q.
Proof.
  intros Hb Hn HQ. unfold slice_at. rewrite !(proj2 (Z.ltb_ge _ _)) by lia. simpl.
  apply HQ; [by apply Forall_take|by apply Forall_drop| |].
  - unfold zlen in *. rewrite length_take. lia.
  - rewrite zlen_drop; lia.
Qed.

Lemma reads_decode_n {A} (P : A → Prop) c n (dec : bytes → result E (A * bytes)) b Q :
  (∀ b, wf_bytes b → reads (dec b) (λ '(x, b'), P x ∧ wf_bytes b' ∧ zlen b' ≤ zlen b - c)) →
  wf_bytes b →
  (∀ l b', Forall P l → length l = n → wf_bytes b' → zlen b' ≤ zlen b - c * Z.of_nat n → Q (l, b')) →
  reads (decode_n n dec b) Q.
Proof.
  intros Hdec. revert b Q. induction n as [|n IH]; intros b Q Hb HQ; simpl.
  { apply HQ; [constructor|done|done|lia]. }
  apply reads_bind. eapply reads_mono; [by apply Hdec|].
  intros [x b'] (Hx & Hb' & Hl). apply reads_bind. apply IH; [done|].
  intros l b'' Hl1 Hl2 Hb'' Hl3. simpl. apply HQ; [by constructor|by rewrite <- Hl2|done|].
  rewrite Nat2Z.inj_succ. lia.
Qed.
End safe_reads.

(** Follow a decoder's guards and reads. *)
Ltac reads_step :=
  lazymatch goal with
  | |- reads (_ ≫= _) _ => apply reads_bind
  | |- reads (u8_at _) _ => apply reads_u8; [done|bool_to_prop; zlen_lia|intros]
  | |- reads (u16_at _) _ => apply reads_u16; [done|bool_to_prop; zlen_lia|intros]
  | |- reads (u32_at _) _ => apply reads_u32; [done|bool_to_prop; zlen_lia|intros]
  | |- reads (u64_at _) _ => apply reads_u64; [done|bool_to_prop; zlen_lia|intros]
  | |- reads (slice_at _ _) _ => apply reads_slice; [done|bool_to_prop; zlen_lia|intros]
  | |- reads (if ?c then _ else _) _ => let H := fresh "E" in destruct c eqn:H
  | |- reads (Err _) _ => discriminate
  | |- reads (let _ := _ in _) _ => cbv zeta
  end; cbv beta iota zeta.

#[global] Opaque be_put.
