(* ===== verification/Hash.v ===== *)
(** * Checksums of the Go standard library

    [crypto/sha256] ([Sum256]) and [hash/crc32] with the IEEE polynomial
    ([ChecksumIEEE]), computed on byte lists as the algorithms are
    specified; both are checked on their published test vectors. *)

From S2P Require Import Prelude Bytes.

(** ** CRC-32 (IEEE, reflected polynomial 0xEDB88320) *)

Fixpoint crc32_shift (n : nat) (c : Z) : Z :=
  match n with
  | O => c
  | S n => crc32_shift n
      (if Z.testbit c 0 then Z.lxor (Z.shiftr c 1) 0xEDB88320 else Z.shiftr c 1)
  end.

Definition crc32_update (c : Z) (b : bytes) : Z :=
  foldl (λ c x, crc32_shift 8 (Z.lxor c x)) c b.

(** [u32] is the identity here: the register never leaves 32 bits on byte
    input; it fixes the width of the result on any list. *)
Definition crc32 (b : bytes) : Z := u32 (Z.lxor (crc32_update 0xFFFFFFFF b) 0xFFFFFFFF).

Example crc32_check : crc32 [49; 50; 51; 52; 53; 54; 55; 56; 57] = 0xCBF43926.
Proof. vm_compute. reflexivity. Qed.

Lemma crc32_range b : is_u32 (crc32 b).
Proof. apply u32_range. Qed.

(** ** SHA-256 *)

(** The constants are the first 32 bits of the fractional parts of the square
    roots (initial state) and cube roots (rounds) of the first primes. *)
Definition is_prime (n : Z) : bool :=
  forallb (λ d, negb (n mod Z.of_nat d =? 0)) (seq 2 (Z.to_nat n - 2)).
Definition first_primes : list Z :=
  filter (λ n, is_prime n = true) (Z.of_nat <$> seq 2 310).

(** The largest [r] below [lo + 2^n] with [r^3 <= x]. *)
Fixpoint cube_root (n : nat) (lo x : Z) : Z :=
  match n with
  | O => lo
  | S n => let mid := lo + 2 ^ Z.of_nat n in cube_root n (if mid ^ 3 <=? x then mid else lo) x
  end.

Definition sha_k : list Z :=
  Eval vm_compute in (λ p, u32 (cube_root 40 0 (p * 2 ^ 96))) <$> take 64 first_primes.

Record sha_state := mkSha { sa : Z; sb : Z; sc : Z; sd : Z; se : Z; sf : Z; sg : Z; sh : Z }.

Definition sha_init : sha_state := Eval vm_compute in
  match (λ p, u32 (Z.sqrt (p * 2 ^ 64))) <$> take 8 first_primes with
  | [a; b; c; d; e; f; g; h] => mkSha a b c d e f g h
  | _ => mkSha 0 0 0 0 0 0 0 0
  end.

Definition rotr (x n : Z) : Z := u32 (Z.lor (Z.shiftr x n) (Z.shiftl x (32 - n))).
Definition small_sigma0 (x : Z) : Z := Z.lxor (Z.lxor (rotr x 7) (rotr x 18)) (Z.shiftr x 3).
Definition small_sigma1 (x : Z) : Z := Z.lxor (Z.lxor (rotr x 17) (rotr x 19)) (Z.shiftr x 10).
Definition big_sigma0 (x : Z) : Z := Z.lxor (Z.lxor (rotr x 2) (rotr x 13)) (rotr x 22).
Definition big_sigma1 (x : Z) : Z := Z.lxor (Z.lxor (rotr x 6) (rotr x 11)) (rotr x 25).
Definition sha_ch (x y z : Z) : Z := Z.lxor (Z.land x y) (Z.land (0xFFFFFFFF - x) z).
Definition sha_maj (x y z : Z) : Z := Z.lxor (Z.lxor (Z.land x y) (Z.land x z)) (Z.land y z).

(** The message schedule, newest word first. *)
Fixpoint sha_extend (n : nat) (w : list Z) : list Z :=
  match n with
  | O => w
  | S n =>
      let g i := nth i w 0 in
      sha_extend n (u32 (small_sigma1 (g 1%nat) + g 6%nat + small_sigma0 (g 14%nat) + g 15%nat) :: w)
  end.

Fixpoint words (n : nat) (b : bytes) : list Z :=
  match n with
  | O => []
  | S n => get_u32 b :: words n (drop 4 b)
  end.

Definition sha_round (s : sha_state) (kw : Z * Z) : sha_state :=
  let t1 := sh s + big_sigma1 (se s) + sha_ch (se s) (sf s) (sg s) + kw.1 + kw.2 in
  let t2 := big_sigma0 (sa s) + sha_maj (sa s) (sb s) (sc s) in
  mkSha (u32 (t1 + t2)) (sa s) (sb s) (sc s) (u32 (sd s + t1)) (se s) (sf s) (sg s).

Definition sha_block (s : sha_state) (block : bytes) : sha_state :=
  let w := reverse (sha_extend 48 (reverse (words 16 block))) in
  let r := foldl sha_round s (zip sha_k w) in
  mkSha (u32 (sa s + sa r)) (u32 (sb s + sb r)) (u32 (sc s + sc r)) (u32 (sd s + sd r))
        (u32 (se s + se r)) (u32 (sf s + sf r)) (u32 (sg s + sg r)) (u32 (sh s + sh r)).

Definition sha_pad (b : bytes) : bytes :=
  b ++ [128] ++ replicate (Z.to_nat ((55 - zlen b) mod 64)) 0 ++ put_u64 (8 * zlen b).

Fixpoint sha_blocks (n : nat) (s : sha_state) (b : bytes) : sha_state :=
  match n with
  | O => s
  | S n => sha_blocks n (sha_block s (take 64 b)) (drop 64 b)
  end.

Definition sha256 (b : bytes) : bytes :=
  let p := sha_pad b in
  let s := sha_blocks (length p / 64) sha_init p in
  put_u32 (sa s) ++ put_u32 (sb s) ++ put_u32 (sc s) ++ put_u32 (sd s) ++
  put_u32 (se s) ++ put_u32 (sf s) ++ put_u32 (sg s) ++ put_u32 (sh s).

Example sha256_abc : sha256 [97; 98; 99] =
  [0xba; 0x78; 0x16; 0xbf; 0x8f; 0x01; 0xcf; 0xea; 0x41; 0x41; 0x40; 0xde; 0x5d; 0xae; 0x22; 0x23;
   0xb0; 0x03; 0x61; 0xa3; 0x96; 0x17; 0x7a; 0x9c; 0xb4; 0x10; 0xff; 0x61; 0xf2; 0x00; 0x15; 0xad].
Proof. vm_compute. reflexivity. Qed.

Lemma zlen_sha256 b : zlen (sha256 b) = 32.
Proof. unfold sha256. cbv zeta. rewrite !zlen_app, !zlen_be_put. done. Qed.

Lemma wf_sha256 b : wf_bytes (sha256 b).
Proof.
  unfold sha256, wf_bytes. cbv zeta. rewrite !Forall_app.
  repeat split; apply wf_be_put.
Qed.

#[export] Hint Resolve crc32_range wf_sha256 : chronicle.
