(* ===== verification/GoSort.v ===== *)
(** * Go's [sort] package

    [sort.Search] is the binary search of the standard library, transcribed
    loop for loop; [sort.Strings] is a sort of the list by the string order.
    The lemma every client uses is [search_list_partition]: when a list
    splits into a part on which the predicate is false and a part on which
    it is true, the search returns the split point. *)

From S2P Require Import Prelude Bytes.

(** ** Binary search *)

(** The loop [for i < j { h := (i+j)/2; ... }].  Each iteration at least
    halves [j - i], so [n] iterations are enough for the interval [0, n]. *)
Fixpoint search_loop (fuel : nat) (f : nat → bool) (i j : nat) : nat :=
  match fuel with
  | O => i
  | S fuel =>
      if (i <? j)%nat then
        let h := ((i + j) / 2)%nat in
        if f h then search_loop fuel f i h else search_loop fuel f (S h) j
      else i
  end.

Definition search (n : nat) (f : nat → bool) : nat := search_loop n f 0 n.

(** Search over a list by a predicate on its elements. *)
Definition search_list {A} (P : A → bool) (l : list A) : nat :=
  search (length l) (λ i, match l !! i with Some x => P x | None => false end).

(** [sort.SearchStrings a x]: the first index whose string is [>= x]. *)
Definition search_strings (a : list bytes) (x : bytes) : nat :=
  search_list (λ y, negb (bltb y x)) a.

(** [sort.Strings] *)
Definition sort_strings (l : list bytes) : list bytes := merge_sort ble l.

Lemma search_loop_spec fuel f i j n k :
  (j - i ≤ fuel)%nat → (i ≤ k ≤ j)%nat → (j ≤ n)%nat →
  (∀ x, (x < k)%nat → f x = false) → (∀ x, (k ≤ x < n)%nat → f x = true) →
  search_loop fuel f i j = k.
Proof.
  revert i j. induction fuel as [|fuel IH]; intros i j Hf Hk Hj Hlo Hhi; cbn [search_loop]; [lia|].
  cbv zeta. destruct (Nat.ltb_spec i j) as [Hij|]; [|lia].
  pose proof (Nat.div_mod_eq (i + j) 2). pose proof (Nat.mod_upper_bound (i + j) 2 ltac:(lia)).
  set (h := ((i + j) / 2)%nat) in *.
  destruct (f h) eqn:Hh.
  - apply IH; try done; try lia.
    destruct (decide (k ≤ h)%nat); [lia|]. rewrite Hlo in Hh by lia. done.
  - apply IH; try done; try lia.
    destruct (decide (k ≤ h)%nat); [|lia]. rewrite Hhi in Hh by lia. done.
Qed.

Lemma search_list_partition {A} (P : A → bool) l1 l2 :
  Forall (λ x, P x = false) l1 → Forall (λ x, P x = true) l2 →
  search_list P (l1 ++ l2) = length l1.
Proof.
  intros H1 H2. unfold search_list, search.
  eapply search_loop_spec with (n := length (l1 ++ l2)); rewrite ?length_app; try lia.
  - intros x Hx. rewrite lookup_app_l by done.
    destruct (l1 !! x) eqn:E; [|done]. by apply (Forall_lookup_1 _ _ _ _ H1 E).
  - intros x Hx. rewrite lookup_app_r by lia.
    destruct (l2 !! (x - length l1)%nat) eqn:E.
    + by apply (Forall_lookup_1 _ _ _ _ H2 E).
    + apply lookup_ge_None in E. lia.
Qed.

(** A list sorted for a relation along which [P] is monotone is split by
    its filter into exactly such two parts. *)
Lemma sorted_partition {A} (R : relation A) (P : A → bool) l :
  StronglySorted R l → (∀ x y, R x y → P x = true → P y = true) →
  l = filter (λ x, P x = false) l ++ filter (λ x, P x = true) l.
Proof.
  intros Hs Hm. induction Hs as [|x l Hs IH Hx]; [done|].
  destruct (P x) eqn:E.
  - assert (Hall : Forall (λ y, P y = true) l).
    { eapply Forall_impl; [exact Hx|]. simpl. eauto. }
    rewrite filter_cons_False, filter_cons_True by congruence.
    replace (filter (λ y, P y = false) l) with (@nil A); [simpl; f_equal|].
    + clear -Hall. induction Hall; [done|]. rewrite filter_cons_True; by f_equal.
    + clear -Hall. induction Hall; [done|]. rewrite filter_cons_False; [done|congruence].
  - rewrite filter_cons_True, filter_cons_False by congruence. simpl. by f_equal.
Qed.

Lemma search_list_sorted {A} (R : relation A) (P : A → bool) l :
  StronglySorted R l → (∀ x y, R x y → P x = true → P y = true) →
  search_list P l = length (filter (λ x, P x = false) l).
Proof.
  intros Hs Hm. rewrite (sorted_partition R P l Hs Hm) at 1.
  apply search_list_partition; apply Forall_forall; intros x [? _]%list_elem_of_filter; done.
Qed.

Lemma search_list_take {A} (R : relation A) (P : A → bool) l :
  StronglySorted R l → (∀ x y, R x y → P x = true → P y = true) →
  take (search_list P l) l = filter (λ x, P x = false) l.
Proof.
  intros Hs Hm. rewrite (search_list_sorted R) by done.
  rewrite (sorted_partition R P l Hs Hm) at 2. apply take_app_length.
Qed.

Lemma search_list_drop {A} (R : relation A) (P : A → bool) l :
  StronglySorted R l → (∀ x y, R x y → P x = true → P y = true) →
  drop (search_list P l) l = filter (λ x, P x = true) l.
Proof.
  intros Hs Hm. rewrite (search_list_sorted R) by done.
  rewrite (sorted_partition R P l Hs Hm) at 2. apply drop_app_length.
Qed.

Lemma search_loop_le fuel f i j : (i ≤ j)%nat → (search_loop fuel f i j ≤ j)%nat.
Proof.
  revert i j. induction fuel as [|fuel IH]; intros i j Hij; cbn [search_loop]; [lia|].
  cbv zeta. destruct (Nat.ltb_spec i j); [|lia].
  pose proof (Nat.div_mod_eq (i + j) 2). pose proof (Nat.mod_upper_bound (i + j) 2 ltac:(lia)).
  set (h := ((i + j) / 2)%nat) in *.
  destruct (f h); [etrans; [apply IH; lia | lia] | apply IH; lia].
Qed.

Lemma search_list_le {A} (P : A → bool) l : (search_list P l ≤ length l)%nat.
Proof. apply search_loop_le. lia. Qed.

(** ** Sorted string lists *)

Lemma bltb_mono x y z : blt x y → negb (bltb x z) = true → negb (bltb y z) = true.
Proof.
  rewrite !negb_true_iff, !bltb_ge. intros Hxy [->|H]; right; [done|by trans x].
Qed.

Lemma sort_strings_perm l : sort_strings l ≡ₚ l.
Proof. apply merge_sort_Permutation. Qed.

Lemma sort_strings_sorted l : StronglySorted ble (sort_strings l).
Proof. apply (StronglySorted_merge_sort ble). Qed.

Lemma ble_ne_blt x y : ble x y → x ≠ y → blt x y.
Proof. unfold ble. intros H Hn. destruct (blt_trichotomy x y) as [?|[?|?]]; done. Qed.

Lemma blt_ble x y : blt x y → ble x y.
Proof. intros H. unfold ble. by apply blt_asym. Qed.

Lemma StronglySorted_weaken {A} (R1 R2 : relation A) l :
  (∀ x y, R1 x y → R2 x y) → StronglySorted R1 l → StronglySorted R2 l.
Proof.
  intros HR. induction 1 as [|x l Hs IH Hx]; constructor; [done|].
  eapply Forall_impl; [exact Hx|]. auto.
Qed.

Lemma sorted_NoDup_strict l : StronglySorted ble l → NoDup l → StronglySorted blt l.
Proof.
  induction 1 as [|x l Hs IH Hx]; intros Hn; [constructor|].
  apply NoDup_cons in Hn as [Hn1 Hn2]. constructor; [by apply IH|].
  rewrite Forall_forall in *. intros y Hy. apply ble_ne_blt; [by apply Hx|].
  intros ->. done.
Qed.

Lemma strict_sorted_NoDup l : StronglySorted blt l → NoDup l.
Proof.
  induction 1 as [|x l Hs IH Hx]; constructor; [|done].
  rewrite Forall_forall in Hx. intros Hy. by apply (blt_irrefl x), Hx.
Qed.

(** Two strictly sorted key lists with the same elements are equal. *)
Lemma strict_sorted_unique l1 l2 :
  StronglySorted blt l1 → StronglySorted blt l2 → (∀ k, k ∈ l1 ↔ k ∈ l2) → l1 = l2.
Proof.
  intros H1 H2 He.
  apply (StronglySorted_unique ble).
  - by eapply StronglySorted_weaken; [apply blt_ble|].
  - by eapply StronglySorted_weaken; [apply blt_ble|].
  - apply NoDup_Permutation; auto using strict_sorted_NoDup.
Qed.

Lemma sort_strings_id l : StronglySorted blt l → sort_strings l = l.
Proof.
  intros Hs. apply (StronglySorted_unique ble); [apply sort_strings_sorted| |apply sort_strings_perm].
  by eapply StronglySorted_weaken; [apply blt_ble|].
Qed.

Lemma StronglySorted_filter {A} (R : relation A) (P : A → Prop) `{!∀ x, Decision (P x)} l :
  StronglySorted R l → StronglySorted R (filter P l).
Proof.
  induction 1 as [|x l Hs IH Hx]; [constructor|].
  rewrite filter_cons. case_decide; [|done]. constructor; [done|].
  apply Forall_forall. intros y [_ Hy]%list_elem_of_filter.
  by apply (proj1 (Forall_forall _ _) Hx).
Qed.
