(* ===== verification/Scrub.v ===== *)
(** * Findings and file names ([internal/scrub/scrub.go], and the names that
    [internal/storage/storage.go] and [internal/snapshot/manager.go] give to
    their files)

    The vocabulary in which the scrubbers of the log and of the snapshots
    report, and the zero-padded decimal numbers in file names. *)

From S2P Require Import Prelude Bytes.

(** ** Findings *)

Inductive FindingKind :=
| FindingBadChecksum
| FindingBadFraming
| FindingUnsupportedVersion
| FindingIndexOutOfOrder
| FindingUnreadable
| FindingSnapshotDecodeFailed
| FindingAuditChainBroken.
#[export] Instance FindingKind_eq_dec : EqDecision FindingKind.
Proof. solve_decision. Defined.

Record Finding := mkFinding { fi_File : bytes; fi_Offset : Z; fi_Kind : FindingKind }.

(** ** Numbers in file names *)

(** The last [n] decimal digits of [v], most significant first: [%0*d] of a
    number that has no more. *)
Fixpoint dec_put (n : nat) (v : Z) : bytes :=
  match n with
  | O => []
  | S n => dec_put n (v / 10) ++ [48 + v mod 10]
  end.

(** [strconv.ParseUint(s, 10, 64)] *)
Definition dec_value (s : bytes) : Z := foldl (λ a d, a * 10 + (d - 48)) 0 s.
Definition ParseUint (s : bytes) : option Z :=
  if negb (zlen s =? 0) && forallb (λ d, (48 <=? d) && (d <=? 57)) s && (dec_value s <? 2 ^ 64)
  then Some (dec_value s) else None.

(** The number of digits of [v], at least [n]. *)
Fixpoint dec_width (fuel n : nat) (v : Z) : nat :=
  match fuel with
  | O => n
  | S fuel => if v <? 10 ^ Z.of_nat n then n else dec_width fuel (S n) v
  end.

(** ".seg" *)
Definition segmentFileSuffix : bytes := [46; 115; 101; 103].
Definition segmentIDWidth : nat := 16.

Definition SegmentFileName (id : Z) : bytes := dec_put (dec_width 20 segmentIDWidth id) id ++ segmentFileSuffix.
#[global] Arguments SegmentFileName : simpl never.

Lemma dec_value_snoc s d : dec_value (s ++ [d]) = dec_value s * 10 + (d - 48).
Proof. unfold dec_value. by rewrite foldl_app. Qed.

Lemma dec_put_spec n v :
  0 ≤ v < 10 ^ Z.of_nat n →
  length (dec_put n v) = n ∧ dec_value (dec_put n v) = v ∧
  forallb (λ d, (48 <=? d) && (d <=? 57)) (dec_put n v) = true.
Proof.
  revert v. induction n as [|n IH]; intros v Hv; [by change (10 ^ Z.of_nat 0) with 1 in Hv; cbn; split_and!; [|lia|]|].
  rewrite Nat2Z.inj_succ, Z.pow_succ_r in Hv by lia. cbn [dec_put].
  destruct (IH (v / 10)) as (H1 & H2 & H3).
  { split; [apply Z.div_pos; lia|]. apply Z.div_lt_upper_bound; lia. }
  pose proof (Z.mod_pos_bound v 10 ltac:(lia)). pose proof (Z.div_mod v 10 ltac:(lia)).
  rewrite length_app, H1, dec_value_snoc, H2, forallb_app, H3. cbn [length forallb andb].
  split; [lia|]. split; [lia|]. rewrite andb_true_r. apply andb_true_intro. split; apply Z.leb_le; lia.
Qed.
