(* ===== verification/Json.v ===== *)
(** * UTF-8 and JSON (Go's [unicode/utf8] and [encoding/json])

    What the audit log, the backup manifest and the role mapping use of the
    standard library: [json.Marshal], [json.MarshalIndent] and
    [json.Unmarshal] of structs, slices and string maps.  A text is first
    read into a tree, with the scanner's grammar and its nesting limit, and
    the tree is then stored into a Go value the way [Unmarshal] does:
    unknown keys are skipped, keys match up to case, [null] leaves a scalar
    as it is, and a value of the wrong kind is an error. *)

From S2P Require Import Prelude Bytes Scrub.

(** ** UTF-8 *)

Definition RuneError : Z := 0xFFFD.

Definition cont (b : Z) : bool := (0x80 <=? b) && (b <=? 0xBF).

(** The range of the second byte, after the first byte [b0]. *)
Definition second_ok (b0 b1 : Z) : bool :=
  if b0 =? 0xE0 then (0xA0 <=? b1) && (b1 <=? 0xBF)
  else if b0 =? 0xED then (0x80 <=? b1) && (b1 <=? 0x9F)
  else if b0 =? 0xF0 then (0x90 <=? b1) && (b1 <=? 0xBF)
  else if b0 =? 0xF4 then (0x80 <=? b1) && (b1 <=? 0x8F)
  else cont b1.

(** [utf8.DecodeRune]: the rune and its width; [RuneError] and 1 on an
    invalid encoding. *)
Definition DecodeRune (s : bytes) : Z * nat :=
  match s with
  | [] => (RuneError, 0%nat)
  | b0 :: s1 =>
      if b0 <? 0x80 then (b0, 1%nat) else
      match s1 with
      | b1 :: s2 =>
          if (0xC2 <=? b0) && (b0 <=? 0xDF) && cont b1 then ((b0 - 0xC0) * 64 + (b1 - 0x80), 2%nat) else
          match s2 with
          | b2 :: s3 =>
              if (0xE0 <=? b0) && (b0 <=? 0xEF) && second_ok b0 b1 && cont b2 then
                ((b0 - 0xE0) * 4096 + (b1 - 0x80) * 64 + (b2 - 0x80), 3%nat) else
              match s3 with
              | b3 :: _ =>
                  if (0xF0 <=? b0) && (b0 <=? 0xF4) && second_ok b0 b1 && cont b2 && cont b3 then
                    ((b0 - 0xF0) * 262144 + (b1 - 0x80) * 4096 + (b2 - 0x80) * 64 + (b3 - 0x80), 4%nat)
                  else (RuneError, 1%nat)
              | [] => (RuneError, 1%nat)
              end
          | [] => (RuneError, 1%nat)
          end
      | [] => (RuneError, 1%nat)
      end
  end.

(** [utf8.AppendRune] *)
Definition EncodeRune (r : Z) : bytes :=
  if (0 <=? r) && (r <? 0x80) then [r]
  else if (0 <=? r) && (r <? 0x800) then [0xC0 + r / 64; 0x80 + r mod 64]
  else if (r <? 0) || (0x10FFFF <? r) || ((0xD800 <=? r) && (r <=? 0xDFFF)) then [0xEF; 0xBF; 0xBD]
  else if r <? 0x10000 then [0xE0 + r / 4096; 0x80 + (r / 64) mod 64; 0x80 + r mod 64]
  else [0xF0 + r / 262144; 0x80 + (r / 4096) mod 64; 0x80 + (r / 64) mod 64; 0x80 + r mod 64].

(** The pieces a loop over [DecodeRune] visits; the number of bytes is fuel
    enough, since every piece has at least one. *)
Fixpoint pieces_fuel (fuel : nat) (s : bytes) : list bytes :=
  match fuel, s with
  | S fuel, _ :: _ => take (DecodeRune s).2 s :: pieces_fuel fuel (drop (DecodeRune s).2 s)
  | _, _ => []
  end.
Definition pieces (s : bytes) : list bytes := pieces_fuel (length s) s.

(** The text that survives encoding: invalid bytes become U+FFFD. *)
Definition coerce_piece (p : bytes) : bytes := EncodeRune (DecodeRune p).1.
Definition coerce (s : bytes) : bytes := mjoin (coerce_piece <$> pieces s).

(** [utf8.Valid] *)
Definition valid_piece (p : bytes) : bool := negb (((DecodeRune p).1 =? RuneError) && (length p =? 1)%nat).
Definition utf8_valid (s : bytes) : bool := forallb valid_piece (pieces s).

(** ** Quoting ([appendString] with HTML escapes) *)

Definition hex_digit (n : Z) : Z := if n <? 10 then 48 + n else 87 + n.

(** Bytes below 0x80 that stand for themselves: not a control character,
    a quote, a backslash, or one of the three HTML characters. *)
Definition html_safe (b : Z) : bool :=
  (0x20 <=? b) && negb (b =? 34) && negb (b =? 92) && negb (b =? 60) && negb (b =? 62) && negb (b =? 38).

Definition quote_piece (p : bytes) : bytes :=
  let '(c, size) := DecodeRune p in
  if c <? 0x80 then
    if html_safe c then [c]
    else if (c =? 34) || (c =? 92) then [92; c]
    else if c =? 8 then [92; 98]
    else if c =? 12 then [92; 102]
    else if c =? 10 then [92; 110]
    else if c =? 13 then [92; 114]
    else if c =? 9 then [92; 116]
    else [92; 117; 48; 48; hex_digit (c / 16); hex_digit (c mod 16)]
  else if (c =? RuneError) && (size =? 1)%nat then [92; 117; 102; 102; 102; 100]
  else if (c =? 0x2028) || (c =? 0x2029) then [92; 117; 50; 48; 50; hex_digit (c mod 16)]
  else take size p.

Definition quote_body (s : bytes) : bytes := mjoin (quote_piece <$> pieces s).
Definition quote (s : bytes) : bytes := 34 :: quote_body s ++ [34].

(** ** Reading a string literal *)

Definition is_hex (b : Z) : bool :=
  (48 <=? b) && (b <=? 57) || (97 <=? b) && (b <=? 102) || (65 <=? b) && (b <=? 70).
Definition hex_value (b : Z) : Z := if b <=? 57 then b - 48 else if b <=? 70 then b - 55 else b - 87.

Inductive string_state := InString | InStringEsc | InStringEscU (left : nat).

(** From after the opening quote: the raw text up to the closing one. *)
Fixpoint scan_string (st : string_state) (b : bytes) : option (bytes * bytes) :=
  match b with
  | [] => None
  | c :: b =>
      let continue st := match scan_string st b with Some (raw, rest) => Some (c :: raw, rest) | None => None end in
      match st with
      | InString =>
          if c =? 34 then Some ([], b) else if c =? 92 then continue InStringEsc
          else if c <? 0x20 then None else continue InString
      | InStringEsc =>
          if c =? 117 then continue (InStringEscU 3)
          else if bool_decide (c ∈ [98; 102; 110; 114; 116; 92; 47; 34]) then continue InString else None
      | InStringEscU n =>
          if is_hex c then continue (match n with O => InString | S n => InStringEscU n end) else None
      end
  end.

(** [getu4]: the value of [\uXXXX] at the front. *)
Definition getu4 (s : bytes) : option (Z * bytes) :=
  match s with
  | bs :: u :: a :: b :: c :: d :: rest =>
      if (bs =? 92) && (u =? 117) && is_hex a && is_hex b && is_hex c && is_hex d then
        Some (((hex_value a * 16 + hex_value b) * 16 + hex_value c) * 16 + hex_value d, rest)
      else None
  | _ => None
  end.

Definition is_surrogate (r : Z) : bool := (0xD800 <=? r) && (r <=? 0xDFFF).

(** [utf16.DecodeRune] *)
Definition utf16_decode (r1 r2 : Z) : Z :=
  if (0xD800 <=? r1) && (r1 <? 0xDC00) && (0xDC00 <=? r2) && (r2 <? 0xE000)
  then (r1 - 0xD800) * 1024 + (r2 - 0xDC00) + 0x10000 else RuneError.

(** One step of [unquoteBytes]: the bytes written and what is left to read. *)
Definition unquote_step (s : bytes) : option (bytes * bytes) :=
  match s with
  | [] => None
  | c :: rest =>
      if c =? 92 then
        match rest with
        | [] => None
        | e :: rest' =>
            if bool_decide (e ∈ [34; 92; 47; 39]) then Some ([e], rest')
            else if e =? 98 then Some ([8], rest')
            else if e =? 102 then Some ([12], rest')
            else if e =? 110 then Some ([10], rest')
            else if e =? 114 then Some ([13], rest')
            else if e =? 116 then Some ([9], rest')
            else if e =? 117 then
              match getu4 s with
              | None => None
              | Some (rr, rest) =>
                  if is_surrogate rr then
                    match getu4 rest with
                    | Some (rr1, rest1) =>
                        if utf16_decode rr rr1 =? RuneError then Some (EncodeRune RuneError, rest)
                        else Some (EncodeRune (utf16_decode rr rr1), rest1)
                    | None => Some (EncodeRune RuneError, rest)
                    end
                  else Some (EncodeRune rr, rest)
              end
            else None
        end
      else if (c =? 34) || (c <? 0x20) then None
      else if c <? 0x80 then Some ([c], rest)
      else let '(rr, size) := DecodeRune s in Some (EncodeRune rr, drop size s)
  end.

Fixpoint unquote_loop (fuel : nat) (s : bytes) : option bytes :=
  match s, fuel with
  | [], _ => Some []
  | _, O => None
  | _, S fuel =>
      match unquote_step s with
      | Some (w, rest) => match unquote_loop fuel rest with Some t => Some (w ++ t) | None => None end
      | None => None
      end
  end.
Definition unquote (raw : bytes) : option bytes := unquote_loop (length raw) raw.

(** ** Trees and their texts *)

Inductive json :=
| JNull
| JBool (b : bool)
| JNumber (literal : bytes)
| JString (s : bytes)
| JArray (l : list json)
| JObject (members : list (bytes * json)).

(** The bytes of the layout: a line break at a nesting depth, and what
    follows a key. *)
Record text_layout := mkLayout { ly_break : nat → bytes; ly_colon : bytes }.
Definition compact_text : text_layout := mkLayout (λ _, []) [58].
(** [MarshalIndent(v, "", "  ")] *)
Definition indented_text : text_layout := mkLayout (λ d, 10 :: replicate (2 * d) 32) [58; 32].

Definition keyword_null : bytes := [110; 117; 108; 108].
Definition keyword_true : bytes := [116; 114; 117; 101].
Definition keyword_false : bytes := [102; 97; 108; 115; 101].

(** The items of an array or object, each on a line of its own. *)
Fixpoint print_items (brk : bytes) (items : list bytes) : bytes :=
  match items with
  | [] => []
  | [x] => brk ++ x
  | x :: xs => brk ++ x ++ [44] ++ print_items brk xs
  end.

Section printing.
  Context (ly : text_layout).

Fixpoint print (d : nat) (v : json) : bytes :=
  match v with
  | JNull => keyword_null
  | JBool true => keyword_true
  | JBool false => keyword_false
  | JNumber l => l
  | JString s => quote s
  | JArray [] => [91; 93]
  | JArray l => [91] ++ print_items (ly_break ly (S d)) (print (S d) <$> l) ++ ly_break ly d ++ [93]
  | JObject [] => [123; 125]
  | JObject l =>
      [123] ++ print_items (ly_break ly (S d)) ((λ '(k, v), quote k ++ ly_colon ly ++ print (S d) v) <$> l) ++
      ly_break ly d ++ [125]
  end.
End printing.

(** [json.Marshal] and [json.MarshalIndent] of a value with this tree. *)
Definition Marshal (v : json) : bytes := print compact_text 0 v.
Definition MarshalIndent (v : json) : bytes := print indented_text 0 v.

(** ** Reading a text *)

Definition is_space (b : Z) : bool := (b =? 32) || (b =? 9) || (b =? 13) || (b =? 10).
Fixpoint skip_space (b : bytes) : bytes :=
  match b with c :: b' => if is_space c then skip_space b' else b | [] => [] end.

Definition is_digit (b : Z) : bool := (48 <=? b) && (b <=? 57).

(** The states of the scanner inside a number. *)
Inductive number_state := NumNeg | NumZero | NumInt | NumDot | NumDot0 | NumE | NumESign | NumE0.
Definition number_accepts (st : number_state) : bool :=
  match st with NumZero | NumInt | NumDot0 | NumE0 => true | _ => false end.
Definition number_step (st : number_state) (c : Z) : option number_state :=
  let frac_or_exp :=
    if c =? 46 then Some NumDot else if (c =? 101) || (c =? 69) then Some NumE else None in
  match st with
  | NumNeg => if c =? 48 then Some NumZero else if is_digit c then Some NumInt else None
  | NumZero => frac_or_exp
  | NumInt => if is_digit c then Some NumInt else frac_or_exp
  | NumDot => if is_digit c then Some NumDot0 else None
  | NumDot0 => if is_digit c then Some NumDot0 else if (c =? 101) || (c =? 69) then Some NumE else None
  | NumE => if (c =? 43) || (c =? 45) then Some NumESign else if is_digit c then Some NumE0 else None
  | NumESign => if is_digit c then Some NumE0 else None
  | NumE0 => if is_digit c then Some NumE0 else None
  end.

Fixpoint scan_number (st : number_state) (b : bytes) : option (bytes * bytes) :=
  match b with
  | [] => if number_accepts st then Some ([], []) else None
  | c :: b' =>
      match number_step st c with
      | Some st => match scan_number st b' with Some (l, rest) => Some (c :: l, rest) | None => None end
      | None => if number_accepts st then Some ([], b) else None
      end
  end.

(** A number literal, from its first byte. *)
Definition parse_number (b : bytes) : option (bytes * bytes) :=
  match b with
  | c :: b' =>
      if c =? 45 then match scan_number NumNeg b' with Some (l, rest) => Some (c :: l, rest) | None => None end
      else scan_number NumNeg b
  | [] => None
  end.

Definition parse_string (b : bytes) : option (bytes * bytes) :=
  match b with
  | c :: b =>
      if c =? 34 then
        match scan_string InString b with
        | Some (raw, rest) => match unquote raw with Some s => Some (s, rest) | None => None end
        | None => None
        end
      else None
  | [] => None
  end.

Definition parse_keyword (kw : bytes) (v : json) (b : bytes) : option (json * bytes) :=
  if has_prefix b kw then Some (v, drop (length kw) b) else None.

(** The items of an array or object after its opening bracket, up to the
    closing one; every item has at least a byte, so the length of the text is
    fuel enough. *)
Fixpoint parse_items {A} (fuel : nat) (close : Z) (item : bytes → option (A * bytes)) (b : bytes) : option (list A * bytes) :=
  match fuel with
  | O => None
  | S fuel =>
      match item b with
      | None => None
      | Some (x, b) =>
          match skip_space b with
          | c :: b =>
              if c =? 44 then
                match parse_items fuel close item b with Some (xs, rest) => Some (x :: xs, rest) | None => None end
              else if c =? close then Some ([x], b) else None
          | [] => None
          end
      end
  end.

Definition parse_bracket {A} (close : Z) (item : bytes → option (A * bytes)) (b : bytes) : option (list A * bytes) :=
  match skip_space b with
  | c :: b' => if c =? close then Some ([], b') else parse_items (length b) close item b
  | [] => None
  end.

Definition parse_member (value : bytes → option (json * bytes)) (b : bytes) : option ((bytes * json) * bytes) :=
  match parse_string (skip_space b) with
  | Some (k, b) =>
      match skip_space b with
      | c :: b => if c =? 58 then match value b with Some (v, b) => Some ((k, v), b) | None => None end else None
      | [] => None
      end
  | None => None
  end.

(** [maxNestingDepth] bounds the recursion. *)
Fixpoint parse_value (depth : nat) (b : bytes) : option (json * bytes) :=
  match skip_space b with
  | [] => None
  | (c :: b') as t =>
      if c =? 34 then match parse_string t with Some (s, rest) => Some (JString s, rest) | None => None end
      else if c =? 110 then parse_keyword keyword_null JNull t
      else if c =? 116 then parse_keyword keyword_true (JBool true) t
      else if c =? 102 then parse_keyword keyword_false (JBool false) t
      else if (c =? 45) || is_digit c then
        match parse_number t with Some (l, rest) => Some (JNumber l, rest) | None => None end
      else if (c =? 91) || (c =? 123) then
        match depth with
        | O => None
        | S depth =>
            if c =? 91 then
              match parse_bracket 93 (parse_value depth) b' with Some (l, rest) => Some (JArray l, rest) | None => None end
            else
              match parse_bracket 125 (parse_member (parse_value depth)) b' with
              | Some (l, rest) => Some (JObject l, rest)
              | None => None
              end
        end
      else None
  end.

Definition maxNestingDepth : nat := Z.to_nat 10000.

(** The whole text is one value. *)
Definition parse (b : bytes) : option json :=
  match parse_value maxNestingDepth b with
  | Some (v, rest) => match skip_space rest with [] => Some v | _ => None end
  | None => None
  end.

(** ** Storing a tree into a Go value

    A decoder stores a tree over the value that is there; [None] is any of
    the errors, the saved ones included. *)

Abbreviation decoder A := (json → A → option A).

(** [foldName]: keys are compared up to the simple case folding of Unicode;
    the only runes outside ASCII that fold to an ASCII letter are the long s
    and the Kelvin sign. *)
Definition fold_rune (r : Z) : Z :=
  if (97 <=? r) && (r <=? 122) then r - 32 else if r =? 0x17F then 83 else if r =? 0x212A then 75 else r.
Definition foldName (s : bytes) : list Z := (λ p, fold_rune (DecodeRune p).1) <$> pieces s.

(** The exact name first, then a name that is equal up to case. *)
Definition find_field {A} (fields : list (bytes * A)) (k : bytes) : option A :=
  match list_find (λ f, f.1 = k) fields with
  | Some (_, f) => Some f.2
  | None => (λ x, x.2.2) <$> list_find (λ f, foldName f.1 = foldName k) fields
  end.

Fixpoint store_members {S} (fields : list (bytes * decoder S)) (members : list (bytes * json)) (s : S) : option S :=
  match members with
  | [] => Some s
  | (k, v) :: members =>
      match find_field fields k with
      | Some dec => match dec v s with Some s => store_members fields members s | None => None end
      | None => store_members fields members s
      end
  end.

Definition dec_struct {S} (fields : list (bytes * decoder S)) : decoder S := λ v s,
  match v with JNull => Some s | JObject l => store_members fields l s | _ => None end.

Definition dec_string : decoder bytes := λ v s,
  match v with JNull => Some s | JString t => Some t | _ => None end.

(** An unsigned integer below [limit]. *)
Definition dec_uint (limit : Z) : decoder Z := λ v n,
  match v with
  | JNull => Some n
  | JNumber l => match ParseUint l with Some n => if n <? limit then Some n else None | None => None end
  | _ => None
  end.

(** [strconv.ParseInt(s, 10, 64)] *)
Definition ParseInt (s : bytes) : option Z :=
  match s with
  | [] => None
  | c :: digits =>
      if c =? 45 then match ParseUint digits with Some n => if n <=? 2 ^ 63 then Some (- n) else None | None => None end
      else match ParseUint (if c =? 43 then digits else s) with
           | Some n => if n <? 2 ^ 63 then Some n else None
           | None => None
           end
  end.

Definition dec_int64 : decoder Z := λ v n,
  match v with JNull => Some n | JNumber l => ParseInt l | _ => None end.

(** A slice keeps the elements it has under the new ones; a longer array adds
    zero values. *)
Fixpoint store_elements {A} (zero : A) (dec : decoder A) (l : list json) (old : list A) : option (list A) :=
  match l with
  | [] => Some []
  | v :: l =>
      match dec v (default zero (head old)), store_elements zero dec l (tail old) with
      | Some x, Some xs => Some (x :: xs)
      | _, _ => None
      end
  end.
Definition dec_slice {A} (zero : A) (dec : decoder A) : decoder (list A) := λ v old,
  match v with JNull => Some [] | JArray l => store_elements zero dec l old | _ => None end.

(** [map[string]string] *)
Definition dec_string_map : decoder (gmap bytes bytes) := λ v m,
  match v with
  | JNull => Some ∅
  | JObject l =>
      foldl (λ m '(k, v), m ← m; s ← dec_string v []; Some (<[k := s]> m)) (Some m) l
  | _ => None
  end.

(** A field of a struct as a decoder of the struct. *)
Definition field {S A} (proj : S → A) `{!Setter proj} (dec : decoder A) : decoder S := λ v s,
  (λ x, s <| proj := x |>) <$> dec v (proj s).

Definition Unmarshal {A} (dec : decoder A) (b : bytes) (a : A) : option A :=
  match parse b with Some v => dec v a | None => None end.

(** [strconv.FormatUint] and [FormatInt], base 10 *)
Definition FormatUint (n : Z) : bytes := dec_put (dec_width 20 1 n) n.
Definition FormatInt (n : Z) : bytes := if n <? 0 then 45 :: FormatUint (- n) else FormatUint n.

(** ** Text ([strings], [strconv], [fmt]) *)

(** [unicode.IsSpace] *)
Definition rune_space (r : Z) : bool :=
  bool_decide (r ∈ [9; 10; 11; 12; 13; 32; 0x85; 0xA0; 0x1680; 0x2028; 0x2029; 0x202F; 0x205F; 0x3000]) ||
  ((0x2000 <=? r) && (r <=? 0x200A)).

Fixpoint drop_while {A} (f : A → bool) (l : list A) : list A :=
  match l with x :: l' => if f x then drop_while f l' else l | [] => [] end.

(** [strings.TrimSpace] *)
Definition TrimSpace (s : bytes) : bytes :=
  let sp := λ p, rune_space (DecodeRune p).1 in
  mjoin (reverse (drop_while sp (reverse (drop_while sp (pieces s))))).

(** [bytes.TrimRight(s, string(c))] of one byte *)
Definition TrimRight (c : Z) (s : bytes) : bytes := reverse (drop_while (Z.eqb c) (reverse s)).

(** What is before and after the last [c]. *)
Fixpoint split_last (c : Z) (s : bytes) : option (bytes * bytes) :=
  match s with
  | [] => None
  | x :: s =>
      match split_last c s with
      | Some (a, b) => Some (x :: a, b)
      | None => if x =? c then Some ([], s) else None
      end
  end.

(** [strconv.ParseUint(s, 16, 32)] *)
Definition hex_number (s : bytes) : Z := foldl (λ a d, a * 16 + hex_value d) 0 s.
Definition ParseHex32 (s : bytes) : option Z :=
  if negb (zlen s =? 0) && forallb is_hex s && (hex_number s <? 2 ^ 32) then Some (hex_number s) else None.

(** The last [n] hexadecimal digits: [%08x] of a 32-bit number. *)
Fixpoint hex_put (n : nat) (v : Z) : bytes :=
  match n with
  | O => []
  | S n => hex_put n (v / 16) ++ [hex_digit (v mod 16)]
  end.
