(* ===== verification/JsonSpec.v ===== *)
(** * Texts and trees round trip ([encoding/json])

    [Unmarshal] reads back what [Marshal] and [MarshalIndent] write: every
    tree up to the replacement of invalid UTF-8 in its strings. *)

From Stdlib Require Import String.
From stdpp Require Import functions.
From S2P Require Import Prelude Bytes Scrub Json.

(** ** Runes *)

Ltac rune_cases :=
  repeat match goal with
  | |- context [if ?b then _ else _] => let E := fresh "E" in destruct b eqn:E
  | H : context [if ?b then _ else _] |- _ => let E := fresh "E" in destruct b eqn:E
  end.

Lemma DecodeRune_width s : s ≠ [] → (1 ≤ (DecodeRune s).2 ≤ length s)%nat.
Proof.
  destruct s as [|b0 [|b1 [|b2 [|b3 s]]]]; [done|..]; intros _; unfold DecodeRune; rune_cases; cbn; lia.
Qed.

(** One piece of a string: all of it is one rune, or one invalid byte. *)
Definition is_piece (p : bytes) : Prop := p ≠ [] ∧ wf_bytes p ∧ (DecodeRune p).2 = length p.

Ltac piece_solve :=
  cbn [take app DecodeRune fst snd length] in *; rune_cases; bool_to_prop; subst;
  try done; try lia; try congruence.

(** The width does not depend on what follows the piece. *)
Lemma DecodeRune_take s : s ≠ [] → DecodeRune (take (DecodeRune s).2 s) = DecodeRune s.
Proof.
  destruct s as [|b0 [|b1 [|b2 [|b3 s]]]]; [done|..]; intros _; cbn [DecodeRune];
    destruct (b0 <? 128) eqn:E0; try (cbn; by rewrite E0);
    try destruct (_ && _ && cont b1) eqn:E1; try (cbn; by rewrite ?E0, ?E1);
    try destruct (_ && _ && _ && cont b2) eqn:E2; try (cbn; by rewrite ?E0, ?E1, ?E2);
    try destruct (_ && _ && _ && _ && cont b3) eqn:E3; cbn; by rewrite ?E0, ?E1, ?E2, ?E3.
Qed.

Lemma DecodeRune_app p rest : is_piece p → valid_piece p = true → DecodeRune (p ++ rest) = DecodeRune p.
Proof.
  intros (Hne & _ & Hl) Hv. unfold valid_piece in Hv.
  destruct p as [|b0 [|b1 [|b2 [|b3 [|b4 p]]]]]; [done|..]; cbn [app DecodeRune length fst snd] in *;
    destruct (b0 <? 128) eqn:E0; try done;
    try destruct (_ && _ && cont b1) eqn:E1; try done;
    try destruct (_ && _ && _ && cont b2) eqn:E2; try done;
    try destruct (_ && _ && _ && _ && cont b3) eqn:E3; done.
Qed.

(** Split a guard of the decoder into the ranges of the bytes. *)
Ltac ranges :=
  unfold second_ok, cont in *; rune_cases; bool_to_prop.

Lemma EncodeRune_1 r : 0 ≤ r < 0x80 → EncodeRune r = [r].
Proof. intros H. unfold EncodeRune. by rewrite (proj2 (Z.leb_le _ _)), (proj2 (Z.ltb_lt _ _)) by lia. Qed.

Lemma EncodeRune_2 h l : 2 ≤ h < 32 → 0 ≤ l < 64 → EncodeRune (h * 64 + l) = [0xC0 + h; 0x80 + l].
Proof.
  intros Hh Hl. unfold EncodeRune. rune_cases; bool_to_prop; try lia.
  all: repeat f_equal; Z.to_euclidean_division_equations; lia.
Qed.

Lemma EncodeRune_3 h m l :
  0 ≤ h < 16 → 0 ≤ m < 64 → 0 ≤ l < 64 → (h = 0 → 32 ≤ m) → (h = 13 → m < 32) →
  EncodeRune (h * 4096 + m * 64 + l) = [0xE0 + h; 0x80 + m; 0x80 + l].
Proof.
  intros Hh Hm Hl H0 Hd. unfold EncodeRune.
  rewrite (proj2 (Z.leb_le _ _)), !(proj2 (Z.ltb_ge _ _)), (proj2 (Z.ltb_lt _ _)) by lia. cbn [andb orb].
  destruct (_ && _) eqn:E; bool_to_prop; [lia|].
  repeat f_equal; Z.to_euclidean_division_equations; lia.
Qed.

Lemma EncodeRune_4 h m n l :
  0 ≤ h ≤ 4 → 0 ≤ m < 64 → 0 ≤ n < 64 → 0 ≤ l < 64 → (h = 0 → 16 ≤ m) → (h = 4 → m < 16) →
  EncodeRune (h * 262144 + m * 4096 + n * 64 + l) = [0xF0 + h; 0x80 + m; 0x80 + n; 0x80 + l].
Proof.
  intros Hh Hm Hn Hl H0 Hd. unfold EncodeRune.
  rewrite (proj2 (Z.leb_le _ _)), !(proj2 (Z.ltb_ge _ _)) by lia. cbn [andb orb].
  rewrite (proj2 (Z.leb_le 0xD800 _)), (proj2 (Z.leb_gt _ 0xDFFF)) by lia. cbn [andb].
  repeat f_equal; Z.to_euclidean_division_equations; lia.
Qed.

(** Encoding is the inverse of decoding on the valid pieces. *)
Lemma EncodeRune_decode p : is_piece p → valid_piece p = true → EncodeRune (DecodeRune p).1 = p.
Proof.
  intros (Hne & Hwf & Hl) Hv. unfold valid_piece in *.
  destruct p as [|b0 [|b1 [|b2 [|b3 [|b4 p]]]]]; [done|..]; cbn [app DecodeRune length fst snd] in *;
    apply Forall_cons in Hwf as [Hb0 Hwf]; unfold is_byte in Hb0;
    (destruct (b0 <? 128) eqn:E0; cbn [snd fst] in *; try done);
    try (destruct (_ && _ && cont b1) eqn:E1; cbn [snd fst] in *; try done);
    try (destruct (_ && _ && _ && cont b2) eqn:E2; cbn [snd fst] in *; try done);
    try (destruct (_ && _ && _ && _ && cont b3) eqn:E3; cbn [snd fst] in *; try done).
  - bool_to_prop. apply EncodeRune_1. lia.
  - ranges. rewrite EncodeRune_2 by lia. repeat f_equal; lia.
  - clear E1. ranges; rewrite EncodeRune_3 by lia; repeat f_equal; lia.
  - clear E1 E2. ranges; rewrite EncodeRune_4 by lia; repeat f_equal; lia.
Qed.

(** ** Pieces *)

Lemma mjoin_cons {A} (x : list A) l : mjoin (x :: l) = x ++ mjoin l.
Proof. done. Qed.

Lemma pieces_fuel_ok fuel s :
  wf_bytes s → (length s ≤ fuel)%nat → Forall is_piece (pieces_fuel fuel s) ∧ mjoin (pieces_fuel fuel s) = s.
Proof.
  revert s. induction fuel as [|fuel IH]; intros [|b s] Hwf Hl; cbn [length pieces_fuel] in *; try (by split; [constructor|]); [lia|].
  pose proof (DecodeRune_width (b :: s) ltac:(done)) as Hw. set (n := (DecodeRune (b :: s)).2) in *.
  destruct (IH (drop n (b :: s))) as [H1 H2]; [by apply Forall_drop|rewrite length_drop; cbn [length] in *; lia|].
  split; [constructor; [|done]|by rewrite mjoin_cons, H2, take_drop].
  split; [|split; [by apply Forall_take|]].
  - intros E%(f_equal length). rewrite length_take in E. cbn [length] in *. lia.
  - unfold n at 1. rewrite DecodeRune_take by done. fold n. rewrite length_take. cbn [length] in *. lia.
Qed.

Lemma pieces_ok s : wf_bytes s → Forall is_piece (pieces s).
Proof. intros H. by apply pieces_fuel_ok. Qed.
Lemma pieces_join s : wf_bytes s → mjoin (pieces s) = s.
Proof. intros H. by apply pieces_fuel_ok. Qed.

(** Valid text is not changed. *)
Lemma coerce_valid s : wf_bytes s → utf8_valid s = true → coerce s = s.
Proof.
  intros Hwf Hv. unfold coerce, utf8_valid in *. rewrite <- (pieces_join s Hwf) at 2.
  pose proof (pieces_ok s Hwf) as Hp. induction Hp as [|p ps Hp Hps IH]; [done|].
  cbn [forallb] in Hv. apply andb_true_iff in Hv as [Hv1 Hv2]. rewrite fmap_cons, !mjoin_cons, IH by done.
  f_equal. by apply EncodeRune_decode.
Qed.

(** A piece is one ASCII byte, or only bytes above. *)
Lemma piece_kind p :
  is_piece p → (∃ c, p = [c] ∧ (DecodeRune p).1 = c ∧ 0 ≤ c < 0x80) ∨
               (0x80 ≤ (DecodeRune p).1 ∧ Forall (λ b, 0x80 ≤ b) p).
Proof.
  intros (Hne & Hwf & Hl). destruct p as [|b0 [|b1 [|b2 [|b3 [|b4 p]]]]]; [done|..]; cbn [DecodeRune length fst snd] in *;
    apply Forall_cons in Hwf as [Hb0 Hwf]; unfold is_byte in Hb0;
    (destruct (b0 <? 128) eqn:E0; cbn [snd fst] in *; try done);
    try (destruct (_ && _ && cont b1) eqn:E1; cbn [snd fst] in *; try done);
    try (destruct (_ && _ && _ && cont b2) eqn:E2; cbn [snd fst] in *; try done);
    try (destruct (_ && _ && _ && _ && cont b3) eqn:E3; cbn [snd fst] in *; try done).
  - left. exists b0. bool_to_prop. split_and!; [done|done|lia|lia].
  - right. bool_to_prop. split; [done|]. constructor; [done|constructor].
  - right. ranges. split; [lia|]. repeat constructor; lia.
  - right. clear E1. ranges; (split; [lia|repeat constructor; lia]).
  - right. clear E1 E2. ranges; (split; [lia|repeat constructor; lia]).
Qed.

(** ** Strings *)

Definition scanned (l : bytes) (r : option (bytes * bytes)) : option (bytes * bytes) :=
  (λ x, (l ++ x.1, x.2)) <$> r.

Lemma scan_plain l b :
  Forall (λ c, 0x80 ≤ c) l → scan_string InString (l ++ b) = scanned l (scan_string InString b).
Proof.
  induction 1 as [|c l Hc Hl IH]; cbn [app scan_string].
  { by destruct (scan_string InString b) as [[]|]. }
  rewrite (proj2 (Z.eqb_neq c 34)), (proj2 (Z.eqb_neq c 92)), (proj2 (Z.ltb_ge c 0x20)) by lia.
  rewrite IH. by destruct (scan_string InString b) as [[]|].
Qed.

(** Decide a statement about every ASCII byte one by one. *)
Ltac each_ascii c :=
  let p := fresh "p" in
  destruct c as [|p|p]; [|do 7 (try destruct p as [p|p|])|lia]; try lia.

Lemma scan_ascii c b :
  0 ≤ c < 0x80 → scan_string InString (quote_piece [c] ++ b) = scanned (quote_piece [c]) (scan_string InString b).
Proof. intros Hc. each_ascii c; cbv -[scan_string]; cbn [scan_string]; by destruct (scan_string InString b) as [[]|]. Qed.

Lemma unquote_ascii c b : 0 ≤ c < 0x80 → unquote_step (quote_piece [c] ++ b) = Some ([c], b).
Proof. intros Hc. each_ascii c; vm_compute; reflexivity. Qed.

(** What is written for a piece above ASCII. *)
Lemma quote_high p :
  is_piece p → 0x80 ≤ (DecodeRune p).1 →
  (valid_piece p = false ∧ quote_piece p = [92; 117; 102; 102; 102; 100]) ∨
  (∃ d, (d = 56 ∨ d = 57) ∧ (DecodeRune p).1 = 0x2028 + (d - 56) ∧ quote_piece p = [92; 117; 50; 48; 50; d]) ∨
  (valid_piece p = true ∧ quote_piece p = p).
Proof.
  intros (Hne & Hwf & Hl) Hc. unfold quote_piece, valid_piece. destruct (DecodeRune p) as [c size]. cbn [fst snd] in *. subst size.
  rewrite (proj2 (Z.ltb_ge _ _)) by done. destruct (_ && _) eqn:E; [by left|]. right.
  destruct (_ || _) eqn:E2; [left|right; by rewrite firstn_all].
  apply orb_true_iff in E2 as [->%Z.eqb_eq| ->%Z.eqb_eq]; [exists 56|exists 57]; (split; [lia|done]).
Qed.

Lemma coerce_invalid p : is_piece p → valid_piece p = false → coerce_piece p = [0xEF; 0xBF; 0xBD].
Proof. intros _ Hv%negb_false_iff%andb_true_iff. unfold coerce_piece. destruct Hv as [->%Z.eqb_eq _]. done. Qed.

Lemma scan_piece p b :
  is_piece p → scan_string InString (quote_piece p ++ b) = scanned (quote_piece p) (scan_string InString b).
Proof.
  intros Hp. destruct (piece_kind p Hp) as [(c & -> & _ & Hc)|[Hc Hall]]; [by apply scan_ascii|].
  destruct (quote_high p Hp Hc) as [[_ ->]|[(d & [->| ->] & _ & ->)|[_ ->]]]; [..|by apply scan_plain].
  all: cbv -[scan_string]; cbn [scan_string]; by destruct (scan_string InString b) as [[]|].
Qed.

Lemma unquote_piece p b : is_piece p → unquote_step (quote_piece p ++ b) = Some (coerce_piece p, b).
Proof.
  intros Hp. destruct (piece_kind p Hp) as [(c & -> & Hd & Hc)|[Hc Hall]].
  { rewrite unquote_ascii by done. unfold coerce_piece. by rewrite Hd, EncodeRune_1. }
  destruct (quote_high p Hp Hc) as [[Hv ->]|[(d & Hd & Hr & ->)|[Hv ->]]].
  - by rewrite coerce_invalid.
  - unfold coerce_piece. rewrite Hr. destruct Hd as [->| ->]; vm_compute; reflexivity.
  - destruct Hall as [|c p Hc0 Hall]; [by destruct Hp|]. unfold unquote_step. cbn [app].
    rewrite (proj2 (Z.eqb_neq c 92)), (proj2 (Z.eqb_neq c 34)), !(proj2 (Z.ltb_ge c _)) by lia. cbn [orb].
    change (c :: p ++ b) with ((c :: p) ++ b). rewrite DecodeRune_app by done. unfold coerce_piece.
    destruct Hp as (_ & _ & Hl). destruct (DecodeRune (c :: p)) as [rr size]. cbn [fst snd] in *. subst size.
    by rewrite drop_app_length.
Qed.

Lemma quote_piece_length p : is_piece p → (1 ≤ length (quote_piece p))%nat.
Proof.
  intros Hp. pose proof (unquote_piece p [] Hp) as H. rewrite app_nil_r in H. destruct (quote_piece p); [done|cbn; lia].
Qed.

Lemma scan_quoted ps b :
  Forall is_piece ps →
  scan_string InString (mjoin (quote_piece <$> ps) ++ 34 :: b) = Some (mjoin (quote_piece <$> ps), b).
Proof.
  induction 1 as [|p ps Hp Hps IH]; [done|]. rewrite fmap_cons, mjoin_cons, <- app_assoc, scan_piece, IH by done. done.
Qed.

Lemma unquote_quoted ps fuel :
  Forall is_piece ps → (length (mjoin (quote_piece <$> ps)) ≤ fuel)%nat →
  unquote_loop fuel (mjoin (quote_piece <$> ps)) = Some (mjoin (coerce_piece <$> ps)).
Proof.
  intros Hps. revert fuel. induction Hps as [|p ps Hp Hps IH]; intros fuel Hf; [by destruct fuel|].
  rewrite !fmap_cons, !mjoin_cons in *. rewrite length_app in Hf. pose proof (quote_piece_length p Hp) as Hq.
  pose proof (unquote_piece p (mjoin (quote_piece <$> ps)) Hp) as Hu.
  destruct (quote_piece p ++ mjoin (quote_piece <$> ps)) as [|c t] eqn:E.
  { by destruct (quote_piece p). }
  destruct fuel as [|fuel]; [lia|]. cbn [unquote_loop]. rewrite Hu, IH by lia. done.
Qed.

Lemma parse_quote s rest : wf_bytes s → parse_string (quote s ++ rest) = Some (coerce s, rest).
Proof.
  intros Hs%pieces_ok. unfold quote, parse_string. cbn [app]. rewrite Z.eqb_refl, <- app_assoc. cbn [app].
  unfold quote_body. rewrite scan_quoted by done. unfold unquote. by rewrite unquote_quoted.
Qed.

(** ** Numbers *)

(** The text after a number does not continue it. *)
Definition ends_number (b : bytes) : Prop :=
  match b with [] => True | c :: _ => is_digit c = false ∧ c ≠ 46 ∧ c ≠ 101 ∧ c ≠ 69 end.

Definition literal_ok (l : bytes) : Prop :=
  (∃ c t, l = c :: t ∧ ((c =? 45) || is_digit c) = true) ∧
  ∀ rest, ends_number rest → parse_number (l ++ rest) = Some (l, rest).

Lemma scan_end st rest : st = NumZero ∨ st = NumInt → ends_number rest → scan_number st rest = Some ([], rest).
Proof.
  intros Hst H. destruct rest as [|c rest]; [by destruct Hst as [->| ->]|]. destruct H as (Hd & H1 & H2 & H3).
  cbn [scan_number]. destruct Hst as [->| ->]; unfold number_step; rewrite ?Hd;
    by rewrite (proj2 (Z.eqb_neq _ _) H1), (proj2 (Z.eqb_neq _ _) H2), (proj2 (Z.eqb_neq _ _) H3).
Qed.

Lemma scan_digits l rest :
  forallb is_digit l = true → ends_number rest → scan_number NumInt (l ++ rest) = Some (l, rest).
Proof.
  intros Hl Hr. induction l as [|c l IH]; [apply scan_end; auto|].
  cbn [forallb] in Hl. apply andb_true_iff in Hl as [Hc Hl]. cbn [app scan_number number_step]. by rewrite Hc, IH.
Qed.

(** Digits without a leading zero. *)
Definition decimal (l : bytes) : Prop :=
  l = [48] ∨ ∃ c t, l = c :: t ∧ forallb is_digit l = true ∧ c ≠ 48.

Lemma scan_decimal l rest : decimal l → ends_number rest → scan_number NumNeg (l ++ rest) = Some (l, rest).
Proof.
  intros [->|(c & t & -> & Hd & Hc)] Hr; cbn [app scan_number number_step].
  - by rewrite Z.eqb_refl, scan_end by auto.
  - cbn [forallb] in Hd. apply andb_true_iff in Hd as [Hc' Hd].
    by rewrite (proj2 (Z.eqb_neq _ _) Hc), Hc', scan_digits.
Qed.

Lemma decimal_literal l : decimal l → literal_ok l ∧ literal_ok (45 :: l).
Proof.
  intros Hl. split; (split; [|intros rest Hr; unfold parse_number]).
  - destruct Hl as [->|(c & t & -> & Hd & _)]; [by exists 48, []|]. exists c, t. split; [done|].
    cbn [forallb] in Hd. apply andb_true_iff in Hd as [-> _]. apply orb_true_r.
  - rewrite <- (scan_decimal l rest Hl Hr). destruct Hl as [->|(c & t & -> & Hd & _)]; [done|]. cbn [app].
    destruct (Z.eqb_spec c 45) as [->|]; [done|done].
  - by exists 45, l.
  - cbn [app]. by rewrite Z.eqb_refl, scan_decimal.
Qed.

Lemma dec_width_ok fuel n v :
  (1 ≤ n)%nat → 0 ≤ v < 10 ^ Z.of_nat (n + fuel) → (n = 1%nat ∨ 10 ^ (Z.of_nat n - 1) ≤ v) →
  (1 ≤ dec_width fuel n v)%nat ∧ v < 10 ^ Z.of_nat (dec_width fuel n v) ∧
  (dec_width fuel n v = 1%nat ∨ 10 ^ (Z.of_nat (dec_width fuel n v) - 1) ≤ v).
Proof.
  revert n. induction fuel as [|fuel IH]; intros n Hn Hv Hlow; cbn [dec_width].
  { rewrite Nat.add_0_r in Hv. split; [done|]. split; [apply Hv|done]. }
  destruct (Z.ltb_spec v (10 ^ Z.of_nat n)); [done|].
  apply IH; [lia|by replace (S n + fuel)%nat with (n + S fuel)%nat by lia|right].
  by replace (Z.of_nat (S n) - 1) with (Z.of_nat n) by lia.
Qed.

Lemma dec_put_head n v : dec_put (S n) v = (48 + (v / 10 ^ Z.of_nat n) mod 10) :: dec_put n v.
Proof.
  revert v. induction n as [|n IH]; intros v; [by cbn; rewrite Z.div_1_r|].
  change (dec_put (S (S n)) v) with (dec_put (S n) (v / 10) ++ [48 + v mod 10]). rewrite IH.
  rewrite Nat2Z.inj_succ, Z.pow_succ_r, Zdiv.Zdiv_Zdiv by lia. done.
Qed.

Lemma FormatUint_spec v : is_u64 v → decimal (FormatUint v) ∧ ParseUint (FormatUint v) = Some v.
Proof.
  intros Hv. unfold FormatUint. destruct (dec_width_ok 20 1 v) as (Hw & Hup & Hlow); [done| |by left|].
  { unfold is_u64 in Hv. change (Z.of_nat (1 + 20)) with 21. lia. }
  set (w := dec_width 20 1 v) in *. clearbody w. destruct w as [|w]; [lia|]. unfold is_u64 in Hv.
  destruct (dec_put_spec (S w) v ltac:(lia)) as (H1 & H2 & H3). split.
  - destruct Hlow as [Hw1|Hlow].
    + assert (w = 0%nat) as -> by lia. change (10 ^ Z.of_nat 1) with 10 in Hup. cbn.
      rewrite Z.mod_small by lia. destruct (decide (v = 0)) as [->|Hv0]; [by left|right].
      eexists _, _. split; [done|]. split; [|lia]. cbn. rewrite andb_true_r. unfold is_digit. apply andb_true_intro.
      split; apply Z.leb_le; lia.
    + right. rewrite dec_put_head in *. eexists _, _. split; [done|]. split; [exact H3|].
      replace (Z.of_nat (S w) - 1) with (Z.of_nat w) in Hlow by lia.
      rewrite Nat2Z.inj_succ, Z.pow_succ_r in Hup by lia.
      assert (1 ≤ v / 10 ^ Z.of_nat w) by (apply Z.div_le_lower_bound; lia).
      assert (v / 10 ^ Z.of_nat w < 10) by (apply Z.div_lt_upper_bound; lia). rewrite Z.mod_small by lia. lia.
  - unfold ParseUint. rewrite H3, H2, (proj2 (Z.ltb_lt _ _)) by lia. unfold zlen. by rewrite H1.
Qed.

Lemma FormatInt_spec v :
  - 2 ^ 63 ≤ v < 2 ^ 63 → literal_ok (FormatInt v) ∧ ParseInt (FormatInt v) = Some v.
Proof.
  intros Hv. unfold FormatInt. destruct (Z.ltb_spec v 0) as [Hneg|Hpos].
  - destruct (FormatUint_spec (- v)) as [H1 H2]; [unfold is_u64; lia|]. split; [by apply decimal_literal|].
    unfold ParseInt. rewrite Z.eqb_refl, H2, (proj2 (Z.leb_le _ _)) by lia. by rewrite Z.opp_involutive.
  - destruct (FormatUint_spec v) as [H1 H2]; [unfold is_u64; lia|]. split; [by apply decimal_literal|].
    destruct (FormatUint v) as [|c t] eqn:E; [by destruct H1 as [|(?&?&?&_)]|]. unfold ParseInt.
    assert (Hd : is_digit c = true).
    { destruct H1 as [[= -> ->]|(?&?&[= <- <-]&Hd&_)]; [done|]. by apply andb_true_iff in Hd as [? _]. }
    unfold is_digit in Hd. bool_to_prop. rewrite (proj2 (Z.eqb_neq c 45)), (proj2 (Z.eqb_neq c 43)) by lia.
    by rewrite H2, (proj2 (Z.ltb_lt _ _)) by lia.
Qed.

(** ** Trees *)

(** Induction over the subtrees. *)
Definition json_nested_ind (P : json → Prop)
    (Hnull : P JNull) (Hbool : ∀ b, P (JBool b)) (Hnum : ∀ l, P (JNumber l)) (Hstr : ∀ s, P (JString s))
    (Harr : ∀ l, Forall P l → P (JArray l)) (Hobj : ∀ l, Forall (λ m, P m.2) l → P (JObject l)) : ∀ v, P v :=
  fix go v :=
    match v with
    | JNull => Hnull
    | JBool b => Hbool b
    | JNumber l => Hnum l
    | JString s => Hstr s
    | JArray l =>
        Harr l ((fix all l := match l return Forall P l with
                              | [] => Forall_nil_2 _
                              | v :: l => Forall_cons_2 _ _ _ (go v) (all l)
                              end) l)
    | JObject l =>
        Hobj l ((fix all l := match l return Forall (λ m, P m.2) l with
                              | [] => Forall_nil_2 _
                              | m :: l => Forall_cons_2 _ _ _ (go m.2) (all l)
                              end) l)
    end.

(** The levels of brackets. *)
Fixpoint json_depth (v : json) : nat :=
  match v with
  | JArray l => S (list_max (json_depth <$> l))
  | JObject l => S (list_max ((λ m, json_depth m.2) <$> l))
  | _ => 0
  end.

Fixpoint coerce_json (v : json) : json :=
  match v with
  | JString s => JString (coerce s)
  | JArray l => JArray (coerce_json <$> l)
  | JObject l => JObject ((λ m, (coerce m.1, coerce_json m.2)) <$> l)
  | _ => v
  end.

Fixpoint json_ok (v : json) : Prop :=
  match v with
  | JNumber l => literal_ok l
  | JString s => wf_bytes s
  | JArray l => foldr (λ v P, json_ok v ∧ P) True l
  | JObject l => foldr (λ m P, wf_bytes m.1 ∧ json_ok m.2 ∧ P) True l
  | _ => True
  end.

Definition spaces (w : bytes) : Prop := Forall (λ c, is_space c = true) w.

Definition layout_ok (ly : text_layout) : Prop :=
  (∀ d, spaces (ly_break ly d)) ∧ ∃ w, ly_colon ly = 58 :: w ∧ spaces w.

Lemma compact_ok : layout_ok compact_text.
Proof. split; [constructor|]. exists []. split; [done|constructor]. Qed.
Lemma indented_ok : layout_ok indented_text.
Proof.
  split; [|exists [32]; split; [done|by repeat constructor]].
  intros d. constructor; [done|]. apply Forall_replicate. done.
Qed.

Lemma skip_spaces w b : spaces w → skip_space (w ++ b) = skip_space b.
Proof. induction 1 as [|c w Hc Hw IH]; [done|]. cbn [app skip_space]. by rewrite Hc. Qed.

Lemma skip_none c b : is_space c = false → skip_space (c :: b) = c :: b.
Proof. intros H. cbn [skip_space]. by rewrite H. Qed.

(** The value starts with a byte that is no space, comma or bracket that closes. *)
Definition opens (b : bytes) : Prop :=
  ∃ c t, b = c :: t ∧ is_space c = false ∧ c ≠ 93 ∧ c ≠ 125.

Lemma literal_opens l : literal_ok l → opens l.
Proof.
  intros [(c & t & -> & Hc) _]. exists c, t. split; [done|]. unfold is_digit, is_space in *.
  apply orb_true_iff in Hc as [->%Z.eqb_eq|Hc]; [done|]. bool_to_prop.
  rewrite !(proj2 (Z.eqb_neq c _)) by lia. split; [done|]. lia.
Qed.

Lemma print_opens ly d v : json_ok v → opens (print ly d v).
Proof.
  destruct v as [|[]| | |[]|[]]; intros Hv; cbn [print];
    try (eexists _, _; split; [reflexivity|by split_and!]).
  by apply literal_opens.
Qed.

Lemma parse_value_spaces n w b : spaces w → parse_value n (w ++ b) = parse_value n b.
Proof. intros Hw. destruct n; cbn [parse_value]; by rewrite skip_spaces. Qed.

Lemma ends_spaces w c b : spaces w → c = 44 ∨ c = 93 ∨ c = 125 → ends_number (w ++ c :: b).
Proof.
  intros Hw Hc. destruct Hw as [|s w Hs Hw]; cbn [app ends_number].
  - by destruct Hc as [->|[->| ->]].
  - unfold is_space, is_digit in *. repeat (apply orb_true_iff in Hs as [Hs|Hs]); apply Z.eqb_eq in Hs as ->; done.
Qed.

Section items.
  Context {A B : Type} (close : Z) (item : bytes → option (B * bytes)) (f : A → bytes) (g : A → B) (brk : bytes).
  Hypothesis Hclose : close = 93 ∨ close = 125.
  Hypothesis Hbrk : spaces brk.

Lemma parse_items_print l w rest fuel :
  spaces w → l ≠ [] → (length l ≤ fuel)%nat →
  (∀ x r, x ∈ l → ends_number r → item (brk ++ f x ++ r) = Some (g x, r)) →
  parse_items fuel close item (print_items brk (f <$> l) ++ w ++ close :: rest) = Some (g <$> l, rest).
Proof.
  intros Hw. revert fuel. induction l as [|x l IH]; intros fuel Hne Hf Hitem; [done|].
  destruct fuel as [|fuel]; [cbn in Hf; lia|]. rewrite !fmap_cons. destruct l as [|y l].
  - cbn [print_items fmap list_fmap parse_items]. rewrite <- app_assoc, Hitem by (set_solver || by apply ends_spaces; [|tauto]).
    rewrite skip_spaces, skip_none by (done || by destruct Hclose as [->| ->]).
    rewrite (proj2 (Z.eqb_neq close 44)) by lia. by rewrite Z.eqb_refl.
  - assert (IHl := IH fuel ltac:(done) ltac:(cbn in *; lia) ltac:(set_solver)). rewrite fmap_cons in *.
    change (print_items brk (f x :: f y :: (f <$> l))) with (brk ++ f x ++ [44] ++ print_items brk (f y :: (f <$> l))).
    cbn [parse_items]. rewrite <- !app_assoc. cbn [app]. rewrite Hitem by (done || set_solver).
    rewrite skip_none by done. rewrite Z.eqb_refl. rewrite IHl. done.
Qed.

Lemma print_items_length items : Forall (λ b, b ≠ []) items → (length items ≤ length (print_items brk items))%nat.
Proof.
  induction 1 as [|x [|y items] Hx Hi IH]; [done|..]; cbn [print_items length] in *; rewrite !length_app.
  - destruct x; [done|]. cbn. lia.
  - cbn [length]. lia.
Qed.

Lemma parse_bracket_print l w rest :
  spaces w → l ≠ [] → Forall (λ x, opens (f x)) l →
  (∀ x r, x ∈ l → ends_number r → item (brk ++ f x ++ r) = Some (g x, r)) →
  parse_bracket close item (print_items brk (f <$> l) ++ w ++ close :: rest) = Some (g <$> l, rest).
Proof.
  intros Hw Hne Ho Hitem. unfold parse_bracket.
  assert (Hl : (length l ≤ length (print_items brk (f <$> l) ++ w ++ close :: rest))%nat).
  { rewrite length_app. pose proof (print_items_length (f <$> l)) as H. rewrite length_fmap in H.
    enough (length l ≤ length (print_items brk (f <$> l)))%nat by lia. apply H. rewrite Forall_fmap.
    eapply Forall_impl; [exact Ho|]. intros x (c & t & E & _). cbn. by rewrite E. }
  rewrite parse_items_print by done. clear Hl.
  destruct Ho as [|x l (c & t & E & Hs & Hc1 & Hc2) _]; [done|]. rewrite fmap_cons.
  assert (∃ t', print_items brk (f x :: (f <$> l)) = brk ++ c :: t') as [t' ->].
  { destruct (f <$> l) as [|y ys]; cbn [print_items]; rewrite E; [by exists t|by eexists]. }
  rewrite <- app_assoc, skip_spaces by done. cbn [app]. rewrite skip_none by done.
  by rewrite (proj2 (Z.eqb_neq c close)) by (destruct Hclose; congruence).
Qed.
End items.

Lemma parse_member_print value brk w w' k v t r :
  spaces brk → spaces w' → wf_bytes k → (∀ b, value (w' ++ b) = value b) → value (t ++ r) = Some (v, r) → w = 58 :: w' →
  parse_member value (brk ++ (quote k ++ w ++ t) ++ r) = Some ((coerce k, v), r).
Proof.
  intros Hb Hw Hk Hskip Hv ->. unfold parse_member. rewrite skip_spaces by done. rewrite <- app_assoc.
  unfold quote at 1. cbn [app]. rewrite skip_none by done.
  change (34 :: (quote_body k ++ [34]) ++ ?b) with (quote k ++ b). rewrite parse_quote by done.
  rewrite skip_none by done. rewrite Z.eqb_refl, <- app_assoc, Hskip, Hv. done.
Qed.

Lemma Forall_depth {A} (f : A → nat) l n : (list_max (f <$> l) ≤ n)%nat ↔ Forall (λ x, f x ≤ n)%nat l.
Proof. rewrite list_max_le. apply Forall_fmap. Qed.

(** The branches of the parser by the first byte. *)
Lemma parse_value_string n s b :
  parse_value n (quote s ++ b) = match parse_string (quote s ++ b) with Some (s, rest) => Some (JString s, rest) | None => None end.
Proof. by destruct n. Qed.
Lemma parse_value_array n b :
  parse_value (S n) (91 :: b) =
  match parse_bracket 93 (parse_value n) b with Some (l, rest) => Some (JArray l, rest) | None => None end.
Proof. done. Qed.
Lemma parse_value_object n b :
  parse_value (S n) (123 :: b) =
  match parse_bracket 125 (parse_member (parse_value n)) b with Some (l, rest) => Some (JObject l, rest) | None => None end.
Proof. done. Qed.
Lemma parse_value_number n c b :
  ((c =? 45) || is_digit c) = true →
  parse_value n (c :: b) = match parse_number (c :: b) with Some (l, rest) => Some (JNumber l, rest) | None => None end.
Proof.
  intros Hc. assert (is_space c = false ∧ c ≠ 34 ∧ c ≠ 110 ∧ c ≠ 116 ∧ c ≠ 102) as (Hs & H1 & H2 & H3 & H4).
  { apply orb_true_iff in Hc as [->%Z.eqb_eq|Hc]; [done|]. unfold is_space, is_digit in *. bool_to_prop.
    rewrite !(proj2 (Z.eqb_neq c _)) by lia. split; [done|]. lia. }
  assert (skip_space (c :: b) = c :: b) as Hsk by by apply skip_none.
  destruct n; unfold parse_value; rewrite Hsk;
    rewrite (proj2 (Z.eqb_neq _ _) H1), (proj2 (Z.eqb_neq _ _) H2), (proj2 (Z.eqb_neq _ _) H3), (proj2 (Z.eqb_neq _ _) H4), Hc; done.
Qed.

Lemma array_ok_Forall l : foldr (λ v P, json_ok v ∧ P) True l ↔ Forall json_ok l.
Proof. induction l as [|v l IH]; cbn [foldr]; [by rewrite Forall_nil|]. by rewrite Forall_cons, IH. Qed.
Lemma object_ok_Forall l :
  foldr (λ m P, wf_bytes m.1 ∧ json_ok m.2 ∧ P) True l ↔ Forall (λ m, wf_bytes m.1 ∧ json_ok m.2) l.
Proof. induction l as [|v l IH]; cbn [foldr]; [by rewrite Forall_nil|]. rewrite Forall_cons, IH. tauto. Qed.

(** Reading what was printed, whatever follows it. *)
Lemma parse_print ly d v n rest :
  layout_ok ly → json_ok v → (json_depth v ≤ n)%nat → ends_number rest →
  parse_value n (print ly d v ++ rest) = Some (coerce_json v, rest).
Proof.
  intros [Hbreak (w' & Hcolon & Hw')]. revert d n rest.
  induction v as [|b|l|s|l IH|l IH] using json_nested_ind; intros d n rest Hok Hd Hr.
  - by destruct n.
  - by destruct b, n.
  - destruct Hok as [(c & t & -> & Hc) Hp]. cbn [print app]. rewrite parse_value_number by done.
    specialize (Hp rest Hr). cbn [app] in Hp. by rewrite Hp.
  - cbn [print]. by rewrite parse_value_string, parse_quote.
  - destruct n as [|n]; [cbn in Hd; lia|]. destruct l as [|x l]; [done|]. cbn [json_depth] in Hd. apply le_S_n, Forall_depth in Hd.
    cbn [json_ok] in Hok. apply array_ok_Forall in Hok. cbn [print]. rewrite <- !app_assoc. cbn [app].
    rewrite parse_value_array, (parse_bracket_print 93 _ (print ly (S d)) coerce_json); [done|by left|apply Hbreak|apply Hbreak|done|..].
    + eapply Forall_impl; [exact Hok|]. intros y Hy. by apply print_opens.
    + intros y r Hy Hr'. rewrite parse_value_spaces by apply Hbreak. rewrite Forall_forall in IH, Hok, Hd. by apply IH; auto.
  - destruct n as [|n]; [cbn in Hd; lia|]. destruct l as [|x l]; [done|]. cbn [json_depth] in Hd. apply le_S_n, Forall_depth in Hd.
    cbn [json_ok] in Hok. apply object_ok_Forall in Hok. cbn [print]. rewrite <- !app_assoc. cbn [app].
    rewrite parse_value_object, (parse_bracket_print 125 _ _ (λ m, (coerce m.1, coerce_json m.2))); [done|by right|apply Hbreak|apply Hbreak|done|..].
    + apply Forall_true. intros [k v]. eexists _, _. by split_and!.
    + intros [k y] r Hy Hr'. rewrite Forall_forall in IH, Hok, Hd. destruct (Hok _ Hy) as [Hk Hy'].
      apply parse_member_print with w'; [apply Hbreak|done|done| |apply (IH (k, y)); auto|done].
      intros b. by apply parse_value_spaces.
Qed.

Lemma parse_text ly v :
  layout_ok ly → json_ok v → (json_depth v ≤ maxNestingDepth)%nat → parse (print ly 0 v) = Some (coerce_json v).
Proof. intros. unfold parse. rewrite <- (app_nil_r (print ly 0 v)), parse_print by done. done. Qed.

(** The texts of [Marshal] and [MarshalIndent] are read back. *)
Lemma Unmarshal_Marshal {A} (dec : decoder A) v a :
  json_ok v → (json_depth v ≤ maxNestingDepth)%nat → Unmarshal dec (Marshal v) a = dec (coerce_json v) a.
Proof. intros. unfold Unmarshal, Marshal. by rewrite parse_text by (done || apply compact_ok). Qed.
Lemma Unmarshal_MarshalIndent {A} (dec : decoder A) v a :
  json_ok v → (json_depth v ≤ maxNestingDepth)%nat → Unmarshal dec (MarshalIndent v) a = dec (coerce_json v) a.
Proof. intros. unfold Unmarshal, MarshalIndent. by rewrite parse_text by (done || apply indented_ok). Qed.

(** ** Structs *)

(** Every field of a struct is stored from the tree of its own key. *)
Fixpoint store_all {S} (decs : list (decoder S)) (vs : list json) (s : S) : option S :=
  match decs, vs with
  | dec :: decs, v :: vs => match dec v s with Some s => store_all decs vs s | None => None end
  | _, _ => Some s
  end.

Lemma find_field_exact {A} (fields : list (bytes * A)) i k dec :
  NoDup (fields.*1) → fields !! i = Some (k, dec) → find_field fields k = Some dec.
Proof.
  intros Hn Hi. unfold find_field.
  assert (list_find (λ f, f.1 = k) fields = Some (i, (k, dec))) as ->; [|done].
  apply list_find_Some. split; [done|]. split; [done|]. intros j [k' dec'] Hj Hlt E. cbn in E. subst k'.
  assert (i = j) as ->; [|lia]. eapply NoDup_lookup; [exact Hn|..]; rewrite list_lookup_fmap; [by rewrite Hi|by rewrite Hj].
Qed.

(** Members in the order of the fields, of which the last may be missing. *)
Lemma store_members_prefix {S} (fields fields' : list (bytes * decoder S)) pre members rest s :
  NoDup (fields.*1) → fields = pre ++ fields' → fields'.*1 = members.*1 ++ rest →
  store_members fields members s = store_all (fields'.*2) (members.*2) s.
Proof.
  intros Hn. revert pre fields' s. induction members as [|[k v] members IH]; intros pre fields' s Hf Hl.
  { by destruct (fields'.*2). }
  destruct fields' as [|[k' dec] fields']; [done|]. rewrite !fmap_cons in Hl. cbn [fst app] in Hl. injection Hl as -> Hl.
  rewrite !fmap_cons. cbn [fst snd store_members store_all].
  rewrite (find_field_exact fields (length pre) k dec Hn) by (rewrite Hf; by apply list_lookup_middle).
  destruct (dec v s) as [s'|]; [|done]. apply (IH (pre ++ [(k, dec)])); [by rewrite <- app_assoc|done].
Qed.

Lemma dec_struct_prefix {S} (fields : list (bytes * decoder S)) members rest s :
  NoDup (fields.*1) → fields.*1 = members.*1 ++ rest →
  dec_struct fields (JObject members) s = store_all (fields.*2) (members.*2) s.
Proof. intros Hn Hm. cbn [dec_struct]. by apply (store_members_prefix fields fields [] members rest). Qed.

Lemma dec_struct_all {S} (fields : list (bytes * decoder S)) members s :
  NoDup (fields.*1) → members.*1 = fields.*1 →
  dec_struct fields (JObject members) s = store_all (fields.*2) (members.*2) s.
Proof. intros Hn Hm. apply (dec_struct_prefix _ _ []); [done|]. by rewrite app_nil_r. Qed.

(** The keys of a struct are plain text. *)
Lemma coerce_members l :
  Forall (λ m, coerce m.1 = m.1) l → coerce_json (JObject l) = JObject ((λ m, (m.1, coerce_json m.2)) <$> l).
Proof.
  intros H. cbn [coerce_json]. f_equal. apply list_fmap_ext. intros i m Hm.
  rewrite Forall_lookup in H. by rewrite (H i m Hm).
Qed.

Lemma dec_uint_format limit n old : 0 ≤ n < limit → limit ≤ 2 ^ 64 → dec_uint limit (JNumber (FormatUint n)) old = Some n.
Proof.
  intros Hn Hl. cbn [dec_uint]. destruct (FormatUint_spec n) as [_ ->]; [unfold is_u64; lia|].
  by rewrite (proj2 (Z.ltb_lt _ _)) by lia.
Qed.

Lemma dec_int64_format n old : - 2 ^ 63 ≤ n < 2 ^ 63 → dec_int64 (JNumber (FormatInt n)) old = Some n.
Proof. intros Hn. cbn [dec_int64]. by destruct (FormatInt_spec n Hn). Qed.

Lemma store_elements_format {A} zero (dec : decoder A) (f : A → json) l :
  (∀ x, x ∈ l → dec (f x) zero = Some x) → store_elements zero dec (f <$> l) [] = Some l.
Proof.
  induction l as [|x l IH]; intros H; [done|]. rewrite fmap_cons. cbn [store_elements head tail default].
  rewrite H by set_solver. rewrite IH by set_solver. done.
Qed.

(** ** Well-formed values *)

Definition is_int64 (n : Z) : Prop := - 2 ^ 63 ≤ n < 2 ^ 63.
Definition text_ok (s : bytes) : Prop := wf_bytes s ∧ utf8_valid s = true.

Lemma text_coerce s : text_ok s → coerce s = s.
Proof. intros [H1 H2]. by apply coerce_valid. Qed.

Lemma uint_ok n : is_u64 n → json_ok (JNumber (FormatUint n)).
Proof. intros H. apply decimal_literal, (FormatUint_spec n H). Qed.
Lemma u32_uint_ok n : is_u32 n → json_ok (JNumber (FormatUint n)).
Proof. intros H. apply uint_ok. unfold is_u32, is_u64 in *. lia. Qed.
Lemma int_ok n : is_int64 n → json_ok (JNumber (FormatInt n)).
Proof. intros H. apply (FormatInt_spec n H). Qed.
Lemma key_ok (s : string) : is_wf_bytes (str s) = true → wf_bytes (str s).
Proof. apply wf_bytes_compute. Qed.

Ltac plain_keys := repeat (apply Forall_cons; split; [vm_compute; reflexivity|]); apply Forall_nil_2.

(** A decoder that reads [v] as [x] whatever was there. *)
Definition reads_as {A} (dec : decoder A) (v : json) (x : A) : Prop := ∀ old, dec v old = Some x.

Lemma field_reads {S A} (proj : S → A) `{!Setter proj} dec v x s :
  reads_as dec v x → field proj dec v s = Some (s <| proj := x |>).
Proof. intros H. unfold field. by rewrite H. Qed.

(** ** Text *)

Lemma drop_while_none {A} (f : A → bool) l : Forall (λ x, f x = false) l → drop_while f l = l.
Proof. destruct 1 as [|x l H]; [done|]. cbn. by rewrite H. Qed.

Definition plain (s : bytes) : Prop := Forall (λ c, 0 ≤ c < 0x80 ∧ rune_space c = false) s.

Lemma pieces_plain s : plain s → pieces s = (λ c, [c]) <$> s.
Proof.
  unfold pieces. induction 1 as [|c s [Hc _] Hs IH]; [done|]. cbn [length pieces_fuel DecodeRune].
  rewrite (proj2 (Z.ltb_lt _ _)) by lia. cbn [fst snd]. rewrite skipn_cons, firstn_cons, drop_0, take_0. by rewrite IH.
Qed.

Lemma TrimSpace_plain s : plain s → TrimSpace s = s.
Proof.
  intros Hs. unfold TrimSpace. cbv zeta. rewrite pieces_plain by done.
  assert (H : Forall (λ p, rune_space (DecodeRune p).1 = false) ((λ c, [c]) <$> s)).
  { apply Forall_fmap. eapply Forall_impl; [exact Hs|]. intros c [Hc Hr]. cbn. by rewrite (proj2 (Z.ltb_lt _ _)) by lia. }
  rewrite (drop_while_none _ ((λ c, [c]) <$> s)) by exact H. rewrite drop_while_none by (apply Forall_reverse; exact H).
  rewrite reverse_involutive. clear. induction s as [|c s IH]; [done|]. rewrite fmap_cons, mjoin_cons, IH. done.
Qed.

Lemma split_last_none c s : Forall (λ x, x ≠ c) s → split_last c s = None.
Proof. induction 1 as [|x s Hx Hs IH]; [done|]. cbn. rewrite IH. by rewrite (proj2 (Z.eqb_neq _ _)). Qed.

Lemma split_last_app c a b : Forall (λ x, x ≠ c) b → split_last c (a ++ c :: b) = Some (a, b).
Proof.
  intros Hb. induction a as [|x a IH]; cbn [app split_last].
  - by rewrite split_last_none, Z.eqb_refl.
  - by rewrite IH.
Qed.

Lemma TrimRight_one c s x : x ≠ c → TrimRight c (s ++ [x] ++ [c]) = s ++ [x].
Proof.
  intros Hx. unfold TrimRight. rewrite app_assoc, reverse_snoc. cbn [drop_while].
  rewrite Z.eqb_refl, reverse_snoc. cbn [drop_while]. rewrite (proj2 (Z.eqb_neq c x)) by congruence.
  by rewrite reverse_cons, reverse_involutive.
Qed.

Lemma hex_digit_ok n : 0 ≤ n < 16 →
  is_hex (hex_digit n) = true ∧ hex_value (hex_digit n) = n ∧ 0 ≤ hex_digit n < 0x80 ∧
  rune_space (hex_digit n) = false ∧ hex_digit n ≠ 10.
Proof.
  intros Hn. destruct n as [|p|p]; [|do 4 (try destruct p as [p|p|])|lia]; try lia; vm_compute; repeat split; discriminate.
Qed.

Lemma hex_put_spec n v :
  0 ≤ v < 16 ^ Z.of_nat n →
  length (hex_put n v) = n ∧ hex_number (hex_put n v) = v ∧ forallb is_hex (hex_put n v) = true ∧
  plain (hex_put n v) ∧ Forall (λ x, x ≠ 10) (hex_put n v).
Proof.
  revert v. induction n as [|n IH]; intros v Hv.
  { change (16 ^ Z.of_nat 0) with 1 in Hv. cbn. split_and!; [done|lia|done|constructor|constructor]. }
  rewrite Nat2Z.inj_succ, Z.pow_succ_r in Hv by lia. cbn [hex_put].
  destruct (IH (v / 16)) as (H1 & H2 & H3 & H4 & H5).
  { split; [apply Z.div_pos; lia|]. apply Z.div_lt_upper_bound; lia. }
  pose proof (Z.mod_pos_bound v 16 ltac:(lia)) as Hm. pose proof (Z.div_mod v 16 ltac:(lia)).
  destruct (hex_digit_ok _ Hm) as (D1 & D2 & D3 & D4 & D5).
  rewrite length_app, H1, forallb_app, H3. unfold hex_number in *. rewrite foldl_app, H2. cbn [length forallb andb foldl].
  rewrite D1, D2. split_and!; [lia|lia|done|..]; (apply Forall_app_2; [done|apply Forall_singleton; done]).
Qed.
