(* ===== verification/Mvcc.v ===== *)
(** * The multi-version store ([internal/mvcc/mvcc.go])

    [Store] keeps, per key, the chain of its committed versions in ascending
    [CommitSeq] order, the sorted list of its keys, and the applied GC
    horizon.  The mutex makes every operation one atomic step, so each is a
    function of the whole store. *)

From S2P Require Import Prelude Bytes GoSort.

Inductive mvcc_error :=
| ErrNonMonotonicCommit (key : bytes) (latest new : Z)
| ErrSnapshotTooOld.

Record Version := mkVersion {
  CommitSeq : Z;
  Value : bytes;
  Tombstone : bool
}.

Record Mutation := mkMutation {
  Key : bytes;
  MValue : bytes;
  MTombstone : bool
}.

#[export] Instance Version_eq_dec : EqDecision Version.
Proof. solve_decision. Defined.
#[export] Instance Mutation_eq_dec : EqDecision Mutation.
Proof. solve_decision. Defined.

Record Store := mkStore {
  chains : gmap bytes (list Version);
  orderedKeys : list bytes;
  gcWatermark : Z;
  skipHorizonGuardForTest : bool
}.
#[export] Instance Store_eta : Eta Store := λ s,
  mkStore (chains s) (orderedKeys s) (gcWatermark s) (skipHorizonGuardForTest s).

Record KeyChain := mkKeyChain { kc_key : bytes; kc_versions : list Version }.

(** [s.chains[key]]: the zero value of an absent key is the empty slice. *)
Definition chain_of (s : Store) (key : bytes) : list Version := default [] (chains s !! key).

Definition NewStore : Store := mkStore ∅ [] 0 false.

Definition SetSkipHorizonGuardForTest (s : Store) (skip : bool) : Store :=
  s <| skipHorizonGuardForTest := skip |>.

(** ** Keys *)

(** [append], [copy] the tail up by one, store at [idx]. *)
Definition insertOrderedKey (keys : list bytes) (key : bytes) : list bytes :=
  let idx := search_strings keys key in
  take idx keys ++ key :: drop idx keys.

Definition KeysFrom (s : Store) (cursor : bytes) (limit : Z) : list bytes :=
  if limit <=? 0 then [] else
  let start := search_strings (orderedKeys s) cursor in
  let start := if bool_decide (orderedKeys s !! start = Some cursor) then S start else start in
  let n := length (orderedKeys s) in
  if (n <=? start)%nat then [] else
  let stop := Z.of_nat start + limit in
  let stop := if Z.of_nat n <? stop then Z.of_nat n else stop in
  take (Z.to_nat stop - start) (drop start (orderedKeys s)).

(** ** Reads *)

(** The index of the newest version with [CommitSeq <= seq], or [-1]. *)
Definition newest_index (chain : list Version) (seq : Z) : Z :=
  Z.of_nat (search_list (λ v, seq <? CommitSeq v) chain) - 1.

(** The body shared by [Visible] and [ScanVisible]: the value of the newest
    version at [startSeq], [None] where the code reports not found. *)
Definition visible_in_chain (chain : list Version) (startSeq : Z) : option bytes :=
  let idx := newest_index chain startSeq in
  if idx <? 0 then None else
  v ← chain !! Z.to_nat idx;
  if Tombstone v then None else Some (Value v).

Definition horizon_guard (s : Store) (startSeq : Z) : bool :=
  (startSeq <? gcWatermark s) && negb (skipHorizonGuardForTest s).

Definition Visible (s : Store) (key : bytes) (startSeq : Z) : result mvcc_error (option bytes) :=
  if horizon_guard s startSeq then Err ErrSnapshotTooOld else
  Ok (visible_in_chain (chain_of s key) startSeq).

Definition ScanVisible (s : Store) (prefix : bytes) (startSeq : Z)
    : result mvcc_error (list (bytes * bytes)) :=
  if horizon_guard s startSeq then Err ErrSnapshotTooOld else
  Ok (omap (λ k,
    if negb (has_prefix k prefix) then None else
    v ← visible_in_chain (chain_of s k) startSeq; Some (k, v)) (orderedKeys s)).

Definition LatestCommitSeq (s : Store) (key : bytes) : option Z :=
  CommitSeq <$> last (chain_of s key).

Fixpoint CheckConflicts (s : Store) (startSeq : Z) (mutations : list Mutation)
    : option (bytes * Z) :=
  match mutations with
  | [] => None
  | m :: rest =>
      match last (chain_of s (Key m)) with
      | None => CheckConflicts s startSeq rest
      | Some v =>
          if startSeq <? CommitSeq v then Some (Key m, CommitSeq v)
          else CheckConflicts s startSeq rest
      end
  end.

(** ** Garbage collection *)

Definition ReclaimKey (s : Store) (key : bytes) (w : Z) (budget : Z) : Store * Z :=
  if budget <=? 0 then (s, 0) else
  let chain := chain_of s key in
  if (length chain <? 2)%nat then (s, 0) else
  let idx := newest_index chain w in
  if idx <=? 0 then (s, 0) else
  let n := if budget <? idx then budget else idx in
  (s <| chains := <[key := drop (Z.to_nat n) chain]> (chains s) |>, n).

Definition SetGCWatermark (s : Store) (w : Z) : Store :=
  if gcWatermark s <? w then s <| gcWatermark := w |> else s.

(** ** Commit *)

Definition monotonicity_violation (s : Store) (commitSeq : Z) (m : Mutation) : option mvcc_error :=
  v ← last (chain_of s (Key m));
  if commitSeq <=? CommitSeq v
  then Some (ErrNonMonotonicCommit (Key m) (CommitSeq v) commitSeq) else None.

Definition append_version (commitSeq : Z) (s : Store) (m : Mutation) : Store :=
  let s := match chains s !! Key m with
           | Some _ => s
           | None => s <| orderedKeys := insertOrderedKey (orderedKeys s) (Key m) |>
           end in
  s <| chains := <[Key m := chain_of s (Key m) ++
                   [mkVersion commitSeq (MValue m) (MTombstone m)]]> (chains s) |>.

Fixpoint first_violation (s : Store) (commitSeq : Z) (ms : list Mutation) : option mvcc_error :=
  match ms with
  | [] => None
  | m :: ms =>
      match monotonicity_violation s commitSeq m with
      | Some e => Some e
      | None => first_violation s commitSeq ms
      end
  end.

Definition ApplyCommit (s : Store) (commitSeq : Z) (mutations : list Mutation)
    : result mvcc_error Store :=
  match mutations with
  | [] => Ok s
  | _ =>
      match first_violation s commitSeq mutations with
      | Some e => Err e
      | None => Ok (foldl (append_version commitSeq) s mutations)
      end
  end.

(** ** Export and restore *)

Definition kc_le (a b : KeyChain) : Prop := ble (kc_key a) (kc_key b).
#[export] Instance kc_le_dec : RelDecision kc_le.
Proof. intros a b. unfold kc_le. apply _. Defined.

Definition Export (s : Store) : list KeyChain :=
  merge_sort kc_le ((λ kv, mkKeyChain kv.1 kv.2) <$> map_to_list (chains s)).

Definition RestoreStore (kcs : list KeyChain) (watermark : Z) : Store :=
  mkStore (foldl (λ m kc, <[kc_key kc := kc_versions kc]> m) ∅ kcs)
          (sort_strings (kc_key <$> kcs)) watermark false.

Definition Stats (s : Store) : nat * nat :=
  (size (chains s), map_fold (λ _ vs n, (length vs + n)%nat) 0%nat (chains s)).

(** ** Well-formedness *)

(** Versions of one chain are in commit order.  The order is weak: two
    mutations of one commit may name the same key. *)
Definition vle (v1 v2 : Version) : Prop := CommitSeq v1 ≤ CommitSeq v2.

Record store_wf (s : Store) : Prop := {
  wf_keys_sorted : StronglySorted blt (orderedKeys s);
  wf_keys_dom : ∀ k, k ∈ orderedKeys s ↔ is_Some (chains s !! k);
  wf_chain_nonempty : ∀ k c, chains s !! k = Some c → c ≠ [];
  wf_chain_sorted : ∀ k, StronglySorted vle (chain_of s k)
}.

Lemma chain_of_Some s k c : chains s !! k = Some c → chain_of s k = c.
Proof. unfold chain_of. by intros ->. Qed.

Lemma chain_of_nil s k : store_wf s → chain_of s k = [] → chains s !! k = None.
Proof.
  intros Hwf. unfold chain_of. destruct (chains s !! k) eqn:E; [|done]. simpl.
  intros ->. by apply (wf_chain_nonempty s Hwf) in E.
Qed.

Lemma wf_mem_chain s k : store_wf s → k ∈ orderedKeys s ↔ chain_of s k ≠ [].
Proof.
  intros Hwf. rewrite (wf_keys_dom s Hwf). split.
  - intros [c Hc]. rewrite (chain_of_Some s k c Hc). by eapply wf_chain_nonempty.
  - intros H. destruct (chains s !! k) eqn:E; [done|].
    unfold chain_of in H. by rewrite E in H.
Qed.

(** ** The binary search finds the newest version *)

(** The reference reading of a chain: the last version committed at or
    before [seq]. *)
Definition newest_at (chain : list Version) (seq : Z) : option Version :=
  last (filter (λ v, CommitSeq v ≤ seq) chain).

Definition version_value (v : Version) : option bytes :=
  if Tombstone v then None else Some (Value v).

Lemma filter_ltb_leb seq (l : list Version) :
  filter (λ v, (seq <? CommitSeq v) = false) l = filter (λ v, CommitSeq v ≤ seq) l.
Proof. apply list_filter_iff. intros v. rewrite Z.ltb_ge. done. Qed.

Lemma ltb_vle_mono seq v1 v2 :
  vle v1 v2 → (seq <? CommitSeq v1) = true → (seq <? CommitSeq v2) = true.
Proof. unfold vle. rewrite !Z.ltb_lt. lia. Qed.

Lemma newest_index_eq chain seq :
  StronglySorted vle chain →
  newest_index chain seq = zlen (filter (λ v, CommitSeq v ≤ seq) chain) - 1.
Proof.
  intros Hs. unfold newest_index, zlen.
  rewrite (search_list_sorted vle) by (done || apply ltb_vle_mono).
  by rewrite filter_ltb_leb.
Qed.

(** The versions at or before [seq] are a prefix of the chain. *)
Lemma chain_split chain seq :
  StronglySorted vle chain →
  chain = filter (λ v, CommitSeq v ≤ seq) chain ++ filter (λ v, seq < CommitSeq v) chain.
Proof.
  intros Hs. etrans; [apply (sorted_partition vle (λ v, seq <? CommitSeq v)); [done|]|].
  { apply ltb_vle_mono. }
  f_equal; [apply filter_ltb_leb|]. apply list_filter_iff. intros v. apply Z.ltb_lt.
Qed.

Lemma visible_in_chain_spec chain seq :
  StronglySorted vle chain →
  visible_in_chain chain seq = newest_at chain seq ≫= version_value.
Proof.
  intros Hs. unfold visible_in_chain, newest_at. rewrite newest_index_eq by done.
  pose proof (chain_split chain seq Hs) as Hc.
  set (l := filter (λ v, CommitSeq v ≤ seq) chain) in *.
  destruct (Z.ltb_spec (zlen l - 1) 0) as [Hl|Hl].
  - destruct l; [done|]. rewrite zlen_cons in Hl. pose proof (zlen_nonneg l). lia.
  - rewrite last_lookup, Hc, lookup_app_l by (unfold zlen in *; lia).
    by replace (Z.to_nat (zlen l - 1)) with (pred (length l)) by (unfold zlen; lia).
Qed.

(** ** The key list *)

Lemma insertOrderedKey_perm keys k : insertOrderedKey keys k ≡ₚ k :: keys.
Proof.
  unfold insertOrderedKey. set (i := search_strings keys k).
  rewrite <- (take_drop i keys) at 3. by rewrite Permutation_middle.
Qed.

Lemma not_bltb_split k y : y ≠ k → negb (bltb y k) = true → blt k y.
Proof. rewrite negb_true_iff, bltb_ge. intros ? [?|?]; [congruence|done]. Qed.

Lemma search_strings_take keys k :
  StronglySorted blt keys →
  take (search_strings keys k) keys = filter (λ y, negb (bltb y k) = false) keys.
Proof. intros Hs. apply (search_list_take blt); [done|]. intros x y. apply bltb_mono. Qed.

Lemma search_strings_drop keys k :
  StronglySorted blt keys →
  drop (search_strings keys k) keys = filter (λ y, negb (bltb y k) = true) keys.
Proof. intros Hs. apply (search_list_drop blt); [done|]. intros x y. apply bltb_mono. Qed.

Lemma insertOrderedKey_sorted keys k :
  StronglySorted blt keys → k ∉ keys → StronglySorted blt (insertOrderedKey keys k).
Proof.
  intros Hs Hk. unfold insertOrderedKey.
  rewrite search_strings_take, search_strings_drop by done.
  assert (Hlo : ∀ x, x ∈ filter (λ y, negb (bltb y k) = false) keys → blt x k).
  { intros x [Hx _]%list_elem_of_filter. by apply negb_false_iff in Hx. }
  assert (Hhi : Forall (blt k) (filter (λ y, negb (bltb y k) = true) keys)).
  { apply Forall_forall. intros x [Hx Hin]%list_elem_of_filter.
    apply not_bltb_split; [by intros ->|done]. }
  apply StronglySorted_app_2.
  - intros x1 x2 H1 H2. apply Hlo in H1. apply elem_of_cons in H2 as [->|H2]; [done|].
    trans k; [done|]. by apply (proj1 (Forall_forall _ _) Hhi).
  - by apply StronglySorted_filter.
  - constructor; [by apply StronglySorted_filter|done].
Qed.

(** The keys strictly after the cursor, in order. *)
Definition keys_after (s : Store) (cursor : bytes) : list bytes :=
  filter (blt cursor) (orderedKeys s).

(** In a strictly sorted list without smaller elements, the cursor can only
    be the head. *)
Lemma sorted_head_cursor l (cursor : bytes) :
  StronglySorted blt l → (∀ y, y ∈ l → ¬ blt y cursor) → cursor ∈ l → head l = Some cursor.
Proof.
  intros Hs Hall Hin. destruct Hs as [|z l Hs Hz]; [by apply not_elem_of_nil in Hin|].
  apply elem_of_cons in Hin as [->|Hin]; [done|]. exfalso.
  apply (Hall z); [left|]. by apply (proj1 (Forall_forall _ _) Hz).
Qed.

Lemma drop_start_keys keys cursor :
  StronglySorted blt keys →
  drop (if bool_decide (keys !! search_strings keys cursor = Some cursor)
        then S (search_strings keys cursor) else search_strings keys cursor) keys
  = filter (blt cursor) keys.
Proof.
  intros Hs. set (i := search_strings keys cursor).
  assert (Hd : ∀ y, y ∈ drop i keys ↔ ¬ blt y cursor ∧ y ∈ keys).
  { intros y. unfold i. rewrite search_strings_drop, list_elem_of_filter by done.
    unfold blt. rewrite negb_true_iff, not_true_iff_false. done. }
  assert (Hds : StronglySorted blt (drop i keys)).
  { rewrite <- (take_drop i keys) in Hs. by apply StronglySorted_app_1_r in Hs. }
  case_bool_decide as E.
  - rewrite (drop_S keys cursor i E) in Hds, Hd.
    apply StronglySorted_cons in Hds as [Hc Hds]. rewrite Forall_forall in Hc.
    apply strict_sorted_unique; [done|by apply StronglySorted_filter|].
    intros k. specialize (Hd k). rewrite elem_of_cons in Hd. rewrite list_elem_of_filter.
    split; [intros Hk; split; [by apply Hc|naive_solver]|].
    intros [Hlt Hk]. destruct (proj2 Hd) as [->|?]; [|by apply blt_irrefl in Hlt|done].
    split; [by apply blt_asym|done].
  - apply strict_sorted_unique; [done|by apply StronglySorted_filter|].
    intros k. rewrite Hd, list_elem_of_filter. split; intros [H1 H2]; (split; [|done]).
    + apply ble_ne_blt; [done|]. intros <-. apply E.
      rewrite <- (Nat.add_0_r i), <- lookup_drop, <- head_lookup.
      apply sorted_head_cursor; [done| |by apply Hd]. intros y Hy. by apply Hd in Hy as [? _].
    + by apply blt_asym.
Qed.

Lemma KeysFrom_eq s cursor limit :
  store_wf s → KeysFrom s cursor limit = take (Z.to_nat limit) (keys_after s cursor).
Proof.
  intros [Hs _ _ _]. unfold KeysFrom, keys_after.
  destruct (Z.leb_spec limit 0) as [Hl|Hl].
  { by replace (Z.to_nat limit) with 0%nat by lia. }
  rewrite <- drop_start_keys by done. cbv zeta.
  set (start := if bool_decide _ then _ else _).
  destruct (Nat.leb_spec (length (orderedKeys s)) start).
  { rewrite drop_ge by done. by rewrite take_nil. }
  destruct (Z.ltb_spec (Z.of_nat (length (orderedKeys s))) (Z.of_nat start + limit)).
  - rewrite !take_ge; [done| |]; rewrite length_drop; lia.
  - f_equal. lia.
Qed.

(** ** Commit: effect on chains and keys *)

Definition mutation_versions (commitSeq : Z) (k : bytes) (ms : list Mutation) : list Version :=
  (λ m, mkVersion commitSeq (MValue m) (MTombstone m)) <$> filter (λ m, Key m = k) ms.

Lemma chain_of_append_version c s m k :
  chain_of (append_version c s m) k = chain_of s k ++ mutation_versions c k [m].
Proof.
  unfold append_version, mutation_versions, chain_of.
  rewrite filter_cons, filter_nil. simpl.
  assert (Hc : chains (match chains s !! Key m with
           | Some _ => s
           | None => s <| orderedKeys := insertOrderedKey (orderedKeys s) (Key m) |>
           end) = chains s) by (by destruct (chains s !! Key m)).
  rewrite Hc. case_decide as E.
  - subst. by rewrite lookup_insert_eq.
  - rewrite lookup_insert_ne by done. simpl. by rewrite app_nil_r.
Qed.

Lemma chain_of_append_versions c ms s k :
  chain_of (foldl (append_version c) s ms) k = chain_of s k ++ mutation_versions c k ms.
Proof.
  revert s. induction ms as [|m ms IH]; intros s; simpl.
  { by rewrite app_nil_r. }
  rewrite IH, chain_of_append_version, <- app_assoc. f_equal.
  unfold mutation_versions. rewrite <- fmap_app, <- filter_app. done.
Qed.

Lemma first_violation_None s c ms :
  first_violation s c ms = None ↔
  ∀ m v, m ∈ ms → last (chain_of s (Key m)) = Some v → CommitSeq v < c.
Proof.
  induction ms as [|m ms IH]; simpl; [set_solver|].
  unfold monotonicity_violation.
  destruct (last (chain_of s (Key m))) as [v|] eqn:E; simpl.
  - destruct (Z.leb_spec c (CommitSeq v)).
    + split; [done|]. intros Hall. specialize (Hall m v ltac:(left) E). lia.
    + rewrite IH. split; [|set_solver].
      intros Hall m' v' [->|Hm']%elem_of_cons Hl; [|by eauto]. naive_solver.
  - rewrite IH. split; [|set_solver].
    intros Hall m' v' [->|Hm']%elem_of_cons Hl; [|by eauto]. naive_solver.
Qed.

Lemma first_violation_Some s c ms e :
  first_violation s c ms = Some e →
  ∃ m v, m ∈ ms ∧ last (chain_of s (Key m)) = Some v ∧ c ≤ CommitSeq v.
Proof.
  induction ms as [|m ms IH]; simpl; [done|].
  destruct (monotonicity_violation s c m) eqn:E.
  - intros _. unfold monotonicity_violation in E. apply bind_Some in E as (v & Hv & E).
    case_match eqn:Hle; [|done]. bool_to_prop. exists m, v. split; [left|done].
  - intros (m' & v & ? & ?)%IH. exists m', v. split; [by right|done].
Qed.

Lemma ApplyCommit_Ok_inv s c ms s' :
  ApplyCommit s c ms = Ok s' →
  s' = foldl (append_version c) s ms ∧
  ∀ m v, m ∈ ms → last (chain_of s (Key m)) = Some v → CommitSeq v < c.
Proof.
  unfold ApplyCommit. destruct ms as [|m ms].
  - intros [= <-]. split; [done|]. by intros ? ? ?%not_elem_of_nil.
  - destruct (first_violation _ _ _) eqn:E; [done|]. intros [= <-].
    split; [done|]. by apply first_violation_None.
Qed.

Lemma last_sorted_max (l : list Version) v u :
  StronglySorted vle l → last l = Some v → u ∈ l → CommitSeq u ≤ CommitSeq v.
Proof.
  intros Hs Hl Hu. apply last_Some in Hl as [l' ->].
  apply elem_of_app in Hu as [Hu|Hu%list_elem_of_singleton]; [|by subst].
  eapply (StronglySorted_app_1_elem_of vle); [exact Hs|done|by apply list_elem_of_singleton].
Qed.

Lemma append_version_other c s m :
  gcWatermark (append_version c s m) = gcWatermark s ∧
  skipHorizonGuardForTest (append_version c s m) = skipHorizonGuardForTest s.
Proof. unfold append_version. by destruct (chains s !! Key m). Qed.

Lemma append_versions_other c ms s :
  gcWatermark (foldl (append_version c) s ms) = gcWatermark s ∧
  skipHorizonGuardForTest (foldl (append_version c) s ms) = skipHorizonGuardForTest s.
Proof.
  revert s. induction ms as [|m ms IH]; intros s; simpl; [done|].
  destruct (IH (append_version c s m)) as [-> ->]. apply append_version_other.
Qed.

(** Everything in a chain at or below [c]: appending at [c] keeps it sorted. *)
Definition chain_le (c : Z) (chain : list Version) : Prop :=
  Forall (λ v, CommitSeq v ≤ c) chain.

Lemma append_version_wf c s m :
  store_wf s → chain_le c (chain_of s (Key m)) → store_wf (append_version c s m).
Proof.
  intros [Hs Hd Hn Hc] Hle.
  assert (Hlook : ∀ k, chains (append_version c s m) !! k =
      if decide (Key m = k) then Some (chain_of (append_version c s m) k) else chains s !! k).
  { intros k. unfold chain_of, append_version. destruct (chains s !! Key m);
      (case_decide as E; [subst; simpl; by rewrite lookup_insert_eq
                         |simpl; by rewrite lookup_insert_ne]). }
  assert (Hkeys : orderedKeys (append_version c s m) =
      match chains s !! Key m with Some _ => orderedKeys s
      | None => insertOrderedKey (orderedKeys s) (Key m) end).
  { unfold append_version. by destruct (chains s !! Key m). }
  constructor.
  - rewrite Hkeys. destruct (chains s !! Key m) eqn:E; [done|].
    apply insertOrderedKey_sorted; [done|]. rewrite Hd, E. by intros [? ?].
  - intros k. rewrite Hlook, Hkeys. destruct (chains s !! Key m) eqn:E.
    + rewrite Hd. case_decide; [subst; rewrite E; naive_solver|done].
    + rewrite insertOrderedKey_perm, elem_of_cons, Hd. case_decide; naive_solver.
  - intros k l. rewrite Hlook. case_decide; [|by apply Hn].
    intros [= <-]. rewrite chain_of_append_version. subst.
    unfold mutation_versions. rewrite filter_cons_True by done.
    intros Hnil. by apply app_eq_nil in Hnil as [_ ?].
  - intros k. rewrite chain_of_append_version. unfold mutation_versions.
    rewrite filter_cons, filter_nil. case_decide as E; simpl; [|by rewrite app_nil_r].
    apply StronglySorted_app_2; [|apply Hc|repeat constructor].
    intros x1 x2 H1 ->%list_elem_of_singleton. unfold vle; simpl. subst.
    by apply (proj1 (Forall_forall _ _) Hle).
Qed.

Lemma append_versions_wf c ms s :
  store_wf s → (∀ m, m ∈ ms → chain_le c (chain_of s (Key m))) →
  store_wf (foldl (append_version c) s ms).
Proof.
  revert s. induction ms as [|m ms IH]; intros s Hwf Hle; simpl; [done|].
  apply IH.
  - apply append_version_wf; [done|]. apply Hle. left.
  - intros m' Hm'. rewrite chain_of_append_version. apply Forall_app. split.
    + apply Hle. by right.
    + unfold mutation_versions. rewrite filter_cons, filter_nil.
      case_decide; simpl; repeat constructor; simpl; lia.
Qed.

Lemma ApplyCommit_wf s c ms s' : store_wf s → ApplyCommit s c ms = Ok s' → store_wf s'.
Proof.
  intros Hwf [-> Hm]%ApplyCommit_Ok_inv. apply append_versions_wf; [done|].
  intros m Hin. apply Forall_forall. intros u Hu.
  destruct (last (chain_of s (Key m))) as [v|] eqn:E.
  - pose proof (last_sorted_max _ _ _ (wf_chain_sorted s Hwf _) E Hu).
    specialize (Hm m v Hin E). lia.
  - apply last_None in E. rewrite E in Hu. by apply not_elem_of_nil in Hu.
Qed.

(** ** Garbage collection: effect on chains *)

Definition reclaim_count (chain : list Version) (w budget : Z) : Z :=
  Z.max 0 (Z.min budget (newest_index chain w)).

Lemma newest_index_lt chain w : newest_index chain w < zlen chain.
Proof.
  unfold newest_index, zlen.
  pose proof (search_list_le (λ v, w <? CommitSeq v) chain). lia.
Qed.

Lemma ReclaimKey_eq s k w budget :
  ReclaimKey s k w budget =
    (if reclaim_count (chain_of s k) w budget =? 0 then s
     else s <| chains := <[k := drop (Z.to_nat (reclaim_count (chain_of s k) w budget))
                                      (chain_of s k)]> (chains s) |>,
     reclaim_count (chain_of s k) w budget).
Proof.
  unfold ReclaimKey, reclaim_count. pose proof (newest_index_lt (chain_of s k) w) as Hlt.
  unfold zlen in Hlt. destruct (Z.leb_spec budget 0).
  { by rewrite Z.max_l by lia. }
  cbv zeta. destruct (Nat.ltb_spec (length (chain_of s k)) 2).
  { by rewrite Z.max_l by lia. }
  destruct (Z.leb_spec (newest_index (chain_of s k) w) 0).
  { by rewrite Z.max_l by lia. }
  rewrite Z.max_r by lia. rewrite (proj2 (Z.eqb_neq _ _)) by lia.
  destruct (Z.ltb_spec budget (newest_index (chain_of s k) w)).
  - by rewrite Z.min_l by lia.
  - by rewrite Z.min_r by lia.
Qed.

Lemma chain_of_ReclaimKey s k w budget k' :
  chain_of (ReclaimKey s k w budget).1 k' =
    if decide (k' = k) then drop (Z.to_nat (reclaim_count (chain_of s k) w budget)) (chain_of s k)
    else chain_of s k'.
Proof.
  rewrite ReclaimKey_eq. simpl.
  destruct (Z.eqb_spec (reclaim_count (chain_of s k) w budget) 0) as [E|E].
  - rewrite E. by case_decide; subst.
  - unfold chain_of at 1. simpl. case_decide.
    + subst. by rewrite lookup_insert_eq.
    + by rewrite lookup_insert_ne.
Qed.

Lemma ReclaimKey_other s k w budget :
  gcWatermark (ReclaimKey s k w budget).1 = gcWatermark s ∧
  skipHorizonGuardForTest (ReclaimKey s k w budget).1 = skipHorizonGuardForTest s ∧
  orderedKeys (ReclaimKey s k w budget).1 = orderedKeys s.
Proof. rewrite ReclaimKey_eq. simpl. by case_if. Qed.

Lemma reclaim_count_lt chain w budget :
  reclaim_count chain w budget = 0 ∨ reclaim_count chain w budget < zlen chain.
Proof.
  pose proof (newest_index_lt chain w). unfold reclaim_count. lia.
Qed.

Lemma ReclaimKey_wf s k w budget : store_wf s → store_wf (ReclaimKey s k w budget).1.
Proof.
  intros Hwf. pose proof Hwf as [Hs Hd Hn Hc].
  destruct (ReclaimKey_other s k w budget) as (_ & _ & Hkeys).
  pose proof (reclaim_count_lt (chain_of s k) w budget) as Hlt.
  rewrite ReclaimKey_eq in Hkeys |- *. simpl in *.
  destruct (Z.eqb_spec (reclaim_count (chain_of s k) w budget) 0) as [E|E]; [done|].
  destruct Hlt as [?|Hlt]; [done|].
  set (n := Z.to_nat (reclaim_count (chain_of s k) w budget)) in *.
  assert (Hk : is_Some (chains s !! k)).
  { apply Hd, wf_mem_chain; [done|]. intros Hnil. rewrite Hnil, zlen_nil in Hlt.
    unfold reclaim_count in *. lia. }
  constructor; simpl.
  - done.
  - intros k'. rewrite Hd. destruct (decide (k = k')) as [<-|].
    + by rewrite lookup_insert_eq.
    + by rewrite lookup_insert_ne.
  - intros k' c. destruct (decide (k = k')) as [<-|].
    + rewrite lookup_insert_eq. intros [= <-] Hnil. apply (f_equal length) in Hnil.
      rewrite length_drop in Hnil. unfold zlen, reclaim_count in *. simpl in Hnil. lia.
    + rewrite lookup_insert_ne by done. apply Hn.
  - intros k'. unfold chain_of at 1. simpl. destruct (decide (k = k')) as [<-|].
    + rewrite lookup_insert_eq. simpl. specialize (Hc k).
      rewrite <- (take_drop n (chain_of s k)) in Hc. by apply StronglySorted_app_1_r in Hc.
    + rewrite lookup_insert_ne by done. apply Hc.
Qed.

Lemma SetGCWatermark_wf s w : store_wf s → store_wf (SetGCWatermark s w).
Proof. intros []. unfold SetGCWatermark. case_if; by constructor. Qed.

Lemma NewStore_wf : store_wf NewStore.
Proof.
  constructor; simpl.
  - constructor.
  - intros k. rewrite lookup_empty. split; [by intros ?%not_elem_of_nil|by intros []].
  - intros k c. by rewrite lookup_empty.
  - intros k. unfold chain_of. simpl. rewrite lookup_empty. constructor.
Qed.

(** Dropping the first [n] versions of a sorted chain, where version [n] is
    at or before [w], changes no read at or after [w]. *)
Lemma newest_at_drop chain n w seq v :
  StronglySorted vle chain → chain !! n = Some v → CommitSeq v ≤ w → w ≤ seq →
  newest_at (drop n chain) seq = newest_at chain seq.
Proof.
  intros Hs Hn Hv Hw. unfold newest_at.
  rewrite <- (take_drop n chain) at 2. rewrite filter_app, last_app.
  destruct (last (filter _ (drop n chain))) eqn:E; [done|].
  apply last_None in E. rewrite (drop_S chain v n Hn) in E.
  rewrite filter_cons_True in E by lia. done.
Qed.

Lemma lookup_reclaim_count chain w budget v :
  StronglySorted vle chain →
  reclaim_count chain w budget ≠ 0 →
  chain !! Z.to_nat (reclaim_count chain w budget) = Some v → CommitSeq v ≤ w.
Proof.
  intros Hs Hne Hv. unfold reclaim_count in *. rewrite newest_index_eq in * by done.
  pose proof (chain_split chain w Hs) as Hc.
  set (l := filter (λ v, CommitSeq v ≤ w) chain) in *.
  rewrite Hc, lookup_app_l in Hv by (unfold zlen in *; lia).
  apply list_elem_of_lookup_2, list_elem_of_filter in Hv. tauto.
Qed.

Lemma newest_at_reclaim chain w budget seq :
  StronglySorted vle chain → w ≤ seq →
  newest_at (drop (Z.to_nat (reclaim_count chain w budget)) chain) seq = newest_at chain seq.
Proof.
  intros Hs Hw. destruct (decide (reclaim_count chain w budget = 0)) as [->|Hne]; [done|].
  destruct (reclaim_count_lt chain w budget) as [?|Hlt]; [done|].
  destruct (lookup_lt_is_Some_2 chain (Z.to_nat (reclaim_count chain w budget))) as [v Hv].
  { unfold zlen in Hlt. unfold reclaim_count in *. lia. }
  eapply newest_at_drop; [done|exact Hv| |exact Hw].
  by eapply lookup_reclaim_count.
Qed.

Lemma Visible_eq s k seq :
  store_wf s →
  Visible s k seq =
    if horizon_guard s seq then Err ErrSnapshotTooOld
    else Ok (newest_at (chain_of s k) seq ≫= version_value).
Proof.
  intros Hwf. unfold Visible. rewrite visible_in_chain_spec by apply (wf_chain_sorted s Hwf).
  done.
Qed.

#[export] Hint Resolve ApplyCommit_wf ReclaimKey_wf SetGCWatermark_wf NewStore_wf
  wf_chain_sorted : chronicle.

(** ** Export and restore *)

Lemma foldl_insert_lookup (kcs : list KeyChain) m k :
  NoDup (kc_key <$> kcs) →
  foldl (λ m kc, <[kc_key kc := kc_versions kc]> m) m kcs !! k =
  match list_find (λ kc, kc_key kc = k) kcs with
  | Some (_, kc) => Some (kc_versions kc)
  | None => (m : gmap bytes (list Version)) !! k
  end.
Proof.
  revert m. induction kcs as [|kc kcs IH]; intros m Hn; [done|].
  rewrite fmap_cons in Hn. apply NoDup_cons in Hn as [Hk Hn]. simpl. rewrite IH by done.
  case_decide as E; simpl.
  - destruct (list_find _ kcs) as [[i x]|] eqn:Ef; simpl.
    + apply list_find_Some in Ef as (Hi & Hx & _). exfalso. apply Hk.
      apply list_elem_of_fmap. exists x. split; [congruence|]. by eapply list_elem_of_lookup_2.
    + subst. by rewrite lookup_insert_eq.
  - destruct (list_find _ kcs) as [[i x]|]; simpl; [done|]. by rewrite lookup_insert_ne.
Qed.

Lemma foldl_insert_Some (kcs : list KeyChain) k c :
  NoDup (kc_key <$> kcs) →
  (foldl (λ m kc, <[kc_key kc := kc_versions kc]> m) ∅ kcs : gmap bytes (list Version)) !! k = Some c
  ↔ mkKeyChain k c ∈ kcs.
Proof.
  intros Hn. rewrite foldl_insert_lookup, lookup_empty by done. split.
  - destruct (list_find _ kcs) as [[i x]|] eqn:E; [|done]. intros [= <-].
    apply list_find_Some in E as (Hi & <- & _). apply list_elem_of_lookup_2 in Hi.
    by destruct x.
  - intros Hin. destruct (list_find _ kcs) as [[i x]|] eqn:E.
    + apply list_find_Some in E as (Hi & Hk & _). f_equal.
      apply list_elem_of_lookup_2 in Hi.
      assert (Hx : x = mkKeyChain k c); [|by rewrite Hx].
      apply list_elem_of_lookup in Hi as [a Ha], Hin as [b Hb].
      assert (a = b) as ->; [|congruence].
      eapply (NoDup_lookup (kc_key <$> kcs)); [done| |]; rewrite list_lookup_fmap.
      * by rewrite Ha.
      * rewrite Hb. simpl. by rewrite Hk.
    + apply list_find_None in E. rewrite Forall_forall in E. by destruct (E _ Hin).
Qed.

#[export] Instance kc_le_trans : Transitive kc_le.
Proof. intros a b c. unfold kc_le. apply ble_trans. Qed.
#[export] Instance kc_le_total : Total kc_le.
Proof. intros a b. unfold kc_le. apply ble_total. Qed.

Lemma Export_elem s k c : mkKeyChain k c ∈ Export s ↔ chains s !! k = Some c.
Proof.
  unfold Export. rewrite merge_sort_Permutation, list_elem_of_fmap. split.
  - intros ([k' c'] & [= -> ->] & H). by apply elem_of_map_to_list in H.
  - intros H. exists (k, c). split; [done|]. by apply elem_of_map_to_list.
Qed.

Lemma Export_keys_perm s : kc_key <$> Export s ≡ₚ (map_to_list (chains s)).*1.
Proof.
  unfold Export. rewrite merge_sort_Permutation, <- list_fmap_compose. done.
Qed.

Lemma Export_NoDup s : NoDup (kc_key <$> Export s).
Proof. rewrite Export_keys_perm. apply NoDup_fst_map_to_list. Qed.

Lemma Export_keys_sorted s : StronglySorted blt (kc_key <$> Export s).
Proof.
  apply sorted_NoDup_strict; [|apply Export_NoDup].
  apply StronglySorted_fmap with kc_le; [by unfold kc_le|].
  apply (StronglySorted_merge_sort kc_le).
Qed.

Lemma Export_keys s : store_wf s → kc_key <$> Export s = orderedKeys s.
Proof.
  intros Hwf. apply strict_sorted_unique; [apply Export_keys_sorted|apply Hwf|].
  intros k. rewrite (wf_keys_dom s Hwf), list_elem_of_fmap. split.
  - intros ([k' c] & -> & ?%Export_elem). eauto.
  - intros [c Hc]. exists (mkKeyChain k c). split; [done|]. by apply Export_elem.
Qed.

(** Every restored version comes from a given chain. *)
Lemma RestoreStore_chain kcs w k v :
  v ∈ chain_of (RestoreStore kcs w) k → ∃ kc, kc ∈ kcs ∧ v ∈ kc_versions kc.
Proof.
  unfold chain_of, RestoreStore. cbn [chains].
  induction kcs as [|kc kcs IH] using rev_ind; [by intros ?%not_elem_of_nil|].
  rewrite foldl_app. cbn [foldl]. destruct (decide (kc_key kc = k)) as [->|Hk].
  - rewrite lookup_insert_eq. intros Hv. exists kc. split; [|done]. apply elem_of_app. right. by left.
  - rewrite lookup_insert_ne by done. intros Hv. destruct (IH Hv) as (kc' & ? & ?).
    exists kc'. split; [|done]. apply elem_of_app. by left.
Qed.

Lemma RestoreStore_Export s :
  store_wf s → skipHorizonGuardForTest s = false → RestoreStore (Export s) (gcWatermark s) = s.
Proof.
  intros Hwf Hg. unfold RestoreStore.
  rewrite Export_keys, sort_strings_id by (done || apply Hwf).
  destruct s as [ch ks w g]. simpl in *. subst g. f_equal.
  apply map_eq. intros k. apply option_eq. intros c.
  rewrite foldl_insert_Some by apply Export_NoDup. apply Export_elem.
Qed.
