(* ===== verification/MvccSpec.v ===== *)
(** * The store refines a commit history

    The abstract database is the list of committed transactions.  A reader
    at sequence [seq] is promised the effect, in order, of exactly the
    commits at or before [seq].  The store keeps versions instead, and
    reclaims them: [store_refines] relates the two, every operation
    preserves it, and the reads of the store then agree with the history at
    every sequence the GC horizon still admits. *)

From S2P Require Import Prelude Bytes GoSort Mvcc.

(** ** The abstract database *)

Record Commit := mkCommit { commit_seq : Z; commit_mutations : list Mutation }.
Abbreviation History := (list Commit).

Definition apply_mutation (db : gmap bytes bytes) (m : Mutation) : gmap bytes bytes :=
  if MTombstone m then delete (Key m) db else <[Key m := MValue m]> db.

Definition db_at (h : History) (seq : Z) : gmap bytes bytes :=
  foldl (λ db c, foldl apply_mutation db (commit_mutations c)) ∅
        (filter (λ c, commit_seq c ≤ seq) h).

(** The versions a history gives one key, oldest first. *)
Definition history_versions (h : History) (k : bytes) : list Version :=
  h ≫= λ c, mutation_versions (commit_seq c) k (commit_mutations c).

Definition writes (c : Commit) (k : bytes) : Prop :=
  ∃ m, m ∈ commit_mutations c ∧ Key m = k.

(** ** The operations of the store as steps *)

Inductive mvcc_step : Store * History → Store * History → Prop :=
| step_commit s h c ms s' :
    ApplyCommit s c ms = Ok s' → mvcc_step (s, h) (s', h ++ [mkCommit c ms])
| step_commit_refused s h c ms e :
    ApplyCommit s c ms = Err e → mvcc_step (s, h) (s, h)
| step_watermark s h w : mvcc_step (s, h) (SetGCWatermark s w, h)
| step_reclaim s h k w budget :
    w ≤ gcWatermark s → mvcc_step (s, h) ((ReclaimKey s k w budget).1, h).

Definition mvcc_reachable (s : Store) (h : History) : Prop :=
  rtc mvcc_step (NewStore, []) (s, h).

(** ** The refinement relation *)

Record store_refines (s : Store) (h : History) : Prop := {
  ref_wf : store_wf s;
  ref_guard : skipHorizonGuardForTest s = false;
  ref_sorted : ∀ k, StronglySorted vle (history_versions h k);
  ref_chain : ∀ k, ∃ dropped,
    history_versions h k = dropped ++ chain_of s k ∧
    (dropped = [] ∨ ∃ v, head (chain_of s k) = Some v ∧ CommitSeq v ≤ gcWatermark s)
}.

(** ** Reading the history through its versions *)

Lemma foldl_apply_mutation_lookup ms db k c :
  foldl apply_mutation db ms !! k =
  match last (mutation_versions c k ms) with
  | Some v => version_value v
  | None => db !! k
  end.
Proof.
  revert db. induction ms as [|m ms IH]; intros db; [done|]. simpl. rewrite IH.
  unfold mutation_versions. rewrite filter_cons. unfold apply_mutation.
  case_decide as E; cbn [fmap list_fmap]; [rewrite last_cons|];
    destruct (last _); try done; subst; unfold version_value; cbn [Tombstone Value];
    destruct (MTombstone m).
  - by rewrite lookup_delete_eq.
  - by rewrite lookup_insert_eq.
  - by rewrite lookup_delete_ne.
  - by rewrite lookup_insert_ne.
Qed.

Lemma history_versions_snoc h c k :
  history_versions (h ++ [c]) k =
  history_versions h k ++ mutation_versions (commit_seq c) k (commit_mutations c).
Proof. unfold history_versions. rewrite bind_app. simpl. by rewrite app_nil_r. Qed.

Lemma filter_mutation_versions seq c k ms :
  filter (λ v, CommitSeq v ≤ seq) (mutation_versions c k ms) =
  if decide (c ≤ seq) then mutation_versions c k ms else [].
Proof.
  unfold mutation_versions. induction (filter _ ms) as [|m l IH]; [by case_decide|].
  rewrite fmap_cons, filter_cons, IH. cbn [CommitSeq]. by case_decide.
Qed.

Lemma db_at_versions h seq k :
  db_at h seq !! k = newest_at (history_versions h k) seq ≫= version_value.
Proof.
  unfold newest_at. induction h as [|c h IH] using rev_ind; [done|].
  rewrite history_versions_snoc, filter_app, filter_mutation_versions.
  unfold db_at in *. rewrite filter_app, foldl_app, filter_cons, filter_nil.
  case_decide as E; simpl.
  - rewrite (foldl_apply_mutation_lookup _ _ _ (commit_seq c)), last_app.
    by destruct (last (mutation_versions _ _ _)).
  - rewrite app_nil_r. exact IH.
Qed.

(** ** Every step preserves the refinement *)

Lemma store_refines_init : store_refines NewStore [].
Proof.
  constructor; [apply NewStore_wf|done|constructor|].
  intros k. exists []. split; [|by left]. done.
Qed.

Lemma mutation_versions_sorted c k ms : StronglySorted vle (mutation_versions c k ms).
Proof.
  unfold mutation_versions. induction (filter _ ms) as [|m l IH]; simpl; constructor; [done|].
  apply Forall_fmap, Forall_true. intros x. unfold vle. simpl. lia.
Qed.

Lemma mutation_versions_seq c k ms v :
  v ∈ mutation_versions c k ms → CommitSeq v = c ∧ ∃ m, m ∈ ms ∧ Key m = k.
Proof.
  intros (m & -> & [? ?]%list_elem_of_filter)%list_elem_of_fmap. simpl. eauto.
Qed.

(** The newest version of a key survives: the store and the history agree on
    the last commit that wrote it. *)
Lemma refines_last s h k :
  store_refines s h → last (chain_of s k) = last (history_versions h k).
Proof.
  intros Hr. destruct (ref_chain _ _ Hr k) as (dropped & -> & Hd).
  rewrite last_app. destruct (last (chain_of s k)) eqn:E; [done|].
  destruct Hd as [->|(v & Hv & _)]; [done|]. apply last_None in E. by rewrite E in Hv.
Qed.

Lemma refines_commit s h c ms s' :
  store_refines s h → ApplyCommit s c ms = Ok s' → store_refines s' (h ++ [mkCommit c ms]).
Proof.
  intros [Hwf Hg Hs Hch] Hc. pose proof (ApplyCommit_wf _ _ _ _ Hwf Hc) as Hwf'.
  apply ApplyCommit_Ok_inv in Hc as [-> Hm].
  destruct (append_versions_other c ms s) as [Hw' Hg'].
  constructor; [done|by rewrite Hg'| |].
  - intros k. rewrite history_versions_snoc. simpl.
    apply StronglySorted_app_2; [|apply Hs|apply mutation_versions_sorted].
    intros u v Hu [Hv (m & Hin & Hk)]%mutation_versions_seq. unfold vle. rewrite Hv.
    destruct (last (history_versions h k)) as [z|] eqn:El.
    + pose proof (last_sorted_max _ _ _ (Hs k) El Hu).
      rewrite <- (refines_last s h) in El by done. subst k.
      pose proof (Hm m z Hin El). lia.
    + apply last_None in El. rewrite El in Hu. by apply not_elem_of_nil in Hu.
  - intros k. destruct (Hch k) as (dropped & Heq & Hd). exists dropped.
    rewrite history_versions_snoc, chain_of_append_versions, Heq, app_assoc. simpl.
    split; [done|]. destruct Hd as [Hd|(v & Hv & Hle)]; [by left|right].
    exists v. rewrite Hw', head_app, Hv. done.
Qed.

Lemma refines_watermark s h w : store_refines s h → store_refines (SetGCWatermark s w) h.
Proof.
  intros [Hwf Hg Hs Hch]. constructor.
  - by apply SetGCWatermark_wf.
  - unfold SetGCWatermark. by case_if.
  - done.
  - intros k. destruct (Hch k) as (dropped & Heq & Hd). exists dropped.
    unfold SetGCWatermark. case_if; [|done]. bool_to_prop.
    split; [done|]. destruct Hd as [?|(v & ? & ?)]; [by left|right]. exists v.
    split; [done|]. simpl. lia.
Qed.

Lemma refines_reclaim s h k w budget :
  store_refines s h → w ≤ gcWatermark s → store_refines (ReclaimKey s k w budget).1 h.
Proof.
  intros [Hwf Hg Hs Hch] Hw. destruct (ReclaimKey_other s k w budget) as (Hw' & Hg' & _).
  constructor; [by apply ReclaimKey_wf|by rewrite Hg'|done|].
  intros k'. rewrite chain_of_ReclaimKey, Hw'. case_decide as E; [|apply Hch]. subst k'.
  destruct (Hch k) as (dropped & Heq & Hd).
  set (n := reclaim_count (chain_of s k) w budget) in *.
  exists (dropped ++ take (Z.to_nat n) (chain_of s k)).
  rewrite <- app_assoc, take_drop. split; [done|].
  destruct (decide (n = 0)) as [->|Hn].
  { rewrite app_nil_r. done. }
  right. destruct (reclaim_count_lt (chain_of s k) w budget) as [|Hlt]; [done|].
  destruct (lookup_lt_is_Some_2 (chain_of s k) (Z.to_nat n)) as [v Hv].
  { unfold zlen, n, reclaim_count in *. lia. }
  exists v. rewrite head_lookup, lookup_drop, Nat.add_0_r. split; [done|].
  pose proof (lookup_reclaim_count _ _ _ _ (wf_chain_sorted s Hwf k) Hn Hv). lia.
Qed.

Lemma mvcc_reachable_refines s h : mvcc_reachable s h → store_refines s h.
Proof.
  unfold mvcc_reachable.
  enough (Hinv : ∀ x y, rtc mvcc_step x y → store_refines x.1 x.2 → store_refines y.1 y.2).
  { intros H. apply (Hinv _ _ H), store_refines_init. }
  induction 1 as [|x y z Hstep _ IH]; [done|]. intros Hx. apply IH.
  destruct Hstep; simpl in *; eauto using refines_commit, refines_watermark, refines_reclaim.
Qed.

(** ** What the refinement gives a reader *)

Lemma refines_newest s h k seq :
  store_refines s h → gcWatermark s ≤ seq →
  newest_at (chain_of s k) seq = newest_at (history_versions h k) seq.
Proof.
  intros [Hwf _ Hs Hch] Hw. destruct (Hch k) as (dropped & Heq & Hd).
  destruct Hd as [->|(v & Hv & Hle)]; [by rewrite Heq|].
  replace (chain_of s k) with (drop (length dropped) (history_versions h k))
    by (by rewrite Heq, drop_app_length).
  eapply newest_at_drop; [done| |exact Hle|exact Hw].
  rewrite Heq, lookup_app_r, Nat.sub_diag by lia. by rewrite <- head_lookup.
Qed.

Lemma refines_visible s h k seq :
  store_refines s h → gcWatermark s ≤ seq → Visible s k seq = Ok (db_at h seq !! k).
Proof.
  intros Hr Hw. rewrite Visible_eq by apply Hr. unfold horizon_guard.
  rewrite (proj2 (Z.ltb_ge _ _)) by done. simpl.
  by rewrite db_at_versions, <- (refines_newest s h).
Qed.

Lemma refines_too_old s h seq :
  store_refines s h → seq < gcWatermark s → horizon_guard s seq = true.
Proof.
  intros Hr Hw. unfold horizon_guard. by rewrite (ref_guard _ _ Hr), (proj2 (Z.ltb_lt _ _)).
Qed.

Lemma visible_chain_eq s h k seq :
  store_refines s h → gcWatermark s ≤ seq →
  visible_in_chain (chain_of s k) seq = db_at h seq !! k.
Proof.
  intros Hr Hw. pose proof (refines_visible s h k seq Hr Hw) as H. unfold Visible in H.
  case_match; [done|]. by injection H.
Qed.

Lemma elem_of_history_versions h k v :
  v ∈ history_versions h k → ∃ c, c ∈ h ∧ commit_seq c = CommitSeq v ∧ writes c k.
Proof.
  intros (c & Hv & Hc)%list_elem_of_bind. apply mutation_versions_seq in Hv as [-> ?].
  exists c. done.
Qed.

Lemma history_versions_writes h c k :
  c ∈ h → writes c k → ∃ v, v ∈ history_versions h k ∧ CommitSeq v = commit_seq c.
Proof.
  intros Hc (m & Hm & Hk). eexists. split.
  - apply list_elem_of_bind. exists c. split; [|done].
    apply list_elem_of_fmap. exists m. split; [reflexivity|]. by apply list_elem_of_filter.
  - done.
Qed.

(** ** Properties of the store *)


(** What a prefix scan returns. *)
Lemma refines_scan s h prefix seq :
  store_refines s h → gcWatermark s ≤ seq →
  ∃ rows, ScanVisible s prefix seq = Ok rows ∧
    StronglySorted blt rows.*1 ∧
    ∀ k v, (k, v) ∈ rows ↔ db_at h seq !! k = Some v ∧ prefix `prefix_of` k.
Proof.
  intros Hr Hw. pose proof (ref_wf _ _ Hr) as Hwf.
  unfold ScanVisible, horizon_guard. rewrite (proj2 (Z.ltb_ge _ _)) by done. simpl.
  eexists. split; [reflexivity|]. split.
  - pose proof (wf_keys_sorted s Hwf) as Hs. induction Hs as [|k ks Hs IH Hk]; [constructor|].
    simpl. case_match eqn:E; [|done]. destruct p as [k' v]. simpl. constructor; [done|].
    assert (k' = k) as -> by (repeat case_match; simplify_option_eq; done).
    apply Forall_forall. intros x (y & -> & Hy)%list_elem_of_fmap.
    apply list_elem_of_omap in Hy as (z & Hz & Hzy).
    assert (y.1 = z) as -> by (repeat case_match; simplify_option_eq; done).
    by apply (proj1 (Forall_forall _ _) Hk).
  - intros k v. rewrite list_elem_of_omap. split.
    + intros (x & Hx & Hv). destruct (has_prefix x prefix) eqn:Hp; [|done]. simpl in Hv.
      rewrite (visible_chain_eq s h) in Hv by done. simplify_option_eq.
      by rewrite <- has_prefix_spec.
    + intros [Hdb Hp%has_prefix_spec]. exists k. rewrite (visible_chain_eq s h), Hp, Hdb by done.
      split; [|done]. apply wf_mem_chain; [done|]. intros Hnil.
      pose proof (visible_chain_eq s h k seq Hr Hw) as Hv. rewrite Hnil, Hdb in Hv. done.
Qed.

(** A prefix scan at or above the horizon returns, in strictly ascending
    key order, exactly the pairs of the abstract database at that snapshot
    whose key has the prefix: nothing missing, nothing twice. *)
Theorem scan_visible_refines_history s h prefix seq :
  mvcc_reachable s h → gcWatermark s ≤ seq →
  ∃ rows, ScanVisible s prefix seq = Ok rows ∧
    StronglySorted blt rows.*1 ∧
    ∀ k v, (k, v) ∈ rows ↔ db_at h seq !! k = Some v ∧ prefix `prefix_of` k.
Proof. intros Hr%mvcc_reachable_refines Hw. by apply refines_scan. Qed.

(** A conflict is reported exactly for a key some later commit wrote. *)
Lemma CheckConflicts_exact s h startSeq ms :
  store_refines s h →
  CheckConflicts s startSeq ms ≠ None ↔
  ∃ m c, m ∈ ms ∧ c ∈ h ∧ writes c (Key m) ∧ startSeq < commit_seq c.
Proof.
  intros Hr.
  assert (Hkey : ∀ m, (∃ v, last (chain_of s (Key m)) = Some v ∧ startSeq < CommitSeq v) ↔
                      ∃ c, c ∈ h ∧ writes c (Key m) ∧ startSeq < commit_seq c).
  { intros m. rewrite (refines_last s h) by done. split.
    - intros (v & Hv & Hlt). apply last_Some_elem_of, elem_of_history_versions in Hv
        as (c & ? & ? & ?). exists c. repeat split; [done..|lia].
    - intros (c & Hc & Hwr & Hlt).
      destruct (history_versions_writes h c (Key m) Hc Hwr) as (u & Hu & Hus).
      destruct (last (history_versions h (Key m))) as [v|] eqn:E.
      + exists v. split; [done|].
        pose proof (last_sorted_max _ _ _ (ref_sorted _ _ Hr _) E Hu). lia.
      + apply last_None in E. rewrite E in Hu. by apply not_elem_of_nil in Hu. }
  induction ms as [|m ms IH]; cbn [CheckConflicts].
  { split; [done|]. by intros (m & c & ?%not_elem_of_nil & _). }
  specialize (Hkey m). destruct (last (chain_of s (Key m))) as [v|].
  1: destruct (Z.ltb_spec startSeq (CommitSeq v)).
  1: { split; [intros _|done]. destruct (proj1 Hkey) as (c & ?); [by eauto|].
       exists m, c. split; [left|done]. }
  all: rewrite IH; split; [intros (m' & c & ? & ?); exists m', c; (split; [by right|done])|];
    intros (m' & c & [->|Hin]%elem_of_cons & Hc); [|by eauto];
    destruct (proj2 Hkey) as (v' & [= <-] & ?); [by eauto|..]; (done || lia).
Qed.

(** First-committer-wins conflict detection is exact with respect to the
    whole history, reclaimed versions included: [CheckConflicts] reports a
    conflict if and only if some commit after [startSeq] wrote a key of the
    transaction's mutation set. *)
Theorem check_conflicts_exact s h startSeq ms :
  mvcc_reachable s h →
  CheckConflicts s startSeq ms ≠ None ↔
  ∃ m c, m ∈ ms ∧ c ∈ h ∧ writes c (Key m) ∧ startSeq < commit_seq c.
Proof. intros Hr%mvcc_reachable_refines. by apply CheckConflicts_exact. Qed.

(** Reclaiming a key at horizon [w] is invisible to every reader at or
    above [w], touches no other key, keeps the key's newest version (which
    conflict detection relies on), and removes exactly the returned number
    of versions, at most [budget]. *)
Theorem reclaim_key_safe s k w budget :
  store_wf s →
  let r := ReclaimKey s k w budget in
  (∀ k' seq, w ≤ seq → Visible r.1 k' seq = Visible s k' seq) ∧
  (∀ k', k' ≠ k → chain_of r.1 k' = chain_of s k') ∧
  (∀ k', LatestCommitSeq r.1 k' = LatestCommitSeq s k') ∧
  chain_of r.1 k = drop (Z.to_nat r.2) (chain_of s k) ∧
  0 ≤ r.2 ≤ Z.max 0 budget.
Proof.
  intros Hwf r. destruct (ReclaimKey_other s k w budget) as (Hw & Hg & _).
  assert (Hr2 : r.2 = reclaim_count (chain_of s k) w budget) by (unfold r; by rewrite ReclaimKey_eq).
  split; [|split; [|split; [|split]]].
  - intros k' seq Hseq. unfold r. rewrite !Visible_eq by auto with chronicle.
    unfold horizon_guard. rewrite Hw, Hg, chain_of_ReclaimKey.
    case_decide; [|done]. subst. by rewrite newest_at_reclaim by auto with chronicle.
  - intros k' Hk. unfold r. rewrite chain_of_ReclaimKey. by rewrite decide_False.
  - intros k'. unfold LatestCommitSeq, r. rewrite chain_of_ReclaimKey.
    case_decide; [|done]. subst. f_equal.
    destruct (reclaim_count_lt (chain_of s k) w budget) as [->|Hlt]; [done|].
    apply last_drop_lt. unfold zlen, reclaim_count in *. lia.
  - rewrite Hr2. unfold r. rewrite chain_of_ReclaimKey. by rewrite decide_True.
  - rewrite Hr2. unfold reclaim_count. lia.
Qed.

(** A commit is atomic.  It fails exactly when some mutated key already
    has a version at or above [commitSeq], and then leaves the store as it
    was (the error carries no new store); on success every snapshot below
    [commitSeq] reads the same as before, every snapshot at or above it
    reads the last mutation of each written key, and unwritten keys are
    unchanged. *)
Theorem apply_commit_atomic s c ms :
  store_wf s →
  (is_Ok (ApplyCommit s c ms) = false ↔
     ∃ m v, m ∈ ms ∧ last (chain_of s (Key m)) = Some v ∧ c ≤ CommitSeq v) ∧
  ∀ s', ApplyCommit s c ms = Ok s' →
    store_wf s' ∧
    (∀ k seq, seq < c → Visible s' k seq = Visible s k seq) ∧
    (∀ k seq, c ≤ seq → gcWatermark s ≤ seq →
       Visible s' k seq =
         match last (filter (λ m, Key m = k) ms) with
         | Some m => Ok (if MTombstone m then None else Some (MValue m))
         | None => Visible s k seq
         end).
Proof.
  intros Hwf. split.
  - unfold ApplyCommit. destruct ms as [|m0 ms].
    { split; [done|]. by intros (m & v & ?%not_elem_of_nil & _). }
    destruct (first_violation s c (m0 :: ms)) eqn:E.
    + split; [intros _|done]. by eapply first_violation_Some.
    + split; [done|]. intros (m & v & Hm & Hv & Hle).
      pose proof (proj1 (first_violation_None _ _ _) E m v Hm Hv). lia.
  - intros s' Hs'. pose proof (ApplyCommit_wf _ _ _ _ Hwf Hs') as Hwf'.
    apply ApplyCommit_Ok_inv in Hs' as [-> Hm].
    destruct (append_versions_other c ms s) as [Hw Hg].
    split; [done|]. split; intros k seq Hseq.
    + rewrite !Visible_eq by done. unfold horizon_guard, newest_at.
      rewrite Hw, Hg, chain_of_append_versions, filter_app, filter_mutation_versions.
      by rewrite decide_False, app_nil_r by lia.
    + intros Hle. rewrite !Visible_eq by done. unfold horizon_guard, newest_at.
      rewrite Hw, Hg, chain_of_append_versions, filter_app, filter_mutation_versions.
      rewrite (proj2 (Z.ltb_ge _ _)), decide_True by done. simpl.
      unfold mutation_versions. rewrite last_app, fmap_last.
      by destruct (last (filter (λ m, Key m = k) ms)).
Qed.

(** Exporting a store for a snapshot and restoring it gives the store
    back: every chain, the key order and the GC horizon. *)
Theorem export_restore_roundtrip s :
  store_wf s → skipHorizonGuardForTest s = false →
  RestoreStore (Export s) (gcWatermark s) = s.
Proof. apply RestoreStore_Export. Qed.

(** The bounded key walk of the collector returns the first [limit] keys
    strictly after the cursor, so walking with the last returned key as the
    next cursor visits every key after the first cursor exactly once. *)
Theorem keys_from_walk s cursor limit :
  store_wf s → 0 < limit →
  KeysFrom s cursor limit = take (Z.to_nat limit) (keys_after s cursor) ∧
  match last (KeysFrom s cursor limit) with
  | Some k => keys_after s cursor = KeysFrom s cursor limit ++ keys_after s k
  | None => keys_after s cursor = []
  end.
Proof.
  intros Hwf Hl. rewrite KeysFrom_eq by done. split; [done|].
  pose proof (wf_keys_sorted s Hwf) as Hs.
  assert (Hs' : StronglySorted blt (keys_after s cursor)) by by apply StronglySorted_filter.
  set (n := Z.to_nat limit). assert (n ≠ 0%nat) by lia.
  destruct (last (take n (keys_after s cursor))) as [k|] eqn:E.
  - rewrite <- (take_drop n (keys_after s cursor)) at 1. f_equal.
    apply strict_sorted_unique.
    + rewrite <- (take_drop n (keys_after s cursor)) in Hs'. by apply StronglySorted_app_1_r in Hs'.
    + by apply StronglySorted_filter.
    + apply last_Some in E as [l El].
      assert (Hk : blt cursor k).
      { assert (Hk : k ∈ take n (keys_after s cursor)) by (rewrite El; set_solver).
        apply elem_of_take in Hk as (i & Hi & _).
        by apply list_elem_of_lookup_2, list_elem_of_filter in Hi as [? _]. }
      rewrite <- (take_drop n (keys_after s cursor)), El in Hs'.
      intros y. split.
      * intros Hy. apply list_elem_of_filter. split.
        -- eapply (StronglySorted_app_1_elem_of blt); [exact Hs'| |exact Hy]. set_solver.
        -- assert (y ∈ keys_after s cursor) as [_ ?]%list_elem_of_filter; [|done].
           rewrite <- (take_drop n (keys_after s cursor)). set_solver.
      * intros [Hky Hy]%list_elem_of_filter.
        assert (Hin : y ∈ keys_after s cursor).
        { apply list_elem_of_filter. split; [by trans k|done]. }
        rewrite <- (take_drop n (keys_after s cursor)), El in Hin.
        apply elem_of_app in Hin as [Hin|?]; [|done]. exfalso.
        apply StronglySorted_app_1_l in Hs'. apply elem_of_app in Hin as [Hin|Hin].
        -- apply (blt_asym k y); [done|].
           eapply (StronglySorted_app_1_elem_of blt); [exact Hs'|exact Hin|set_solver].
        -- apply list_elem_of_singleton in Hin. subst. by apply blt_irrefl in Hky.
  - apply last_None in E. destruct (keys_after s cursor); [done|]. by destruct n.
Qed.

(** Documentation and code differ on the empty cursor.  [KeysFrom] is
    documented to start "from the beginning" at the cursor [""], but like
    any cursor it skips a key equal to it: a store whose first key is the
    empty string never yields that key, so the collector never visits it. *)
Theorem keys_from_skips_empty_key s limit :
  store_wf s → [] ∉ KeysFrom s [] limit.
Proof.
  intros Hwf. rewrite KeysFrom_eq by done. intros (i & Hi & _)%elem_of_take.
  apply list_elem_of_lookup_2, list_elem_of_filter in Hi as [Hi _]. by apply blt_irrefl in Hi.
Qed.

(** ** A concrete run

    Two commits on keys ["a"] and ["b"], the horizon advanced to 2, and the
    superseded version of ["a"] reclaimed. *)

Definition key_a : bytes := [97].
Definition key_b : bytes := [98].
Definition demo_commit1 : list Mutation := [mkMutation key_a [1] false; mkMutation key_b [2] false].
Definition demo_commit2 : list Mutation := [mkMutation key_a [3] false].
Definition demo_history : History := [mkCommit 1 demo_commit1; mkCommit 2 demo_commit2].
Definition demo_store1 : Store := foldl (append_version 1) NewStore demo_commit1.
Definition demo_store2 : Store := foldl (append_version 2) demo_store1 demo_commit2.
Definition demo_store3 : Store := SetGCWatermark demo_store2 2.
Definition demo_store : Store := (ReclaimKey demo_store3 key_a 2 10).1.

Lemma demo_reachable : mvcc_reachable demo_store demo_history.
Proof.
  eapply rtc_l; [apply (step_commit _ _ 1 demo_commit1 demo_store1); vm_compute; reflexivity|].
  eapply rtc_l; [apply (step_commit _ _ 2 demo_commit2 demo_store2); vm_compute; reflexivity|].
  eapply rtc_l; [apply (step_watermark _ _ 2)|].
  eapply rtc_l; [|apply rtc_refl].
  apply step_reclaim. vm_compute. done.
Qed.

Lemma demo_wf : store_wf demo_store.
Proof. eapply ref_wf, mvcc_reachable_refines, demo_reachable. Qed.

Lemma demo_wf2 : store_wf demo_store2.
Proof.
  eapply ApplyCommit_wf; [|apply (eq_refl : ApplyCommit demo_store1 2 demo_commit2 = Ok demo_store2)].
  eapply ApplyCommit_wf; [|apply (eq_refl : ApplyCommit NewStore 1 demo_commit1 = Ok demo_store1)].
  apply NewStore_wf.
Qed.


Lemma scan_visible_refines_history_witness :
  ∃ rows, ScanVisible demo_store [] 2 = Ok rows ∧ StronglySorted blt rows.*1 ∧
    ∀ k v, (k, v) ∈ rows ↔ db_at demo_history 2 !! k = Some v ∧ [] `prefix_of` k.
Proof.
  apply (scan_visible_refines_history demo_store demo_history [] 2 demo_reachable).
  vm_compute. done.
Defined.

Lemma check_conflicts_exact_witness :
  CheckConflicts demo_store 1 demo_commit2 ≠ None ↔
  ∃ m c, m ∈ demo_commit2 ∧ c ∈ demo_history ∧ writes c (Key m) ∧ 1 < commit_seq c.
Proof. apply (check_conflicts_exact demo_store demo_history 1 demo_commit2 demo_reachable). Defined.

Lemma reclaim_key_safe_witness :
  (ReclaimKey demo_store2 key_a 2 10).2 = 1 ∧
  Visible (ReclaimKey demo_store2 key_a 2 10).1 key_a 2 = Visible demo_store2 key_a 2.
Proof.
  split; [vm_compute; reflexivity|].
  apply (reclaim_key_safe demo_store2 key_a 2 10 demo_wf2). done.
Defined.

Lemma apply_commit_atomic_witness :
  is_Ok (ApplyCommit demo_store2 2 demo_commit2) = false ∧
  ∃ m v, m ∈ demo_commit2 ∧ last (chain_of demo_store2 (Key m)) = Some v ∧ 2 ≤ CommitSeq v.
Proof.
  split; [vm_compute; reflexivity|].
  apply (apply_commit_atomic demo_store2 2 demo_commit2 demo_wf2). vm_compute. reflexivity.
Defined.

Lemma export_restore_roundtrip_witness :
  RestoreStore (Export demo_store) (gcWatermark demo_store) = demo_store.
Proof. apply (export_restore_roundtrip demo_store demo_wf). vm_compute. reflexivity. Defined.

Lemma keys_from_walk_witness :
  KeysFrom demo_store [] 1 = [key_a] ∧
  KeysFrom demo_store [] 1 = take (Z.to_nat 1) (keys_after demo_store []).
Proof.
  split; [vm_compute; reflexivity|].
  destruct (keys_from_walk demo_store [] 1 demo_wf) as [H _]; [lia|exact H].
Defined.

Definition demo_empty_key : Store := foldl (append_version 1) NewStore [mkMutation [] [7] false].

Lemma demo_empty_key_wf : store_wf demo_empty_key.
Proof. apply append_versions_wf; [apply NewStore_wf|]. intros m _. constructor. Qed.

Lemma keys_from_skips_empty_key_witness :
  orderedKeys demo_empty_key = [[]] ∧ [] ∉ KeysFrom demo_empty_key [] 5.
Proof.
  split; [vm_compute; reflexivity|].
  apply (keys_from_skips_empty_key demo_empty_key 5 demo_empty_key_wf).
Defined.
