(* ===== verification/FsmCommand.v ===== *)
(** * FSM commands and outcomes ([internal/fsm/command.go], [outcome.go],
    [clusterversion.go], [gc.go])

    The replicated commands, their wire encodings, and the bounded decoders
    that parse whatever bytes the log carries.  A [string] or [[]byte] field
    is a byte list; a length prefix is a 32-bit big-endian integer and wraps
    like Go's [uint32(len(x))]. *)

From S2P Require Import Prelude Bytes Mvcc.

Abbreviation RequestID := bytes.

Inductive fsm_error :=
| ErrRequestIDUnknown
| ErrRequestIDPayloadMismatch
| ErrRequestIDConflict
| ErrMalformedCommand
| ErrUnsupportedCommandVersion
| ErrUnknownControlCommand
| ErrApplyCommit (e : mvcc_error)
| FsmPanic.
#[export] Instance fsm_panicking : Panicking fsm_error := FsmPanic.

Inductive Status := StatusCommitted | StatusAborted | StatusAbortedStale.
#[export] Instance Status_eq_dec : EqDecision Status.
Proof. solve_decision. Defined.

(** [byte(s)] of the [iota] constants, and [validStatus] with the conversion
    back. *)
Definition status_byte (s : Status) : Z :=
  match s with StatusCommitted => 0 | StatusAborted => 1 | StatusAbortedStale => 2 end.
Definition status_of_byte (b : Z) : option Status :=
  if b =? 0 then Some StatusCommitted
  else if b =? 1 then Some StatusAborted
  else if b =? 2 then Some StatusAbortedStale
  else None.

Record Outcome := mkOutcome {
  o_RequestID : RequestID;
  o_Status : Status;
  o_CommitSeq : Z;
  o_ConflictKey : bytes;
  o_ConflictLatestSeq : Z
}.

(** ** CommitTxn *)

Definition commitTxnCommandVersion : Z := 2.

Record CommitTxnCommand := mkCommitTxn {
  c_RequestID : RequestID;
  c_TxnID : Z;
  c_StartSeq : Z;
  c_Mutations : list Mutation
}.

Definition encode_mutation (m : Mutation) : bytes :=
  put_u32 (zlen (Key m)) ++ Key m ++
  (if MTombstone m then [1] else [0] ++ put_u32 (zlen (MValue m)) ++ MValue m).

Definition encodeCommitBody (cmd : CommitTxnCommand) : bytes :=
  put_u64 (c_TxnID cmd) ++ put_u64 (c_StartSeq cmd) ++
  put_u32 (zlen (c_Mutations cmd)) ++ mjoin (encode_mutation <$> c_Mutations cmd).

Definition EncodeCommitTxn (cmd : CommitTxnCommand) : bytes :=
  [commitTxnCommandVersion] ++ put_u32 (zlen (c_RequestID cmd)) ++ c_RequestID cmd ++
  encodeCommitBody cmd.

Definition decode_mutation (b : bytes) : result fsm_error (Mutation * bytes) :=
  if zlen b <? 4 then Err ErrMalformedCommand else
  '(keyLen, b) ← u32_at b;
  if zlen b <? keyLen then Err ErrMalformedCommand else
  '(key, b) ← slice_at keyLen b;
  if zlen b <? 1 then Err ErrMalformedCommand else
  '(t, b) ← u8_at b;
  let tombstone := negb (t =? 0) in
  if tombstone then Ok (mkMutation key [] true, b) else
  if zlen b <? 4 then Err ErrMalformedCommand else
  '(valLen, b) ← u32_at b;
  if zlen b <? valLen then Err ErrMalformedCommand else
  '(value, b) ← slice_at valLen b;
  Ok (mkMutation key value false, b).

Definition DecodeCommitTxn (b : bytes) : result fsm_error CommitTxnCommand :=
  if zlen b <? 5 then Err ErrMalformedCommand else
  '(version, b) ← u8_at b;
  if negb (version =? commitTxnCommandVersion) then Err ErrUnsupportedCommandVersion else
  '(reqIDLen, b) ← u32_at b;
  if zlen b <? reqIDLen then Err ErrMalformedCommand else
  '(reqID, b) ← slice_at reqIDLen b;
  if zlen b <? 20 then Err ErrMalformedCommand else
  '(txnID, b) ← u64_at b;
  '(startSeq, b) ← u64_at b;
  '(numMutations, b) ← u32_at b;
  if u32 (zlen b / 5) <? numMutations then Err ErrMalformedCommand else
  '(mutations, b) ← decode_n (Z.to_nat numMutations) decode_mutation b;
  if negb (zlen b =? 0) then Err ErrMalformedCommand else
  Ok (mkCommitTxn reqID txnID startSeq mutations).

(** ** Control commands *)

Definition ControlCommandMarker : Z := 0xF0.
Definition controlKindSetClusterVersion : Z := 1.
Definition controlKindAdvanceGCWatermark : Z := 2.

Definition IsControlCommand (payload : bytes) : bool :=
  match payload with x :: _ => x =? ControlCommandMarker | [] => false end.

Definition ControlKind (payload : bytes) : option Z :=
  if negb (IsControlCommand payload) || (zlen payload <? 2) then None else payload !! 1%nat.

Record SetClusterVersionCommand := mkSetClusterVersion {
  scv_RequestID : RequestID;
  scv_TargetGeneration : Z
}.

Definition EncodeSetClusterVersion (cmd : SetClusterVersionCommand) : bytes :=
  [ControlCommandMarker] ++ [controlKindSetClusterVersion] ++
  put_u32 (zlen (scv_RequestID cmd)) ++ scv_RequestID cmd ++
  put_u32 (scv_TargetGeneration cmd).

Definition DecodeSetClusterVersion (b : bytes) : result fsm_error SetClusterVersionCommand :=
  if zlen b <? 6 then Err ErrMalformedCommand else
  '(marker, b) ← u8_at b;
  if negb (marker =? ControlCommandMarker) then Err ErrMalformedCommand else
  '(kind, b) ← u8_at b;
  if negb (kind =? controlKindSetClusterVersion) then Err ErrUnknownControlCommand else
  '(reqIDLen, b) ← u32_at b;
  if zlen b <? reqIDLen then Err ErrMalformedCommand else
  '(reqID, b) ← slice_at reqIDLen b;
  if negb (zlen b =? 4) then Err ErrMalformedCommand else
  '(target, _) ← u32_at b;
  Ok (mkSetClusterVersion reqID target).

Record AdvanceGCWatermarkCommand := mkAdvanceGC {
  gc_RequestID : RequestID;
  gc_Watermark : Z;
  gc_MaxVersions : Z;
  gc_MaxKeys : Z
}.

Definition EncodeAdvanceGCWatermark (cmd : AdvanceGCWatermarkCommand) : bytes :=
  [ControlCommandMarker] ++ [controlKindAdvanceGCWatermark] ++
  put_u32 (zlen (gc_RequestID cmd)) ++ gc_RequestID cmd ++
  put_u64 (gc_Watermark cmd) ++ put_u32 (gc_MaxVersions cmd) ++ put_u32 (gc_MaxKeys cmd).

Definition DecodeAdvanceGCWatermark (b : bytes) : result fsm_error AdvanceGCWatermarkCommand :=
  if zlen b <? 6 then Err ErrMalformedCommand else
  '(marker, b) ← u8_at b;
  if negb (marker =? ControlCommandMarker) then Err ErrMalformedCommand else
  '(kind, b) ← u8_at b;
  if negb (kind =? controlKindAdvanceGCWatermark) then Err ErrUnknownControlCommand else
  '(reqIDLen, b) ← u32_at b;
  if zlen b <? reqIDLen then Err ErrMalformedCommand else
  '(reqID, b) ← slice_at reqIDLen b;
  if negb (zlen b =? 16) then Err ErrMalformedCommand else
  '(watermark, b) ← u64_at b;
  '(maxVersions, b) ← u32_at b;
  '(maxKeys, _) ← u32_at b;
  Ok (mkAdvanceGC reqID watermark maxVersions maxKeys).

(** ** Round trips *)

Lemma status_of_byte_byte s : status_of_byte (status_byte s) = Some s.
Proof. by destruct s. Qed.

(** A mutation as the encoder can represent it: a tombstone has no value. *)
Definition mutation_ok (m : Mutation) : Prop := MTombstone m = true → MValue m = [].

Lemma zlen_encode_mutation m :
  zlen (encode_mutation m) =
    5 + zlen (Key m) + if MTombstone m then 0 else 4 + zlen (MValue m).
Proof. unfold encode_mutation. destruct (MTombstone m); autorewrite with zlen; lia. Qed.

Lemma decode_encode_mutation m r :
  mutation_ok m → zlen (encode_mutation m) < 2 ^ 32 →
  decode_mutation (encode_mutation m ++ r) = Ok (m, r).
Proof.
  intros Hok Hlen. rewrite zlen_encode_mutation in Hlen.
  destruct m as [k v t]. unfold mutation_ok in Hok. simpl in *.
  unfold decode_mutation, encode_mutation. cbn [Key MValue MTombstone].
  destruct t; [rewrite Hok by done|]; repeat decode_step; done.
Qed.

Lemma encodeCommitBody_length cmd :
  zlen (encodeCommitBody cmd) = 20 + zlen (mjoin (encode_mutation <$> c_Mutations cmd)).
Proof. unfold encodeCommitBody. autorewrite with zlen. lia. Qed.

Lemma mutations_min_size ms : 5 * zlen ms ≤ zlen (mjoin (encode_mutation <$> ms)).
Proof.
  apply zlen_mjoin_ge. intros x _. rewrite zlen_encode_mutation.
  zlen_facts. destruct (MTombstone x); lia.
Qed.

(** A command as the transaction layer builds it. *)
Record commit_cmd_ok (cmd : CommitTxnCommand) : Prop := {
  cco_txn : is_u64 (c_TxnID cmd);
  cco_start : is_u64 (c_StartSeq cmd);
  cco_mutations : Forall mutation_ok (c_Mutations cmd);
  cco_size : zlen (EncodeCommitTxn cmd) < 2 ^ 32
}.

Lemma decode_encode_commit cmd :
  commit_cmd_ok cmd → DecodeCommitTxn (EncodeCommitTxn cmd) = Ok cmd.
Proof.
  intros [Ht Hs Hm Hlen]. destruct cmd as [id txn start ms]. simpl in *.
  unfold EncodeCommitTxn, encodeCommitBody in *. cbn [c_RequestID c_TxnID c_StartSeq c_Mutations] in *.
  pose proof (mutations_min_size ms) as Hmin.
  assert (Hdec : ∀ x r, x ∈ ms → zlen (mjoin (encode_mutation <$> ms)) < 2 ^ 32 →
            decode_mutation (encode_mutation x ++ r) = Ok (x, r)).
  { intros x r Hx Hl. apply decode_encode_mutation; [by eapply Forall_forall in Hm|].
    pose proof (zlen_mjoin_elem encode_mutation x ms Hx). lia. }
  assert (Hn : zlen (mjoin (encode_mutation <$> ms)) < 2 ^ 32 →
    decode_n (length ms) decode_mutation (mjoin (encode_mutation <$> ms)) = Ok (ms, [])).
  { intros Hl. rewrite <- (app_nil_r (mjoin _)). apply decode_n_encode; eauto. }
  clear Hdec Hm. generalize dependent (mjoin (encode_mutation <$> ms)). intros body Hlen Hmin Hn.
  assert (Hb : zlen id + zlen body + 25 < 2 ^ 32) by zlen_lia. clear Hlen.
  unfold DecodeCommitTxn, commitTxnCommandVersion. repeat decode_step.
  rewrite u32_small; [|split; [apply Z.div_pos|apply Z.div_lt_upper_bound]; zlen_lia].
  rewrite (proj2 (Z.ltb_ge _ _)) by (apply Z.div_le_lower_bound; zlen_lia).
  rewrite to_nat_zlen, Hn by zlen_lia. done.
Qed.

Lemma decode_encode_set_cluster_version cmd :
  is_u32 (scv_TargetGeneration cmd) → zlen (scv_RequestID cmd) < 2 ^ 32 →
  DecodeSetClusterVersion (EncodeSetClusterVersion cmd) = Ok cmd.
Proof.
  destruct cmd as [id g]. simpl. intros Hg Hid.
  unfold DecodeSetClusterVersion, EncodeSetClusterVersion.
  cbn [scv_RequestID scv_TargetGeneration].
  rewrite <- (app_nil_r (put_u32 g)). repeat decode_step. done.
Qed.

Lemma decode_encode_advance_gc cmd :
  is_u64 (gc_Watermark cmd) → is_u32 (gc_MaxVersions cmd) → is_u32 (gc_MaxKeys cmd) →
  zlen (gc_RequestID cmd) < 2 ^ 32 →
  DecodeAdvanceGCWatermark (EncodeAdvanceGCWatermark cmd) = Ok cmd.
Proof.
  destruct cmd as [id w mv mk]. simpl. intros Hw Hv Hk Hid.
  unfold DecodeAdvanceGCWatermark, EncodeAdvanceGCWatermark.
  cbn [gc_RequestID gc_Watermark gc_MaxVersions gc_MaxKeys].
  rewrite <- (app_nil_r (put_u32 mk)). repeat decode_step. done.
Qed.

(** ** Decoding arbitrary bytes *)

Definition mutation_wf (m : Mutation) : Prop :=
  wf_bytes (Key m) ∧ wf_bytes (MValue m) ∧ mutation_ok m.

Lemma decode_mutation_reads b :
  wf_bytes b →
  reads (decode_mutation b) (λ '(m, b'), mutation_wf m ∧ wf_bytes b' ∧ zlen b' ≤ zlen b - 5).
Proof.
  intros Hb. unfold decode_mutation. repeat reads_step.
  all: simpl; repeat split; try done; try (bool_to_prop; zlen_lia).
  constructor.
Qed.

Record commit_cmd_wf (cmd : CommitTxnCommand) : Prop := {
  ccw_id : wf_bytes (c_RequestID cmd);
  ccw_txn : is_u64 (c_TxnID cmd);
  ccw_start : is_u64 (c_StartSeq cmd);
  ccw_mutations : Forall mutation_wf (c_Mutations cmd)
}.

Lemma DecodeCommitTxn_reads b :
  wf_bytes b →
  reads (DecodeCommitTxn b) (λ cmd, commit_cmd_wf cmd ∧ 25 + 5 * zlen (c_Mutations cmd) ≤ zlen b).
Proof.
  intros Hb. unfold DecodeCommitTxn. repeat reads_step.
  eapply (reads_decode_n mutation_wf 5); [apply decode_mutation_reads|done|].
  intros ms rest Hms Hn Hrest Hle. cbv beta iota. reads_step; [reads_step|].
  simpl. split; [by constructor|]. bool_to_prop. unfold zlen in *. lia.
Qed.

Lemma DecodeSetClusterVersion_reads b :
  wf_bytes b →
  reads (DecodeSetClusterVersion b) (λ cmd,
    wf_bytes (scv_RequestID cmd) ∧ is_u32 (scv_TargetGeneration cmd)).
Proof. intros Hb. unfold DecodeSetClusterVersion. repeat reads_step. done. Qed.

Lemma DecodeAdvanceGCWatermark_reads b :
  wf_bytes b →
  reads (DecodeAdvanceGCWatermark b) (λ cmd,
    wf_bytes (gc_RequestID cmd) ∧ is_u64 (gc_Watermark cmd) ∧
    is_u32 (gc_MaxVersions cmd) ∧ is_u32 (gc_MaxKeys cmd)).
Proof. intros Hb. unfold DecodeAdvanceGCWatermark. repeat reads_step. done. Qed.

(** ** Encodings are bytes *)

Lemma encode_commit_bytes cmd :
  wf_bytes (c_RequestID cmd) → Forall mutation_wf (c_Mutations cmd) → wf_bytes (EncodeCommitTxn cmd).
Proof.
  intros Hid Hm. unfold EncodeCommitTxn, encodeCommitBody, wf_bytes.
  repeat (apply Forall_app_2); try apply wf_be_put; [|done|].
  { apply Forall_singleton. unfold is_byte, commitTxnCommandVersion. lia. }
  induction Hm as [|m ms (Hk & Hv & _) Hms IH]; [constructor|].
  cbn [fmap list_fmap mjoin list_join]. change (mjoin (encode_mutation m :: (encode_mutation <$> ms)))
    with (encode_mutation m ++ mjoin (encode_mutation <$> ms)).
  apply Forall_app_2; [|exact IH]. unfold encode_mutation.
  repeat (apply Forall_app_2); [apply wf_be_put|exact Hk|].
  destruct (MTombstone m); [by repeat constructor|].
  apply Forall_app_2; [by repeat constructor|]. apply Forall_app_2; [apply wf_be_put|exact Hv].
Qed.

Lemma encode_gc_bytes cmd : wf_bytes (gc_RequestID cmd) → wf_bytes (EncodeAdvanceGCWatermark cmd).
Proof.
  intros Hid. unfold EncodeAdvanceGCWatermark, wf_bytes. repeat (apply Forall_app_2); try apply wf_be_put; [..|done].
  all: apply Forall_singleton; unfold is_byte, ControlCommandMarker, controlKindAdvanceGCWatermark; lia.
Qed.

(** ** Properties of the command codecs *)

(** On arbitrary bytes the command decoders never index out of range;
    what they accept is well formed (integers within their width, tombstones
    without value, no more mutations than the bytes can hold), and no
    payload is both a control command and a transaction. *)
Lemma fsm_decoders_safe b :
  wf_bytes b →
  reads (DecodeCommitTxn b)
    (λ cmd, commit_cmd_wf cmd ∧ 25 + 5 * zlen (c_Mutations cmd) ≤ zlen b ∧
            IsControlCommand b = false) ∧
  reads (DecodeSetClusterVersion b)
    (λ cmd, wf_bytes (scv_RequestID cmd) ∧ is_u32 (scv_TargetGeneration cmd)) ∧
  reads (DecodeAdvanceGCWatermark b)
    (λ cmd, wf_bytes (gc_RequestID cmd) ∧ is_u64 (gc_Watermark cmd) ∧
            is_u32 (gc_MaxVersions cmd) ∧ is_u32 (gc_MaxKeys cmd)).
Proof.
  intros Hb. split; [|split; [by apply DecodeSetClusterVersion_reads|
                              by apply DecodeAdvanceGCWatermark_reads]].
  pose proof (DecodeCommitTxn_reads b Hb) as Hr.
  assert (Hc : is_Ok (DecodeCommitTxn b) = true → IsControlCommand b = false).
  { unfold DecodeCommitTxn, IsControlCommand. destruct b as [|x b]; [done|].
    destruct (zlen (x :: b) <? 5); [done|]. cbn [u8_at mbind result_bind].
    destruct (Z.eqb_spec x commitTxnCommandVersion) as [->|]; done. }
  unfold reads in *. destruct (DecodeCommitTxn b); [|done]. naive_solver.
Qed.

(** C14: every replicated command survives the log.  Decoding the encoding of
    a transaction, a cluster-version or a GC command gives the command back,
    as long as its integers fit their fields, tombstones carry no value and
    the payload is below 4 GiB.
    Decoding arbitrary bytes never reads out of range, and what it accepts is
    a well-formed command: transactions are never taken for control commands. *)
Theorem fsm_command_roundtrip :
  (∀ cmd, commit_cmd_ok cmd → DecodeCommitTxn (EncodeCommitTxn cmd) = Ok cmd) ∧
  (∀ cmd, is_u32 (scv_TargetGeneration cmd) → zlen (scv_RequestID cmd) < 2 ^ 32 →
     DecodeSetClusterVersion (EncodeSetClusterVersion cmd) = Ok cmd) ∧
  (∀ cmd, is_u64 (gc_Watermark cmd) → is_u32 (gc_MaxVersions cmd) → is_u32 (gc_MaxKeys cmd) →
     zlen (gc_RequestID cmd) < 2 ^ 32 →
     DecodeAdvanceGCWatermark (EncodeAdvanceGCWatermark cmd) = Ok cmd) ∧
  (∀ b,
  wf_bytes b →
  reads (DecodeCommitTxn b)
    (λ cmd, commit_cmd_wf cmd ∧ 25 + 5 * zlen (c_Mutations cmd) ≤ zlen b ∧
            IsControlCommand b = false) ∧
  reads (DecodeSetClusterVersion b)
    (λ cmd, wf_bytes (scv_RequestID cmd) ∧ is_u32 (scv_TargetGeneration cmd)) ∧
  reads (DecodeAdvanceGCWatermark b)
    (λ cmd, wf_bytes (gc_RequestID cmd) ∧ is_u64 (gc_Watermark cmd) ∧
            is_u32 (gc_MaxVersions cmd) ∧ is_u32 (gc_MaxKeys cmd))).
Proof.
  split; [exact decode_encode_commit|].
  split; [exact decode_encode_set_cluster_version|].
  split; [exact decode_encode_advance_gc|exact fsm_decoders_safe].
Qed.

Definition demo_command : CommitTxnCommand :=
  mkCommitTxn [114] 7 3 [mkMutation [97] [1; 2] false; mkMutation [98] [] true].

Lemma demo_command_ok : commit_cmd_ok demo_command.
Proof.
  constructor; [unfold is_u64; simpl; lia..| |vm_compute; done].
  repeat constructor; done.
Qed.

Lemma fsm_command_roundtrip_witness :
  DecodeCommitTxn (EncodeCommitTxn demo_command) = Ok demo_command.
Proof. apply (proj1 fsm_command_roundtrip demo_command demo_command_ok). Defined.
