(* ===== verification/Fsm.v ===== *)
(** * The deterministic state machine ([internal/fsm/fsm.go], [gc.go],
    [clusterversion.go], [membership.go])

    [FSM] is the replicated state: the multi-version store, the outcome
    tables that make requests idempotent, the agreed cluster generation and
    the state of the replicated garbage collector.  Each [Apply*] function is
    one atomic step (the code holds [f.mu]); it returns the new state with
    the outcome, or an error that leaves the state as it was. *)

From S2P Require Import Prelude Bytes Hash Mvcc FsmCommand.

Definition fingerprintOf (cmd : CommitTxnCommand) : bytes := sha256 (encodeCommitBody cmd).

Record outcomeEntry := mkOutcomeEntry { oe_outcome : Outcome; oe_fingerprint : bytes }.

Record FSM := mkFSM {
  f_store : Store;
  f_outcomes : gmap bytes outcomeEntry;
  f_clusterGeneration : Z;
  f_controlOutcomes : gmap bytes Outcome;
  f_membershipOutcomes : gmap bytes outcomeEntry;
  f_gcWatermark : Z;
  f_gcCursor : bytes;
  f_gcPasses : Z;
  f_gcPassSeq : Z
}.
#[export] Instance FSM_eta : Eta FSM := λ f,
  mkFSM (f_store f) (f_outcomes f) (f_clusterGeneration f) (f_controlOutcomes f)
        (f_membershipOutcomes f) (f_gcWatermark f) (f_gcCursor f) (f_gcPasses f) (f_gcPassSeq f).

Definition New (store : Store) : FSM := mkFSM store ∅ 0 ∅ ∅ 0 [] 0 0.

(** ** Transactions *)

Definition lookupLocked (f : FSM) (cmd : CommitTxnCommand) : result fsm_error Outcome :=
  match f_outcomes f !! c_RequestID cmd with
  | None => Err ErrRequestIDUnknown
  | Some e =>
      if negb (bool_decide (oe_fingerprint e = fingerprintOf cmd))
      then Err ErrRequestIDPayloadMismatch else Ok (oe_outcome e)
  end.

Definition Precheck (f : FSM) (cmd : CommitTxnCommand) : result fsm_error Outcome :=
  lookupLocked f cmd.

Definition GetOutcome (f : FSM) (id : RequestID) : option Outcome :=
  oe_outcome <$> f_outcomes f !! id.

Definition OutcomesCount (f : FSM) : nat := size (f_outcomes f).

Definition record_outcome (f : FSM) (cmd : CommitTxnCommand) (o : Outcome) : FSM :=
  f <| f_outcomes := <[c_RequestID cmd := mkOutcomeEntry o (fingerprintOf cmd)]> (f_outcomes f) |>.

Definition Apply (f : FSM) (index : Z) (cmd : CommitTxnCommand)
    : result fsm_error (FSM * Outcome) :=
  match lookupLocked f cmd with
  | Ok outcome => Ok (f, outcome)
  | Err ErrRequestIDUnknown =>
      if c_StartSeq cmd <? f_gcWatermark f then
        let outcome := mkOutcome (c_RequestID cmd) StatusAbortedStale 0 [] 0 in
        Ok (record_outcome f cmd outcome, outcome)
      else
        match CheckConflicts (f_store f) (c_StartSeq cmd) (c_Mutations cmd) with
        | Some (key, latest) =>
            let outcome := mkOutcome (c_RequestID cmd) StatusAborted 0 key latest in
            Ok (record_outcome f cmd outcome, outcome)
        | None =>
            match ApplyCommit (f_store f) index (c_Mutations cmd) with
            | Err e => Err (ErrApplyCommit e)
            | Ok store =>
                let outcome := mkOutcome (c_RequestID cmd) StatusCommitted index [] 0 in
                Ok (record_outcome (f <| f_store := store |>) cmd outcome, outcome)
            end
        end
  | Err e => Err e
  end.

(** ** Cluster generation *)

Definition ApplySetClusterVersion (f : FSM) (index : Z) (cmd : SetClusterVersionCommand)
    : FSM * Outcome :=
  match f_controlOutcomes f !! scv_RequestID cmd with
  | Some entry => (f, entry)
  | None =>
      if negb (scv_TargetGeneration cmd =? u32 (f_clusterGeneration f + 1)) then
        let outcome := mkOutcome (scv_RequestID cmd) StatusAborted 0 [] 0 in
        (f <| f_controlOutcomes := <[scv_RequestID cmd := outcome]> (f_controlOutcomes f) |>, outcome)
      else
        let outcome := mkOutcome (scv_RequestID cmd) StatusCommitted index [] 0 in
        (f <| f_clusterGeneration := scv_TargetGeneration cmd |>
           <| f_controlOutcomes := <[scv_RequestID cmd := outcome]> (f_controlOutcomes f) |>, outcome)
  end.

(** ** Garbage collection *)

(** The [for _, k := range keys] loop: the store, the versions removed, the
    last key examined, and whether the whole batch was examined. *)
Fixpoint gc_walk (s : Store) (w maxVersions : Z) (keys : list bytes) (removed : Z)
    (lastExamined : bytes) : Store * Z * bytes * bool :=
  match keys with
  | [] => (s, removed, lastExamined, true)
  | k :: keys =>
      if maxVersions <=? u32 removed then (s, removed, lastExamined, false) else
      let '(s, n) := ReclaimKey s k w (maxVersions - removed) in
      gc_walk s w maxVersions keys (removed + n) k
  end.

(** The watermark raised in the FSM, and the bounded walk that reclaims
    versions and moves the cursor.  The store's own horizon is not raised
    yet. *)
Definition gc_reclaim (f : FSM) (cmd : AdvanceGCWatermarkCommand) : FSM :=
  let f := if f_gcWatermark f <? gc_Watermark cmd
           then f <| f_gcWatermark := gc_Watermark cmd |> else f in
  let w := f_gcWatermark f in
  if 0 <? gc_MaxKeys cmd then
    let keys := KeysFrom (f_store f) (f_gcCursor f) (gc_MaxKeys cmd) in
    let '(s, _, lastExamined, fullyConsumedBatch) :=
      gc_walk (f_store f) w (gc_MaxVersions cmd) keys 0 [] in
    let f := f <| f_store := s |> in
    if fullyConsumedBatch && (zlen keys <? gc_MaxKeys cmd) then
      f <| f_gcCursor := [] |> <| f_gcPasses := (f_gcPasses f + 1)%u64 |>
    else if bool_decide (lastExamined ≠ []) then f <| f_gcCursor := lastExamined |>
    else f
  else f.

Definition ApplyAdvanceGCWatermark (f : FSM) (index : Z) (cmd : AdvanceGCWatermarkCommand)
    : FSM * Outcome :=
  match f_controlOutcomes f !! gc_RequestID cmd with
  | Some entry => (f, entry)
  | None =>
      let f := gc_reclaim f cmd in
      let w := f_gcWatermark f in
      let f := f <| f_gcPassSeq := (f_gcPassSeq f + 1)%u64 |> in
      let outcome := mkOutcome (gc_RequestID cmd) StatusCommitted index [] 0 in
      (f <| f_controlOutcomes := <[gc_RequestID cmd := outcome]> (f_controlOutcomes f) |>
         <| f_store := SetGCWatermark (f_store f) w |>, outcome)
  end.

(** ** Membership outcomes *)

Inductive MembershipKind := MembershipAddLearner | MembershipPromoteVoter | MembershipRemoveServer.
Definition membership_kind_byte (k : MembershipKind) : Z :=
  match k with
  | MembershipAddLearner => 16
  | MembershipPromoteVoter => 17
  | MembershipRemoveServer => 18
  end.

Definition membershipFingerprintOf (kind : MembershipKind) (nodeID address : bytes) : bytes :=
  sha256 ([membership_kind_byte kind] ++ put_u32 (zlen nodeID) ++ nodeID ++
          put_u32 (zlen address) ++ address).

Definition RecordMembershipOutcome (f : FSM) (id : RequestID) (kind : MembershipKind)
    (nodeID address : bytes) (outcome : Outcome) : result fsm_error (FSM * Outcome) :=
  let fp := membershipFingerprintOf kind nodeID address in
  match f_membershipOutcomes f !! id with
  | Some e =>
      if negb (bool_decide (oe_fingerprint e = fp)) then Err ErrRequestIDConflict
      else Ok (f, oe_outcome e)
  | None =>
      Ok (f <| f_membershipOutcomes := <[id := mkOutcomeEntry outcome fp]>
                                         (f_membershipOutcomes f) |>, outcome)
  end.

Definition GetMembershipOutcome (f : FSM) (id : RequestID) (kind : MembershipKind)
    (nodeID address : bytes) : result fsm_error Outcome :=
  match f_membershipOutcomes f !! id with
  | None => Err ErrRequestIDUnknown
  | Some e =>
      if negb (bool_decide (oe_fingerprint e = membershipFingerprintOf kind nodeID address))
      then Err ErrRequestIDConflict else Ok (oe_outcome e)
  end.

(** ** Elementary facts about one step *)

(** A command that has no recorded outcome yet is decided now, in one of
    three ways. *)
Lemma Apply_fresh f i cmd f' o :
  f_outcomes f !! c_RequestID cmd = None → Apply f i cmd = Ok (f', o) →
  (c_StartSeq cmd < f_gcWatermark f ∧
     o = mkOutcome (c_RequestID cmd) StatusAbortedStale 0 [] 0 ∧ f' = record_outcome f cmd o) ∨
  (∃ key latest, f_gcWatermark f ≤ c_StartSeq cmd ∧
     CheckConflicts (f_store f) (c_StartSeq cmd) (c_Mutations cmd) = Some (key, latest) ∧
     o = mkOutcome (c_RequestID cmd) StatusAborted 0 key latest ∧ f' = record_outcome f cmd o) ∨
  (∃ s', f_gcWatermark f ≤ c_StartSeq cmd ∧
     CheckConflicts (f_store f) (c_StartSeq cmd) (c_Mutations cmd) = None ∧
     ApplyCommit (f_store f) i (c_Mutations cmd) = Ok s' ∧
     o = mkOutcome (c_RequestID cmd) StatusCommitted i [] 0 ∧
     f' = record_outcome (f <| f_store := s' |>) cmd o).
Proof.
  intros Hf. unfold Apply, lookupLocked. rewrite Hf.
  destruct (Z.ltb_spec (c_StartSeq cmd) (f_gcWatermark f)).
  { intros [= <- <-]. by left. }
  destruct (CheckConflicts _ _ _) as [[key latest]|] eqn:Hc.
  { intros [= <- <-]. right. left. by exists key, latest. }
  destruct (ApplyCommit _ _ _) as [s'|e] eqn:Hs; [|done].
  intros [= <- <-]. right. right. by exists s'.
Qed.

(** A command whose request is already recorded changes nothing. *)
Lemma Apply_recorded f i cmd f' o e :
  f_outcomes f !! c_RequestID cmd = Some e → Apply f i cmd = Ok (f', o) →
  f' = f ∧ o = oe_outcome e ∧ oe_fingerprint e = fingerprintOf cmd.
Proof.
  intros Hf. unfold Apply, lookupLocked. rewrite Hf. case_bool_decide; simpl; [|done].
  by intros [= <- <-].
Qed.

Lemma record_outcome_store f cmd o : f_store (record_outcome f cmd o) = f_store f.
Proof. done. Qed.

Lemma record_outcome_outcomes f cmd o :
  f_outcomes (record_outcome f cmd o) =
  <[c_RequestID cmd := mkOutcomeEntry o (fingerprintOf cmd)]> (f_outcomes f).
Proof. done. Qed.

Lemma Apply_other_fields f i cmd f' o :
  Apply f i cmd = Ok (f', o) →
  f_clusterGeneration f' = f_clusterGeneration f ∧ f_controlOutcomes f' = f_controlOutcomes f ∧
  f_membershipOutcomes f' = f_membershipOutcomes f ∧ f_gcWatermark f' = f_gcWatermark f ∧
  f_gcCursor f' = f_gcCursor f ∧ f_gcPasses f' = f_gcPasses f ∧ f_gcPassSeq f' = f_gcPassSeq f.
Proof.
  destruct (f_outcomes f !! c_RequestID cmd) eqn:E.
  - intros (-> & _)%(Apply_recorded _ _ _ _ _ _ E). done.
  - by intros [(_ & _ & ->)|[(?&?&_&_&_&->)|(?&_&_&_&_&->)]]%(Apply_fresh _ _ _ _ _ E).
Qed.

(** ** The garbage-collection walk *)

Lemma gc_walk_other s w mv keys removed le :
  let r := gc_walk s w mv keys removed le in
  Mvcc.gcWatermark r.1.1.1 = Mvcc.gcWatermark s ∧
  skipHorizonGuardForTest r.1.1.1 = skipHorizonGuardForTest s ∧
  orderedKeys r.1.1.1 = orderedKeys s.
Proof.
  revert s removed le. induction keys as [|k keys IH]; intros s removed le; simpl; [done|].
  destruct (mv <=? u32 removed); [done|].
  destruct (ReclaimKey s k w (mv - removed)) as [s' n] eqn:E.
  destruct (ReclaimKey_other s k w (mv - removed)) as (H1 & H2 & H3). rewrite E in *. simpl in *.
  destruct (IH s' (removed + n) k) as (-> & -> & ->). done.
Qed.

Lemma gc_walk_wf s w mv keys removed le :
  store_wf s → store_wf (gc_walk s w mv keys removed le).1.1.1.
Proof.
  revert s removed le. induction keys as [|k keys IH]; intros s removed le Hs; simpl; [done|].
  destruct (mv <=? u32 removed); [done|].
  pose proof (ReclaimKey_wf s k w (mv - removed) Hs) as Hw.
  destruct (ReclaimKey s k w (mv - removed)) as [s' n]. by apply IH.
Qed.

(** The walk does not look at the horizon of the store it walks. *)
Lemma ReclaimKey_watermark s k w budget x :
  ReclaimKey (s <| Mvcc.gcWatermark := x |>) k w budget =
  ((ReclaimKey s k w budget).1 <| Mvcc.gcWatermark := x |>, (ReclaimKey s k w budget).2).
Proof.
  rewrite !ReclaimKey_eq. unfold chain_of. simpl.
  destruct (reclaim_count _ _ _ =? 0); done.
Qed.

Lemma gc_walk_watermark s w mv keys removed le x :
  (gc_walk (s <| Mvcc.gcWatermark := x |>) w mv keys removed le).1.1.1 =
  (gc_walk s w mv keys removed le).1.1.1 <| Mvcc.gcWatermark := x |>.
Proof.
  revert s removed le. induction keys as [|k keys IH]; intros s removed le; cbn [gc_walk]; [done|].
  destruct (mv <=? u32 removed); [done|]. rewrite ReclaimKey_watermark.
  destruct (ReclaimKey s k w (mv - removed)) as [s' n]. cbn [fst snd]. apply IH.
Qed.

Lemma SetGCWatermark_eq s w :
  SetGCWatermark s w = s <| Mvcc.gcWatermark := Z.max (Mvcc.gcWatermark s) w |>.
Proof.
  unfold SetGCWatermark. destruct (Z.ltb_spec (Mvcc.gcWatermark s) w).
  - by rewrite Z.max_r by lia.
  - rewrite Z.max_l by lia. by destruct s.
Qed.

Lemma gc_walk_SetGC s w mv keys removed le :
  SetGCWatermark (gc_walk s w mv keys removed le).1.1.1 w =
  (gc_walk (SetGCWatermark s w) w mv keys removed le).1.1.1.
Proof.
  rewrite !SetGCWatermark_eq, gc_walk_watermark.
  by destruct (gc_walk_other s w mv keys removed le) as (-> & _).
Qed.

Lemma gc_reclaim_spec f cmd :
  let w := Z.max (f_gcWatermark f) (gc_Watermark cmd) in
  let r := gc_reclaim f cmd in
  f_gcWatermark r = w ∧
  f_outcomes r = f_outcomes f ∧ f_clusterGeneration r = f_clusterGeneration f ∧
  f_controlOutcomes r = f_controlOutcomes f ∧ f_membershipOutcomes r = f_membershipOutcomes f ∧
  f_gcPassSeq r = f_gcPassSeq f ∧
  f_store r = (gc_walk (f_store f) w (gc_MaxVersions cmd)
                 (if 0 <? gc_MaxKeys cmd
                  then KeysFrom (f_store f) (f_gcCursor f) (gc_MaxKeys cmd) else []) 0 []).1.1.1.
Proof.
  cbv zeta. unfold gc_reclaim.
  set (f1 := if f_gcWatermark f <? gc_Watermark cmd
             then f <| f_gcWatermark := gc_Watermark cmd |> else f).
  assert (Hf1 : f1 = f <| f_gcWatermark := Z.max (f_gcWatermark f) (gc_Watermark cmd) |>).
  { unfold f1. destruct (Z.ltb_spec (f_gcWatermark f) (gc_Watermark cmd)).
    - by rewrite Z.max_r by lia.
    - rewrite Z.max_l by lia. by destruct f. }
  rewrite Hf1. clear f1 Hf1. destruct (0 <? gc_MaxKeys cmd); [|done].
  set (keys := KeysFrom _ _ _). change (KeysFrom (f_store f) _ _) with keys.
  cbn [f_store f_gcWatermark modify].
  destruct (gc_walk _ _ _ _ _ _) as [[[s n] le] full]. simpl.
  case_if; [done|]. by case_if.
Qed.

(** What a garbage-collection command does to the state, apart from the
    cursor and counters. *)
Lemma ApplyAdvanceGC_fresh f i cmd :
  f_controlOutcomes f !! gc_RequestID cmd = None →
  Mvcc.gcWatermark (f_store f) = f_gcWatermark f →
  let w := Z.max (f_gcWatermark f) (gc_Watermark cmd) in
  let keys := if 0 <? gc_MaxKeys cmd
              then KeysFrom (f_store f) (f_gcCursor f) (gc_MaxKeys cmd) else [] in
  let r := ApplyAdvanceGCWatermark f i cmd in
  f_gcWatermark r.1 = w ∧ f_outcomes r.1 = f_outcomes f ∧
  f_clusterGeneration r.1 = f_clusterGeneration f ∧
  f_membershipOutcomes r.1 = f_membershipOutcomes f ∧
  f_gcPassSeq r.1 = (f_gcPassSeq f + 1)%u64 ∧
  f_controlOutcomes r.1 = <[gc_RequestID cmd := r.2]> (f_controlOutcomes f) ∧
  r.2 = mkOutcome (gc_RequestID cmd) StatusCommitted i [] 0 ∧
  f_store r.1 = (gc_walk (SetGCWatermark (f_store f) w) w (gc_MaxVersions cmd) keys 0 []).1.1.1.
Proof.
  intros Hc Hw w keys. unfold ApplyAdvanceGCWatermark. rewrite Hc.
  destruct (gc_reclaim_spec f cmd) as (H1 & H2 & H3 & H4 & H5 & H6 & H7). cbv zeta. simpl.
  rewrite H1, H2, H3, H4, H5, H6. split; [done|]. do 6 (split; [done|]).
  rewrite H7. apply gc_walk_SetGC.
Qed.

(** ** Counting versions *)

Definition total_versions (s : Store) : Z :=
  foldr (λ k n, zlen (chain_of s k) + n) 0 (orderedKeys s).

Lemma foldr_zlen_change (f g : bytes → Z) k d (l : list bytes) :
  NoDup l → k ∈ l → (∀ k', k' ≠ k → g k' = f k') → g k = f k - d →
  foldr (λ k n, g k + n) 0 l = foldr (λ k n, f k + n) 0 l - d.
Proof.
  intros Hn Hin Hne Hk. induction Hn as [|x l Hx Hn IH]; [by apply not_elem_of_nil in Hin|].
  apply elem_of_cons in Hin as [<-|Hin]; simpl.
  - assert (foldr (λ k n, g k + n) 0 l = foldr (λ k n, f k + n) 0 l); [|lia].
    clear IH. induction l as [|y l IHl]; [done|]. simpl.
    apply not_elem_of_cons in Hx as [Hy Hx]. apply NoDup_cons in Hn as [_ Hn].
    rewrite IHl, Hne by done. done.
  - rewrite IH by done. rewrite Hne; [lia|]. by intros ->.
Qed.

Lemma reclaim_count_bounds chain w budget :
  0 ≤ reclaim_count chain w budget ≤ Z.max 0 budget ∧ reclaim_count chain w budget ≤ zlen chain.
Proof.
  pose proof (newest_index_lt chain w). pose proof (zlen_nonneg chain).
  unfold reclaim_count. lia.
Qed.

Lemma total_versions_ReclaimKey s k w budget :
  store_wf s → k ∈ orderedKeys s →
  total_versions (ReclaimKey s k w budget).1 = total_versions s - (ReclaimKey s k w budget).2.
Proof.
  intros Hwf Hk. unfold total_versions.
  destruct (ReclaimKey_other s k w budget) as (_ & _ & ->).
  apply (foldr_zlen_change (λ k, zlen (chain_of s k)) _ k);
    [by apply GoSort.strict_sorted_NoDup, Hwf|done| |].
  - intros k' Hne. rewrite chain_of_ReclaimKey. by rewrite decide_False.
  - rewrite chain_of_ReclaimKey, decide_True, ReclaimKey_eq by done. simpl.
    pose proof (reclaim_count_bounds (chain_of s k) w budget).
    rewrite zlen_drop; lia.
Qed.

(** The walk removes exactly what it reports, within the budget, touches only
    the keys of its batch, and is invisible at or above its horizon. *)
Lemma gc_walk_effect s w mv keys removed le :
  store_wf s → (∀ k, k ∈ keys → k ∈ orderedKeys s) → is_u32 mv → 0 ≤ removed ≤ mv →
  let r := gc_walk s w mv keys removed le in
  total_versions r.1.1.1 = total_versions s - (r.1.1.2 - removed) ∧
  removed ≤ r.1.1.2 ≤ mv ∧
  (∀ k, k ∉ keys → chain_of r.1.1.1 k = chain_of s k) ∧
  (∀ k seq, w ≤ seq → newest_at (chain_of r.1.1.1 k) seq = newest_at (chain_of s k) seq).
Proof.
  intros Hwf Hkeys Hmv Hr. revert s Hwf removed le Hkeys Hr.
  induction keys as [|k keys IH]; intros s Hwf removed le Hkeys Hr; simpl.
  { repeat split; try done; lia. }
  rewrite u32_small by (unfold is_u32 in *; lia).
  destruct (Z.leb_spec mv removed).
  { simpl. repeat split; try done; lia. }
  pose proof (ReclaimKey_wf s k w (mv - removed) Hwf) as Hwf'.
  pose proof (total_versions_ReclaimKey s k w (mv - removed) Hwf ltac:(set_solver)) as Ht.
  pose proof (chain_of_ReclaimKey s k w (mv - removed)) as Hch.
  destruct (ReclaimKey_other s k w (mv - removed)) as (_ & _ & Hk').
  pose proof (reclaim_count_bounds (chain_of s k) w (mv - removed)) as Hb.
  destruct (ReclaimKey s k w (mv - removed)) as [s' n] eqn:E.
  assert (Hn : n = reclaim_count (chain_of s k) w (mv - removed)).
  { rewrite ReclaimKey_eq in E. by injection E. }
  simpl in *. destruct (IH s' Hwf' (removed + n) k) as (H1 & H2 & H3 & H4).
  { rewrite Hk'. set_solver. } { lia. }
  split; [lia|]. split; [lia|]. split.
  - intros k' Hk'in. apply not_elem_of_cons in Hk'in as [Hne Hni].
    rewrite H3, Hch by done. by rewrite decide_False.
  - intros k' seq Hseq. rewrite H4, Hch by done. case_decide; [|done]. subst.
    apply newest_at_reclaim; [by apply Hwf|done].
Qed.

Lemma KeysFrom_length s cursor limit : zlen (KeysFrom s cursor limit) ≤ Z.max 0 limit.
Proof.
  unfold KeysFrom. destruct (Z.leb_spec limit 0); [rewrite zlen_nil; lia|].
  cbv zeta. set (start := if bool_decide _ then _ else _).
  destruct (_ <=? start)%nat; [rewrite zlen_nil; lia|].
  unfold zlen. rewrite length_take. case_if; bool_to_prop; lia.
Qed.

Lemma KeysFrom_subset s cursor limit k :
  store_wf s → k ∈ KeysFrom s cursor limit → k ∈ orderedKeys s.
Proof.
  intros Hwf. rewrite KeysFrom_eq by done. intros (i & Hi & _)%elem_of_take.
  by apply list_elem_of_lookup_2, list_elem_of_filter in Hi as [_ ?].
Qed.
