(* ===== verification/FsmSpec.v ===== *)
(** * What the state machine promises

    A run of the state machine applies commands at strictly increasing log
    indices.  The ghost trace records each transaction the first time it is
    decided.  The invariant [fsm_inv] ties the state to the trace: the store
    refines the history of the committed transactions, the outcome table
    is the trace, and the store's GC horizon is the FSM's. *)

From S2P Require Import Prelude Bytes Hash Mvcc MvccSpec FsmCommand Fsm.

Record decided := mkDecided { d_index : Z; d_cmd : CommitTxnCommand; d_outcome : Outcome }.
Abbreviation trace := (list decided).

Definition is_committed (d : decided) : bool := bool_decide (o_Status (d_outcome d) = StatusCommitted).

Definition history_of (t : trace) : History :=
  (λ d, mkCommit (d_index d) (c_Mutations (d_cmd d))) <$> filter (λ d, is_committed d = true) t.

Record run_state := mkRun { r_fsm : FSM; r_last : Z; r_trace : trace }.

Inductive fsm_step : run_state → run_state → Prop :=
| step_txn_fresh f last t i cmd f' o :
    last < i → f_outcomes f !! c_RequestID cmd = None → Apply f i cmd = Ok (f', o) →
    fsm_step (mkRun f last t) (mkRun f' i (t ++ [mkDecided i cmd o]))
| step_txn_retry f last t i cmd e f' o :
    last < i → f_outcomes f !! c_RequestID cmd = Some e → Apply f i cmd = Ok (f', o) →
    fsm_step (mkRun f last t) (mkRun f' i t)
| step_version f last t i cmd :
    last < i → fsm_step (mkRun f last t) (mkRun (ApplySetClusterVersion f i cmd).1 i t)
| step_gc f last t i cmd :
    last < i → fsm_step (mkRun f last t) (mkRun (ApplyAdvanceGCWatermark f i cmd).1 i t)
| step_membership f last t i id kind node addr out f' o :
    last < i → RecordMembershipOutcome f id kind node addr out = Ok (f', o) →
    fsm_step (mkRun f last t) (mkRun f' i t).

Definition fsm_initial : run_state := mkRun (New NewStore) 0 [].
Definition fsm_reachable (r : run_state) : Prop := rtc fsm_step fsm_initial r.

(** [d] was decided with a snapshot that includes every earlier commit that
    wrote one of its keys. *)
Definition no_lost_update (before : trace) (d : decided) : Prop :=
  ∀ c, c ∈ history_of before → ∀ m, m ∈ c_Mutations (d_cmd d) → writes c (Key m) →
       commit_seq c ≤ c_StartSeq (d_cmd d).

Record fsm_inv (r : run_state) : Prop := {
  fi_store : store_refines (f_store (r_fsm r)) (history_of (r_trace r));
  fi_horizon : gcWatermark (f_store (r_fsm r)) = f_gcWatermark (r_fsm r);
  fi_indices : StronglySorted Z.lt (d_index <$> r_trace r);
  fi_last : Forall (λ d, d_index d ≤ r_last r) (r_trace r);
  fi_outcomes : ∀ id e, f_outcomes (r_fsm r) !! id = Some e ↔
    ∃ d, d ∈ r_trace r ∧ c_RequestID (d_cmd d) = id ∧
         e = mkOutcomeEntry (d_outcome d) (fingerprintOf (d_cmd d));
  fi_nodup : NoDup ((λ d, c_RequestID (d_cmd d)) <$> r_trace r);
  fi_shape : Forall (λ d, o_RequestID (d_outcome d) = c_RequestID (d_cmd d) ∧
    (is_committed d = true → o_CommitSeq (d_outcome d) = d_index d)) (r_trace r);
  fi_si : ∀ before d after, r_trace r = before ++ d :: after →
    is_committed d = true → no_lost_update before d
}.

(** ** Histories of extended traces *)

Lemma history_of_snoc t d :
  history_of (t ++ [d]) = history_of t ++
    (if is_committed d then [mkCommit (d_index d) (c_Mutations (d_cmd d))] else []).
Proof.
  unfold history_of. rewrite filter_app, fmap_app, filter_cons, filter_nil.
  f_equal. destruct (is_committed d); [by rewrite decide_True|by rewrite decide_False].
Qed.

Lemma elem_of_history_of t c :
  c ∈ history_of t ↔ ∃ d, d ∈ t ∧ is_committed d = true ∧
                          c = mkCommit (d_index d) (c_Mutations (d_cmd d)).
Proof.
  unfold history_of. rewrite list_elem_of_fmap. split.
  - intros (d & -> & [? ?]%list_elem_of_filter). eauto.
  - intros (d & ? & ? & ->). exists d. split; [done|]. by apply list_elem_of_filter.
Qed.

Lemma snoc_split {A} (t before after : list A) d x :
  t ++ [x] = before ++ d :: after →
  (after = [] ∧ before = t ∧ d = x) ∨ ∃ after', t = before ++ d :: after' ∧ after = after' ++ [x].
Proof.
  destruct after as [|y after _] using rev_ind.
  - intros [-> [= ->]]%app_inj_tail. by left.
  - rewrite app_comm_cons, app_assoc. intros [-> ->]%app_inj_tail. right. by exists after.
Qed.

(** ** Conflict checks *)

Lemma CheckConflicts_None s seq ms m v :
  CheckConflicts s seq ms = None → m ∈ ms → last (chain_of s (Key m)) = Some v → CommitSeq v ≤ seq.
Proof.
  induction ms as [|m' ms IH]; simpl; [by intros _ ?%not_elem_of_nil|].
  intros Hc [->|Hm]%elem_of_cons Hl.
  - rewrite Hl in Hc. destruct (Z.ltb_spec seq (CommitSeq v)); [done|lia].
  - apply IH; [|done|done]. destruct (last (chain_of s (Key m'))); [|done].
    by destruct (seq <? CommitSeq v0).
Qed.

Lemma CheckConflicts_None_history s h seq ms c m :
  store_refines s h → CheckConflicts s seq ms = None →
  c ∈ h → m ∈ ms → writes c (Key m) → commit_seq c ≤ seq.
Proof.
  intros Hr Hc Hin Hm Hw.
  destruct (history_versions_writes h c (Key m) Hin Hw) as (v & Hv & <-).
  destruct (last (history_versions h (Key m))) as [z|] eqn:E.
  - pose proof (last_sorted_max _ _ _ (ref_sorted _ _ Hr _) E Hv).
    rewrite <- (refines_last s h) in E by done.
    pose proof (CheckConflicts_None _ _ _ _ _ Hc Hm E). lia.
  - apply last_None in E. rewrite E in Hv. by apply not_elem_of_nil in Hv.
Qed.

(** ** Preservation *)

Lemma fsm_inv_initial : fsm_inv fsm_initial.
Proof.
  constructor; simpl.
  - apply store_refines_init.
  - done.
  - constructor.
  - constructor.
  - intros id e. rewrite lookup_empty. split; [done|]. by intros (d & ?%not_elem_of_nil & _).
  - constructor.
  - constructor.
  - intros before d after H. by destruct before.
Qed.

Lemma inv_txn_fresh f last t i cmd f' o :
  fsm_inv (mkRun f last t) → last < i → f_outcomes f !! c_RequestID cmd = None →
  Apply f i cmd = Ok (f', o) → fsm_inv (mkRun f' i (t ++ [mkDecided i cmd o])).
Proof.
  intros [Hst Hh Hidx Hlast Hout Hnd Hsh Hsi] Hi Hf HA. simpl in *.
  pose proof (Apply_other_fields _ _ _ _ _ HA) as (_ & _ & _ & Hgw & _).
  pose proof (Apply_fresh _ _ _ _ _ Hf HA) as Hcase.
  assert (Hf' : f_outcomes f' = <[c_RequestID cmd := mkOutcomeEntry o (fingerprintOf cmd)]> (f_outcomes f)).
  { destruct Hcase as [(_ & _ & ->)|[(?&?&_&_&_&->)|(?&_&_&_&_&->)]]; done. }
  assert (Hstore : store_refines (f_store f') (history_of (t ++ [mkDecided i cmd o])) ∧
                   gcWatermark (f_store f') = gcWatermark (f_store f)).
  { rewrite history_of_snoc.
    destruct Hcase as [(_ & -> & ->)|[(?&?&_&_&->&->)|(s'&_&_&Hs'&->&->)]]; simpl.
    1,2: by rewrite app_nil_r.
    split; [by eapply refines_commit|].
    apply ApplyCommit_Ok_inv in Hs' as [-> _]. apply append_versions_other. }
  destruct Hstore as [Hst' Hgs].
  constructor; simpl.
  - done.
  - congruence.
  - rewrite fmap_app. apply StronglySorted_app_2; [|done|repeat constructor].
    simpl. intros x y (d & -> & Hd)%list_elem_of_fmap ->%list_elem_of_singleton.
    pose proof (proj1 (Forall_forall _ _) Hlast d Hd). simpl in *. lia.
  - apply Forall_app. split; [|repeat constructor; simpl; lia].
    eapply Forall_impl; [exact Hlast|]. simpl. lia.
  - intros id e. rewrite Hf', lookup_insert_Some, Hout. split.
    + intros [[<- <-]|[Hne (d & ? & ? & ?)]].
      * exists (mkDecided i cmd o). split; [set_solver|done].
      * exists d. split; [set_solver|done].
    + intros (d & [Hd| ->%list_elem_of_singleton]%elem_of_app & Hid & ->); [|by left].
      right. split; [|by eauto]. intros Heq. rewrite Heq in Hf.
      assert (is_Some (f_outcomes f !! id)) as [? ?]; [|congruence].
      eexists. apply Hout. by eauto.
  - rewrite fmap_app. apply NoDup_app. split; [done|]. split; [|apply NoDup_singleton].
    simpl. intros x (d & -> & Hd)%list_elem_of_fmap Heq%list_elem_of_singleton.
    rewrite <- Heq in Hf.
    assert (is_Some (f_outcomes f !! c_RequestID (d_cmd d))) as [? ?]; [|congruence].
    eexists. apply Hout. by eauto.
  - apply Forall_app. split; [done|]. constructor; [|constructor].
    destruct Hcase as [(_ & -> & _)|[(?&?&_&_&->&_)|(?&_&_&_&->&_)]]; done.
  - intros before d after Hsplit Hcom.
    apply snoc_split in Hsplit as [(_ & -> & ->)|(after' & -> & _)]; [|by eapply Hsi].
    destruct Hcase as [(_ & -> & _)|[(?&?&_&_&->&_)|(s'&_&Hcc&_&_&_)]]; [done|done|].
    intros c Hc m Hm Hw. simpl in *.
    exact (CheckConflicts_None_history _ _ _ _ _ _ Hst Hcc Hc Hm Hw).
Qed.

Lemma gc_walk_refines s h w mv keys removed le :
  store_refines s h → w ≤ gcWatermark s → store_refines (gc_walk s w mv keys removed le).1.1.1 h.
Proof.
  revert s removed le. induction keys as [|k keys IH]; intros s removed le Hs Hw; simpl; [done|].
  destruct (mv <=? u32 removed); [done|].
  pose proof (refines_reclaim s h k w (mv - removed) Hs Hw) as Hr.
  destruct (ReclaimKey_other s k w (mv - removed)) as (Hg & _).
  destruct (ReclaimKey s k w (mv - removed)) as [s' n]. simpl in *.
  apply IH; [done|]. by rewrite Hg.
Qed.

(** Fields the invariant looks at are unchanged, or the store was collected
    at the new horizon. *)
Lemma inv_frame f f' last i t :
  fsm_inv (mkRun f last t) → last < i →
  store_refines (f_store f') (history_of t) →
  gcWatermark (f_store f') = f_gcWatermark f' → f_outcomes f' = f_outcomes f →
  fsm_inv (mkRun f' i t).
Proof.
  intros [Hst Hh Hidx Hlast Hout Hnd Hsh Hsi] Hi Hs Hw Ho. simpl in *.
  constructor; simpl; try done.
  - eapply Forall_impl; [exact Hlast|]. simpl. lia.
  - by rewrite Ho.
Qed.

Lemma fsm_inv_step r r' : fsm_step r r' → fsm_inv r → fsm_inv r'.
Proof.
  destruct 1 as [f last t i cmd f' o Hi Hf HA|f last t i cmd e f' o Hi Hf HA
                |f last t i cmd Hi|f last t i cmd Hi|f last t i id kind node addr out f' o Hi Hm];
    intros Hinv.
  - by eapply inv_txn_fresh.
  - destruct (Apply_recorded _ _ _ _ _ _ Hf HA) as (-> & _).
    eapply inv_frame; [done|done|apply Hinv|apply Hinv|done].
  - unfold ApplySetClusterVersion.
    eapply inv_frame; [done|done| | |]; destruct (f_controlOutcomes f !! _); try apply Hinv;
      try done; case_if; (done || apply Hinv).
  - destruct (f_controlOutcomes f !! gc_RequestID cmd) eqn:E.
    + unfold ApplyAdvanceGCWatermark. rewrite E.
      eapply inv_frame; [done|done|apply Hinv|apply Hinv|done].
    + pose proof (fi_horizon _ Hinv) as Hh. simpl in Hh.
      destruct (ApplyAdvanceGC_fresh f i cmd E Hh) as (H1 & H2 & _ & _ & _ & _ & _ & H8).
      set (w := Z.max _ _) in *.
      assert (Hwg : gcWatermark (SetGCWatermark (f_store f) w) = w).
      { rewrite SetGCWatermark_eq. simpl. rewrite Hh. unfold w. lia. }
      eapply inv_frame; [done|done| | |exact H2].
      * rewrite H8. apply gc_walk_refines; [apply refines_watermark, Hinv|by rewrite Hwg].
      * rewrite H1, H8. by destruct (gc_walk_other (SetGCWatermark (f_store f) w) w
          (gc_MaxVersions cmd) (if 0 <? gc_MaxKeys cmd
              then KeysFrom (f_store f) (f_gcCursor f) (gc_MaxKeys cmd) else []) 0 []) as (-> & _).
  - unfold RecordMembershipOutcome in Hm.
    destruct (f_membershipOutcomes f !! id); [case_match; [done|]|]; injection Hm as <- _;
      (eapply inv_frame; [done|done|apply Hinv|apply Hinv|done]).
Qed.

Lemma fsm_reachable_inv r : fsm_reachable r → fsm_inv r.
Proof.
  unfold fsm_reachable. intros H.
  enough (∀ x y, rtc fsm_step x y → fsm_inv x → fsm_inv y) by eauto using fsm_inv_initial.
  induction 1; eauto using fsm_inv_step.
Qed.

(** Applying a command at the next index decides it. *)
Lemma Apply_total r i cmd :
  fsm_inv r → r_last r < i →
  (∃ f' o, Apply (r_fsm r) i cmd = Ok (f', o) ∧ o_RequestID o = c_RequestID cmd) ∨
  (Apply (r_fsm r) i cmd = Err ErrRequestIDPayloadMismatch ∧
   ∃ e, f_outcomes (r_fsm r) !! c_RequestID cmd = Some e ∧ oe_fingerprint e ≠ fingerprintOf cmd).
Proof.
  intros Hr Hi. unfold Apply, lookupLocked.
  destruct (f_outcomes (r_fsm r) !! c_RequestID cmd) as [e|] eqn:He.
  - case_bool_decide as Hf; simpl; [left|right].
    + do 2 eexists. split; [done|].
      apply (fi_outcomes _ Hr) in He as (d & Hd & <- & ->).
      by apply (proj1 (Forall_forall _ _) (fi_shape _ Hr) d Hd).
    + split; [done|]. by exists e.
  - left. case_if; [by do 2 eexists|].
    destruct (CheckConflicts _ _ _) as [[key latest]|]; [by do 2 eexists|].
    destruct (ApplyCommit _ _ _) as [s'|e] eqn:Ha; [by do 2 eexists|]. exfalso.
    unfold ApplyCommit in Ha. destruct (c_Mutations cmd) as [|m ms] eqn:Hms; [done|].
    destruct (first_violation _ _ _) eqn:Hv; [|done].
    apply first_violation_Some in Hv as (m' & v & _ & Hl & Hle).
    rewrite (refines_last _ _ _ (fi_store _ Hr)) in Hl.
    apply last_Some_elem_of, elem_of_history_versions in Hl as (c & Hc & Heq & _).
    apply elem_of_history_of in Hc as (d & Hd & _ & ->). simpl in Heq.
    pose proof (proj1 (Forall_forall _ _) (fi_last _ Hr) d Hd). simpl in *. lia.
Qed.

(** ** A concrete run

    Two transactions on the key ["a"]; the second reads a snapshot that
    contains the first.  A third, concurrent with the second, aborts. *)

Definition demo_txn1 : CommitTxnCommand := mkCommitTxn [1] 1 0 [mkMutation key_a [1] false].
Definition demo_txn2 : CommitTxnCommand := mkCommitTxn [2] 2 1 [mkMutation key_a [2] false].
Definition demo_txn3 : CommitTxnCommand := mkCommitTxn [3] 3 1 [mkMutation key_a [3] false].

Definition apply_or_stay (f : FSM) (i : Z) (cmd : CommitTxnCommand) : FSM * Outcome :=
  match Apply f i cmd with Ok r => r | Err _ => (f, mkOutcome [] StatusAborted 0 [] 0) end.

Definition demo_f1 := apply_or_stay (New NewStore) 1 demo_txn1.
Definition demo_f2 := apply_or_stay demo_f1.1 2 demo_txn2.
Definition demo_f3 := apply_or_stay demo_f2.1 3 demo_txn3.
Definition demo_d1 := mkDecided 1 demo_txn1 demo_f1.2.
Definition demo_d2 := mkDecided 2 demo_txn2 demo_f2.2.
Definition demo_d3 := mkDecided 3 demo_txn3 demo_f3.2.
Definition demo_r2 : run_state := mkRun demo_f2.1 2 [demo_d1; demo_d2].
Definition demo_r3 : run_state := mkRun demo_f3.1 3 [demo_d1; demo_d2; demo_d3].

Lemma step_fresh_or_stay f last t i cmd :
  last < i → f_outcomes f !! c_RequestID cmd = None → is_Ok (Apply f i cmd) = true →
  fsm_step (mkRun f last t)
           (mkRun (apply_or_stay f i cmd).1 i (t ++ [mkDecided i cmd (apply_or_stay f i cmd).2])).
Proof.
  intros Hi Hf Hok. unfold apply_or_stay. destruct (Apply f i cmd) as [[f' o]|] eqn:E; [|done].
  by apply step_txn_fresh.
Qed.

Lemma demo_r2_reachable : fsm_reachable demo_r2.
Proof.
  eapply rtc_l; [apply (step_fresh_or_stay _ _ _ 1 demo_txn1); vm_compute; reflexivity|].
  eapply rtc_l; [apply (step_fresh_or_stay _ _ _ 2 demo_txn2); vm_compute; reflexivity|].
  apply rtc_refl.
Qed.

Lemma demo_r2_r3 : rtc fsm_step demo_r2 demo_r3.
Proof.
  eapply rtc_l; [apply (step_fresh_or_stay _ _ _ 3 demo_txn3); vm_compute; reflexivity|].
  apply rtc_refl.
Qed.

(** ** Properties of the state machine *)

(** In every state a run of the state machine can reach, a committed
    read at or above the applied GC watermark sees exactly the effects, in
    order, of the transactions that committed at or before its snapshot;
    below the watermark it is refused.  The watermark the read is checked
    against is the FSM's own. *)
Theorem fsm_reads_refine_history r k seq :
  fsm_reachable r →
  Visible (f_store (r_fsm r)) k seq =
    if decide (f_gcWatermark (r_fsm r) ≤ seq)
    then Ok (db_at (history_of (r_trace r)) seq !! k) else Err ErrSnapshotTooOld.
Proof.
  intros Hr%fsm_reachable_inv. pose proof (fi_store _ Hr) as Hs.
  rewrite <- (fi_horizon _ Hr). case_decide; [by apply refines_visible|].
  unfold Visible. by rewrite (refines_too_old _ _ _ Hs) by lia.
Qed.

(** C11: snapshot isolation, first committer wins.  Of two committed
    transactions that write a common key, the later one read from a
    snapshot that already contains the earlier one: no update is lost. *)
Theorem fsm_first_committer_wins r t1 t2 t3 d1 d2 m1 m2 :
  fsm_reachable r → r_trace r = t1 ++ d1 :: t2 ++ d2 :: t3 →
  is_committed d1 = true → is_committed d2 = true →
  m1 ∈ c_Mutations (d_cmd d1) → m2 ∈ c_Mutations (d_cmd d2) → Key m1 = Key m2 →
  d_index d1 ≤ c_StartSeq (d_cmd d2) ∧ d_index d1 < d_index d2.
Proof.
  intros Hr%fsm_reachable_inv Ht Hc1 Hc2 Hm1 Hm2 Hk. split.
  - assert (Hn : no_lost_update (t1 ++ d1 :: t2) d2).
    { apply (fi_si _ Hr _ _ t3); [|done]. by rewrite Ht, <- app_assoc. }
    apply (Hn (mkCommit (d_index d1) (c_Mutations (d_cmd d1)))) with m2; [|done|by exists m1].
    apply elem_of_history_of. exists d1. split; [set_solver|done].
  - pose proof (fi_indices _ Hr) as Hs. rewrite Ht, fmap_app, fmap_cons in Hs.
    apply StronglySorted_app_1_r, StronglySorted_cons in Hs as [Hs _].
    rewrite Forall_forall in Hs. apply Hs. rewrite fmap_app, fmap_cons. set_solver.
Qed.

(** A recorded outcome stays recorded. *)
Lemma outcomes_persist r r' id e :
  fsm_reachable r → rtc fsm_step r r' →
  f_outcomes (r_fsm r) !! id = Some e → f_outcomes (r_fsm r') !! id = Some e.
Proof.
  intros Hr Hrr He.
  assert (Hr' : fsm_reachable r') by (unfold fsm_reachable; by trans r).
  apply (fi_outcomes _ (fsm_reachable_inv _ Hr)) in He as (d & Hd & Hdid & ->).
  apply (fi_outcomes _ (fsm_reachable_inv _ Hr')). exists d. split; [|done].
  clear -Hrr Hd. induction Hrr as [|x y z Hxy _ IH]; [done|]. apply IH.
  destruct Hxy; simpl in *; set_solver.
Qed.

(** C12: idempotency and outcome stability.  Once a request has an outcome it
    keeps it through every later step; re-applying the same command at any
    index returns that outcome and changes nothing, and reusing the request
    for a command with another fingerprint is refused. *)
Theorem fsm_outcome_stable r r' id o cmd i :
  fsm_reachable r → rtc fsm_step r r' →
  GetOutcome (r_fsm r) id = Some o → c_RequestID cmd = id →
  GetOutcome (r_fsm r') id = Some o ∧
  Apply (r_fsm r') i cmd =
    match f_outcomes (r_fsm r) !! id with
    | Some e => if decide (oe_fingerprint e = fingerprintOf cmd) then Ok (r_fsm r', o)
                else Err ErrRequestIDPayloadMismatch
    | None => Err ErrRequestIDUnknown
    end.
Proof.
  intros Hr Hrr Hg Hid. unfold GetOutcome in Hg.
  destruct (f_outcomes (r_fsm r) !! id) as [e|] eqn:He; [|done]. injection Hg as Ho.
  pose proof (outcomes_persist r r' id e Hr Hrr He) as He'.
  unfold GetOutcome, Apply, lookupLocked. rewrite Hid, He'. simpl. split; [by rewrite Ho|].
  case_decide; case_bool_decide; try done. by rewrite Ho.
Qed.

(** Applying a transaction at the next index of a reachable state always
    decides it, unless its request was recorded for a different command: the
    store's monotonicity error cannot occur. *)
Theorem fsm_apply_total r i cmd :
  fsm_reachable r → r_last r < i →
  (∃ f' o, Apply (r_fsm r) i cmd = Ok (f', o) ∧ o_RequestID o = c_RequestID cmd) ∨
  (Apply (r_fsm r) i cmd = Err ErrRequestIDPayloadMismatch ∧
   ∃ e, f_outcomes (r_fsm r) !! c_RequestID cmd = Some e ∧ oe_fingerprint e ≠ fingerprintOf cmd).
Proof. intros Hr%fsm_reachable_inv Hi. by apply Apply_total. Qed.

(** C13: a garbage-collection command is bounded and safe.  Applied to a
    reachable state for the first time, it raises the watermark to the
    maximum, leaves every read at or above it unchanged, removes at most
    [MaxVersions] versions, and touches the chains of at most [MaxKeys]
    keys; the FSM's and the store's horizon stay equal. *)
Theorem fsm_gc_bounded_safe r i cmd :
  fsm_reachable r → f_controlOutcomes (r_fsm r) !! gc_RequestID cmd = None →
  is_u32 (gc_MaxVersions cmd) → 0 ≤ gc_MaxKeys cmd →
  let f := r_fsm r in let f' := (ApplyAdvanceGCWatermark f i cmd).1 in
  f_gcWatermark f' = Z.max (f_gcWatermark f) (gc_Watermark cmd) ∧
  gcWatermark (f_store f') = f_gcWatermark f' ∧
  (∀ k seq, f_gcWatermark f' ≤ seq → Visible (f_store f') k seq = Visible (f_store f) k seq) ∧
  total_versions (f_store f) - gc_MaxVersions cmd ≤ total_versions (f_store f')
    ≤ total_versions (f_store f) ∧
  ∃ keys, zlen keys ≤ gc_MaxKeys cmd ∧
    ∀ k, k ∉ keys → chain_of (f_store f') k = chain_of (f_store f) k.
Proof.
  intros Hr%fsm_reachable_inv Hc Hmv Hmk. cbv zeta.
  pose proof (fi_horizon _ Hr) as Hh. pose proof (ref_wf _ _ (fi_store _ Hr)) as Hwf.
  set (f := r_fsm r) in *.
  destruct (ApplyAdvanceGC_fresh f i cmd Hc Hh) as (H1 & _ & _ & _ & _ & _ & _ & H8).
  set (f' := (ApplyAdvanceGCWatermark f i cmd).1) in *. set (w := Z.max _ _) in *.
  set (s0 := SetGCWatermark (f_store f) w) in *.
  set (keys := if 0 <? gc_MaxKeys cmd then _ else _) in H8.
  assert (Hs0 : s0 = (f_store f) <| gcWatermark := w |>).
  { unfold s0. rewrite SetGCWatermark_eq, Hh. unfold w. by rewrite Z.max_assoc, Z.max_id. }
  assert (Hkeys : zlen keys ≤ gc_MaxKeys cmd ∧ ∀ k, k ∈ keys → k ∈ orderedKeys s0).
  { rewrite Hs0. unfold keys. destruct (0 <? gc_MaxKeys cmd).
    - pose proof (KeysFrom_length (f_store f) (f_gcCursor f) (gc_MaxKeys cmd)).
      split; [lia|]. intros k. simpl. by apply KeysFrom_subset.
    - rewrite zlen_nil. split; [lia|]. by intros k ?%not_elem_of_nil. }
  destruct Hkeys as [Hlen Hsub].
  assert (Hwf0 : store_wf s0) by by apply SetGCWatermark_wf.
  destruct (gc_walk_effect s0 w (gc_MaxVersions cmd) keys 0 [] Hwf0 Hsub Hmv)
    as (Ht & Hb & Hne & Hv); [unfold is_u32 in *; lia|].
  destruct (gc_walk_other s0 w (gc_MaxVersions cmd) keys 0 []) as (Hg & Hsk & _).
  pose proof (gc_walk_wf s0 w (gc_MaxVersions cmd) keys 0 [] Hwf0) as Hwf'.
  rewrite <- H8 in Ht, Hne, Hv, Hg, Hsk, Hwf'. rewrite Hs0 in Ht, Hb, Hne, Hv, Hg, Hsk. simpl in Hg, Hsk.
  split; [done|]. split; [congruence|]. split; [|split].
  - intros k seq Hseq. rewrite !Visible_eq by done. unfold horizon_guard.
    rewrite Hg, Hsk, (Hv k seq) by lia. rewrite H1 in Hseq. rewrite Hh.
    rewrite !(proj2 (Z.ltb_ge _ _)) by (unfold w in *; lia). done.
  - change (total_versions ((f_store f) <| gcWatermark := w |>)) with (total_versions (f_store f)) in Ht.
    lia.
  - exists keys. split; [done|]. intros k Hk. by rewrite Hne.
Qed.

(** The horizon of the store is raised only after the walk has reclaimed
    versions, while a reader takes the store's own lock and not the state
    machine's.  A read between the two sees a store that has already lost
    the version it is entitled to but does not refuse it yet: it answers
    "not found" for a key that exists in its snapshot. *)
Theorem gc_window_serves_stale_read :
  ∃ r cmd k seq v,
    fsm_reachable r ∧
    Visible (f_store (r_fsm r)) k seq = Ok (Some v) ∧
    Visible (f_store (gc_reclaim (r_fsm r) cmd)) k seq = Ok None ∧
    ∀ i, Visible (f_store (ApplyAdvanceGCWatermark (r_fsm r) i cmd).1) k seq
         = Err ErrSnapshotTooOld.
Proof.
  exists demo_r2, (mkAdvanceGC [9] 2 10 10), key_a, 1, [1].
  split; [exact demo_r2_reachable|].
  split; [vm_compute; done|]. split; [vm_compute; done|]. intros i. vm_compute. done.
Qed.

(** ** Witnesses *)

Lemma fsm_reads_refine_history_witness :
  Visible (f_store (r_fsm demo_r2)) key_a 1 = Ok (Some [1]) ∧
  Visible (f_store (r_fsm demo_r2)) key_a 2 = Ok (Some [2]).
Proof.
  split; rewrite (fsm_reads_refine_history demo_r2 _ _ demo_r2_reachable); vm_compute; reflexivity.
Defined.

Lemma fsm_first_committer_wins_witness :
  d_index demo_d1 ≤ c_StartSeq (d_cmd demo_d2) ∧ d_index demo_d1 < d_index demo_d2.
Proof.
  apply (fsm_first_committer_wins demo_r2 [] [] [] demo_d1 demo_d2
    (mkMutation key_a [1] false) (mkMutation key_a [2] false) demo_r2_reachable).
  - reflexivity.
  - vm_compute. reflexivity.
  - vm_compute. reflexivity.
  - apply list_elem_of_singleton. reflexivity.
  - apply list_elem_of_singleton. reflexivity.
  - reflexivity.
Defined.

Lemma fsm_outcome_stable_witness :
  GetOutcome (r_fsm demo_r3) [1] = Some (mkOutcome [1] StatusCommitted 1 [] 0).
Proof.
  apply (fsm_outcome_stable demo_r2 demo_r3 [1] (mkOutcome [1] StatusCommitted 1 [] 0) demo_txn1 7
    demo_r2_reachable demo_r2_r3); vm_compute; reflexivity.
Defined.

Lemma fsm_apply_total_witness :
  (∃ f' o, Apply (r_fsm demo_r2) 3 demo_txn3 = Ok (f', o) ∧ o_RequestID o = [3]) ∨
  (Apply (r_fsm demo_r2) 3 demo_txn3 = Err ErrRequestIDPayloadMismatch ∧
   ∃ e, f_outcomes (r_fsm demo_r2) !! [3] = Some e ∧ oe_fingerprint e ≠ fingerprintOf demo_txn3).
Proof. apply (fsm_apply_total demo_r2 3 demo_txn3 demo_r2_reachable). reflexivity. Defined.

Lemma fsm_gc_bounded_safe_witness :
  let f' := (ApplyAdvanceGCWatermark (r_fsm demo_r2) 3 (mkAdvanceGC [9] 2 10 10)).1 in
  f_gcWatermark f' = Z.max 0 2 ∧ total_versions (f_store f') = 1.
Proof.
  split; [|vm_compute; reflexivity].
  apply (fsm_gc_bounded_safe demo_r2 3 (mkAdvanceGC [9] 2 10 10) demo_r2_reachable).
  - vm_compute. reflexivity.
  - split; vm_compute; [discriminate|reflexivity].
  - vm_compute. discriminate.
Defined.
