(* ===== verification/FsmSnapshot.v ===== *)
(** * State-machine snapshots ([internal/fsm/snapshot.go])

    [EncodeState] serializes the state deterministically: chains in key
    order, outcome tables in request order, and trailing blocks that only
    exist from the cluster generation that introduced them.  [DecodeState]
    parses whatever bytes it is given. *)

From S2P Require Import Prelude Bytes Hash GoSort Mvcc FsmCommand Fsm.

Definition fsmStateVersion : Z := 1.

(** ** Maps in key order *)

Section sorted_entries.
  Context {A : Type}.

Definition entry_le (a b : bytes * A) : Prop := ble a.1 b.1.
#[export] Instance entry_le_dec : RelDecision entry_le.
Proof. intros a b. unfold entry_le. apply _. Defined.

(** The ids collected from the map, sorted, each with its value. *)
Definition sorted_entries (m : gmap bytes A) : list (bytes * A) := merge_sort entry_le (map_to_list m).

(** Filling a map entry by entry, as the decoding loops do. *)
Definition insert_all (l : list (bytes * A)) : gmap bytes A :=
  foldl (λ m kv, <[kv.1 := kv.2]> m) ∅ l.

Lemma insert_all_list_to_map l : NoDup l.*1 → insert_all l = list_to_map l.
Proof.
  intros Hn. unfold insert_all. rewrite <- (right_id_L ∅ (∪) (list_to_map l)).
  generalize (∅ : gmap bytes A). induction l as [|[k v] l IH]; intros m; simpl.
  { by rewrite (left_id_L ∅ (∪)). }
  rewrite fmap_cons in Hn. apply NoDup_cons in Hn as [Hk Hn]. rewrite IH by done.
  rewrite <- insert_union_l, <- insert_union_r; [done|]. by apply not_elem_of_list_to_map.
Qed.

Lemma sorted_entries_perm m : sorted_entries m ≡ₚ map_to_list m.
Proof. apply merge_sort_Permutation. Qed.

Lemma insert_all_sorted_entries m : insert_all (sorted_entries m) = m.
Proof.
  assert (Hn : NoDup (sorted_entries m).*1).
  { rewrite sorted_entries_perm. apply NoDup_fst_map_to_list. }
  rewrite insert_all_list_to_map by done.
  rewrite (list_to_map_proper _ (map_to_list m)) by (done || apply sorted_entries_perm).
  apply list_to_map_to_list.
Qed.

Lemma elem_of_sorted_entries m k v : (k, v) ∈ sorted_entries m ↔ m !! k = Some v.
Proof. rewrite sorted_entries_perm. apply elem_of_map_to_list. Qed.
End sorted_entries.

(** ** Encoding *)

Definition encode_version (v : Version) : bytes :=
  put_u64 (CommitSeq v) ++
  (if Tombstone v then [1] else [0] ++ put_u32 (zlen (Value v)) ++ Value v).

Definition encode_chain (kc : KeyChain) : bytes :=
  put_u32 (zlen (kc_key kc)) ++ kc_key kc ++
  put_u32 (zlen (kc_versions kc)) ++ mjoin (encode_version <$> kc_versions kc).

Definition encode_outcome (p : bytes * outcomeEntry) : bytes :=
  let o := oe_outcome p.2 in
  put_u32 (zlen p.1) ++ p.1 ++ oe_fingerprint p.2 ++ [status_byte (o_Status o)] ++
  put_u64 (o_CommitSeq o) ++ put_u32 (zlen (o_ConflictKey o)) ++ o_ConflictKey o ++
  put_u64 (o_ConflictLatestSeq o).

Definition encode_control (p : bytes * Outcome) : bytes :=
  put_u32 (zlen p.1) ++ p.1 ++ [status_byte (o_Status p.2)] ++ put_u64 (o_CommitSeq p.2).

Definition encode_membership (p : bytes * outcomeEntry) : bytes :=
  put_u32 (zlen p.1) ++ p.1 ++ oe_fingerprint p.2 ++
  [status_byte (o_Status (oe_outcome p.2))] ++ put_u64 (o_CommitSeq (oe_outcome p.2)).

Definition encode_membership_block (f : FSM) : bytes :=
  if 2 <=? f_clusterGeneration f then
    let ids := sorted_entries (f_membershipOutcomes f) in
    put_u32 (zlen ids) ++ mjoin (encode_membership <$> ids)
  else [].

Definition encode_gc_block (f : FSM) : bytes :=
  if 3 <=? f_clusterGeneration f then
    put_u64 (f_gcWatermark f) ++ put_u64 (f_gcPasses f) ++ put_u64 (f_gcPassSeq f) ++
    put_u32 (zlen (f_gcCursor f)) ++ f_gcCursor f
  else [].

Definition encode_generation_block (f : FSM) : bytes :=
  if 0 <? f_clusterGeneration f then
    let ids := sorted_entries (f_controlOutcomes f) in
    put_u32 (f_clusterGeneration f) ++ put_u32 (zlen ids) ++ mjoin (encode_control <$> ids) ++
    encode_membership_block f ++ encode_gc_block f
  else [].

Definition EncodeState (f : FSM) : bytes :=
  let kcs := Export (f_store f) in
  let ids := sorted_entries (f_outcomes f) in
  [fsmStateVersion] ++ put_u32 (zlen kcs) ++ mjoin (encode_chain <$> kcs) ++
  put_u32 (zlen ids) ++ mjoin (encode_outcome <$> ids) ++ encode_generation_block f.

(** ** Decoding *)

Definition malformed {A} : result fsm_error A := Err ErrMalformedCommand.

Definition decode_version (b : bytes) : result fsm_error (Version * bytes) :=
  if zlen b <? 9 then malformed else
  '(seq, b) ← u64_at b;
  '(t, b) ← u8_at b;
  if negb (t =? 0) then Ok (mkVersion seq [] true, b) else
  if zlen b <? 4 then malformed else
  '(valLen, b) ← u32_at b;
  if zlen b <? valLen then malformed else
  '(value, b) ← slice_at valLen b;
  Ok (mkVersion seq value false, b).

Definition decode_chain (b : bytes) : result fsm_error (KeyChain * bytes) :=
  if zlen b <? 4 then malformed else
  '(keyLen, b) ← u32_at b;
  if zlen b <? keyLen then malformed else
  '(key, b) ← slice_at keyLen b;
  if zlen b <? 4 then malformed else
  '(numVersions, b) ← u32_at b;
  if u32 (zlen b / 9) <? numVersions then malformed else
  '(versions, b) ← decode_n (Z.to_nat numVersions) decode_version b;
  Ok (mkKeyChain key versions, b).

(** [outcome.CommitSeq] is only set for a committed outcome. *)
Definition restored_seq (status : Status) (commitSeq : Z) : Z :=
  if bool_decide (status = StatusCommitted) then commitSeq else 0.

Definition decode_outcome (b : bytes) : result fsm_error ((bytes * outcomeEntry) * bytes) :=
  if zlen b <? 4 then malformed else
  '(idLen, b) ← u32_at b;
  if zlen b <? idLen then malformed else
  '(id, b) ← slice_at idLen b;
  if zlen b <? 45 then malformed else
  '(fp, b) ← slice_at 32 b;
  '(st, b) ← u8_at b;
  match status_of_byte st with
  | None => malformed
  | Some status =>
      '(commitSeq, b) ← u64_at b;
      '(conflictKeyLen, b) ← u32_at b;
      if zlen b <? conflictKeyLen then malformed else
      '(conflictKey, b) ← slice_at conflictKeyLen b;
      if zlen b <? 8 then malformed else
      '(conflictLatestSeq, b) ← u64_at b;
      Ok ((id, mkOutcomeEntry (mkOutcome id status (restored_seq status commitSeq)
                                 conflictKey conflictLatestSeq) fp), b)
  end.

Definition decode_control (b : bytes) : result fsm_error ((bytes * Outcome) * bytes) :=
  if zlen b <? 4 then malformed else
  '(idLen, b) ← u32_at b;
  if zlen b <? idLen then malformed else
  '(id, b) ← slice_at idLen b;
  if zlen b <? 9 then malformed else
  '(st, b) ← u8_at b;
  match status_of_byte st with
  | None => malformed
  | Some status =>
      '(commitSeq, b) ← u64_at b;
      Ok ((id, mkOutcome id status (restored_seq status commitSeq) [] 0), b)
  end.

Definition decode_membership (b : bytes) : result fsm_error ((bytes * outcomeEntry) * bytes) :=
  if zlen b <? 4 then malformed else
  '(idLen, b) ← u32_at b;
  if zlen b <? idLen then malformed else
  '(id, b) ← slice_at idLen b;
  if zlen b <? 41 then malformed else
  '(fp, b) ← slice_at 32 b;
  '(st, b) ← u8_at b;
  match status_of_byte st with
  | None => malformed
  | Some status =>
      '(commitSeq, b) ← u64_at b;
      Ok ((id, mkOutcomeEntry (mkOutcome id status (restored_seq status commitSeq) [] 0) fp), b)
  end.

Record gcBlock := mkGcBlock { gb_watermark : Z; gb_passes : Z; gb_passSeq : Z; gb_cursor : bytes }.
Record genBlock := mkGenBlock {
  gen_generation : Z;
  gen_control : list (bytes * Outcome);
  gen_membership : list (bytes * outcomeEntry);
  gen_gc : gcBlock
}.

Definition decode_membership_block (generation : Z) (b : bytes)
    : result fsm_error (list (bytes * outcomeEntry) * bytes) :=
  if 2 <=? generation then
    if zlen b <? 4 then malformed else
    '(num, b) ← u32_at b;
    if u32 (zlen b / 45) <? num then malformed else
    decode_n (Z.to_nat num) decode_membership b
  else Ok ([], b).

Definition decode_gc_block (generation : Z) (b : bytes) : result fsm_error (gcBlock * bytes) :=
  if 3 <=? generation then
    if zlen b <? 28 then malformed else
    '(w, b) ← u64_at b;
    '(passes, b) ← u64_at b;
    '(passSeq, b) ← u64_at b;
    '(cursorLen, b) ← u32_at b;
    if zlen b <? cursorLen then malformed else
    '(cursor, b) ← slice_at cursorLen b;
    Ok (mkGcBlock w passes passSeq cursor, b)
  else Ok (mkGcBlock 0 0 0 [], b).

Definition decode_generation_block (b : bytes) : result fsm_error genBlock :=
  if 0 <? zlen b then
    if zlen b <? 8 then malformed else
    '(generation, b) ← u32_at b;
    '(num, b) ← u32_at b;
    if u32 (zlen b / 13) <? num then malformed else
    '(control, b) ← decode_n (Z.to_nat num) decode_control b;
    '(membership, b) ← decode_membership_block generation b;
    '(gc, b) ← decode_gc_block generation b;
    if negb (zlen b =? 0) then malformed else
    Ok (mkGenBlock generation control membership gc)
  else Ok (mkGenBlock 0 [] [] (mkGcBlock 0 0 0 [])).

(** [bumpMax] over every version and every committed outcome. *)
Definition max_seq (kcs : list KeyChain) (outcomes : list (bytes * outcomeEntry)) (g : genBlock) : Z :=
  let bump m o := if bool_decide (o_Status o = StatusCommitted) then Z.max m (o_CommitSeq o) else m in
  let m := foldl (λ m kc, foldl (λ m v, Z.max m (CommitSeq v)) m (kc_versions kc)) 0 kcs in
  let m := foldl (λ m p, bump m (oe_outcome p.2)) m outcomes in
  let m := foldl (λ m p, bump m p.2) m (gen_control g) in
  foldl (λ m p, bump m (oe_outcome p.2)) m (gen_membership g).

Definition DecodeState (data : bytes) : result fsm_error (FSM * Z) :=
  if zlen data <? 5 then malformed else
  '(version, b) ← u8_at data;
  if negb (version =? fsmStateVersion) then Err ErrUnsupportedCommandVersion else
  '(numChains, b) ← u32_at b;
  if u32 (zlen b / 8) <? numChains then malformed else
  '(kcs, b) ← decode_n (Z.to_nat numChains) decode_chain b;
  if zlen b <? 4 then malformed else
  '(numOutcomes, b) ← u32_at b;
  if u32 (zlen b / 57) <? numOutcomes then malformed else
  '(outcomes, b) ← decode_n (Z.to_nat numOutcomes) decode_outcome b;
  g ← decode_generation_block b;
  Ok (mkFSM (RestoreStore kcs (gb_watermark (gen_gc g))) (insert_all outcomes)
            (gen_generation g) (insert_all (gen_control g)) (insert_all (gen_membership g))
            (gb_watermark (gen_gc g)) (gb_cursor (gen_gc g)) (gb_passes (gen_gc g))
            (gb_passSeq (gen_gc g)),
      max_seq kcs outcomes g).

(** ** Round trip *)

(** The encoded items as the encoder can represent them. *)
Definition version_ok (v : Version) : Prop :=
  is_u64 (CommitSeq v) ∧ (Tombstone v = true → Value v = []).
Definition chain_ok (kc : KeyChain) : Prop := Forall version_ok (kc_versions kc).

Definition outcome_seqs_ok (o : Outcome) : Prop :=
  is_u64 (o_CommitSeq o) ∧ is_u64 (o_ConflictLatestSeq o) ∧
  (o_Status o ≠ StatusCommitted → o_CommitSeq o = 0).
Definition outcome_ok (p : bytes * outcomeEntry) : Prop :=
  o_RequestID (oe_outcome p.2) = p.1 ∧ zlen (oe_fingerprint p.2) = 32 ∧
  outcome_seqs_ok (oe_outcome p.2).
Definition plain_outcome (id : bytes) (o : Outcome) : Prop :=
  o_RequestID o = id ∧ o_ConflictKey o = [] ∧ o_ConflictLatestSeq o = 0 ∧ outcome_seqs_ok o.
Definition control_ok (p : bytes * Outcome) : Prop := plain_outcome p.1 p.2.
Definition membership_ok (p : bytes * outcomeEntry) : Prop :=
  plain_outcome p.1 (oe_outcome p.2) ∧ zlen (oe_fingerprint p.2) = 32.

Lemma restored_seq_ok o : outcome_seqs_ok o → restored_seq (o_Status o) (o_CommitSeq o) = o_CommitSeq o.
Proof.
  intros (_ & _ & H). unfold restored_seq. case_bool_decide; [done|]. by rewrite H.
Qed.

Lemma decode_encode_version v r :
  version_ok v → zlen (encode_version v ++ r) < 2 ^ 32 →
  decode_version (encode_version v ++ r) = Ok (v, r).
Proof.
  intros [Hs Ht] Hl. destruct v as [s val t]. simpl in *.
  unfold decode_version, encode_version in *. cbn [CommitSeq Value Tombstone] in *.
  destruct t; [rewrite Ht by done|]; autorewrite with zlen in Hl; repeat decode_step; done.
Qed.

Lemma encode_version_size v : 9 ≤ zlen (encode_version v).
Proof. unfold encode_version. destruct (Tombstone v); zlen_lia. Qed.

Lemma decode_encode_chain kc r :
  chain_ok kc → zlen (encode_chain kc ++ r) < 2 ^ 32 →
  decode_chain (encode_chain kc ++ r) = Ok (kc, r).
Proof.
  intros Hok Hl. destruct kc as [k vs]. unfold chain_ok in Hok. simpl in *.
  unfold decode_chain, encode_chain in *. cbn [kc_key kc_versions] in *.
  pose proof (zlen_mjoin_ge encode_version 9 vs (λ x _, encode_version_size x)) as Hmin.
  assert (Hn : zlen (mjoin (encode_version <$> vs) ++ r) ≤ 2 ^ 32 - 1 →
    decode_n (length vs) decode_version (mjoin (encode_version <$> vs) ++ r) = Ok (vs, r)).
  { apply decode_n_encode_le. intros x r' Hx Hle. apply decode_encode_version; [|lia].
    by eapply Forall_forall in Hok. }
  generalize dependent (mjoin (encode_version <$> vs)). intros body Hl Hmin Hn.
  autorewrite with zlen in Hl. zlen_facts. repeat decode_step.
  rewrite count_guard, to_nat_zlen, Hn by (autorewrite with zlen; lia). done.
Qed.

Lemma encode_chain_size kc : 8 ≤ zlen (encode_chain kc).
Proof. unfold encode_chain. zlen_lia. Qed.

Lemma decode_encode_outcome p r :
  outcome_ok p → zlen (encode_outcome p ++ r) < 2 ^ 32 →
  decode_outcome (encode_outcome p ++ r) = Ok (p, r).
Proof.
  intros (Hid & Hfp & Hseq) Hl. pose proof (restored_seq_ok _ Hseq) as Hr.
  destruct Hseq as (H1 & H2 & _). destruct p as [id [[oid st cs ck cl] fp]]. simpl in *. subst oid.
  unfold decode_outcome, encode_outcome in *. cbn in Hl. cbn [fst snd oe_outcome oe_fingerprint
    o_Status o_CommitSeq o_ConflictKey o_ConflictLatestSeq] in *.
  autorewrite with zlen in Hl. zlen_facts. repeat decode_step.
  rewrite status_of_byte_byte. repeat decode_step. by rewrite Hr.
Qed.

Lemma encode_outcome_size p : zlen (oe_fingerprint p.2) = 32 → 57 ≤ zlen (encode_outcome p).
Proof. intros H. unfold encode_outcome. cbv zeta. zlen_lia. Qed.

Lemma decode_encode_control p r :
  control_ok p → zlen (encode_control p ++ r) < 2 ^ 32 →
  decode_control (encode_control p ++ r) = Ok (p, r).
Proof.
  intros (Hid & Hk & Hc & Hseq) Hl. pose proof (restored_seq_ok _ Hseq) as Hr.
  destruct Hseq as (H1 & H2 & _). destruct p as [id [oid st cs ck cl]]. simpl in *. subst.
  unfold decode_control, encode_control in *. cbn [fst snd o_Status o_CommitSeq] in *.
  autorewrite with zlen in Hl. zlen_facts. repeat decode_step.
  rewrite status_of_byte_byte. repeat decode_step. by rewrite Hr.
Qed.

Lemma encode_control_size p : 13 ≤ zlen (encode_control p).
Proof. unfold encode_control. zlen_lia. Qed.

Lemma decode_encode_membership p r :
  membership_ok p → zlen (encode_membership p ++ r) < 2 ^ 32 →
  decode_membership (encode_membership p ++ r) = Ok (p, r).
Proof.
  intros ((Hid & Hk & Hc & Hseq) & Hfp) Hl. pose proof (restored_seq_ok _ Hseq) as Hr.
  destruct Hseq as (H1 & H2 & _). destruct p as [id [[oid st cs ck cl] fp]]. simpl in *. subst.
  unfold decode_membership, encode_membership in *.
  cbn [fst snd oe_outcome oe_fingerprint o_Status o_CommitSeq] in *.
  autorewrite with zlen in Hl. zlen_facts. repeat decode_step.
  rewrite status_of_byte_byte. repeat decode_step. by rewrite Hr.
Qed.

Lemma encode_membership_size p : zlen (oe_fingerprint p.2) = 32 → 45 ≤ zlen (encode_membership p).
Proof. intros H. unfold encode_membership. zlen_lia. Qed.

(** A counted section: the count, the guard and the items. *)
Lemma decode_section {A} (enc : A → bytes) (dec : bytes → result fsm_error (A * bytes)) c l r :
  0 < c → (∀ x, x ∈ l → c ≤ zlen (enc x)) →
  (∀ x r, x ∈ l → zlen (enc x ++ r) < 2 ^ 32 → dec (enc x ++ r) = Ok (x, r)) →
  zlen (mjoin (enc <$> l) ++ r) < 2 ^ 32 →
  (u32 (zlen (mjoin (enc <$> l) ++ r) / c) <? zlen l) = false ∧
  decode_n (Z.to_nat (zlen l)) dec (mjoin (enc <$> l) ++ r) = Ok (l, r) ∧ is_u32 (zlen l).
Proof.
  intros Hc Hsize Hdec Hl. pose proof (zlen_mjoin_ge enc c l Hsize) as Hmin.
  rewrite zlen_app in Hl. zlen_facts. split; [|split].
  - apply count_guard; [done| |]; rewrite zlen_app; lia.
  - rewrite to_nat_zlen. apply (decode_n_encode_le (2 ^ 32 - 1)).
    + intros x r' Hx Hle. apply Hdec; [done|lia].
    + rewrite zlen_app. lia.
  - unfold is_u32. nia.
Qed.

(** The part of the state a snapshot at its generation carries. *)
Definition view_control (f : FSM) : gmap bytes Outcome :=
  if 0 <? f_clusterGeneration f then f_controlOutcomes f else ∅.
Definition view_membership (f : FSM) : gmap bytes outcomeEntry :=
  if 2 <=? f_clusterGeneration f then f_membershipOutcomes f else ∅.
Definition view_gc (f : FSM) : gcBlock :=
  if 3 <=? f_clusterGeneration f
  then mkGcBlock (f_gcWatermark f) (f_gcPasses f) (f_gcPassSeq f) (f_gcCursor f)
  else mkGcBlock 0 0 0 [].

Definition snapshot_view (f : FSM) : FSM :=
  let gc := view_gc f in
  mkFSM ((f_store f) <| Mvcc.gcWatermark := gb_watermark gc |>) (f_outcomes f)
        (f_clusterGeneration f) (view_control f) (view_membership f)
        (gb_watermark gc) (gb_cursor gc) (gb_passes gc) (gb_passSeq gc).

Record state_ok (f : FSM) : Prop := {
  so_store : store_wf (f_store f);
  so_guard : skipHorizonGuardForTest (f_store f) = false;
  so_chains : ∀ k c, chains (f_store f) !! k = Some c → Forall version_ok c;
  so_outcomes : ∀ id e, f_outcomes f !! id = Some e → outcome_ok (id, e);
  so_control : ∀ id o, f_controlOutcomes f !! id = Some o → control_ok (id, o);
  so_membership : ∀ id e, f_membershipOutcomes f !! id = Some e → membership_ok (id, e);
  so_generation : is_u32 (f_clusterGeneration f);
  so_gc : is_u64 (f_gcWatermark f) ∧ is_u64 (f_gcPasses f) ∧ is_u64 (f_gcPassSeq f);
  so_size : zlen (EncodeState f) < 2 ^ 32
}.

Lemma decode_encode_gc_block f r :
  is_u64 (f_gcWatermark f) → is_u64 (f_gcPasses f) → is_u64 (f_gcPassSeq f) →
  zlen (encode_gc_block f) < 2 ^ 32 →
  decode_gc_block (f_clusterGeneration f) (encode_gc_block f ++ r) = Ok (view_gc f, r).
Proof.
  intros H1 H2 H3 Hl. unfold decode_gc_block, encode_gc_block, view_gc in *.
  destruct (3 <=? f_clusterGeneration f); [|done].
  autorewrite with zlen in Hl. zlen_facts.
  repeat decode_step. done.
Qed.

Lemma decode_encode_membership_block f r :
  (∀ id e, f_membershipOutcomes f !! id = Some e → membership_ok (id, e)) →
  zlen (encode_membership_block f ++ r) < 2 ^ 32 →
  decode_membership_block (f_clusterGeneration f) (encode_membership_block f ++ r)
  = Ok (sorted_entries (view_membership f), r).
Proof.
  intros Hok Hl. unfold decode_membership_block, encode_membership_block, view_membership in *.
  destruct (2 <=? f_clusterGeneration f); [|done]. cbv zeta in *.
  set (ids := sorted_entries (f_membershipOutcomes f)) in *.
  assert (Hids : ∀ p, p ∈ ids → membership_ok p).
  { intros [id e] Hp. by apply Hok, elem_of_sorted_entries. }
  destruct (decode_section encode_membership decode_membership 45 ids r) as (Hg & Hd & Hn).
  { lia. }
  { intros p Hp. apply encode_membership_size. by apply Hids. }
  { intros p r' Hp. by apply decode_encode_membership, Hids. }
  { rewrite <- app_assoc, zlen_app, zlen_be_put in Hl. lia. }
  generalize dependent (mjoin (encode_membership <$> ids)). intros body Hl Hg Hd.
  repeat decode_step. by rewrite ?Hg.
Qed.

Lemma decode_encode_generation_block f :
  state_ok f → zlen (encode_generation_block f) < 2 ^ 32 →
  decode_generation_block (encode_generation_block f) =
  Ok (mkGenBlock (f_clusterGeneration f) (sorted_entries (view_control f))
        (sorted_entries (view_membership f)) (view_gc f)).
Proof.
  intros Hok Hl. destruct (so_gc f Hok) as (H1 & H2 & H3). pose proof (so_generation f Hok) as Hgen.
  unfold decode_generation_block, encode_generation_block, view_control in *.
  destruct (Z.ltb_spec 0 (f_clusterGeneration f)) as [Hpos|Hpos].
  2: { assert (f_clusterGeneration f = 0) as H0 by (unfold is_u32 in Hgen; lia).
       unfold view_membership, view_gc. rewrite H0. done. }
  cbv zeta in *. set (ids := sorted_entries (f_controlOutcomes f)) in *.
  set (rest := encode_membership_block f ++ encode_gc_block f) in *.
  assert (Hids : ∀ p, p ∈ ids → control_ok p).
  { intros [id e] Hp. by apply (so_control f Hok), elem_of_sorted_entries. }
  rewrite !zlen_app, !zlen_be_put in Hl.
  destruct (decode_section encode_control decode_control 13 ids rest) as (Hg & Hd & Hn).
  { lia. }
  { intros p Hp. apply encode_control_size. }
  { intros p r' Hp. by apply decode_encode_control, Hids. }
  { rewrite zlen_app. lia. }
  generalize dependent (mjoin (encode_control <$> ids)). intros body Hl Hg Hd. zlen_facts.
  repeat decode_step. rewrite ?Hg. repeat decode_step. rewrite Hd. repeat decode_step.
  unfold rest in *. rewrite zlen_app in Hl. zlen_facts.
  rewrite decode_encode_membership_block; [|apply (so_membership f Hok)|rewrite zlen_app; lia].
  repeat decode_step. rewrite <- (app_nil_r (encode_gc_block f)).
  rewrite decode_encode_gc_block by (done || lia).
  repeat decode_step. done.
Qed.

Lemma RestoreStore_Export_view s w :
  store_wf s → skipHorizonGuardForTest s = false →
  RestoreStore (Export s) w = s <| Mvcc.gcWatermark := w |>.
Proof.
  intros Hwf Hg. rewrite <- (RestoreStore_Export s) at 2 by done. done.
Qed.

(** Folding a function that only raises its accumulator. *)
Lemma foldl_raises {A} (g : Z → A → Z) l m : (∀ m x, m ≤ g m x) → m ≤ foldl g m l.
Proof.
  intros Hg. revert m. induction l as [|x l IH]; intros m; simpl; [lia|].
  etrans; [apply Hg|apply IH].
Qed.

Lemma foldl_raises_elem {A} (g : Z → A → Z) l m x c :
  (∀ m x, m ≤ g m x) → x ∈ l → (∀ m, c ≤ g m x) → c ≤ foldl g m l.
Proof.
  intros Hg Hx Hc. revert m. induction Hx as [x l|x y l _ IH]; intros m; simpl; [|by apply IH].
  etrans; [apply Hc|by apply foldl_raises].
Qed.

Lemma max_seq_version kcs outcomes g kc v :
  kc ∈ kcs → v ∈ kc_versions kc → CommitSeq v ≤ max_seq kcs outcomes g.
Proof.
  intros Hkc Hv. unfold max_seq. cbv zeta.
  do 3 (etrans; [|apply foldl_raises; intros m x; case_bool_decide; lia]).
  eapply foldl_raises_elem; [|exact Hkc|].
  - intros m x. apply foldl_raises. lia.
  - intros m. eapply foldl_raises_elem; [|exact Hv|]; simpl; lia.
Qed.

Lemma foldl_bounded {A} (g : Z → A → Z) l m n :
  m ≤ n → (∀ m x, x ∈ l → m ≤ n → g m x ≤ n) → foldl g m l ≤ n.
Proof.
  revert m. induction l as [|x l IH]; intros m Hm Hg; simpl; [done|].
  apply IH; [apply Hg; [by left|done]|]. intros m' y Hy. apply Hg. by right.
Qed.

(** No sequence number in the state is above [n]. *)
Definition seq_below (n : Z) (o : Outcome) : Prop := o_Status o = StatusCommitted → o_CommitSeq o ≤ n.
Record state_below (n : Z) (f : FSM) : Prop := {
  sb_nonneg : 0 ≤ n;
  sb_versions : ∀ k v, v ∈ chain_of (f_store f) k → CommitSeq v ≤ n;
  sb_outcomes : ∀ id e, f_outcomes f !! id = Some e → seq_below n (oe_outcome e);
  sb_control : ∀ id o, f_controlOutcomes f !! id = Some o → seq_below n o;
  sb_membership : ∀ id e, f_membershipOutcomes f !! id = Some e → seq_below n (oe_outcome e)
}.

Lemma max_seq_below n kcs outcomes g :
  0 ≤ n → (∀ kc v, kc ∈ kcs → v ∈ kc_versions kc → CommitSeq v ≤ n) →
  (∀ p, p ∈ outcomes → seq_below n (oe_outcome p.2)) →
  (∀ p, p ∈ gen_control g → seq_below n p.2) →
  (∀ p, p ∈ gen_membership g → seq_below n (oe_outcome p.2)) →
  max_seq kcs outcomes g ≤ n.
Proof.
  intros Hn H1 H2 H3 H4. unfold max_seq. cbv zeta.
  assert (Hb : ∀ m o, seq_below n o → m ≤ n →
    (if bool_decide (o_Status o = StatusCommitted) then Z.max m (o_CommitSeq o) else m) ≤ n).
  { intros m o Ho Hm. case_bool_decide; [|done]. specialize (Ho ltac:(done)). lia. }
  apply foldl_bounded; [|by auto]. apply foldl_bounded; [|by auto]. apply foldl_bounded; [|by auto].
  apply foldl_bounded; [done|]. intros m kc Hkc Hm. apply foldl_bounded; [done|].
  intros m' v Hv Hm'. specialize (H1 kc v Hkc Hv). lia.
Qed.

Lemma view_below n f :
  state_below n f →
  max_seq (Export (f_store f)) (sorted_entries (f_outcomes f))
    (mkGenBlock (f_clusterGeneration f) (sorted_entries (view_control f))
       (sorted_entries (view_membership f)) (view_gc f)) ≤ n.
Proof.
  intros [H0 H1 H2 H3 H4]. apply max_seq_below; [done|..].
  - intros [k c] v Hkc Hv. apply (H1 k). apply Export_elem in Hkc. unfold chain_of. by rewrite Hkc.
  - intros [id e] Hp. by eapply H2, elem_of_sorted_entries.
  - intros [id o] Hp. cbn [gen_control] in Hp. apply elem_of_sorted_entries in Hp. unfold view_control in Hp.
    destruct (0 <? f_clusterGeneration f); [by eapply H3|by rewrite lookup_empty in Hp].
  - intros [id e] Hp. cbn [gen_membership] in Hp. apply elem_of_sorted_entries in Hp. unfold view_membership in Hp.
    destruct (2 <=? f_clusterGeneration f); [by eapply H4|by rewrite lookup_empty in Hp].
Qed.

Lemma decode_encode_state f :
  state_ok f →
  ∃ seq, DecodeState (EncodeState f) = Ok (snapshot_view f, seq) ∧
    (∀ k v, v ∈ chain_of (f_store f) k → CommitSeq v ≤ seq) ∧
    (∀ n, state_below n f → seq ≤ n).
Proof.
  intros Hok. pose proof (so_size f Hok) as Hl.
  unfold DecodeState, EncodeState in *. cbv zeta in *.
  set (kcs := Export (f_store f)) in *. set (ids := sorted_entries (f_outcomes f)) in *.
  assert (Hids : ∀ p, p ∈ ids → outcome_ok p).
  { intros [id e] Hp. by apply (so_outcomes f Hok), elem_of_sorted_entries. }
  assert (Hkcs : ∀ kc, kc ∈ kcs → chain_ok kc).
  { intros [k c] Hp. by eapply (so_chains f Hok), Export_elem. }
  rewrite !zlen_app, !zlen_be_put, zlen_cons, zlen_nil in Hl. zlen_facts.
  destruct (decode_section encode_outcome decode_outcome 57 ids (encode_generation_block f))
    as (Hg2 & Hd2 & Hn2); [lia| | | |].
  { intros p Hp. apply encode_outcome_size. by apply Hids. }
  { intros p r' Hp. by apply decode_encode_outcome, Hids. }
  { rewrite zlen_app. lia. }
  destruct (decode_section encode_chain decode_chain 8 kcs
    (put_u32 (zlen ids) ++ mjoin (encode_outcome <$> ids) ++ encode_generation_block f))
    as (Hg1 & Hd1 & Hn1); [lia| | | |].
  { intros p Hp. apply encode_chain_size. }
  { intros p r' Hp. by apply decode_encode_chain, Hkcs. }
  { rewrite !zlen_app, zlen_be_put. lia. }
  pose proof (decode_encode_generation_block f Hok ltac:(lia)) as Hgen.
  set (body2 := mjoin (encode_outcome <$> ids)) in *. clearbody body2.
  set (body1 := mjoin (encode_chain <$> kcs)) in *. clearbody body1.
  set (body3 := encode_generation_block f) in *. clearbody body3.
  unfold fsmStateVersion. zlen_facts.
  repeat decode_step. rewrite ?Hg1. repeat decode_step. rewrite Hd1. repeat decode_step.
  rewrite ?Hg2. repeat decode_step. rewrite Hd2. repeat decode_step. rewrite Hgen.
  repeat decode_step. cbn [gen_generation gen_control gen_membership gen_gc].
  eexists. split.
  - unfold snapshot_view, kcs, ids. cbv zeta.
    rewrite RestoreStore_Export_view by apply Hok. by rewrite !insert_all_sorted_entries.
  - split; [|by intros n Hn; apply view_below].
    intros k v Hv. apply max_seq_version with (mkKeyChain k (chain_of (f_store f) k)); [|done].
    unfold kcs. apply Export_elem. unfold chain_of in *.
    destruct (chains (f_store f) !! k); [done|by apply not_elem_of_nil in Hv].
Qed.

(** ** Decoding arbitrary bytes *)

Lemma status_none_or st Q (k : Status → result fsm_error Q) P :
  (∀ s, status_of_byte st = Some s → reads (k s) P) →
  reads (match status_of_byte st with None => malformed | Some s => k s end) P.
Proof. intros H. destruct (status_of_byte st); [by apply H|done]. Qed.

Lemma decode_version_reads b :
  wf_bytes b → reads (decode_version b) (λ '(v, b'),
    is_u64 (CommitSeq v) ∧ wf_bytes b' ∧ zlen b' ≤ zlen b - 9).
Proof.
  intros Hb. unfold decode_version, malformed. repeat reads_step.
  all: simpl; split_and!; try done; bool_to_prop; zlen_lia.
Qed.

Lemma decode_chain_reads b :
  wf_bytes b → reads (decode_chain b) (λ '(kc, b'),
    Forall (λ v, is_u64 (CommitSeq v)) (kc_versions kc) ∧ wf_bytes b' ∧ zlen b' ≤ zlen b - 8).
Proof.
  intros Hb. unfold decode_chain, malformed. repeat reads_step.
  eapply (reads_decode_n (λ v, is_u64 (CommitSeq v)) 9); [apply decode_version_reads|done|].
  intros vs rest Hvs Hn Hrest Hle. cbn. split_and!; [done|done|]. bool_to_prop. zlen_lia.
Qed.

Lemma decode_outcome_reads b :
  wf_bytes b → reads (decode_outcome b) (λ '(p, b'), True ∧ wf_bytes b' ∧ zlen b' ≤ zlen b - 0).
Proof.
  intros Hb. unfold decode_outcome, malformed. repeat reads_step.
  apply status_none_or. intros s Hs. repeat reads_step.
  simpl. split_and!; [done|done|]. bool_to_prop. zlen_lia.
Qed.

Lemma decode_control_reads b :
  wf_bytes b → reads (decode_control b) (λ '(p, b'), True ∧ wf_bytes b' ∧ zlen b' ≤ zlen b - 0).
Proof.
  intros Hb. unfold decode_control, malformed. repeat reads_step.
  apply status_none_or. intros s Hs. repeat reads_step.
  simpl. split_and!; [done|done|]. bool_to_prop. zlen_lia.
Qed.

Lemma decode_membership_reads b :
  wf_bytes b → reads (decode_membership b) (λ '(p, b'), True ∧ wf_bytes b' ∧ zlen b' ≤ zlen b - 0).
Proof.
  intros Hb. unfold decode_membership, malformed. repeat reads_step.
  apply status_none_or. intros s Hs. repeat reads_step.
  simpl. split_and!; [done|done|]. bool_to_prop. zlen_lia.
Qed.

Lemma decode_membership_block_reads g b :
  wf_bytes b → reads (decode_membership_block g b) (λ '(_, b'), wf_bytes b').
Proof.
  intros Hb. unfold decode_membership_block, malformed. repeat reads_step; [|done].
  eapply (reads_decode_n (λ _, True) 0); [apply decode_membership_reads|done|]. by intros.
Qed.

Lemma decode_gc_block_reads g b :
  wf_bytes b → reads (decode_gc_block g b) (λ '(gc, b'), is_u64 (gb_watermark gc) ∧ wf_bytes b').
Proof.
  intros Hb. unfold decode_gc_block, malformed. repeat reads_step; [done|]. done.
Qed.

Lemma decode_generation_block_reads b :
  wf_bytes b → reads (decode_generation_block b) (λ g,
    is_u32 (gen_generation g) ∧ is_u64 (gb_watermark (gen_gc g))).
Proof.
  intros Hb. unfold decode_generation_block, malformed. repeat reads_step; [|done].
  eapply (reads_decode_n (λ _, True) 0); [apply decode_control_reads|done|].
  intros ctl rest _ _ Hrest _. cbv beta iota. apply reads_bind.
  eapply reads_mono; [by apply decode_membership_block_reads|]. intros [ms rest2] Hrest2.
  apply reads_bind. eapply reads_mono; [by apply decode_gc_block_reads|].
  intros [gc rest3] [Hw Hrest3]. cbv beta iota. reads_step; [reads_step|]. done.
Qed.

Lemma DecodeState_reads b :
  wf_bytes b → reads (DecodeState b) (λ '(f, seq),
    Mvcc.gcWatermark (f_store f) = f_gcWatermark f ∧ is_u64 (f_gcWatermark f) ∧
    is_u32 (f_clusterGeneration f) ∧ skipHorizonGuardForTest (f_store f) = false).
Proof.
  intros Hb. unfold DecodeState, malformed. repeat reads_step.
  eapply (reads_decode_n _ 8); [apply decode_chain_reads|done|].
  intros kcs rest Hk Hn Hrest Hle. cbv beta iota. repeat reads_step.
  eapply (reads_decode_n (λ _, True) 0); [apply decode_outcome_reads|done|].
  intros outs rest2 _ _ Hrest2 _. cbv beta iota. apply reads_bind.
  eapply reads_mono; [by apply decode_generation_block_reads|]. intros g [Hg Hw].
  simpl. done.
Qed.

(** *** The reported sequence bounds whatever was restored *)

Lemma state_below_mono m n f : m ≤ n → state_below m f → state_below n f.
Proof.
  intros Hmn [H0 H1 H2 H3 H4]. unfold seq_below in *.
  constructor; unfold seq_below; [lia|..]; intros; (etrans; [|exact Hmn]); eauto.
Qed.

Lemma insert_all_elem {A} (l : list (bytes * A)) (k : bytes) v : insert_all l !! k = Some v → (k, v) ∈ l.
Proof.
  unfold insert_all. induction l as [|[k' v'] l IH] using rev_ind; [done|].
  rewrite foldl_app. simpl. destruct (decide (k' = k)) as [->|Hk].
  - rewrite lookup_insert_eq. intros [= ->]. apply elem_of_app. right. by left.
  - rewrite lookup_insert_ne by done. intros H. apply elem_of_app. by left; apply IH.
Qed.

Lemma max_seq_outcome kcs outcomes g p :
  p ∈ outcomes → seq_below (max_seq kcs outcomes g) (oe_outcome p.2).
Proof.
  intros Hp Hc. unfold max_seq. cbv zeta.
  do 2 (etrans; [|apply foldl_raises; intros m x; case_bool_decide; lia]).
  eapply foldl_raises_elem; [|exact Hp|]; intros m; [intros x|]; case_bool_decide; done || lia.
Qed.

Lemma max_seq_control kcs outcomes g p :
  p ∈ gen_control g → seq_below (max_seq kcs outcomes g) p.2.
Proof.
  intros Hp Hc. unfold max_seq. cbv zeta.
  etrans; [|apply foldl_raises; intros m x; case_bool_decide; lia].
  eapply foldl_raises_elem; [|exact Hp|]; intros m; [intros x|]; case_bool_decide; done || lia.
Qed.

Lemma max_seq_membership kcs outcomes g p :
  p ∈ gen_membership g → seq_below (max_seq kcs outcomes g) (oe_outcome p.2).
Proof.
  intros Hp Hc. unfold max_seq. cbv zeta.
  eapply foldl_raises_elem; [|exact Hp|]; intros m; [intros x|]; case_bool_decide; done || lia.
Qed.

Lemma max_seq_nonneg kcs outcomes g : 0 ≤ max_seq kcs outcomes g.
Proof.
  unfold max_seq. cbv zeta. do 3 (etrans; [|apply foldl_raises; intros m x; case_bool_decide; lia]).
  apply foldl_raises. intros m kc. apply foldl_raises. lia.
Qed.

Lemma DecodeState_below b f seq : DecodeState b = Ok (f, seq) → state_below seq f.
Proof.
  unfold DecodeState, malformed. intros H.
  destruct (zlen b <? 5); [done|]. apply bind_Ok_inv in H as ([ver b1] & _ & H). cbv beta iota in H.
  destruct (negb (ver =? fsmStateVersion)); [done|]. apply bind_Ok_inv in H as ([nc b2] & _ & H). cbv beta iota in H.
  destruct (_ <? nc); [done|]. apply bind_Ok_inv in H as ([kcs b3] & _ & H). cbv beta iota in H.
  destruct (zlen b3 <? 4); [done|]. apply bind_Ok_inv in H as ([no b4] & _ & H). cbv beta iota in H.
  destruct (_ <? no); [done|]. apply bind_Ok_inv in H as ([outs b5] & _ & H). cbv beta iota in H.
  apply bind_Ok_inv in H as (g & _ & H).
  assert (f = mkFSM (RestoreStore kcs (gb_watermark (gen_gc g))) (insert_all outs)
            (gen_generation g) (insert_all (gen_control g)) (insert_all (gen_membership g))
            (gb_watermark (gen_gc g)) (gb_cursor (gen_gc g)) (gb_passes (gen_gc g)) (gb_passSeq (gen_gc g)) ∧
          seq = max_seq kcs outs g) as [-> ->] by (by injection H).
  constructor; cbn [f_store f_outcomes f_controlOutcomes f_membershipOutcomes].
  - apply max_seq_nonneg.
  - intros k v Hv. apply RestoreStore_chain in Hv as (kc & Hkc & Hv). by eapply max_seq_version.
  - intros id e He. by apply insert_all_elem, (max_seq_outcome kcs outs g) in He.
  - intros id o Ho. by apply insert_all_elem, (max_seq_control kcs outs g) in Ho.
  - intros id e He. by apply insert_all_elem, (max_seq_membership kcs outs g) in He.
Qed.

(** ** Properties of state snapshots *)

(** Restoring a snapshot of the state gives back the state the cluster
    generation lets it carry: all data and transaction outcomes always, the
    control outcomes from generation 1, the membership outcomes from
    generation 2 and the GC state from generation 3, where the restored state
    is the original.  The reported sequence bounds every restored version.
    On arbitrary bytes the decoder never indexes out of range, and in whatever
    it accepts the restored store already enforces the restored GC watermark. *)
Theorem fsm_snapshot_roundtrip f :
  state_ok f →
  ∃ seq, DecodeState (EncodeState f) = Ok (snapshot_view f, seq) ∧
    (∀ k v, v ∈ chain_of (f_store f) k → CommitSeq v ≤ seq) ∧
    (3 ≤ f_clusterGeneration f → Mvcc.gcWatermark (f_store f) = f_gcWatermark f →
     snapshot_view f = f) ∧
    (∀ b, wf_bytes b → reads (DecodeState b) (λ '(f', _),
       Mvcc.gcWatermark (f_store f') = f_gcWatermark f' ∧ is_u64 (f_gcWatermark f') ∧
       is_u32 (f_clusterGeneration f') ∧ skipHorizonGuardForTest (f_store f') = false)).
Proof.
  intros Hok. destruct (decode_encode_state f Hok) as (seq & Hd & Hseq & _). exists seq.
  split; [done|]. split; [done|]. split; [intros Hg Hw|exact DecodeState_reads].
  unfold snapshot_view, view_control, view_membership, view_gc. cbv zeta.
  rewrite (proj2 (Z.leb_le _ _)), (proj2 (Z.ltb_lt _ _)), (proj2 (Z.leb_le _ _)) by lia.
  simpl. rewrite <- Hw. destruct f as [[] ? ? ? ? ? ? ? ?]. simpl in *. by subst.
Qed.

(** A rejected cluster-version command recorded at generation 0 is lost
    by a snapshot, and losing it is not harmless.  Two replicas apply the
    same log; one restored a snapshot taken after the rejection.  When the
    generation has advanced and the rejected request comes again, the
    restored replica commits it and the other returns the recorded abort:
    their generations differ. *)
Theorem snapshot_forgets_rejected_control :
  ∃ f rej adv f' seq,
    (ApplySetClusterVersion (New NewStore) 1 rej).1 = f ∧
    DecodeState (EncodeState f) = Ok (f', seq) ∧
    let live := ApplySetClusterVersion (ApplySetClusterVersion f 2 adv).1 3 rej in
    let restored := ApplySetClusterVersion (ApplySetClusterVersion f' 2 adv).1 3 rej in
    o_Status live.2 = StatusAborted ∧ o_Status restored.2 = StatusCommitted ∧
    f_clusterGeneration live.1 = 1 ∧ f_clusterGeneration restored.1 = 2.
Proof.
  exists (ApplySetClusterVersion (New NewStore) 1 (mkSetClusterVersion [5] 2)).1,
    (mkSetClusterVersion [5] 2), (mkSetClusterVersion [6] 1), (New NewStore), 0.
  split; [done|]. split; [vm_compute; reflexivity|]. vm_compute. done.
Qed.

(** ** Witnesses *)

Definition demo_state : FSM :=
  (New NewStore) <| f_clusterGeneration := 3 |>
                 <| f_controlOutcomes := {[ [7] := mkOutcome [7] StatusCommitted 4 [] 0 ]} |>
                 <| f_gcCursor := [97] |>.

Lemma demo_state_ok : state_ok demo_state.
Proof.
  constructor; simpl.
  - apply NewStore_wf.
  - done.
  - intros k c. by rewrite lookup_empty.
  - intros id e. by rewrite lookup_empty.
  - intros id o [<- <-]%lookup_singleton_Some. unfold control_ok, plain_outcome, outcome_seqs_ok. simpl.
    unfold is_u64. split_and!; try done; lia.
  - intros id e. by rewrite lookup_empty.
  - unfold is_u32. lia.
  - unfold is_u64. lia.
  - vm_compute. done.
Qed.

Lemma fsm_snapshot_roundtrip_witness :
  ∃ seq, DecodeState (EncodeState demo_state) = Ok (demo_state, seq).
Proof.
  destruct (fsm_snapshot_roundtrip demo_state demo_state_ok) as (seq & Hd & _ & Hv & _).
  exists seq. rewrite Hd, Hv; [reflexivity| |].
  - vm_compute. discriminate.
  - reflexivity.
Defined.
