(* ===== verification/RaftTypes.v ===== *)
(** * Raft data ([internal/raft/types.go], [messages.go], [io.go], [config.go])

    Node identifiers are strings, terms and indices unsigned 64-bit
    integers.  A Go panic of the package is an [Err] of type [raft_panic]:
    writing to a nil map, slicing out of bounds, and the explicit [panic]
    calls. *)

From S2P Require Import Prelude Bytes.

Abbreviation NodeID := bytes.

Inductive Role := Follower | Candidate | Leader.
#[export] Instance Role_eq_dec : EqDecision Role.
Proof. solve_decision. Defined.

Inductive raft_panic :=
| PanicNilMap
| PanicBounds
| PanicTruncateCommitted
| PanicConfigPayload
| PanicMalformedConfigEntry
| PanicInvalidTransition
| PanicWireKind.

Inductive EntryType := EntryNormal | EntryConfig.
#[export] Instance EntryType_eq_dec : EqDecision EntryType.
Proof. solve_decision. Defined.

Record Entry := mkEntry { e_Index : Z; e_Term : Z; e_Type : EntryType; e_Data : bytes }.
#[export] Instance Entry_eq_dec : EqDecision Entry.
Proof. solve_decision. Defined.

Record Member := mkMember { m_ID : NodeID; m_Address : bytes }.
#[export] Instance Member_eq_dec : EqDecision Member.
Proof. solve_decision. Defined.

Record Configuration := mkConfiguration { Voters : list Member; Learners : list Member }.
#[export] Instance Configuration_eq_dec : EqDecision Configuration.
Proof. solve_decision. Defined.

Definition no_config : Configuration := mkConfiguration [] [].

Definition Majority (c : Configuration) : Z := zlen (Voters c) / 2 + 1.

Definition has_member (ms : list Member) (id : NodeID) : bool :=
  existsb (λ m, bool_decide (m_ID m = id)) ms.
Definition IsVoter (c : Configuration) (id : NodeID) : bool := has_member (Voters c) id.
Definition IsLearner (c : Configuration) (id : NodeID) : bool := has_member (Learners c) id.
Definition IsMember (c : Configuration) (id : NodeID) : bool := IsVoter c id || IsLearner c id.
Definition IsZero (c : Configuration) : bool := (zlen (Voters c) =? 0) && (zlen (Learners c) =? 0).

(** [Configuration.Equal]: same members in the same order. *)
Fixpoint membersEqual (a b : list Member) : bool :=
  match a, b with
  | [], [] => true
  | x :: a, y :: b => bool_decide (x = y) && membersEqual a b
  | _, _ => false
  end.
Definition ConfigurationEqual (c o : Configuration) : bool :=
  membersEqual (Voters c) (Voters o) && membersEqual (Learners c) (Learners o).

Record HardState := mkHardState { hs_CurrentTerm : Z; hs_VotedFor : NodeID }.
#[export] Instance HardState_eq_dec : EqDecision HardState.
Proof. solve_decision. Defined.
Definition noVote : NodeID := [].

(** ** Messages *)

Inductive MessageType :=
| MsgRequestVoteRequest
| MsgRequestVoteResponse
| MsgAppendEntriesRequest
| MsgAppendEntriesResponse
| MsgInstallSnapshotRequest
| MsgInstallSnapshotResponse.
#[export] Instance MessageType_eq_dec : EqDecision MessageType.
Proof. solve_decision. Defined.

Record Message := mkMessage {
  m_Type : MessageType;
  m_From : NodeID;
  m_To : NodeID;
  m_Term : Z;
  m_LastLogIndex : Z;
  m_LastLogTerm : Z;
  m_VoteGranted : bool;
  m_PrevLogIndex : Z;
  m_PrevLogTerm : Z;
  m_Entries : list Entry;
  m_LeaderCommit : Z;
  m_Success : bool;
  m_MatchIndex : Z;
  m_ConflictIndex : Z;
  m_ConflictTerm : Z;
  m_LastIncludedIndex : Z;
  m_LastIncludedTerm : Z;
  m_SnapshotData : bytes;
  m_Configuration : Configuration;
  m_HasConfiguration : bool;
  m_Seq : Z;
  m_SenderGeneration : Z
}.
#[export] Instance Message_eta : Eta Message := λ m,
  mkMessage (m_Type m) (m_From m) (m_To m) (m_Term m) (m_LastLogIndex m) (m_LastLogTerm m)
    (m_VoteGranted m) (m_PrevLogIndex m) (m_PrevLogTerm m) (m_Entries m) (m_LeaderCommit m)
    (m_Success m) (m_MatchIndex m) (m_ConflictIndex m) (m_ConflictTerm m) (m_LastIncludedIndex m)
    (m_LastIncludedTerm m) (m_SnapshotData m) (m_Configuration m) (m_HasConfiguration m) (m_Seq m)
    (m_SenderGeneration m).

(** Named setters of [Message], so that updated states stay small terms. *)
#[export] Instance set_m_Type : Setter m_Type.
Proof. derive_setter. Defined.
#[export] Instance set_m_From : Setter m_From.
Proof. derive_setter. Defined.
#[export] Instance set_m_To : Setter m_To.
Proof. derive_setter. Defined.
#[export] Instance set_m_Term : Setter m_Term.
Proof. derive_setter. Defined.
#[export] Instance set_m_LastLogIndex : Setter m_LastLogIndex.
Proof. derive_setter. Defined.
#[export] Instance set_m_LastLogTerm : Setter m_LastLogTerm.
Proof. derive_setter. Defined.
#[export] Instance set_m_VoteGranted : Setter m_VoteGranted.
Proof. derive_setter. Defined.
#[export] Instance set_m_PrevLogIndex : Setter m_PrevLogIndex.
Proof. derive_setter. Defined.
#[export] Instance set_m_PrevLogTerm : Setter m_PrevLogTerm.
Proof. derive_setter. Defined.
#[export] Instance set_m_Entries : Setter m_Entries.
Proof. derive_setter. Defined.
#[export] Instance set_m_LeaderCommit : Setter m_LeaderCommit.
Proof. derive_setter. Defined.
#[export] Instance set_m_Success : Setter m_Success.
Proof. derive_setter. Defined.
#[export] Instance set_m_MatchIndex : Setter m_MatchIndex.
Proof. derive_setter. Defined.
#[export] Instance set_m_ConflictIndex : Setter m_ConflictIndex.
Proof. derive_setter. Defined.
#[export] Instance set_m_ConflictTerm : Setter m_ConflictTerm.
Proof. derive_setter. Defined.
#[export] Instance set_m_LastIncludedIndex : Setter m_LastIncludedIndex.
Proof. derive_setter. Defined.
#[export] Instance set_m_LastIncludedTerm : Setter m_LastIncludedTerm.
Proof. derive_setter. Defined.
#[export] Instance set_m_SnapshotData : Setter m_SnapshotData.
Proof. derive_setter. Defined.
#[export] Instance set_m_Configuration : Setter m_Configuration.
Proof. derive_setter. Defined.
#[export] Instance set_m_HasConfiguration : Setter m_HasConfiguration.
Proof. derive_setter. Defined.
#[export] Instance set_m_Seq : Setter m_Seq.
Proof. derive_setter. Defined.
#[export] Instance set_m_SenderGeneration : Setter m_SenderGeneration.
Proof. derive_setter. Defined.

(** A message literal: the fields not given have their zero value. *)
Definition message (t : MessageType) (from to : NodeID) (term : Z) : Message :=
  mkMessage t from to term 0 0 false 0 0 [] 0 false 0 0 0 0 0 [] no_config false 0 0.

(** ** Inputs and outputs of the core *)

Inductive Input :=
| InputElectionTimeout
| InputHeartbeatTimeout
| InputMessage (msg : Message)
| InputPropose (data : bytes)
| InputPersistenceComplete (seq : Z).

Record PersistRequest := mkPersistRequest {
  pr_Seq : Z;
  pr_HardState : option HardState;
  pr_TruncateFrom : Z;
  pr_Entries : list Entry
}.

Record Output := mkOutput {
  out_Messages : list Message;
  out_PersistRequest : option PersistRequest;
  out_ResetElectionTimer : bool;
  out_ElectionTimeoutTicks : Z;
  out_ResetHeartbeatTimer : bool;
  out_HeartbeatTimeoutTicks : Z;
  out_CommittedEntries : list Entry;
  out_BecameLeader : bool;
  out_SteppedDown : bool;
  out_ProposalRejected : bool;
  out_LeaderHint : NodeID
}.
#[export] Instance Output_eta : Eta Output := λ o,
  mkOutput (out_Messages o) (out_PersistRequest o) (out_ResetElectionTimer o)
    (out_ElectionTimeoutTicks o) (out_ResetHeartbeatTimer o) (out_HeartbeatTimeoutTicks o)
    (out_CommittedEntries o) (out_BecameLeader o) (out_SteppedDown o) (out_ProposalRejected o)
    (out_LeaderHint o).

(** Named setters of [Output], so that updated states stay small terms. *)
#[export] Instance set_out_Messages : Setter out_Messages.
Proof. derive_setter. Defined.
#[export] Instance set_out_PersistRequest : Setter out_PersistRequest.
Proof. derive_setter. Defined.
#[export] Instance set_out_ResetElectionTimer : Setter out_ResetElectionTimer.
Proof. derive_setter. Defined.
#[export] Instance set_out_ElectionTimeoutTicks : Setter out_ElectionTimeoutTicks.
Proof. derive_setter. Defined.
#[export] Instance set_out_ResetHeartbeatTimer : Setter out_ResetHeartbeatTimer.
Proof. derive_setter. Defined.
#[export] Instance set_out_HeartbeatTimeoutTicks : Setter out_HeartbeatTimeoutTicks.
Proof. derive_setter. Defined.
#[export] Instance set_out_CommittedEntries : Setter out_CommittedEntries.
Proof. derive_setter. Defined.
#[export] Instance set_out_BecameLeader : Setter out_BecameLeader.
Proof. derive_setter. Defined.
#[export] Instance set_out_SteppedDown : Setter out_SteppedDown.
Proof. derive_setter. Defined.
#[export] Instance set_out_ProposalRejected : Setter out_ProposalRejected.
Proof. derive_setter. Defined.
#[export] Instance set_out_LeaderHint : Setter out_LeaderHint.
Proof. derive_setter. Defined.

Definition no_output : Output := mkOutput [] None false 0 false 0 [] false false false [].

Definition send (msg : Message) (out : Output) : Output :=
  out <| out_Messages := out_Messages out ++ [msg] |>.

(** ** Configuration of a core

    [Rand] is the injected source of randomness: [intn] is the function its
    [Intn] method computes in the current step. *)

Record Config := mkConfig {
  cfg_ID : NodeID;
  cfg_Bootstrap : Configuration;
  cfg_ElectionTimeoutTicks : Z;
  cfg_ElectionTimeoutJitterTicks : Z;
  cfg_HeartbeatTimeoutTicks : Z;
  cfg_HasRand : bool
}.

Definition validate (c : Config) : bool :=
  if bool_decide (cfg_ID c = []) then false
  else if ((0 <? zlen (Voters (cfg_Bootstrap c))) || (0 <? zlen (Learners (cfg_Bootstrap c))))
          && negb (IsMember (cfg_Bootstrap c) (cfg_ID c)) then false
  else if cfg_ElectionTimeoutTicks c <=? 0 then false
  else if cfg_ElectionTimeoutJitterTicks c <? 0 then false
  else if cfg_HeartbeatTimeoutTicks c <=? 0 then false
  else cfg_HasRand c.

Definition electionTimeout (c : Config) (intn : Z → Z) : Z :=
  if cfg_ElectionTimeoutJitterTicks c =? 0 then cfg_ElectionTimeoutTicks c
  else cfg_ElectionTimeoutTicks c + intn (cfg_ElectionTimeoutJitterTicks c + 1).

(** ** Maps that may be nil *)

Definition map_read {A} (d : A) (m : option (gmap bytes A)) (k : bytes) : A :=
  match m with Some m => default d (m !! k) | None => d end.

Definition map_write {A} (m : option (gmap bytes A)) (k : bytes) (v : A)
    : result raft_panic (option (gmap bytes A)) :=
  match m with Some m => Ok (Some (<[k := v]> m)) | None => Err PanicNilMap end.

(** ** Elementary lemmas *)

Lemma membersEqual_spec a b : membersEqual a b = true ↔ a = b.
Proof.
  revert b. induction a as [|x a IH]; intros [|y b]; simpl; try done.
  rewrite andb_true_iff, bool_decide_eq_true, IH. split; [by intros [-> ->]|by intros [= -> ->]].
Qed.

Lemma ConfigurationEqual_spec c o : ConfigurationEqual c o = true ↔ c = o.
Proof.
  unfold ConfigurationEqual. rewrite andb_true_iff, !membersEqual_spec.
  destruct c, o. simpl. split; [by intros [-> ->]|by intros [= -> ->]].
Qed.

Lemma has_member_spec ms id : has_member ms id = true ↔ id ∈ m_ID <$> ms.
Proof.
  unfold has_member. rewrite existsb_exists. split.
  - intros (m & Hm & Hid). apply bool_decide_eq_true in Hid. apply list_elem_of_fmap.
    exists m. split; [done|]. by apply list_elem_of_In.
  - intros (m & -> & Hm)%list_elem_of_fmap. exists m. split; [by apply list_elem_of_In|].
    by apply bool_decide_eq_true.
Qed.
