(* ===== verification/RaftMembership.v ===== *)
(** * Membership changes ([internal/raft/membership.go])

    The payload of an [EntryConfig] log entry, its bounded decoder, and the
    single-server transition rule. *)

From S2P Require Import Prelude Bytes RaftTypes.

Inductive membership_error :=
| ErrNotLeader
| ErrConfigChangeInheritedSuffixUncommitted
| ErrConfigChangeNoCurrentTermCommit
| ErrConfigChangeInProgress
| ErrInvalidTransition
| ErrLastVoterRemoval
| ErrUnknownMember
| ErrMemberAlreadyExists
| ErrMalformedConfigChange
| ErrUnknownConfigChangeKind
| ErrNotConfigEntry
| MembershipPanic.
#[export] Instance membership_panicking : Panicking membership_error := MembershipPanic.

Definition controlCommandMarkerMirror : Z := 0xF0.
Definition membershipKindAddLearner : Z := 16.
Definition membershipKindPromoteVoter : Z := 17.
Definition membershipKindRemoveServer : Z := 18.
Definition membershipKindVoided : Z := 19.

Inductive MembershipChangeKind := AddLearnerChange | PromoteToVoterChange | RemoveServerChange.
#[export] Instance MembershipChangeKind_eq_dec : EqDecision MembershipChangeKind.
Proof. solve_decision. Defined.

(** ** The configuration codec *)

Definition putLenPrefixed (b : bytes) : bytes := put_u32 (zlen b) ++ b.

Definition getLenPrefixed (b : bytes) : result membership_error (bytes * bytes) :=
  if zlen b <? 4 then Err ErrMalformedConfigChange else
  '(n, b) ← u32_at b;
  if zlen b <? n then Err ErrMalformedConfigChange else
  slice_at n b.

Definition encode_member (m : Member) : bytes := putLenPrefixed (m_ID m) ++ putLenPrefixed (m_Address m).

Definition encodeConfiguration (cfg : Configuration) : bytes :=
  put_u32 (zlen (Voters cfg)) ++ mjoin (encode_member <$> Voters cfg) ++
  put_u32 (zlen (Learners cfg)) ++ mjoin (encode_member <$> Learners cfg).

Definition minEncodedMemberSize : Z := 8.

Definition decode_member (b : bytes) : result membership_error (Member * bytes) :=
  '(id, b) ← getLenPrefixed b;
  '(addr, b) ← getLenPrefixed b;
  Ok (mkMember id addr, b).

Definition decodeConfiguration (b : bytes) : result membership_error Configuration :=
  if zlen b <? 4 then Err ErrMalformedConfigChange else
  '(voterCount, b) ← u32_at b;
  if u32 (zlen b / minEncodedMemberSize) <? voterCount then Err ErrMalformedConfigChange else
  '(voters, b) ← decode_n (Z.to_nat voterCount) decode_member b;
  if zlen b <? 4 then Err ErrMalformedConfigChange else
  '(learnerCount, b) ← u32_at b;
  if u32 (zlen b / minEncodedMemberSize) <? learnerCount then Err ErrMalformedConfigChange else
  '(learners, b) ← decode_n (Z.to_nat learnerCount) decode_member b;
  if negb (zlen b =? 0) then Err ErrMalformedConfigChange else
  Ok (mkConfiguration voters learners).

(** ** The EntryConfig payload *)

Record ConfigChange := mkConfigChange {
  cc_kind : Z;
  cc_requestID : bytes;
  cc_targetID : bytes;
  cc_targetAddr : bytes;
  cc_cfg : Configuration;
  cc_establishes : bool
}.

Definition encodeConfigChange (kind : Z) (requestID targetID targetAddr : bytes)
    (cfg : Configuration) : bytes :=
  [controlCommandMarkerMirror] ++ [kind] ++ putLenPrefixed requestID ++ putLenPrefixed targetID ++
  putLenPrefixed targetAddr ++ putLenPrefixed (encodeConfiguration cfg).

Definition EncodeVoidedEntryConfigPayload : bytes :=
  [controlCommandMarkerMirror; membershipKindVoided;
   0; 0; 0; 0; 0; 0; 0; 0; 0; 0; 0; 0; 0; 0; 0; 0].

Definition decodeConfigChange (b : bytes) : result membership_error ConfigChange :=
  if zlen b <? 2 then Err ErrMalformedConfigChange else
  '(marker, b) ← u8_at b;
  if negb (marker =? controlCommandMarkerMirror) then Err ErrMalformedConfigChange else
  '(kind, b) ← u8_at b;
  '(reqIDB, b) ← getLenPrefixed b;
  '(targetIDB, b) ← getLenPrefixed b;
  '(targetAddrB, b) ← getLenPrefixed b;
  '(cfgB, b) ← getLenPrefixed b;
  if negb (zlen b =? 0) then Err ErrMalformedConfigChange else
  if (kind =? membershipKindAddLearner) || (kind =? membershipKindPromoteVoter)
     || (kind =? membershipKindRemoveServer) then
    cfg ← decodeConfiguration cfgB;
    if zlen (Voters cfg) =? 0 then Err ErrMalformedConfigChange else
    Ok (mkConfigChange kind reqIDB targetIDB targetAddrB cfg true)
  else if kind =? membershipKindVoided then
    if negb (zlen cfgB =? 0) || negb (zlen reqIDB =? 0) || negb (zlen targetIDB =? 0)
       || negb (zlen targetAddrB =? 0) then Err ErrMalformedConfigChange else
    Ok (mkConfigChange kind reqIDB targetIDB targetAddrB no_config false)
  else Err ErrUnknownConfigChangeKind.

(** The configuration an entry payload establishes, if any: what the code
    extracts with [err != nil || !establishes]. *)
Definition established (b : bytes) : option Configuration :=
  match decodeConfigChange b with
  | Ok cc => if cc_establishes cc then Some (cc_cfg cc) else None
  | Err _ => None
  end.

(** ** Single-server transitions *)

Definition toMemberSet (ms : list Member) : gmap bytes Member :=
  foldl (λ s m, <[m_ID m := m]> s) ∅ ms.

Definition sameMemberIDs (a b : gmap bytes Member) : bool :=
  bool_decide (size a = size b) && bool_decide (dom a ⊆ dom b).

(** The member of [newSet] that is not in [oldSet], when [newSet] has one
    member more. *)
Definition oneAdded (oldSet newSet : gmap bytes Member) : option Member :=
  if negb (bool_decide (size newSet = size oldSet + 1)%nat) then None else
  snd <$> head (map_to_list (filter (λ kv, oldSet !! kv.1 = None) newSet)).

Definition oneRemoved (oldSet newSet : gmap bytes Member) : option Member := oneAdded newSet oldSet.

(** [true] where the code returns nil, [false] for [ErrInvalidTransition]. *)
Definition classifyTransition (old new : Configuration) : bool :=
  let oldV := toMemberSet (Voters old) in let newV := toMemberSet (Voters new) in
  let oldL := toMemberSet (Learners old) in let newL := toMemberSet (Learners new) in
  if negb (bool_decide (dom newV ∩ dom newL = ∅)) then false
  else if bool_decide (size newV = size oldV) && bool_decide (size newL = size oldL + 1)%nat then
    sameMemberIDs oldV newV &&
    match oneAdded oldL newL with
    | Some added => bool_decide (oldV !! m_ID added = None)
    | None => false
    end
  else if bool_decide (size newV = size oldV + 1)%nat && bool_decide (size newL + 1 = size oldL)%nat then
    match oneAdded oldV newV, oneRemoved oldL newL with
    | Some addedV, Some removedL =>
        bool_decide (m_ID addedV = m_ID removedL) && bool_decide (dom oldV ⊆ dom newV)
    | _, _ => false
    end
  else if bool_decide (size newV + 1 = size oldV)%nat && bool_decide (size newL = size oldL) then
    negb (size newV <? 1)%nat && sameMemberIDs oldL newL && bool_decide (is_Some (oneRemoved oldV newV))
  else if bool_decide (size newV = size oldV) && bool_decide (size newL + 1 = size oldL)%nat then
    sameMemberIDs oldV newV && bool_decide (is_Some (oneRemoved oldL newL))
  else false.

(** ** Building the next configuration *)

Definition removeMemberByID (ms : list Member) (id : NodeID) : list Member :=
  filter (λ m, m_ID m ≠ id) ms.
Definition appendMember (ms : list Member) (m : Member) : list Member := ms ++ [m].
Definition findMemberByID (ms : list Member) (id : NodeID) : option Member :=
  snd <$> list_find (λ m, m_ID m = id) ms.

Definition buildNewConfiguration (cur : Configuration) (kind : MembershipChangeKind)
    (targetID targetAddr : bytes) : result membership_error Configuration :=
  match kind with
  | AddLearnerChange =>
      if IsMember cur targetID then Err ErrMemberAlreadyExists else
      Ok (mkConfiguration (Voters cur) (appendMember (Learners cur) (mkMember targetID targetAddr)))
  | PromoteToVoterChange =>
      match findMemberByID (Learners cur) targetID with
      | None => Err ErrUnknownMember
      | Some m => Ok (mkConfiguration (appendMember (Voters cur) m)
                                      (removeMemberByID (Learners cur) targetID))
      end
  | RemoveServerChange =>
      if IsVoter cur targetID then
        Ok (mkConfiguration (removeMemberByID (Voters cur) targetID) (Learners cur))
      else if IsLearner cur targetID then
        Ok (mkConfiguration (Voters cur) (removeMemberByID (Learners cur) targetID))
      else Err ErrUnknownMember
  end.

Definition wireKindFor (kind : MembershipChangeKind) : Z :=
  match kind with
  | AddLearnerChange => membershipKindAddLearner
  | PromoteToVoterChange => membershipKindPromoteVoter
  | RemoveServerChange => membershipKindRemoveServer
  end.

Definition membershipChangeKindFromWire (kind : Z) : option MembershipChangeKind :=
  if kind =? membershipKindAddLearner then Some AddLearnerChange
  else if kind =? membershipKindPromoteVoter then Some PromoteToVoterChange
  else if kind =? membershipKindRemoveServer then Some RemoveServerChange
  else None.

(** [DecodeConfigEntry]: the kind is [None] for a voided entry (Go's zero
    value). *)
Definition DecodeConfigEntry (e : Entry)
    : result membership_error (option MembershipChangeKind * ConfigChange) :=
  if bool_decide (e_Type e ≠ EntryConfig) then Err ErrNotConfigEntry else
  cc ← decodeConfigChange (e_Data e);
  if negb (cc_establishes cc) then Ok (None, cc) else
  match membershipChangeKindFromWire (cc_kind cc) with
  | None => Err ErrUnknownConfigChangeKind
  | Some k => Ok (Some k, cc)
  end.
