(* ===== verification/RaftMembershipSpec.v ===== *)
(** * Membership changes: the codec and the transition rule

    The payload of a configuration entry survives the log and its decoder is
    total on arbitrary bytes; a change the leader builds is one of the four
    single-server changes, so that majorities before and after it intersect;
    and the check that followers repeat is weaker than that. *)

From S2P Require Import Prelude Bytes RaftTypes RaftMembership.

(** ** Round trips *)

Lemma getLenPrefixed_put b rest :
  zlen b < 2 ^ 32 → getLenPrefixed (putLenPrefixed b ++ rest) = Ok (b, rest).
Proof. intros Hb. unfold getLenPrefixed, putLenPrefixed. repeat decode_step. done. Qed.

Lemma zlen_putLenPrefixed b : zlen (putLenPrefixed b) = 4 + zlen b.
Proof. unfold putLenPrefixed. autorewrite with zlen. lia. Qed.

Lemma zlen_encode_member m : zlen (encode_member m) = 8 + zlen (m_ID m) + zlen (m_Address m).
Proof. unfold encode_member. rewrite zlen_app, !zlen_putLenPrefixed. lia. Qed.

Lemma decode_encode_member m r :
  zlen (encode_member m) < 2 ^ 32 → decode_member (encode_member m ++ r) = Ok (m, r).
Proof.
  rewrite zlen_encode_member. intros Hl. destruct m as [i a]. unfold decode_member, encode_member.
  cbn [m_ID m_Address] in *. rewrite <- app_assoc.
  rewrite getLenPrefixed_put by zlen_lia. rewrite bind_Ok. cbv beta iota.
  rewrite getLenPrefixed_put by zlen_lia. done.
Qed.

Lemma decode_members ms r :
  zlen (mjoin (encode_member <$> ms)) < 2 ^ 32 →
  decode_n (length ms) decode_member (mjoin (encode_member <$> ms) ++ r) = Ok (ms, r).
Proof.
  intros Hl. apply decode_n_encode. intros x r' Hx. apply decode_encode_member.
  pose proof (zlen_mjoin_elem encode_member x ms Hx). lia.
Qed.

Lemma members_min_size ms : 8 * zlen ms ≤ zlen (mjoin (encode_member <$> ms)).
Proof. apply zlen_mjoin_ge. intros x _. rewrite zlen_encode_member. zlen_facts. lia. Qed.

Lemma decode_encode_configuration cfg :
  zlen (encodeConfiguration cfg) < 2 ^ 32 →
  decodeConfiguration (encodeConfiguration cfg) = Ok cfg.
Proof.
  destruct cfg as [vs ls]. unfold encodeConfiguration. cbn [Voters Learners]. intros Hl.
  pose proof (members_min_size vs) as Hv. pose proof (members_min_size ls) as Hlr.
  pose proof (decode_members vs) as Dv. pose proof (decode_members ls []) as Dl.
  rewrite app_nil_r in Dl.
  generalize dependent (mjoin (encode_member <$> vs)). intros bv Hl Hv Dv.
  generalize dependent (mjoin (encode_member <$> ls)). intros bl Hlr Dl Hl.
  assert (Hb : zlen bv + zlen bl + 8 < 2 ^ 32) by zlen_lia. clear Hl.
  unfold decodeConfiguration, minEncodedMemberSize. repeat decode_step.
  rewrite count_guard; [|lia|zlen_lia|zlen_lia].
  rewrite to_nat_zlen, Dv by zlen_lia. repeat decode_step.
  rewrite count_guard; [|lia|zlen_lia|zlen_lia].
  rewrite to_nat_zlen, Dl by zlen_lia. done.
Qed.

Definition establishing_kind (k : Z) : bool :=
  (k =? membershipKindAddLearner) || (k =? membershipKindPromoteVoter)
  || (k =? membershipKindRemoveServer).

Lemma decode_encode_config_change kind req tid taddr cfg :
  establishing_kind kind = true → Voters cfg ≠ [] →
  zlen (encodeConfigChange kind req tid taddr cfg) < 2 ^ 32 →
  decodeConfigChange (encodeConfigChange kind req tid taddr cfg) =
    Ok (mkConfigChange kind req tid taddr cfg true).
Proof.
  intros Hk Hv Hl. unfold encodeConfigChange in *.
  pose proof (decode_encode_configuration cfg) as Hd.
  generalize dependent (encodeConfiguration cfg). intros bc Hl Hd.
  assert (Hb : zlen req + zlen tid + zlen taddr + zlen bc + 18 < 2 ^ 32).
  { rewrite !zlen_app, !zlen_putLenPrefixed in Hl. zlen_lia. }
  clear Hl. unfold decodeConfigChange. rewrite <- (app_nil_r (putLenPrefixed bc)).
  assert (Hlen : (zlen ([controlCommandMarkerMirror] ++ [kind] ++ putLenPrefixed req ++
    putLenPrefixed tid ++ putLenPrefixed taddr ++ putLenPrefixed bc ++ []) <? 2) = false).
  { apply Z.ltb_ge. rewrite !zlen_app, !zlen_putLenPrefixed. zlen_lia. }
  rewrite Hlen. clear Hlen. cbn [app u8_at]. rewrite bind_Ok. cbv beta iota.
  rewrite Z.eqb_refl. cbn [negb]. rewrite u8_at_put, bind_Ok. cbv beta iota.
  do 4 (rewrite getLenPrefixed_put by zlen_lia; rewrite bind_Ok; cbv beta iota).
  cbn [zlen]. unfold establishing_kind in Hk. rewrite Hk, Hd by zlen_lia. cbn [negb Z.eqb mbind result_bind].
  change (zlen [] =? 0) with true. cbn [negb].
  rewrite (proj2 (Z.eqb_neq _ _)); [done|]. destruct (Voters cfg); [done|zlen_lia].
Qed.

(** ** Decoding arbitrary bytes *)

Lemma reads_getLenPrefixed b Q :
  wf_bytes b →
  (∀ x r, wf_bytes x → wf_bytes r → zlen b = 4 + zlen x + zlen r → Q (x, r)) →
  reads (getLenPrefixed b) Q.
Proof.
  intros Hb HQ. unfold getLenPrefixed. repeat reads_step. apply HQ; [done|done|].
  bool_to_prop. zlen_lia.
Qed.

Definition member_wf (m : Member) : Prop := wf_bytes (m_ID m) ∧ wf_bytes (m_Address m).

Lemma decode_member_reads b :
  wf_bytes b →
  reads (decode_member b) (λ '(m, b'), member_wf m ∧ wf_bytes b' ∧ zlen b' ≤ zlen b - 8).
Proof.
  intros Hb. unfold decode_member. apply reads_bind, reads_getLenPrefixed; [done|].
  intros x r Hx Hr Hl. apply reads_bind, reads_getLenPrefixed; [done|].
  intros y r' Hy Hr' Hl'. simpl. repeat split; try done. zlen_lia.
Qed.

Definition config_wf (cfg : Configuration) : Prop :=
  Forall member_wf (Voters cfg) ∧ Forall member_wf (Learners cfg).

Lemma decodeConfiguration_reads b :
  wf_bytes b →
  reads (decodeConfiguration b) (λ cfg, config_wf cfg ∧
    8 * (zlen (Voters cfg) + zlen (Learners cfg)) + 8 ≤ zlen b).
Proof.
  intros Hb. unfold decodeConfiguration. repeat reads_step.
  eapply (reads_decode_n member_wf 8); [apply decode_member_reads|done|].
  intros vs r Hvs Hn Hr Hle. cbv beta iota. repeat reads_step.
  eapply (reads_decode_n member_wf 8); [apply decode_member_reads|done|].
  intros ls r' Hls Hn' Hr' Hle'. cbv beta iota. repeat reads_step.
  simpl. split; [by split|]. bool_to_prop. unfold zlen in *. lia.
Qed.

(** What the decoder accepts: known kinds only, at least one voter when a
    configuration is established, and members within the bytes. *)
Definition config_change_wf (b : bytes) (cc : ConfigChange) : Prop :=
  wf_bytes (cc_requestID cc) ∧ wf_bytes (cc_targetID cc) ∧ wf_bytes (cc_targetAddr cc) ∧
  config_wf (cc_cfg cc) ∧
  (if cc_establishes cc
   then establishing_kind (cc_kind cc) = true ∧ Voters (cc_cfg cc) ≠ []
   else cc = mkConfigChange membershipKindVoided [] [] [] no_config false) ∧
  8 * (zlen (Voters (cc_cfg cc)) + zlen (Learners (cc_cfg cc))) ≤ zlen b.

Lemma zlen_0_nil {A} (l : list A) : zlen l = 0 → l = [].
Proof. destruct l; [done|]. rewrite zlen_cons. pose proof (zlen_nonneg l). lia. Qed.

Lemma decodeConfigChange_reads b :
  wf_bytes b → reads (decodeConfigChange b) (config_change_wf b).
Proof.
  intros Hb. unfold decodeConfigChange. reads_step; [reads_step|].
  do 2 reads_step. reads_step; [reads_step|]. do 2 reads_step.
  apply reads_bind, reads_getLenPrefixed; [done|]. intros req r1 Hreq Hr1 Hl1.
  apply reads_bind, reads_getLenPrefixed; [done|]. intros tid r2 Htid Hr2 Hl2.
  apply reads_bind, reads_getLenPrefixed; [done|]. intros ta r3 Hta Hr3 Hl3.
  apply reads_bind, reads_getLenPrefixed; [done|]. intros cb r4 Hcb Hr4 Hl4.
  cbv beta iota. reads_step; [reads_step|]. reads_step.
  - apply reads_bind. eapply reads_mono; [by apply decodeConfiguration_reads|].
    intros cfg [Hcfg Hn]. reads_step; [reads_step|]. simpl.
    repeat (split; [done|]). split; [split; [done|]|].
    + cbn. intros Hnil. bool_to_prop. by rewrite Hnil in *.
    + simpl. zlen_lia.
  - reads_step; [|reads_step]. reads_step; [reads_step|]. bool_to_prop. simpl.
    repeat (split; [done|]). split.
    + cbn. f_equal; (done || by apply zlen_0_nil).
    + simpl. zlen_lia.
Qed.

(** ** Configurations as sets of identifiers *)

Definition ids (ms : list Member) : gset bytes := list_to_set (m_ID <$> ms).
Definition voter_ids (cfg : Configuration) : gset bytes := ids (Voters cfg).
Definition learner_ids (cfg : Configuration) : gset bytes := ids (Learners cfg).

(** Every server is listed once. *)
Definition config_ok (cfg : Configuration) : Prop :=
  NoDup (m_ID <$> Voters cfg ++ Learners cfg).
#[export] Instance config_ok_dec cfg : Decision (config_ok cfg).
Proof. unfold config_ok. apply _. Defined.

(** The four changes of one server, on sets of identifiers. *)
Inductive single_server_change (old new : Configuration) : Prop :=
| SSAddLearner x :
    x ∉ voter_ids old → x ∉ learner_ids old → voter_ids new = voter_ids old →
    learner_ids new = {[ x ]} ∪ learner_ids old → single_server_change old new
| SSPromote x :
    x ∉ voter_ids old → x ∈ learner_ids old → voter_ids new = {[ x ]} ∪ voter_ids old →
    learner_ids new = learner_ids old ∖ {[ x ]} → single_server_change old new
| SSRemoveVoter x :
    x ∈ voter_ids old → voter_ids new = voter_ids old ∖ {[ x ]} →
    voter_ids new ≠ ∅ → learner_ids new = learner_ids old → single_server_change old new
| SSRemoveLearner x :
    x ∈ learner_ids old → voter_ids new = voter_ids old →
    learner_ids new = learner_ids old ∖ {[ x ]} → single_server_change old new.

Lemma elem_of_ids ms x : x ∈ ids ms ↔ ∃ m, m ∈ ms ∧ m_ID m = x.
Proof. unfold ids. rewrite elem_of_list_to_set, list_elem_of_fmap. naive_solver. Qed.

Lemma ids_app a b : ids (a ++ b) = ids a ∪ ids b.
Proof. unfold ids. by rewrite fmap_app, list_to_set_app_L. Qed.

Lemma has_member_ids ms x : has_member ms x = true ↔ x ∈ ids ms.
Proof.
  unfold has_member. rewrite elem_of_ids, existsb_exists. split.
  - intros (m & Hm & H%bool_decide_eq_true). exists m. by rewrite list_elem_of_In.
  - intros (m & Hm & H). exists m. by rewrite <- list_elem_of_In, bool_decide_eq_true.
Qed.

Lemma config_ok_parts cfg :
  config_ok cfg ↔ NoDup (m_ID <$> Voters cfg) ∧ NoDup (m_ID <$> Learners cfg) ∧
    voter_ids cfg ## learner_ids cfg.
Proof.
  unfold config_ok. rewrite fmap_app, NoDup_app. unfold voter_ids, learner_ids, ids.
  split; intros (H1 & H2 & H3); (split; [done|]); [split; [done|]|split; [|done]]; set_solver.
Qed.

Lemma size_ids ms : NoDup (m_ID <$> ms) → size (ids ms) = length ms.
Proof. intros H. unfold ids. rewrite size_list_to_set by done. by rewrite length_fmap. Qed.

Lemma Majority_size cfg :
  NoDup (m_ID <$> Voters cfg) → Majority cfg = Z.of_nat (size (voter_ids cfg)) / 2 + 1.
Proof. intros H. unfold voter_ids. rewrite size_ids by done. done. Qed.

Lemma majorities_of_subsets (U A B : gset bytes) (a b : Z) :
  A ⊆ U → B ⊆ U → a ≤ Z.of_nat (size A) → b ≤ Z.of_nat (size B) → Z.of_nat (size U) < a + b →
  ∃ x, x ∈ A ∧ x ∈ B.
Proof.
  intros HA HB Ha Hb Hs. destruct (decide (A ∩ B = ∅)) as [He|Hne].
  - assert (size (A ∪ B) ≤ size U)%nat by (apply subseteq_size; set_solver).
    rewrite size_union in H by set_solver. lia.
  - apply set_choose_L in Hne as [x Hx]. exists x. set_solver.
Qed.

(** Majorities of the configurations before and after share a voter. *)
Lemma single_change_quorums old new A B :
  config_ok old → config_ok new → single_server_change old new →
  A ⊆ voter_ids old → B ⊆ voter_ids new →
  Majority old ≤ Z.of_nat (size A) → Majority new ≤ Z.of_nat (size B) →
  ∃ x, x ∈ A ∧ x ∈ B.
Proof.
  intros (Ho & _)%config_ok_parts (Hn & _)%config_ok_parts Hc HA HB Ma Mb.
  rewrite Majority_size in Ma, Mb by done.
  assert (HU : ∃ U, voter_ids old ⊆ U ∧ voter_ids new ⊆ U ∧
    (size U = size (voter_ids old) ∧ size U ≤ S (size (voter_ids new)) ∧ size (voter_ids new) ≤ size U ∨
     size U = size (voter_ids new) ∧ size U = S (size (voter_ids old)))%nat).
  { destruct Hc as [x H1 H2 Hv _|x H1 H2 Hv _|x H1 Hv H2 _|x H1 Hv _].
    - exists (voter_ids old). rewrite Hv. split; [done|]. split; [done|]. left. lia.
    - exists (voter_ids new). rewrite Hv. split; [set_solver|]. split; [done|]. right.
      rewrite size_union, size_singleton by set_solver. lia.
    - exists (voter_ids old). rewrite Hv. split; [done|]. split; [set_solver|]. left.
      rewrite size_difference by set_solver. rewrite size_singleton. lia.
    - exists (voter_ids old). rewrite Hv. split; [done|]. split; [done|]. left. lia. }
  destruct HU as (U & H1 & H2 & H3).
  eapply (majorities_of_subsets U A B); [set_solver|set_solver|exact Ma|exact Mb|].
  Z.to_euclidean_division_equations. lia.
Qed.

(** ** The transition check on real single-server changes *)

Lemma toMemberSet_foldl (ms : list Member) (s : gmap bytes Member) :
  (∀ k m, s !! k = Some m → m_ID m = k) →
  dom (foldl (λ s m, <[m_ID m := m]> s) s ms) = dom s ∪ ids ms ∧
  (∀ k m, foldl (λ s m, <[m_ID m := m]> s) s ms !! k = Some m → m_ID m = k).
Proof.
  revert s. induction ms as [|x ms IH]; intros s Hs; cbn [foldl].
  { split; [|done]. unfold ids. simpl. set_solver. }
  destruct (IH (<[m_ID x := x]> s)) as [H1 H2].
  { intros k m [[<- <-]|[_ H]]%lookup_insert_Some; [done|by apply Hs]. }
  split; [|done]. rewrite H1, dom_insert_L. unfold ids. simpl. set_solver.
Qed.

Lemma dom_toMemberSet ms : dom (toMemberSet ms) = ids ms.
Proof.
  unfold toMemberSet. destruct (toMemberSet_foldl ms ∅) as [-> _]; [|by rewrite dom_empty_L, union_empty_l_L].
  intros k m H. by rewrite lookup_empty in H.
Qed.

Lemma toMemberSet_key ms k m : toMemberSet ms !! k = Some m → m_ID m = k.
Proof.
  unfold toMemberSet. apply toMemberSet_foldl. intros k' m' H. by rewrite lookup_empty in H.
Qed.

Lemma size_toMemberSet ms : size (toMemberSet ms) = size (ids ms).
Proof. by rewrite <- size_dom, dom_toMemberSet. Qed.

Lemma toMemberSet_None ms k : toMemberSet ms !! k = None ↔ k ∉ ids ms.
Proof. by rewrite <- not_elem_of_dom, dom_toMemberSet. Qed.

(** With one more identifier, a new member is found. *)
Lemma oneAdded_found a b :
  size (ids b) = (size (ids a) + 1)%nat →
  ∃ m, oneAdded (toMemberSet a) (toMemberSet b) = Some m ∧ m_ID m ∈ ids b ∧ m_ID m ∉ ids a.
Proof.
  intros Hs. unfold oneAdded. rewrite !size_toMemberSet, bool_decide_true by done. cbn [negb].
  destruct (map_to_list (filter _ (toMemberSet b))) as [|[k m] l] eqn:E.
  - exfalso. apply map_to_list_empty_iff in E.
    assert (ids b ⊆ ids a) as Hsub%subseteq_size; [|lia].
    intros x Hx. destruct (decide (x ∈ ids a)) as [|Hn]; [done|]. exfalso.
    rewrite <- dom_toMemberSet in Hx. apply elem_of_dom in Hx as [m Hm].
    apply (map_filter_empty_not_lookup _ _ x m E); [|done]. by apply toMemberSet_None.
  - exists m. split; [done|].
    assert (Hin : (k, m) ∈ map_to_list (filter (λ kv, toMemberSet a !! kv.1 = None) (toMemberSet b)))
      by (rewrite E; left).
    apply elem_of_map_to_list, map_lookup_filter_Some in Hin as [Hm Hf]. cbn in Hf.
    rewrite (toMemberSet_key b k m Hm). split; [|by apply toMemberSet_None].
    rewrite <- dom_toMemberSet. apply elem_of_dom. by eexists.
Qed.

Lemma sameMemberIDs_true a b : ids a = ids b → sameMemberIDs (toMemberSet a) (toMemberSet b) = true.
Proof.
  intros H. unfold sameMemberIDs. rewrite !size_toMemberSet, !dom_toMemberSet, H.
  by rewrite !bool_decide_true.
Qed.

Lemma size_without (S : gset bytes) x : x ∈ S → size S = (size (S ∖ {[ x ]}) + 1)%nat.
Proof.
  intros Hx. rewrite size_difference, size_singleton by set_solver.
  assert (size ({[ x ]} : gset bytes) ≤ size S)%nat as Hsz by (apply subseteq_size; set_solver).
  rewrite size_singleton in Hsz. lia.
Qed.

(** Settle the size tests of the case analysis. *)
Ltac size_tests :=
  repeat (match goal with
  | |- context [bool_decide (@eq nat ?a ?b)] =>
      first [rewrite (bool_decide_true (a = b)) by lia | rewrite (bool_decide_false (a = b)) by lia]
  end; cbn [andb]).

Lemma classify_accepts old new :
  voter_ids old ## learner_ids old → voter_ids new ## learner_ids new →
  single_server_change old new → classifyTransition old new = true.
Proof.
  unfold voter_ids, learner_ids. intros Hdo Hdn Hc. unfold classifyTransition. cbv zeta.
  rewrite !dom_toMemberSet, !size_toMemberSet.
  rewrite (bool_decide_true (ids (Voters new) ∩ ids (Learners new) = ∅)) by set_solver. cbn [negb].
  destruct Hc as [x H1 H2 Hv Hl|x H1 H2 Hv Hl|x H1 Hv H2 Hl|x H1 Hv Hl];
    unfold voter_ids, learner_ids in *;
    pose proof (f_equal size Hv) as Sv; pose proof (f_equal size Hl) as Sl.
  - rewrite size_union, size_singleton in Sl by set_solver.
    assert (Hs : size (ids (Learners new)) = (size (ids (Learners old)) + 1)%nat) by lia.
    size_tests. rewrite sameMemberIDs_true by done.
    destruct (oneAdded_found _ _ Hs) as (m & -> & Hm1 & Hm2).
    apply bool_decide_eq_true, toMemberSet_None. set_solver.
  - rewrite size_union, size_singleton in Sv by set_solver.
    assert (Hs : size (ids (Voters new)) = (size (ids (Voters old)) + 1)%nat) by lia.
    assert (Hs' : size (ids (Learners old)) = (size (ids (Learners new)) + 1)%nat)
      by (by rewrite (size_without _ _ H2), <- Sl).
    size_tests. destruct (oneAdded_found _ _ Hs) as (m & -> & Hm1 & Hm2).
    unfold oneRemoved. destruct (oneAdded_found _ _ Hs') as (m' & -> & Hm1' & Hm2').
    assert (m_ID m = x) as -> by (clear - Hm1 Hm2 Hv; set_solver).
    assert (m_ID m' = x) as -> by (clear - Hm1' Hm2' Hl; destruct (decide (m_ID m' = x)); set_solver).
    rewrite !bool_decide_true; [done|clear - Hv; set_solver|done].
  - assert (Hs : size (ids (Voters old)) = (size (ids (Voters new)) + 1)%nat)
      by (rewrite Sv; by apply size_without).
    size_tests. rewrite sameMemberIDs_true by done. unfold oneRemoved.
    destruct (oneAdded_found _ _ Hs) as (m & -> & _). rewrite bool_decide_true by done.
    destruct (Nat.ltb_spec (size (ids (Voters new))) 1) as [Hlt|]; [|done].
    exfalso. apply H2, leibniz_equiv, size_empty_iff. lia.
  - assert (Hs : size (ids (Learners old)) = (size (ids (Learners new)) + 1)%nat)
      by (rewrite Sl; by apply size_without).
    size_tests. rewrite sameMemberIDs_true by done. unfold oneRemoved.
    destruct (oneAdded_found _ _ Hs) as (m & -> & _). by rewrite bool_decide_true.
Qed.

(** ** Changes the leader builds *)

Lemma ids_remove ms x : ids (removeMemberByID ms x) = ids ms ∖ {[ x ]}.
Proof.
  apply set_eq. intros y. rewrite elem_of_difference, elem_of_singleton, !elem_of_ids.
  unfold removeMemberByID. setoid_rewrite list_elem_of_filter. naive_solver.
Qed.

Lemma NoDup_filter_member (P : Member → Prop) `{!∀ m, Decision (P m)} ms :
  NoDup (m_ID <$> ms) → NoDup (m_ID <$> filter P ms).
Proof.
  induction ms as [|m ms IH]; intros Hd; [constructor|].
  rewrite filter_cons. cbn in Hd. apply NoDup_cons in Hd as [H1 H2]. case_decide; [|by apply IH].
  cbn. constructor; [|by apply IH]. intros Hin. apply H1.
  apply list_elem_of_fmap in Hin as (y & Hy & [_ Hin]%list_elem_of_filter). rewrite Hy.
  by apply list_elem_of_fmap_2.
Qed.

Lemma NoDup_remove_member ms x : NoDup (m_ID <$> ms) → NoDup (m_ID <$> removeMemberByID ms x).
Proof. apply NoDup_filter_member. Qed.

Lemma findMemberByID_Some ms x m : findMemberByID ms x = Some m → m ∈ ms ∧ m_ID m = x.
Proof.
  unfold findMemberByID. intros H. apply fmap_Some in H as ([i m'] & H & ->).
  apply list_find_Some in H as (Hl & Hx & _). cbn in *. split; [by eapply list_elem_of_lookup_2|done].
Qed.

Lemma ids_snoc ms m : ids (appendMember ms m) = {[ m_ID m ]} ∪ ids ms.
Proof. unfold appendMember. rewrite ids_app. unfold ids. simpl. set_solver. Qed.

Lemma NoDup_snoc_member ms m :
  NoDup (m_ID <$> ms) → m_ID m ∉ ids ms → NoDup (m_ID <$> appendMember ms m).
Proof.
  intros H Hm. unfold appendMember. rewrite fmap_app. apply NoDup_app. split; [done|].
  split; [|apply NoDup_singleton]. unfold ids in Hm. set_solver.
Qed.

Lemma build_single_change cur kind tid taddr new :
  config_ok cur → buildNewConfiguration cur kind tid taddr = Ok new → Voters new ≠ [] →
  config_ok new ∧ single_server_change cur new.
Proof.
  rewrite !config_ok_parts. intros (Hv & Hl & Hd) Hb Hne.
  unfold voter_ids, learner_ids in Hd. destruct kind; cbn [buildNewConfiguration] in Hb.
  - unfold IsMember, IsVoter, IsLearner in Hb. destruct (has_member _ _ || has_member _ _) eqn:E; [done|].
    injection Hb as <-. apply orb_false_iff in E as [E1%not_true_iff_false E2%not_true_iff_false].
    rewrite has_member_ids in E1, E2. split.
    + split; [done|]. split; [by apply NoDup_snoc_member|].
      unfold voter_ids, learner_ids. cbn [Voters Learners]. rewrite ids_snoc. set_solver.
    + apply (SSAddLearner _ _ tid); [done|done|done|]. unfold learner_ids. cbn [Voters Learners]. by rewrite ids_snoc.
  - destruct (findMemberByID (Learners cur) tid) as [m|] eqn:E; [|done]. injection Hb as <-.
    apply findMemberByID_Some in E as [Hm <-].
    assert (Hin : m_ID m ∈ ids (Learners cur)) by (apply elem_of_ids; eauto).
    assert (Hout : m_ID m ∉ ids (Voters cur)) by set_solver.
    split.
    + split; [by apply NoDup_snoc_member|]. split; [by apply NoDup_remove_member|].
      unfold voter_ids, learner_ids. cbn [Voters Learners]. rewrite ids_snoc, ids_remove. set_solver.
    + apply (SSPromote _ _ (m_ID m)); [done|done| |]; unfold voter_ids, learner_ids; cbn [Voters Learners].
      * by rewrite ids_snoc.
      * by rewrite ids_remove.
  - unfold IsVoter, IsLearner in Hb. destruct (has_member (Voters cur) tid) eqn:E1.
    + injection Hb as <-. apply has_member_ids in E1. split.
      * split; [by apply NoDup_remove_member|]. split; [done|].
        unfold voter_ids, learner_ids. cbn [Voters Learners]. rewrite ids_remove. set_solver.
      * apply (SSRemoveVoter _ _ tid); [done| | |done]; unfold voter_ids; cbn [Voters] in *.
        -- by rewrite ids_remove.
        -- destruct (removeMemberByID (Voters cur) tid) as [|m l]; [done|]. unfold ids. simpl. set_solver.
    + destruct (has_member (Learners cur) tid) eqn:E2; [|done]. injection Hb as <-.
      apply has_member_ids in E2. split.
      * split; [done|]. split; [by apply NoDup_remove_member|].
        unfold voter_ids, learner_ids. cbn [Voters Learners]. rewrite ids_remove. set_solver.
      * apply (SSRemoveLearner _ _ tid); [done|done|]. unfold learner_ids. cbn [Voters Learners]. by rewrite ids_remove.
Qed.

(** ** Properties of membership changes *)

(** The payload of a configuration entry survives the log.  Decoding what
    [encodeConfigChange] wrote for one of the three establishing kinds gives
    back the kind, the request, the target and the exact configuration, as
    long as it has a voter and fits 4 GiB; the voided payload decodes to a
    change that establishes nothing.  On arbitrary bytes the decoder never
    indexes out of range; what it accepts has a known kind, at least one voter
    when it establishes a configuration, is exactly the empty voided change
    otherwise, and never claims more members than the bytes can hold. *)
Theorem config_change_roundtrip kind req tid taddr cfg :
  establishing_kind kind = true → Voters cfg ≠ [] →
  zlen (encodeConfigChange kind req tid taddr cfg) < 2 ^ 32 →
  decodeConfigChange (encodeConfigChange kind req tid taddr cfg) =
    Ok (mkConfigChange kind req tid taddr cfg true) ∧
  decodeConfigChange EncodeVoidedEntryConfigPayload =
    Ok (mkConfigChange membershipKindVoided [] [] [] no_config false) ∧
  (∀ b, wf_bytes b → reads (decodeConfigChange b) (config_change_wf b)).
Proof.
  intros Hk Hv Hl. split; [by apply decode_encode_config_change|]. split; [by vm_compute|exact decodeConfigChange_reads].
Qed.

Definition demo_config : Configuration :=
  mkConfiguration [mkMember [97] [1]; mkMember [98] [2]; mkMember [99] [3]] [mkMember [100] [4]].

Lemma config_change_roundtrip_witness :
  decodeConfigChange (encodeConfigChange 17 [114] [100] [4] demo_config) =
    Ok (mkConfigChange 17 [114] [100] [4] demo_config true).
Proof.
  apply (config_change_roundtrip 17 [114] [100] [4] demo_config); [reflexivity|discriminate|].
  vm_compute. reflexivity.
Defined.

(** Every configuration the leader builds for a membership change is a
    change of one server, keeps every server listed once, passes the
    transition check that all replicas repeat, and every majority of the old
    voters shares a server with every majority of the new ones. *)
Theorem built_change_keeps_quorums cur kind tid taddr new :
  config_ok cur → buildNewConfiguration cur kind tid taddr = Ok new → Voters new ≠ [] →
  config_ok new ∧ single_server_change cur new ∧ classifyTransition cur new = true ∧
  ∀ A B, A ⊆ voter_ids cur → B ⊆ voter_ids new →
    Majority cur ≤ Z.of_nat (size A) → Majority new ≤ Z.of_nat (size B) → ∃ x, x ∈ A ∧ x ∈ B.
Proof.
  intros Hok Hb Hne. destruct (build_single_change cur kind tid taddr new Hok Hb Hne) as [Hn Hc].
  split; [done|]. split; [done|]. split.
  - apply classify_accepts; [by apply config_ok_parts..|done].
  - intros A B. by apply single_change_quorums.
Qed.

Lemma built_change_keeps_quorums_witness :
  classifyTransition demo_config
    (mkConfiguration (Voters demo_config ++ Learners demo_config) []) = true.
Proof.
  apply (built_change_keeps_quorums demo_config PromoteToVoterChange [100] []);
    [apply (bool_decide_unpack _); vm_compute; exact I|reflexivity|discriminate].
Defined.

(** The transition check accepts configurations that are not
    single-server changes.  It compares cardinalities and looks for one
    removed voter, but never that the other voters stayed, so the followers'
    re-check accepts a change after which a majority of the old voters and a
    majority of the new ones have no server in common. *)
Theorem classify_accepts_disjoint_quorums :
  ∃ old new, config_ok old ∧ config_ok new ∧ classifyTransition old new = true ∧
    ¬ single_server_change old new ∧
    ∃ A B, A ⊆ voter_ids old ∧ B ⊆ voter_ids new ∧ Majority old ≤ Z.of_nat (size A) ∧
      Majority new ≤ Z.of_nat (size B) ∧ A ## B.
Proof.
  set (old := mkConfiguration [mkMember [97] []; mkMember [98] []; mkMember [99] []] []).
  set (new := mkConfiguration [mkMember [100] []; mkMember [101] []] []).
  exists old, new.
  assert (Ho : config_ok old) by (apply (bool_decide_unpack _); vm_compute; exact I).
  assert (Hn : config_ok new) by (apply (bool_decide_unpack _); vm_compute; exact I).
  assert (HA : voter_ids old ∩ voter_ids new = ∅) by (by vm_compute).
  split; [done|]. split; [done|]. split; [by vm_compute|].
  assert (HM : Majority old ≤ Z.of_nat (size (voter_ids old)) ∧
               Majority new ≤ Z.of_nat (size (voter_ids new))) by (by vm_compute).
  split.
  - intros Hc. destruct HM as [HM1 HM2].
    destruct (single_change_quorums old new (voter_ids old) (voter_ids new) Ho Hn Hc)
      as (x & H1 & H2); [done..|]. clear - HA H1 H2. set_solver.
  - exists (voter_ids old), (voter_ids new). split; [done|]. split; [done|].
    split; [apply HM|]. split; [apply HM|]. clear - HA. set_solver.
Qed.
