(* ===== verification/RaftCore.v ===== *)
(** * The Raft core ([internal/raft/core.go], and the state-dependent half of
    [membership.go])

    [Core] is the single-threaded protocol state machine: [Step] takes one
    input and returns the new state with the outputs for the driver.  Slices
    and maps keep their panics: a slice bound, a write to a nil map and each
    explicit [panic] of the code is an [Err].  [log] holds a sentinel at
    position 0 for the snapshot boundary; an index is converted to a
    position by subtracting the boundary. *)

From S2P Require Import Prelude Bytes RaftTypes RaftMembership.

Inductive pendingKind := pendingVoteGrant | pendingAppendAck | pendingCommitAdvance | pendingSelfMatch.
#[export] Instance pendingKind_eq_dec : EqDecision pendingKind.
Proof. solve_decision. Defined.

Record pendingItem := mkPending {
  p_kind : pendingKind;
  p_seq : Z;
  p_term : Z;
  p_candidate : NodeID;
  p_to : NodeID;
  p_index : Z;
  p_entryTerm : Z
}.

Record Core := mkCore {
  c_cfg : Config;
  c_role : Role;
  c_currentTerm : Z;
  c_votedFor : NodeID;
  c_leaderID : NodeID;
  c_log : list Entry;
  c_snapshotIndex : Z;
  c_snapshotTerm : Z;
  c_commitIndex : Z;
  c_appliedIndex : Z;
  c_nextIndex : option (gmap bytes Z);
  c_matchIndex : option (gmap bytes Z);
  c_votesReceived : option (gmap bytes bool);
  c_persistSeq : Z;
  c_persistedSeq : Z;
  c_pending : list pendingItem;
  c_activeConfig : Configuration;
  c_activeConfigIndex : Z;
  c_snapshotConfig : Configuration;
  c_snapshotHasConfig : bool;
  c_bootstrapConfig : Configuration;
  c_pendingConfIndex : Z;
  c_heardFromLeader : bool;
  c_skipP1ForTest : bool
}.
#[export] Instance Core_eta : Eta Core := λ c,
  mkCore (c_cfg c) (c_role c) (c_currentTerm c) (c_votedFor c) (c_leaderID c) (c_log c)
    (c_snapshotIndex c) (c_snapshotTerm c) (c_commitIndex c) (c_appliedIndex c) (c_nextIndex c)
    (c_matchIndex c) (c_votesReceived c) (c_persistSeq c) (c_persistedSeq c) (c_pending c)
    (c_activeConfig c) (c_activeConfigIndex c) (c_snapshotConfig c) (c_snapshotHasConfig c)
    (c_bootstrapConfig c) (c_pendingConfIndex c) (c_heardFromLeader c) (c_skipP1ForTest c).

(** Named setters of [Core], so that updated states stay small terms. *)
#[export] Instance set_c_cfg : Setter c_cfg.
Proof. derive_setter. Defined.
#[export] Instance set_c_role : Setter c_role.
Proof. derive_setter. Defined.
#[export] Instance set_c_currentTerm : Setter c_currentTerm.
Proof. derive_setter. Defined.
#[export] Instance set_c_votedFor : Setter c_votedFor.
Proof. derive_setter. Defined.
#[export] Instance set_c_leaderID : Setter c_leaderID.
Proof. derive_setter. Defined.
#[export] Instance set_c_log : Setter c_log.
Proof. derive_setter. Defined.
#[export] Instance set_c_snapshotIndex : Setter c_snapshotIndex.
Proof. derive_setter. Defined.
#[export] Instance set_c_snapshotTerm : Setter c_snapshotTerm.
Proof. derive_setter. Defined.
#[export] Instance set_c_commitIndex : Setter c_commitIndex.
Proof. derive_setter. Defined.
#[export] Instance set_c_appliedIndex : Setter c_appliedIndex.
Proof. derive_setter. Defined.
#[export] Instance set_c_nextIndex : Setter c_nextIndex.
Proof. derive_setter. Defined.
#[export] Instance set_c_matchIndex : Setter c_matchIndex.
Proof. derive_setter. Defined.
#[export] Instance set_c_votesReceived : Setter c_votesReceived.
Proof. derive_setter. Defined.
#[export] Instance set_c_persistSeq : Setter c_persistSeq.
Proof. derive_setter. Defined.
#[export] Instance set_c_persistedSeq : Setter c_persistedSeq.
Proof. derive_setter. Defined.
#[export] Instance set_c_pending : Setter c_pending.
Proof. derive_setter. Defined.
#[export] Instance set_c_activeConfig : Setter c_activeConfig.
Proof. derive_setter. Defined.
#[export] Instance set_c_activeConfigIndex : Setter c_activeConfigIndex.
Proof. derive_setter. Defined.
#[export] Instance set_c_snapshotConfig : Setter c_snapshotConfig.
Proof. derive_setter. Defined.
#[export] Instance set_c_snapshotHasConfig : Setter c_snapshotHasConfig.
Proof. derive_setter. Defined.
#[export] Instance set_c_bootstrapConfig : Setter c_bootstrapConfig.
Proof. derive_setter. Defined.
#[export] Instance set_c_pendingConfIndex : Setter c_pendingConfIndex.
Proof. derive_setter. Defined.
#[export] Instance set_c_heardFromLeader : Setter c_heardFromLeader.
Proof. derive_setter. Defined.
#[export] Instance set_c_skipP1ForTest : Setter c_skipP1ForTest.
Proof. derive_setter. Defined.

Definition self (c : Core) : NodeID := cfg_ID (c_cfg c).

(** ** The log *)

Definition pos (c : Core) (i : Z) : Z := i - c_snapshotIndex c.
Definition lastIndex (c : Core) : Z := c_snapshotIndex c + (zlen (c_log c) - 1).

(** [c.log[p]] *)
Definition log_at (c : Core) (p : Z) : result raft_panic Entry :=
  if p <? 0 then Err PanicBounds else
  match c_log c !! Z.to_nat p with Some e => Ok e | None => Err PanicBounds end.

(** [c.log[a:b]] *)
Definition log_slice (c : Core) (a b : Z) : result raft_panic (list Entry) :=
  if (a <? 0) || (b <? a) || (zlen (c_log c) <? b) then Err PanicBounds
  else Ok (take (Z.to_nat (b - a)) (drop (Z.to_nat a) (c_log c))).

(** The log is never empty (the sentinel), so the last entry exists. *)
Definition lastTerm (c : Core) : Z :=
  match last (c_log c) with Some e => e_Term e | None => 0 end.

Definition termAt (c : Core) (i : Z) : Z :=
  if i <? c_snapshotIndex c then 0 else
  match c_log c !! Z.to_nat (pos c i) with Some e => e_Term e | None => 0 end.

Definition isLogUpToDate (c : Core) (otherLastIndex otherLastTerm : Z) : bool :=
  let myTerm := lastTerm c in
  if negb (otherLastTerm =? myTerm) then myTerm <? otherLastTerm
  else lastIndex c <=? otherLastIndex.

Definition entryStillPresent (c : Core) (index term : Z) : bool :=
  let p := pos c index in
  (0 <=? p) && (p <? zlen (c_log c)) &&
  match c_log c !! Z.to_nat p with Some e => e_Term e =? term | None => false end.

(** ** Configurations in the log *)

Fixpoint configAt_loop (fuel : nat) (log : list Entry) (snap idx : Z) : option (Configuration * Z) :=
  match fuel with
  | O => None
  | S fuel =>
      if idx <=? snap then None else
      match log !! Z.to_nat (idx - snap) with
      | Some e =>
          if bool_decide (e_Type e = EntryConfig) then
            match established (e_Data e) with
            | Some cfg => Some (cfg, idx)
            | None => configAt_loop fuel log snap (idx - 1)
            end
          else configAt_loop fuel log snap (idx - 1)
      | None => configAt_loop fuel log snap (idx - 1)
      end
  end.

(** The loop runs from [i] down to the snapshot boundary. *)
Definition ConfigAt (c : Core) (i : Z) : Configuration * Z :=
  match configAt_loop (Z.to_nat (i - c_snapshotIndex c)) (c_log c) (c_snapshotIndex c) i with
  | Some r => r
  | None => (if c_snapshotHasConfig c then c_snapshotConfig c else c_bootstrapConfig c, 0)
  end.

Definition neverJoined (c : Core) : bool := IsZero (c_activeConfig c).
Definition selfRemoved (c : Core) : bool :=
  negb (IsZero (c_activeConfig c)) && negb (IsMember (c_activeConfig c) (self c)).

(** ** Construction *)

Inductive new_error := ErrInvalidConfig.

Fixpoint gap_free (want : Z) (es : list Entry) : bool :=
  match es with
  | [] => true
  | e :: es => (e_Index e =? want) && gap_free (want + 1)%u64 es
  end.

Definition NewCoreFromSnapshot (cfg : Config) (hs : HardState) (snapshotIndex snapshotTerm : Z)
    (snapshotConfig : Configuration) (snapshotHasConfig : bool) (entries : list Entry)
    : result new_error Core :=
  if negb (validate cfg) then Err ErrInvalidConfig else
  if negb (gap_free (snapshotIndex + 1)%u64 entries) then Err ErrInvalidConfig else
  let c := mkCore cfg Follower (hs_CurrentTerm hs) (hs_VotedFor hs) []
             (mkEntry snapshotIndex snapshotTerm EntryNormal [] :: entries)
             snapshotIndex snapshotTerm snapshotIndex snapshotIndex (Some ∅) (Some ∅) (Some ∅)
             0 0 [] no_config 0 snapshotConfig snapshotHasConfig (cfg_Bootstrap cfg) 0 false false in
  let '(active, idx) := ConfigAt c (lastIndex c) in
  Ok (c <| c_activeConfig := active |> <| c_activeConfigIndex := idx |>).

Definition NewCore (cfg : Config) (hs : HardState) (entries : list Entry) : result new_error Core :=
  NewCoreFromSnapshot cfg hs 0 0 no_config false entries.

(** ** Small state changes *)

Definition SetApplied (c : Core) (idx : Z) : Core :=
  if c_appliedIndex c <? idx then c <| c_appliedIndex := idx |> else c.

(** The state [Compact] builds from the kept entries. *)
Definition compact_to (c : Core) (n : Z) (t : Z) (cfg : Configuration) (rest : list Entry) : Core :=
  let c := c <| c_log := mkEntry n t EntryNormal [] :: rest |>
             <| c_snapshotIndex := n |> <| c_snapshotTerm := t |>
             <| c_snapshotConfig := cfg |> <| c_snapshotHasConfig := true |> in
  if c_activeConfigIndex c <=? n then c <| c_activeConfigIndex := 0 |> else c.

Definition Compact (c : Core) (uptoIndex : Z) : result raft_panic (Core * bool) :=
  if (uptoIndex <=? c_snapshotIndex c) || (c_appliedIndex c <? uptoIndex) then Ok (c, false) else
  let '(cfg, _) := ConfigAt c uptoIndex in
  let p := pos c uptoIndex in
  e ← log_at c p;
  rest ← log_slice c (p + 1) (zlen (c_log c));
  Ok (compact_to c uptoIndex (e_Term e) cfg rest, true).

Definition SetSkipP1GateForTest (c : Core) (skip : bool) : Core := c <| c_skipP1ForTest := skip |>.

(** The entries above the boundary, a copy. *)
Definition Entries (c : Core) : list Entry := drop 1 (c_log c).

Definition EntryAt (c : Core) (i : Z) : option Entry :=
  if i <=? c_snapshotIndex c then None else
  let p := pos c i in
  if (p <? 0) || (zlen (c_log c) <=? p) then None else c_log c !! Z.to_nat p.

Definition nextPersistSeq (c : Core) : Core * Z :=
  let seq := (c_persistSeq c + 1)%u64 in (c <| c_persistSeq := seq |>, seq).

Definition stepDownTo (c : Core) (term : Z) : Core * bool :=
  let was := bool_decide (c_role c = Leader) || bool_decide (c_role c = Candidate) in
  (c <| c_role := Follower |> <| c_currentTerm := term |> <| c_votedFor := noVote |>
     <| c_leaderID := [] |> <| c_votesReceived := None |> <| c_heardFromLeader := false |>, was).

Definition keeps_pending (from : Z) (p : pendingItem) : bool :=
  match p_kind p with
  | pendingVoteGrant => true
  | _ => negb (from <=? p_index p)
  end.

Definition invalidatePendingFrom (c : Core) (from : Z) : Core :=
  c <| c_pending := filter (λ p, keeps_pending from p = true) (c_pending c) |>.

Definition hard_state (c : Core) : HardState := mkHardState (c_currentTerm c) (c_votedFor c).

(** The repeated [seq := c.nextPersistSeq(); hs := ...; out.PersistRequest =
    &PersistRequest{Seq: seq, HardState: &hs}]. *)
Definition persist_hard_state (c : Core) (out : Output) : Core * Output :=
  let '(c, seq) := nextPersistSeq c in
  (c, out <| out_PersistRequest := Some (mkPersistRequest seq (Some (hard_state c)) 0 []) |>).

Definition reset_election_timer (c : Core) (intn : Z → Z) (out : Output) : Output :=
  out <| out_ResetElectionTimer := true |>
      <| out_ElectionTimeoutTicks := electionTimeout (c_cfg c) intn |>.

(** ** Replication *)

Definition appendEntriesMessage (c : Core) (peer : NodeID) : result raft_panic (Core * Message) :=
  let next := map_read 0 (c_nextIndex c) peer in
  let next := if next <? 1 then 1 else next in
  if next <=? c_snapshotIndex c then
    Ok (c, (message MsgInstallSnapshotRequest (self c) peer (c_currentTerm c))
             <| m_LastIncludedIndex := c_snapshotIndex c |>
             <| m_LastIncludedTerm := c_snapshotTerm c |>
             <| m_Configuration := c_snapshotConfig c |>
             <| m_HasConfiguration := c_snapshotHasConfig c |>)
  else
    let prevIndex := next - 1 in
    let prevTerm := termAt c prevIndex in
    '(entries, newNext) ←
      (if next <=? lastIndex c then
         es ← log_slice c (pos c next) (zlen (c_log c)); Ok (es, (lastIndex c + 1)%u64)
       else Ok ([], next));
    nextIndex ← map_write (c_nextIndex c) peer newNext;
    Ok (c <| c_nextIndex := nextIndex |>,
        (message MsgAppendEntriesRequest (self c) peer (c_currentTerm c))
          <| m_PrevLogIndex := prevIndex |> <| m_PrevLogTerm := prevTerm |>
          <| m_Entries := entries |> <| m_LeaderCommit := c_commitIndex c |>).

(** One replication message to each member of [ms]; [skipSelf] for the voter
    loops. *)
Fixpoint replicate_to (skipSelf : bool) (ms : list Member) (c : Core) (out : Output)
    : result raft_panic (Core * Output) :=
  match ms with
  | [] => Ok (c, out)
  | m :: ms =>
      if skipSelf && bool_decide (m_ID m = self c) then replicate_to skipSelf ms c out else
      '(c, msg) ← appendEntriesMessage c (m_ID m);
      replicate_to skipSelf ms c (send msg out)
  end.

Definition broadcast (c : Core) (out : Output) : result raft_panic (Core * Output) :=
  let cfg := c_activeConfig c in
  '(c, out) ← replicate_to true (Voters cfg) c out;
  replicate_to false (Learners cfg) c out.

Definition initReplicationStateFor (prevLast : Z) (c : Core) (m : Member) : result raft_panic Core :=
  nextIndex ← (match c_nextIndex c ≫= (λ x, x !! m_ID m) with
               | Some _ => Ok (c_nextIndex c)
               | None => map_write (c_nextIndex c) (m_ID m) (prevLast + 1)%u64
               end);
  matchIndex ← (match c_matchIndex c ≫= (λ x, x !! m_ID m) with
                | Some _ => Ok (c_matchIndex c)
                | None => map_write (c_matchIndex c) (m_ID m) 0
                end);
  Ok (c <| c_nextIndex := nextIndex |> <| c_matchIndex := matchIndex |>).

Fixpoint fold_result {A} (f : Core → A → result raft_panic Core) (c : Core) (l : list A)
    : result raft_panic Core :=
  match l with [] => Ok c | x :: l => c ← f c x; fold_result f c l end.

(** [c.activeConfig = cfg] and the progress entries of its members. *)
Definition activate_leader_config (prevLast idx : Z) (cfg : Configuration) (c : Core)
    : result raft_panic Core :=
  c ← fold_result (initReplicationStateFor prevLast)
        (c <| c_activeConfig := cfg |> <| c_activeConfigIndex := idx |>) (Voters cfg);
  fold_result (initReplicationStateFor prevLast) c (Learners cfg).

(** The persistence sequence number and the pending self-acknowledgement of a
    leader's own entry. *)
Definition await_self_match (c : Core) (idx : Z) : Core * Z :=
  let '(c, seq) := nextPersistSeq c in
  (c <| c_pending := c_pending c ++
      [mkPending pendingSelfMatch seq (c_currentTerm c) [] [] idx (c_currentTerm c)] |>, seq).

Definition appendLeaderEntry (c : Core) (t : EntryType) (data : bytes)
    : result raft_panic (Core * Output) :=
  let prevLast := lastIndex c in
  let idx := (prevLast + 1)%u64 in
  let entry := mkEntry idx (c_currentTerm c) t data in
  matchIndex ← map_write (c_matchIndex c) (self c) idx;
  let c := c <| c_log := c_log c ++ [entry] |> <| c_matchIndex := matchIndex |> in
  c ← (if bool_decide (t = EntryConfig) then
         match established data with
         | None => Err PanicConfigPayload
         | Some cfg => activate_leader_config prevLast idx cfg c
         end
       else Ok c);
  let '(c, seq) := await_self_match c idx in
  broadcast c (no_output <| out_PersistRequest := Some (mkPersistRequest seq None 0 [entry]) |>).

(** ** Leadership *)

Definition init_progress (last : Z) (ms : list Member) (p : gmap bytes Z * gmap bytes Z)
    : gmap bytes Z * gmap bytes Z :=
  foldl (λ p m, (<[m_ID m := (last + 1)%u64]> p.1, <[m_ID m := 0]> p.2)) p ms.

Definition becomeLeader (c : Core) (out : Output) : result raft_panic (Core * Output) :=
  let last := lastIndex c in
  let '(next, mtch) := init_progress last (Learners (c_activeConfig c))
                         (init_progress last (Voters (c_activeConfig c)) (∅, ∅)) in
  let c := c <| c_role := Leader |> <| c_leaderID := self c |> <| c_votesReceived := None |>
             <| c_pendingConfIndex := last |>
             <| c_nextIndex := Some next |> <| c_matchIndex := Some (<[self c := last]> mtch) |> in
  broadcast c (out <| out_BecameLeader := true |> <| out_ResetHeartbeatTimer := true |>
                   <| out_HeartbeatTimeoutTicks := cfg_HeartbeatTimeoutTicks (c_cfg c) |>).

Definition votes_count (c : Core) : Z :=
  match c_votesReceived c with Some v => Z.of_nat (size v) | None => 0 end.

Definition become_candidate (c : Core) : Core :=
  c <| c_role := Candidate |> <| c_currentTerm := (c_currentTerm c + 1)%u64 |>
    <| c_votedFor := self c |> <| c_leaderID := [] |>
    <| c_votesReceived := Some {[ self c := true ]} |>.

(** A vote request to every other voter. *)
Definition request_votes (c : Core) (out : Output) : Output :=
  foldl (λ out m,
    if bool_decide (m_ID m = self c) then out else
    send ((message MsgRequestVoteRequest (self c) (m_ID m) (c_currentTerm c))
            <| m_LastLogIndex := lastIndex c |> <| m_LastLogTerm := lastTerm c |>) out)
    out (Voters (c_activeConfig c)).

Definition handleElectionTimeout (intn : Z → Z) (c : Core) : result raft_panic (Core * Output) :=
  if bool_decide (c_role c = Leader) then Ok (c, no_output) else
  let c := c <| c_heardFromLeader := false |> in
  if negb (IsVoter (c_activeConfig c) (self c)) then Ok (c, no_output) else
  let '(c, out) := persist_hard_state (become_candidate c) no_output in
  let out := request_votes c (reset_election_timer c intn out) in
  if Majority (c_activeConfig c) <=? votes_count c then becomeLeader c out else Ok (c, out).

Definition handleHeartbeatTimeout (c : Core) : result raft_panic (Core * Output) :=
  if negb (bool_decide (c_role c = Leader)) then Ok (c, no_output) else
  broadcast c (no_output <| out_ResetHeartbeatTimer := true |>
                 <| out_HeartbeatTimeoutTicks := cfg_HeartbeatTimeoutTicks (c_cfg c) |>).

Definition handlePropose (c : Core) (data : bytes) : result raft_panic (Core * Output) :=
  if negb (bool_decide (c_role c = Leader)) then
    Ok (c, no_output <| out_ProposalRejected := true |> <| out_LeaderHint := c_leaderID c |>)
  else appendLeaderEntry c EntryNormal data.

(** ** Commit advancement *)

Definition commit_slice (c : Core) (newCommit : Z) : result raft_panic (list Entry) :=
  let start := (c_commitIndex c + 1)%u64 in
  let start := if start <=? c_snapshotIndex c then c_snapshotIndex c + 1 else start in
  log_slice c (pos c start) (pos c newCommit + 1).

Definition advanceFollowerCommit (c : Core) (newCommit : Z) (out : Output)
    : result raft_panic (Core * Output) :=
  let newCommit := if lastIndex c <? newCommit then lastIndex c else newCommit in
  if newCommit <=? c_commitIndex c then Ok (c, out) else
  es ← commit_slice c newCommit;
  Ok (c <| c_commitIndex := newCommit |>,
      out <| out_CommittedEntries := out_CommittedEntries out ++ es |>).

Definition maybeStepDownAfterSelfRemoval (c : Core) (out : Output) : Core * Output :=
  if negb (bool_decide (c_role c = Leader)) || IsVoter (c_activeConfig c) (self c)
     || (c_commitIndex c <? c_activeConfigIndex c) then (c, out) else
  (c <| c_role := Follower |> <| c_leaderID := [] |> <| c_nextIndex := None |>
     <| c_matchIndex := None |> <| c_votesReceived := None |>,
   out <| out_SteppedDown := true |>).

Definition match_count (c : Core) (n : Z) : Z :=
  zlen (filter (λ v, n ≤ map_read 0 (c_matchIndex c) (m_ID v)) (Voters (c_activeConfig c))).

Fixpoint advance_loop (fuel : nat) (c : Core) (n : Z) (out : Output)
    : result raft_panic (Core * Output) :=
  match fuel with
  | O => Ok (c, out)
  | S fuel =>
      if n <=? c_commitIndex c then Ok (c, out)
      else if negb (termAt c n =? c_currentTerm c) then advance_loop fuel c (n - 1) out
      else if Majority (c_activeConfig c) <=? match_count c n then
        es ← commit_slice c n;
        Ok (maybeStepDownAfterSelfRemoval (c <| c_commitIndex := n |>)
              (out <| out_CommittedEntries := out_CommittedEntries out ++ es |>))
      else advance_loop fuel c (n - 1) out
  end.

(** The loop runs from the last index down to the commit index. *)
Definition advanceLeaderCommit (c : Core) (out : Output) : result raft_panic (Core * Output) :=
  advance_loop (Z.to_nat (lastIndex c - c_commitIndex c)) c (lastIndex c) out.

(** ** Votes *)

(** The [msg.Term > c.currentTerm] branch of the three response handlers. *)
Definition newer_term_response (intn : Z → Z) (c : Core) (term : Z) (out : Output) : Core * Output :=
  let '(c, was) := stepDownTo c term in
  let out := if was then reset_election_timer c intn (out <| out_SteppedDown := true |>) else out in
  persist_hard_state c out.

Definition vote_reply (c : Core) (to : NodeID) (granted : bool) : Message :=
  (message MsgRequestVoteResponse (self c) to (c_currentTerm c)) <| m_VoteGranted := granted |>.

(** [if c.stepDownTo(term) { out.SteppedDown = true }], under a condition. *)
Definition step_down_if (b : bool) (c : Core) (term : Z) (out : Output) : Core * Output :=
  if b then let '(c, was) := stepDownTo c term in
            (c, if was then out <| out_SteppedDown := true |> else out)
  else (c, out).

Definition can_vote (c : Core) (msg : Message) : bool :=
  (bool_decide (c_votedFor c = noVote) || bool_decide (c_votedFor c = m_From msg))
  && IsVoter (c_activeConfig c) (self c)
  && isLogUpToDate c (m_LastLogIndex msg) (m_LastLogTerm msg).

Definition grant_vote (intn : Z → Z) (c : Core) (msg : Message) (out : Output) : Core * Output :=
  let c := c <| c_votedFor := m_From msg |> in
  let out := reset_election_timer c intn out in
  let '(c, seq) := nextPersistSeq c in
  let out := out <| out_PersistRequest :=
               Some (mkPersistRequest seq (Some (hard_state c)) 0 []) |> in
  (c <| c_pending := c_pending c ++
          [mkPending pendingVoteGrant seq (c_currentTerm c) (m_From msg) [] 0 0] |>, out).

Definition refuse_vote (intn : Z → Z) (newer : bool) (c : Core) (msg : Message) (out : Output)
    : Core * Output :=
  let out := send (vote_reply c (m_From msg) false) out in
  if newer then
    let '(c, out) := persist_hard_state c out in
    (c, if out_SteppedDown out then reset_election_timer c intn out else out)
  else (c, out).

Definition handleRequestVoteRequest (intn : Z → Z) (c : Core) (msg : Message) : Core * Output :=
  let out := no_output in
  if negb (IsVoter (c_activeConfig c) (m_From msg)) then (c, out) else
  if c_heardFromLeader c then (c, out) else
  if m_Term msg <? c_currentTerm c then (c, send (vote_reply c (m_From msg) false) out) else
  let newer := c_currentTerm c <? m_Term msg in
  let '(c, out) := step_down_if newer c (m_Term msg) out in
  if can_vote c msg then grant_vote intn c msg out else refuse_vote intn newer c msg out.

Definition handleRequestVoteResponse (intn : Z → Z) (c : Core) (msg : Message)
    : result raft_panic (Core * Output) :=
  let out := no_output in
  if c_currentTerm c <? m_Term msg then Ok (newer_term_response intn c (m_Term msg) out) else
  if negb (bool_decide (c_role c = Candidate)) || negb (m_Term msg =? c_currentTerm c)
     || negb (m_VoteGranted msg) then Ok (c, out) else
  votes ← map_write (c_votesReceived c) (m_From msg) true;
  let c := c <| c_votesReceived := votes |> in
  if Majority (c_activeConfig c) <=? votes_count c then becomeLeader c out else Ok (c, out).

(** ** AppendEntries *)

Fixpoint conflict_loop (fuel : nat) (c : Core) (t i : Z) : Z :=
  match fuel with
  | O => i
  | S fuel =>
      if (c_snapshotIndex c + 1 <? i) && (termAt c (i - 1) =? t)
      then conflict_loop fuel c t (i - 1) else i
  end.

Definition conflictHint (c : Core) (prevIndex : Z) : Z * Z :=
  if lastIndex c <? prevIndex then ((lastIndex c + 1)%u64, 0) else
  let t := termAt c prevIndex in
  (conflict_loop (Z.to_nat (prevIndex - c_snapshotIndex c)) c t prevIndex, t).

Fixpoint activate_loop (prior : Configuration) (c : Core) (es : list Entry) : result raft_panic Core :=
  match es with
  | [] => Ok c
  | e :: es =>
      if negb (bool_decide (e_Type e = EntryConfig)) then activate_loop prior c es else
      match decodeConfigChange (e_Data e) with
      | Err _ => Err PanicMalformedConfigEntry
      | Ok cc =>
          if negb (cc_establishes cc) then activate_loop prior c es else
          if negb (IsZero prior) && negb (classifyTransition prior (cc_cfg cc))
          then Err PanicInvalidTransition else
          activate_loop (cc_cfg cc)
            (c <| c_activeConfig := cc_cfg cc |> <| c_activeConfigIndex := e_Index e |>) es
      end
  end.

Definition activateFromAppendedEntries (c : Core) (es : list Entry) : result raft_panic Core :=
  activate_loop (c_activeConfig c) c es.

(** The scan for the first entry that is not already in the log: the
    truncation point (0 for none) and the entries to append. *)
Fixpoint append_scan (c : Core) (idx : Z) (es : list Entry)
    : result raft_panic (Core * Z * list Entry) :=
  match es with
  | [] => Ok (c, 0, [])
  | e :: rest =>
      if (idx <=? lastIndex c) && (termAt c idx =? e_Term e) then append_scan c (idx + 1)%u64 rest
      else if idx <=? lastIndex c then
        if idx <=? c_commitIndex c then Err PanicTruncateCommitted else
        let c := invalidatePendingFrom c idx in
        kept ← log_slice c 0 (pos c idx);
        Ok (c <| c_log := kept |>, idx, es)
      else Ok (c, 0, es)
  end.

Definition append_reply (c : Core) (to : NodeID) (success : bool) : Message :=
  (message MsgAppendEntriesResponse (self c) to (c_currentTerm c)) <| m_Success := success |>.

(** The common opening of the two requests a leader sends: a term that is
    not stale makes this node the sender's follower.  The result says
    whether the term changed. *)
Definition accept_leader (intn : Z → Z) (c : Core) (msg : Message) (out : Output)
    : Core * Output * bool :=
  let newer := c_currentTerm c <? m_Term msg in
  let '(c, out) := step_down_if (newer || negb (bool_decide (c_role c = Follower))) c (m_Term msg) out in
  let c := c <| c_leaderID := m_From msg |> <| c_heardFromLeader := true |> in
  (c, reset_election_timer c intn out, newer).

Definition persist_if (b : bool) (c : Core) (out : Output) : Core * Output :=
  if b then persist_hard_state c out else (c, out).

(** The tail of the handler, once the log is up to date with the message. *)
Definition append_finish (c : Core) (msg : Message) (out : Output) (stateChanged : bool)
    (truncateFrom : Z) (newEntries : list Entry) : result raft_panic (Core * Output) :=
  let lastNew := m_PrevLogIndex msg + zlen (m_Entries msg) in
  let needPersist := stateChanged || negb (truncateFrom =? 0) || negb (zlen newEntries =? 0) in
  let '(c, out, persistSeq) :=
    if needPersist then
      let '(c, seq) := nextPersistSeq c in
      (c, out <| out_PersistRequest := Some (mkPersistRequest seq
                   (if stateChanged then Some (hard_state c) else None) truncateFrom newEntries) |>,
       seq)
    else (c, out, 0) in
  '(c, out) ←
    (if c_commitIndex c <? m_LeaderCommit msg then
       let newCommit := if lastNew <? m_LeaderCommit msg then lastNew else m_LeaderCommit msg in
       if c_commitIndex c <? newCommit then
         if needPersist then
           Ok (c <| c_pending := c_pending c ++ [mkPending pendingCommitAdvance persistSeq
                      (c_currentTerm c) [] [] newCommit (termAt c newCommit)] |>, out)
         else advanceFollowerCommit c newCommit out
       else Ok (c, out)
     else Ok (c, out));
  if needPersist then
    Ok (c <| c_pending := c_pending c ++ [mkPending pendingAppendAck persistSeq (c_currentTerm c)
               [] (m_From msg) lastNew (termAt c lastNew)] |>, out)
  else
    Ok (c, send ((append_reply c (m_From msg) true) <| m_MatchIndex := lastNew |>) out).

Definition handleAppendEntriesRequest (intn : Z → Z) (c : Core) (msg : Message)
    : result raft_panic (Core * Output) :=
  let out := no_output in
  if m_Term msg <? c_currentTerm c then Ok (c, send (append_reply c (m_From msg) false) out) else
  let '(c, out, stateChanged) := accept_leader intn c msg out in
  if m_PrevLogIndex msg <? c_snapshotIndex c then
    let out := send ((append_reply c (m_From msg) true) <| m_MatchIndex := c_snapshotIndex c |>) out in
    Ok (persist_if stateChanged c out)
  else if (lastIndex c <? m_PrevLogIndex msg)
          || negb (termAt c (m_PrevLogIndex msg) =? m_PrevLogTerm msg) then
    let '(ci, ct) := conflictHint c (m_PrevLogIndex msg) in
    let out := send ((append_reply c (m_From msg) false)
                       <| m_ConflictIndex := ci |> <| m_ConflictTerm := ct |>) out in
    Ok (persist_if stateChanged c out)
  else
    '(c, truncateFrom, newEntries) ← append_scan c (m_PrevLogIndex msg + 1)%u64 (m_Entries msg);
    let c := c <| c_log := c_log c ++ newEntries |> in
    c ← (if negb (truncateFrom =? 0) then
           let '(cfg, idx) := ConfigAt c (lastIndex c) in
           Ok (c <| c_activeConfig := cfg |> <| c_activeConfigIndex := idx |>)
         else if negb (zlen newEntries =? 0) then activateFromAppendedEntries c newEntries
         else Ok c);
    append_finish c msg out stateChanged truncateFrom newEntries.

(** The leader's record of a peer's progress, and the follow-up message. *)
Definition note_match (c : Core) (from : NodeID) (m : Z) : result raft_panic Core :=
  matchIndex ← (if map_read 0 (c_matchIndex c) from <? m
                then map_write (c_matchIndex c) from m else Ok (c_matchIndex c));
  nextIndex ← (if map_read 0 (c_nextIndex c) from <? (m + 1)%u64
               then map_write (c_nextIndex c) from (m + 1)%u64 else Ok (c_nextIndex c));
  Ok (c <| c_matchIndex := matchIndex |> <| c_nextIndex := nextIndex |>).

Definition continue_replication (c : Core) (from : NodeID) (out : Output)
    : result raft_panic (Core * Output) :=
  if bool_decide (c_role c = Leader) && IsMember (c_activeConfig c) from
     && (map_read 0 (c_nextIndex c) from <=? lastIndex c) then
    '(c, m) ← appendEntriesMessage c from; Ok (c, send m out)
  else Ok (c, out).

Fixpoint find_term_loop (fuel : nat) (c : Core) (t i : Z) : Z :=
  match fuel with
  | O => 0
  | S fuel =>
      if i <=? 0 then 0
      else if termAt c i =? t then (i + 1)%u64 else find_term_loop fuel c t (i - 1)
  end.

Definition handleAppendEntriesResponse (intn : Z → Z) (c : Core) (msg : Message)
    : result raft_panic (Core * Output) :=
  let out := no_output in
  if c_currentTerm c <? m_Term msg then Ok (newer_term_response intn c (m_Term msg) out) else
  if negb (bool_decide (c_role c = Leader)) || negb (m_Term msg =? c_currentTerm c) then Ok (c, out) else
  if m_Success msg then
    c ← note_match c (m_From msg) (m_MatchIndex msg);
    '(c, out) ← advanceLeaderCommit c out;
    continue_replication c (m_From msg) out
  else
    let next := m_ConflictIndex msg in
    let next :=
      if negb (m_ConflictTerm msg =? 0) then
        let found := find_term_loop (Z.to_nat (lastIndex c)) c (m_ConflictTerm msg) (lastIndex c) in
        if negb (found =? 0) then found else next
      else next in
    let next := if next <? 1 then 1 else next in
    nextIndex ← (if next <? map_read 0 (c_nextIndex c) (m_From msg)
                 then map_write (c_nextIndex c) (m_From msg) next else Ok (c_nextIndex c));
    let c := c <| c_nextIndex := nextIndex |> in
    if IsMember (c_activeConfig c) (m_From msg) then
      '(c, m) ← appendEntriesMessage c (m_From msg); Ok (c, send m out)
    else Ok (c, out).

(** ** Snapshot installation *)

Definition snapshot_reply (c : Core) (to : NodeID) (success : bool) : Message :=
  (message MsgInstallSnapshotResponse (self c) to (c_currentTerm c)) <| m_Success := success |>.

(** The state after the boundary moved, before the reply. *)
Definition reset_to_snapshot (c : Core) (msg : Message) : Core :=
  let c := c <| c_snapshotIndex := m_LastIncludedIndex msg |>
             <| c_snapshotTerm := m_LastIncludedTerm msg |>
             <| c_log := [mkEntry (m_LastIncludedIndex msg) (m_LastIncludedTerm msg) EntryNormal []] |>
             <| c_pending := [] |> in
  let c := if c_commitIndex c <? c_snapshotIndex c
           then c <| c_commitIndex := c_snapshotIndex c |> else c in
  let c := SetApplied c (c_snapshotIndex c) in
  let c := c <| c_snapshotConfig := m_Configuration msg |>
             <| c_snapshotHasConfig := m_HasConfiguration msg |> <| c_activeConfigIndex := 0 |> in
  c <| c_activeConfig := if c_snapshotHasConfig c then c_snapshotConfig c
                         else c_bootstrapConfig c |>.

Definition handleInstallSnapshotRequest (intn : Z → Z) (c : Core) (msg : Message) : Core * Output :=
  let out := no_output in
  if m_Term msg <? c_currentTerm c then (c, send (snapshot_reply c (m_From msg) false) out) else
  let '(c, out, stateChanged) := accept_leader intn c msg out in
  if (m_LastIncludedIndex msg <=? c_snapshotIndex c) || (m_LastIncludedIndex msg <=? c_commitIndex c)
  then
    let matchIndex := if c_snapshotIndex c <? c_commitIndex c then c_commitIndex c
                      else c_snapshotIndex c in
    persist_if stateChanged c
      (send ((snapshot_reply c (m_From msg) true) <| m_MatchIndex := matchIndex |>) out)
  else
    let '(c, out) := persist_if stateChanged (reset_to_snapshot c msg) out in
    (c, send ((snapshot_reply c (m_From msg) true) <| m_MatchIndex := c_snapshotIndex c |>) out).

Definition handleInstallSnapshotResponse (intn : Z → Z) (c : Core) (msg : Message)
    : result raft_panic (Core * Output) :=
  let out := no_output in
  if c_currentTerm c <? m_Term msg then Ok (newer_term_response intn c (m_Term msg) out) else
  if negb (bool_decide (c_role c = Leader)) || negb (m_Term msg =? c_currentTerm c)
     || negb (m_Success msg) then Ok (c, out) else
  c ← note_match c (m_From msg) (m_MatchIndex msg);
  '(c, out) ← advanceLeaderCommit c out;
  continue_replication c (m_From msg) out.

(** ** Persistence *)

Definition release_pending (c : Core) (out : Output) (p : pendingItem)
    : result raft_panic (Core * Output) :=
  match p_kind p with
  | pendingVoteGrant =>
      if (c_currentTerm c =? p_term p) && bool_decide (c_votedFor c = p_candidate p)
      then Ok (c, send (vote_reply c (p_candidate p) true) out) else Ok (c, out)
  | pendingAppendAck =>
      if entryStillPresent c (p_index p) (p_entryTerm p)
      then Ok (c, send ((append_reply c (p_to p) true) <| m_MatchIndex := p_index p |>) out)
      else Ok (c, out)
  | pendingCommitAdvance =>
      if entryStillPresent c (p_index p) (p_entryTerm p)
      then advanceFollowerCommit c (p_index p) out else Ok (c, out)
  | pendingSelfMatch =>
      if bool_decide (c_role c = Leader) && (c_currentTerm c =? p_term p)
         && entryStillPresent c (p_index p) (p_entryTerm p) then
        matchIndex ← (if map_read 0 (c_matchIndex c) (self c) <? p_index p
                      then map_write (c_matchIndex c) (self c) (p_index p) else Ok (c_matchIndex c));
        advanceLeaderCommit (c <| c_matchIndex := matchIndex |>) out
      else Ok (c, out)
  end.

Fixpoint release_loop (c : Core) (out : Output) (remaining ps : list pendingItem)
    : result raft_panic (Core * Output * list pendingItem) :=
  match ps with
  | [] => Ok (c, out, remaining)
  | p :: ps =>
      if c_persistedSeq c <? p_seq p then release_loop c out (remaining ++ [p]) ps else
      '(c, out) ← release_pending c out p;
      release_loop c out remaining ps
  end.

Definition handlePersistenceComplete (c : Core) (seq : Z) : result raft_panic (Core * Output) :=
  let c := if c_persistedSeq c <? seq then c <| c_persistedSeq := seq |> else c in
  '(c, out, remaining) ← release_loop c no_output [] (c_pending c);
  Ok (c <| c_pending := remaining |>, out).

(** ** One step *)

Definition handleMessage (intn : Z → Z) (c : Core) (msg : Message) : result raft_panic (Core * Output) :=
  match m_Type msg with
  | MsgRequestVoteRequest => Ok (handleRequestVoteRequest intn c msg)
  | MsgRequestVoteResponse => handleRequestVoteResponse intn c msg
  | MsgAppendEntriesRequest => handleAppendEntriesRequest intn c msg
  | MsgAppendEntriesResponse => handleAppendEntriesResponse intn c msg
  | MsgInstallSnapshotRequest => Ok (handleInstallSnapshotRequest intn c msg)
  | MsgInstallSnapshotResponse => handleInstallSnapshotResponse intn c msg
  end.

Definition Step (intn : Z → Z) (c : Core) (i : Input) : result raft_panic (Core * Output) :=
  match i with
  | InputElectionTimeout => handleElectionTimeout intn c
  | InputHeartbeatTimeout => handleHeartbeatTimeout c
  | InputMessage msg => handleMessage intn c msg
  | InputPropose data => handlePropose c data
  | InputPersistenceComplete seq => handlePersistenceComplete c seq
  end.

(** ** Membership changes at the leader *)

Definition ProposeConfigChange (c : Core) (kind : MembershipChangeKind) (requestID targetID targetAddr : bytes)
    : result raft_panic (Core * result membership_error Output) :=
  if negb (bool_decide (c_role c = Leader)) then Ok (c, Err ErrNotLeader) else
  if c_commitIndex c <? c_pendingConfIndex c
  then Ok (c, Err ErrConfigChangeInheritedSuffixUncommitted) else
  if negb (c_skipP1ForTest c) && negb (termAt c (c_commitIndex c) =? c_currentTerm c)
  then Ok (c, Err ErrConfigChangeNoCurrentTermCommit) else
  if c_commitIndex c <? c_activeConfigIndex c then Ok (c, Err ErrConfigChangeInProgress) else
  match buildNewConfiguration (c_activeConfig c) kind targetID targetAddr with
  | Err e => Ok (c, Err e)
  | Ok newCfg =>
      if zlen (Voters newCfg) =? 0 then Ok (c, Err ErrLastVoterRemoval) else
      if negb (classifyTransition (c_activeConfig c) newCfg) then Ok (c, Err ErrInvalidTransition) else
      let wireKind := wireKindFor kind in
      if (wireKind =? membershipKindVoided) || (wireKind =? 0) then Err PanicWireKind else
      '(c, out) ← appendLeaderEntry c EntryConfig
                    (encodeConfigChange wireKind requestID targetID targetAddr newCfg);
      Ok (c, Ok out)
  end.

Inductive not_ready := NotLeader | InheritedSuffixUncommitted | NoCurrentTermCommit | ChangeInProgress.

Definition ConfigChangeReady (c : Core) : option not_ready :=
  if negb (bool_decide (c_role c = Leader)) then Some NotLeader
  else if c_commitIndex c <? c_pendingConfIndex c then Some InheritedSuffixUncommitted
  else if negb (termAt c (c_commitIndex c) =? c_currentTerm c) then Some NoCurrentTermCommit
  else if c_commitIndex c <? c_activeConfigIndex c then Some ChangeInProgress
  else None.
