(* ===== verification/RaftInv.v ===== *)
(** * The invariant of one Raft core

    [core_wf] is what every reachable core satisfies: a contiguous log above
    the snapshot boundary that contains the commit index, maps that are not
    nil where the role writes to them, and an active configuration that is
    the one the log establishes.  [step_rel] is what a step may change:
    terms and the commit index only grow, the committed prefix never
    changes, and exactly the newly committed entries are delivered. *)

From S2P Require Import Prelude Bytes RaftTypes RaftMembership RaftCore.

(** Panics that report a violation of the protocol by another node, as
    opposed to a slip of the core itself. *)
Definition protocol_panic (p : raft_panic) : Prop :=
  p = PanicTruncateCommitted ∨ p = PanicMalformedConfigEntry ∨ p = PanicInvalidTransition.

Definition safe {A} (r : result raft_panic A) (Q : A → Prop) : Prop :=
  match r with Ok a => Q a | Err e => protocol_panic e end.

Lemma safe_bind {A B} (r : result raft_panic A) (f : A → result raft_panic B) Q :
  safe r (λ a, safe (f a) Q) → safe (r ≫= f) Q.
Proof. by destruct r. Qed.

Lemma safe_mono {A} (r : result raft_panic A) (P Q : A → Prop) :
  safe r P → (∀ a, P a → Q a) → safe r Q.
Proof. destruct r; simpl; auto. Qed.

(** ** Well-formed logs *)

Definition log_indexed (snap : Z) (log : list Entry) : Prop :=
  ∀ p e, log !! p = Some e → e_Index e = snap + Z.of_nat p.

Definition config_in (log : list Entry) (snap : Z) : option (Configuration * Z) :=
  configAt_loop (length log - 1) log snap (snap + (zlen log - 1)).

Record core_wf (c : Core) : Prop := {
  wf_log : c_log c ≠ [];
  wf_indexed : log_indexed (c_snapshotIndex c) (c_log c);
  wf_snapshot : 0 ≤ c_snapshotIndex c;
  wf_commit : c_snapshotIndex c ≤ c_commitIndex c ≤ lastIndex c;
  wf_applied : c_appliedIndex c ≤ c_commitIndex c;
  wf_bound : lastIndex c + 1 < 2 ^ 64;
  wf_votes : c_role c = Candidate → is_Some (c_votesReceived c);
  wf_leader : c_role c = Leader → is_Some (c_nextIndex c) ∧ is_Some (c_matchIndex c);
  wf_config : (c_activeConfig c, c_activeConfigIndex c) = ConfigAt c (lastIndex c)
}.

(** Entries of the log at indices [lo < i <= hi]. *)
Definition entries_between (c : Core) (lo hi : Z) : list Entry :=
  take (Z.to_nat (hi - lo)) (drop (Z.to_nat (lo + 1 - c_snapshotIndex c)) (c_log c)).

(** The term an index has in the log, the boundary included. *)
Definition term_of (c : Core) (i : Z) : option Z :=
  if i <? c_snapshotIndex c then None
  else e_Term <$> c_log c !! Z.to_nat (i - c_snapshotIndex c).

Lemma zlen_pos {A} (l : list A) : l ≠ [] → 1 ≤ zlen l.
Proof. intros H. destruct l; [done|]. rewrite zlen_cons. pose proof (zlen_nonneg l). lia. Qed.

Lemma log_slice_ok c a b :
  0 ≤ a → a ≤ b → b ≤ zlen (c_log c) →
  log_slice c a b = Ok (take (Z.to_nat (b - a)) (drop (Z.to_nat a) (c_log c))).
Proof.
  intros Ha Hab Hb. unfold log_slice.
  by rewrite !(proj2 (Z.ltb_ge _ _)) by lia.
Qed.

(** ** Replication messages only move [nextIndex] *)

Definition leader_message (c : Core) (m : Message) : Prop :=
  (m_Type m = MsgAppendEntriesRequest ∨ m_Type m = MsgInstallSnapshotRequest) ∧
  m_From m = self c ∧ m_Term m = c_currentTerm c.

Lemma appendEntriesMessage_spec c peer :
  is_Some (c_nextIndex c) →
  ∃ x m, appendEntriesMessage c peer = Ok (c <| c_nextIndex := Some x |>, m) ∧ leader_message c m.
Proof.
  intros [nx Hnx]. unfold appendEntriesMessage. rewrite Hnx. cbv zeta.
  set (n := if map_read 0 (Some nx) peer <? 1 then 1 else map_read 0 (Some nx) peer).
  destruct (Z.leb_spec n (c_snapshotIndex c)).
  { assert (Hc : c <| c_nextIndex := Some nx |> = c) by (rewrite <- Hnx; by destruct c).
    exists nx. rewrite Hc. eexists. split; [done|]. split; [by right|done]. }
  destruct (Z.leb_spec n (lastIndex c)) as [Hl|Hl].
  - rewrite log_slice_ok by (unfold pos, lastIndex in *; lia). simpl.
    do 2 eexists. split; [done|]. split; [by left|done].
  - simpl. do 2 eexists. split; [done|]. split; [by left|done].
Qed.

Lemma replicate_to_spec skip ms c out :
  is_Some (c_nextIndex c) →
  ∃ x msgs, replicate_to skip ms c out =
      Ok (c <| c_nextIndex := Some x |>, out <| out_Messages := out_Messages out ++ msgs |>) ∧
    Forall (leader_message c) msgs.
Proof.
  revert c out. induction ms as [|m ms IH]; intros c out Hn; simpl.
  { destruct Hn as [x Hx]. exists x, []. rewrite app_nil_r. split; [|constructor].
    rewrite <- Hx. by destruct c, out. }
  destruct (skip && bool_decide (m_ID m = self c)); [by apply IH|].
  destruct (appendEntriesMessage_spec c (m_ID m) Hn) as (x & msg & -> & Hm). simpl.
  destruct (IH (c <| c_nextIndex := Some x |>) (send msg out)) as (y & msgs & -> & Hms); [done|].
  exists y, (msg :: msgs). split; [|by constructor].
  unfold send. simpl. by rewrite <- app_assoc.
Qed.

Lemma broadcast_spec c out :
  is_Some (c_nextIndex c) →
  ∃ x msgs, broadcast c out =
      Ok (c <| c_nextIndex := Some x |>, out <| out_Messages := out_Messages out ++ msgs |>) ∧
    Forall (leader_message c) msgs.
Proof.
  intros Hn. unfold broadcast.
  destruct (replicate_to_spec true (Voters (c_activeConfig c)) c out Hn) as (x & ms1 & -> & H1).
  simpl. destruct (replicate_to_spec false (Learners (c_activeConfig c))
    (c <| c_nextIndex := Some x |>) (out <| out_Messages := out_Messages out ++ ms1 |>))
    as (y & ms2 & -> & H2); [done|].
  exists y, (ms1 ++ ms2). split; [|by apply Forall_app]. simpl. by rewrite app_assoc.
Qed.

Lemma becomeLeader_spec c out :
  ∃ x y msgs, becomeLeader c out =
      Ok (c <| c_role := Leader |> <| c_leaderID := self c |> <| c_votesReceived := None |>
            <| c_pendingConfIndex := lastIndex c |> <| c_nextIndex := Some x |>
            <| c_matchIndex := Some y |>,
          out <| out_BecameLeader := true |> <| out_ResetHeartbeatTimer := true |>
              <| out_HeartbeatTimeoutTicks := cfg_HeartbeatTimeoutTicks (c_cfg c) |>
              <| out_Messages := out_Messages out ++ msgs |>) ∧
    Forall (leader_message c) msgs.
Proof.
  unfold becomeLeader. destruct (init_progress _ _ _) as [nx mt].
  match goal with |- context [broadcast ?c' ?o'] =>
    destruct (broadcast_spec c' o') as (x & msgs & -> & Hm); [done|] end.
  exists x, (<[self c := lastIndex c]> mt), msgs. split; [reflexivity|exact Hm].
Qed.

(** ** The active configuration as a forward reading of the log *)

(** The configuration one entry establishes, with its index. *)
Definition establishes_at (e : Entry) : option (Configuration * Z) :=
  if bool_decide (e_Type e = EntryConfig)
  then (λ cfg, (cfg, e_Index e)) <$> established (e_Data e) else None.

Definition base_config (c : Core) : Configuration :=
  if c_snapshotHasConfig c then c_snapshotConfig c else c_bootstrapConfig c.

Lemma configAt_loop_eq snap s es n :
  log_indexed snap (s :: es) → (n ≤ length es)%nat →
  configAt_loop n (s :: es) snap (snap + Z.of_nat n) = last (omap establishes_at (take n es)).
Proof.
  intros Hi. induction n as [|n IH]; intros Hn; [done|]. cbn [configAt_loop].
  rewrite (proj2 (Z.leb_gt _ _)) by lia.
  replace (Z.to_nat (snap + Z.of_nat (S n) - snap)) with (S n) by lia.
  replace (snap + Z.of_nat (S n) - 1) with (snap + Z.of_nat n) by lia.
  destruct (lookup_lt_is_Some_2 es n ltac:(lia)) as [e He].
  change ((s :: es) !! S n) with (es !! n). rewrite He.
  rewrite (take_S_r _ _ _ He), omap_app, last_app. simpl.
  pose proof (Hi (S n) e He) as Hidx. unfold establishes_at at 1.
  destruct (bool_decide _); simpl; [|by rewrite IH by lia].
  destruct (established (e_Data e)); simpl; [|by rewrite IH by lia].
  by rewrite Hidx.
Qed.

Lemma lastIndex_cons c s es :
  c_log c = s :: es → lastIndex c = c_snapshotIndex c + Z.of_nat (length es).
Proof. intros H. unfold lastIndex. rewrite H, zlen_cons. unfold zlen. lia. Qed.

(** [ConfigAt] at the end of the log, read forwards. *)
Lemma ConfigAt_last c s es :
  c_log c = s :: es → log_indexed (c_snapshotIndex c) (c_log c) →
  ConfigAt c (lastIndex c) = default (base_config c, 0) (last (omap establishes_at es)).
Proof.
  intros Hl Hi. unfold ConfigAt. rewrite (lastIndex_cons c s es Hl). rewrite Hl in Hi |- *.
  replace (Z.to_nat _) with (length es) by lia.
  rewrite configAt_loop_eq by (done || lia). rewrite take_ge by lia.
  by destruct (last _).
Qed.

Lemma wf_log_cons c : core_wf c → ∃ s es, c_log c = s :: es.
Proof. intros H. pose proof (wf_log c H). destruct (c_log c); eauto. done. Qed.

(** ** Preservation helpers *)

Record same_log (c c' : Core) : Prop := {
  sl_cfg : c_cfg c' = c_cfg c;
  sl_log : c_log c' = c_log c;
  sl_snap : c_snapshotIndex c' = c_snapshotIndex c;
  sl_commit : c_commitIndex c' = c_commitIndex c;
  sl_applied : c_appliedIndex c' = c_appliedIndex c;
  sl_active : c_activeConfig c' = c_activeConfig c;
  sl_activeIndex : c_activeConfigIndex c' = c_activeConfigIndex c;
  sl_snapConfig : c_snapshotConfig c' = c_snapshotConfig c;
  sl_hasConfig : c_snapshotHasConfig c' = c_snapshotHasConfig c;
  sl_bootstrap : c_bootstrapConfig c' = c_bootstrapConfig c
}.

Lemma same_log_lastIndex c c' : same_log c c' → lastIndex c' = lastIndex c.
Proof. intros []. unfold lastIndex. congruence. Qed.

Lemma same_log_ConfigAt c c' i : same_log c c' → ConfigAt c' i = ConfigAt c i.
Proof.
  intros []. unfold ConfigAt.
  by rewrite sl_log0, sl_snap0, sl_hasConfig0, sl_snapConfig0, sl_bootstrap0.
Qed.

Definition role_ok (c : Core) : Prop :=
  (c_role c = Candidate → is_Some (c_votesReceived c)) ∧
  (c_role c = Leader → is_Some (c_nextIndex c) ∧ is_Some (c_matchIndex c)).

Lemma wf_role_ok c : core_wf c → role_ok c.
Proof. intros []. by split. Qed.

Lemma wf_same_log c c' : core_wf c → same_log c c' → role_ok c' → core_wf c'.
Proof.
  intros [] Hs [Hv Hl]. pose proof (same_log_lastIndex _ _ Hs) as Hlast.
  pose proof (same_log_ConfigAt _ _ (lastIndex c') Hs) as Hcfg.
  destruct Hs. constructor; try (congruence || done).
  by rewrite sl_log0, sl_snap0.
Qed.

Lemma role_ok_follower c : c_role c = Follower → role_ok c.
Proof. intros H. split; rewrite H; done. Qed.

(** The commit index moves within the log. *)
Lemma wf_commit_to c n :
  core_wf c → c_commitIndex c ≤ n ≤ lastIndex c → core_wf (c <| c_commitIndex := n |>).
Proof.
  intros [] Hn. constructor; simpl; try done.
  - change (lastIndex (c <| c_commitIndex := n |>)) with (lastIndex c). lia.
  - lia.
Qed.

(** What a step that keeps the snapshot boundary does to the log. *)
Record ext_rel (c c' : Core) (es : list Entry) : Prop := {
  er_snap : c_snapshotIndex c' = c_snapshotIndex c;
  er_commit : c_commitIndex c ≤ c_commitIndex c';
  er_prefix : take (Z.to_nat (c_commitIndex c - c_snapshotIndex c + 1)) (c_log c') =
              take (Z.to_nat (c_commitIndex c - c_snapshotIndex c + 1)) (c_log c);
  er_es : es = entries_between c' (c_commitIndex c) (c_commitIndex c');
  er_applied : c_appliedIndex c' = c_appliedIndex c
}.

Lemma entries_between_nil c i : entries_between c i i = [].
Proof. unfold entries_between. by rewrite Z.sub_diag. Qed.

Lemma ext_rel_same c c' : same_log c c' → ext_rel c c' [].
Proof.
  intros []. constructor; try congruence; [lia|]. by rewrite sl_commit0, entries_between_nil.
Qed.

Lemma entries_between_split c lo mid hi :
  c_snapshotIndex c ≤ lo → lo ≤ mid → mid ≤ hi → hi ≤ lastIndex c →
  entries_between c lo hi = entries_between c lo mid ++ entries_between c mid hi.
Proof.
  intros H1 H2 H3 H4. unfold entries_between.
  replace (Z.to_nat (hi - lo)) with (Z.to_nat (mid - lo) + Z.to_nat (hi - mid))%nat by lia.
  rewrite <- take_take_drop, drop_drop. f_equal. do 2 f_equal. lia.
Qed.

Lemma entries_between_prefix c c' lo hi :
  c_snapshotIndex c' = c_snapshotIndex c → c_snapshotIndex c ≤ lo →
  take (Z.to_nat (hi - c_snapshotIndex c + 1)) (c_log c') =
  take (Z.to_nat (hi - c_snapshotIndex c + 1)) (c_log c) →
  entries_between c' lo hi = entries_between c lo hi.
Proof.
  intros Hs Hlo Hp. unfold entries_between. rewrite Hs.
  destruct (decide (hi ≤ lo)).
  { replace (Z.to_nat (hi - lo)) with 0%nat by lia. done. }
  assert (Hx : ∀ l : list Entry, take (Z.to_nat (hi - lo)) (drop (Z.to_nat (lo + 1 - c_snapshotIndex c)) l) =
          drop (Z.to_nat (lo + 1 - c_snapshotIndex c)) (take (Z.to_nat (hi - c_snapshotIndex c + 1)) l)).
  { intros l. rewrite skipn_firstn_comm. f_equal. lia. }
  by rewrite !Hx, Hp.
Qed.

Lemma ext_rel_trans c c' c'' es1 es2 :
  core_wf c → core_wf c'' → ext_rel c c' es1 → ext_rel c' c'' es2 → ext_rel c c'' (es1 ++ es2).
Proof.
  intros Hwf Hwf'' [Hs1 Hc1 Hp1 He1 Ha1] [Hs2 Hc2 Hp2 He2 Ha2].
  pose proof (wf_commit c Hwf) as [Hlo _]. pose proof (wf_commit c'' Hwf'') as [_ Hhi].
  constructor; [congruence|lia| | |congruence].
  - rewrite <- Hp1. rewrite Hs1 in Hp2.
    assert (Hx : ∀ l : list Entry, take (Z.to_nat (c_commitIndex c - c_snapshotIndex c + 1)) l =
      take (Z.to_nat (c_commitIndex c - c_snapshotIndex c + 1))
        (take (Z.to_nat (c_commitIndex c' - c_snapshotIndex c + 1)) l)).
    { intros l. rewrite take_take. f_equal. lia. }
    by rewrite (Hx (c_log c'')), Hp2, <- Hx.
  - rewrite (entries_between_split c'' _ (c_commitIndex c')) by lia.
    rewrite He1, He2. f_equal. symmetry.
    apply entries_between_prefix; [done|lia|]. rewrite Hs1 in *. done.
Qed.

(** ** Commit advancement *)

Lemma commit_slice_ok c n :
  core_wf c → c_commitIndex c < n ≤ lastIndex c →
  commit_slice c n = Ok (entries_between c (c_commitIndex c) n).
Proof.
  intros [] Hn. unfold commit_slice. cbv zeta.
  rewrite u64_small by (unfold is_u64; lia).
  rewrite (proj2 (Z.leb_gt _ _)) by lia.
  rewrite log_slice_ok by (unfold pos, lastIndex in *; lia).
  unfold entries_between, pos. do 2 f_equal. lia.
Qed.

Lemma ext_rel_commit c n :
  core_wf c → c_commitIndex c ≤ n ≤ lastIndex c →
  ext_rel c (c <| c_commitIndex := n |>) (entries_between c (c_commitIndex c) n).
Proof. intros Hwf Hn. constructor; simpl; try done. lia. Qed.

Definition deliver (out : Output) (es : list Entry) : Output :=
  out <| out_CommittedEntries := out_CommittedEntries out ++ es |>.

Lemma deliver_nil out : deliver out [] = out.
Proof. unfold deliver. rewrite app_nil_r. by destruct out. Qed.

Lemma core_commit_id c : c <| c_commitIndex := c_commitIndex c |> = c.
Proof. by destruct c. Qed.

Lemma advanceFollowerCommit_spec c n out :
  core_wf c →
  ∃ n', advanceFollowerCommit c n out =
      Ok (c <| c_commitIndex := n' |>, deliver out (entries_between c (c_commitIndex c) n')) ∧
    c_commitIndex c ≤ n' ≤ lastIndex c.
Proof.
  intros Hwf. unfold advanceFollowerCommit. cbv zeta. pose proof (wf_commit c Hwf).
  set (n1 := if lastIndex c <? n then lastIndex c else n).
  assert (n1 ≤ lastIndex c) by (unfold n1; case_if; bool_to_prop; lia).
  destruct (Z.leb_spec n1 (c_commitIndex c)).
  - exists (c_commitIndex c). rewrite entries_between_nil, deliver_nil, core_commit_id.
    split; [done|lia].
  - rewrite commit_slice_ok by (done || lia). simpl. exists n1. split; [done|lia].
Qed.

Lemma advance_loop_spec fuel c n out :
  core_wf c → n ≤ lastIndex c →
  advance_loop fuel c n out = Ok (c, out) ∨
  ∃ n', advance_loop fuel c n out =
      Ok (maybeStepDownAfterSelfRemoval (c <| c_commitIndex := n' |>)
            (deliver out (entries_between c (c_commitIndex c) n'))) ∧
    c_commitIndex c < n' ≤ lastIndex c ∧ termAt c n' = c_currentTerm c ∧
    Majority (c_activeConfig c) ≤ match_count c n'.
Proof.
  intros Hwf. revert n. induction fuel as [|fuel IH]; intros n Hn; simpl; [by left|].
  destruct (Z.leb_spec n (c_commitIndex c)); [by left|].
  destruct (Z.eqb_spec (termAt c n) (c_currentTerm c)) as [Ht|]; simpl; [|apply IH; lia].
  destruct (Z.leb_spec (Majority (c_activeConfig c)) (match_count c n)); [|apply IH; lia].
  right. exists n. rewrite commit_slice_ok by (done || lia). simpl. split; [done|]. lia.
Qed.

Lemma advanceLeaderCommit_spec c out :
  core_wf c →
  advanceLeaderCommit c out = Ok (c, out) ∨
  ∃ n', advanceLeaderCommit c out =
      Ok (maybeStepDownAfterSelfRemoval (c <| c_commitIndex := n' |>)
            (deliver out (entries_between c (c_commitIndex c) n'))) ∧
    c_commitIndex c < n' ≤ lastIndex c ∧ termAt c n' = c_currentTerm c ∧
    Majority (c_activeConfig c) ≤ match_count c n'.
Proof. intros Hwf. unfold advanceLeaderCommit. apply advance_loop_spec; [done|lia]. Qed.

(** What a handler guarantees: the invariant, the identity of the node, a
    term that does not go back, and the log relation of its outputs. *)
Record step_post (c : Core) (r : Core * Output) : Prop := {
  sp_wf : core_wf r.1;
  sp_cfg : c_cfg r.1 = c_cfg c;
  sp_term : c_currentTerm c ≤ c_currentTerm r.1;
  sp_log : ext_rel c r.1 (out_CommittedEntries r.2)
}.

Lemma step_post_same c c' out :
  core_wf c → same_log c c' → role_ok c' → c_currentTerm c ≤ c_currentTerm c' →
  out_CommittedEntries out = [] → step_post c (c', out).
Proof.
  intros Hwf Hs Hr Ht Ho. constructor; simpl; [by eapply wf_same_log|apply Hs|done|].
  rewrite Ho. by apply ext_rel_same.
Qed.

Lemma step_post_trans c c' out r :
  step_post c (c', out) → core_wf c → step_post c' r →
  step_post c (r.1, r.2 <| out_CommittedEntries := out_CommittedEntries out ++ out_CommittedEntries r.2 |>).
Proof.
  intros [Hwf1 Hc1 Ht1 Hl1] Hwf [Hwf2 Hc2 Ht2 Hl2]. constructor; simpl in *; [done|congruence|lia|].
  by eapply ext_rel_trans.
Qed.

Lemma maybeStepDown_post c n out :
  core_wf c → c_commitIndex c ≤ n ≤ lastIndex c → out_CommittedEntries out = [] →
  step_post c (maybeStepDownAfterSelfRemoval (c <| c_commitIndex := n |>)
                 (deliver out (entries_between c (c_commitIndex c) n))).
Proof.
  intros Hwf Hn Ho. pose proof (wf_commit_to c n Hwf Hn) as Hwf'.
  pose proof (ext_rel_commit c n Hwf Hn) as Hx.
  unfold maybeStepDownAfterSelfRemoval. case_if.
  - constructor; simpl; [done|done|lia|]. by rewrite Ho.
  - constructor; simpl; [|done|lia|by rewrite Ho; destruct Hx].
    eapply wf_same_log; [exact Hwf'|by constructor|by apply role_ok_follower].
Qed.

Lemma advanceLeaderCommit_post c out :
  core_wf c → out_CommittedEntries out = [] →
  ∃ r, advanceLeaderCommit c out = Ok r ∧ step_post c r.
Proof.
  intros Hwf Ho. destruct (advanceLeaderCommit_spec c out Hwf) as [->|(n & -> & Hn & _)].
  - eexists. split; [done|]. apply step_post_same; [done|by constructor|by apply wf_role_ok|lia|done].
  - eexists. split; [done|]. apply maybeStepDown_post; [done|lia|done].
Qed.

(** ** Elections *)

Lemma becomeLeader_post c out :
  core_wf c → out_CommittedEntries out = [] →
  ∃ r, becomeLeader c out = Ok r ∧ step_post c r.
Proof.
  intros Hwf Ho. destruct (becomeLeader_spec c out) as (x & y & msgs & -> & _).
  eexists. split; [done|].
  apply step_post_same; [done|by constructor|by split|simpl; lia|done].
Qed.

Lemma send_committed m out : out_CommittedEntries (send m out) = out_CommittedEntries out.
Proof. done. Qed.

Lemma foldl_send_committed {A} (f : Output → A → Output) l out :
  (∀ o x, out_CommittedEntries (f o x) = out_CommittedEntries o) →
  out_CommittedEntries (foldl f out l) = out_CommittedEntries out.
Proof.
  intros Hf. revert out. induction l as [|x l IH]; intros out; simpl; [done|]. by rewrite IH.
Qed.

Lemma handleElectionTimeout_post intn c :
  core_wf c → 0 ≤ c_currentTerm c → c_currentTerm c + 1 < 2 ^ 64 →
  safe (handleElectionTimeout intn c) (step_post c).
Proof.
  intros Hwf H0 Ht. unfold handleElectionTimeout.
  case_bool_decide.
  { apply step_post_same; [done|by constructor|by apply wf_role_ok|lia|done]. }
  case_if.
  { apply step_post_same; [done|by constructor|exact (wf_role_ok c Hwf)|simpl; lia|done]. }
  destruct (persist_hard_state (become_candidate (c <| c_heardFromLeader := false |>)) no_output) as [c2 out2] eqn:Hp.
  pose proof (f_equal fst Hp) as Hc2. pose proof (f_equal snd Hp) as Ho2.
  cbn [fst snd] in Hc2, Ho2. clear Hp.
  set (out := request_votes _ _).
  assert (Hs : same_log c c2) by (rewrite <- Hc2; by constructor).
  assert (Hr : role_ok c2) by (rewrite <- Hc2; by split).
  assert (Hwf2 : core_wf c2) by by eapply wf_same_log.
  assert (Ho : out_CommittedEntries out = []).
  { unfold out, request_votes. rewrite foldl_send_committed; [by rewrite <- Ho2|].
    intros o x. by case_bool_decide. }
  assert (Htm : c_currentTerm c ≤ c_currentTerm c2).
  { rewrite <- Hc2. cbn. rewrite u64_small by (unfold is_u64; lia). lia. }
  clear Hc2 Ho2. case_if.
  - destruct (becomeLeader_post c2 out Hwf2 Ho) as ([c3 out3] & -> & [H1 H2 H3 H4]).
    simpl in *. constructor; simpl; [done|by rewrite H2; apply Hs|lia|].
    eapply (ext_rel_trans c c2 c3 []); [done|done|by apply ext_rel_same|done].
  - simpl. by apply step_post_same.
Qed.

Lemma handleHeartbeatTimeout_post c :
  core_wf c → safe (handleHeartbeatTimeout c) (step_post c).
Proof.
  intros Hwf. unfold handleHeartbeatTimeout. case_bool_decide as Hr; simpl.
  - destruct (wf_leader c Hwf Hr) as [Hn Hm].
    match goal with |- context [broadcast c ?o] =>
      destruct (broadcast_spec c o Hn) as (x & msgs & -> & _) end.
    simpl. apply step_post_same; [done|by constructor| |simpl; lia|done].
    split; simpl; [by rewrite Hr|done].
  - apply step_post_same; [done|by constructor|by apply wf_role_ok|lia|done].
Qed.

Lemma stepDown_same c term : same_log c (stepDownTo c term).1.
Proof. by constructor. Qed.

Lemma same_log_trans c c' c'' : same_log c c' → same_log c' c'' → same_log c c''.
Proof. intros [] []. constructor; congruence. Qed.

Lemma newer_term_response_spec intn c term out :
  same_log c (newer_term_response intn c term out).1 ∧
  c_role (newer_term_response intn c term out).1 = Follower ∧
  c_currentTerm (newer_term_response intn c term out).1 = term ∧
  out_CommittedEntries (newer_term_response intn c term out).2 = out_CommittedEntries out.
Proof.
  split; [by constructor|]. split; [done|]. split; [done|].
  unfold newer_term_response. destruct (stepDownTo c term) as [c1 was]. by destruct was.
Qed.

Lemma newer_term_response_post intn c term out :
  core_wf c → c_currentTerm c ≤ term → out_CommittedEntries out = [] →
  step_post c (newer_term_response intn c term out).
Proof.
  intros Hwf Ht Ho.
  destruct (newer_term_response_spec intn c term out) as (Hs & Hr & Htm & Hc).
  destruct (newer_term_response intn c term out) as [c' out']. cbn [fst snd] in *.
  apply step_post_same; [done|done|by apply role_ok_follower|lia|congruence].
Qed.

Lemma step_down_if_spec b c term out :
  same_log c (step_down_if b c term out).1 ∧
  c_role (step_down_if b c term out).1 = (if b then Follower else c_role c) ∧
  c_currentTerm (step_down_if b c term out).1 = (if b then term else c_currentTerm c) ∧
  out_CommittedEntries (step_down_if b c term out).2 = out_CommittedEntries out ∧
  (b = false → (step_down_if b c term out).1 = c).
Proof.
  unfold step_down_if. destruct b; [|done].
  split; [by constructor|]. split; [done|]. split; [done|]. split; [|done].
  simpl. by case_if.
Qed.

Lemma grant_vote_spec intn c msg out :
  same_log c (grant_vote intn c msg out).1 ∧
  c_role (grant_vote intn c msg out).1 = c_role c ∧
  c_currentTerm (grant_vote intn c msg out).1 = c_currentTerm c ∧
  c_votesReceived (grant_vote intn c msg out).1 = c_votesReceived c ∧
  c_nextIndex (grant_vote intn c msg out).1 = c_nextIndex c ∧
  c_matchIndex (grant_vote intn c msg out).1 = c_matchIndex c ∧
  out_CommittedEntries (grant_vote intn c msg out).2 = out_CommittedEntries out.
Proof. split; [by constructor|done]. Qed.

Lemma refuse_vote_spec intn newer c msg out :
  same_log c (refuse_vote intn newer c msg out).1 ∧
  c_role (refuse_vote intn newer c msg out).1 = c_role c ∧
  c_currentTerm (refuse_vote intn newer c msg out).1 = c_currentTerm c ∧
  c_votesReceived (refuse_vote intn newer c msg out).1 = c_votesReceived c ∧
  c_nextIndex (refuse_vote intn newer c msg out).1 = c_nextIndex c ∧
  c_matchIndex (refuse_vote intn newer c msg out).1 = c_matchIndex c ∧
  out_CommittedEntries (refuse_vote intn newer c msg out).2 = out_CommittedEntries out.
Proof.
  unfold refuse_vote. destruct newer; [|split; [by constructor|done]].
  split; [by constructor|]. do 5 (split; [done|]). simpl. by case_if.
Qed.

Lemma role_ok_same c c' :
  role_ok c → c_role c' = c_role c → c_votesReceived c' = c_votesReceived c →
  c_nextIndex c' = c_nextIndex c → c_matchIndex c' = c_matchIndex c → role_ok c'.
Proof. unfold role_ok. intros H -> -> -> ->. done. Qed.

Lemma handleRequestVoteRequest_post intn c msg :
  core_wf c → step_post c (handleRequestVoteRequest intn c msg).
Proof.
  intros Hwf. unfold handleRequestVoteRequest. pose proof (wf_role_ok c Hwf) as Hr.
  case_if; [by apply step_post_same; [..|lia|]|].
  case_if; [by apply step_post_same; [..|lia|]|].
  destruct (Z.ltb_spec (m_Term msg) (c_currentTerm c)); [by apply step_post_same; [..|lia|]|].
  set (newer := c_currentTerm c <? m_Term msg). cbv zeta.
  destruct (step_down_if_spec newer c (m_Term msg) no_output) as (Hs & Hro & Ht & Ho & Hid).
  destruct (step_down_if newer c (m_Term msg) no_output) as [c1 out1]. cbn [fst snd] in *.
  assert (Hr1 : role_ok c1).
  { destruct newer; [by apply role_ok_follower|]. by rewrite Hid. }
  assert (Hle : c_currentTerm c ≤ c_currentTerm c1).
  { rewrite Ht. unfold newer. destruct (Z.ltb_spec (c_currentTerm c) (m_Term msg)); lia. }
  case_if.
  - destruct (grant_vote_spec intn c1 msg out1) as (Hs2 & H1 & H2 & H3 & H4 & H5 & H6).
    destruct (grant_vote intn c1 msg out1) as [c2 out2]. cbn [fst snd] in *.
    apply step_post_same; [done|by eapply same_log_trans|by eapply role_ok_same|lia|by rewrite H6].
  - destruct (refuse_vote_spec intn newer c1 msg out1) as (Hs2 & H1 & H2 & H3 & H4 & H5 & H6).
    destruct (refuse_vote intn newer c1 msg out1) as [c2 out2]. cbn [fst snd] in *.
    apply step_post_same; [done|by eapply same_log_trans|by eapply role_ok_same|lia|by rewrite H6].
Qed.

Lemma handleRequestVoteResponse_post intn c msg :
  core_wf c → safe (handleRequestVoteResponse intn c msg) (step_post c).
Proof.
  intros Hwf. unfold handleRequestVoteResponse. pose proof (wf_role_ok c Hwf) as Hr.
  destruct (Z.ltb_spec (c_currentTerm c) (m_Term msg)); simpl.
  { apply newer_term_response_post; [done|lia|done]. }
  case_if; simpl; [by apply step_post_same; [..|lia|]|].
  bool_to_prop. destruct (wf_votes c Hwf) as [v Hv]; [done|]. rewrite Hv. simpl.
  set (c1 := c <| c_votesReceived := _ |>).
  assert (Hs : same_log c c1) by by constructor.
  assert (Hr1 : role_ok c1) by (split; simpl; [by eauto|by apply Hr]).
  case_if.
  - destruct (becomeLeader_post c1 no_output) as ([c3 out3] & -> & [Hp1 Hp2 Hp3 Hp4]);
      [by eapply wf_same_log|done|].
    simpl in *. constructor; simpl; [done|done|done|].
    eapply (ext_rel_trans c c1 c3 []); [done|done|by apply ext_rel_same|done].
  - simpl. apply step_post_same; (done || lia || simpl; lia).
Qed.

(** ** Changing the uncommitted part of the log *)

(** [c'] keeps the first [k] positions of the log of [c] (all committed ones
    among them) and continues with [es]. *)
Record relog (c c' : Core) (k : nat) (es : list Entry) : Prop := {
  rl_cfg : c_cfg c' = c_cfg c;
  rl_log : c_log c' = take k (c_log c) ++ es;
  rl_snap : c_snapshotIndex c' = c_snapshotIndex c;
  rl_commit : c_commitIndex c' = c_commitIndex c;
  rl_applied : c_appliedIndex c' = c_appliedIndex c;
  rl_snapConfig : c_snapshotConfig c' = c_snapshotConfig c;
  rl_hasConfig : c_snapshotHasConfig c' = c_snapshotHasConfig c;
  rl_bootstrap : c_bootstrapConfig c' = c_bootstrapConfig c;
  rl_k : c_commitIndex c - c_snapshotIndex c + 1 ≤ Z.of_nat k ≤ zlen (c_log c);
  rl_es : ∀ i e, es !! i = Some e → e_Index e = c_snapshotIndex c + Z.of_nat k + Z.of_nat i;
  rl_bound : c_snapshotIndex c + Z.of_nat k + zlen es < 2 ^ 64
}.

Lemma relog_last c c' k es :
  relog c c' k es → lastIndex c' = c_snapshotIndex c + Z.of_nat k + zlen es - 1.
Proof.
  intros []. unfold lastIndex. rewrite rl_snap0, rl_log0, zlen_app.
  unfold zlen in *. rewrite length_take. lia.
Qed.

Lemma relog_indexed c c' k es : core_wf c → relog c c' k es → log_indexed (c_snapshotIndex c') (c_log c').
Proof.
  intros Hwf [] p e. rewrite rl_snap0, rl_log0. intros Hp.
  assert (Hlen : length (take k (c_log c)) = k).
  { rewrite length_take. unfold zlen in rl_k0. lia. }
  destruct (decide (p < k)%nat) as [Hlt|Hge].
  - rewrite lookup_app_l in Hp by lia. apply lookup_take_Some in Hp as [Hp _].
    by apply (wf_indexed c Hwf).
  - rewrite lookup_app_r in Hp by lia. rewrite Hlen in Hp. apply rl_es0 in Hp. lia.
Qed.

Lemma relog_wf c c' k es :
  core_wf c → relog c c' k es → role_ok c' →
  (c_activeConfig c', c_activeConfigIndex c') = ConfigAt c' (lastIndex c') →
  core_wf c' ∧ ext_rel c c' [].
Proof.
  intros Hwf Hrl [Hv Hl] Hc. pose proof (relog_indexed _ _ _ _ Hwf Hrl) as Hi.
  pose proof (relog_last _ _ _ _ Hrl) as Hlast.
  pose proof (wf_commit c Hwf). pose proof (wf_snapshot c Hwf). pose proof (wf_applied c Hwf).
  destruct Hrl. pose proof (zlen_nonneg es). split.
  - constructor; try done; try lia; try congruence.
    intros Hnil. rewrite rl_log0 in Hnil. apply app_eq_nil in Hnil as [Hnil _].
    apply (f_equal length) in Hnil. rewrite length_take in Hnil. simpl in Hnil. unfold zlen in *. lia.
  - constructor; [done|lia| | |done].
    + rewrite rl_log0, take_app_le, take_take; [f_equal; lia|].
      rewrite length_take. unfold zlen in *. lia.
    + by rewrite rl_commit0, entries_between_nil.
Qed.

(** Appending at the end: the reference configuration is the last one the
    new entries establish, or the old one. *)
Lemma appended_config c c' es :
  core_wf c → relog c c' (length (c_log c)) es →
  ConfigAt c' (lastIndex c') =
  default (c_activeConfig c, c_activeConfigIndex c) (last (omap establishes_at es)).
Proof.
  intros Hwf Hrl. pose proof (relog_indexed _ _ _ _ Hwf Hrl) as Hi.
  destruct (wf_log_cons c Hwf) as (s & l & Hl).
  assert (Hl' : c_log c' = s :: (l ++ es)).
  { rewrite (rl_log _ _ _ _ Hrl), take_ge, Hl by lia. done. }
  rewrite (ConfigAt_last c' s (l ++ es) Hl' Hi), omap_app, last_app.
  destruct (last (omap establishes_at es)); [done|]. simpl.
  rewrite (wf_config c Hwf), (ConfigAt_last c s l Hl (wf_indexed c Hwf)).
  unfold base_config. destruct Hrl. by rewrite rl_hasConfig0, rl_snapConfig0, rl_bootstrap0.
Qed.

Lemma appended_wf c c' es :
  core_wf c → relog c c' (length (c_log c)) es → role_ok c' →
  (c_activeConfig c', c_activeConfigIndex c') =
    default (c_activeConfig c, c_activeConfigIndex c) (last (omap establishes_at es)) →
  core_wf c' ∧ ext_rel c c' [].
Proof.
  intros Hwf Hrl Hr Hc. eapply relog_wf; [done|done|done|]. rewrite Hc. symmetry.
  by apply appended_config.
Qed.

(** ** Leader appends *)

(** Steps that only initialise progress entries keep the log and the maps. *)
Record same_but_progress (c c' : Core) : Prop := {
  sp_same : same_log c c';
  sp_role : c_role c' = c_role c;
  sp_currentTerm : c_currentTerm c' = c_currentTerm c;
  sp_maps : is_Some (c_nextIndex c') ∧ is_Some (c_matchIndex c')
}.

Lemma initReplicationStateFor_ok prev c m :
  is_Some (c_nextIndex c) → is_Some (c_matchIndex c) →
  ∃ c', initReplicationStateFor prev c m = Ok c' ∧ same_but_progress c c'.
Proof.
  intros [n Hn] [mt Hm]. unfold initReplicationStateFor. rewrite Hn, Hm. cbn [mbind option_bind].
  destruct (n !! m_ID m); destruct (mt !! m_ID m); cbn [map_write mbind result_bind];
    eexists; (split; [reflexivity|]); (constructor; [by constructor|done|done|done]).
Qed.

Lemma same_but_progress_trans c c' c'' :
  same_but_progress c c' → same_but_progress c' c'' → same_but_progress c c''.
Proof.
  intros [] []. constructor; [by eapply same_log_trans|congruence|congruence|done].
Qed.

Lemma fold_init_ok prev c ms :
  is_Some (c_nextIndex c) → is_Some (c_matchIndex c) →
  ∃ c', fold_result (initReplicationStateFor prev) c ms = Ok c' ∧ same_but_progress c c'.
Proof.
  revert c. induction ms as [|m ms IH]; intros c Hn Hm; simpl.
  { exists c. split; [done|]. by constructor. }
  destruct (initReplicationStateFor_ok prev c m Hn Hm) as (c1 & -> & H1). simpl.
  destruct (IH c1) as (c2 & -> & H2); [apply H1|apply H1|].
  exists c2. split; [done|]. by eapply same_but_progress_trans.
Qed.

Lemma activate_leader_config_ok prev idx cfg c :
  is_Some (c_nextIndex c) → is_Some (c_matchIndex c) →
  ∃ c', activate_leader_config prev idx cfg c = Ok c' ∧
    same_but_progress (c <| c_activeConfig := cfg |> <| c_activeConfigIndex := idx |>) c'.
Proof.
  intros Hn Hm. unfold activate_leader_config.
  match goal with |- context [fold_result _ ?c0 (Voters cfg)] =>
    destruct (fold_init_ok prev c0 (Voters cfg) Hn Hm) as (c1 & -> & H1) end.
  cbn [mbind result_bind].
  destruct (fold_init_ok prev c1 (Learners cfg)) as (c2 & -> & H2); [apply H1|apply H1|].
  exists c2. split; [done|]. by eapply same_but_progress_trans.
Qed.

Lemma same_log_active c c' :
  same_log c c' → (c_activeConfig c', c_activeConfigIndex c') = (c_activeConfig c, c_activeConfigIndex c).
Proof. intros []. congruence. Qed.

Lemma await_self_match_spec c idx :
  same_log c (await_self_match c idx).1 ∧ c_role (await_self_match c idx).1 = c_role c ∧
  c_currentTerm (await_self_match c idx).1 = c_currentTerm c ∧
  c_nextIndex (await_self_match c idx).1 = c_nextIndex c ∧
  c_matchIndex (await_self_match c idx).1 = c_matchIndex c.
Proof. split; [by constructor|done]. Qed.

Lemma same_log_relog c c1 c2 k es : relog c c1 k es → same_log c1 c2 → relog c c2 k es.
Proof. intros [] []. constructor; try done; congruence. Qed.

(** The appended core, whatever entry it is, before the broadcast. *)
Lemma leader_append_wf c c2 entry :
  core_wf c → c_role c = Leader → lastIndex c + 2 < 2 ^ 64 →
  entry = mkEntry (lastIndex c + 1) (c_currentTerm c) (e_Type entry) (e_Data entry) →
  relog c c2 (length (c_log c)) [entry] → c_role c2 = Leader →
  is_Some (c_nextIndex c2) → is_Some (c_matchIndex c2) →
  (c_activeConfig c2, c_activeConfigIndex c2) =
    default (c_activeConfig c, c_activeConfigIndex c) (establishes_at entry) →
  core_wf c2 ∧ ext_rel c c2 [].
Proof.
  intros Hwf Hr Hb He Hrl Hr2 Hn Hm Hc. eapply appended_wf; [done|done| |].
  - split; rewrite Hr2; done.
  - rewrite Hc. simpl. by destruct (establishes_at entry).
Qed.

Lemma leader_relog c entry mt :
  core_wf c → lastIndex c + 2 < 2 ^ 64 → e_Index entry = lastIndex c + 1 →
  relog c (c <| c_log := c_log c ++ [entry] |> <| c_matchIndex := mt |>) (length (c_log c)) [entry].
Proof.
  intros Hwf Hb He. pose proof (wf_commit c Hwf).
  constructor; try done.
  - rewrite take_ge by lia. done.
  - unfold lastIndex, zlen in *. lia.
  - intros [|i] e; [|done]. intros [= <-]. rewrite He. unfold lastIndex, zlen in *. lia.
  - unfold lastIndex, zlen in *. simpl. lia.
Qed.

(** The entry a leader appends for [data]. *)
Definition leader_entry (c : Core) (t : EntryType) (data : bytes) : Entry :=
  mkEntry (lastIndex c + 1) (c_currentTerm c) t data.

(** What the append did to the log and the configuration. *)
Record appended (c : Core) (e : Entry) (c2 : Core) : Prop := {
  ap_log : c_log c2 = c_log c ++ [e];
  ap_commit : c_commitIndex c2 = c_commitIndex c;
  ap_snap : c_snapshotIndex c2 = c_snapshotIndex c;
  ap_config : (c_activeConfig c2, c_activeConfigIndex c2) =
    default (c_activeConfig c, c_activeConfigIndex c) (establishes_at e);
  ap_role : c_role c2 = Leader;
  ap_term : c_currentTerm c2 = c_currentTerm c;
  ap_cfg : c_cfg c2 = c_cfg c
}.

Lemma appended_same_log c e c2 c3 :
  appended c e c2 → same_log c2 c3 → c_role c3 = c_role c2 → c_currentTerm c3 = c_currentTerm c2 →
  appended c e c3.
Proof.
  intros [] Hs Hr Ht. pose proof (same_log_active _ _ Hs). destruct Hs. constructor; congruence.
Qed.

(** Activation of the entry's configuration at the leader. *)
Lemma activate_entry_spec c c1 t data (entry := leader_entry c t data) :
  core_wf c → c_role c = Leader → lastIndex c + 2 < 2 ^ 64 →
  (t = EntryConfig → is_Some (established data)) →
  relog c c1 (length (c_log c)) [entry] → c_role c1 = Leader →
  c_currentTerm c1 = c_currentTerm c →
  c_activeConfig c1 = c_activeConfig c → c_activeConfigIndex c1 = c_activeConfigIndex c →
  is_Some (c_nextIndex c1) → is_Some (c_matchIndex c1) →
  ∃ c2, (if bool_decide (t = EntryConfig) then
      match established data with
      | None => Err PanicConfigPayload
      | Some cfg => activate_leader_config (lastIndex c) (lastIndex c + 1) cfg c1
      end else Ok c1) = Ok c2 ∧ core_wf c2 ∧ ext_rel c c2 [] ∧ appended c entry c2.
Proof.
  intros Hwf Hr Hb Ht Hrl Hr1 Ht1 Ha Hai Hn Hm.
  assert (Hex : ∃ c2, (if bool_decide (t = EntryConfig) then
      match established data with
      | None => Err PanicConfigPayload
      | Some cfg => activate_leader_config (lastIndex c) (lastIndex c + 1) cfg c1
      end else Ok c1) = Ok c2 ∧ relog c c2 (length (c_log c)) [entry] ∧ c_role c2 = Leader ∧
      c_currentTerm c2 = c_currentTerm c ∧ is_Some (c_nextIndex c2) ∧ is_Some (c_matchIndex c2) ∧
      (c_activeConfig c2, c_activeConfigIndex c2) =
        default (c_activeConfig c, c_activeConfigIndex c) (establishes_at entry)).
  { unfold establishes_at. cbn [e_Type e_Data e_Index entry leader_entry]. case_bool_decide as Htc.
    - destruct (Ht Htc) as [cfg Hcfg]. rewrite Hcfg.
      destruct (activate_leader_config_ok (lastIndex c) (lastIndex c + 1) cfg c1 Hn Hm) as (c2 & -> & Hs).
      exists c2. split; [done|]. split.
      { eapply same_log_relog; [|apply Hs]. by destruct Hrl; constructor. }
      rewrite (sp_role _ _ Hs), (sp_currentTerm _ _ Hs). destruct (sp_maps _ _ Hs).
      by rewrite (same_log_active _ _ (sp_same _ _ Hs)).
    - exists c1. rewrite Ha, Hai. done. }
  destruct Hex as (c2 & -> & Hrl2 & Hr2 & Ht2 & Hn2 & Hm2 & Hc2). exists c2. split; [done|].
  destruct (leader_append_wf c c2 entry Hwf Hr Hb eq_refl Hrl2 Hr2 Hn2 Hm2 Hc2) as [H1 H2].
  split; [done|]. split; [done|]. destruct Hrl2. constructor; try done.
  rewrite rl_log0, take_ge by lia. done.
Qed.

Lemma appendLeaderEntry_post c t data :
  core_wf c → c_role c = Leader → lastIndex c + 2 < 2 ^ 64 →
  (t = EntryConfig → is_Some (established data)) →
  ∃ r, appendLeaderEntry c t data = Ok r ∧ step_post c r ∧ appended c (leader_entry c t data) r.1 ∧
    ∃ seq, out_PersistRequest r.2 = Some (mkPersistRequest seq None 0 [leader_entry c t data]).
Proof.
  intros Hwf Hr Hb Ht. destruct (wf_leader c Hwf Hr) as [Hn [mt Hm]].
  pose proof (wf_commit c Hwf). pose proof (wf_snapshot c Hwf).
  unfold appendLeaderEntry. rewrite Hm, u64_small by (unfold is_u64; lia).
  cbn [map_write mbind result_bind]. fold (leader_entry c t data).
  set (c1 := c <| c_log := c_log c ++ [leader_entry c t data] |> <| c_matchIndex := _ |>).
  pose proof (leader_relog c (leader_entry c t data) (Some (<[self c := lastIndex c + 1]> mt)) Hwf Hb
    eq_refl) as Hrl. fold c1 in Hrl.
  destruct (activate_entry_spec c c1 t data) as (c2 & -> & Hwf2 & Hx2 & Ha2); [done|done|done|done|done|done|done|done|done|done|by eexists|].
  cbn [mbind result_bind]. pose proof (ap_role _ _ _ Ha2) as Hr2.
  destruct (await_self_match_spec c2 (lastIndex c + 1)) as (Hs3 & Hr3 & Ht3 & Hn3 & Hm3).
  destruct (await_self_match c2 (lastIndex c + 1)) as [c3 seq]. cbn [fst snd] in *.
  destruct (wf_leader c2 Hwf2 Hr2) as [Hn2 Hm2].
  match goal with |- context [broadcast c3 ?o] =>
    destruct (broadcast_spec c3 o) as (x & msgs & -> & _); [by rewrite Hn3|] end.
  eexists. split; [reflexivity|].
  assert (Hs4 : same_log c2 (c3 <| c_nextIndex := Some x |>)).
  { eapply same_log_trans; [exact Hs3|by constructor]. }
  assert (Hwf4 : core_wf (c3 <| c_nextIndex := Some x |>)).
  { eapply wf_same_log; [exact Hwf2|done|]. split; cbn; rewrite Hr3, Hr2; [done|].
    intros _. split; [done|]. by rewrite Hm3. }
  assert (Ha4 : appended c (leader_entry c t data) (c3 <| c_nextIndex := Some x |>)).
  { by eapply appended_same_log. }
  split; [|split; [done|by eexists]].
  constructor; cbn [fst snd]; [done|apply Ha4|rewrite (ap_term _ _ _ Ha4); done|].
  eapply (ext_rel_trans c c2 _ [] []); [done|done|done|by apply ext_rel_same].
Qed.

Lemma handlePropose_post c data :
  core_wf c → lastIndex c + 2 < 2 ^ 64 → safe (handlePropose c data) (step_post c).
Proof.
  intros Hwf Hb. unfold handlePropose. case_bool_decide as Hr; cbn [negb].
  - by destruct (appendLeaderEntry_post c EntryNormal data) as (r & -> & Hp & _).
  - apply step_post_same; [done|by constructor|by apply wf_role_ok|lia|done].
Qed.

(** ** AppendEntries requests *)

(** Entries numbered consecutively after [prev]. *)
Definition entries_from (prev : Z) (es : list Entry) : Prop :=
  ∀ i e, es !! i = Some e → e_Index e = prev + 1 + Z.of_nat i.

Lemma entries_from_tail prev e es : entries_from prev (e :: es) → entries_from (prev + 1) es.
Proof. intros H i x Hx. specialize (H (S i) x Hx). lia. Qed.

(** The scan keeps the log up to some position past the commit index, and
    the entries left to append continue it. *)
Lemma append_scan_spec c prev es :
  core_wf c → entries_from prev es → c_snapshotIndex c ≤ prev ≤ lastIndex c →
  prev + zlen es + 1 < 2 ^ 64 →
  safe (append_scan c (prev + 1) es) (λ '(c1, tf, new),
    ∃ k, relog c (c1 <| c_log := c_log c1 ++ new |>) k new ∧
      c_log c1 = take k (c_log c) ∧ (tf = 0 → k = length (c_log c) ∧ c1 = c) ∧
      (tf ≠ 0 → c_commitIndex c < tf ≤ lastIndex c ∧ c_log c1 = take (Z.to_nat (tf - c_snapshotIndex c)) (c_log c)) ∧
      same_log c (c1 <| c_log := c_log c |>) ∧
      c_role c1 = c_role c ∧ c_currentTerm c1 = c_currentTerm c ∧
      c_votesReceived c1 = c_votesReceived c ∧
      c_nextIndex c1 = c_nextIndex c ∧ c_matchIndex c1 = c_matchIndex c).
Proof.
  intros Hwf. pose proof (wf_snapshot c Hwf) as Hsn. pose proof (wf_commit c Hwf) as Hcm.
  pose proof (wf_bound c Hwf) as Hbd.
  revert prev. induction es as [|e es IH]; intros prev He Hp Hb; cbn [append_scan].
  { exists (length (c_log c)). split.
    - constructor; try done.
      + cbn. rewrite take_ge by lia. done.
      + unfold lastIndex, zlen in *. lia.
      + unfold lastIndex, zlen in *. simpl. lia.
    - rewrite take_ge by lia. split; [done|]. split; [done|]. split; [done|].
      split; [by constructor|done]. }
  rewrite zlen_cons in Hb. pose proof (zlen_nonneg es).
  destruct (Z.leb_spec (prev + 1) (lastIndex c)) as [Hle|Hgt]; cbn [andb].
  - destruct (Z.eqb_spec (termAt c (prev + 1)) (e_Term e)) as [Hte|Hte]; cbn [andb].
    + rewrite u64_small by (unfold is_u64; lia). apply IH; [by eapply entries_from_tail|lia|lia].
    + destruct (Z.leb_spec (prev + 1) (c_commitIndex c)); [by left|].
      rewrite log_slice_ok by (unfold pos, lastIndex in *; cbn; lia). cbn [mbind result_bind safe].
      rewrite Z.sub_0_r, drop_0. cbn [c_log c_snapshotIndex invalidatePendingFrom modify].
      exists (Z.to_nat (prev + 1 - c_snapshotIndex c)).
      unfold pos. change (c_snapshotIndex (invalidatePendingFrom c (prev + 1))) with (c_snapshotIndex c).
      change (c_log (invalidatePendingFrom c (prev + 1))) with (c_log c).
      split; [|split; [done|split; [lia|split; [done|split; [by constructor|done]]]]].
      constructor; try done.
      * unfold lastIndex, zlen in *. lia.
      * intros i x Hx. pose proof (He i x Hx). lia.
      * rewrite zlen_cons. lia.
  - exists (length (c_log c)).
    assert (prev = lastIndex c) as -> by lia. split.
    + constructor; try done.
      * cbn. rewrite take_ge by lia. done.
      * unfold lastIndex, zlen in *. lia.
      * intros i x Hx. pose proof (He i x Hx). unfold lastIndex, zlen in *. lia.
      * rewrite zlen_cons. unfold lastIndex, zlen in *. lia.
    + rewrite take_ge by lia. split; [done|]. split; [done|]. split; [done|].
      split; [by constructor|done].
Qed.

(** Activation on the fly agrees with reading the entries forwards. *)
Lemma activate_loop_spec prior c es :
  safe (activate_loop prior c es) (λ c',
    (c_activeConfig c', c_activeConfigIndex c') =
      default (c_activeConfig c, c_activeConfigIndex c) (last (omap establishes_at es)) ∧
    same_log (c <| c_activeConfig := c_activeConfig c' |>
                <| c_activeConfigIndex := c_activeConfigIndex c' |>) c' ∧
    c_role c' = c_role c ∧ c_currentTerm c' = c_currentTerm c ∧
    c_votesReceived c' = c_votesReceived c ∧ c_nextIndex c' = c_nextIndex c ∧
    c_matchIndex c' = c_matchIndex c).
Proof.
  revert prior c. induction es as [|e es IH]; intros prior c; cbn [activate_loop].
  { split; [done|]. split; [by constructor|done]. }
  assert (Hskip : establishes_at e = None → omap establishes_at (e :: es) = omap establishes_at es).
  { intros H. simpl. by rewrite H. }
  case_bool_decide as Ht; cbn [negb].
  2: { rewrite Hskip; [apply IH|]. unfold establishes_at. by rewrite bool_decide_false. }
  destruct (decodeConfigChange (e_Data e)) as [cc|err] eqn:Hd; [|by right; left].
  assert (Hest : established (e_Data e) = if cc_establishes cc then Some (cc_cfg cc) else None).
  { unfold established. by rewrite Hd. }
  destruct (cc_establishes cc); cbn [negb].
  2: { rewrite Hskip; [apply IH|]. unfold establishes_at. rewrite bool_decide_true by done. by rewrite Hest. }
  case_if; [by right; right|].
  eapply safe_mono; [apply IH|]. intros c' (H1 & H2 & H3 & H4 & H5 & H6 & H7).
  assert (He : establishes_at e = Some (cc_cfg cc, e_Index e)).
  { unfold establishes_at. rewrite bool_decide_true by done. by rewrite Hest. }
  split; [|split; [|done]].
  - assert (Hom : omap establishes_at (e :: es) = (cc_cfg cc, e_Index e) :: omap establishes_at es)
      by (simpl; by rewrite He).
    rewrite H1, Hom, last_cons. by destruct (last (omap establishes_at es)).
  - eapply same_log_trans; [|exact H2]. by constructor.
Qed.

(** The opening of the two requests of a leader. *)
Lemma accept_leader_spec intn c msg out :
  c_currentTerm c ≤ m_Term msg →
  let r := accept_leader intn c msg out in
  same_log c r.1.1 ∧ c_role r.1.1 = Follower ∧ c_currentTerm r.1.1 = m_Term msg ∧
  out_CommittedEntries r.1.2 = out_CommittedEntries out.
Proof.
  intros Hle. cbv zeta. unfold accept_leader.
  set (newer := c_currentTerm c <? m_Term msg).
  destruct (step_down_if_spec (newer || negb (bool_decide (c_role c = Follower))) c (m_Term msg) out)
    as (Hs & Hr & Ht & Ho & _).
  destruct (step_down_if _ c (m_Term msg) out) as [c1 out1]. cbn [fst snd] in *.
  split; [eapply same_log_trans; [exact Hs|by constructor]|].
  split; [|split; [|done]]; cbn.
  - rewrite Hr. case_bool_decide as Hf; [|by rewrite orb_true_r].
    by destruct (newer || negb true).
  - rewrite Ht. destruct (newer || negb _) eqn:E; [done|].
    apply orb_false_iff in E as [E _]. unfold newer in E. bool_to_prop. lia.
Qed.

Lemma persist_if_spec b c out :
  same_log c (persist_if b c out).1 ∧ c_role (persist_if b c out).1 = c_role c ∧
  c_currentTerm (persist_if b c out).1 = c_currentTerm c ∧
  c_votesReceived (persist_if b c out).1 = c_votesReceived c ∧
  c_nextIndex (persist_if b c out).1 = c_nextIndex c ∧
  c_matchIndex (persist_if b c out).1 = c_matchIndex c ∧
  out_CommittedEntries (persist_if b c out).2 = out_CommittedEntries out.
Proof. destruct b; (split; [by constructor|done]). Qed.

(** A follower's state that only differs in pending work and sequence
    numbers. *)
Record quiet (c c' : Core) : Prop := {
  q_log : same_log c c';
  q_role : c_role c' = c_role c;
  q_term : c_currentTerm c' = c_currentTerm c;
  q_votedFor : c_votedFor c' = c_votedFor c;
  q_heard : c_heardFromLeader c' = c_heardFromLeader c;
  q_votes : c_votesReceived c' = c_votesReceived c;
  q_next : c_nextIndex c' = c_nextIndex c;
  q_match : c_matchIndex c' = c_matchIndex c
}.

Lemma quiet_refl c : quiet c c.
Proof. constructor; [by constructor|done..]. Qed.

Lemma quiet_trans c c' c'' : quiet c c' → quiet c' c'' → quiet c c''.
Proof. intros [] []. constructor; [by eapply same_log_trans|congruence..]. Qed.

Lemma quiet_wf c c' : core_wf c → quiet c c' → core_wf c'.
Proof.
  intros Hwf []. eapply wf_same_log; [done|done|]. eapply role_ok_same; [by apply wf_role_ok|done..].
Qed.

Lemma quiet_pending c p : quiet c (c <| c_pending := p |>).
Proof. constructor; [by constructor|done..]. Qed.

Lemma quiet_persistSeq c : quiet c (nextPersistSeq c).1.
Proof. constructor; [by constructor|done..]. Qed.

Lemma step_post_quiet c c' r : core_wf c → quiet c c' → step_post c' r → step_post c r.
Proof.
  intros Hwf Hq [H1 H2 H3 H4]. constructor; [done| | |].
  - rewrite H2. apply Hq.
  - rewrite <- (q_term _ _ Hq). done.
  - apply (ext_rel_trans c c' r.1 []); [done|done|by apply ext_rel_same, Hq|done].
Qed.

Lemma step_post_then_quiet c c1 out1 c2 out2 :
  step_post c (c1, out1) → quiet c1 c2 →
  out_CommittedEntries out2 = out_CommittedEntries out1 → step_post c (c2, out2).
Proof.
  intros [H1 H2 H3 H4] Hq Ho. cbn [fst snd] in *.
  constructor; cbn [fst snd].
  - by eapply quiet_wf.
  - rewrite <- H2. apply Hq.
  - by rewrite (q_term _ _ Hq).
  - rewrite Ho. destruct H4, Hq as [[] _ _ _ _ _ _ _]. constructor; try congruence; try lia.
    rewrite er_es0. unfold entries_between. by rewrite sl_snap0, sl_log0, sl_commit0.
Qed.

Lemma advanceFollowerCommit_post c n out :
  core_wf c → out_CommittedEntries out = [] →
  ∃ r, advanceFollowerCommit c n out = Ok r ∧ step_post c r.
Proof.
  intros Hwf Ho. destruct (advanceFollowerCommit_spec c n out Hwf) as (n' & -> & Hn).
  eexists. split; [done|]. constructor; cbn [fst snd].
  - by apply wf_commit_to.
  - done.
  - cbn. lia.
  - cbn. rewrite Ho. by apply ext_rel_commit.
Qed.

(** The parts of the tail of the handler. *)
Definition finish_persist (c : Core) (out : Output) (need stateChanged : bool) (tf : Z)
    (new : list Entry) : Core * Output * Z :=
  if need then
    let '(c, seq) := nextPersistSeq c in
    (c, out <| out_PersistRequest := Some (mkPersistRequest seq
                 (if stateChanged then Some (hard_state c) else None) tf new) |>, seq)
  else (c, out, 0).

Lemma finish_persist_quiet c out need sc tf new :
  quiet c (finish_persist c out need sc tf new).1.1 ∧
  out_CommittedEntries (finish_persist c out need sc tf new).1.2 = out_CommittedEntries out.
Proof. destruct need; (split; [constructor; [by constructor|done..]|done]). Qed.

Lemma append_finish_post c msg out sc tf new :
  core_wf c → out_CommittedEntries out = [] →
  safe (append_finish c msg out sc tf new) (step_post c).
Proof.
  intros Hwf Ho. unfold append_finish. cbv zeta.
  set (need := sc || negb (tf =? 0) || negb (zlen new =? 0)).
  set (lastNew := m_PrevLogIndex msg + zlen (m_Entries msg)).
  fold (finish_persist c out need sc tf new).
  destruct (finish_persist_quiet c out need sc tf new) as [Hq Ho1].
  destruct (finish_persist c out need sc tf new) as [[c1 out1] seq]. cbn [fst snd] in *.
  pose proof (quiet_wf _ _ Hwf Hq) as Hwf1. rewrite Ho in Ho1.
  apply safe_bind.
  assert (Hid : step_post c1 (c1, out1)).
  { apply step_post_same; [done|by constructor|by apply wf_role_ok|lia|done]. }
  apply (safe_mono _ (step_post c1)).
  - repeat case_if; cbn [safe]; try done;
      try (by eapply step_post_then_quiet; [exact Hid|apply quiet_pending|done]);
      match goal with |- context [advanceFollowerCommit c1 ?n out1] =>
        by destruct (advanceFollowerCommit_post c1 n out1) as (r & -> & Hr) end.
  - intros [c2 out2] Hp. apply (step_post_quiet c c1) in Hp; [|done|done].
    case_if; cbn [safe]; (eapply step_post_then_quiet; [exact Hp| |done]).
    + apply quiet_pending.
    + apply quiet_refl.
Qed.

(** The configuration after the append: recomputed after a truncation,
    activated on the fly otherwise. *)
Definition reconfigure (c : Core) (tf : Z) (new : list Entry) : result raft_panic Core :=
  if negb (tf =? 0) then
    let '(cfg, idx) := ConfigAt c (lastIndex c) in
    Ok (c <| c_activeConfig := cfg |> <| c_activeConfigIndex := idx |>)
  else if negb (zlen new =? 0) then activateFromAppendedEntries c new
  else Ok c.

Lemma relog_active c c' k es cfg idx :
  relog c c' k es → relog c (c' <| c_activeConfig := cfg |> <| c_activeConfigIndex := idx |>) k es.
Proof. intros []. by constructor. Qed.

Lemma reconfigure_spec c c2 k tf new :
  core_wf c → relog c c2 k new → c_role c2 = Follower → c_currentTerm c2 = c_currentTerm c →
  c_activeConfig c2 = c_activeConfig c → c_activeConfigIndex c2 = c_activeConfigIndex c →
  (tf = 0 → k = length (c_log c)) →
  safe (reconfigure c2 tf new) (λ c3, core_wf c3 ∧ ext_rel c c3 [] ∧
    c_cfg c3 = c_cfg c ∧ c_currentTerm c3 = c_currentTerm c).
Proof.
  intros Hwf Hrl Hr Ht Ha Hai Hk. unfold reconfigure.
  destruct (Z.eqb_spec tf 0) as [->|]; cbn [negb].
  2: { destruct (ConfigAt c2 (lastIndex c2)) as [cfg idx] eqn:E. cbn [safe].
       destruct (relog_wf c _ k new Hwf (relog_active _ _ _ _ cfg idx Hrl)); [by apply role_ok_follower|exact (eq_sym E)|].
       split; [done|]. split; [done|]. split; [apply Hrl|done]. }
  rewrite (Hk eq_refl) in Hrl.
  destruct (Z.eqb_spec (zlen new) 0) as [H0|]; cbn [negb].
  - assert (new = []) as -> by (destruct new; [done|rewrite zlen_cons in H0; pose proof (zlen_nonneg new); lia]).
    cbn [safe]. destruct (appended_wf c c2 [] Hwf Hrl); [by apply role_ok_follower|by rewrite Ha, Hai|].
    split; [done|]. split; [done|]. split; [apply Hrl|done].
  - unfold activateFromAppendedEntries. eapply safe_mono; [apply activate_loop_spec|].
    intros c3 (H1 & H2 & H3 & H4 & _).
    assert (Hrl3 : relog c c3 (length (c_log c)) new).
    { eapply same_log_relog; [|exact H2]. by apply relog_active. }
    destruct (appended_wf c c3 new Hwf Hrl3); [apply role_ok_follower; congruence|by rewrite H1, Ha, Hai|].
    split; [done|]. split; [done|]. split; [apply Hrl3|congruence].
Qed.

(** A message of a leader that numbers its entries as it must. *)
Definition append_msg_ok (msg : Message) : Prop :=
  0 ≤ m_PrevLogIndex msg ∧ entries_from (m_PrevLogIndex msg) (m_Entries msg) ∧
  (m_Entries msg = [] ∨ m_PrevLogIndex msg + zlen (m_Entries msg) + 1 < 2 ^ 64).

Lemma step_post_after c c1 r :
  core_wf c → core_wf c1 → same_log c c1 → c_currentTerm c ≤ c_currentTerm c1 →
  step_post c1 r → step_post c r.
Proof.
  intros Hwf Hwf1 Hs Ht [H1 H2 H3 H4]. constructor; [done| |lia|].
  - rewrite H2. apply Hs.
  - apply (ext_rel_trans c c1 r.1 []); [done|done|by apply ext_rel_same|done].
Qed.

Lemma persist_if_post b c out :
  core_wf c → out_CommittedEntries out = [] → step_post c (persist_if b c out).
Proof.
  intros Hwf Ho. destruct (persist_if_spec b c out) as (Hs & H1 & H2 & H3 & H4 & H5 & H6).
  destruct (persist_if b c out) as [c' out']. cbn [fst snd] in *.
  apply step_post_same; [done|done| |lia|congruence].
  eapply role_ok_same; [by apply wf_role_ok|done..].
Qed.

Lemma handleAppendEntriesRequest_post intn c msg :
  core_wf c → append_msg_ok msg → safe (handleAppendEntriesRequest intn c msg) (step_post c).
Proof.
  intros Hwf (Hp0 & He & Hb). unfold handleAppendEntriesRequest.
  destruct (Z.ltb_spec (m_Term msg) (c_currentTerm c)); cbn [safe].
  { apply step_post_same; [done|by constructor|by apply wf_role_ok|lia|done]. }
  destruct (accept_leader_spec intn c msg no_output) as (Hs & Hr & Ht & Ho); [done|].
  destruct (accept_leader intn c msg no_output) as [[c1 out1] sc]. cbn [fst snd] in *.
  assert (Hwf1 : core_wf c1) by (eapply wf_same_log; [done|done|by apply role_ok_follower]).
  eapply safe_mono; [|intros r; apply (step_post_after c c1 r); [done|done|done|lia]].
  clear c Hwf Hs Ht H.
  destruct (Z.ltb_spec (m_PrevLogIndex msg) (c_snapshotIndex c1)); cbn [safe].
  { by apply persist_if_post. }
  destruct (Z.ltb_spec (lastIndex c1) (m_PrevLogIndex msg)); cbn [orb].
  { destruct (conflictHint _ _). by apply persist_if_post. }
  destruct (_ =? _) eqn:Hterm; cbn [negb].
  2: { destruct (conflictHint _ _). by apply persist_if_post. }
  pose proof (zlen_nonneg (m_Entries msg)). pose proof (wf_bound c1 Hwf1).
  assert (m_PrevLogIndex msg + zlen (m_Entries msg) + 1 < 2 ^ 64).
  { destruct Hb as [->|]; [rewrite zlen_nil|]; lia. }
  rewrite u64_small by (unfold is_u64; lia).
  apply safe_bind. eapply safe_mono; [apply (append_scan_spec c1 (m_PrevLogIndex msg)); [done|done|lia|lia]|].
  intros [[c2 tf] new] (k & Hrl & _ & Hk & _ & Hs2 & Hr2 & Ht2 & _).
  fold (reconfigure (c2 <| c_log := c_log c2 ++ new |>) tf new).
  apply safe_bind. eapply safe_mono.
  { apply (reconfigure_spec c1 _ k); [done|done|cbn; congruence|done|apply Hs2|apply Hs2|].
    intros H'. by apply Hk. }
  intros c3 (Hwf3 & Hx & Hc & Ht3).
  eapply safe_mono; [by apply (append_finish_post c3)|].
  intros r [H4 H5 H6 H7]. constructor; [done|congruence|lia|].
  by apply (ext_rel_trans c1 c3 r.1 []).
Qed.

(** ** Responses to the leader *)

Lemma step_post_then_same c c1 out1 c2 out2 :
  step_post c (c1, out1) → same_log c1 c2 → role_ok c2 → c_currentTerm c1 ≤ c_currentTerm c2 →
  out_CommittedEntries out2 = out_CommittedEntries out1 → step_post c (c2, out2).
Proof.
  intros [H1 H2 H3 H4] Hs Hr Ht Ho. cbn [fst snd] in *. constructor; cbn [fst snd].
  - by eapply wf_same_log.
  - rewrite <- H2. apply Hs.
  - lia.
  - rewrite Ho. destruct H4, Hs. constructor; try congruence; try lia.
    rewrite er_es0. unfold entries_between. by rewrite sl_snap0, sl_log0, sl_commit0.
Qed.

Lemma map_write_ok {A} (m : option (gmap bytes A)) k v :
  is_Some m → ∃ x, map_write m k v = Ok (Some x).
Proof. intros [x ->]. by eexists. Qed.

(** A conditional write to a map that is not nil. *)
Lemma write_if_ok {A} (b : bool) (m : option (gmap bytes A)) k v :
  is_Some m → ∃ x, (if b then map_write m k v else Ok m) = Ok (Some x).
Proof. intros [x ->]. destruct b; by eexists. Qed.

Lemma note_match_spec c from m :
  is_Some (c_nextIndex c) → is_Some (c_matchIndex c) →
  ∃ x y, note_match c from m = Ok (c <| c_matchIndex := Some y |> <| c_nextIndex := Some x |>).
Proof.
  intros Hn Hm. unfold note_match.
  destruct (write_if_ok (map_read 0 (c_matchIndex c) from <? m) (c_matchIndex c) from m Hm) as [y ->].
  cbn [mbind result_bind].
  destruct (write_if_ok (map_read 0 (c_nextIndex c) from <? (m + 1)%u64) (c_nextIndex c) from
              (m + 1)%u64 Hn) as [x ->].
  by exists x, y.
Qed.

Lemma continue_replication_spec c from out :
  role_ok c →
  ∃ c' out', continue_replication c from out = Ok (c', out') ∧ same_log c c' ∧ role_ok c' ∧
    c_currentTerm c' = c_currentTerm c ∧ out_CommittedEntries out' = out_CommittedEntries out.
Proof.
  intros Hr. unfold continue_replication. case_if.
  - bool_to_prop. destruct (proj2 Hr ltac:(done)) as [Hn Hm].
    destruct (appendEntriesMessage_spec c from Hn) as (x & m & -> & _). cbn [mbind result_bind].
    do 2 eexists. split; [reflexivity|]. split; [by constructor|].
    split; [|done]. split; [apply Hr|]. intros _. by split.
  - do 2 eexists. split; [reflexivity|]. split; [by constructor|done].
Qed.

(** Progress, commit and the next batch: the success path of both response
    handlers. *)
Lemma acknowledged_post c from m :
  core_wf c → c_role c = Leader →
  ∃ r, (c1 ← note_match c from m; '(c2, out) ← advanceLeaderCommit c1 no_output;
        continue_replication c2 from out) = Ok r ∧ step_post c r.
Proof.
  intros Hwf Hl. destruct (wf_leader c Hwf Hl) as [Hn Hm].
  destruct (note_match_spec c from m Hn Hm) as (x & y & ->). cbn [mbind result_bind].
  set (c1 := c <| c_matchIndex := Some y |> <| c_nextIndex := Some x |>).
  assert (Hwf1 : core_wf c1).
  { eapply wf_same_log; [exact Hwf|by constructor|]. split; cbn; [rewrite Hl; done|by eauto]. }
  destruct (advanceLeaderCommit_post c1 no_output Hwf1 eq_refl) as ([c2 out2] & -> & Hp).
  cbn [mbind result_bind].
  destruct (continue_replication_spec c2 from out2) as (c3 & out3 & -> & Hs & Hr & Ht & Ho).
  { apply wf_role_ok, Hp. }
  eexists. split; [reflexivity|].
  apply (step_post_after c c1); [done|done|by constructor|done|].
  eapply step_post_then_same; [exact Hp|done|done|lia|done].
Qed.

Lemma handleInstallSnapshotResponse_post intn c msg :
  core_wf c → safe (handleInstallSnapshotResponse intn c msg) (step_post c).
Proof.
  intros Hwf. unfold handleInstallSnapshotResponse.
  destruct (Z.ltb_spec (c_currentTerm c) (m_Term msg)).
  { apply newer_term_response_post; [done|lia|done]. }
  case_if; [by apply step_post_same; [..|apply wf_role_ok|lia|]|].
  bool_to_prop. by destruct (acknowledged_post c (m_From msg) (m_MatchIndex msg) Hwf) as (r & -> & ?).
Qed.

Lemma handleAppendEntriesResponse_post intn c msg :
  core_wf c → safe (handleAppendEntriesResponse intn c msg) (step_post c).
Proof.
  intros Hwf. unfold handleAppendEntriesResponse.
  destruct (Z.ltb_spec (c_currentTerm c) (m_Term msg)).
  { apply newer_term_response_post; [done|lia|done]. }
  case_if; [by apply step_post_same; [..|apply wf_role_ok|lia|]|].
  bool_to_prop. assert (Hl : c_role c = Leader) by done.
  destruct (m_Success msg).
  { by destruct (acknowledged_post c (m_From msg) (m_MatchIndex msg) Hwf) as (r & -> & ?). }
  cbv zeta. destruct (wf_leader c Hwf Hl) as [Hn Hm].
  match goal with |- context [if ?b then map_write ?m ?k ?v else _] =>
    destruct (write_if_ok b m k v Hn) as [x ->] end.
  cbn [mbind result_bind]. set (c1 := c <| c_nextIndex := Some x |>).
  assert (Hwf1 : core_wf c1).
  { eapply wf_same_log; [exact Hwf|by constructor|]. split; cbn; [rewrite Hl; done|by eauto]. }
  apply (safe_mono _ (step_post c1)); [|intros r; by apply step_post_after].
  case_if.
  - destruct (appendEntriesMessage_spec c1 (m_From msg)) as (y & m & -> & _); [done|].
    cbn [mbind result_bind safe]. apply step_post_same; [done|by constructor| |done|done].
    split; cbn; [rewrite Hl; done|by eauto].
  - by apply step_post_same; [..|apply wf_role_ok|lia|].
Qed.

(** ** Persistence completions *)

Lemma step_post_refl c out : core_wf c → out_CommittedEntries out = [] → step_post c (c, out).
Proof. intros Hwf Ho. by apply step_post_same; [..|apply wf_role_ok|lia|]. Qed.

(** A commit advance after other outputs: the deliveries concatenate. *)
Lemma step_post_deliver c0 c out n :
  core_wf c0 → step_post c0 (c, out) → c_commitIndex c ≤ n ≤ lastIndex c →
  step_post c0 (c <| c_commitIndex := n |>, deliver out (entries_between c (c_commitIndex c) n)).
Proof.
  intros Hwf0 [H1 H2 H3 H4] Hn. cbn [fst snd] in *.
  pose proof (wf_commit_to c n H1 Hn) as Hwf'.
  constructor; cbn [fst snd]; [done|done|done|].
  eapply ext_rel_trans; [done|done|exact H4|]. by apply ext_rel_commit.
Qed.

Lemma release_pending_post c0 c out p :
  core_wf c0 → step_post c0 (c, out) →
  ∃ r, release_pending c out p = Ok r ∧ step_post c0 r.
Proof.
  intros Hwf0 Hp. pose proof (sp_wf _ _ Hp) as Hwf. cbn [fst] in Hwf.
  pose proof (wf_role_ok c Hwf) as Hr.
  assert (Hsame : ∀ m, step_post c0 (c, send m out)).
  { intros m. by eapply step_post_then_same; [exact Hp|..|lia|]. }
  unfold release_pending. destruct (p_kind p).
  - case_if; eexists; (split; [reflexivity|]); [apply Hsame|done].
  - case_if; eexists; (split; [reflexivity|]); [apply Hsame|done].
  - case_if; [|by eexists].
    destruct (advanceFollowerCommit_spec c (p_index p) out Hwf) as (n & -> & Hn).
    eexists. split; [reflexivity|]. by apply step_post_deliver.
  - case_if; [|by eexists]. bool_to_prop. destruct (wf_leader c Hwf) as [Hni Hmi]; [done|].
    match goal with |- context [if ?b then map_write ?m ?k ?v else _] =>
      destruct (write_if_ok b m k v Hmi) as [x ->] end.
    cbn [mbind result_bind]. set (c1 := c <| c_matchIndex := Some x |>).
    assert (Hp1 : step_post c0 (c1, out)).
    { eapply step_post_then_same; [exact Hp|by constructor| |cbn; lia|done].
      split; cbn; [apply Hr|by eauto]. }
    destruct (advanceLeaderCommit_spec c1 out) as [->|(n & -> & Hn & _)]; [apply Hp1|by eexists|].
    eexists. split; [reflexivity|]. unfold maybeStepDownAfterSelfRemoval.
    case_if; [apply step_post_deliver; [done|done|lia]|].
    eapply step_post_then_same;
      [apply step_post_deliver; [done|exact Hp1|split; [|apply Hn]; lia]
      |by constructor|by apply role_ok_follower|cbn; lia|done].
Qed.

Lemma release_loop_post c0 ps c out rem :
  core_wf c0 → step_post c0 (c, out) →
  ∃ c' out' rem', release_loop c out rem ps = Ok (c', out', rem') ∧ step_post c0 (c', out').
Proof.
  intros Hwf0. revert c out rem. induction ps as [|p ps IH]; intros c out rem Hp; cbn [release_loop].
  { do 3 eexists. by split. }
  case_if; [by apply IH|].
  destruct (release_pending_post c0 c out p Hwf0 Hp) as ([c1 out1] & -> & Hp1).
  cbn [mbind result_bind]. by apply IH.
Qed.

Lemma handlePersistenceComplete_post c seq :
  core_wf c → ∃ r, handlePersistenceComplete c seq = Ok r ∧ step_post c r.
Proof.
  intros Hwf. unfold handlePersistenceComplete. cbv zeta.
  set (c1 := if c_persistedSeq c <? seq then c <| c_persistedSeq := seq |> else c).
  assert (Hq : quiet c c1).
  { unfold c1. case_if; [|apply quiet_refl]. constructor; [by constructor|done..]. }
  pose proof (quiet_wf _ _ Hwf Hq) as Hwf1.
  destruct (release_loop_post c1 (c_pending c1) c1 no_output [] Hwf1) as (c2 & out2 & rem & -> & Hp).
  { by apply step_post_refl. }
  eexists. split; [reflexivity|].
  apply (step_post_then_quiet c c2 out2); [|apply quiet_pending|done].
  by apply (step_post_quiet c c1).
Qed.

(** ** Snapshot installation *)

(** What accepting a snapshot does: the boundary, the commit index and the
    log become the snapshot's, nothing is delivered, and the applied index
    catches up. *)
Record snapshot_post (c : Core) (msg : Message) (r : Core * Output) : Prop := {
  sn_wf : core_wf r.1;
  sn_cfg : c_cfg r.1 = c_cfg c;
  sn_term : c_currentTerm r.1 = m_Term msg;
  sn_commit : c_commitIndex c < c_commitIndex r.1;
  sn_boundary : c_snapshotIndex r.1 = m_LastIncludedIndex msg ∧
    c_snapshotTerm r.1 = m_LastIncludedTerm msg ∧ c_commitIndex r.1 = m_LastIncludedIndex msg ∧
    c_appliedIndex r.1 = m_LastIncludedIndex msg ∧ lastIndex r.1 = m_LastIncludedIndex msg;
  sn_config : c_activeConfig r.1 =
    if m_HasConfiguration msg then m_Configuration msg else c_bootstrapConfig c;
  sn_delivered : out_CommittedEntries r.2 = []
}.

Lemma reset_to_snapshot_post c msg :
  core_wf c → c_role c = Follower → c_currentTerm c = m_Term msg →
  c_commitIndex c < m_LastIncludedIndex msg → m_LastIncludedIndex msg + 1 < 2 ^ 64 →
  snapshot_post c msg (reset_to_snapshot c msg, no_output).
Proof.
  intros Hwf Hr Ht Hc Hb. unfold reset_to_snapshot, SetApplied. cbv zeta.
  pose proof (wf_commit c Hwf). pose proof (wf_snapshot c Hwf). pose proof (wf_applied c Hwf).
  match goal with |- context [if c_commitIndex ?x <? _ then _ else _] => set (c1 := x) end.
  change (c_commitIndex c1) with (c_commitIndex c).
  change (c_snapshotIndex c1) with (m_LastIncludedIndex msg).
  rewrite (proj2 (Z.ltb_lt (c_commitIndex c) _)) by lia.
  set (c2 := c1 <| c_commitIndex := _ |>).
  change (c_appliedIndex c2) with (c_appliedIndex c).
  change (c_snapshotIndex c2) with (m_LastIncludedIndex msg).
  rewrite (proj2 (Z.ltb_lt (c_appliedIndex c) _)) by lia.
  match goal with |- snapshot_post _ _ (?x, _) => set (c3 := x) end.
  assert (Hlast : lastIndex c3 = m_LastIncludedIndex msg).
  { rewrite (lastIndex_cons c3 _ [] eq_refl). cbn. lia. }
  constructor; cbn [fst snd]; [|done|done|done|by repeat (split; [done|])|done|done].
  constructor; [done| |cbn; lia|rewrite Hlast; cbn; lia|cbn; lia|lia|by cbn; rewrite Hr|by cbn; rewrite Hr|].
  - intros p e Hp. destruct p; [|done]. injection Hp as <-. cbn. lia.
  - rewrite (ConfigAt_last c3 _ [] eq_refl); [done|].
    intros p e Hp. destruct p; [|done]. injection Hp as <-. cbn. lia.
Qed.

Lemma reset_to_snapshot_role c msg : c_role (reset_to_snapshot c msg) = c_role c.
Proof. unfold reset_to_snapshot, SetApplied. cbv zeta. cbn. repeat case_if; reflexivity. Qed.

Lemma persist_if_snapshotTerm b c out :
  c_snapshotTerm (persist_if b c out).1 = c_snapshotTerm c.
Proof. by destruct b. Qed.

Lemma handleInstallSnapshotRequest_post intn c msg :
  core_wf c → m_LastIncludedIndex msg + 1 < 2 ^ 64 →
  let r := handleInstallSnapshotRequest intn c msg in
  if (c_currentTerm c <=? m_Term msg) && (c_commitIndex c <? m_LastIncludedIndex msg)
  then snapshot_post c msg r else step_post c r.
Proof.
  intros Hwf Hb. cbv zeta. unfold handleInstallSnapshotRequest.
  destruct (Z.ltb_spec (m_Term msg) (c_currentTerm c)) as [Hlt|Hle].
  { rewrite (proj2 (Z.leb_gt _ _)) by done. by apply step_post_refl. }
  rewrite (proj2 (Z.leb_le _ _)) by done. cbn [andb].
  destruct (accept_leader_spec intn c msg no_output) as (Hs & Hr & Ht & Ho); [done|].
  destruct (accept_leader intn c msg no_output) as [[c1 out1] sc]. cbn [fst snd] in *.
  assert (Hwf1 : core_wf c1) by (eapply wf_same_log; [done|done|by apply role_ok_follower]).
  pose proof (wf_commit c1 Hwf1). rewrite <- (sl_commit _ _ Hs).
  destruct (Z.leb_spec (m_LastIncludedIndex msg) (c_commitIndex c1)) as [Hc|Hc].
  - rewrite orb_true_r, (proj2 (Z.ltb_ge _ _)) by done.
    apply (step_post_after c c1); [done|done|done|lia|]. by apply persist_if_post.
  - rewrite orb_false_r, (proj2 (Z.leb_gt _ _)), (proj2 (Z.ltb_lt _ _)) by lia.
    destruct (reset_to_snapshot_post c1 msg Hwf1 Hr Ht Hc Hb) as [H1 H2 H3 H4 H5 H6 H7].
    cbn [fst snd] in *.
    destruct (persist_if_spec sc (reset_to_snapshot c1 msg) out1) as (Q1 & Q2 & Q3 & Q4 & Q5 & Q6 & Q7).
    pose proof (persist_if_snapshotTerm sc (reset_to_snapshot c1 msg) out1) as Hst.
    destruct (persist_if sc (reset_to_snapshot c1 msg) out1) as [c2 out2]. cbn [fst snd] in *.
    assert (Hwf2 : core_wf c2).
    { eapply wf_same_log; [exact H1|done|]. apply role_ok_follower. by rewrite Q2, reset_to_snapshot_role. }
    constructor; cbn [fst snd]; [done| |congruence| | | |by cbn; rewrite Q7, Ho].
    + rewrite (sl_cfg _ _ Q1), H2. apply Hs.
    + rewrite (sl_commit _ _ Q1), <- (sl_commit _ _ Hs). done.
    + rewrite (same_log_lastIndex _ _ Q1). destruct Q1. by rewrite sl_snap0, sl_commit0, sl_applied0, Hst.
    + rewrite (sl_active _ _ Q1), H6, (sl_bootstrap _ _ Hs). done.
Qed.

(** Committed entries stay where they are. *)
Lemma committed_entry c c' es k :
  core_wf c → core_wf c' → ext_rel c c' es → k ≤ c_commitIndex c → EntryAt c' k = EntryAt c k.
Proof.
  intros Hwf Hwf' [Hs Hc Hp _] Hk. pose proof (wf_commit c Hwf). pose proof (wf_commit c' Hwf').
  unfold EntryAt, pos. rewrite Hs. destruct (Z.leb_spec k (c_snapshotIndex c)); [done|].
  unfold lastIndex in *. rewrite Hs in *.
  rewrite !(proj2 (Z.ltb_ge _ _)) by lia. rewrite !(proj2 (Z.leb_gt _ _)) by lia. cbn [orb].
  assert (Hx : ∀ l : list Entry, l !! Z.to_nat (k - c_snapshotIndex c) =
    take (Z.to_nat (c_commitIndex c - c_snapshotIndex c + 1)) l !! Z.to_nat (k - c_snapshotIndex c)).
  { intros l. rewrite lookup_take_lt by lia. done. }
  by rewrite (Hx (c_log c')), (Hx (c_log c)), Hp.
Qed.
