(* ===== verification/RaftSpec.v ===== *)
(** * Properties of one Raft core

    The core never panics by itself, keeps its invariant, and hands the
    committed entries to the state machine exactly once and in order; it is
    rebuilt from storage into a well-formed state, and compaction of its log
    cannot be observed above the boundary. *)

From S2P Require Import Prelude Bytes RaftTypes RaftMembership RaftMembershipSpec RaftCore RaftInv.

(** ** Inputs *)

(** What an input must satisfy: the counters do not reach the end of their
    64 bits, and a leader's messages number their entries consecutively. *)
Definition msg_ok (msg : Message) : Prop :=
  match m_Type msg with
  | MsgAppendEntriesRequest => append_msg_ok msg
  | MsgInstallSnapshotRequest => m_LastIncludedIndex msg + 1 < 2 ^ 64
  | _ => True
  end.

Definition input_ok (c : Core) (i : Input) : Prop :=
  match i with
  | InputElectionTimeout => 0 ≤ c_currentTerm c ∧ c_currentTerm c + 1 < 2 ^ 64
  | InputPropose _ => lastIndex c + 2 < 2 ^ 64
  | InputMessage msg => msg_ok msg
  | _ => True
  end.

(** The input that replaces the log by a snapshot. *)
Definition installs (c : Core) (i : Input) : option Message :=
  match i with
  | InputMessage msg =>
      if bool_decide (m_Type msg = MsgInstallSnapshotRequest)
         && ((c_currentTerm c <=? m_Term msg) && (c_commitIndex c <? m_LastIncludedIndex msg))
      then Some msg else None
  | _ => None
  end.

Definition step_result (c : Core) (i : Input) (r : Core * Output) : Prop :=
  match installs c i with
  | Some msg => snapshot_post c msg r
  | None => step_post c r
  end.

Lemma safe_Ok {A} (r : result raft_panic A) (Q : A → Prop) : (∃ a, r = Ok a ∧ Q a) → safe r Q.
Proof. by intros (a & -> & H). Qed.

Lemma handleMessage_result intn c msg :
  core_wf c → msg_ok msg → safe (handleMessage intn c msg) (step_result c (InputMessage msg)).
Proof.
  intros Hwf Hok. unfold handleMessage, step_result, installs. unfold msg_ok in Hok.
  destruct (m_Type msg); cbn [bool_decide andb decide_rel].
  - by apply handleRequestVoteRequest_post.
  - by apply handleRequestVoteResponse_post.
  - by apply handleAppendEntriesRequest_post.
  - by apply handleAppendEntriesResponse_post.
  - pose proof (handleInstallSnapshotRequest_post intn c msg Hwf Hok) as H. cbv zeta in H.
    rewrite bool_decide_true by done. cbn [andb safe]. by destruct (_ && _).
  - by apply handleInstallSnapshotResponse_post.
Qed.

Lemma Step_result intn c i :
  core_wf c → input_ok c i → safe (Step intn c i) (step_result c i).
Proof.
  intros Hwf Hi. destruct i as [| |msg|data|seq]; cbn [Step input_ok] in *.
  - apply handleElectionTimeout_post; [done|apply Hi..].
  - by apply handleHeartbeatTimeout_post.
  - by apply handleMessage_result.
  - by apply handlePropose_post.
  - apply safe_Ok. by apply handlePersistenceComplete_post.
Qed.


(** C16: committed entries are final and are delivered exactly once, in order.
    A step that does not install a snapshot keeps every entry up to the old
    commit index and outputs exactly the entries between the old and the new
    commit index.  A step that installs one outputs no entries and moves the
    boundary, the commit index and the applied index to the snapshot's, which
    is above the old commit index. *)
Theorem step_delivers_commits intn c i c' out :
  core_wf c → input_ok c i → Step intn c i = Ok (c', out) →
  match installs c i with
  | None =>
      c_snapshotIndex c' = c_snapshotIndex c ∧
      (∀ k, k ≤ c_commitIndex c → EntryAt c' k = EntryAt c k) ∧
      out_CommittedEntries out = entries_between c' (c_commitIndex c) (c_commitIndex c')
  | Some msg =>
      out_CommittedEntries out = [] ∧ c_commitIndex c < c_commitIndex c' ∧
      c_snapshotIndex c' = m_LastIncludedIndex msg ∧ c_commitIndex c' = m_LastIncludedIndex msg ∧
      c_appliedIndex c' = m_LastIncludedIndex msg ∧ lastIndex c' = m_LastIncludedIndex msg
  end.
Proof.
  intros Hwf Hi Hstep. pose proof (Step_result intn c i Hwf Hi) as H. rewrite Hstep in H.
  cbn [safe] in H. unfold step_result in H. destruct (installs c i) as [msg|].
  - destruct H as [H1 H2 H3 H4 (H5 & H6 & H7 & H8 & H9) H10 H11]. cbn [fst snd] in *. done.
  - destruct H as [H1 H2 H3 H4]. cbn [fst snd] in *. split; [apply H4|]. split; [|apply H4].
    intros k Hk. by apply (committed_entry c c' (out_CommittedEntries out)).
Qed.

(** ** Construction *)

Lemma gap_free_from want es :
  0 ≤ want → want + zlen es < 2 ^ 64 → gap_free want es = true → entries_from (want - 1) es.
Proof.
  revert want. induction es as [|e es IH]; intros want H0 Hb Hg i x Hx; [done|].
  cbn [gap_free] in Hg. bool_to_prop. rewrite zlen_cons in Hb. pose proof (zlen_nonneg es).
  destruct i as [|i]; cbn in Hx.
  - injection Hx as <-. lia.
  - rewrite u64_small in * by (unfold is_u64; lia).
    pose proof (IH (want + 1) ltac:(lia) ltac:(lia) ltac:(done) i x Hx). lia.
Qed.

Lemma recovered_wf cfg hs si st sc sh es c :
  0 ≤ si → si + zlen es + 1 < 2 ^ 64 →
  NewCoreFromSnapshot cfg hs si st sc sh es = Ok c → core_wf c.
Proof.
  intros H0 Hb. unfold NewCoreFromSnapshot. case_if; [done|]. case_if; [done|].
  bool_to_prop. cbv zeta. pose proof (zlen_nonneg es).
  match goal with |- context [ConfigAt ?x _] => set (c0 := x) end.
  destruct (ConfigAt c0 (lastIndex c0)) as [act idx] eqn:Hc. intros [= <-].
  assert (Hl : lastIndex c0 = si + zlen es) by (unfold lastIndex; cbn; rewrite zlen_cons; lia).
  rewrite u64_small in * by (unfold is_u64; lia).
  match goal with |- core_wf ?x => set (c1 := x) end.
  change (lastIndex c0) with (lastIndex c1) in Hl.
  constructor; [done| |done|rewrite Hl; cbn; lia|done|lia|done|done|exact (eq_sym Hc)].
  intros p e Hp. destruct p as [|p]; [injection Hp as <-; cbn; lia|].
  pose proof (gap_free_from (si + 1) es ltac:(lia) ltac:(lia) ltac:(done) p e Hp). cbn. lia.
Qed.

(** A restarted node starts from a well-formed core.  Building a core from
    a snapshot boundary and the entries after it either reports an invalid
    configuration or a gap, or yields a follower in the persisted term with
    the persisted vote, whose committed and applied indices are the boundary,
    whose log is exactly the given entries and whose active configuration is
    the one those entries establish. *)
Theorem recovered_core cfg hs si st sc sh es :
  0 ≤ si → si + zlen es + 1 < 2 ^ 64 →
  match NewCoreFromSnapshot cfg hs si st sc sh es with
  | Err _ => validate cfg = false ∨ ¬ entries_from si es
  | Ok c => core_wf c ∧ c_role c = Follower ∧ hard_state c = hs ∧ c_commitIndex c = si ∧
      c_appliedIndex c = si ∧ lastIndex c = si + zlen es ∧
      (∀ i, EntryAt c (si + 1 + Z.of_nat i) = es !! i) ∧
      (c_activeConfig c, c_activeConfigIndex c) = ConfigAt c (lastIndex c)
  end.
Proof.
  intros H0 Hb. pose proof (zlen_nonneg es).
  destruct (NewCoreFromSnapshot cfg hs si st sc sh es) as [c|] eqn:Hn.
  - pose proof (recovered_wf _ _ _ _ _ _ _ _ H0 Hb Hn) as Hwf.
    split; [done|]. pose proof (wf_config c Hwf) as Hcfg. revert Hn.
    unfold NewCoreFromSnapshot. case_if; [done|]. case_if; [done|]. cbv zeta.
    match goal with |- (let '(_, _) := ?x in _) = _ → _ => destruct x as [act idx] end.
    intros [= <-].
    split; [done|]. split; [by destruct hs|]. split; [done|]. split; [done|].
    split; [unfold lastIndex; cbn [c_snapshotIndex c_log]; cbn; rewrite zlen_cons; lia|].
    split; [|done]. intros i. unfold EntryAt, pos. cbn.
    rewrite (proj2 (Z.leb_gt _ _)) by lia. rewrite (proj2 (Z.ltb_ge _ _)) by lia. cbn [orb].
    replace (Z.to_nat (si + 1 + Z.of_nat i - si)) with (S i) by lia. cbn.
    destruct (Z.leb_spec (zlen (mkEntry si st EntryNormal [] :: es)) (si + 1 + Z.of_nat i - si)); [|done].
    rewrite zlen_cons in *. symmetry. apply lookup_ge_None. unfold zlen in *. lia.
  - revert Hn. unfold NewCoreFromSnapshot. destruct (validate cfg); [|by left]. cbn [negb].
    case_if; [|by destruct (ConfigAt _ _)]. intros _. right. intros He. bool_to_prop.
    rewrite u64_small in * by (unfold is_u64; lia).
    assert (Hg : ∀ w es, 0 ≤ w → w + zlen es < 2 ^ 64 → entries_from (w - 1) es → gap_free w es = true).
    { clear. intros w es. revert w. induction es as [|e es IH]; intros w H0 Hb He; [done|].
      cbn [gap_free]. rewrite zlen_cons in Hb. pose proof (zlen_nonneg es).
      pose proof (He 0%nat e eq_refl). rewrite (proj2 (Z.eqb_eq _ _)) by lia.
      rewrite u64_small by (unfold is_u64; lia). apply IH; [lia|lia|].
      replace (w + 1 - 1) with (w - 1 + 1) by lia. by eapply entries_from_tail. }
    rewrite Hg in *; [done|lia|lia|]. by replace (si + 1 - 1) with si by lia.
Qed.

(** ** Compaction *)

(** [ConfigAt] at any index of the log, read forwards. *)
Lemma ConfigAt_prefix c s es i :
  c_log c = s :: es → log_indexed (c_snapshotIndex c) (c_log c) →
  c_snapshotIndex c ≤ i ≤ lastIndex c →
  ConfigAt c i = default (base_config c, 0)
    (last (omap establishes_at (take (Z.to_nat (i - c_snapshotIndex c)) es))).
Proof.
  intros Hl Hi Hr. rewrite (lastIndex_cons c s es Hl) in Hr. unfold ConfigAt. rewrite Hl in Hi |- *.
  pose proof (configAt_loop_eq (c_snapshotIndex c) s es (Z.to_nat (i - c_snapshotIndex c)) Hi
    ltac:(lia)) as H.
  rewrite Z2Nat.id in H by lia. replace (c_snapshotIndex c + (i - c_snapshotIndex c)) with i in H by lia.
  rewrite H. by destruct (last _).
Qed.

Lemma establishes_at_index es cfg i :
  last (omap establishes_at es) = Some (cfg, i) → ∃ e, e ∈ es ∧ e_Index e = i.
Proof.
  intros H. apply last_Some_elem_of, list_elem_of_omap in H as (e & He & H). exists e.
  split; [done|]. unfold establishes_at in H. destruct (bool_decide _); [|done].
  destruct (established _); [by injection H as <- <-|done].
Qed.

Record compacted (c : Core) (n : Z) (c' : Core) : Prop := {
  cp_wf : core_wf c';
  cp_boundary : c_snapshotIndex c' = n;
  cp_indices : c_commitIndex c' = c_commitIndex c ∧ c_appliedIndex c' = c_appliedIndex c ∧
    lastIndex c' = lastIndex c;
  cp_entries : ∀ i, n < i → EntryAt c' i = EntryAt c i;
  cp_terms : ∀ i, n ≤ i → termAt c' i = termAt c i;
  cp_config : c_activeConfig c' = c_activeConfig c ∧ c_snapshotConfig c' = (ConfigAt c n).1;
  cp_state : c_role c' = c_role c ∧ c_currentTerm c' = c_currentTerm c ∧ c_votedFor c' = c_votedFor c
}.

Definition compact_fields (c : Core) (n t : Z) (cfg : Configuration) (rest : list Entry) (c' : Core) : Prop :=
  c_log c' = mkEntry n t EntryNormal [] :: rest ∧ c_snapshotIndex c' = n ∧
  c_commitIndex c' = c_commitIndex c ∧ c_appliedIndex c' = c_appliedIndex c ∧
  c_activeConfig c' = c_activeConfig c ∧ base_config c' = cfg ∧ c_snapshotConfig c' = cfg ∧
  c_role c' = c_role c ∧ c_currentTerm c' = c_currentTerm c ∧ c_votedFor c' = c_votedFor c ∧
  c_votesReceived c' = c_votesReceived c ∧ c_nextIndex c' = c_nextIndex c ∧
  c_matchIndex c' = c_matchIndex c ∧
  c_activeConfigIndex c' = if c_activeConfigIndex c <=? n then 0 else c_activeConfigIndex c.

Lemma compact_to_fields c n t cfg rest : compact_fields c n t cfg rest (compact_to c n t cfg rest).
Proof.
  unfold compact_fields, compact_to. cbv zeta. cbn [c_activeConfigIndex modify set_c_log].
  match goal with |- context [c_activeConfigIndex ?x <=? n] =>
    change (c_activeConfigIndex x) with (c_activeConfigIndex c) end.
  destruct (c_activeConfigIndex c <=? n); done.
Qed.

(** Dropping a prefix of the log and remembering the configuration at its end
    keeps the active configuration. *)
Lemma compacted_config c s es n (k := Z.to_nat (n - c_snapshotIndex c)) :
  core_wf c → c_log c = s :: es → c_snapshotIndex c < n ≤ lastIndex c →
  (c_activeConfig c, if c_activeConfigIndex c <=? n then 0 else c_activeConfigIndex c) =
  default ((ConfigAt c n).1, 0) (last (omap establishes_at (drop k es))).
Proof.
  intros Hwf Hl Hn. pose proof (wf_snapshot c Hwf).
  assert (Hx : ∀ j x, es !! j = Some x → e_Index x = c_snapshotIndex c + Z.of_nat (S j)).
  { intros j x Hj. apply (wf_indexed c Hwf (S j)). by rewrite Hl. }
  pose proof (wf_config c Hwf) as Hc. rewrite (ConfigAt_last c s es Hl (wf_indexed c Hwf)) in Hc.
  rewrite (ConfigAt_prefix c s es n Hl (wf_indexed c Hwf)) by lia. fold k.
  rewrite <- (take_drop k es), omap_app, last_app in Hc.
  destruct (last (omap establishes_at (drop k es))) as [[cfg i]|] eqn:Hd.
  { injection Hc as -> ->. apply establishes_at_index in Hd as (x & Hin & <-).
    apply list_elem_of_lookup in Hin as [j Hj]. rewrite lookup_drop in Hj. apply Hx in Hj.
    rewrite (proj2 (Z.leb_gt _ _)) by lia. done. }
  destruct (last (omap establishes_at (take k es))) as [[cfg i]|] eqn:Ht; injection Hc as -> ->.
  - apply establishes_at_index in Ht as (x & Hin & <-).
    apply list_elem_of_lookup in Hin as [j [Hj Hjk]%lookup_take_Some]. apply Hx in Hj.
    rewrite (proj2 (Z.leb_le _ _)) by lia. done.
  - rewrite (proj2 (Z.leb_le _ _)) by lia. done.
Qed.

Lemma compact_to_compacted c n e c' :
  core_wf c → c_snapshotIndex c < n ≤ c_appliedIndex c →
  c_log c !! Z.to_nat (pos c n) = Some e →
  compact_fields c n (e_Term e) (ConfigAt c n).1 (drop (Z.to_nat (pos c n + 1)) (c_log c)) c' →
  compacted c n c'.
Proof.
  intros Hwf Hn He F. destruct (wf_log_cons c Hwf) as (s & es & Hl).
  pose proof (wf_commit c Hwf). pose proof (wf_applied c Hwf). pose proof (wf_snapshot c Hwf).
  pose proof (lastIndex_cons c s es Hl) as Hlast. unfold pos in *.
  set (k := Z.to_nat (n - c_snapshotIndex c)) in *.
  assert (Hk : (k ≤ length es)%nat) by lia.
  assert (Hrest : drop (Z.to_nat (n - c_snapshotIndex c + 1)) (c_log c) = drop k es).
  { rewrite Hl. replace (Z.to_nat (n - c_snapshotIndex c + 1)) with (S k) by lia. done. }
  rewrite Hrest in F.
  destruct F as (F1 & F2 & F3 & F4 & F5 & F6 & F7 & F8 & F9 & F10 & F11 & F12 & F13 & F14).
  assert (Hlast' : lastIndex c' = lastIndex c).
  { rewrite (lastIndex_cons c' _ _ F1), F2, length_drop. lia. }
  assert (Hpos : ∀ i, n < i → c_log c' !! Z.to_nat (i - n) = c_log c !! Z.to_nat (i - c_snapshotIndex c)).
  { intros i Hi. rewrite F1, Hl, !lookup_cons_ne_0, lookup_drop by lia. f_equal. lia. }
  assert (Hidx : log_indexed n (c_log c')).
  { intros p x Hp. destruct p as [|p]; [rewrite F1 in Hp; injection Hp as <-; cbn; lia|].
    pose proof (Hpos (n + Z.of_nat (S p)) ltac:(lia)) as Hq.
    replace (Z.to_nat (n + Z.of_nat (S p) - n)) with (S p) in Hq by lia.
    rewrite Hp in Hq. symmetry in Hq. apply (wf_indexed c Hwf) in Hq. lia. }
  assert (Hcfg : (c_activeConfig c', c_activeConfigIndex c') = ConfigAt c' (lastIndex c')).
  { rewrite (ConfigAt_last c' _ _ F1) by (by rewrite F2). rewrite F5, F6, F14.
    apply (compacted_config c s); [done|done|lia]. }
  constructor.
  - constructor.
    + by rewrite F1.
    + by rewrite F2.
    + lia.
    + rewrite F2, F3, Hlast'. lia.
    + lia.
    + rewrite Hlast'. apply Hwf.
    + rewrite F8, F11. apply Hwf.
    + rewrite F8, F12, F13. apply Hwf.
    + done.
  - done.
  - done.
  - intros i Hi. unfold EntryAt, pos. rewrite F2.
    rewrite (proj2 (Z.leb_gt i n)), (proj2 (Z.leb_gt i (c_snapshotIndex c))) by lia. rewrite (proj2 (Z.ltb_ge (i - n) _)), (proj2 (Z.ltb_ge (i - c_snapshotIndex c) _)) by lia. cbn [orb].
    rewrite (Hpos i Hi). unfold lastIndex in Hlast'. rewrite F2 in Hlast'.
    replace (zlen (c_log c') <=? i - n) with (zlen (c_log c) <=? i - c_snapshotIndex c); [done|].
    destruct (Z.leb_spec (zlen (c_log c)) (i - c_snapshotIndex c));
      symmetry; [apply Z.leb_le|apply Z.leb_gt]; lia.
  - intros i Hi. unfold termAt, pos. rewrite F2. rewrite (proj2 (Z.ltb_ge i n)), (proj2 (Z.ltb_ge i (c_snapshotIndex c))) by lia.
    destruct (decide (i = n)) as [->|Hne]; [|by rewrite Hpos by lia].
    rewrite Z.sub_diag, F1. cbn. fold k. by rewrite He.
  - by split.
  - done.
Qed.

(** Compaction is total and cannot be observed above the boundary.  It
    happens exactly for an applied index above the boundary; then it keeps the
    entries and terms above it, every index, the role, the vote and the active
    configuration, records the configuration in force at the boundary, and
    leaves a well-formed core; otherwise the core is unchanged. *)
Theorem compact_transparent c n :
  core_wf c →
  ∃ c' b, Compact c n = Ok (c', b) ∧
    (b = true ↔ c_snapshotIndex c < n ≤ c_appliedIndex c) ∧
    if b then compacted c n c' else c' = c.
Proof.
  intros Hwf. unfold Compact.
  destruct (Z.leb_spec n (c_snapshotIndex c)); cbn [orb].
  { exists c, false. split; [done|]. split; [split; [done|lia]|done]. }
  destruct (Z.ltb_spec (c_appliedIndex c) n).
  { exists c, false. split; [done|]. split; [split; [done|lia]|done]. }
  pose proof (wf_commit c Hwf). pose proof (wf_applied c Hwf).
  destruct (ConfigAt c n) as [cfg i] eqn:Hc. unfold log_at.
  rewrite (proj2 (Z.ltb_ge _ _)) by (unfold pos; lia).
  destruct (lookup_lt_is_Some_2 (c_log c) (Z.to_nat (pos c n))) as [e He].
  { unfold pos, lastIndex, zlen in *. lia. }
  rewrite He, bind_Ok, log_slice_ok, bind_Ok by (unfold pos, lastIndex in *; lia).
  do 2 eexists. split; [reflexivity|]. split; [split; [lia|done]|].
  eapply compact_to_compacted; [done|lia|exact He|]. rewrite Hc. cbn [fst].
  rewrite take_ge; [apply compact_to_fields|]. rewrite length_drop. unfold zlen. lia.
Qed.

(** ** Membership changes at the leader *)

Lemma wireKindFor_establishing kind :
  establishing_kind (wireKindFor kind) = true ∧
  (wireKindFor kind =? membershipKindVoided) || (wireKindFor kind =? 0) = false.
Proof. by destruct kind. Qed.

(** The encoding of any configuration the request can produce fits 4 GiB. *)
Definition change_fits (c : Core) kind (req tid taddr : bytes) : Prop :=
  ∀ new, buildNewConfiguration (c_activeConfig c) kind tid taddr = Ok new →
    zlen (encodeConfigChange (wireKindFor kind) req tid taddr new) < 2 ^ 32.

(** What [ProposeConfigChange] does: nothing, with an error, or one entry
    appended under the preconditions. *)
Lemma propose_config_change_appends c kind req tid taddr :
  core_wf c → lastIndex c + 2 < 2 ^ 64 → config_ok (c_activeConfig c) →
  change_fits c kind req tid taddr →
  ∃ c' r, ProposeConfigChange c kind req tid taddr = Ok (c', r) ∧
    match r with
    | Err _ => c' = c
    | Ok out =>
        c_role c = Leader ∧ c_pendingConfIndex c ≤ c_commitIndex c ∧
        c_activeConfigIndex c ≤ c_commitIndex c ∧
        (c_skipP1ForTest c = true ∨ termAt c (c_commitIndex c) = c_currentTerm c) ∧
        ∃ new data, single_server_change (c_activeConfig c) new ∧ config_ok new ∧ Voters new ≠ [] ∧
          established data = Some new ∧ appendLeaderEntry c EntryConfig data = Ok (c', out)
    end.
Proof.
  intros Hwf Hb Hok Hfit. unfold ProposeConfigChange.
  case_bool_decide as Hl; cbn [negb]; [|by do 2 eexists].
  destruct (Z.ltb_spec (c_commitIndex c) (c_pendingConfIndex c)); [by do 2 eexists|].
  destruct (_ && _) eqn:Hp1; [by do 2 eexists|].
  destruct (Z.ltb_spec (c_commitIndex c) (c_activeConfigIndex c)); [by do 2 eexists|].
  destruct (buildNewConfiguration _ kind tid taddr) as [new|e] eqn:Hbuild; [|by do 2 eexists].
  destruct (Z.eqb_spec (zlen (Voters new)) 0) as [|Hv]; [by do 2 eexists|].
  destruct (classifyTransition _ new); cbn [negb]; [|by do 2 eexists].
  destruct (wireKindFor_establishing kind) as [Hk ->].
  assert (Hne : Voters new ≠ []) by (intros Hnil; by rewrite Hnil in Hv).
  destruct (build_single_change _ kind tid taddr new Hok Hbuild Hne) as [Hokn Hss].
  set (data := encodeConfigChange (wireKindFor kind) req tid taddr new).
  assert (Hest : established data = Some new).
  { unfold established, data. by rewrite decode_encode_config_change by auto. }
  destruct (appendLeaderEntry_post c EntryConfig data Hwf Hl Hb) as ([c' out] & E & _).
  { intros _. by eexists. }
  rewrite E. cbn [mbind result_bind]. do 2 eexists. split; [reflexivity|]. split; [done|]. split; [done|].
  split; [done|]. split; [|by exists new, data].
  apply andb_false_iff in Hp1 as [Hp1|Hp1]; bool_to_prop; auto.
Qed.

(** A membership change is accepted only from a leader whose previous
    change is committed, whose inherited suffix is committed and which has
    committed an entry of its own term (a test-only switch apart); it then
    appends exactly one configuration entry, whose single-server change is
    active at once; a refused request changes nothing, and the request never
    panics. *)
Theorem propose_config_change_safe c kind req tid taddr :
  core_wf c → lastIndex c + 2 < 2 ^ 64 → config_ok (c_activeConfig c) →
  change_fits c kind req tid taddr →
  ∃ c' r, ProposeConfigChange c kind req tid taddr = Ok (c', r) ∧ core_wf c' ∧
    match r with
    | Err _ => c' = c
    | Ok out =>
        c_role c = Leader ∧ c_pendingConfIndex c ≤ c_commitIndex c ∧
        c_activeConfigIndex c ≤ c_commitIndex c ∧
        (c_skipP1ForTest c = true ∨ termAt c (c_commitIndex c) = c_currentTerm c) ∧
        single_server_change (c_activeConfig c) (c_activeConfig c') ∧
        config_ok (c_activeConfig c') ∧ Voters (c_activeConfig c') ≠ [] ∧
        c_activeConfigIndex c' = lastIndex c + 1 ∧ c_commitIndex c' = c_commitIndex c ∧
        ∃ e seq, c_log c' = c_log c ++ [e] ∧ establishes_at e = Some (c_activeConfig c', lastIndex c + 1) ∧
          out_PersistRequest out = Some (mkPersistRequest seq None 0 [e])
    end.
Proof.
  intros Hwf Hb Hok Hfit.
  destruct (propose_config_change_appends c kind req tid taddr Hwf Hb Hok Hfit) as (c' & r & -> & H).
  exists c', r. split; [done|]. destruct r as [out|e]; [|by rewrite H].
  destruct H as (Hl & H1 & H2 & H3 & new & data & Hss & Hokn & Hne & Hest & E).
  destruct (appendLeaderEntry_post c EntryConfig data Hwf Hl Hb) as (r & Hr & Hp & Ha & seq & Hs); [by eauto|].
  rewrite E in Hr. injection Hr as <-. cbn [fst snd] in *. split; [apply Hp|].
  assert (Hat : establishes_at (leader_entry c EntryConfig data) = Some (new, lastIndex c + 1)).
  { unfold establishes_at. cbn [e_Type e_Data e_Index leader_entry].
    rewrite bool_decide_true by done. by rewrite Hest. }
  pose proof (ap_config _ _ _ Ha) as Hc. rewrite Hat in Hc. injection Hc as Hc Hci.
  rewrite Hc. do 4 (split; [done|]). do 4 (split; [done|]). split; [apply Ha|].
  exists (leader_entry c EntryConfig data), seq. split; [apply Ha|done].
Qed.

(** ** Witnesses *)

Definition demo_cluster : Configuration :=
  mkConfiguration [mkMember [97] [1]; mkMember [98] [2]; mkMember [99] [3]] [].
Definition demo_cfg : Config := mkConfig [97] demo_cluster 10 20 3 true.
Definition demo_entries : list Entry :=
  [mkEntry 1 1 EntryNormal [1]; mkEntry 2 1 EntryNormal [2]; mkEntry 3 2 EntryNormal [3]].
Definition demo_log : list Entry := mkEntry 0 0 EntryNormal [] :: demo_entries.
Definition demo_core : Core :=
  mkCore demo_cfg Follower 2 [] [] demo_log 0 0 0 0 (Some ∅) (Some ∅) (Some ∅) 0 0 []
    demo_cluster 0 no_config false demo_cluster 0 false false.
Definition demo_leader : Core :=
  mkCore demo_cfg Leader 2 [97] [97] demo_log 0 0 3 2 (Some ∅) (Some ∅) None 0 0 []
    demo_cluster 0 no_config false demo_cluster 0 false false.

Lemma demo_log_indexed : log_indexed 0 demo_log.
Proof. intros p e Hp. repeat (destruct p as [|p]; [injection Hp as <-; reflexivity|]). done. Qed.

Lemma demo_core_wf : core_wf demo_core.
Proof.
  constructor; [done|exact demo_log_indexed|cbn; lia|vm_compute; split; discriminate|cbn; lia
    |vm_compute; reflexivity|done|done|vm_compute; reflexivity].
Qed.

Lemma demo_leader_wf : core_wf demo_leader.
Proof.
  constructor; [done|exact demo_log_indexed|cbn; lia|vm_compute; split; discriminate|cbn; lia
    |vm_compute; reflexivity|done|by cbn; split|vm_compute; reflexivity].
Qed.

(** A heartbeat of the leader [b] that commits the whole log. *)
Definition demo_heartbeat : Message :=
  (message MsgAppendEntriesRequest [98] [97] 2) <| m_PrevLogIndex := 3 |> <| m_PrevLogTerm := 2 |>
    <| m_LeaderCommit := 3 |>.


Lemma step_delivers_commits_witness :
  match Step (λ _, 0) demo_core (InputMessage demo_heartbeat) with
  | Ok (c', out) => out_CommittedEntries out = entries_between c' 0 (c_commitIndex c')
  | Err _ => False
  end.
Proof.
  destruct (Step (λ _, 0) demo_core (InputMessage demo_heartbeat)) as [[c' out]|p] eqn:E.
  - apply (step_delivers_commits (λ _, 0) demo_core (InputMessage demo_heartbeat) c' out
      demo_core_wf); [|exact E].
    split; [cbn; lia|]. split; [intros i e He; discriminate|by left].
  - vm_compute in E. discriminate.
Defined.

(** The heartbeat delivers the three entries. *)
Example demo_heartbeat_delivers :
  match Step (λ _, 0) demo_core (InputMessage demo_heartbeat) with
  | Ok r => out_CommittedEntries r.2 = demo_entries
  | Err _ => False
  end.
Proof. vm_compute. reflexivity. Qed.

Lemma recovered_core_witness :
  match NewCoreFromSnapshot demo_cfg (mkHardState 2 []) 0 0 no_config false demo_entries with
  | Ok c => core_wf c
  | Err _ => False
  end.
Proof.
  pose proof (recovered_core demo_cfg (mkHardState 2 []) 0 0 no_config false demo_entries
    ltac:(lia) ltac:(reflexivity)) as H.
  destruct (NewCoreFromSnapshot demo_cfg (mkHardState 2 []) 0 0 no_config false demo_entries) eqn:E;
    [apply H|vm_compute in E; discriminate].
Defined.

Lemma compact_transparent_witness :
  ∃ c' b, Compact demo_leader 2 = Ok (c', b) ∧ (b = true ↔ 0 < 2 ≤ 2).
Proof.
  destruct (compact_transparent demo_leader 2 demo_leader_wf) as (c' & b & H1 & H2 & _).
  exists c', b. split; [exact H1|exact H2].
Defined.

Lemma propose_config_change_safe_witness :
  ∃ c' r, ProposeConfigChange demo_leader AddLearnerChange [114] [100] [4] = Ok (c', r) ∧ core_wf c'.
Proof.
  destruct (propose_config_change_safe demo_leader AddLearnerChange [114] [100] [4]) as (c' & r & H1 & H2 & _).
  - exact demo_leader_wf.
  - vm_compute. reflexivity.
  - apply (bool_decide_unpack _). vm_compute. exact I.
  - intros new H. vm_compute in H. injection H as <-. vm_compute. reflexivity.
  - exists c', r. split; [exact H1|exact H2].
Defined.

(** The request of the witness is accepted. *)
Example demo_change_accepted :
  match ProposeConfigChange demo_leader AddLearnerChange [114] [100] [4] with
  | Ok r => is_Ok r.2 = true
  | Err _ => False
  end.
Proof. vm_compute. reflexivity. Qed.
