(* ===== verification/WalRecord.v ===== *)
(** * WAL records ([internal/wal/record.go], [metadata.go], [errors.go])

    The frame of one durable record, its decoder with the distinction
    between a torn tail and corruption, and the payload of the node-local
    metadata record.  A frame is
    [type(1) index(8) length(4) version(1) payload crc32(4)]. *)

From S2P Require Import Prelude Bytes Hash.

Inductive RecordType := RecordTypeLogEntry | RecordTypeHardState | RecordTypeMetadata.
#[export] Instance RecordType_eq_dec : EqDecision RecordType.
Proof. solve_decision. Defined.

Definition record_type_byte (t : RecordType) : Z :=
  match t with RecordTypeLogEntry => 1 | RecordTypeHardState => 2 | RecordTypeMetadata => 3 end.

(** [RecordType(b)] together with [valid]. *)
Definition record_type_of (b : Z) : option RecordType :=
  if b =? 1 then Some RecordTypeLogEntry
  else if b =? 2 then Some RecordTypeHardState
  else if b =? 3 then Some RecordTypeMetadata
  else None.

Definition FormatVersion : Z := 1.
Definition MaxRecordPayloadSize : Z := 64 * 1024 * 1024.
Definition headerSize : Z := 14.
Definition checksumSize : Z := 4.

(** The package's errors; [ErrMetadata] and [ErrInvalidArgument] stand for
    its unnamed [fmt.Errorf] errors, [WalPanic] for an out-of-range access. *)
Inductive wal_error :=
| ErrClosed
| ErrUnsupportedVersion
| ErrRecordTooLarge
| ErrCorrupt
| ErrNoMetadata
| ErrUnsupportedGeneration
| errTornTail
| ErrMetadata
| ErrInvalidArgument
| WalPanic.
#[export] Instance wal_error_eq_dec : EqDecision wal_error.
Proof. solve_decision. Defined.
#[export] Instance wal_panicking : Panicking wal_error := WalPanic.

Record Record_ := mkRecord { r_Type : RecordType; r_Index : Z; r_Payload : bytes }.
#[export] Instance Record_eq_dec : EqDecision Record_.
Proof. solve_decision. Defined.

Definition frame_body (rt : RecordType) (index : Z) (payload : bytes) : bytes :=
  [record_type_byte rt] ++ put_u64 index ++ put_u32 (zlen payload) ++ [FormatVersion] ++ payload.

Definition encodeRecord (rt : RecordType) (index : Z) (payload : bytes) : bytes :=
  frame_body rt index payload ++ put_u32 (crc32 (frame_body rt index payload)).

Definition decodeFrameBytes (buf : bytes) : result wal_error (Record_ * Z) :=
  if zlen buf <? headerSize then Err errTornTail else
  '(rt, b) ← u8_at buf;
  '(index, b) ← u64_at b;
  '(length, b) ← u32_at b;
  '(version, b) ← u8_at b;
  if negb (version =? FormatVersion) then Err ErrUnsupportedVersion else
  let need := headerSize + length + checksumSize in
  if zlen buf <? need then Err errTornTail else
  if MaxRecordPayloadSize <? length then Err ErrRecordTooLarge else
  match record_type_of rt with
  | None => Err ErrCorrupt
  | Some rt =>
      '(payload, b) ← slice_at length b;
      '(wantCRC, _) ← u32_at b;
      if negb (crc32 (take (Z.to_nat (headerSize + length)) buf) =? wantCRC) then Err ErrCorrupt else
      Ok (mkRecord rt index payload, need)
  end.

(** ** Reading one frame of a segment

    [ReadAt] without I/O errors: as many bytes as are there. *)

Definition read_at (seg : bytes) (n offset : Z) : bytes :=
  take (Z.to_nat n) (drop (Z.to_nat offset) seg).

Definition readFrameFull (seg : bytes) (offset avail : Z) : result wal_error (option (Record_ * Z)) :=
  let maxRead := headerSize + MaxRecordPayloadSize + checksumSize in
  let want := if maxRead <? avail then maxRead else avail in
  '(rec, n) ← decodeFrameBytes (read_at seg want offset); Ok (Some (rec, n)).

Definition readFrame (seg : bytes) (offset : Z) : result wal_error (option (Record_ * Z)) :=
  let size := zlen seg in
  if size <=? offset then Ok None else
  let avail := size - offset in
  let headerWant := if headerSize <? avail then headerSize else avail in
  let hdrBuf := read_at seg headerWant offset in
  if zlen hdrBuf <? headerSize then Err errTornTail else
  let length := get_u32 (drop 9 hdrBuf) in
  let frameLen := headerSize + length + checksumSize in
  if (MaxRecordPayloadSize <? length) || (avail <? frameLen) then readFrameFull seg offset avail else
  '(rec, n) ← decodeFrameBytes (read_at seg frameLen offset); Ok (Some (rec, n)).

(** ** The metadata payload *)

Record Metadata := mkMetadata {
  md_NodeID : bytes;
  md_FormatVersion : Z;
  md_LatestSnapshotIndex : Z;
  md_ClusterGeneration : Z
}.
#[export] Instance Metadata_eta : Eta Metadata := λ m,
  mkMetadata (md_NodeID m) (md_FormatVersion m) (md_LatestSnapshotIndex m) (md_ClusterGeneration m).
#[export] Instance set_md_LatestSnapshotIndex : Setter md_LatestSnapshotIndex.
Proof. derive_setter. Defined.
#[export] Instance set_md_ClusterGeneration : Setter md_ClusterGeneration.
Proof. derive_setter. Defined.

Definition encodeMetadata (m : Metadata) : bytes :=
  [md_FormatVersion m] ++ put_u64 (md_LatestSnapshotIndex m) ++ put_u16 (zlen (md_NodeID m)) ++
  md_NodeID m ++ (if 0 <? md_ClusterGeneration m then put_u32 (md_ClusterGeneration m) else []).

Definition decodeMetadata (b : bytes) : result wal_error Metadata :=
  if zlen b <? 11 then Err ErrMetadata else
  '(version, b) ← u8_at b;
  '(snap, b) ← u64_at b;
  '(idLenB, b) ← slice_at 2 b;
  let idLen := get_u16 idLenB in
  if zlen b <? idLen then Err ErrMetadata else
  '(id, b) ← slice_at idLen b;
  let extra := zlen b in
  if extra =? 0 then Ok (mkMetadata id version snap 0)
  else if extra =? 4 then
    '(gen, _) ← u32_at b; Ok (mkMetadata id version snap gen)
  else Err ErrMetadata.

(** ** Frames round trip *)

Lemma record_type_of_byte t : record_type_of (record_type_byte t) = Some t.
Proof. by destruct t. Qed.

Lemma record_type_of_Some b t : record_type_of b = Some t → b = record_type_byte t.
Proof.
  unfold record_type_of. repeat case_if; intros H; try done; injection H as <-; bool_to_prop; done.
Qed.

Lemma zlen_frame_body rt i p : zlen (frame_body rt i p) = headerSize + zlen p.
Proof. unfold frame_body, headerSize. zlen_lia. Qed.

Lemma zlen_encodeRecord rt i p : zlen (encodeRecord rt i p) = headerSize + zlen p + checksumSize.
Proof. unfold encodeRecord. rewrite zlen_app, zlen_frame_body, zlen_be_put. done. Qed.

(** A record the WAL can write. *)
Definition record_ok (r : Record_) : Prop :=
  is_u64 (r_Index r) ∧ zlen (r_Payload r) ≤ MaxRecordPayloadSize.

Definition encode_rec (r : Record_) : bytes := encodeRecord (r_Type r) (r_Index r) (r_Payload r).

Lemma zlen_encode_rec r : zlen (encode_rec r) = headerSize + zlen (r_Payload r) + checksumSize.
Proof. apply zlen_encodeRecord. Qed.

Lemma decode_encode_frame r rest :
  record_ok r → decodeFrameBytes (encode_rec r ++ rest) = Ok (r, zlen (encode_rec r)).
Proof.
  intros [Hi Hp]. destruct r as [rt i p]. cbn [r_Type r_Index r_Payload] in *.
  assert (Hp32 : zlen p < 2 ^ 32) by (unfold MaxRecordPayloadSize in Hp; lia).
  unfold decodeFrameBytes, encode_rec. cbn [r_Type r_Index r_Payload].
  pose proof (crc32_range (frame_body rt i p)) as Hcrc.
  assert (Hbody : take (Z.to_nat (headerSize + zlen p)) (encodeRecord rt i p ++ rest) = frame_body rt i p).
  { unfold encodeRecord. rewrite <- app_assoc, <- zlen_frame_body with (rt := rt) (i := i).
    apply take_app_zlen. }
  assert (Hlen : zlen (encodeRecord rt i p ++ rest) = headerSize + zlen p + checksumSize + zlen rest)
    by (by rewrite zlen_app, zlen_encodeRecord).
  rewrite Hlen. zlen_facts. rewrite (proj2 (Z.ltb_ge _ _)) by (unfold headerSize, checksumSize; lia).
  assert (Hu : u8_at (encodeRecord rt i p ++ rest) = Ok (E := wal_error) (record_type_byte rt,
    put_u64 i ++ put_u32 (zlen p) ++ [FormatVersion] ++ p ++ put_u32 (crc32 (frame_body rt i p)) ++ rest)).
  { unfold encodeRecord, frame_body at 1. by rewrite <- !app_assoc. }
  rewrite Hu, bind_Ok. generalize dependent (encodeRecord rt i p ++ rest). intros buf Hbody Hlen Hu.
  do 6 decode_step. repeat decode_step. rewrite record_type_of_byte. repeat decode_step.
  rewrite Hbody, Z.eqb_refl. cbn [negb]. by rewrite zlen_encodeRecord.
Qed.

(** ** The decoder in closed form *)

Definition fr_type (b : bytes) : Z := nth 0 b 0.
Definition fr_index (b : bytes) : Z := get_u64 (drop 1 b).
Definition fr_length (b : bytes) : Z := get_u32 (drop 9 b).
Definition fr_version (b : bytes) : Z := nth 13 b 0.
Definition fr_need (b : bytes) : Z := headerSize + fr_length b + checksumSize.

Definition decode_closed (b : bytes) : result wal_error (Record_ * Z) :=
  if negb (fr_version b =? FormatVersion) then Err ErrUnsupportedVersion else
  if zlen b <? fr_need b then Err errTornTail else
  if MaxRecordPayloadSize <? fr_length b then Err ErrRecordTooLarge else
  match record_type_of (fr_type b) with
  | None => Err ErrCorrupt
  | Some rt =>
      let n := Z.to_nat (headerSize + fr_length b) in
      if negb (crc32 (take n b) =? get_u32 (drop n b)) then Err ErrCorrupt else
      Ok (mkRecord rt (fr_index b) (take (Z.to_nat (fr_length b)) (drop 14 b)), fr_need b)
  end.

Lemma nth_drop_nil (b : bytes) n : (n < length b)%nat → drop n b = nth n b 0 :: drop (S n) b.
Proof.
  intros H. destruct (lookup_lt_is_Some_2 b n H) as [x Hx].
  rewrite (drop_S b x n Hx). f_equal. symmetry. apply nth_lookup_Some with (d := 0) in Hx. done.
Qed.

Lemma be_get_nonneg b : wf_bytes b → 0 ≤ be_get b.
Proof. intros H. apply be_get_range in H. lia. Qed.

Lemma fr_length_range b : wf_bytes b → is_u32 (fr_length b).
Proof. intros H. apply get_u32_range. by apply Forall_drop. Qed.

Lemma decodeFrameBytes_closed b :
  wf_bytes b → headerSize ≤ zlen b → decodeFrameBytes b = decode_closed b.
Proof.
  intros Hwf Hl. pose proof (fr_length_range b Hwf) as Hlen. unfold headerSize in Hl.
  assert (Hn : (14 ≤ length b)%nat) by (unfold zlen in Hl; lia).
  unfold decodeFrameBytes. rewrite (proj2 (Z.ltb_ge _ _)) by (unfold headerSize; lia).
  pose proof (nth_drop_nil b 0 ltac:(lia)) as H0. rewrite drop_0 in H0.
  rewrite H0 at 1. rewrite u8_at_put, bind_Ok. cbv beta iota.
  rewrite u64_at_ok by (unfold zlen; rewrite length_drop; lia).
  rewrite bind_Ok, drop_drop. cbv beta iota.
  rewrite u32_at_ok by (unfold zlen; rewrite length_drop; lia).
  rewrite bind_Ok, drop_drop. cbv beta iota. cbn [Nat.add].
  rewrite (nth_drop_nil b 13) by lia. rewrite u8_at_put, bind_Ok. cbv beta iota.
  fold (fr_index b). fold (fr_length b). fold (fr_version b). fold (fr_type b). fold (fr_need b).
  unfold decode_closed. destruct (negb _); [done|].
  destruct (Z.ltb_spec (zlen b) (fr_need b)) as [|Hneed]; [done|].
  destruct (_ <? fr_length b); [done|]. destruct (record_type_of (fr_type b)); [|done].
  unfold fr_need, headerSize, checksumSize, is_u32 in *.
  rewrite slice_at_ok by (unfold zlen in *; rewrite length_drop; lia).
  rewrite bind_Ok, drop_drop. cbv beta iota.
  rewrite u32_at_ok by (unfold zlen in *; rewrite length_drop; lia).
  rewrite bind_Ok. cbv beta iota zeta.
  by replace (14 + Z.to_nat (fr_length b))%nat with (Z.to_nat (14 + fr_length b)) by lia.
Qed.

(** Reads of the first [n] bytes do not see what follows. *)
Lemma take_drop_app {A} (x y : list A) n k :
  (n + k ≤ length x)%nat → take n (drop k (x ++ y)) = take n (drop k x).
Proof.
  intros H. rewrite drop_app_le by lia. rewrite take_app_le; [done|]. rewrite length_drop. lia.
Qed.

Lemma fr_header_app x y :
  headerSize ≤ zlen x →
  fr_type (x ++ y) = fr_type x ∧ fr_index (x ++ y) = fr_index x ∧
  fr_length (x ++ y) = fr_length x ∧ fr_version (x ++ y) = fr_version x.
Proof.
  unfold headerSize, zlen. intros H. unfold fr_type, fr_index, fr_length, fr_version, get_u64, get_u32.
  rewrite !take_drop_app by lia. rewrite !app_nth1 by lia. done.
Qed.

(** A frame that is complete decodes the same with anything after it. *)
Lemma decode_closed_app x y :
  headerSize ≤ zlen x → 0 ≤ fr_length x → fr_need x ≤ zlen x → decode_closed (x ++ y) = decode_closed x.
Proof.
  intros Hl H0 Hn. destruct (fr_header_app x y Hl) as (H1 & H2 & H3 & H4).
  unfold decode_closed, fr_need. rewrite H1, H2, H3, H4. fold (fr_need x).
  rewrite zlen_app. pose proof (zlen_nonneg y).
  rewrite (proj2 (Z.ltb_ge (zlen x + zlen y) _)), (proj2 (Z.ltb_ge (zlen x) _)) by lia.
  unfold fr_need, headerSize, checksumSize, zlen in *. unfold get_u32.
  rewrite !take_drop_app by lia. rewrite take_app_le by lia. done.
Qed.

(** What the decoder accepts is the encoding of the record it returns. *)
Lemma be_put_take n k b :
  wf_bytes b → (n + k ≤ length b)%nat → be_put n (be_get (take n (drop k b))) = take n (drop k b).
Proof.
  intros Hwf Hl. rewrite <- (be_put_get (take n (drop k b))) at 2.
  - rewrite length_take, length_drop. by replace (n `min` (length b - k))%nat with n by lia.
  - by apply Forall_take, Forall_drop.
Qed.

Lemma take_add_drop {A} (b : list A) n m k :
  take (n + m) (drop k b) = take n (drop k b) ++ take m (drop (k + n) b).
Proof. by rewrite <- take_take_drop, drop_drop. Qed.

Lemma take_1_drop (b : bytes) k : (k < length b)%nat → take 1 (drop k b) = [nth k b 0].
Proof. intros H. by rewrite nth_drop_nil. Qed.

Lemma decode_frame_exact b r n :
  wf_bytes b → decodeFrameBytes b = Ok (r, n) →
  record_ok r ∧ wf_bytes (r_Payload r) ∧ headerSize + checksumSize ≤ n ≤ zlen b ∧
  take (Z.to_nat n) b = encode_rec r.
Proof.
  intros Hwf Hd. destruct (Z.ltb_spec (zlen b) headerSize) as [Hlt|Hge].
  { unfold decodeFrameBytes in Hd. by rewrite (proj2 (Z.ltb_lt _ _)) in Hd by done. }
  rewrite decodeFrameBytes_closed in Hd by done. revert Hd. unfold decode_closed.
  pose proof (fr_length_range b Hwf) as Hlen.
  destruct (Z.eqb_spec (fr_version b) FormatVersion) as [Hv|]; cbn [negb]; [|done].
  destruct (Z.ltb_spec (zlen b) (fr_need b)) as [|Hneed]; [done|].
  destruct (Z.ltb_spec MaxRecordPayloadSize (fr_length b)) as [|Hmax]; [done|].
  destruct (record_type_of (fr_type b)) as [rt|] eqn:Hrt; [|done]. cbv zeta.
  destruct (Z.eqb_spec (crc32 (take (Z.to_nat (headerSize + fr_length b)) b))
    (get_u32 (drop (Z.to_nat (headerSize + fr_length b)) b))) as [Hcrc|]; cbn [negb]; [|done].
  intros [= <- <-]. apply record_type_of_Some in Hrt.
  unfold fr_need, headerSize, checksumSize, is_u32, zlen in *.
  assert (Hpl : length (take (Z.to_nat (fr_length b)) (drop 14 b)) = Z.to_nat (fr_length b)).
  { rewrite length_take, length_drop. lia. }
  assert (Hbody : frame_body rt (fr_index b) (take (Z.to_nat (fr_length b)) (drop 14 b)) =
    take (Z.to_nat (14 + fr_length b)) b).
  { unfold frame_body. rewrite <- Hrt, <- Hv. unfold zlen. rewrite Hpl, Z2Nat.id by lia.
    unfold fr_index at 1, fr_length at 1, get_u64, get_u32. rewrite !be_put_take by (done || lia).
    unfold fr_type, fr_version.
    replace (Z.to_nat (14 + fr_length b)) with (1 + (8 + (4 + (1 + Z.to_nat (fr_length b)))))%nat by lia.
    match goal with |- _ = take ?n b => change (take n b) with (take n (drop 0 b)) end.
    rewrite !take_add_drop, !(take_1_drop b) by lia. done. }
  split; [split; cbn|split; [by apply Forall_take, Forall_drop|split; [lia|]]].
  - apply get_u64_range. by apply Forall_drop.
  - unfold zlen. lia.
  - unfold encode_rec. cbn [r_Type r_Index r_Payload]. unfold encodeRecord. rewrite Hbody, Hcrc.
    unfold get_u32. rewrite be_put_take by (done || lia).
    rewrite (take_take_drop b). f_equal. lia.
Qed.

(** ** Torn frames *)

Lemma crc_bytes_wf rt i p : wf_bytes p → wf_bytes (encodeRecord rt i p).
Proof.
  intros Hp. unfold encodeRecord, frame_body. repeat apply Forall_app_2; try apply wf_be_put; try done.
  - constructor; [|constructor]. destruct rt; unfold is_byte; cbn; lia.
  - constructor; [|constructor]. unfold is_byte, FormatVersion. lia.
Qed.

Lemma encode_header r y :
  record_ok r →
  fr_version (encode_rec r ++ y) = FormatVersion ∧ fr_length (encode_rec r ++ y) = zlen (r_Payload r).
Proof.
  intros [Hi Hp]. pose proof (zlen_nonneg (r_Payload r)).
  assert (Hl : headerSize ≤ zlen (encode_rec r)).
  { rewrite zlen_encode_rec. unfold headerSize, checksumSize. lia. }
  destruct (fr_header_app (encode_rec r) y Hl) as (_ & _ & -> & ->).
  unfold encode_rec, encodeRecord, frame_body, fr_version, fr_length. rewrite <- !app_assoc.
  cbn [app drop]. split.
  - cbn [nth]. rewrite (app_nth2 (put_u64 (r_Index r))) by (rewrite length_be_put; lia). rewrite length_be_put.
    cbn [Nat.sub]. rewrite app_nth2 by (rewrite length_be_put; lia). rewrite length_be_put. done.
  - rewrite drop_be_put. rewrite get_u32_put; [done|]. unfold MaxRecordPayloadSize, is_u32 in *. lia.
Qed.

Lemma zlen_take_le (b : bytes) k : 0 ≤ k ≤ zlen b → zlen (take (Z.to_nat k) b) = k.
Proof. intros H. unfold zlen in *. rewrite length_take. lia. Qed.

(** A complete header whose frame is longer than what is there. *)
Lemma decode_short b k :
  wf_bytes b → headerSize ≤ k ≤ zlen b → k < fr_need b →
  decodeFrameBytes (take (Z.to_nat k) b) =
    Err (if fr_version b =? FormatVersion then errTornTail else ErrUnsupportedVersion).
Proof.
  intros Hwf Hk Hn. assert (Ht : zlen (take (Z.to_nat k) b) = k).
  { apply zlen_take_le. unfold headerSize in *. lia. }
  rewrite decodeFrameBytes_closed by (lia || by apply Forall_take).
  assert (Hh := fr_header_app (take (Z.to_nat k) b) (drop (Z.to_nat k) b) ltac:(lia)).
  rewrite take_drop in Hh. destruct Hh as (_ & _ & H3 & H4).
  unfold decode_closed, fr_need. rewrite <- H3, <- H4. fold (fr_need b). rewrite Ht.
  destruct (_ =? _); cbn [negb]; [|done]. by rewrite (proj2 (Z.ltb_lt _ _)).
Qed.

Lemma decode_no_header b : zlen b < headerSize → decodeFrameBytes b = Err errTornTail.
Proof. intros H. unfold decodeFrameBytes. by rewrite (proj2 (Z.ltb_lt _ _)). Qed.

(** A frame cut anywhere reads as a torn tail, never as corruption and never
    as a shorter record. *)
Lemma decode_torn r n :
  record_ok r → wf_bytes (r_Payload r) → (n < length (encode_rec r))%nat →
  decodeFrameBytes (take n (encode_rec r)) = Err errTornTail.
Proof.
  intros Hok Hwf Hn. pose proof (zlen_encode_rec r) as Hl.
  destruct (decide (Z.of_nat n < headerSize)) as [Hlt|Hge].
  { apply decode_no_header. unfold zlen. rewrite length_take. lia. }
  destruct (encode_header r [] Hok) as [H1 H2]. rewrite app_nil_r in H1, H2.
  rewrite <- (Nat2Z.id n). rewrite decode_short.
  - by rewrite H1.
  - by apply crc_bytes_wf.
  - unfold zlen in *. lia.
  - unfold fr_need. rewrite H2. unfold zlen in *. lia.
Qed.

(** ** Reading one frame *)

(** The fast path of [readFrame] agrees with decoding everything that is
    left, except that a declared length over the limit is never reported as
    such: the bounded read makes it look like a torn tail. *)
Definition read_reference (rest : bytes) : result wal_error (option (Record_ * Z)) :=
  if (headerSize <=? zlen rest) && (MaxRecordPayloadSize <? fr_length rest) then
    Err (if fr_version rest =? FormatVersion then errTornTail else ErrUnsupportedVersion)
  else '(rec, n) ← decodeFrameBytes rest; Ok (Some (rec, n)).

Lemma read_at_drop seg n offset rest :
  drop (Z.to_nat offset) seg = rest → read_at seg n offset = take (Z.to_nat n) rest.
Proof. intros <-. done. Qed.

Lemma decode_bounded rest k :
  wf_bytes rest → headerSize ≤ zlen rest → headerSize ≤ k →
  fr_need rest ≤ k ∨ zlen rest < fr_need rest →
  decodeFrameBytes (take (Z.to_nat k) rest) = decodeFrameBytes rest.
Proof.
  intros Hwf Hl Hk Hn. pose proof (fr_length_range rest Hwf) as [Hlen _].
  destruct (decide (zlen rest ≤ k)) as [Hle|Hgt].
  { rewrite take_ge; [done|]. unfold zlen in *. lia. }
  destruct Hn as [Hn|Hn].
  - assert (Ht : zlen (take (Z.to_nat k) rest) = k) by (apply zlen_take_le; unfold headerSize in *; lia).
    assert (Hh := fr_header_app (take (Z.to_nat k) rest) (drop (Z.to_nat k) rest) ltac:(lia)).
    rewrite take_drop in Hh. destruct Hh as (_ & _ & H3 & _).
    rewrite !decodeFrameBytes_closed by (done || (by apply Forall_take) || lia).
    rewrite <- (take_drop (Z.to_nat k) rest) at 2. symmetry. apply decode_closed_app; [lia|lia|].
    unfold fr_need in *. rewrite <- H3. lia.
  - rewrite decode_short by (done || lia). rewrite <- (take_ge rest (Z.to_nat (zlen rest))) at 2
      by (unfold zlen; lia). by rewrite decode_short by (done || lia).
Qed.

Lemma readFrame_reference seg offset :
  wf_bytes seg → 0 ≤ offset →
  readFrame seg offset =
    if zlen seg <=? offset then Ok None else read_reference (drop (Z.to_nat offset) seg).
Proof.
  intros Hwf H0. unfold readFrame. destruct (Z.leb_spec (zlen seg) offset); [done|].
  remember (drop (Z.to_nat offset) seg) as rest eqn:Hrest. symmetry in Hrest.
  assert (Hl : zlen rest = zlen seg - offset).
  { rewrite <- Hrest. unfold zlen in *. rewrite length_drop. lia. }
  assert (Hwr : wf_bytes rest) by (rewrite <- Hrest; by apply Forall_drop).
  pose proof (fr_length_range rest Hwr) as [Hlen0 Hlen1].
  rewrite !(read_at_drop _ _ _ _ Hrest). rewrite <- Hl. unfold read_reference.
  destruct (Z.ltb_spec headerSize (zlen rest)) as [Hh|Hh].
  - assert (Ht : zlen (take (Z.to_nat headerSize) rest) = headerSize).
    { unfold zlen, headerSize in *. rewrite length_take. lia. }
    rewrite Ht, Z.ltb_irrefl. rewrite (proj2 (Z.leb_le _ _)) by lia. cbn [andb].
    assert (Hfl : get_u32 (drop 9 (take (Z.to_nat headerSize) rest)) = fr_length rest).
    { unfold fr_length, get_u32. rewrite skipn_firstn_comm, take_take. done. }
    rewrite Hfl. fold (fr_need rest).
    destruct (Z.ltb_spec MaxRecordPayloadSize (fr_length rest)) as [Hmax|Hmax]; cbn [orb].
    + unfold readFrameFull. rewrite (read_at_drop _ _ _ _ Hrest).
      rewrite decode_short; [done|done|..];
        (case_if; bool_to_prop; unfold fr_need, headerSize, checksumSize, MaxRecordPayloadSize in *; lia).
    + destruct (Z.ltb_spec (zlen rest) (fr_need rest)).
      * unfold readFrameFull. rewrite (read_at_drop _ _ _ _ Hrest).
        rewrite decode_bounded; [done|done|lia| |by right].
        case_if; unfold headerSize, checksumSize, MaxRecordPayloadSize in *; lia.
      * rewrite decode_bounded; [done|done|lia| |by left].
        unfold fr_need, headerSize, checksumSize in *. lia.
  - rewrite take_ge by (unfold zlen in *; lia).
    destruct (Z.ltb_spec (zlen rest) headerSize).
    + rewrite (proj2 (Z.leb_gt _ _)) by lia. cbn [andb]. by rewrite decode_no_header by lia.
    + rewrite (proj2 (Z.leb_le _ _)) by lia. cbn [andb].
      change (get_u32 (drop 9 rest)) with (fr_length rest). fold (fr_need rest).
      destruct (Z.ltb_spec MaxRecordPayloadSize (fr_length rest)) as [Hmax|Hmax]; cbn [orb].
      * unfold readFrameFull. rewrite (read_at_drop _ _ _ _ Hrest).
        rewrite decode_short; [done|done|..];
          (case_if; bool_to_prop; unfold fr_need, headerSize, checksumSize, MaxRecordPayloadSize in *; lia).
      * rewrite (proj2 (Z.ltb_lt _ _)) by (unfold fr_need, headerSize, checksumSize in *; lia).
        unfold readFrameFull. rewrite (read_at_drop _ _ _ _ Hrest).
        rewrite take_ge; [done|]. case_if; unfold zlen, headerSize, checksumSize, MaxRecordPayloadSize in *; lia.
Qed.

(** ** Metadata round trip *)

Definition metadata_ok (m : Metadata) : Prop :=
  is_byte (md_FormatVersion m) ∧ is_u64 (md_LatestSnapshotIndex m) ∧ wf_bytes (md_NodeID m) ∧
  zlen (md_NodeID m) < 2 ^ 16 ∧ is_u32 (md_ClusterGeneration m).

Lemma decode_encode_metadata m : metadata_ok m → decodeMetadata (encodeMetadata m) = Ok m.
Proof.
  destruct m as [id v snap gen]. unfold metadata_ok, encodeMetadata.
  cbn [md_NodeID md_FormatVersion md_LatestSnapshotIndex md_ClusterGeneration].
  intros (Hv & Hs & Hw & Hid & Hg). unfold decodeMetadata. pose proof (zlen_nonneg id).
  set (tl := if 0 <? gen then _ else _).
  assert (Hlen : zlen ([v] ++ put_u64 snap ++ put_u16 (zlen id) ++ id ++ tl) = 11 + zlen id + zlen tl)
    by zlen_lia.
  pose proof (zlen_nonneg tl). rewrite Hlen, (proj2 (Z.ltb_ge _ _)) by lia. clear Hlen.
  do 3 decode_step. repeat (decode_step || fail).
  assert (H16 : get_u16 (put_u16 (zlen id)) = zlen id).
  { unfold get_u16. rewrite <- (app_nil_r (put_u16 _)), take_be_put. by apply be_get_put. }
  rewrite H16. rewrite zlen_app, (proj2 (Z.ltb_ge _ _)) by lia.
  rewrite slice_at_app by done. rewrite bind_Ok. cbv beta iota.
  unfold tl. destruct (Z.ltb_spec 0 gen).
  - rewrite zlen_be_put. cbn [Z.of_nat Pos.of_succ_nat Pos.succ Z.eqb Pos.eqb].
    rewrite <- (app_nil_r (put_u32 gen)), u32_at_put by done. done.
  - rewrite zlen_nil. cbn [Z.eqb]. unfold is_u32 in Hg. by replace gen with 0 by lia.
Qed.

Lemma encodeMetadata_wf m : metadata_ok m → wf_bytes (encodeMetadata m).
Proof.
  intros (Hv & Hs & Hw & Hid & Hg). unfold encodeMetadata.
  apply Forall_app_2; [by constructor|]. apply Forall_app_2; [apply wf_be_put|].
  apply Forall_app_2; [apply wf_be_put|]. apply Forall_app_2; [done|].
  case_if; [apply wf_be_put|constructor].
Qed.

Lemma zlen_encodeMetadata m : zlen (encodeMetadata m) ≤ 15 + zlen (md_NodeID m).
Proof. unfold encodeMetadata. pose proof (zlen_nonneg (md_NodeID m)). case_if; zlen_lia. Qed.
