(* ===== verification/Wal.v ===== *)
(** * The write-ahead log ([internal/wal/wal.go], [replay.go], and the segment
    files of [internal/storage/storage.go])

    The directory is the ascending list of its segments; a segment keeps how
    many of its bytes a [Sync] covered, which is what survives a crash.
    I/O errors of the operating system are not modelled: every call that the
    code makes on a file succeeds.  [newNodeID] is an argument of [Open]. *)

From S2P Require Import Prelude Bytes Hash WalRecord.

(** ** Segments *)

Record Segment := mkSegment { seg_id : Z; seg_bytes : bytes; seg_synced : Z }.
Abbreviation Disk := (list Segment).

Definition ListSegmentIDs (d : Disk) : list Z := seg_id <$> d.

Definition find_segment (d : Disk) (id : Z) : option Segment :=
  snd <$> list_find (λ s, seg_id s = id) d.

Definition seg_size (d : Disk) (id : Z) : Z :=
  match find_segment d id with Some s => zlen (seg_bytes s) | None => 0 end.

Definition on_segment (f : Segment → Segment) (id : Z) (d : Disk) : Disk :=
  (λ s, if bool_decide (seg_id s = id) then f s else s) <$> d.

Definition AppendSegment (p : bytes) : Z → Disk → Disk :=
  on_segment (λ s, mkSegment (seg_id s) (seg_bytes s ++ p) (seg_synced s)).
Definition SyncSegment : Z → Disk → Disk :=
  on_segment (λ s, mkSegment (seg_id s) (seg_bytes s) (zlen (seg_bytes s))).
(** [Truncate] shrinks and syncs. *)
Definition TruncateSegment (n : Z) : Z → Disk → Disk :=
  on_segment (λ s, mkSegment (seg_id s) (take (Z.to_nat n) (seg_bytes s)) n).

(** [O_EXCL]: an existing segment is an error. *)
Fixpoint insert_segment (id : Z) (d : Disk) : Disk :=
  match d with
  | [] => [mkSegment id [] 0]
  | s :: d => if id <? seg_id s then mkSegment id [] 0 :: s :: d else s :: insert_segment id d
  end.
Definition CreateSegment (d : Disk) (id : Z) : result wal_error Disk :=
  if bool_decide (id ∈ ListSegmentIDs d) then Err ErrInvalidArgument else Ok (insert_segment id d).
Definition RemoveSegment (d : Disk) (id : Z) : Disk := filter (λ s, seg_id s ≠ id) d.

(** ** The log *)

Definition MaxSupportedGeneration : Z := 3.
Definition DefaultSegmentMaxSize : Z := 16 * 1024 * 1024.

Record WAL := mkWAL {
  w_disk : Disk;
  w_segmentMaxSize : Z;
  w_current : Z;
  w_metadata : Metadata;
  w_nextLogIndex : Z;
  w_firstLogIndex : Z;
  w_latestHardState : bytes;
  w_closed : bool
}.
#[export] Instance WAL_eta : Eta WAL := λ w,
  mkWAL (w_disk w) (w_segmentMaxSize w) (w_current w) (w_metadata w) (w_nextLogIndex w)
    (w_firstLogIndex w) (w_latestHardState w) (w_closed w).
#[export] Instance set_w_disk : Setter w_disk.
Proof. derive_setter. Defined.
#[export] Instance set_w_current : Setter w_current.
Proof. derive_setter. Defined.
#[export] Instance set_w_metadata : Setter w_metadata.
Proof. derive_setter. Defined.
#[export] Instance set_w_nextLogIndex : Setter w_nextLogIndex.
Proof. derive_setter. Defined.
#[export] Instance set_w_firstLogIndex : Setter w_firstLogIndex.
Proof. derive_setter. Defined.
#[export] Instance set_w_latestHardState : Setter w_latestHardState.
Proof. derive_setter. Defined.
#[export] Instance set_w_closed : Setter w_closed.
Proof. derive_setter. Defined.

(** A new current segment when the frame would not fit the threshold.  The
    old segment is closed, not synced. *)
Definition maybeRotateLocked (w : WAL) (nextFrameSize : Z) : result wal_error WAL :=
  let size := seg_size (w_disk w) (w_current w) in
  if (size =? 0) || (size + nextFrameSize <=? w_segmentMaxSize w) then Ok w else
  let newID := w_nextLogIndex w in
  if newID <=? w_current w then Ok w else
  d ← CreateSegment (w_disk w) newID;
  Ok (w <| w_disk := SyncSegment newID d |> <| w_current := newID |>).

Definition appendLocked (w : WAL) (rt : RecordType) (payload : bytes) : result wal_error WAL :=
  if MaxRecordPayloadSize <? zlen payload then Err ErrRecordTooLarge else
  let index := if bool_decide (rt = RecordTypeLogEntry) then w_nextLogIndex w else 0 in
  let frame := encodeRecord rt index payload in
  w ← maybeRotateLocked w (zlen frame);
  Ok (w <| w_disk := AppendSegment frame (w_current w) (w_disk w) |>).

Definition sync_current (w : WAL) : WAL := w <| w_disk := SyncSegment (w_current w) (w_disk w) |>.

Definition Sync (w : WAL) : result wal_error WAL :=
  if w_closed w then Err ErrClosed else Ok (sync_current w).
Definition Close (w : WAL) : result wal_error WAL :=
  if w_closed w then Err ErrClosed else Ok (w <| w_closed := true |>).

Definition NextIndex (w : WAL) : Z := w_nextLogIndex w.
Definition FirstIndex (w : WAL) : Z := w_firstLogIndex w.
Definition LatestHardState (w : WAL) : bytes := w_latestHardState w.

Definition AppendLogEntry (w : WAL) (payload : bytes) : result wal_error (WAL * Z) :=
  if w_closed w then Err ErrClosed else
  let idx := w_nextLogIndex w in
  w ← appendLocked w RecordTypeLogEntry payload;
  Ok (w <| w_nextLogIndex := (idx + 1)%u64 |>, idx).

Definition AppendHardState (w : WAL) (payload : bytes) : result wal_error WAL :=
  if w_closed w then Err ErrClosed else
  w ← appendLocked w RecordTypeHardState payload;
  Ok (w <| w_latestHardState := payload |>).

Definition AppendMetadataSnapshot (w : WAL) (uptoIndex : Z) : result wal_error WAL :=
  if w_closed w then Err ErrClosed else
  if uptoIndex <? md_LatestSnapshotIndex (w_metadata w) then Err ErrInvalidArgument else
  let meta := (w_metadata w) <| md_LatestSnapshotIndex := uptoIndex |> in
  w ← appendLocked w RecordTypeMetadata (encodeMetadata meta);
  Ok ((sync_current w) <| w_metadata := meta |> <| w_firstLogIndex := (uptoIndex + 1)%u64 |>).

Definition SetClusterGeneration (w : WAL) (generation : Z) : result wal_error WAL :=
  if w_closed w then Err ErrClosed else
  if generation <=? md_ClusterGeneration (w_metadata w) then Ok w else
  if MaxSupportedGeneration <? generation then Err ErrUnsupportedGeneration else
  let meta := (w_metadata w) <| md_ClusterGeneration := generation |> in
  w ← appendLocked w RecordTypeMetadata (encodeMetadata meta);
  Ok ((sync_current w) <| w_metadata := meta |>).

(** ** Scanning segments *)

(** The loops over frames take the number of bytes as fuel: every frame has
    at least 18. *)
Fixpoint locate_in_segment (fuel : nat) (seg : bytes) (off target : Z) : result wal_error (option Z) :=
  match fuel with
  | O => Ok None
  | S fuel =>
      match readFrame seg off with
      | Err e => if bool_decide (e = errTornTail) then Ok None else Err e
      | Ok None => Ok None
      | Ok (Some (rec, n)) =>
          if bool_decide (r_Type rec = RecordTypeLogEntry) && (r_Index rec =? target) then Ok (Some off)
          else locate_in_segment fuel seg (off + n) target
      end
  end.

Fixpoint locateLogIndex (d : Disk) (target : Z) : result wal_error (option (Z * Z)) :=
  match d with
  | [] => Ok None
  | s :: d =>
      found ← locate_in_segment (length (seg_bytes s)) (seg_bytes s) 0 target;
      match found with
      | Some off => Ok (Some (seg_id s, off))
      | None => locateLogIndex d target
      end
  end.

(** The segments newer than [target] are removed, highest first. *)
Definition remove_newer (d : Disk) (target : Z) : Disk :=
  foldl (λ d id, if id <=? target then d else RemoveSegment d id) d (reverse (ListSegmentIDs d)).

Definition Truncate (w : WAL) (fromIndex : Z) : result wal_error WAL :=
  if w_closed w then Err ErrClosed else
  if fromIndex <? 1 then Err ErrInvalidArgument else
  if w_nextLogIndex w <=? fromIndex then
    Ok (if w_nextLogIndex w <? fromIndex then w <| w_nextLogIndex := fromIndex |> else w)
  else
    found ← locateLogIndex (w_disk w) fromIndex;
    match found with
    | None => Err ErrCorrupt
    | Some (targetID, targetOffset) =>
        let d := remove_newer (w_disk w) targetID in
        Ok (w <| w_disk := TruncateSegment targetOffset targetID d |> <| w_current := targetID |>
              <| w_nextLogIndex := fromIndex |>)
    end.

(** The segments whose every index is at or below [uptoIndex], judged by the
    identifier of the next one; the current segment is never among them. *)
Fixpoint eligible_segments (current uptoIndex : Z) (ids : list Z) : list Z :=
  match ids with
  | id :: ((next :: _) as rest) =>
      if bool_decide (id = current) then [] else
      if uptoIndex <? (next - 1)%u64 then [] else id :: eligible_segments current uptoIndex rest
  | _ => []
  end.

Definition CompactBeforeRetaining (w : WAL) (uptoIndex retainExtraSegments : Z) : result wal_error WAL :=
  if w_closed w then Err ErrClosed else
  if retainExtraSegments <? 0 then Err ErrInvalidArgument else
  let eligible := eligible_segments (w_current w) uptoIndex (ListSegmentIDs (w_disk w)) in
  if zlen eligible <=? retainExtraSegments then Ok w else
  Ok (w <| w_disk := foldl RemoveSegment (w_disk w)
                       (take (Z.to_nat (zlen eligible - retainExtraSegments)) eligible) |>).

Definition CompactBefore (w : WAL) (uptoIndex : Z) : result wal_error WAL :=
  CompactBeforeRetaining w uptoIndex 0.

(** ** Recovery *)

Record scan_state := mkScan {
  sc_meta : option Metadata;
  sc_hardState : bytes;
  sc_logIndices : list Z
}.

Definition scan_record (st : scan_state) (rec : Record_) : result wal_error scan_state :=
  match r_Type rec with
  | RecordTypeLogEntry => Ok (mkScan (sc_meta st) (sc_hardState st) (sc_logIndices st ++ [r_Index rec]))
  | RecordTypeMetadata =>
      match decodeMetadata (r_Payload rec) with
      | Ok m => Ok (mkScan (Some m) (sc_hardState st) (sc_logIndices st))
      | Err _ => Err ErrCorrupt
      end
  | RecordTypeHardState => Ok (mkScan (sc_meta st) (r_Payload rec) (sc_logIndices st))
  end.

(** One segment: the state after its records and, if its tail is torn, the
    offset of the tear. *)
Fixpoint scan_segment (fuel : nat) (seg : bytes) (offset : Z) (st : scan_state)
    : result wal_error (scan_state * option Z) :=
  match fuel with
  | O => Ok (st, None)
  | S fuel =>
      match readFrame seg offset with
      | Err e => if bool_decide (e = errTornTail) then Ok (st, Some offset) else Err e
      | Ok None => Ok (st, None)
      | Ok (Some (rec, n)) => st ← scan_record st rec; scan_segment fuel seg (offset + n) st
      end
  end.

Fixpoint scan_segments (d : Disk) (st : scan_state) : result wal_error (scan_state * Disk) :=
  match d with
  | [] => Ok (st, [])
  | s :: rest =>
      '(st, torn) ← scan_segment (S (length (seg_bytes s))) (seg_bytes s) 0 st;
      match torn with
      | None => '(st, rest) ← scan_segments rest st; Ok (st, s :: rest)
      | Some off =>
          match rest with
          | [] => Ok (st, [mkSegment (seg_id s) (take (Z.to_nat off) (seg_bytes s)) off])
          | _ :: _ => Err ErrCorrupt
          end
      end
  end.

(** The contiguity pass: the last live index, from the boundary. *)
Fixpoint check_contiguity (boundary last : Z) (live : bool) (idxs : list Z) : result wal_error Z :=
  match idxs with
  | [] => Ok last
  | idx :: idxs =>
      if idx <=? boundary then check_contiguity boundary last live idxs
      else if negb live then
        if negb (idx =? (boundary + 1)%u64) then Err ErrCorrupt
        else check_contiguity boundary idx true idxs
      else if negb (idx =? (last + 1)%u64) then Err ErrCorrupt
      else check_contiguity boundary idx true idxs
  end.

Definition open_checks (st : scan_state) : result wal_error (Metadata * Z) :=
  match sc_meta st with
  | None => Err ErrNoMetadata
  | Some meta =>
      if negb (md_FormatVersion meta =? FormatVersion) then Err ErrUnsupportedVersion else
      if MaxSupportedGeneration <? md_ClusterGeneration meta then Err ErrUnsupportedGeneration else
      last ← check_contiguity (md_LatestSnapshotIndex meta) (md_LatestSnapshotIndex meta) false
               (sc_logIndices st);
      Ok (meta, last)
  end.

Definition last_id (d : Disk) : Z := match last d with Some s => seg_id s | None => 0 end.

(** [Open]: [nodeID] is what [newNodeID] would return for a fresh directory. *)
Definition Open (d : Disk) (nodeID : bytes) (segmentMaxSize : Z) : result wal_error WAL :=
  let segmentMaxSize := if segmentMaxSize <=? 0 then DefaultSegmentMaxSize else segmentMaxSize in
  match d with
  | [] =>
      let meta := mkMetadata nodeID FormatVersion 0 0 in
      d ← CreateSegment [] 1;
      w ← appendLocked (mkWAL d segmentMaxSize 1 meta 1 0 [] false) RecordTypeMetadata (encodeMetadata meta);
      Ok ((sync_current w) <| w_firstLogIndex := 1 |>)
  | _ :: _ =>
      '(st, d) ← scan_segments d (mkScan None [] []);
      '(meta, lastLogIndex) ← open_checks st;
      Ok (mkWAL d segmentMaxSize (last_id d) meta (lastLogIndex + 1)%u64
            (md_LatestSnapshotIndex meta + 1)%u64 (sc_hardState st) false)
  end.

(** ** Replay

    The iterator drained: the log entries at or above [fromIndex], in order,
    up to the first error. *)
Fixpoint replay_segment (fuel : nat) (seg : bytes) (offset fromIndex : Z) : list Record_ * option wal_error :=
  match fuel with
  | O => ([], None)
  | S fuel =>
      match readFrame seg offset with
      | Err e => ([], if bool_decide (e = errTornTail) then None else Some e)
      | Ok None => ([], None)
      | Ok (Some (rec, n)) =>
          let '(rs, e) := replay_segment fuel seg (offset + n) fromIndex in
          if negb (bool_decide (r_Type rec = RecordTypeLogEntry)) || (r_Index rec <? fromIndex)
          then (rs, e) else (rec :: rs, e)
      end
  end.

Fixpoint replay_segments (d : Disk) (fromIndex : Z) : list Record_ * option wal_error :=
  match d with
  | [] => ([], None)
  | s :: d =>
      let '(rs, e) := replay_segment (S (length (seg_bytes s))) (seg_bytes s) 0 fromIndex in
      match e with
      | Some e => (rs, Some e)
      | None => let '(rs', e) := replay_segments d fromIndex in (rs ++ rs', e)
      end
  end.

Definition Replay (w : WAL) (fromIndex : Z) : result wal_error (list Record_ * option wal_error) :=
  if w_closed w then Err ErrClosed else Ok (replay_segments (w_disk w) fromIndex).

(** ** Crashes

    What is on disk after a power failure: every segment keeps at least its
    synced bytes and possibly some of the bytes appended after them. *)
Definition crash_segment (s s' : Segment) : Prop :=
  seg_id s' = seg_id s ∧ ∃ n, seg_synced s ≤ n ≤ zlen (seg_bytes s) ∧
    seg_bytes s' = take (Z.to_nat n) (seg_bytes s) ∧ seg_synced s' = n.
Definition crash : Disk → Disk → Prop := Forall2 crash_segment.
