(* ===== verification/WalSpec.v ===== *)
(** * Recovery of the write-ahead log

    Segments are concatenated frames; [hist] is the abstract history of a log
    as a list of records with the state it determines.  A live log refines
    its history ([wal_inv]), a crash leaves a prefix of it, and [Open] reads
    back exactly the state of that prefix. *)

From S2P Require Import Prelude Bytes Hash WalRecord Wal.

(** ** Segments as lists of records *)

Definition rec_ok (r : Record_) : Prop := record_ok r ∧ wf_bytes (r_Payload r).
Definition enc_recs (rs : list Record_) : bytes := mjoin (encode_rec <$> rs).

Lemma enc_recs_cons r rs : enc_recs (r :: rs) = encode_rec r ++ enc_recs rs.
Proof. done. Qed.

Lemma enc_recs_app a b : enc_recs (a ++ b) = enc_recs a ++ enc_recs b.
Proof.
  induction a as [|r a IH]; [done|]. rewrite <- app_comm_cons, !enc_recs_cons, IH. by rewrite app_assoc.
Qed.

Lemma enc_recs_single r : enc_recs [r] = encode_rec r.
Proof. unfold enc_recs. cbn [mjoin list_join fmap list_fmap map]. apply app_nil_r. Qed.

Lemma mjoin_snoc {A} (a : list (list A)) b : mjoin (a ++ [b]) = mjoin a ++ b.
Proof.
  induction a as [|x a IH]; [apply app_nil_r|].
  change (mjoin ((x :: a) ++ [b])) with (x ++ mjoin (a ++ [b])). rewrite IH.
  change (mjoin (x :: a)) with (x ++ mjoin a). by rewrite app_assoc.
Qed.

Lemma rec_ok_encode_wf r : rec_ok r → wf_bytes (encode_rec r).
Proof. intros [_ H]. by apply crc_bytes_wf. Qed.

Lemma enc_recs_wf rs : Forall rec_ok rs → wf_bytes (enc_recs rs).
Proof.
  induction 1 as [|r rs Hr Hrs IH]; [constructor|]. rewrite enc_recs_cons.
  apply Forall_app_2; [by apply rec_ok_encode_wf|done].
Qed.

Lemma encode_rec_len r : (18 ≤ length (encode_rec r))%nat.
Proof.
  pose proof (zlen_encode_rec r). unfold zlen, headerSize, checksumSize in *. lia.
Qed.

(** What a crash can leave after complete frames: a proper prefix of one. *)
Definition torn (t : bytes) : Prop :=
  ∃ r n, rec_ok r ∧ (n < length (encode_rec r))%nat ∧ t = take n (encode_rec r).

Lemma torn_wf t : torn t → wf_bytes t.
Proof. intros (r & n & Hr & _ & ->). apply Forall_take. by apply rec_ok_encode_wf. Qed.

Lemma torn_nil : torn [].
Proof.
  exists (mkRecord RecordTypeHardState 0 []), 0%nat. split; [|split; [|done]].
  - split; [split; [cbn; unfold is_u64; lia|vm_compute; discriminate]|constructor].
  - pose proof (encode_rec_len (mkRecord RecordTypeHardState 0 [])). lia.
Qed.

Lemma readFrame_record pre r post :
  wf_bytes pre → wf_bytes post → rec_ok r →
  readFrame (pre ++ encode_rec r ++ post) (zlen pre) = Ok (Some (r, zlen (encode_rec r))).
Proof.
  intros Hpre Hpost Hr. pose proof (rec_ok_encode_wf r Hr) as Hwf.
  pose proof (encode_rec_len r) as Hlen. pose proof (zlen_nonneg post).
  rewrite readFrame_reference; [|apply Forall_app_2; [done|by apply Forall_app_2]|apply zlen_nonneg].
  rewrite (proj2 (Z.leb_gt _ _)) by (rewrite !zlen_app; unfold zlen in *; lia).
  rewrite drop_app_zlen. unfold read_reference. destruct (encode_header r post (proj1 Hr)) as [_ ->].
  destruct Hr as [[Hi Hp] Hw]. rewrite (proj2 (Z.ltb_ge _ _)) by done. rewrite andb_false_r.
  by rewrite decode_encode_frame by done.
Qed.

Lemma readFrame_end pre t :
  wf_bytes pre → torn t →
  readFrame (pre ++ t) (zlen pre) = if decide (t = []) then Ok None else Err errTornTail.
Proof.
  intros Hpre Ht. pose proof (torn_wf t Ht) as Hwf.
  rewrite readFrame_reference; [|by apply Forall_app_2|apply zlen_nonneg]. rewrite zlen_app.
  destruct (decide (t = [])) as [->|Hne].
  { rewrite zlen_nil. by rewrite (proj2 (Z.leb_le _ _)) by lia. }
  assert (1 ≤ zlen t) by (destruct t; [done|rewrite zlen_cons; pose proof (zlen_nonneg t); lia]).
  rewrite (proj2 (Z.leb_gt _ _)) by lia. rewrite drop_app_zlen. unfold read_reference.
  destruct Ht as (r & n & Hr & Hn & ->). rewrite decode_torn by (done || apply Hr).
  destruct (Z.leb_spec headerSize (zlen (take n (encode_rec r)))) as [Hh|]; cbn [andb]; [|done].
  destruct (encode_header r [] (proj1 Hr)) as [H1 H2]. rewrite app_nil_r in H1, H2.
  destruct (fr_header_app (take n (encode_rec r)) (drop n (encode_rec r)) Hh) as (_ & _ & H3 & H4).
  rewrite take_drop in H3, H4. rewrite <- H3, <- H4, H1, H2. by case_if.
Qed.

(** ** Scanning *)

Fixpoint scan_records (st : scan_state) (rs : list Record_) : result wal_error scan_state :=
  match rs with
  | [] => Ok st
  | r :: rs => st ← scan_record st r; scan_records st rs
  end.

Lemma scan_records_app st a b :
  scan_records st (a ++ b) = (st ← scan_records st a; scan_records st b).
Proof.
  revert st. induction a as [|r a IH]; intros st; cbn [app scan_records]; [done|].
  destruct (scan_record st r) as [st'|]; cbn [mbind result_bind]; [apply IH|done].
Qed.

Lemma enc_recs_length rs : (18 * length rs ≤ length (enc_recs rs))%nat.
Proof.
  induction rs as [|r rs IH]; [done|]. rewrite enc_recs_cons, length_app.
  pose proof (encode_rec_len r). cbn [length]. lia.
Qed.

Lemma scan_segment_records fuel pre rs t st :
  Forall rec_ok pre → Forall rec_ok rs → torn t → (length rs < fuel)%nat →
  scan_segment fuel (enc_recs pre ++ enc_recs rs ++ t) (zlen (enc_recs pre)) st =
    (st' ← scan_records st rs;
     Ok (st', if decide (t = []) then None else Some (zlen (enc_recs (pre ++ rs))))).
Proof.
  intros Hpre Hrs Ht. revert pre st fuel Hpre.
  induction Hrs as [|r rs Hr Hrs IH]; intros pre st fuel Hpre Hf; (destruct fuel as [|fuel]; [cbn in Hf; lia|]).
  - cbn [scan_segment scan_records]. rewrite app_nil_l, app_nil_r.
    rewrite readFrame_end by (done || by apply enc_recs_wf). rewrite bind_Ok.
    destruct (decide (t = [])); [done|]. by rewrite bool_decide_true.
  - cbn [scan_segment scan_records]. rewrite enc_recs_cons, <- app_assoc.
    rewrite readFrame_record; [| by apply enc_recs_wf| |done].
    2: { apply Forall_app_2; [by apply enc_recs_wf|by apply torn_wf]. }
    destruct (scan_record st r) as [st'|]; cbn [mbind result_bind]; [|done].
    specialize (IH (pre ++ [r]) st' fuel). rewrite enc_recs_app, zlen_app in IH.
    rewrite enc_recs_single, <- !app_assoc in IH. apply IH.
    + apply Forall_app_2; [done|by constructor].
    + cbn in Hf. lia.
Qed.

Lemma scan_whole_segment rs t st :
  Forall rec_ok rs → torn t →
  scan_segment (S (length (enc_recs rs ++ t))) (enc_recs rs ++ t) 0 st =
    (st' ← scan_records st rs;
     Ok (st', if decide (t = []) then None else Some (zlen (enc_recs rs)))).
Proof.
  intros Hrs Ht. apply (scan_segment_records _ [] rs t st); [constructor|done|done|].
  pose proof (enc_recs_length rs). rewrite length_app. lia.
Qed.

(** A segment that holds exactly [rs]. *)
Definition holds (s : Segment) (rs : list Record_) : Prop :=
  seg_bytes s = enc_recs rs ∧ Forall rec_ok rs.

(** The scan of complete segments followed by one with a torn tail. *)
Lemma scan_segments_records d rss s rs t st :
  Forall2 holds d rss → seg_bytes s = enc_recs rs ++ t → Forall rec_ok rs → torn t →
  scan_segments (d ++ [s]) st =
    (st' ← scan_records st (mjoin rss ++ rs);
     Ok (st', d ++ [if decide (t = []) then s
                    else mkSegment (seg_id s) (enc_recs rs) (zlen (enc_recs rs))])).
Proof.
  intros Hd Hs Hrs Ht. revert st. induction Hd as [|s0 rs0 d rss [H1 H2] Hd IH]; intros st; cbn [app scan_segments].
  - rewrite Hs, scan_whole_segment by done. change (scan_records st (mjoin [] ++ rs)) with (scan_records st rs).
    destruct (scan_records st rs) as [st'|]; cbn [mbind result_bind]; [|done].
    destruct (decide (t = [])) as [->|]; [done|]. do 3 f_equal. rewrite take_app_zlen. done.
  - rewrite <- (app_nil_r (seg_bytes s0)), H1, scan_whole_segment by (done || apply torn_nil).
    change (mjoin (rs0 :: rss)) with (rs0 ++ mjoin rss). rewrite <- app_assoc, scan_records_app.
    destruct (scan_records st rs0) as [st'|]; cbn [mbind result_bind]; [|done].
    rewrite IH. by destruct (scan_records st' (mjoin rss ++ rs)).
Qed.

(** ** Histories *)

Lemma prefix_snoc_inv {A} (a b : list A) x : a `prefix_of` b ++ [x] → a = b ++ [x] ∨ a `prefix_of` b.
Proof.
  intros [k Hk]. destruct k as [|y k _] using rev_ind; [left; by rewrite app_nil_r in Hk|right].
  rewrite app_assoc in Hk. apply app_inj_2 in Hk as [-> _]; [|done]. by eexists.
Qed.

Definition meta_rec (m : Metadata) : Record_ := mkRecord RecordTypeMetadata 0 (encodeMetadata m).
Definition hs_rec (p : bytes) : Record_ := mkRecord RecordTypeHardState 0 p.
Definition log_rec (i : Z) (p : bytes) : Record_ := mkRecord RecordTypeLogEntry i p.

Definition meta_good (m : Metadata) : Prop :=
  metadata_ok m ∧ md_FormatVersion m = FormatVersion ∧ md_ClusterGeneration m ≤ MaxSupportedGeneration.
Definition payload_ok (p : bytes) : Prop := wf_bytes p ∧ zlen p ≤ MaxRecordPayloadSize.

Lemma meta_rec_ok m : meta_good m → rec_ok (meta_rec m).
Proof.
  intros (Hm & _). pose proof (encodeMetadata_wf m Hm). pose proof (zlen_encodeMetadata m).
  destruct Hm as (_ & _ & _ & Hid & _).
  split; [split|done].
  - cbn. unfold is_u64. lia.
  - change (r_Payload (meta_rec m)) with (encodeMetadata m). unfold MaxRecordPayloadSize. lia.
Qed.

Lemma hs_rec_ok p : payload_ok p → rec_ok (hs_rec p).
Proof. intros [H1 H2]. split; [split|done]; cbn; [unfold is_u64; lia|done]. Qed.

Lemma log_rec_ok i p : is_u64 i → payload_ok p → rec_ok (log_rec i p).
Proof. intros Hi [H1 H2]. by split; [split|]. Qed.

Lemma check_live_contiguity b last k idxs :
  0 ≤ b ≤ last → 0 ≤ k → last + k + 1 < 2 ^ 64 →
  filter (λ i, b < i) idxs = seqZ (last + 1) k →
  check_contiguity b last true idxs = Ok (last + k).
Proof.
  intros Hb. revert last k Hb. induction idxs as [|i idxs IH]; intros last k Hb Hk Hl Hf; cbn [check_contiguity].
  { f_equal. apply (f_equal length) in Hf. rewrite length_seqZ in Hf. cbn in Hf. lia. }
  rewrite filter_cons in Hf. case_decide as Hi.
  - rewrite (proj2 (Z.leb_gt _ _)) by lia. cbn [negb].
    assert (0 < k). { destruct (decide (0 < k)); [done|]. rewrite seqZ_nil in Hf by lia. done. }
    rewrite seqZ_cons in Hf by lia. injection Hf as -> Hf.
    rewrite u64_small by (unfold is_u64; lia). rewrite Z.eqb_refl. cbn [negb].
    rewrite (IH (last + 1) (k - 1)); [f_equal; lia|lia|lia|lia|].
    rewrite Hf. f_equal; lia.
  - rewrite (proj2 (Z.leb_le _ _)) by lia. by apply IH.
Qed.

Lemma check_contiguity_ok b k idxs :
  0 ≤ b → 0 ≤ k → b + k + 1 < 2 ^ 64 →
  filter (λ i, b < i) idxs = seqZ (b + 1) k → check_contiguity b b false idxs = Ok (b + k).
Proof.
  intros Hb Hk Hl. induction idxs as [|i idxs IH]; intros Hf; cbn [check_contiguity].
  { f_equal. apply (f_equal length) in Hf. rewrite length_seqZ in Hf. cbn in Hf. lia. }
  rewrite filter_cons in Hf. case_decide as Hi.
  - rewrite (proj2 (Z.leb_gt _ _)) by lia. cbn [negb].
    assert (0 < k). { destruct (decide (0 < k)); [done|]. rewrite seqZ_nil in Hf by lia. done. }
    rewrite seqZ_cons in Hf by lia. injection Hf as -> Hf.
    rewrite u64_small by (unfold is_u64; lia). rewrite Z.eqb_refl. cbn [negb].
    rewrite (check_live_contiguity b (b + 1) (k - 1)); [f_equal; lia|lia|lia|lia|].
    rewrite Hf. f_equal; lia.
  - rewrite (proj2 (Z.leb_le _ _)) by lia. by apply IH.
Qed.

(** The log entries of a list of records. *)
Definition log_indices (rs : list Record_) : list Z :=
  omap (λ r, if bool_decide (r_Type r = RecordTypeLogEntry) then Some (r_Index r) else None) rs.

Record hist_facts (rs : list Record_) (m : Metadata) (n : Z) (hs : bytes) : Prop := {
  hf_ok : Forall rec_ok rs;
  hf_meta : meta_good m;
  hf_next : md_LatestSnapshotIndex m + 1 ≤ n < 2 ^ 64;
  hf_snap : 0 ≤ md_LatestSnapshotIndex m;
  hf_below : Forall (λ i, 0 < i < n) (log_indices rs);
  hf_live : filter (λ i, md_LatestSnapshotIndex m < i) (log_indices rs) =
    seqZ (md_LatestSnapshotIndex m + 1) (n - 1 - md_LatestSnapshotIndex m);
  hf_scan : scan_records (mkScan None [] []) rs = Ok (mkScan (Some m) hs (log_indices rs))
}.

Lemma log_indices_snoc_log rs n p : log_indices (rs ++ [log_rec n p]) = log_indices rs ++ [n].
Proof. unfold log_indices. by rewrite omap_app. Qed.

Lemma log_indices_snoc_other rs r :
  r_Type r ≠ RecordTypeLogEntry → log_indices (rs ++ [r]) = log_indices rs.
Proof.
  intros H. unfold log_indices. rewrite omap_app. cbn. rewrite bool_decide_false by done.
  by rewrite app_nil_r.
Qed.

(** Raising the boundary within the log keeps the live suffix contiguous. *)
Lemma live_suffix b b' k idxs :
  b ≤ b' → filter (λ i, b < i) idxs = seqZ (b + 1) k →
  filter (λ i, b' < i) idxs = seqZ (b' + 1) (b + k - b').
Proof.
  intros Hb Hf.
  assert (filter (λ i, b' < i) idxs = filter (λ i, b' < i) (filter (λ i, b < i) idxs)) as ->.
  { rewrite list_filter_filter. apply list_filter_iff. intros i. split; [|intros []; done].
    intros Hi. split; [done|lia]. }
  rewrite Hf. clear Hf idxs. destruct (decide (b' - b ≤ k)) as [Hk|Hk].
  - replace k with ((b' - b) + (b + k - b')) by lia. rewrite seqZ_app by lia.
    rewrite filter_app, filter_none, filter_all.
    + cbn. f_equal; lia.
    + apply Forall_forall. intros i Hi%elem_of_seqZ. lia.
    + apply Forall_forall. intros i Hi%elem_of_seqZ. lia.
  - rewrite (seqZ_nil (b' + 1)) by lia. apply filter_none, Forall_forall.
    intros i Hi%elem_of_seqZ. lia.
Qed.

Lemma scan_meta_rec st m :
  meta_good m → scan_records st [meta_rec m] = Ok (mkScan (Some m) (sc_hardState st) (sc_logIndices st)).
Proof.
  intros (Hm & _). cbn [scan_records]. unfold scan_record. cbn [r_Type r_Payload meta_rec].
  by rewrite decode_encode_metadata.
Qed.

(** [hist base rs m n hs]: appending records to [base] gave [rs], with the
    metadata [m], the next log index [n] and the hard state [hs].  The base is
    the first metadata record of a fresh log, or what a compaction kept.  A
    metadata record that moves the snapshot pointer past the log also moves
    the next index. *)
Inductive hist (base : list Record_) : list Record_ → Metadata → Z → bytes → Prop :=
| hist_base m n hs : hist_facts base m n hs → hist base base m n hs
| hist_log rs m n hs p :
    hist base rs m n hs → payload_ok p → n + 1 < 2 ^ 64 → hist base (rs ++ [log_rec n p]) m (n + 1) hs
| hist_hs rs m n hs p : hist base rs m n hs → payload_ok p → hist base (rs ++ [hs_rec p]) m n p
| hist_meta rs m n hs m' :
    hist base rs m n hs → meta_good m' → md_LatestSnapshotIndex m ≤ md_LatestSnapshotIndex m' →
    md_LatestSnapshotIndex m' + 1 < 2 ^ 64 →
    hist base (rs ++ [meta_rec m']) m' (Z.max n (md_LatestSnapshotIndex m' + 1)) hs.

Lemma fresh_facts m :
  meta_good m → md_LatestSnapshotIndex m = 0 → hist_facts [meta_rec m] m 1 [].
Proof.
  intros Hm Hs. constructor; [by constructor; [apply meta_rec_ok|]|done|lia|lia|constructor| |].
  - rewrite Hs. rewrite seqZ_nil by lia. done.
  - by rewrite scan_meta_rec.
Qed.

Lemma hist_has_facts base rs m n hs : hist base rs m n hs → hist_facts rs m n hs.
Proof.
  induction 1 as [|rs m n hs p Hh [] Hp Hn|rs m n hs p Hh [] Hp|rs m n hs m' Hh [] Hm' Hle Hb].
  - done.
  - constructor; [|done|lia|done| | |].
    + apply Forall_app_2; [done|]. constructor; [|done]. apply log_rec_ok; [unfold is_u64; lia|done].
    + rewrite log_indices_snoc_log. apply Forall_app_2.
      * eapply Forall_impl; [done|]. cbn. intros; lia.
      * constructor; [lia|done].
    + rewrite log_indices_snoc_log, filter_app, hf_live0.
      rewrite filter_cons_True by lia.
      replace (n + 1 - 1 - md_LatestSnapshotIndex m) with ((n - 1 - md_LatestSnapshotIndex m) + 1) by lia.
      rewrite seqZ_app by lia. f_equal. rewrite seqZ_cons by lia. rewrite seqZ_nil by lia.
      cbn. f_equal. lia.
    + rewrite scan_records_app, hf_scan0, log_indices_snoc_log. done.
  - constructor; [|done|done|done| | |].
    + apply Forall_app_2; [done|]. constructor; [by apply hs_rec_ok|done].
    + by rewrite log_indices_snoc_other.
    + by rewrite log_indices_snoc_other.
    + rewrite scan_records_app, hf_scan0, log_indices_snoc_other by done. done.
  - constructor; [|done|lia|lia| | |].
    + apply Forall_app_2; [done|]. constructor; [by apply meta_rec_ok|done].
    + rewrite log_indices_snoc_other by done. eapply Forall_impl; [done|]. cbn. intros; lia.
    + rewrite log_indices_snoc_other by done. rewrite (live_suffix _ _ _ _ Hle hf_live0).
      destruct (decide (n ≤ md_LatestSnapshotIndex m' + 1)).
      * rewrite !seqZ_nil by lia. done.
      * f_equal. lia.
    + rewrite scan_records_app, hf_scan0, log_indices_snoc_other by done. rewrite bind_Ok.
      by rewrite scan_meta_rec.
Qed.

(** A history is readable: [Open]'s checks accept it and compute its state. *)
Lemma facts_open rs m n hs :
  hist_facts rs m n hs →
  (st ← scan_records (mkScan None [] []) rs; '(meta, last) ← open_checks st;
   Ok (meta, last, sc_hardState st)) = Ok (m, n - 1, hs).
Proof.
  intros [Hok (Hm & Hv & Hg) Hn Hs Hbelow Hlive Hscan]. rewrite Hscan, bind_Ok.
  unfold open_checks. cbn [sc_meta sc_logIndices sc_hardState]. rewrite Hv, Z.eqb_refl. cbn [negb].
  rewrite (proj2 (Z.ltb_ge _ _)) by done.
  rewrite (check_contiguity_ok _ (n - 1 - md_LatestSnapshotIndex m)) by (done || lia).
  rewrite !bind_Ok. do 3 f_equal. lia.
Qed.

Lemma hist_extends base rs m n hs : hist base rs m n hs → base `prefix_of` rs.
Proof. induction 1; [done|..]; by apply prefix_app_r. Qed.

(** Every prefix that keeps the base is a history. *)
Lemma hist_prefix base rs rs' m n hs :
  hist base rs m n hs → base `prefix_of` rs' → rs' `prefix_of` rs → ∃ m' n' hs', hist base rs' m' n' hs'.
Proof.
  intros Hh Hb Hp. revert rs' Hb Hp.
  induction Hh as [m n hs Hm|rs m n hs p Hh IH Hp Hn|rs m n hs p Hh IH Hp|rs m n hs m' Hh IH Hm' Hle Hb'];
    intros rs' Hb Hpr.
  1: { assert (rs' = base) as -> by (by apply (anti_symm prefix)). by eauto using hist. }
  all: destruct (prefix_snoc_inv _ _ _ Hpr) as [->|Hpr']; [by eauto using hist|by apply IH].
Qed.

(** ** Live logs *)

(** A segment's identifier is above every index in older segments. *)
Fixpoint below_ids (ids : list Z) (rss : list (list Record_)) {struct rss} : Prop :=
  match rss, ids with
  | rs :: rss, _ :: ids => Forall (λ id, Forall (λ i, i < id) (log_indices rs)) ids ∧ below_ids ids rss
  | _, _ => True
  end.

(** The directory holds exactly [rs]; the current segment is the newest. *)
Record layout (d : Disk) (cur : Z) (rs : list Record_) : Prop := {
  ly_sorted : StronglySorted Z.lt (seg_id <$> d);
  ly_synced : Forall (λ s, 0 ≤ seg_synced s ≤ zlen (seg_bytes s)) d;
  ly_ids : Forall (λ i, 1 ≤ i < 2 ^ 64) (seg_id <$> d);
  ly_holds : ∃ d0 s rss rl, d = d0 ++ [s] ∧ seg_id s = cur ∧ Forall2 holds d0 rss ∧ holds s rl ∧
    rs = mjoin rss ++ rl ∧ below_ids (seg_id <$> d) rss
}.

Lemma below_ids_prefix ids ids' rss rss' :
  ids' `prefix_of` ids → rss' `prefix_of` rss → below_ids ids rss → below_ids ids' rss'.
Proof.
  intros Hi Hr. revert ids ids' rss' Hi Hr. induction rss as [|rs rss IH]; intros ids ids' rss' Hi Hr H.
  { by apply prefix_nil_inv in Hr as ->. }
  destruct rss' as [|r' rss']; [done|]. destruct ids' as [|i' ids']; [done|].
  destruct ids as [|i ids]; [by apply prefix_nil_not in Hi|].
  apply prefix_cons_inv_1 in Hr as Hr1. apply prefix_cons_inv_2 in Hr as Hr2.
  apply prefix_cons_inv_2 in Hi as Hi2. subst. destruct H as [H1 H2]. split; [|by eapply IH].
  destruct Hi2 as [k ->]. by apply Forall_app in H1 as [H1 _].
Qed.

Lemma below_ids_snoc ids rss id rl :
  length ids = S (length rss) → below_ids ids rss → Forall (λ i, i < id) (log_indices (mjoin rss ++ rl)) →
  below_ids (ids ++ [id]) (rss ++ [rl]).
Proof.
  revert ids. induction rss as [|rs rss IH]; intros ids Hl Hb Hf.
  { destruct ids as [|x [|y ids]]; [done| |done]. split; [by repeat constructor|done]. }
  destruct ids as [|x ids]; [done|]. destruct Hb as [H1 H2]. cbn in Hl.
  change (mjoin (rs :: rss)) with (rs ++ mjoin rss) in Hf. rewrite <- app_assoc in Hf.
  unfold log_indices in Hf. rewrite omap_app in Hf. apply Forall_app in Hf as [Hf1 Hf2].
  cbn. split; [apply Forall_app_2; [done|by constructor]|]. apply IH; [lia|done|done].
Qed.

Lemma sorted_snoc_lt l (x : Z) : StronglySorted Z.lt (l ++ [x]) ↔ StronglySorted Z.lt l ∧ Forall (λ y, y < x) l.
Proof.
  induction l as [|y l IH]; cbn.
  { split; [split; constructor|intros _; repeat constructor]. }
  split.
  - inversion 1 as [|? ? Hs Hf]; subst. apply IH in Hs as [H1 H2].
    apply Forall_app in Hf as [Hf1 Hf2]. rewrite Forall_singleton in Hf2.
    split; [by constructor|by constructor].
  - intros [H1 H2]. inversion H1 as [|? ? Hs Hf]; subst. inversion H2; subst.
    constructor; [by apply IH|]. apply Forall_app_2; [done|by constructor].
Qed.

Lemma on_segment_other f id d : Forall (λ s, seg_id s ≠ id) d → on_segment f id d = d.
Proof.
  intros H. unfold on_segment. induction H as [|s d Hs Hd IH]; [done|]. cbn.
  rewrite bool_decide_false by done. f_equal. exact IH.
Qed.

Lemma on_segment_last f d s :
  StronglySorted Z.lt (seg_id <$> d ++ [s]) → on_segment f (seg_id s) (d ++ [s]) = d ++ [f s].
Proof.
  intros Hs. rewrite fmap_app in Hs. apply sorted_snoc_lt in Hs as [_ Hlt].
  unfold on_segment. rewrite fmap_app. cbn. rewrite bool_decide_true by done. f_equal.
  apply (on_segment_other f (seg_id s) d). apply Forall_fmap in Hlt.
  eapply Forall_impl; [done|]. cbn. intros; lia.
Qed.

(** Changing only the newest segment. *)
Lemma layout_last d cur rs f rs' :
  layout d cur rs → (∀ s, seg_id (f s) = seg_id s) →
  (∀ s, 0 ≤ seg_synced s ≤ zlen (seg_bytes s) → 0 ≤ seg_synced (f s) ≤ zlen (seg_bytes (f s))) →
  (∀ s rl, holds s rl → holds (f s) (rl ++ rs')) →
  layout (on_segment f cur d) cur (rs ++ rs').
Proof.
  intros [Hs Hy Hi (d0 & s & rss & rl & -> & <- & Hd & Hh & -> & Hbi)] Hid Hsy Hf.
  rewrite on_segment_last by done. apply Forall_app in Hy as [Hy1 Hy2]. rewrite Forall_singleton in Hy2.
  assert (He : seg_id <$> d0 ++ [f s] = seg_id <$> d0 ++ [s]) by (rewrite !fmap_app; cbn; by rewrite Hid).
  constructor; rewrite ?He; [done| |done|].
  - apply Forall_app_2; [done|]. constructor; [by apply Hsy|done].
  - exists d0, (f s), rss, (rl ++ rs'). rewrite app_assoc. split; [done|]. split; [apply Hid|]. split; [done|]. split; [by apply Hf|done].
Qed.

Lemma layout_append d cur rs r :
  layout d cur rs → rec_ok r → layout (AppendSegment (encode_rec r) cur d) cur (rs ++ [r]).
Proof.
  intros H Hr. unfold AppendSegment. apply layout_last; [done|done| |].
  - intros s Hsy. cbn [seg_synced seg_bytes]. rewrite zlen_app. pose proof (zlen_nonneg (encode_rec r)). lia.
  - intros s rl [H1 H2]. split; cbn [seg_bytes].
    + by rewrite H1, enc_recs_app, enc_recs_single.
    + apply Forall_app_2; [done|by constructor].
Qed.

Lemma layout_sync d cur rs : layout d cur rs → layout (SyncSegment cur d) cur rs.
Proof.
  intros H. rewrite <- (app_nil_r rs). unfold SyncSegment. apply layout_last; [done|done| |].
  - intros s _. cbn. pose proof (zlen_nonneg (seg_bytes s)). lia.
  - intros s rl Hh. by rewrite app_nil_r.
Qed.

Lemma insert_segment_end id d :
  Forall (λ s, seg_id s < id) d → insert_segment id d = d ++ [mkSegment id [] 0].
Proof.
  induction 1 as [|s d Hs Hd IH]; [done|]. cbn [insert_segment app].
  rewrite (proj2 (Z.ltb_ge _ _)) by lia. by rewrite IH.
Qed.

Lemma layout_ids d cur rs id : layout d cur rs → cur < id → Forall (λ s, seg_id s < id) d.
Proof.
  intros [Hs _ _ (d0 & s & rss & rl & -> & <- & _)] Hlt. rewrite fmap_app in Hs.
  apply sorted_snoc_lt in Hs as [_ Hf]. apply Forall_fmap in Hf. apply Forall_app_2.
  - eapply Forall_impl; [done|]. cbn. intros; lia.
  - by constructor.
Qed.

Lemma layout_rotate d cur rs id :
  layout d cur rs → cur < id < 2 ^ 64 → Forall (λ i, i < id) (log_indices rs) →
  ∃ d', CreateSegment d id = Ok d' ∧ layout (SyncSegment id d') id rs.
Proof.
  intros Hl [Hlt Hid] Hlog. pose proof (layout_ids d cur rs id Hl Hlt) as Hids.
  destruct Hl as [Hs Hy Hi (d0 & s & rss & rl & Hd & Hc & Hf & Hh & -> & Hbi)].
  assert (1 ≤ id).
  { rewrite Hd, fmap_app in Hi. apply Forall_app in Hi as [_ Hi]. cbn in Hi. rewrite Forall_singleton in Hi. lia. }
  unfold CreateSegment. rewrite bool_decide_false.
  2: { unfold ListSegmentIDs. intros (s' & -> & Hin)%list_elem_of_fmap.
       rewrite Forall_forall in Hids. specialize (Hids s' Hin). cbn in Hids. lia. }
  exists (insert_segment id d). split; [done|]. rewrite insert_segment_end by done.
  apply layout_sync. constructor.
  - rewrite fmap_app. cbn. apply sorted_snoc_lt. split; [done|]. by apply Forall_fmap.
  - apply Forall_app_2; [done|]. apply Forall_singleton. split; [done|apply zlen_nonneg].
  - rewrite fmap_app. apply Forall_app_2; [done|]. apply Forall_singleton. cbn. lia.
  - exists d, (mkSegment id [] 0), (rss ++ [rl]), []. split; [done|]. split; [done|].
    split; [rewrite Hd; by apply Forall2_app; [|constructor]|].
    split; [by split; [|constructor]|]. split; [by rewrite app_nil_r, mjoin_snoc|].
    rewrite fmap_app. apply below_ids_snoc; [|done|done].
    rewrite length_fmap, Hd, length_app. cbn. apply Forall2_length in Hf. lia.
Qed.

Record same_state (w w' : WAL) : Prop := {
  ss_meta : w_metadata w' = w_metadata w;
  ss_next : w_nextLogIndex w' = w_nextLogIndex w;
  ss_first : w_firstLogIndex w' = w_firstLogIndex w;
  ss_hs : w_latestHardState w' = w_latestHardState w;
  ss_closed : w_closed w' = w_closed w
}.

(** Every byte of the directory is covered by a sync. *)
Definition all_synced (d : Disk) : Prop := Forall (λ s, seg_synced s = zlen (seg_bytes s)) d.

Lemma all_synced_sync id d : all_synced d → all_synced (SyncSegment id d).
Proof.
  intros H. unfold SyncSegment, on_segment. apply Forall_fmap.
  eapply Forall_impl; [exact H|]. cbn. intros s Hs. by case_bool_decide.
Qed.

Lemma all_synced_insert id d : all_synced d → all_synced (insert_segment id d).
Proof.
  induction 1 as [|s d Hs Hd IH]; cbn; [by repeat constructor|].
  case_if; [by repeat constructor|by constructor].
Qed.

Lemma rotate_layout w sz rs :
  layout (w_disk w) (w_current w) rs → is_u64 (w_nextLogIndex w) →
  Forall (λ i, 0 < i < w_nextLogIndex w) (log_indices rs) →
  ∃ w1, maybeRotateLocked w sz = Ok w1 ∧ same_state w w1 ∧ layout (w_disk w1) (w_current w1) rs ∧
    (all_synced (w_disk w) → all_synced (w_disk w1)).
Proof.
  intros Hl Hn Hlog. unfold maybeRotateLocked. case_if; [by eexists|].
  destruct (Z.leb_spec (w_nextLogIndex w) (w_current w)); [by eexists|].
  destruct (layout_rotate _ _ _ (w_nextLogIndex w) Hl) as (d' & Hc & Hl').
  { unfold is_u64 in Hn. lia. }
  { eapply Forall_impl; [done|]. cbn. intros; lia. }
  rewrite Hc. eexists. split; [reflexivity|]. split; [by constructor|]. split; [done|].
  unfold CreateSegment in Hc. case_bool_decide; [done|]. injection Hc as <-.
  intros H'. by apply all_synced_sync, all_synced_insert.
Qed.

Lemma appendLocked_layout w rt payload rs :
  layout (w_disk w) (w_current w) rs → payload_ok payload → is_u64 (w_nextLogIndex w) →
  Forall (λ i, 0 < i < w_nextLogIndex w) (log_indices rs) →
  ∃ w', appendLocked w rt payload = Ok w' ∧ same_state w w' ∧
    layout (w_disk w') (w_current w')
      (rs ++ [mkRecord rt (if bool_decide (rt = RecordTypeLogEntry) then w_nextLogIndex w else 0) payload]).
Proof.
  intros Hl [Hw Hp] Hn Hlog. unfold appendLocked. rewrite (proj2 (Z.ltb_ge _ _)) by done. cbv zeta.
  set (idx := if bool_decide (rt = RecordTypeLogEntry) then w_nextLogIndex w else 0).
  destruct (rotate_layout w (zlen (encodeRecord rt idx payload)) rs Hl Hn Hlog) as (w1 & -> & Hs & Hl1 & _).
  cbn [mbind result_bind]. eexists. split; [reflexivity|].
  split; [by destruct Hs; constructor|]. cbn [w_disk w_current modify set_w_disk].
  change (encodeRecord rt idx payload) with (encode_rec (mkRecord rt idx payload)).
  apply (layout_append (w_disk w1) (w_current w1)); [done|]. split; [split|done]; cbn; [|done].
  unfold idx. case_bool_decide; [done|unfold is_u64; lia].
Qed.

(** ** The invariant of a live log *)

Record wal_inv (w : WAL) (base rs : list Record_) : Prop := {
  wi_open : w_closed w = false;
  wi_hist : hist base rs (w_metadata w) (w_nextLogIndex w) (w_latestHardState w);
  wi_first : w_firstLogIndex w = md_LatestSnapshotIndex (w_metadata w) + 1;
  wi_layout : layout (w_disk w) (w_current w) rs
}.

(** The operations of the log, as its clients call them.  [OpInstall] is the
    pair of calls that adopts a snapshot past the end of the log. *)
Inductive wal_op :=
| OpLog (payload : bytes)
| OpHardState (payload : bytes)
| OpSync
| OpSnapshot (upto : Z)
| OpGeneration (g : Z)
| OpInstall (upto : Z).

Definition wal_do (w : WAL) (op : wal_op) : result wal_error WAL :=
  match op with
  | OpLog p => '(w, _) ← AppendLogEntry w p; Ok w
  | OpHardState p => AppendHardState w p
  | OpSync => Sync w
  | OpSnapshot upto => AppendMetadataSnapshot w upto
  | OpGeneration g => SetClusterGeneration w g
  | OpInstall upto => w ← AppendMetadataSnapshot w upto; Truncate w (upto + 1)%u64
  end.

Definition op_ok (w : WAL) (op : wal_op) : Prop :=
  match op with
  | OpLog p => payload_ok p ∧ w_nextLogIndex w + 1 < 2 ^ 64
  | OpHardState p => payload_ok p
  | OpSync => True
  | OpSnapshot upto => md_LatestSnapshotIndex (w_metadata w) ≤ upto < w_nextLogIndex w
  | OpGeneration g => 0 ≤ g ≤ MaxSupportedGeneration
  | OpInstall upto => w_nextLogIndex w ≤ upto + 1 ∧ upto + 1 < 2 ^ 64
  end.

(** The records an operation adds to the history. *)
Definition op_records (w : WAL) (op : wal_op) : list Record_ :=
  match op with
  | OpLog p => [log_rec (w_nextLogIndex w) p]
  | OpHardState p => [hs_rec p]
  | OpSync => []
  | OpSnapshot upto | OpInstall upto => [meta_rec ((w_metadata w) <| md_LatestSnapshotIndex := upto |>)]
  | OpGeneration g =>
      if g <=? md_ClusterGeneration (w_metadata w) then []
      else [meta_rec ((w_metadata w) <| md_ClusterGeneration := g |>)]
  end.

Lemma hist_next_u64 base rs m n hs : hist base rs m n hs → is_u64 n ∧ 1 ≤ n.
Proof. intros [? ? ? ? ? ? ?]%hist_has_facts. unfold is_u64. lia. Qed.

Lemma meta_payload_ok m : meta_good m → payload_ok (encodeMetadata m).
Proof. intros H. destruct (meta_rec_ok m H) as [[_ H1] H2]. by split. Qed.

Lemma meta_good_snapshot m i : meta_good m → is_u64 i → meta_good (m <| md_LatestSnapshotIndex := i |>).
Proof. intros ((H1 & H2 & H3 & H4 & H5) & H6 & H7) Hi. by repeat (split; [done|]). Qed.

Lemma meta_good_generation m g :
  meta_good m → 0 ≤ g ≤ MaxSupportedGeneration → meta_good (m <| md_ClusterGeneration := g |>).
Proof.
  intros ((H1 & H2 & H3 & H4 & H5) & H6 & H7) Hg. split; [|split; [done|apply Hg]].
  do 4 (split; [done|]). cbn. unfold is_u32, MaxSupportedGeneration in *. lia.
Qed.

(** Appending a metadata record with a new pointer or generation. *)
Lemma append_meta_inv w base rs m' :
  wal_inv w base rs → meta_good m' →
  md_LatestSnapshotIndex (w_metadata w) ≤ md_LatestSnapshotIndex m' →
  md_LatestSnapshotIndex m' + 1 < 2 ^ 64 →
  ∃ w', appendLocked w RecordTypeMetadata (encodeMetadata m') = Ok w' ∧ same_state w w' ∧
    layout (w_disk (sync_current w')) (w_current w') (rs ++ [meta_rec m']) ∧
    hist base (rs ++ [meta_rec m']) m' (Z.max (w_nextLogIndex w) (md_LatestSnapshotIndex m' + 1))
      (w_latestHardState w).
Proof.
  intros [Ho Hh Hf Hl] Hm Hle Hb. destruct (hist_next_u64 _ _ _ _ _ Hh) as [Hu _].
  destruct (appendLocked_layout w RecordTypeMetadata (encodeMetadata m') rs Hl) as (w' & -> & Hs & Hl');
    [by apply meta_payload_ok|done|by eapply hist_has_facts|].
  exists w'. split; [done|]. split; [done|]. split; [by apply layout_sync|by apply (hist_meta base rs (w_metadata w))].
Qed.

Lemma wal_do_inv w base rs op :
  wal_inv w base rs → op_ok w op → ∃ w', wal_do w op = Ok w' ∧ wal_inv w' base (rs ++ op_records w op).
Proof.
  intros Hinv Hop. pose proof Hinv as [Ho Hh Hf Hl].
  destruct (hist_next_u64 _ _ _ _ _ Hh) as [Hu H1].
  pose proof (hist_has_facts _ _ _ _ _ Hh) as [_ Hmg Hn Hs0 Hlog _ _].
  destruct op as [p|p| |upto|g|upto]; cbn [wal_do op_ok op_records] in *.
  - destruct Hop as [Hp Hb]. unfold AppendLogEntry. rewrite Ho. cbv zeta.
    destruct (appendLocked_layout w RecordTypeLogEntry p rs Hl Hp Hu Hlog) as (w' & -> & [] & Hl').
    cbn [mbind result_bind]. eexists. split; [reflexivity|].
    rewrite bool_decide_true in Hl' by done. constructor; cbn; [congruence| |congruence|exact Hl'].
    rewrite u64_small by (unfold is_u64; lia). rewrite ss_meta0, ss_hs0. by apply hist_log.
  - unfold AppendHardState. rewrite Ho.
    destruct (appendLocked_layout w RecordTypeHardState p rs Hl Hop Hu Hlog) as (w' & -> & [] & Hl').
    cbn [mbind result_bind]. eexists. split; [reflexivity|].
    rewrite bool_decide_false in Hl' by done. constructor; cbn; [congruence| |congruence|exact Hl'].
    rewrite ss_meta0, ss_next0. by eapply hist_hs.
  - unfold Sync. rewrite Ho. exists (sync_current w). split; [done|]. rewrite app_nil_r.
    constructor; [done|done|done|by apply layout_sync].
  - unfold AppendMetadataSnapshot. rewrite Ho, (proj2 (Z.ltb_ge _ _)) by lia. cbv zeta.
    set (m' := (w_metadata w) <| md_LatestSnapshotIndex := upto |>).
    assert (Hm' : meta_good m') by (apply meta_good_snapshot; [done|unfold is_u64 in *; lia]).
    destruct (append_meta_inv w base rs m' Hinv Hm') as (w' & -> & [] & Hl' & Hh'); [cbn; lia|cbn; lia|].
    cbn [mbind result_bind]. eexists. split; [reflexivity|].
    constructor; cbn [w_closed w_metadata w_nextLogIndex w_latestHardState w_firstLogIndex]; cbn; [congruence| |
      rewrite u64_small by (unfold is_u64; lia); done|exact Hl'].
    rewrite ss_next0, ss_hs0. rewrite Z.max_l in Hh' by (cbn; lia). exact Hh'.
  - unfold SetClusterGeneration. rewrite Ho.
    destruct (Z.leb_spec g (md_ClusterGeneration (w_metadata w))) as [|Hg].
    { exists w. by rewrite app_nil_r. }
    rewrite (proj2 (Z.ltb_ge _ _)) by lia. cbv zeta.
    set (m' := (w_metadata w) <| md_ClusterGeneration := g |>).
    assert (Hm' : meta_good m') by (by apply meta_good_generation).
    destruct (append_meta_inv w base rs m' Hinv Hm') as (w' & -> & [] & Hl' & Hh'); [cbn; lia|cbn; lia|].
    cbn [mbind result_bind]. eexists. split; [reflexivity|].
    constructor; cbn; [congruence| |congruence|exact Hl'].
    rewrite ss_next0, ss_hs0. rewrite Z.max_l in Hh' by (cbn; lia). exact Hh'.
  - destruct Hop as [Hup Hb]. unfold AppendMetadataSnapshot. rewrite Ho, (proj2 (Z.ltb_ge _ _)) by lia. cbv zeta.
    set (m' := (w_metadata w) <| md_LatestSnapshotIndex := upto |>).
    assert (Hm' : meta_good m') by (apply meta_good_snapshot; [done|unfold is_u64 in *; lia]).
    destruct (append_meta_inv w base rs m' Hinv Hm') as (w' & -> & [] & Hl' & Hh'); [cbn; lia|cbn; lia|].
    rewrite !bind_Ok. rewrite u64_small by (unfold is_u64; lia).
    unfold Truncate. cbn [w_closed w_nextLogIndex sync_current modify set_w_disk set_w_metadata set_w_firstLogIndex].
    match goal with |- context [w_closed ?x] => change (w_closed x) with (w_closed w');
      change (w_nextLogIndex x) with (w_nextLogIndex w') end.
    rewrite ss_closed0, Ho, ss_next0, (proj2 (Z.ltb_ge _ _)), (proj2 (Z.leb_le _ _)) by lia.
    eexists. split; [reflexivity|]. rewrite Z.max_r in Hh' by (cbn; lia).
    destruct (Z.ltb_spec (w_nextLogIndex w) (upto + 1)).
    + constructor; cbn; [congruence| |done|exact Hl']. rewrite ss_hs0. exact Hh'.
    + constructor; cbn; [congruence| |done|exact Hl']. rewrite ss_next0, ss_hs0.
      replace (w_nextLogIndex w) with (upto + 1) by lia. exact Hh'.
Qed.

(** ** Crash recovery *)

(** Cutting the bytes of complete records leaves complete records and a torn
    one; records that end before the cut are kept. *)
Lemma enc_take_split rs n :
  Forall rec_ok rs →
  ∃ rs1 rs2 t, rs = rs1 ++ rs2 ∧ take n (enc_recs rs) = enc_recs rs1 ++ t ∧ torn t ∧
    (∀ a b, rs = a ++ b → (length (enc_recs a) ≤ n)%nat → a `prefix_of` rs1).
Proof.
  intros Hok. revert n. induction Hok as [|r rs Hr Hrs IH]; intros n.
  { exists [], [], []. change (enc_recs []) with (@nil Z). rewrite take_nil. split; [done|]. split; [done|]. split; [apply torn_nil|].
    intros a b Hab _. symmetry in Hab. apply app_eq_nil in Hab as [-> _]. done. }
  rewrite enc_recs_cons. destruct (decide (n < length (encode_rec r))%nat) as [Hlt|Hge].
  - exists [], (r :: rs), (take n (encode_rec r)). split; [done|]. split; [by rewrite take_app_le by lia|].
    split; [by exists r, n|]. intros [|x a] b Hab Hl; [done|]. injection Hab as <- Hab.
    rewrite enc_recs_cons, length_app in Hl. lia.
  - destruct (IH (n - length (encode_rec r))%nat) as (rs1 & rs2 & t & -> & Ht & Htorn & Hp).
    exists (r :: rs1), rs2, t. split; [done|]. split.
    { rewrite take_app_ge by lia. rewrite Ht, enc_recs_cons, app_assoc. done. }
    split; [done|]. intros [|x a] b Hab Hl; [apply prefix_nil|]. injection Hab as <- Hab.
    apply prefix_cons, (Hp a b Hab). rewrite enc_recs_cons, length_app in Hl. lia.
Qed.

(** [durable d rs0 rs]: of the records [rs] on disk, a prefix [rs0] is
    covered by syncs, the closed segments entirely. *)
Definition durable (d : Disk) (rs0 rs : list Record_) : Prop :=
  ∃ d0 s rss rl1 rl2, d = d0 ++ [s] ∧ Forall2 holds d0 rss ∧
    Forall (λ s, seg_synced s = zlen (seg_bytes s)) d0 ∧ holds s (rl1 ++ rl2) ∧
    zlen (enc_recs rl1) ≤ seg_synced s ∧ rs0 = mjoin rss ++ rl1 ∧ rs = rs0 ++ rl2.

Lemma crash_synced d d' :
  Forall (λ s, seg_synced s = zlen (seg_bytes s)) d → crash d d' → d' = d.
Proof.
  intros H Hc. induction Hc as [|s s' d d' (Hid & n & Hn & Hb & Hs) Hc IH]; [done|].
  apply Forall_cons in H as [H1 H2]. rewrite IH by done. f_equal.
  destruct s as [i b y], s' as [i' b' y']. cbn in *. subst.
  assert (n = zlen b) as -> by lia. by rewrite to_nat_zlen, take_ge.
Qed.

(** The state [Open] computes from a directory that holds a history. *)
Lemma open_facts d0 s rss rs t m n hs nid maxsz :
  Forall2 holds d0 rss → seg_bytes s = enc_recs rs ++ t → Forall rec_ok rs → torn t →
  hist_facts (mjoin rss ++ rs) m n hs →
  ∃ sz, Open (d0 ++ [s]) nid maxsz =
    Ok (mkWAL (d0 ++ [if decide (t = []) then s
                      else mkSegment (seg_id s) (enc_recs rs) (zlen (enc_recs rs))])
          sz (seg_id s) m n (md_LatestSnapshotIndex m + 1) hs false).
Proof.
  intros Hd Hs Hrs Ht Hh. pose proof (facts_open _ _ _ _ Hh) as Ho.
  pose proof Hh as [_ _ Hn H0 _ _ _].
  pose proof (scan_segments_records d0 rss s rs t (mkScan None [] []) Hd Hs Hrs Ht) as Hscan.
  unfold Open. destruct (d0 ++ [s]) as [|x l] eqn:E; [by destruct d0|]. rewrite Hscan.
  destruct (scan_records _ _) as [st|]; [|done]. rewrite !bind_Ok in *.
  destruct (open_checks st) as [[meta last]|]; [|done]. rewrite bind_Ok in *. injection Ho as -> -> ->.
  eexists. do 2 f_equal.
  - unfold last_id. rewrite last_snoc. by destruct (decide (t = [])).
  - rewrite u64_small; [lia|unfold is_u64; lia].
  - apply u64_small. unfold is_u64. lia.
Qed.

Lemma holds_ok s rs : holds s rs → Forall rec_ok rs.
Proof. by intros [_ H]. Qed.

(** The bytes of a segment determine its records. *)
Lemma enc_recs_inj a b : Forall rec_ok a → Forall rec_ok b → enc_recs a = enc_recs b → a = b.
Proof.
  intros Ha. revert b. induction Ha as [|x a Hx Ha IH]; intros b Hb He.
  - destruct Hb as [|y b Hy Hb]; [done|]. apply (f_equal length) in He. rewrite enc_recs_cons, length_app in He.
    pose proof (encode_rec_len y). cbn in He. lia.
  - destruct Hb as [|y b Hy Hb].
    { apply (f_equal length) in He. rewrite enc_recs_cons, length_app in He.
      pose proof (encode_rec_len x). cbn in He. lia. }
    rewrite !enc_recs_cons in He.
    pose proof (decode_encode_frame x (enc_recs a) (proj1 Hx)) as H1.
    pose proof (decode_encode_frame y (enc_recs b) (proj1 Hy)) as H2.
    rewrite He, H2 in H1. injection H1 as -> _. apply app_inv_head in He. f_equal. by apply IH.
Qed.

Lemma holds_det d rss rss' : Forall2 holds d rss → Forall2 holds d rss' → rss = rss'.
Proof.
  intros H. revert rss'. induction H as [|s rs d rss [H1 H2] H IH]; intros rss' H'.
  { by apply Forall2_nil_inv_l in H'. }
  apply Forall2_cons_inv_l in H' as (rs' & rss2 & [H3 H4] & H5 & ->).
  f_equal; [|by apply IH]. apply enc_recs_inj; [done|done|congruence].
Qed.

Lemma crash_recovery w base rs rs0 d' nid maxsz :
  wal_inv w base rs → durable (w_disk w) rs0 rs → base `prefix_of` rs0 → crash (w_disk w) d' →
  ∃ w' rs', Open d' nid maxsz = Ok w' ∧ wal_inv w' base rs' ∧ durable (w_disk w') rs' rs' ∧
    rs0 `prefix_of` rs' ∧ rs' `prefix_of` rs ∧ w_current w' = w_current w.
Proof.
  intros [Ho Hh Hf [Hsort Hsy Hids Hlay]] (d0 & s & rss & rl1 & rl2 & Hd & Hhold & Hfull & [Hb Hok] & Hdur & -> & ->) Hne Hc.
  rewrite Hd in *. unfold crash in Hc. apply Forall2_app_inv_l in Hc as (d0' & ds' & Hc0 & Hcs & ->).
  apply crash_synced in Hc0 as ->; [|done].
  apply Forall2_cons_inv_l in Hcs as (s' & ? & (Hid & n & Hn & Hb' & Hs') & Hnil & ->).
  apply Forall2_nil_inv_l in Hnil as ->.
  destruct (enc_take_split (rl1 ++ rl2) (Z.to_nat n) Hok) as (rs1 & rs2 & t & Hsplit & Htake & Htorn & Hpre).
  assert (Hp1 : rl1 `prefix_of` rs1). { apply (Hpre rl1 rl2 eq_refl). unfold zlen in *. lia. }
  assert (Hok1 : Forall rec_ok rs1). { rewrite Hsplit in Hok. by apply Forall_app in Hok as [? _]. }
  rewrite Hb, Htake in Hb'.
  destruct (hist_prefix _ _ (mjoin rss ++ rs1) _ _ _ Hh) as (m' & n' & hs' & Hh').
  { etrans; [exact Hne|]. by apply prefix_app. }
  { rewrite <- app_assoc, Hsplit. apply prefix_app. by apply prefix_app_r. }
  destruct (open_facts d0 s' rss rs1 t m' n' hs' nid maxsz Hhold Hb' Hok1 Htorn (hist_has_facts _ _ _ _ _ Hh')) as (sz & HO).
  set (s2 := if decide (t = []) then s' else mkSegment (seg_id s') (enc_recs rs1) (zlen (enc_recs rs1))) in *.
  assert (Hs2 : seg_id s2 = seg_id s ∧ seg_bytes s2 = enc_recs rs1 ∧ seg_synced s2 = zlen (seg_bytes s2)).
  { unfold s2. destruct (decide (t = [])) as [->|].
    - rewrite app_nil_r in Hb'. split; [done|]. split; [done|]. rewrite Hs', Hb', <- (app_nil_r (enc_recs rs1)), <- Htake.
      symmetry. rewrite <- Hb. apply zlen_take_le. apply Forall_app in Hsy as [_ Hsy].
      rewrite Forall_singleton in Hsy. lia.
    - by rewrite Hid. }
  destruct Hs2 as (Hi2 & Hb2 & Hsy2). clearbody s2.
  do 2 eexists. split; [exact HO|]. cbn [w_disk w_current]. rewrite Hid.
  destruct Hlay as (d1 & s1 & rss1 & rl & Hd1 & Hcur & Hh1 & _ & _ & Hbi).
  apply app_inj_2 in Hd1 as [-> Hs1]; [|done]. injection Hs1 as <-.
  rewrite <- (holds_det _ _ _ Hhold Hh1) in Hbi. clear Hh1.
  assert (He : seg_id <$> d1 ++ [s2] = seg_id <$> d1 ++ [s]) by (rewrite !fmap_app; cbn; by rewrite Hi2).
  split; [constructor; [done|exact Hh'|done|]|split; [|split; [|split; [|done]]]].
  - cbn [w_disk w_current]. constructor; rewrite ?He; [done| |done|].
    + apply Forall_app in Hsy as [Hsy _]. apply Forall_app_2; [done|]. apply Forall_singleton.
      rewrite Hsy2. pose proof (zlen_nonneg (seg_bytes s2)). lia.
    + exists d1, s2, rss, rs1. by repeat (split; [done|]).
  - exists d1, s2, rss, rs1, []. rewrite app_nil_r. split; [done|]. split; [done|]. split; [done|].
    split; [done|]. split; [rewrite Hsy2, Hb2; lia|]. by rewrite app_nil_r.
  - by apply prefix_app.
  - rewrite <- app_assoc, Hsplit. apply prefix_app. by apply prefix_app_r.
Qed.

(** ** Truncation *)

Definition is_log (i : Z) (r : Record_) : bool :=
  bool_decide (r_Type r = RecordTypeLogEntry) && (r_Index r =? i).

Lemma locate_segment_spec fuel pre rs i :
  Forall rec_ok pre → Forall rec_ok rs → (length rs < fuel)%nat →
  (∀ a r b, rs = a ++ r :: b → is_log i r = true → Forall (λ r, is_log i r = false) a →
     locate_in_segment fuel (enc_recs pre ++ enc_recs rs) (zlen (enc_recs pre)) i =
       Ok (Some (zlen (enc_recs (pre ++ a))))) ∧
  (Forall (λ r, is_log i r = false) rs →
     locate_in_segment fuel (enc_recs pre ++ enc_recs rs) (zlen (enc_recs pre)) i = Ok None).
Proof.
  intros Hpre Hrs. revert pre fuel Hpre.
  induction Hrs as [|x rs Hx Hrs IH]; intros pre fuel Hpre Hf; (destruct fuel as [|fuel]; [cbn in Hf; lia|]).
  - split; [intros a r b Hab; by destruct a|]. intros _. cbn [locate_in_segment].
    change (enc_recs []) with (@nil Z). rewrite readFrame_end by (by apply enc_recs_wf || apply torn_nil).
    done.
  - cbn [locate_in_segment]. rewrite enc_recs_cons.
    rewrite readFrame_record by (done || by apply enc_recs_wf). fold (is_log i x).
    specialize (IH (pre ++ [x]) fuel). rewrite enc_recs_app, enc_recs_single, zlen_app, <- app_assoc in IH.
    destruct IH as [IH1 IH2]; [apply Forall_app_2; [done|by constructor]|cbn in Hf; lia|].
    split.
    + intros [|y a] r b Hab Hr Ha.
      * injection Hab as <- <-. rewrite Hr. by rewrite app_nil_r.
      * injection Hab as <- Hab. apply Forall_cons in Ha as [Hy Ha]. rewrite Hy.
        rewrite (IH1 a r b Hab Hr Ha). by rewrite <- app_assoc.
    + intros Hall. apply Forall_cons in Hall as [Hy Ha]. rewrite Hy. by apply IH2.
Qed.

Lemma locate_whole rs i :
  Forall rec_ok rs →
  (∀ a r b, rs = a ++ r :: b → is_log i r = true → Forall (λ r, is_log i r = false) a →
     locate_in_segment (length (enc_recs rs)) (enc_recs rs) 0 i = Ok (Some (zlen (enc_recs a)))) ∧
  (Forall (λ r, is_log i r = false) rs →
     locate_in_segment (length (enc_recs rs)) (enc_recs rs) 0 i = Ok None).
Proof.
  intros Hrs. destruct rs as [|x rs].
  { split; [intros a r b Hab; by destruct a|done]. }
  pose proof (enc_recs_length (x :: rs)).
  destruct (locate_segment_spec (length (enc_recs (x :: rs))) [] (x :: rs) i) as [H1 H2];
    [constructor|done|cbn [length] in *; lia|]. split; [|done].
  intros a r b. apply H1.
Qed.

(** The located record splits the directory. *)
Lemma locate_disk d rss i :
  Forall2 holds d rss →
  ∀ pre r post, mjoin rss = pre ++ r :: post → is_log i r = true →
    Forall (λ r, is_log i r = false) pre →
  ∃ d1 s d2 rss1 a, d = d1 ++ s :: d2 ∧ (Forall2 holds d1 rss1 ∧ ∃ ra rss2, rss = rss1 ++ ra :: rss2) ∧
    pre = mjoin rss1 ++ a ∧
    locateLogIndex d i = Ok (Some (seg_id s, zlen (enc_recs a))) ∧
    Forall rec_ok a ∧ ∃ rest, seg_bytes s = enc_recs a ++ rest.
Proof.
  induction 1 as [|s rs d rss [Hb Hok] Hd IH]; intros pre r post Hj Hr Hpre.
  { by destruct pre. }
  change (mjoin (rs :: rss)) with (rs ++ mjoin rss) in Hj. cbn [locateLogIndex]. rewrite Hb.
  destruct (locate_whole rs i Hok) as [L1 L2].
  apply app_eq_inv in Hj as [(k & -> & Hk)|(k & -> & Hk)].
  - destruct k as [|y k].
    + rewrite app_nil_r in *. cbn in Hk. rewrite L2 by done. rewrite bind_Ok.
      destruct (IH [] r post) as (d1 & s' & d2 & rss1 & a & -> & (H1 & ra & rss2 & ->) & H2 & H3 & H4 & H5); [done|done|done|].
      exists (s :: d1), s', d2, (pre :: rss1), a. split; [done|]. split; [split; [by constructor|by exists ra, rss2]|].
      symmetry in H2. apply app_eq_nil in H2 as [Hn ->].
      split; [change (mjoin (pre :: rss1)) with (pre ++ mjoin rss1); by rewrite Hn, !app_nil_r|]. done.
    + injection Hk as <- Hk. rewrite (L1 pre r k eq_refl Hr Hpre), bind_Ok.
      exists [], s, d, [], pre. split; [done|]. split; [split; [constructor|by do 2 eexists]|]. split; [done|]. split; [done|].
      apply Forall_app in Hok as [Hok _]. split; [done|]. rewrite Hb, enc_recs_app. by eexists.
  - apply Forall_app in Hpre as [Hp1 Hp2]. rewrite L2 by done. rewrite bind_Ok.
    destruct (IH k r post) as (d1 & s' & d2 & rss1 & a & -> & (H1 & ra & rss2 & ->) & -> & H3 & H4 & H5); [done|done|done|].
    exists (s :: d1), s', d2, (rs :: rss1), a. split; [done|]. split; [split; [by constructor|by exists ra, rss2]|].
    split; [change (mjoin (rs :: rss1)) with (rs ++ mjoin rss1); by rewrite app_assoc|]. done.
Qed.

Lemma foldl_remove t l (d : Disk) :
  foldl (λ d id, if id <=? t then d else RemoveSegment d id) d l =
  filter (λ s, seg_id s ∉ l ∨ seg_id s ≤ t) d.
Proof.
  revert d. induction l as [|x l IH]; intros d; cbn [foldl].
  { symmetry. apply filter_all, Forall_forall. intros s _. left. apply not_elem_of_nil. }
  rewrite IH. destruct (Z.leb_spec x t).
  - apply list_filter_iff. intros s. rewrite not_elem_of_cons. split; [|naive_solver lia].
    intros [Hs|]; [|by right]. destruct (decide (seg_id s = x)) as [->|]; [by right|by left].
  - unfold RemoveSegment. rewrite list_filter_filter. apply list_filter_iff. intros s.
    rewrite not_elem_of_cons. split; [naive_solver lia|].
    intros [[H1 H2]|H1]; [by split; [left|]|split; [by right|lia]].
Qed.

Lemma remove_newer_sorted d1 s d2 :
  StronglySorted Z.lt (seg_id <$> d1 ++ s :: d2) →
  remove_newer (d1 ++ s :: d2) (seg_id s) = d1 ++ [s].
Proof.
  intros Hs. unfold remove_newer. rewrite foldl_remove, filter_app, filter_cons_True by (right; lia).
  rewrite fmap_app in Hs. apply StronglySorted_app in Hs as (Hs2 & Hs1 & Hs3).
  rewrite filter_all, filter_none; [done| |].
  - cbn in Hs3. inversion Hs3 as [|? ? _ Hf]; subst. rewrite Forall_forall in Hf.
    apply Forall_forall. intros x Hx [Hin|Hle].
    + apply Hin. unfold ListSegmentIDs. rewrite elem_of_reverse. apply list_elem_of_fmap_2.
      apply elem_of_app. right. by right.
    + specialize (Hf (seg_id x) (list_elem_of_fmap_2 seg_id _ _ Hx)). lia.
  - apply Forall_forall. intros x Hx. right.
    specialize (Hs2 (seg_id x) (seg_id s)). apply Z.lt_le_incl, Hs2.
    + by apply list_elem_of_fmap_2.
    + cbn. left.
Qed.

Lemma is_log_rec i p : is_log i (log_rec i p) = true.
Proof. unfold is_log. cbn. by rewrite Z.eqb_refl. Qed.

(** The first record of an index. *)
Lemma split_at_log rs i :
  i ∈ log_indices rs → ∃ pre p post, rs = pre ++ log_rec i p :: post ∧ Forall (λ r, is_log i r = false) pre.
Proof.
  intros Hin. induction rs as [|r rs IH]; [by apply elem_of_nil in Hin|].
  destruct (is_log i r) eqn:E.
  - exists [], (r_Payload r), rs. split; [|constructor]. unfold is_log in E. bool_to_prop.
    destruct r as [t j p]. cbn in *. by subst.
  - destruct IH as (pre & p & post & -> & Hpre).
    { unfold log_indices in Hin |- *. cbn in Hin. unfold is_log in E.
      destruct (bool_decide (r_Type r = RecordTypeLogEntry)); [|done].
      cbn in E. bool_to_prop. apply elem_of_cons in Hin as [->|Hin]; done. }
    exists (r :: pre), p, post. split; [done|by constructor].
Qed.

Lemma hist_split_at base rs m n hs i :
  hist base rs m n hs → md_LatestSnapshotIndex m < i < n →
  ∃ pre p post, rs = pre ++ log_rec i p :: post ∧ Forall (λ r, is_log i r = false) pre.
Proof.
  intros Hh Hi. pose proof (hist_has_facts _ _ _ _ _ Hh) as [_ _ _ _ _ Hlive _]. apply split_at_log.
  assert (Hs : i ∈ filter (λ j, md_LatestSnapshotIndex m < j) (log_indices rs))
    by (rewrite Hlive; apply elem_of_seqZ; lia).
  by apply list_elem_of_filter in Hs as [_ ?].
Qed.

(** A base without the record lies before it. *)
Lemma split_after_base base pre r post i :
  base `prefix_of` pre ++ r :: post → is_log i r = true → Forall (λ r, is_log i r = false) base →
  base `prefix_of` pre.
Proof.
  intros [k Hk] Hr Hb. apply app_eq_inv in Hk as [(l & -> & _)|(l & -> & Hl)]; [by eexists|].
  destruct l as [|y l]; [by rewrite app_nil_r|]. injection Hl as <- _.
  apply Forall_app in Hb as [_ Hb]. apply Forall_cons in Hb as [Hb _]. congruence.
Qed.

(** The history before a log record has that record's index as the next. *)
Lemma hist_before_log base pre i p post m n hs :
  hist base (pre ++ log_rec i p :: post) m n hs → base `prefix_of` pre → ∃ m' hs', hist base pre m' i hs'.
Proof.
  intros Hh Hb.
  destruct (hist_prefix _ _ (pre ++ [log_rec i p]) _ _ _ Hh) as (m' & n' & hs' & Hp).
  { by apply prefix_app_r. }
  { apply prefix_app, (prefix_cons _ [] post), prefix_nil. }
  inversion Hp as [m0 n0 hs0 Hf He|rs0 m0 n0 hs0 p0 Hh0 _ _ He|rs0 m0 n0 hs0 p0 Hh0 _ He|rs0 m0 n0 hs0 m1 Hh0 _ _ _ He].
  - apply prefix_length in Hb. apply (f_equal length) in He. rewrite length_app in He. cbn in He. lia.
  - apply app_inj_2 in He as [-> He]; [|done]. injection He as -> ->. eauto.
  - apply app_inj_2 in He as [_ He]; [|done]. done.
  - apply app_inj_2 in He as [_ He]; [|done]. done.
Qed.

(** Records that only extend the log. *)
Definition log_only (rs : list Record_) : Prop := Forall (λ r, r_Type r = RecordTypeLogEntry) rs.

Lemma facts_log_suffix pre post m n hs m' n' hs' :
  hist_facts (pre ++ post) m n hs → hist_facts pre m' n' hs' → log_only post → m = m' ∧ hs = hs'.
Proof.
  intros Hh Hp Hl. pose proof (hf_scan _ _ _ _ Hh) as H1. pose proof (hf_scan _ _ _ _ Hp) as H2.
  rewrite scan_records_app, H2, bind_Ok in H1.
  assert (Hs : ∀ st st', scan_records st post = Ok st' →
    sc_meta st' = sc_meta st ∧ sc_hardState st' = sc_hardState st).
  { clear - Hl. induction Hl as [|r rs Hr Hl IH]; intros st st' H; cbn in H.
    - by injection H as <-.
    - unfold scan_record in H. rewrite Hr in H. cbn in H. by apply IH in H. }
  apply Hs in H1 as [H3 H4]. cbn in *. split; congruence.
Qed.

(** The hard state that a scan reports is one of the records. *)
Lemma scan_hs_source rs st st' :
  Forall rec_ok rs → scan_records st rs = Ok st' →
  sc_hardState st' = sc_hardState st ∨ ∃ r, r ∈ rs ∧ r_Type r = RecordTypeHardState ∧ r_Payload r = sc_hardState st'.
Proof.
  intros Hok. revert st. induction Hok as [|r rs Hr Hok IH]; intros st H; cbn in H.
  { injection H as <-. by left. }
  destruct (scan_record st r) as [st1|] eqn:E; [|done]. cbn in H.
  apply IH in H as [H|(x & Hx & H1 & H2)]; [|right; exists x; split; [by right|done]].
  unfold scan_record in E. destruct (r_Type r) eqn:T.
  - injection E as <-. by left.
  - injection E as <-. right. exists r. split; [by left|]. by split.
  - destruct (decodeMetadata _); [|done]. injection E as <-. by left.
Qed.

(** What [Truncate] leaves of the directory and of the live state. *)
Record truncated (w : WAL) (i : Z) (pre : list Record_) (w' : WAL) : Prop := {
  tr_layout : layout (w_disk w') (w_current w') pre;
  tr_next : w_nextLogIndex w' = i;
  tr_same : w_metadata w' = w_metadata w ∧ w_firstLogIndex w' = w_firstLogIndex w ∧
    w_latestHardState w' = w_latestHardState w ∧ w_closed w' = w_closed w;
  tr_synced : all_synced (w_disk w) → all_synced (w_disk w')
}.

Lemma truncate_layout w rs i pre p post :
  w_closed w = false → layout (w_disk w) (w_current w) rs → 1 ≤ i → i < w_nextLogIndex w →
  rs = pre ++ log_rec i p :: post → Forall (λ r, is_log i r = false) pre →
  ∃ w', Truncate w i = Ok w' ∧ truncated w i pre w'.
Proof.
  intros Ho [Hsort Hsy Hids (d0 & s & rss & rl & Hd & Hcur & Hhold & Hs & Hrs & Hbi)] Hi1 Hi Hsplit Hpre.
  unfold Truncate. rewrite Ho, (proj2 (Z.ltb_ge _ _)), (proj2 (Z.leb_gt _ _)) by lia.
  assert (Hall : Forall2 holds (w_disk w) (rss ++ [rl])) by (rewrite Hd; by apply Forall2_app; [|constructor]).
  destruct (locate_disk _ _ i Hall pre (log_rec i p) post) as (d1 & s1 & d2 & rss1 & a & Hd' & (H1 & ra & rss2 & Hss) & -> & HL & Ha & rest & Hb).
  { rewrite mjoin_snoc. by rewrite <- Hrs. }
  { unfold is_log. cbn. by rewrite Z.eqb_refl. }
  { done. }
  rewrite HL, bind_Ok. eexists. split; [reflexivity|]. rewrite Hd' in *.
  rewrite remove_newer_sorted by done. constructor; cbn; [|done|done|].
  2: { unfold all_synced. rewrite Hd'. intros [Hy1 _]%Forall_app. unfold TruncateSegment, on_segment. rewrite fmap_app.
       apply Forall_app_2; [|cbn; rewrite bool_decide_true, Hb, take_app_zlen by done; by repeat constructor].
       apply Forall_fmap. rewrite fmap_app in Hsort. apply StronglySorted_app in Hsort as (Hlt & _ & _).
       apply Forall_forall. intros x Hx. rewrite Forall_forall in Hy1. cbn. rewrite bool_decide_false; [by apply Hy1|].
       specialize (Hlt (seg_id x) (seg_id s1) ltac:(by apply list_elem_of_fmap_2) ltac:(cbn; left)). lia. }
  assert (Hsort1 : StronglySorted Z.lt (seg_id <$> d1 ++ [s1])).
  { change (s1 :: d2) with ([s1] ++ d2) in Hsort. rewrite app_assoc, fmap_app in Hsort.
    by apply StronglySorted_app in Hsort as (_ & Hsort & _). }
  unfold TruncateSegment. rewrite on_segment_last by done.
  rewrite Hb, take_app_zlen.
  assert (Hpi : (seg_id <$> d1 ++ [s1]) `prefix_of` (seg_id <$> d1 ++ s1 :: d2)).
  { rewrite !fmap_app. apply prefix_app. cbn. apply prefix_cons, prefix_nil. }
  constructor.
  - rewrite fmap_app in *. done.
  - apply Forall_app in Hsy as [Hsy _]. apply Forall_app_2; [done|]. apply Forall_singleton. cbn.
    pose proof (zlen_nonneg (enc_recs a)). lia.
  - destruct Hpi as [k Hk]. rewrite Hk in Hids. apply Forall_app in Hids as [Hids _].
    rewrite fmap_app in Hids |- *. exact Hids.
  - eexists d1, _, rss1, a. split; [done|]. split; [done|]. split; [done|]. split; [by split|].
    split; [done|]. eapply (below_ids_prefix _ _ rss); [rewrite (fmap_app _ d1 [s1]) in Hpi; rewrite (fmap_app _ d1 [_]); exact Hpi| |exact Hbi].
    destruct (prefix_snoc_inv rss1 rss rl) as [He|He]; [rewrite Hss; by eexists| |done].
    apply (f_equal length) in Hss. rewrite He, !length_app in Hss. cbn in Hss. lia.
Qed.

Lemma truncate_spec w base rs i pre p post :
  wal_inv w base rs → md_LatestSnapshotIndex (w_metadata w) < i < w_nextLogIndex w →
  rs = pre ++ log_rec i p :: post → Forall (λ r, is_log i r = false) pre →
  ∃ w', Truncate w i = Ok w' ∧ truncated w i pre w'.
Proof.
  intros [Ho Hh Hf Hl] Hi. pose proof (hf_snap _ _ _ _ (hist_has_facts _ _ _ _ _ Hh)).
  by apply truncate_layout; [| |lia..].
Qed.

(** Removing only log entries keeps memory and disk in agreement. *)
Lemma truncated_inv w base pre i p post w' :
  wal_inv w base (pre ++ log_rec i p :: post) → base `prefix_of` pre → truncated w i pre w' →
  log_only post → wal_inv w' base pre.
Proof.
  intros [Ho Hh Hf Hl] Hne [Hlay Hn (Hm & Hfi & Hhs & Hcl) _] Hlog.
  destruct (hist_before_log _ _ _ _ _ _ _ _ Hh Hne) as (m' & hs' & Hh').
  destruct (facts_log_suffix pre (log_rec i p :: post) (w_metadata w) (w_nextLogIndex w) (w_latestHardState w)
    m' i hs') as [H1 H2]; [by eapply hist_has_facts|by eapply hist_has_facts|by constructor|].
  constructor; [congruence|by rewrite Hm, Hn, Hhs, H1, H2|congruence|done].
Qed.

(** ** Replay *)

Definition served (from : Z) (rs : list Record_) : list Record_ :=
  filter (λ r, r_Type r = RecordTypeLogEntry ∧ from ≤ r_Index r) rs.

Lemma replay_segment_records fuel pre rs from :
  Forall rec_ok pre → Forall rec_ok rs → (length rs < fuel)%nat →
  replay_segment fuel (enc_recs pre ++ enc_recs rs) (zlen (enc_recs pre)) from = (served from rs, None).
Proof.
  intros Hpre Hrs. revert pre fuel Hpre.
  induction Hrs as [|x rs Hx Hrs IH]; intros pre fuel Hpre Hf; (destruct fuel as [|fuel]; [cbn in Hf; lia|]).
  - cbn [replay_segment]. change (enc_recs []) with (@nil Z).
    rewrite readFrame_end by (by apply enc_recs_wf || apply torn_nil). done.
  - cbn [replay_segment]. rewrite enc_recs_cons.
    rewrite readFrame_record by (done || by apply enc_recs_wf).
    specialize (IH (pre ++ [x]) fuel). rewrite enc_recs_app, enc_recs_single, zlen_app, <- app_assoc in IH.
    rewrite IH; [|apply Forall_app_2; [done|by constructor]|cbn in Hf; lia].
    unfold served. rewrite filter_cons. case_bool_decide as Ht; cbn [negb orb].
    + destruct (Z.ltb_spec (r_Index x) from).
      * rewrite decide_False by lia. done.
      * rewrite decide_True by done. done.
    + rewrite decide_False by naive_solver. done.
Qed.

Lemma replay_disk d rss from :
  Forall2 holds d rss → replay_segments d from = (served from (mjoin rss), None).
Proof.
  induction 1 as [|s rs d rss [Hb Hok] Hd IH]; [done|]. cbn [replay_segments]. rewrite Hb.
  pose proof (enc_recs_length rs).
  assert (Hr := replay_segment_records (S (length (enc_recs rs))) [] rs from).
  change (enc_recs [] ++ enc_recs rs) with (enc_recs rs) in Hr. change (zlen (enc_recs [])) with 0 in Hr.
  rewrite Hr; [|constructor|done|lia]. rewrite IH.
  change (mjoin (rs :: rss)) with (rs ++ mjoin rss). unfold served. by rewrite filter_app.
Qed.

Lemma replay_layout d cur rs from : layout d cur rs → replay_segments d from = (served from rs, None).
Proof.
  intros [_ _ _ (d0 & s & rss & rl & -> & _ & Hd & Hs & -> & _)]. rewrite <- mjoin_snoc.
  apply replay_disk. apply Forall2_app; [done|by constructor].
Qed.

(** ** Compaction *)

Definition is_type (rt : RecordType) (r : Record_) : Prop := r_Type r = rt.
#[export] Instance is_type_dec rt r : Decision (is_type rt r) := decide (r_Type r = rt).

(** Scanning the same records from two states gives the same metadata and
    hard state when the states agree on them or the records contain one. *)
Lemma scan_two rs st1 st2 st1' :
  scan_records st1 rs = Ok st1' →
  ∃ st2', scan_records st2 rs = Ok st2' ∧
    (sc_meta st1 = sc_meta st2 ∨ Exists (is_type RecordTypeMetadata) rs → sc_meta st2' = sc_meta st1') ∧
    (sc_hardState st1 = sc_hardState st2 ∨ Exists (is_type RecordTypeHardState) rs →
       sc_hardState st2' = sc_hardState st1') ∧
    sc_logIndices st2' = sc_logIndices st2 ++ log_indices rs.
Proof.
  revert st1 st2. induction rs as [|r rs IH]; intros st1 st2 H; cbn in H.
  { injection H as <-. exists st2. rewrite app_nil_r. split; [done|].
    by split; [|split]; [intros [?|?%Exists_nil]..|]. }
  destruct (scan_record st1 r) as [st|] eqn:E; [|done]. cbn in H. cbn [scan_records].
  assert (∃ stx, scan_record st2 r = Ok stx ∧
    (sc_meta st1 = sc_meta st2 ∨ is_type RecordTypeMetadata r → sc_meta st = sc_meta stx) ∧
    (sc_hardState st1 = sc_hardState st2 ∨ is_type RecordTypeHardState r → sc_hardState st = sc_hardState stx) ∧
    sc_logIndices stx = sc_logIndices st2 ++ log_indices [r]) as (stx & -> & Hm & Hh & Hl).
  { unfold scan_record, is_type in *. cbn. destruct (r_Type r); cbn.
    - injection E as <-. eexists. split; [done|]. by split; [|split]; [intros [?|?]..|].
    - injection E as <-. eexists. rewrite app_nil_r. split; [done|]. by split; [intros [?|?]|].
    - destruct (decodeMetadata _); [|done]. injection E as <-. eexists. rewrite app_nil_r.
      split; [done|]. by split; [|split]; [|intros [?|?]|]. }
  destruct (IH st stx H) as (st2' & Hs & H1 & H2 & H3). exists st2'. split; [done|].
  split; [|split].
  - intros [?|[?|?]%Exists_cons]; apply H1; [left; apply Hm; by left|left; apply Hm; by right|by right].
  - intros [?|[?|?]%Exists_cons]; apply H2; [left; apply Hh; by left|left; apply Hh; by right|by right].
  - rewrite H3, Hl, <- app_assoc. f_equal. unfold log_indices. by rewrite <- omap_app.
Qed.

(** Dropping records that only hold covered entries keeps the state, when
    the metadata and the hard state are still among the records kept. *)
Lemma facts_suffix gone kept m n hs :
  hist_facts (gone ++ kept) m n hs →
  Forall (λ i, i ≤ md_LatestSnapshotIndex m) (log_indices gone) →
  Exists (is_type RecordTypeMetadata) kept →
  Exists (is_type RecordTypeHardState) kept ∨ hs = [] →
  hist_facts kept m n hs.
Proof.
  intros [Hok Hm Hn Hs Hb Hl Hscan] Hg Hmeta Hhs.
  apply Forall_app in Hok as [Hok1 Hok2].
  assert (Hi : log_indices (gone ++ kept) = log_indices gone ++ log_indices kept)
    by (unfold log_indices; by rewrite omap_app).
  rewrite Hi in *. apply Forall_app in Hb as [_ Hb].
  rewrite scan_records_app in Hscan. destruct (scan_records _ gone) as [st1|]; [|done]. cbn in Hscan.
  destruct (scan_two kept st1 (mkScan None [] []) _ Hscan) as (st & Hst & H1 & H2 & H3).
  constructor; [done|done|done|done|done| |].
  - rewrite filter_app, filter_none in Hl; [done|]. eapply Forall_impl; [done|]. cbn. intros; lia.
  - rewrite Hst. destruct st as [sm sh sl]. cbn in *. f_equal. f_equal; [by apply H1; right| |done].
    destruct Hhs as [Hhs| ->]; [by apply H2; right|].
    destruct (Exists_dec (is_type RecordTypeHardState) kept) as [He|He].
    { by apply H2; right. }
    destruct (scan_hs_source kept (mkScan None [] []) _ Hok2 Hst) as [Hx|(r & Hr & Ht & _)]; [done|].
    destruct He. apply Exists_exists. by exists r.
Qed.

(** The eligible segments are the first ones, and each is followed by one
    that starts at or below the boundary. *)
Lemma eligible_prefix cur upto ids :
  ∃ k, eligible_segments cur upto ids = take k ids ∧ (k ≤ length ids)%nat ∧
    ∀ j, (j < k)%nat → ∃ next, ids !! S j = Some next ∧ (next - 1)%u64 ≤ upto.
Proof.
  induction ids as [|id ids IH]; [exists 0%nat; split; [done|split; [done|intros; lia]]|].
  destruct ids as [|next rest]; [exists 0%nat; split; [done|split; [cbn; lia|intros; lia]]|].
  change (eligible_segments cur upto (id :: next :: rest)) with
    (if bool_decide (id = cur) then [] else if upto <? (next - 1)%u64 then []
     else id :: eligible_segments cur upto (next :: rest)).
  case_bool_decide; [exists 0%nat; split; [done|split; [cbn; lia|intros; lia]]|].
  destruct (Z.ltb_spec upto (next - 1)%u64); [exists 0%nat; split; [done|split; [cbn; lia|intros; lia]]|].
  destruct IH as (k & Hk & Hle & IH). exists (S k). rewrite Hk. split; [done|]. split; [cbn in *; lia|].
  intros [|j] Hj; [by exists next|]. apply (IH j). lia.
Qed.

Lemma foldl_RemoveSegment l (d : Disk) : foldl RemoveSegment d l = filter (λ s, seg_id s ∉ l) d.
Proof.
  revert d. induction l as [|x l IH]; intros d; cbn [foldl].
  { symmetry. apply filter_all, Forall_forall. intros s _. apply not_elem_of_nil. }
  rewrite IH. unfold RemoveSegment. rewrite list_filter_filter. apply list_filter_iff. intros s.
  rewrite not_elem_of_cons. naive_solver.
Qed.

Lemma remove_first d n :
  StronglySorted Z.lt (seg_id <$> d) → foldl RemoveSegment d (take n (seg_id <$> d)) = drop n d.
Proof.
  intros Hs. rewrite foldl_RemoveSegment.
  replace (filter _ d) with (filter (λ s, seg_id s ∉ take n (seg_id <$> d)) (take n d ++ drop n d))
    by (by rewrite take_drop).
  rewrite <- (take_drop n d), fmap_app in Hs. apply StronglySorted_app in Hs as (Hlt & _ & _).
  rewrite filter_app, filter_none, filter_all; [done| |]; apply Forall_forall; intros s Hin.
  - rewrite <- fmap_take. intros (s' & He & Hin')%list_elem_of_fmap.
    specialize (Hlt (seg_id s') (seg_id s)). rewrite He in Hlt. apply (Z.lt_irrefl (seg_id s')), Hlt.
    + by apply list_elem_of_fmap_2.
    + rewrite <- He. by apply list_elem_of_fmap_2.
  - intros Hn. apply Hn. rewrite <- fmap_take. by apply list_elem_of_fmap_2.
Qed.

(** The entries of the first [n] segments are below the next identifier. *)
Lemma below_ids_take ids rss n id :
  below_ids ids rss → ids !! n = Some id → (n ≤ length rss)%nat →
  Forall (λ i, i < id) (log_indices (mjoin (take n rss))).
Proof.
  revert ids rss. induction n as [|n IH]; intros ids rss Hb Hid Hn; [constructor|].
  destruct rss as [|rs rss]; [cbn in Hn; lia|]. destruct ids as [|x ids]; [done|].
  destruct Hb as [H1 H2]. cbn [take]. change (mjoin (rs :: take n rss)) with (rs ++ mjoin (take n rss)).
  unfold log_indices. rewrite omap_app. apply Forall_app_2.
  - rewrite Forall_forall in H1. apply H1. by apply list_elem_of_lookup_2 with n.
  - eapply IH; [done|done|cbn in Hn; lia].
Qed.

Lemma below_ids_drop ids rss n : below_ids ids rss → below_ids (drop n ids) (drop n rss).
Proof.
  revert ids rss. induction n as [|n IH]; intros ids rss H; [done|].
  destruct rss as [|rs rss]; [done|]. destruct ids as [|x ids]; [cbn; by destruct (drop n rss)|].
  apply IH, H.
Qed.

Lemma mjoin_take_drop {A} n (ls : list (list A)) : mjoin ls = mjoin (take n ls) ++ mjoin (drop n ls).
Proof.
  revert ls. induction n as [|n IH]; intros ls; [done|]. destruct ls as [|l ls]; [done|].
  cbn [take drop]. change (l ++ mjoin ls = (l ++ mjoin (take n ls)) ++ mjoin (drop n ls)).
  by rewrite <- app_assoc, <- IH.
Qed.

(** A directory without its first [n] segments. *)
Lemma layout_drop d cur rs n :
  layout d cur rs → (n < length d)%nat →
  ∃ gone kept, rs = gone ++ kept ∧ layout (drop n d) cur kept ∧ (n = 0%nat → gone = []) ∧
    (∀ id, (seg_id <$> d) !! n = Some id → Forall (λ i, i < id) (log_indices gone)) ∧
    (durable d rs rs → durable (drop n d) kept kept).
Proof.
  intros [Hs Hy Hi (d0 & s & rss & rl & -> & Hc & Hf & Hh & -> & Hb)] Hn.
  rewrite length_app in Hn. cbn in Hn. pose proof (Forall2_length _ _ _ Hf) as Hlen.
  exists (mjoin (take n rss)), (mjoin (drop n rss) ++ rl).
  rewrite app_assoc, <- mjoin_take_drop. split; [done|].
  assert (Hd : drop n (d0 ++ [s]) = drop n d0 ++ [s]) by (rewrite drop_app_le by lia; done).
  rewrite Hd. split; [|split; [by intros ->|split]].
  - constructor.
    + rewrite <- Hd, fmap_drop. rewrite <- (take_drop n (seg_id <$> d0 ++ [s])) in Hs.
      by apply StronglySorted_app in Hs as (_ & _ & Hs).
    + rewrite <- Hd. by apply Forall_drop.
    + rewrite <- Hd, fmap_drop. by apply Forall_drop.
    + exists (drop n d0), s, (drop n rss), rl. split; [done|]. split; [done|].
      split; [by apply Forall2_drop|]. split; [done|]. split; [done|].
      rewrite <- Hd, fmap_drop. by apply below_ids_drop.
  - intros id Hid. eapply below_ids_take; [done|done|lia].
  - intros (d1 & s1 & rss1 & rl1 & rl2 & He & Hf1 & Hsy & Hh1 & Hle & Hr1 & Hr2).
    apply app_inj_2 in He as [-> He]; [|done]. injection He as <-.
    rewrite (holds_det _ _ _ Hf1 Hf) in *.
    assert (rl2 = []) as ->.
    { rewrite <- (app_nil_r (mjoin rss ++ rl)) in Hr2 at 1. by apply app_inv_head in Hr2. }
    apply app_inv_head in Hr1 as ->. rewrite app_nil_r in *.
    exists (drop n d1), s, (drop n rss), rl1, []. rewrite !app_nil_r.
    split; [done|]. split; [by apply Forall2_drop|]. split; [by apply Forall_drop|]. by repeat (split; [done|]).
Qed.

Lemma compact_removes w rs upto extra :
  layout (w_disk w) (w_current w) rs → w_closed w = false → 0 ≤ extra →
  ∃ n w', CompactBeforeRetaining w upto extra = Ok w' ∧ same_state w w' ∧ w_current w' = w_current w ∧
    w_disk w' = drop n (w_disk w) ∧ (n < length (w_disk w))%nat ∧
    (n = 0%nat ∨ ∃ id, (seg_id <$> w_disk w) !! n = Some id ∧ id ≤ upto + 1).
Proof.
  intros Hl Ho Hex. destruct Hl as [Hs _ Hi (d0 & s & _ & _ & Hd & _)].
  unfold CompactBeforeRetaining. rewrite Ho, (proj2 (Z.ltb_ge _ _)) by done. unfold ListSegmentIDs.
  destruct (eligible_prefix (w_current w) upto (seg_id <$> w_disk w)) as (k & -> & Hk & Hnext).
  destruct (Z.leb_spec (zlen (take k (seg_id <$> w_disk w))) extra) as [|Hlt].
  { exists 0%nat, w. split; [done|]. split; [done|]. split; [done|]. split; [done|]. split; [|by left].
    rewrite Hd, length_app. cbn. lia. }
  unfold zlen in *. rewrite length_take, length_fmap in *.
  set (n := Z.to_nat (Z.of_nat (k `min` length (w_disk w)) - extra)).
  assert (Hnk : (0 < n ≤ k)%nat) by lia.
  destruct (Hnext (n - 1)%nat) as (id & Hid & Hle); [lia|]. replace (S (n - 1)) with n in Hid by lia.
  exists n. eexists. split; [reflexivity|]. split; [by constructor|]. split; [done|].
  split; [|split].
  - cbn. rewrite take_take, Nat.min_l by lia. by apply remove_first.
  - apply lookup_lt_Some in Hid. by rewrite length_fmap in Hid.
  - right. exists id. split; [done|]. rewrite Forall_forall in Hi.
    specialize (Hi id (list_elem_of_lookup_2 _ _ _ Hid)). cbn in Hi.
    rewrite u64_small in Hle by (unfold is_u64; lia). lia.
Qed.

Lemma served_app from a b : served from (a ++ b) = served from a ++ served from b.
Proof. apply filter_app. Qed.

Lemma served_covered from gone :
  Forall (λ i, i < from) (log_indices gone) → served from gone = [].
Proof.
  intros H. apply filter_none. induction gone as [|r gone IH]; [constructor|].
  unfold log_indices in H. cbn in H. case_bool_decide as Ht.
  - apply Forall_cons in H as [H1 H2]. constructor; [lia|by apply IH].
  - constructor; [naive_solver|by apply IH].
Qed.

(** ** Fresh logs *)

Definition fresh_meta (nid : bytes) : Metadata := mkMetadata nid FormatVersion 0 0.

Lemma fresh_meta_good nid : wf_bytes nid → zlen nid < 2 ^ 16 → meta_good (fresh_meta nid).
Proof.
  intros H1 H2. split; [|done].
  split; [unfold is_byte, fresh_meta, FormatVersion; cbn; lia|]. split; [unfold is_u64; cbn; lia|].
  split; [done|]. split; [done|]. unfold is_u32. cbn. lia.
Qed.

Lemma open_fresh nid maxsz :
  wf_bytes nid → zlen nid < 2 ^ 16 →
  ∃ w, Open [] nid maxsz = Ok w ∧ wal_inv w [meta_rec (fresh_meta nid)] [meta_rec (fresh_meta nid)] ∧
    durable (w_disk w) [meta_rec (fresh_meta nid)] [meta_rec (fresh_meta nid)].
Proof.
  intros Hn Hl. pose proof (fresh_meta_good nid Hn Hl) as Hm.
  unfold Open. cbv zeta. fold (fresh_meta nid).
  unfold appendLocked. destruct (meta_payload_ok _ Hm) as [Hp1 Hp2].
  assert (HC : CreateSegment [] 1 = Ok [mkSegment 1 [] 0]) by reflexivity. rewrite HC, bind_Ok.
  rewrite (proj2 (Z.ltb_ge _ _)) by done. rewrite bool_decide_false by done.
  unfold maybeRotateLocked. cbn [w_disk w_current seg_size].
  change (seg_size [mkSegment 1 [] 0] 1 =? 0) with true. cbn [orb]. rewrite !bind_Ok.
  fold (encode_rec (meta_rec (fresh_meta nid))).
  set (f := encode_rec (meta_rec (fresh_meta nid))).
  assert (Hh : holds (mkSegment 1 f (zlen f)) [meta_rec (fresh_meta nid)]).
  { split; [by rewrite enc_recs_single|]. constructor; [by apply meta_rec_ok|done]. }
  eexists. split; [reflexivity|].
  match goal with |- wal_inv ?x _ _ ∧ _ => assert (Hd : w_disk x = [mkSegment 1 f (zlen f)]) by done end.
  split.
  - constructor; [done|by apply hist_base, fresh_facts|done|]. rewrite Hd. constructor.
    + repeat constructor.
    + apply Forall_singleton. cbn [seg_synced seg_bytes]. pose proof (zlen_nonneg f). lia.
    + by repeat constructor.
    + eexists [], _, [], _. split; [done|]. split; [done|]. split; [constructor|]. split; [exact Hh|done].
  - rewrite Hd. eexists [], _, [], [_], []. rewrite !app_nil_r. split; [done|].
    split; [constructor|]. split; [constructor|]. split; [exact Hh|]. by rewrite enc_recs_single.
Qed.

(** A synced log whose closed segments are synced is durable entirely. *)
Lemma sync_durable w rs :
  layout (w_disk w) (w_current w) rs →
  Forall (λ s, seg_id s ≠ w_current w → seg_synced s = zlen (seg_bytes s)) (w_disk w) →
  durable (w_disk (sync_current w)) rs rs.
Proof.
  intros [Hs Hy _ (d0 & s & rss & rl & Hd & Hc & Hf & [Hb Hok] & -> & _)] Hcl. unfold sync_current.
  change (w_disk (w <| w_disk := SyncSegment (w_current w) (w_disk w) |>)) with (SyncSegment (w_current w) (w_disk w)).
  rewrite Hd, <- Hc in *. unfold SyncSegment. rewrite on_segment_last by done.
  rewrite fmap_app in Hs. apply sorted_snoc_lt in Hs as [_ Hlt]. apply Forall_fmap in Hlt.
  apply Forall_app in Hcl as [Hcl _].
  eexists d0, _, rss, rl, []. rewrite !app_nil_r. split; [done|]. split; [done|]. split.
  - apply Forall_forall. intros x Hx. rewrite Forall_forall in Hcl, Hlt. apply Hcl; [done|].
    specialize (Hlt x Hx). cbn in Hlt. lia.
  - split; [by split|]. cbn. rewrite Hb. split; [lia|done].
Qed.

(** *** Logs without unsynced bytes *)

Lemma all_synced_durable d cur rs : layout d cur rs → all_synced d → durable d rs rs.
Proof.
  intros [_ _ _ (d0 & s & rss & rl & -> & _ & Hf & Hh & -> & _)] [H1 H2]%Forall_app.
  rewrite Forall_singleton in H2. exists d0, s, rss, rl, []. rewrite !app_nil_r.
  split; [done|]. split; [done|]. split; [done|]. split; [done|]. split; [|done].
  rewrite H2. destruct Hh as [-> _]. lia.
Qed.

(** No segment was closed before it was synced. *)
Definition closed_synced (w : WAL) : Prop :=
  Forall (λ s, seg_id s ≠ w_current w → seg_synced s = zlen (seg_bytes s)) (w_disk w).

Lemma sync_all w : closed_synced (sync_current w) → all_synced (w_disk (sync_current w)).
Proof.
  intros H. apply Forall_forall. intros s Hs. unfold closed_synced in H. rewrite Forall_forall in H.
  specialize (H s Hs). cbn in H, Hs. unfold SyncSegment, on_segment in Hs.
  apply list_elem_of_fmap in Hs as (x & -> & Hx). case_bool_decide as Hid; [done|]. by apply H.
Qed.

(** One append on a log without unsynced bytes: the records before it stay
    durable, and no segment is closed unsynced. *)
Lemma append_after_sync w rt payload rs w' :
  layout (w_disk w) (w_current w) rs → payload_ok payload → is_u64 (w_nextLogIndex w) →
  Forall (λ i, 0 < i < w_nextLogIndex w) (log_indices rs) → all_synced (w_disk w) →
  appendLocked w rt payload = Ok w' →
  closed_synced w' ∧ durable (w_disk w') rs
    (rs ++ [mkRecord rt (if bool_decide (rt = RecordTypeLogEntry) then w_nextLogIndex w else 0) payload]).
Proof.
  intros Hl [Hw Hp] Hn Hlog Hsy. unfold appendLocked. rewrite (proj2 (Z.ltb_ge _ _)) by done. cbv zeta.
  set (idx := if bool_decide (rt = RecordTypeLogEntry) then w_nextLogIndex w else 0).
  destruct (rotate_layout w (zlen (encodeRecord rt idx payload)) rs Hl Hn Hlog) as (w1 & -> & _ & Hl1 & Hsy1).
  specialize (Hsy1 Hsy). rewrite bind_Ok. intros [= <-].
  cbn [w_disk w_current modify set_w_disk]. set (r := mkRecord rt idx payload).
  change (encodeRecord rt idx payload) with (encode_rec r).
  assert (Hr : rec_ok r).
  { split; [split|done]; cbn; [|done]. unfold idx. case_bool_decide; [done|unfold is_u64; lia]. }
  destruct Hl1 as [Hs Hy _ (d0 & s & rss & rl & Hd & Hc & Hf & [Hb Hok] & -> & _)].
  unfold closed_synced. cbn. rewrite Hd, <- Hc in *. unfold AppendSegment. rewrite on_segment_last by done.
  apply Forall_app in Hsy1 as [H1 H2]. rewrite Forall_singleton in H2. split.
  - apply Forall_app_2; [eapply Forall_impl; [exact H1|done]|]. apply Forall_singleton. cbn. done.
  - eexists d0, _, rss, rl, [r]. split; [done|]. split; [done|]. split; [done|].
    split; [|split; [cbn; rewrite H2, Hb; lia|done]].
    split; cbn; [by rewrite Hb, enc_recs_app, enc_recs_single|]. apply Forall_app_2; [done|by constructor].
Qed.

Lemma durable_all_synced d cur rs : layout d cur rs → durable d rs rs → all_synced d.
Proof.
  intros Hl (d0 & s & rss & rl1 & rl2 & -> & _ & H0 & [Hb _] & Hle & -> & He).
  rewrite <- (app_nil_r (_ ++ _)) in He at 1. apply app_inv_head in He as <-. rewrite app_nil_r in Hb.
  apply Forall_app_2; [done|]. apply Forall_singleton. pose proof (ly_synced _ _ _ Hl) as [_ Hy]%Forall_app.
  rewrite Forall_singleton in Hy. rewrite <- Hb in Hle. lia.
Qed.

(** [all_synced] by evaluation. *)
Lemma all_synced_compute d :
  forallb (λ s, seg_synced s =? zlen (seg_bytes s)) d = true → all_synced d.
Proof.
  intros H. apply Forall_forall. intros s Hs. rewrite forallb_forall in H.
  apply Z.eqb_eq, H. by apply list_elem_of_In.
Qed.

Lemma all_closed_synced w : all_synced (w_disk w) → closed_synced w.
Proof. intros H. eapply Forall_impl; [exact H|]. done. Qed.

Lemma crash_refl d : all_synced d → crash d d.
Proof.
  induction 1 as [|s d Hs Hd IH]; [constructor|]. constructor; [|done]. split; [done|].
  exists (zlen (seg_bytes s)). split; [lia|]. rewrite to_nat_zlen, take_ge by lia. done.
Qed.

(** ** A log used by the concrete instances below *)

Definition demo_wal : WAL :=
  mkWAL [mkSegment 1 (encode_rec (meta_rec (fresh_meta [97]))) (zlen (encode_rec (meta_rec (fresh_meta [97]))))]
    DefaultSegmentMaxSize 1 (fresh_meta [97]) 1 1 [] false.
Definition demo_logged : WAL :=
  match AppendLogEntry demo_wal [7] with Ok (w, _) => w | Err _ => demo_wal end.

(** The same directory after a crash in the middle of the entry. *)
Definition demo_torn : Disk :=
  (λ s, mkSegment (seg_id s) (take 40 (seg_bytes s)) 40) <$> w_disk demo_logged.

Lemma demo_open : Open [] [97] 0 = Ok demo_wal.
Proof. vm_compute. reflexivity. Qed.

Lemma demo_inv :
  wal_inv demo_wal [meta_rec (fresh_meta [97])] [meta_rec (fresh_meta [97])] ∧
  durable (w_disk demo_wal) [meta_rec (fresh_meta [97])] [meta_rec (fresh_meta [97])].
Proof.
  destruct (open_fresh [97] 0) as (w & Ho & H); [by repeat constructor|done|].
  rewrite demo_open in Ho. by injection Ho as <-.
Qed.

Lemma demo_payload_ok b : is_byte b → payload_ok [b].
Proof. intros Hb. split; [by constructor|vm_compute; discriminate]. Qed.

Lemma demo_logged_inv : wal_inv demo_logged [meta_rec (fresh_meta [97])] [meta_rec (fresh_meta [97]); log_rec 1 [7]].
Proof.
  destruct (wal_do_inv demo_wal _ _ (OpLog [7]) (proj1 demo_inv)) as (w & Hw & H).
  - split; [by apply demo_payload_ok|vm_compute; reflexivity].
  - vm_compute in Hw. injection Hw as <-. exact H.
Qed.

(** ** Properties of the log *)

(** Frames are self-delimiting and fail closed.  A written record decodes
    to itself whatever follows it; cut anywhere it reads as a torn tail, never
    as another record or as corruption; and on arbitrary bytes the decoder
    never indexes out of range and accepts only the exact encoding of the
    record it returns. *)
Theorem wal_frame_codec :
  (∀ r rest, record_ok r → decodeFrameBytes (encode_rec r ++ rest) = Ok (r, zlen (encode_rec r))) ∧
  (∀ r k, rec_ok r → (k < length (encode_rec r))%nat →
     decodeFrameBytes (take k (encode_rec r)) = Err errTornTail) ∧
  (∀ b, wf_bytes b → reads (decodeFrameBytes b) (λ '(r, n),
     rec_ok r ∧ headerSize + checksumSize ≤ n ≤ zlen b ∧ take (Z.to_nat n) b = encode_rec r)).
Proof.
  split; [intros r rest; apply decode_encode_frame|].
  split; [intros r k [H1 H2]; by apply decode_torn|].
  intros b Hb. unfold reads. destruct (decodeFrameBytes b) as [[r n]|e] eqn:E.
  - destruct (decode_frame_exact b r n Hb E) as (H1 & H2 & H3 & H4). done.
  - intros ->. destruct (Z.ltb_spec (zlen b) headerSize).
    + by rewrite decode_no_header in E.
    + rewrite decodeFrameBytes_closed in E by done. unfold decode_closed in E.
      by repeat (case_match; try done).
Qed.

Lemma wal_frame_codec_witness :
  decodeFrameBytes (encode_rec (hs_rec [5]) ++ [1; 2]) = Ok (hs_rec [5], 19) ∧
  decodeFrameBytes (take 10 (encode_rec (hs_rec [5]))) = Err errTornTail.
Proof.
  destruct wal_frame_codec as (H1 & H2 & _).
  assert (H : rec_ok (hs_rec [5])) by (apply hs_rec_ok, demo_payload_ok; done).
  split; [apply (H1 (hs_rec [5]) [1; 2]); apply H|].
  apply H2; [exact H|vm_compute; repeat constructor].
Defined.

(** Reading only the header and then the exact frame decides the same as
    decoding everything that remains in the segment, record, torn tail or
    corruption alike, as long as the declared length is within the limit. *)
Theorem read_frame_fast_path seg offset :
  wf_bytes seg → 0 ≤ offset →
  (headerSize ≤ zlen (drop (Z.to_nat offset) seg) →
     fr_length (drop (Z.to_nat offset) seg) ≤ MaxRecordPayloadSize) →
  readFrame seg offset =
    if zlen seg <=? offset then Ok None
    else ('(r, n) ← decodeFrameBytes (drop (Z.to_nat offset) seg); Ok (Some (r, n))).
Proof.
  intros Hwf H0 Hl. rewrite readFrame_reference by done. case_if; [done|]. unfold read_reference.
  destruct (Z.leb_spec headerSize (zlen (drop (Z.to_nat offset) seg))); cbn [andb]; [|done].
  by rewrite (proj2 (Z.ltb_ge _ _)) by auto.
Qed.

Lemma read_frame_fast_path_witness :
  readFrame (encode_rec (hs_rec [5])) 0 = Ok (Some (hs_rec [5], 19)).
Proof.
  rewrite read_frame_fast_path; [vm_compute; reflexivity| |done|vm_compute; discriminate].
  apply rec_ok_encode_wf, hs_rec_ok, demo_payload_ok; done.
Defined.

(** The header of a frame that claims one byte too many, and its bytes. *)
Definition oversized_frame : bytes :=
  [1] ++ put_u64 1 ++ put_u32 (MaxRecordPayloadSize + 1) ++ [FormatVersion] ++
  replicate (Z.to_nat (MaxRecordPayloadSize + 1 + checksumSize)) 0.

Lemma oversized_frame_facts :
  wf_bytes oversized_frame ∧ fr_length oversized_frame = MaxRecordPayloadSize + 1 ∧
  fr_version oversized_frame = FormatVersion ∧ zlen oversized_frame = fr_need oversized_frame.
Proof.
  assert (Hl : fr_length oversized_frame = MaxRecordPayloadSize + 1).
  { unfold fr_length, oversized_frame. rewrite drop_app_ge by (cbn; lia).
    replace (9 - length [1])%nat with 8%nat by done. rewrite drop_be_put.
    apply get_u32_put. unfold is_u32, MaxRecordPayloadSize. lia. }
  split; [|split; [done|split]].
  - unfold oversized_frame. apply Forall_app_2; [by repeat constructor|].
    apply Forall_app_2; [apply wf_be_put|]. apply Forall_app_2; [apply wf_be_put|].
    apply Forall_app_2; [by repeat constructor|]. apply Forall_replicate. unfold is_byte. lia.
  - unfold fr_version, oversized_frame. rewrite app_nth2 by (cbn; lia). cbn [length Nat.sub].
    rewrite app_nth2; rewrite length_be_put; [|lia]. cbn [Nat.sub].
    rewrite app_nth2; rewrite length_be_put; [|lia]. done.
  - unfold fr_need. rewrite Hl. unfold oversized_frame. rewrite !zlen_app, !zlen_be_put.
    unfold zlen at 3. rewrite length_replicate. unfold headerSize, checksumSize, MaxRecordPayloadSize.
    change (zlen [1]) with 1. change (zlen [FormatVersion]) with 1. lia.
Qed.

(** The size limit is not enforced where the log is read.  A complete
    frame that claims more than the maximum is rejected as too large by the
    frame decoder, but [readFrame] bounds its read so that the same bytes
    look like a torn tail, which recovery of the last segment silently cuts
    off. *)
Theorem oversized_frame_reads_as_torn :
  ∃ seg, wf_bytes seg ∧ decodeFrameBytes seg = Err ErrRecordTooLarge ∧
    readFrame seg 0 = Err errTornTail.
Proof.
  exists oversized_frame. pose proof oversized_frame_facts as (Hwf & Hl & Hv & Hn).
  generalize dependent oversized_frame. intros seg Hwf Hl Hv Hn.
  assert (Hh : headerSize ≤ zlen seg).
  { rewrite Hn. unfold fr_need. rewrite Hl. unfold headerSize, checksumSize, MaxRecordPayloadSize. lia. }
  split; [done|]. split.
  - rewrite decodeFrameBytes_closed by done. unfold decode_closed. rewrite Hv, Z.eqb_refl. cbn [negb].
    rewrite (proj2 (Z.ltb_ge _ _)) by lia. by rewrite (proj2 (Z.ltb_lt _ _)) by lia.
  - rewrite readFrame_reference by (done || lia). change (Z.to_nat 0) with 0%nat. rewrite drop_0.
    rewrite (proj2 (Z.leb_gt _ _)) by (unfold headerSize in Hh; lia). unfold read_reference.
    rewrite (proj2 (Z.leb_le _ _)), (proj2 (Z.ltb_lt MaxRecordPayloadSize _)) by lia. cbn [andb].
    by rewrite Hv.
Qed.

(** C18: a live log is always the image of its history.  From a fresh
    directory every sequence of appends, syncs, snapshot pointers, generation
    changes and snapshot installations succeeds, extends the history by the
    records written, and keeps memory and disk in agreement; replay serves
    exactly the log entries of the history at or above the requested index. *)
Theorem wal_operations_refine_history w base rs op from :
  wal_inv w base rs → op_ok w op →
  Replay w from = Ok (served from rs, None) ∧
  ∃ w', wal_do w op = Ok w' ∧ wal_inv w' base (rs ++ op_records w op).
Proof.
  intros Hinv Hop. split; [|by apply wal_do_inv]. unfold Replay. rewrite (wi_open _ _ _ Hinv).
  f_equal. eapply replay_layout, Hinv.
Qed.

Lemma wal_operations_refine_history_witness :
  Replay demo_logged 1 = Ok ([log_rec 1 [7]], None) ∧
  ∃ w', wal_do demo_logged (OpHardState [5]) = Ok w' ∧
    wal_inv w' [meta_rec (fresh_meta [97])] [meta_rec (fresh_meta [97]); log_rec 1 [7]; hs_rec [5]].
Proof.
  apply (wal_operations_refine_history demo_logged _ _ (OpHardState [5]) 1 demo_logged_inv).
  by apply demo_payload_ok.
Defined.



(** Truncation removes exactly the suffix.  Truncating at a live index
    keeps the records before that entry, makes it the next index, and leaves
    a directory that reopens with it as the next index; when only log entries
    were removed, memory and disk agree afterwards. *)
Theorem wal_truncate_exact w base rs i nid maxsz :
  wal_inv w base rs → md_LatestSnapshotIndex (w_metadata w) < i < w_nextLogIndex w →
  Forall (λ r, is_log i r = false) base →
  ∃ pre p post w', rs = pre ++ log_rec i p :: post ∧ Truncate w i = Ok w' ∧
    NextIndex w' = i ∧ (∀ from, Replay w' from = Ok (served from pre, None)) ∧
    (∃ w'', Open (w_disk w') nid maxsz = Ok w'' ∧ NextIndex w'' = i) ∧
    (log_only post → wal_inv w' base pre).
Proof.
  intros Hinv Hi Hbase. pose proof Hinv as [Ho Hh Hf Hl].
  destruct (hist_split_at _ _ _ _ _ i Hh Hi) as (pre & p & post & -> & Hpre).
  destruct (truncate_spec w _ _ i pre p post Hinv Hi eq_refl Hpre) as (w' & HT & Htr).
  pose proof Htr as [Hlay Hn (Hm & Hfi & Hhs & Hcl) _].
  assert (Hne : base `prefix_of` pre).
  { eapply split_after_base; [by eapply hist_extends|apply is_log_rec|done]. }
  destruct (hist_before_log _ _ _ _ _ _ _ _ Hh Hne) as (m' & hs' & Hh').
  exists pre, p, post, w'. split; [done|]. split; [done|]. split; [done|].
  split; [|split].
  - intros from. unfold Replay. rewrite Hcl, Ho. f_equal. by eapply replay_layout.
  - destruct Hlay as [_ _ _ (d0 & s & rss & rl & Hd & _ & Hfo & [Hb Hok] & -> & _)].
    destruct (open_facts d0 s rss rl [] m' i hs' nid maxsz) as (sz & HO);
      [done|by rewrite app_nil_r|done|apply torn_nil|by eapply hist_has_facts|].
    rewrite Hd. eexists. split; [exact HO|done].
  - by apply (truncated_inv w base pre i p post w').
Qed.

Lemma wal_truncate_exact_witness :
  ∃ w', Truncate demo_logged 1 = Ok w' ∧ NextIndex w' = 1.
Proof.
  destruct (wal_truncate_exact demo_logged _ _ 1 [97] 0 demo_logged_inv) as (pre & p & post & w' & _ & HT & HN & _);
    [vm_compute; by split|by constructor|].
  exists w'. split; [exact HT|exact HN].
Defined.

(** Truncation can undo a persisted hard state.  When the latest hard
    state was appended after the entry at which the log is truncated, its
    record is removed with the suffix: the running log still reports it, but
    after a restart the log reports an older one, synced or not. *)
Theorem wal_truncate_loses_hard_state w base rs i p nid maxsz :
  wal_inv w base rs → payload_ok p → p ≠ [] →
  Forall (λ r, r_Type r = RecordTypeHardState → r_Payload r ≠ p) rs →
  md_LatestSnapshotIndex (w_metadata w) < i < w_nextLogIndex w →
  Forall (λ r, is_log i r = false) base →
  ∃ w1 w2 w3 w4, AppendHardState w p = Ok w1 ∧ Sync w1 = Ok w2 ∧ Truncate w2 i = Ok w3 ∧
    LatestHardState w3 = p ∧ Open (w_disk w3) nid maxsz = Ok w4 ∧ LatestHardState w4 ≠ p.
Proof.
  intros Hinv Hp Hne Hfresh Hi Hbase. pose proof Hinv as [Ho Hh Hf Hl].
  destruct (hist_next_u64 _ _ _ _ _ Hh) as [Hu _].
  destruct (appendLocked_layout w RecordTypeHardState p rs Hl Hp Hu (hf_below _ _ _ _ (hist_has_facts _ _ _ _ _ Hh))) as (w0 & Ha & [] & Hl0).
  rewrite bool_decide_false in Hl0 by done.
  set (w1 := w0 <| w_latestHardState := p |>).
  assert (Hinv2 : wal_inv (sync_current w1) base (rs ++ [hs_rec p])).
  { constructor; [cbn; congruence| |cbn; congruence|by apply layout_sync].
    cbn. rewrite ss_meta0, ss_next0. by eapply hist_hs. }
  destruct (hist_split_at _ _ _ _ _ i Hh Hi) as (pre & q & post & -> & Hpre).
  destruct (truncate_spec (sync_current w1) _ _ i pre q (post ++ [hs_rec p]) Hinv2)
    as (w3 & HT & [Hlay _ (_ & _ & Hhs & _) _]);
    [cbn; congruence|by rewrite <- app_assoc|done|].
  assert (Hnp : base `prefix_of` pre).
  { eapply split_after_base; [by eapply hist_extends|apply is_log_rec|done]. }
  destruct (hist_before_log _ _ _ _ _ _ _ _ Hh Hnp) as (m' & hs' & Hh'%hist_has_facts).
  destruct Hlay as [_ _ _ (d0 & s & rss & rl & Hd & _ & Hfo & [Hb Hok] & Hprs & _)].
  rewrite Hprs in Hh'.
  destruct (open_facts d0 s rss rl [] m' i hs' nid maxsz) as (sz & HO);
    [done|by rewrite app_nil_r|done|apply torn_nil|done|].
  eexists w1, (sync_current w1), w3, _. split; [unfold AppendHardState; by rewrite Ho, Ha|].
  split; [unfold Sync; cbn; by rewrite ss_closed0, Ho|]. split; [done|].
  split; [unfold LatestHardState; by rewrite Hhs|]. split; [by rewrite Hd|].
  cbn. intros ->. destruct Hh' as [Hrok _ _ _ _ _ Hscan].
  apply scan_hs_source in Hscan as [Hscan|(r & Hr & H1 & H2)]; [done| |done].
  rewrite <- Hprs in Hr. apply Forall_app in Hfresh as [Hfresh _]. rewrite Forall_forall in Hfresh.
  by apply (Hfresh r Hr).
Qed.

Lemma wal_truncate_loses_hard_state_witness :
  ∃ w1 w2 w3 w4, AppendHardState demo_logged [5] = Ok w1 ∧ Sync w1 = Ok w2 ∧ Truncate w2 1 = Ok w3 ∧
    LatestHardState w3 = [5] ∧ Open (w_disk w3) [97] 0 = Ok w4 ∧ LatestHardState w4 ≠ [5].
Proof.
  apply (wal_truncate_loses_hard_state demo_logged _ _ 1 [5] [97] 0 demo_logged_inv).
  - by apply demo_payload_ok.
  - done.
  - by repeat constructor.
  - vm_compute. by split.
  - by constructor.
Defined.

(** C19: compaction only forgets what a snapshot covers.  Deleting segments
    below a snapshot boundary removes a prefix of the history whose entries
    are all covered; replay above the boundary and the live state are
    unchanged, synced records stay synced; and as long as a metadata record
    and the hard state are among the records kept, what is left is again a
    complete log, from which recovery and every operation continue. *)
Theorem wal_compact_exact w base rs upto extra :
  wal_inv w base rs → 0 ≤ extra → upto ≤ md_LatestSnapshotIndex (w_metadata w) →
  ∃ w' gone kept, CompactBeforeRetaining w upto extra = Ok w' ∧ rs = gone ++ kept ∧ same_state w w' ∧
    Forall (λ i, i ≤ upto) (log_indices gone) ∧
    (∀ from, upto < from → Replay w' from = Replay w from) ∧
    (durable (w_disk w) rs rs → durable (w_disk w') kept kept) ∧
    (Exists (is_type RecordTypeMetadata) kept →
     Exists (is_type RecordTypeHardState) kept ∨ w_latestHardState w = [] → wal_inv w' kept kept).
Proof.
  intros [Ho Hh Hf Hl] Hex Hup.
  destruct (compact_removes w rs upto extra Hl Ho Hex) as (n & w' & HC & Hss & Hcur & Hd & Hn & Hid).
  destruct (layout_drop _ _ _ n Hl Hn) as (gone & kept & -> & Hl' & H0 & Hg & Hdur).
  assert (Hgone : Forall (λ i, i ≤ upto) (log_indices gone)).
  { destruct Hid as [Hz|(id & Hlk & Hle)]; [rewrite H0 by done; constructor|].
    eapply Forall_impl; [by apply Hg|]. cbn. intros; lia. }
  destruct Hss as [Hm Hnx Hfi Hhs Hcl]. rewrite <- Hd, <- Hcur in Hl'.
  exists w', gone, kept. split; [done|]. split; [done|]. split; [done|]. split; [done|]. split; [|split].
  - intros from Hfr. unfold Replay. rewrite Hcl, Ho. f_equal.
    rewrite (replay_layout _ _ _ from Hl'), (replay_layout _ _ _ from Hl). f_equal.
    rewrite served_app, (served_covered from gone); [done|]. eapply Forall_impl; [exact Hgone|]. cbn. intros; lia.
  - by rewrite Hd.
  - intros Hmeta Hhard. constructor; [congruence| |congruence|done].
    rewrite Hm, Hnx, Hhs. apply hist_base. eapply facts_suffix; [by eapply hist_has_facts| |exact Hmeta|exact Hhard].
    eapply Forall_impl; [exact Hgone|]. cbn. intros; lia.
Qed.

Lemma wal_compact_exact_witness :
  ∃ w', CompactBeforeRetaining demo_logged 0 0 = Ok w' ∧ Replay w' 1 = Replay demo_logged 1.
Proof.
  destruct (wal_compact_exact demo_logged _ _ 0 0 demo_logged_inv) as (w' & gone & kept & HC & _ & _ & _ & HR & _);
    [done|vm_compute; discriminate|].
  exists w'. split; [exact HC|]. apply HR. done.
Defined.

(** The calls that record a snapshot at [upto]: the pointer, the hard state
    again, and the deletion of covered segments. *)
Definition record_snapshot (w : WAL) (upto : Z) : result wal_error WAL :=
  w ← AppendMetadataSnapshot w upto;
  w ← AppendHardState w (w_latestHardState w);
  w ← Sync w;
  CompactBeforeRetaining w upto 0.

(** The condition of the previous property can fail in the order in which a
    node makes these calls: writing the hard state again may rotate, so the
    new metadata record is no longer in the current segment, and compaction
    deletes it. *)

(** Recording a snapshot can leave a directory that no longer opens.  If
    the hard state written after the snapshot pointer starts a new segment
    and the snapshot covers the whole log, compaction deletes the only
    segment with a metadata record. *)
Theorem wal_snapshot_deletes_metadata :
  ∃ w0 w1 w2 i, Open [] [97] 90 = Ok w0 ∧ AppendLogEntry w0 [1; 2; 3; 4] = Ok (w1, i) ∧
    record_snapshot w1 i = Ok w2 ∧ Open (w_disk w2) [97] 90 = Err ErrNoMetadata.
Proof.
  pose (w0 := match Open [] [97] 90 with Ok w => w | Err _ => demo_wal end).
  pose (w1 := match AppendLogEntry w0 [1; 2; 3; 4] with Ok (w, _) => w | Err _ => demo_wal end).
  exists w0, w1, (match record_snapshot w1 1 with Ok w => w | Err _ => demo_wal end), 1.
  do 3 (split; [vm_compute; reflexivity|]). vm_compute. reflexivity.
Qed.

(** Truncating after a compaction can leave a directory that no longer
    opens.  The metadata record of a snapshot follows the entries above it,
    so cutting those entries removes it together with them, and compaction
    has already deleted the older ones. *)
Theorem wal_truncate_deletes_metadata :
  ∃ w0 w1 w2 w3 w4 i1 i2, Open [] [97] 60 = Ok w0 ∧ AppendLogEntry w0 [1] = Ok (w1, i1) ∧
    AppendLogEntry w1 [2] = Ok (w2, i2) ∧ record_snapshot w2 i1 = Ok w3 ∧
    Truncate w3 i2 = Ok w4 ∧ Open (w_disk w4) [97] 60 = Err ErrNoMetadata.
Proof.
  pose (w0 := match Open [] [97] 60 with Ok w => w | Err _ => demo_wal end).
  pose (w1 := match AppendLogEntry w0 [1] with Ok (w, _) => w | Err _ => demo_wal end).
  pose (w2 := match AppendLogEntry w1 [2] with Ok (w, _) => w | Err _ => demo_wal end).
  pose (w3 := match record_snapshot w2 1 with Ok w => w | Err _ => demo_wal end).
  exists w0, w1, w2, w3, (match Truncate w3 2 with Ok w => w | Err _ => demo_wal end), 1, 2.
  do 5 (split; [vm_compute; reflexivity|]). vm_compute. reflexivity.
Qed.

(** A sync does not cover records that rotation left behind.  Rotation
    closes the old segment without syncing it and [Sync] reaches only the new
    one, so an entry can be appended and synced successfully and still be cut
    by a crash; recovery then refuses the whole log as corrupt. *)
Theorem wal_rotation_defeats_sync :
  ∃ w0 w1 w2 w3 d' i1 i2, Open [] [97] 60 = Ok w0 ∧ AppendLogEntry w0 [1] = Ok (w1, i1) ∧
    AppendLogEntry w1 [2] = Ok (w2, i2) ∧ Sync w2 = Ok w3 ∧ crash (w_disk w3) d' ∧
    Open d' [97] 60 = Err ErrCorrupt.
Proof.
  pose (w := λ r : result wal_error (WAL * Z), match r with Ok (w, _) => w | Err _ => demo_wal end).
  pose (w0 := match Open [] [97] 60 with Ok w => w | Err _ => demo_wal end).
  pose (w1 := w (AppendLogEntry w0 [1])). pose (w2 := w (AppendLogEntry w1 [2])).
  exists w0, w1, w2, (sync_current w2),
    (match w_disk w2 with
     | [s1; s2] => [mkSegment (seg_id s1) (take 40 (seg_bytes s1)) 40;
                    mkSegment (seg_id s2) (seg_bytes s2) 19]
     | d => d
     end), 1, 2.
  do 4 (split; [vm_compute; reflexivity|]). split; [|vm_compute; reflexivity].
  vm_compute. constructor; [|constructor; [|constructor]]; (split; [reflexivity|]).
  - exists 40. vm_compute. by repeat split.
  - exists 19. vm_compute. by repeat split.
Qed.
