(* ===== verification/WalScrub.v ===== *)
(** * Scrubbing the log ([internal/wal/scrub.go])

    The scrubber reads every segment again, reports what is wrong and repairs
    nothing.  It promises to apply the rules of [Open]; that is proved here:
    it stays silent exactly on the logs that [Open] recovers. *)

From S2P Require Import Prelude Bytes Hash Scrub WalRecord Wal.

Record scrubLogRecord := mkScrubLogRecord { sl_index : Z; sl_file : bytes; sl_offset : Z }.

(** The variables of [Scrub]: its findings, its [ScrubStats], the log records
    met, the boundary and whether a finding cut a segment short. *)
Record scrub_state := mkScrub {
  ss_findings : list Finding;
  ss_SegmentsChecked : Z;
  ss_FramesChecked : Z;
  ss_BytesRead : Z;
  ss_logRecords : list scrubLogRecord;
  ss_boundary : Z;
  ss_scanAborted : bool
}.
#[export] Instance scrub_state_eta : Eta scrub_state := λ s,
  mkScrub (ss_findings s) (ss_SegmentsChecked s) (ss_FramesChecked s) (ss_BytesRead s) (ss_logRecords s)
    (ss_boundary s) (ss_scanAborted s).
#[export] Instance set_ss_findings : Setter ss_findings.
Proof. derive_setter. Defined.
#[export] Instance set_ss_SegmentsChecked : Setter ss_SegmentsChecked.
Proof. derive_setter. Defined.
#[export] Instance set_ss_FramesChecked : Setter ss_FramesChecked.
Proof. derive_setter. Defined.
#[export] Instance set_ss_BytesRead : Setter ss_BytesRead.
Proof. derive_setter. Defined.
#[export] Instance set_ss_logRecords : Setter ss_logRecords.
Proof. derive_setter. Defined.
#[export] Instance set_ss_boundary : Setter ss_boundary.
Proof. derive_setter. Defined.
#[export] Instance set_ss_scanAborted : Setter ss_scanAborted.
Proof. derive_setter. Defined.

Definition classifyDecodeErr (e : wal_error) : FindingKind :=
  match e with
  | ErrUnsupportedVersion => FindingUnsupportedVersion
  | ErrCorrupt => FindingBadChecksum
  | _ => FindingBadFraming
  end.

(** A finding that cuts the scan short. *)
Definition report (st : scrub_state) (file : bytes) (offset : Z) (k : FindingKind) : scrub_state :=
  st <| ss_findings := ss_findings st ++ [mkFinding file offset k] |> <| ss_scanAborted := true |>.

Definition scrub_record (st : scrub_state) (file : bytes) (offset : Z) (rec : Record_) : scrub_state :=
  match r_Type rec with
  | RecordTypeLogEntry =>
      st <| ss_logRecords := ss_logRecords st ++ [mkScrubLogRecord (r_Index rec) file offset] |>
  | RecordTypeMetadata =>
      match decodeMetadata (r_Payload rec) with
      | Ok m => st <| ss_boundary := md_LatestSnapshotIndex m |>
      | Err _ => report st file offset FindingBadFraming
      end
  | RecordTypeHardState => st
  end.

(** The loop over the frames of one segment; every frame has at least 18
    bytes, so their number is fuel enough. *)
Fixpoint scrub_frames (fuel : nat) (isCurrent : bool) (file data : bytes) (offset : Z) (st : scrub_state) : scrub_state :=
  match fuel with
  | O => st
  | S fuel =>
      if zlen data <=? offset then st else
      match decodeFrameBytes (drop (Z.to_nat offset) data) with
      | Err e =>
          if bool_decide (e = errTornTail) then
            if negb isCurrent then report st file offset FindingBadFraming else st
          else report st file offset (classifyDecodeErr e)
      | Ok (rec, n) =>
          let st := st <| ss_FramesChecked := ss_FramesChecked st + 1 |> in
          scrub_frames fuel isCurrent file data (offset + n) (scrub_record st file offset rec)
      end
  end.

Definition scrub_segment (currentSegmentID : Z) (st : scrub_state) (s : Segment) : scrub_state :=
  let st := st <| ss_SegmentsChecked := ss_SegmentsChecked st + 1 |> in
  let st := st <| ss_BytesRead := ss_BytesRead st + zlen (seg_bytes s) |> in
  scrub_frames (S (length (seg_bytes s))) (seg_id s =? currentSegmentID) (SegmentFileName (seg_id s)) (seg_bytes s) 0 st.

Fixpoint contiguity_findings (boundary lastLive : Z) (haveLive scanAborted : bool) (lrs : list scrubLogRecord) : list Finding :=
  match lrs with
  | [] => []
  | lr :: lrs =>
      let bad := mkFinding (sl_file lr) (sl_offset lr) FindingIndexOutOfOrder in
      if sl_index lr <=? boundary then contiguity_findings boundary lastLive haveLive scanAborted lrs
      else if negb haveLive then
        (if negb scanAborted && negb (sl_index lr =? (boundary + 1)%u64) then [bad] else []) ++
        contiguity_findings boundary (sl_index lr) true scanAborted lrs
      else
        (if negb (sl_index lr =? (lastLive + 1)%u64) then [bad] else []) ++
        contiguity_findings boundary (sl_index lr) true scanAborted lrs
  end.

Definition scrubIndexContiguityFindings (logRecords : list scrubLogRecord) (boundary : Z) (scanAborted : bool) : list Finding :=
  contiguity_findings boundary 0 false scanAborted logRecords.

(** The segments are listed first; the highest is the current one. *)
Definition WalScrub (d : Disk) : list Finding * (Z * Z * Z) :=
  let st := foldl (scrub_segment (last_id d)) (mkScrub [] 0 0 0 [] 0 false) d in
  (ss_findings st ++ scrubIndexContiguityFindings (ss_logRecords st) (ss_boundary st) (ss_scanAborted st),
   (ss_SegmentsChecked st, ss_FramesChecked st, ss_BytesRead st)).

(** ** Agreement with [Open] *)

(** No segment is longer than one frame of the maximal size, or holds no
    complete frame above it. *)
Definition no_oversized (seg : bytes) : Prop :=
  wf_bytes seg ∧ ∀ off, decodeFrameBytes (drop off seg) ≠ Err ErrRecordTooLarge.

(** The two scans have met the same records, and nothing was wrong. *)
Record agree (sc : scan_state) (ss : scrub_state) : Prop := {
  ag_log : sl_index <$> ss_logRecords ss = sc_logIndices sc;
  ag_boundary : ss_boundary ss = match sc_meta sc with Some m => md_LatestSnapshotIndex m | None => 0 end;
  ag_findings : ss_findings ss = [];
  ag_aborted : ss_scanAborted ss = false
}.

Definition broken (ss : scrub_state) : Prop := ss_findings ss ≠ [].

Lemma report_broken st f o k : broken (report st f o k).
Proof. unfold broken, report. cbn. by destruct (ss_findings st). Qed.

Lemma scrub_record_broken st f o r : broken st → broken (scrub_record st f o r).
Proof.
  unfold scrub_record. intros H. destruct (r_Type r); [done|done|].
  destruct (decodeMetadata (r_Payload r)); [done|apply report_broken].
Qed.

Lemma scrub_frames_broken fuel cur f data o st : broken st → broken (scrub_frames fuel cur f data o st).
Proof.
  revert o st. induction fuel as [|fuel IH]; intros o st H; [done|]. cbn [scrub_frames].
  destruct (zlen data <=? o); [done|]. destruct (decodeFrameBytes _) as [[rec n]|e].
  - apply IH, scrub_record_broken. exact H.
  - case_bool_decide; [destruct cur; cbn [negb]; [done|apply report_broken]|apply report_broken].
Qed.

Lemma scrub_segments_broken cur d st : broken st → broken (foldl (scrub_segment cur) st d).
Proof.
  revert st. induction d as [|s d IH]; intros st H; [done|]. cbn [foldl]. apply IH.
  unfold scrub_segment. cbv zeta. apply scrub_frames_broken. exact H.
Qed.

(** Reading a frame and decoding all that is left. *)
Lemma read_or_decode data off :
  no_oversized data → 0 ≤ off < zlen data →
  readFrame data off = match decodeFrameBytes (drop (Z.to_nat off) data) with
                       | Ok (rec, n) => Ok (Some (rec, n))
                       | Err e => Err e
                       end.
Proof.
  intros [Hw Ho] Hoff. rewrite readFrame_reference by (done || lia). rewrite (proj2 (Z.leb_gt _ _)) by lia.
  specialize (Ho (Z.to_nat off)). set (rest := drop (Z.to_nat off) data) in *.
  assert (Hwr : wf_bytes rest) by (by apply Forall_drop). unfold read_reference.
  destruct (Z.leb_spec headerSize (zlen rest)) as [Hh|Hh]; cbn [andb].
  - destruct (Z.ltb_spec MaxRecordPayloadSize (fr_length rest)) as [Hm|Hm].
    + rewrite decodeFrameBytes_closed in * by done. unfold decode_closed in *.
      destruct (fr_version rest =? FormatVersion); cbn [negb] in *; [|done].
      destruct (zlen rest <? fr_need rest); [done|]. rewrite (proj2 (Z.ltb_lt _ _)) in Ho by done. done.
    + by destruct (decodeFrameBytes rest) as [[rec n]|e].
  - by destruct (decodeFrameBytes rest) as [[rec n]|e].
Qed.

Lemma scrub_record_agree sc ss f o r :
  agree sc ss →
  match scan_record sc r with
  | Ok sc' => agree sc' (scrub_record ss f o r)
  | Err _ => broken (scrub_record ss f o r)
  end.
Proof.
  intros [H1 H2 H3 H4]. unfold scan_record, scrub_record. destruct (r_Type r).
  - constructor; cbn; try done. by rewrite fmap_app, H1.
  - by constructor.
  - destruct (decodeMetadata (r_Payload r)) as [m|e]; [by constructor|apply report_broken].
Qed.

Lemma scrub_frames_agree fuel (cur : bool) f data off sc ss :
  no_oversized data → 0 ≤ off → agree sc ss →
  match scan_segment fuel data off sc with
  | Ok (sc', None) => agree sc' (scrub_frames fuel cur f data off ss)
  | Ok (sc', Some _) => if cur then agree sc' (scrub_frames fuel cur f data off ss) else broken (scrub_frames fuel cur f data off ss)
  | Err _ => broken (scrub_frames fuel cur f data off ss)
  end.
Proof.
  intros Hdata. revert off sc ss. induction fuel as [|fuel IH]; intros off sc ss Hoff Ha; [done|].
  cbn [scan_segment scrub_frames]. destruct (Z.leb_spec (zlen data) off) as [Hend|Hend].
  { unfold readFrame. by rewrite (proj2 (Z.leb_le _ _)). }
  rewrite read_or_decode by (done || lia).
  destruct (decodeFrameBytes (drop (Z.to_nat off) data)) as [[rec n]|e] eqn:E.
  - destruct (decode_frame_exact _ _ _ (Forall_drop _ _ _ (proj1 Hdata)) E) as (_ & _ & Hn & _).
    pose proof (scrub_record_agree sc (ss <| ss_FramesChecked := ss_FramesChecked ss + 1 |>) f off rec) as Hr.
    specialize (Hr ltac:(by destruct Ha; constructor)). cbv zeta.
    destruct (scan_record sc rec) as [sc'|e]; cbn [mbind result_bind].
    + apply IH; [|done]. unfold headerSize, checksumSize in Hn. lia.
    + by apply scrub_frames_broken.
  - case_bool_decide; [destruct cur; cbn [negb]; [done|apply report_broken]|apply report_broken].
Qed.

Lemma last_id_cons s d : d ≠ [] → last_id (s :: d) = last_id d.
Proof. unfold last_id. by destruct d. Qed.

Lemma last_id_elem d : d ≠ [] → last_id d ∈ seg_id <$> d.
Proof.
  intros Hd. unfold last_id. destruct (last d) as [s|] eqn:E; [|by apply last_None in E].
  apply list_elem_of_fmap. exists s. split; [done|]. by apply last_Some_elem_of.
Qed.

Lemma scrub_segments_agree d sc ss :
  Forall (λ s, no_oversized (seg_bytes s)) d → NoDup (seg_id <$> d) → agree sc ss →
  match scan_segments d sc with
  | Ok (sc', _) => agree sc' (foldl (scrub_segment (last_id d)) ss d)
  | Err _ => broken (foldl (scrub_segment (last_id d)) ss d)
  end.
Proof.
  intros Hd. revert sc ss. induction Hd as [|s d Hs Hd IH]; intros sc ss Hn Ha; [done|].
  rewrite fmap_cons in Hn. apply NoDup_cons in Hn as [Hnin Hn]. cbn [foldl scan_segments].
  set (ss1 := scrub_segment (last_id (s :: d)) ss s).
  assert (H1 : match scan_segment (S (length (seg_bytes s))) (seg_bytes s) 0 sc with
    | Ok (sc', None) => agree sc' ss1
    | Ok (sc', Some _) => if seg_id s =? last_id (s :: d) then agree sc' ss1 else broken ss1
    | Err _ => broken ss1 end).
  { unfold ss1, scrub_segment. cbv zeta. apply scrub_frames_agree; [done|done|]. by destruct Ha; constructor. }
  clearbody ss1. destruct (scan_segment _ _ _ _) as [[sc1 [off|]]|e]; rewrite ?bind_Ok; cbv beta iota.
  - destruct d as [|s' d].
    + change (last_id [s]) with (seg_id s) in *. rewrite Z.eqb_refl in H1. done.
    + rewrite last_id_cons in * by done.
      rewrite (proj2 (Z.eqb_neq _ _)) in H1; [by apply scrub_segments_broken|].
      intros E. apply Hnin. rewrite E. by apply last_id_elem.
  - destruct (decide (d = [])) as [->|Hne]; [done|]. rewrite last_id_cons by done.
    specialize (IH sc1 ss1 Hn H1). by destruct (scan_segments d sc1) as [[sc2 d2]|e].
  - cbn [mbind result_bind]. by apply scrub_segments_broken.
Qed.

Lemma contiguity_agree boundary last live lrs :
  contiguity_findings boundary last live false lrs = [] ↔
  is_Ok (check_contiguity boundary last live (sl_index <$> lrs)) = true.
Proof.
  revert last live. induction lrs as [|lr lrs IH]; intros last live; [done|].
  rewrite fmap_cons. cbn [contiguity_findings check_contiguity negb andb]. cbv zeta.
  destruct (sl_index lr <=? boundary); [apply IH|]. destruct live; cbn [negb].
  - destruct (sl_index lr =? (last + 1)%u64); cbn [negb app]; [apply IH|done].
  - destruct (sl_index lr =? (boundary + 1)%u64); cbn [negb app]; [apply IH|done].
Qed.

(** [Open]'s variable for the last live index starts at the boundary, the
    scrubber's at zero; neither is read before a live entry was met. *)
Lemma contiguity_start boundary l1 l2 idxs :
  is_Ok (check_contiguity boundary l1 false idxs) = is_Ok (check_contiguity boundary l2 false idxs).
Proof.
  induction idxs as [|i idxs IH]; [done|]. cbn [check_contiguity].
  destruct (i <=? boundary); [done|]. by destruct (negb (i =? _)).
Qed.

(** Recovery passes: every record reads, and the live indices are contiguous. *)
Definition recovers (d : Disk) : bool :=
  match scan_segments d (mkScan None [] []) with
  | Ok (sc, _) =>
      let b := match sc_meta sc with Some m => md_LatestSnapshotIndex m | None => 0 end in
      is_Ok (check_contiguity b b false (sc_logIndices sc))
  | Err _ => false
  end.

Lemma scrub_silent d :
  Forall (λ s, no_oversized (seg_bytes s)) d → NoDup (seg_id <$> d) →
  (WalScrub d).1 = [] ↔ recovers d = true.
Proof.
  intros Hd Hn. unfold WalScrub, recovers. cbn [fst]. cbv zeta.
  pose proof (scrub_segments_agree d (mkScan None [] []) (mkScrub [] 0 0 0 [] 0 false) Hd Hn) as Ha.
  specialize (Ha ltac:(by constructor)). destruct (scan_segments d _) as [[sc d']|e].
  - destruct Ha as [H1 H2 H3 H4]. rewrite H3, H4, H2. cbn [app]. unfold scrubIndexContiguityFindings.
    rewrite contiguity_agree, H1. by erewrite contiguity_start.
  - split; [|done]. intros H. apply app_eq_nil in H as [H _]. by apply Ha in H.
Qed.

Lemma open_recovers d nid maxsz :
  d ≠ [] →
  match Open d nid maxsz with
  | Ok _ => recovers d = true
  | Err e => recovers d = true → e = ErrNoMetadata ∨ e = ErrUnsupportedVersion ∨ e = ErrUnsupportedGeneration
  end.
Proof.
  intros Hd. destruct d as [|s d0]; [done|]. unfold Open, recovers. cbv zeta.
  destruct (scan_segments (s :: d0) (mkScan None [] [])) as [[sc d']|e]; [|done]. rewrite bind_Ok. cbv beta iota.
  unfold open_checks. destruct (sc_meta sc) as [m|]; [|cbn; auto].
  destruct (negb _); [cbn; auto|]. destruct (MaxSupportedGeneration <? _); [cbn; auto|].
  by destruct (check_contiguity _ _ _ _).
Qed.

Lemma scrub_frames_counts fuel cur f data o st :
  ss_SegmentsChecked (scrub_frames fuel cur f data o st) = ss_SegmentsChecked st ∧
  ss_BytesRead (scrub_frames fuel cur f data o st) = ss_BytesRead st.
Proof.
  revert o st. induction fuel as [|fuel IH]; intros o st; [done|]. cbn [scrub_frames].
  destruct (zlen data <=? o); [done|]. destruct (decodeFrameBytes _) as [[rec n]|e].
  - cbv zeta. edestruct IH as [-> ->]. unfold scrub_record. destruct (r_Type rec); [done|done|].
    by destruct (decodeMetadata (r_Payload rec)).
  - case_bool_decide; [by destruct cur|done].
Qed.

Lemma scrub_counts d :
  (WalScrub d).2.1.1 = zlen d ∧ (WalScrub d).2.2 = zlen (mjoin (seg_bytes <$> d)).
Proof.
  unfold WalScrub. cbv zeta. cbn [fst snd]. generalize (last_id d). intros cur.
  induction d as [|s d IH] using rev_ind; [done|]. rewrite foldl_app. cbn [foldl].
  destruct IH as [IH1 IH2]. unfold scrub_segment at 1 3. cbv zeta.
  match goal with |- context [scrub_frames ?n ?c ?f ?b ?o ?st] => destruct (scrub_frames_counts n c f b o st) as [-> ->] end.
  cbn [ss_SegmentsChecked ss_BytesRead modify set_ss_SegmentsChecked set_ss_BytesRead]. rewrite IH1, IH2.
  rewrite fmap_app, join_app, !zlen_app, zlen_cons, zlen_nil. cbn. rewrite app_nil_r. done.
Qed.


(** ** Witnesses *)

Definition demo_scrubbed_log : Disk :=
  [mkSegment 1 (encodeRecord RecordTypeMetadata 0 (encodeMetadata (mkMetadata [97] FormatVersion 0 0)) ++
                encodeRecord RecordTypeLogEntry 1 [7]) 0;
   mkSegment 2 (encodeRecord RecordTypeLogEntry 3 [8] ++ [1; 0]) 0].

(** Short segments hold no oversized frame. *)
Lemma short_segment_ok b : is_wf_bytes b = true → zlen b ≤ MaxRecordPayloadSize → no_oversized b.
Proof.
  intros Hw%wf_bytes_compute Hl. split; [done|]. intros off H.
  assert (Hwr : wf_bytes (drop off b)) by (by apply Forall_drop).
  assert (Hlr : zlen (drop off b) ≤ zlen b) by (unfold zlen; rewrite length_drop; lia).
  destruct (Z.ltb_spec (zlen (drop off b)) headerSize) as [Hh|Hh]; [by rewrite decode_no_header in H|].
  rewrite decodeFrameBytes_closed in H by done. unfold decode_closed in H. pose proof (fr_length_range _ Hwr).
  destruct (negb _); [done|]. destruct (Z.ltb_spec (zlen (drop off b)) (fr_need (drop off b))) as [|Hneed]; [done|].
  destruct (Z.ltb_spec MaxRecordPayloadSize (fr_length (drop off b))) as [Hm|Hm].
  - unfold fr_need, headerSize, checksumSize in Hneed. lia.
  - destruct (record_type_of _); [|done]. cbv zeta in H. by destruct (negb _).
Qed.

