(* ===== verification/Storage.v ===== *)
(** * Raft's durable storage ([internal/raft/storage.go],
    [internal/node/storage.go], [internal/fault/storage.go])

    [Storage] is the Go interface a Raft driver persists through, with its
    documented contract as laws over an abstract view: a hard state, a base
    index and the entries above it.  [WALStorage] implements it on the
    write-ahead log and [MemoryStorage] in memory, for deterministic fault
    injection.  The switch that makes [Append] drop entry types is set by
    tests only and is off here. *)

From S2P Require Import Prelude Bytes WalRecord Wal RaftTypes.

Inductive storage_error :=
| ErrWal (e : wal_error)
| ErrNonContiguousAppend
| ErrIndexMismatch
| ErrMalformedEntryPayload
| ErrUnknownEntryType
| ErrHardStatePayload
| ErrTruncateIndex
| errInjectedFault
| PanicSliceBounds.

(** ** Operations that may fail after a change

    A call returns the state it leaves together with its value or error. *)

Definition action (S A : Type) : Type := S → S * result storage_error A.

Definition then_ {S A B} (m : action S A) (f : A → action S B) : action S B :=
  λ s, match m s with
       | (s, Ok a) => f a s
       | (s, Err e) => (s, Err e)
       end.
Notation "x <- m ;; k" := (then_ m (λ x, k)) (at level 100, m at next level, right associativity).
Notation "m ;;; k" := (then_ m (λ _, k)) (at level 100, right associativity).

Definition done_ {S} : action S unit := λ s, (s, Ok tt).
Definition fail {S A} (e : storage_error) : action S A := λ s, (s, Err e).

Lemma then_ok {S A B} (m : action S A) (f : A → action S B) s s' b :
  then_ m f s = (s', Ok b) → ∃ s1 a, m s = (s1, Ok a) ∧ f a s1 = (s', Ok b).
Proof. unfold then_. destruct (m s) as [s1 [a|e]]; [by eauto|done]. Qed.

Lemma then_run {S A B} (m : action S A) (f : A → action S B) s s1 a :
  m s = (s1, Ok a) → then_ m f s = f a s1.
Proof. unfold then_. by intros ->. Qed.

(** ** The interface *)

Class Storage (S : Type) := {
  InitialState : S → HardState;
  SetHardState : HardState → action S unit;
  StEntries : S → Z → Z → list Entry;
  LastIndex : S → Z;
  StTruncate : Z → action S unit;
  StAppend : list Entry → action S unit
}.

Definition ApplyPersistRequest {S} `{Storage S} (pr : option PersistRequest) : action S unit :=
  match pr with
  | None => done_
  | Some pr =>
      (if negb (pr_TruncateFrom pr =? 0) then StTruncate (pr_TruncateFrom pr) else done_);;;
      (if negb (zlen (pr_Entries pr) =? 0) then StAppend (pr_Entries pr) else done_);;;
      match pr_HardState pr with Some hs => SetHardState hs | None => done_ end
  end.

(** ** The contract *)

Record view := mkView { v_hs : HardState; v_base : Z; v_entries : list Entry }.

(** Consecutive indices from [i]. *)
Definition indexed_from (i : Z) (es : list Entry) : Prop :=
  ∀ k e, es !! k = Some e → e_Index e = i + Z.of_nat k.

Definition view_truncate (from : Z) (v : view) : view :=
  mkView (v_hs v) (v_base v) (take (Z.to_nat (from - 1 - v_base v)) (v_entries v)).
Definition view_append (es : list Entry) (v : view) : view :=
  mkView (v_hs v) (v_base v) (v_entries v ++ es).
Definition view_hard_state (hs : HardState) (v : view) : view :=
  mkView hs (v_base v) (v_entries v).

(** What a persist request asks of a view. *)
Definition view_persist (pr : option PersistRequest) (v : view) : view :=
  match pr with
  | None => v
  | Some pr =>
      let v := if negb (pr_TruncateFrom pr =? 0) then view_truncate (pr_TruncateFrom pr) v else v in
      let v := view_append (pr_Entries pr) v in
      match pr_HardState pr with Some hs => view_hard_state hs v | None => v end
  end.

(** What Go's types guarantee: terms have 64 bits and bytes 8. *)
Definition entry_wf (e : Entry) : Prop := is_u64 (e_Term e) ∧ wf_bytes (e_Data e).
Definition hard_state_wf (hs : HardState) : Prop :=
  is_u64 (hs_CurrentTerm hs) ∧ wf_bytes (hs_VotedFor hs) ∧ zlen (hs_VotedFor hs) < 2 ^ 32.

(** Indices stay within Go's [int]. *)
Definition view_fits (v : view) (n : Z) : Prop := v_base v + zlen (v_entries v) + n + 1 < 2 ^ 63.

(** A storage keeps its contract if every call that succeeds changes the view
    as documented. *)
Class StorageLaws (S : Type) `{Storage S} := {
  st_valid : S → Prop;
  st_view : S → view;
  law_initial : ∀ s, st_valid s → InitialState s = v_hs (st_view s);
  law_indexed : ∀ s, st_valid s →
    0 ≤ v_base (st_view s) ∧ indexed_from (v_base (st_view s) + 1) (v_entries (st_view s)) ∧
    view_fits (st_view s) 0;
  law_last : ∀ s, st_valid s → LastIndex s = v_base (st_view s) + zlen (v_entries (st_view s));
  law_entries : ∀ s lo hi, st_valid s → is_u64 lo → is_u64 hi →
    StEntries s lo hi = filter (λ e, lo ≤ e_Index e < hi) (v_entries (st_view s));
  law_hard_state : ∀ s hs s', st_valid s → hard_state_wf hs → SetHardState hs s = (s', Ok tt) →
    st_valid s' ∧ st_view s' = view_hard_state hs (st_view s);
  law_truncate : ∀ s from s', st_valid s → v_base (st_view s) < from ≤ v_base (st_view s) + zlen (v_entries (st_view s)) + 1 →
    StTruncate from s = (s', Ok tt) → st_valid s' ∧ st_view s' = view_truncate from (st_view s);
  law_append : ∀ s es s', st_valid s → Forall entry_wf es → view_fits (st_view s) (zlen es) →
    StAppend es s = (s', Ok tt) →
    st_valid s' ∧ st_view s' = view_append es (st_view s)
}.

(** A request that a driver may be asked to persist. *)
Definition persist_ok (v : view) (pr : option PersistRequest) : Prop :=
  match pr with
  | None => True
  | Some pr =>
      (pr_TruncateFrom pr = 0 ∨ v_base v < pr_TruncateFrom pr ≤ v_base v + zlen (v_entries v) + 1) ∧
      Forall entry_wf (pr_Entries pr) ∧ view_fits v (zlen (pr_Entries pr)) ∧
      (∀ hs, pr_HardState pr = Some hs → hard_state_wf hs)
  end.

(** The driver's persistence step, for every storage that keeps the
    contract. *)
Lemma apply_persist_view {S} `{StorageLaws S} s pr s' :
  st_valid s → persist_ok (st_view s) pr → ApplyPersistRequest pr s = (s', Ok tt) →
  st_valid s' ∧ st_view s' = view_persist pr (st_view s).
Proof.
  intros Hv Hok Ha. destruct pr as [pr|]; cbn in *; [|by injection Ha as <-].
  apply then_ok in Ha as (s1 & [] & H1 & Ha). apply then_ok in Ha as (s2 & [] & H2 & H3).
  assert (st_valid s1 ∧ st_view s1 =
    if negb (pr_TruncateFrom pr =? 0) then view_truncate (pr_TruncateFrom pr) (st_view s) else st_view s)
    as [Hv1 E1].
  { destruct (Z.eqb_spec (pr_TruncateFrom pr) 0); cbn [negb] in *; [by injection H1 as <-|].
    destruct Hok as ([|Hok] & _); [done|]. by apply law_truncate. }
  assert (st_valid s2 ∧ st_view s2 = view_append (pr_Entries pr) (st_view s1)) as [Hv2 E2].
  { destruct (Z.eqb_spec (zlen (pr_Entries pr)) 0) as [Hz|]; cbn [negb] in *.
    2: { apply law_append; [done|apply Hok| |done]. rewrite E1. destruct Hok as (_ & _ & Hf & _).
         case_match; [|done]. unfold view_fits, view_truncate, zlen in *. cbn. rewrite length_take. lia. }
    injection H2 as <-. split; [done|]. destruct (pr_Entries pr); [|done].
    unfold view_append. rewrite app_nil_r. by destruct (st_view s1). }
  rewrite <- E1, <- E2. destruct (pr_HardState pr); [|by injection H3 as <-].
  apply law_hard_state; [done| |done]. by apply Hok.
Qed.

(** ** Payloads of the log's records *)

Definition entryPayloadTypeSentinel : Z := 255.

Definition entry_type_byte (t : EntryType) : Z := match t with EntryNormal => 0 | EntryConfig => 1 end.

Definition encodeEntryPayload (term : Z) (typ : EntryType) (data : bytes) : bytes :=
  match typ with
  | EntryNormal => put_u64 term ++ data
  | _ => put_u64 term ++ [entryPayloadTypeSentinel; entry_type_byte typ] ++ data
  end.

Definition decodeEntryPayload (b : bytes) : result storage_error (Z * EntryType * bytes) :=
  if zlen b <? 8 then Err ErrMalformedEntryPayload else
  let term := get_u64 b in
  if (10 <=? zlen b) && (nth 8 b 0 =? entryPayloadTypeSentinel) then
    if nth 9 b 0 =? entry_type_byte EntryConfig then Ok (term, EntryConfig, drop 10 b)
    else Err ErrUnknownEntryType
  else Ok (term, EntryNormal, drop 8 b).

Definition encodeHardState (hs : HardState) : bytes :=
  put_u64 (hs_CurrentTerm hs) ++ put_u32 (u32 (zlen (hs_VotedFor hs))) ++ hs_VotedFor hs.

Definition decodeHardState (b : bytes) : result storage_error HardState :=
  if zlen b <? 12 then Err ErrHardStatePayload else
  let term := get_u64 b in
  let idLen := get_u32 (drop 8 b) in
  if zlen b - 12 <? idLen then Err ErrHardStatePayload else
  Ok (mkHardState term (take (Z.to_nat idLen) (drop 12 b))).

(** ** Storage on the write-ahead log *)

Record WALStorage := mkWALStorage {
  ws_w : WAL;
  ws_hs : HardState;
  ws_baseIndex : Z;
  ws_entries : list Entry
}.

(** A call on the log below. *)
Definition on_wal {A} (f : WAL → result wal_error (WAL * A)) : action WALStorage A := λ s,
  match f (ws_w s) with
  | Ok (w, a) => (mkWALStorage w (ws_hs s) (ws_baseIndex s) (ws_entries s), Ok a)
  | Err e => (s, Err (ErrWal e))
  end.
Definition on_wal_ (f : WAL → result wal_error WAL) : action WALStorage unit :=
  on_wal (λ w, w ← f w; Ok (w, tt)).

Definition set_mirror (hs : HardState) (base : Z) (es : list Entry) : action WALStorage unit := λ s,
  (mkWALStorage (ws_w s) hs base es, Ok tt).

Fixpoint decode_entries (rs : list Record_) : result storage_error (list Entry) :=
  match rs with
  | [] => Ok []
  | r :: rs =>
      '(term, typ, data) ← decodeEntryPayload (r_Payload r);
      es ← decode_entries rs;
      Ok (mkEntry (r_Index r) term typ data :: es)
  end.

Definition OpenWALStorage (w : WAL) : result storage_error WALStorage :=
  hs ← (if bool_decide (LatestHardState w = []) then Ok (mkHardState 0 noVote)
        else decodeHardState (LatestHardState w));
  match Replay w (FirstIndex w) with
  | Err e => Err (ErrWal e)
  | Ok (rs, e) =>
      es ← decode_entries rs;
      match e with
      | Some e => Err (ErrWal e)
      | None => Ok (mkWALStorage w hs (FirstIndex w - 1)%u64 es)
      end
  end.

Definition ws_SetHardState (hs : HardState) : action WALStorage unit :=
  on_wal_ (λ w, AppendHardState w (encodeHardState hs));;;
  on_wal_ Sync;;;
  λ s, set_mirror hs (ws_baseIndex s) (ws_entries s) s.

Definition Reaffirm : action WALStorage unit := λ s, ws_SetHardState (ws_hs s) s.

Definition ws_Compact (uptoIndex : Z) (s : WALStorage) : WALStorage :=
  if uptoIndex <=? ws_baseIndex s then s else
  let pos := (uptoIndex - ws_baseIndex s)%u64 in
  let pos := if zlen (ws_entries s) <? pos then zlen (ws_entries s) else pos in
  mkWALStorage (ws_w s) (ws_hs s) uptoIndex (drop (Z.to_nat pos) (ws_entries s)).

Definition InstallSnapshot (uptoIndex : Z) : action WALStorage unit :=
  on_wal_ (λ w, AppendMetadataSnapshot w uptoIndex);;;
  Reaffirm;;;
  on_wal_ (λ w, Truncate w (uptoIndex + 1)%u64);;;
  on_wal_ (λ w, CompactBefore w uptoIndex);;;
  λ s, set_mirror (ws_hs s) uptoIndex [] s.

Definition ws_LastIndex (s : WALStorage) : Z := (ws_baseIndex s + u64 (zlen (ws_entries s)))%u64.

Definition ws_Entries (s : WALStorage) (lo hi : Z) : list Entry :=
  let base := ws_baseIndex s in
  let lo := if lo <? (base + 1)%u64 then (base + 1)%u64 else lo in
  let maxHi := u64 (base + zlen (ws_entries s) + 1) in
  let hi := if maxHi <? hi then maxHi else hi in
  if hi <=? lo then []
  else take (Z.to_nat (hi - lo)) (drop (Z.to_nat (lo - base - 1)) (ws_entries s)).

(** [pos] is unsigned: the code's test [pos < 0] is never true. *)
Definition ws_Truncate (fromIndex : Z) : action WALStorage unit :=
  on_wal_ (λ w, Truncate w fromIndex);;;
  λ s,
    let pos := u64 (fromIndex - ws_baseIndex s - 1) in
    if pos <? zlen (ws_entries s)
    then set_mirror (ws_hs s) (ws_baseIndex s) (take (Z.to_nat pos) (ws_entries s)) s
    else (s, Ok tt).

Fixpoint contiguous (want : Z) (es : list Entry) : bool :=
  match es with
  | [] => true
  | e :: es => (e_Index e =? want) && contiguous (want + 1)%u64 es
  end.

Fixpoint append_records (es : list Entry) : action WALStorage unit :=
  match es with
  | [] => done_
  | e :: es =>
      idx <- on_wal (λ w, AppendLogEntry w (encodeEntryPayload (e_Term e) (e_Type e) (e_Data e)));;
      if negb (e_Index e =? idx) then fail ErrIndexMismatch else append_records es
  end.

Definition ws_Append (entries : list Entry) : action WALStorage unit := λ s,
  if zlen entries =? 0 then (s, Ok tt) else
  if negb (contiguous (u64 (ws_baseIndex s + zlen (ws_entries s) + 1)) entries)
  then (s, Err ErrNonContiguousAppend) else
  (append_records entries;;;
   on_wal_ Sync;;;
   λ s, set_mirror (ws_hs s) (ws_baseIndex s) (ws_entries s ++ entries) s) s.

#[export] Instance wal_storage : Storage WALStorage := {
  InitialState := ws_hs;
  SetHardState := ws_SetHardState;
  StEntries := ws_Entries;
  LastIndex := ws_LastIndex;
  StTruncate := ws_Truncate;
  StAppend := ws_Append
}.

(** ** Storage in memory *)

Record MemoryStorage := mkMemoryStorage {
  ms_hs : HardState;
  ms_entries : list Entry;
  ms_failAppends : Z;
  ms_failSetHardState : Z;
  ms_failTruncate : Z
}.

Definition NewMemoryStorage : MemoryStorage := mkMemoryStorage (mkHardState 0 noVote) [] 0 0 0.

Definition FailNextAppends (n : Z) (s : MemoryStorage) : MemoryStorage :=
  mkMemoryStorage (ms_hs s) (ms_entries s) n (ms_failSetHardState s) (ms_failTruncate s).
Definition FailNextSetHardState (n : Z) (s : MemoryStorage) : MemoryStorage :=
  mkMemoryStorage (ms_hs s) (ms_entries s) (ms_failAppends s) n (ms_failTruncate s).
Definition FailNextTruncate (n : Z) (s : MemoryStorage) : MemoryStorage :=
  mkMemoryStorage (ms_hs s) (ms_entries s) (ms_failAppends s) (ms_failSetHardState s) n.

Definition ms_SetHardState (hs : HardState) : action MemoryStorage unit := λ s,
  if 0 <? ms_failSetHardState s
  then (FailNextSetHardState (ms_failSetHardState s - 1) s, Err errInjectedFault)
  else (mkMemoryStorage hs (ms_entries s) (ms_failAppends s) (ms_failSetHardState s) (ms_failTruncate s), Ok tt).

Definition ms_Entries (s : MemoryStorage) (lo hi : Z) : list Entry :=
  let lo := if lo <? 1 then 1 else lo in
  let maxHi := u64 (zlen (ms_entries s) + 1) in
  let hi := if maxHi <? hi then maxHi else hi in
  if hi <=? lo then []
  else take (Z.to_nat (hi - lo)) (drop (Z.to_nat (lo - 1)) (ms_entries s)).

Definition with_entries (es : list Entry) (s : MemoryStorage) : MemoryStorage :=
  mkMemoryStorage (ms_hs s) es (ms_failAppends s) (ms_failSetHardState s) (ms_failTruncate s).

Definition ms_Truncate (fromIndex : Z) : action MemoryStorage unit := λ s,
  if 0 <? ms_failTruncate s
  then (FailNextTruncate (ms_failTruncate s - 1) s, Err errInjectedFault)
  else if fromIndex <? 1 then (s, Err ErrTruncateIndex)
  else if i64 (fromIndex - 1) <? 0 then (s, Err PanicSliceBounds)
  else if fromIndex - 1 <? zlen (ms_entries s)
  then (with_entries (take (Z.to_nat (fromIndex - 1)) (ms_entries s)) s, Ok tt)
  else (s, Ok tt).

Definition ms_Append (entries : list Entry) : action MemoryStorage unit := λ s,
  if 0 <? ms_failAppends s
  then (FailNextAppends (ms_failAppends s - 1) s, Err errInjectedFault)
  else if negb (contiguous (u64 (zlen (ms_entries s) + 1)) entries)
  then (s, Err ErrNonContiguousAppend)
  else (with_entries (ms_entries s ++ entries) s, Ok tt).

#[export] Instance memory_storage : Storage MemoryStorage := {
  InitialState := ms_hs;
  SetHardState := ms_SetHardState;
  StEntries := ms_Entries;
  LastIndex := λ s, u64 (zlen (ms_entries s));
  StTruncate := ms_Truncate;
  StAppend := ms_Append
}.
