(* ===== verification/StorageSpec.v ===== *)
(** * Both storages keep the contract

    The in-memory storage and the storage on the write-ahead log satisfy the
    laws of [Storage]: every call that succeeds changes the view of the log
    and of the hard state exactly as documented.  The write-ahead log keeps
    its live half of the invariant for this ([live]); what a restart reads
    back is the subject of the theorems at the end. *)

From S2P Require Import Prelude Bytes Hash WalRecord Wal WalSpec RaftTypes Storage.

(** ** Lists of consecutive entries *)

Lemma indexed_cons b e es : indexed_from b (e :: es) ↔ e_Index e = b ∧ indexed_from (b + 1) es.
Proof.
  split.
  - intros H. split; [rewrite (H 0%nat e eq_refl); lia|].
    intros k x Hx. rewrite (H (S k) x Hx). lia.
  - intros [H1 H2] [|k] x Hx; [injection Hx as <-; lia|]. rewrite (H2 k x Hx). lia.
Qed.

Lemma indexed_app b es es' :
  indexed_from b (es ++ es') ↔ indexed_from b es ∧ indexed_from (b + zlen es) es'.
Proof.
  revert b. induction es as [|e es IH]; intros b.
  { rewrite zlen_nil, Z.add_0_r. split; [intros H; split; [done|done]|intros [_ H]; done]. }
  rewrite <- app_comm_cons, !indexed_cons, IH, zlen_cons.
  replace (b + (1 + zlen es)) with (b + 1 + zlen es) by lia. tauto.
Qed.

Lemma indexed_take b es n : indexed_from b es → indexed_from b (take n es).
Proof. intros H. rewrite <- (take_drop n es) in H. by apply indexed_app in H as [? _]. Qed.

Lemma indexed_filter b es lo hi :
  indexed_from b es →
  filter (λ e, lo ≤ e_Index e < hi) es = take (Z.to_nat (hi - Z.max lo b)) (drop (Z.to_nat (lo - b)) es).
Proof.
  revert b. induction es as [|e es IH]; intros b Hi.
  { rewrite drop_nil, take_nil. done. }
  apply indexed_cons in Hi as [He Hi]. rewrite filter_cons, (IH _ Hi), He.
  destruct (decide (lo ≤ b < hi)) as [Hb|Hb].
  - replace (Z.to_nat (lo - b)) with 0%nat by lia. replace (Z.to_nat (lo - (b + 1))) with 0%nat by lia.
    replace (Z.to_nat (hi - Z.max lo b)) with (S (Z.to_nat (hi - Z.max lo (b + 1)))) by lia. done.
  - destruct (decide (b < lo)).
    + replace (Z.to_nat (lo - b)) with (S (Z.to_nat (lo - (b + 1)))) by lia. cbn [drop].
      do 2 f_equal. lia.
    + replace (Z.to_nat (hi - Z.max lo b)) with 0%nat by lia.
      replace (Z.to_nat (hi - Z.max lo (b + 1))) with 0%nat by lia. done.
Qed.

Lemma contiguous_indexed want es :
  0 ≤ want → want + zlen es < 2 ^ 64 → contiguous want es = true → indexed_from want es.
Proof.
  revert want. induction es as [|e es IH]; intros want H0 Hf Hc; [intros k x Hx; done|].
  rewrite zlen_cons in Hf. pose proof (zlen_nonneg es). cbn in Hc. bool_to_prop.
  rewrite u64_small in * by (unfold is_u64; lia).
  apply indexed_cons. split; [done|]. apply IH; [lia|lia|done].
Qed.

Lemma indexed_contiguous want es :
  0 ≤ want → want + zlen es < 2 ^ 64 → indexed_from want es → contiguous want es = true.
Proof.
  revert want. induction es as [|e es IH]; intros want H0 Hf Hc; [done|].
  rewrite zlen_cons in Hf. pose proof (zlen_nonneg es). apply indexed_cons in Hc as [He Hc]. cbn.
  rewrite He, Z.eqb_refl, u64_small by (unfold is_u64; lia). apply IH; [lia|lia|done].
Qed.

(** The window computed by both implementations of [Entries]. *)
Lemma entries_window base es lo hi :
  0 ≤ base → base + zlen es + 1 < 2 ^ 63 → is_u64 lo → is_u64 hi → indexed_from (base + 1) es →
  (let lo := if lo <? base + 1 then base + 1 else lo in
   let maxHi := base + zlen es + 1 in
   let hi := if maxHi <? hi then maxHi else hi in
   if hi <=? lo then [] else take (Z.to_nat (hi - lo)) (drop (Z.to_nat (lo - base - 1)) es)) =
  filter (λ e, lo ≤ e_Index e < hi) es.
Proof.
  intros Hb Hf Hlo Hhi Hi. rewrite (indexed_filter _ _ lo hi Hi). cbv zeta.
  assert (Hlo' : (if lo <? base + 1 then base + 1 else lo) = Z.max lo (base + 1)).
  { destruct (Z.ltb_spec lo (base + 1)); lia. }
  rewrite Hlo'. replace (Z.to_nat (lo - (base + 1))) with (Z.to_nat (Z.max lo (base + 1) - base - 1)) by lia.
  set (lo' := Z.max lo (base + 1)). destruct (Z.ltb_spec (base + zlen es + 1) hi) as [H1|H1].
  - destruct (Z.leb_spec (base + zlen es + 1) lo') as [H2|H2].
    + rewrite drop_ge, take_nil; [done|]. unfold zlen in *. lia.
    + rewrite !take_ge; [done| |]; rewrite length_drop; unfold zlen in *; lia.
  - destruct (Z.leb_spec hi lo'); [|done]. by replace (Z.to_nat (hi - lo')) with 0%nat by lia.
Qed.

(** ** The storage in memory *)

Definition ms_valid (s : MemoryStorage) : Prop :=
  indexed_from 1 (ms_entries s) ∧ zlen (ms_entries s) + 1 < 2 ^ 63.
Definition ms_view (s : MemoryStorage) : view := mkView (ms_hs s) 0 (ms_entries s).

#[export, refine] Instance memory_laws : StorageLaws MemoryStorage := {
  st_valid := ms_valid;
  st_view := ms_view
}.
Proof.
  - done.
  - intros s [H1 H2]. unfold view_fits. cbn. split; [done|]. split; [done|lia].
  - intros s [_ Hf]. cbn. pose proof (zlen_nonneg (ms_entries s)). apply u64_small. unfold is_u64. lia.
  - intros s lo hi [Hi Hf] Hlo Hhi. cbn. rewrite <- (entries_window 0) by (done || lia). cbv zeta.
    unfold ms_Entries. pose proof (zlen_nonneg (ms_entries s)). rewrite u64_small by (unfold is_u64; lia).
    rewrite !Z.add_0_l. repeat case_if; rewrite ?Z.sub_0_r; done.
  - intros s hs s' Hv _ H. cbn in *. unfold ms_SetHardState in H.
    destruct (0 <? ms_failSetHardState s); by simplify_eq.
  - intros s from s' [Hi Hf] Hfrom H. cbn in *. unfold ms_Truncate in H.
    destruct (0 <? ms_failTruncate s); [done|]. rewrite (proj2 (Z.ltb_ge from 1)) in H by lia.
    destruct (i64 (from - 1) <? 0); [done|]. unfold view_truncate, ms_view. cbn.
    replace (from - 1 - 0) with (from - 1) by lia.
    destruct (Z.ltb_spec (from - 1) (zlen (ms_entries s))); simplify_eq.
    + split; [|done]. split; cbn; [by apply indexed_take|]. unfold zlen in *. rewrite length_take. lia.
    + split; [done|]. rewrite take_ge by (unfold zlen in *; lia). done.
  - intros s es s' [Hi Hf] _ Hfit H. cbn in *. unfold view_fits in Hfit. cbn in Hfit. unfold ms_Append in H.
    destruct (0 <? ms_failAppends s); [done|]. pose proof (zlen_nonneg (ms_entries s)).
    rewrite u64_small in H by (unfold is_u64; lia).
    destruct (contiguous _ es) eqn:E; [|done]. cbn in H. simplify_eq. split; [|done].
    split; cbn; [|rewrite zlen_app; lia]. apply indexed_app. split; [done|].
    apply contiguous_indexed; [lia|lia|]. rewrite <- E. f_equal. lia.
Defined.

(** ** The live half of the log's invariant *)

Abbreviation snap_of w := (md_LatestSnapshotIndex (w_metadata w)).

(** Memory and disk agree on the log entries, whatever a restart would make
    of the metadata and hard-state records. *)
Record live (w : WAL) (rs : list Record_) : Prop := {
  lv_open : w_closed w = false;
  lv_snap : 0 ≤ snap_of w;
  lv_next : snap_of w + 1 ≤ w_nextLogIndex w < 2 ^ 64;
  lv_below : Forall (λ i, 0 < i < w_nextLogIndex w) (log_indices rs);
  lv_live : filter (λ i, snap_of w < i) (log_indices rs) =
    seqZ (snap_of w + 1) (w_nextLogIndex w - 1 - snap_of w);
  lv_layout : layout (w_disk w) (w_current w) rs
}.

Lemma wal_inv_live w base rs : wal_inv w base rs → live w rs.
Proof. intros [Ho Hh _ Hl]. apply hist_has_facts in Hh as []. by constructor. Qed.

Lemma seqZ_cut a i b m n : a ++ i :: b = seqZ m n → a = seqZ m (i - m) ∧ m ≤ i < m + n.
Proof.
  intros H. assert (Hi : seqZ m n !! length a = Some i).
  { rewrite <- H. by apply list_lookup_middle. }
  apply lookup_seqZ in Hi as [-> Hlt]. split; [|lia].
  assert (Ht : a = take (length a) (seqZ m n)) by (by rewrite <- H, take_app_length).
  rewrite Ht at 1. replace n with (Z.of_nat (length a) + (n - Z.of_nat (length a))) by lia.
  rewrite seqZ_app, take_app_le, take_ge by (rewrite ?length_seqZ; lia). f_equal. lia.
Qed.

(** The entries a reader sees. *)
Lemma served_indices from rs : r_Index <$> served from rs = filter (λ i, from ≤ i) (log_indices rs).
Proof.
  unfold served, log_indices. induction rs as [|r rs IH]; [done|].
  rewrite filter_cons. cbn. case_bool_decide as Ht.
  - rewrite filter_cons. case_decide as H1; case_decide as H2; cbn; [by rewrite IH|naive_solver..|done].
  - rewrite decide_False by naive_solver. done.
Qed.

Lemma live_served w rs : live w rs →
  r_Index <$> served (snap_of w + 1) rs = seqZ (snap_of w + 1) (w_nextLogIndex w - 1 - snap_of w).
Proof.
  intros []. rewrite served_indices, <- lv_live0. apply list_filter_iff. intros i. lia.
Qed.

Lemma live_append_log w rs p :
  live w rs → payload_ok p → w_nextLogIndex w + 1 < 2 ^ 64 →
  ∃ w', AppendLogEntry w p = Ok (w', w_nextLogIndex w) ∧ live w' (rs ++ [log_rec (w_nextLogIndex w) p]) ∧
    snap_of w' = snap_of w ∧ w_nextLogIndex w' = w_nextLogIndex w + 1 ∧ w_metadata w' = w_metadata w ∧
    w_latestHardState w' = w_latestHardState w ∧ w_firstLogIndex w' = w_firstLogIndex w.
Proof.
  intros [Ho Hs Hn Hb Hl Hy] Hp Hlt. unfold AppendLogEntry. rewrite Ho.
  destruct (appendLocked_layout w RecordTypeLogEntry p rs Hy Hp) as (w' & -> & [Sm Sn Sf Sh Sc] & Hl');
    [unfold is_u64; lia|done|]. rewrite bool_decide_true in Hl' by done. rewrite bind_Ok.
  rewrite u64_small by (unfold is_u64; lia). eexists. split; [reflexivity|].
  split; [|cbn; split; [by rewrite Sm|split; [done|by split]]].
  constructor; cbn; rewrite ?Sm; [congruence|done|lia| | |done].
  - rewrite log_indices_snoc_log. apply Forall_app_2; [|constructor; [lia|done]].
    eapply Forall_impl; [done|]. cbn. intros; lia.
  - rewrite log_indices_snoc_log, filter_app, Hl, filter_cons_True by lia.
    replace (w_nextLogIndex w + 1 - 1 - snap_of w) with ((w_nextLogIndex w - 1 - snap_of w) + 1) by lia.
    rewrite seqZ_app by lia. f_equal. rewrite seqZ_cons by lia. rewrite seqZ_nil by lia.
    cbn. f_equal. lia.
Qed.

Lemma live_append_hs w rs p :
  live w rs → payload_ok p →
  ∃ w', AppendHardState w p = Ok w' ∧ live w' (rs ++ [hs_rec p]) ∧ w_metadata w' = w_metadata w ∧
    w_nextLogIndex w' = w_nextLogIndex w ∧ w_latestHardState w' = p ∧ w_firstLogIndex w' = w_firstLogIndex w.
Proof.
  intros [Ho Hs Hn Hb Hl Hy] Hp. unfold AppendHardState. rewrite Ho.
  destruct (appendLocked_layout w RecordTypeHardState p rs Hy Hp) as (w' & -> & [Sm Sn Sf Sh Sc] & Hl');
    [unfold is_u64; lia|done|]. rewrite bool_decide_false in Hl' by done. rewrite bind_Ok.
  eexists. split; [reflexivity|]. split; [|done].
  constructor; cbn; rewrite ?Sm, ?Sn; rewrite ?log_indices_snoc_other by done;
    [congruence|done|lia|done|done|done].
Qed.

Lemma live_sync w rs : live w rs → Sync w = Ok (sync_current w) ∧ live (sync_current w) rs.
Proof.
  intros [Ho Hs Hn Hb Hl Hy]. unfold Sync. rewrite Ho. split; [done|].
  constructor; [done..|by apply layout_sync].
Qed.

Lemma log_indices_app a b : log_indices (a ++ b) = log_indices a ++ log_indices b.
Proof. apply omap_app. Qed.

Lemma live_truncate w rs i :
  live w rs → snap_of w < i < w_nextLogIndex w →
  ∃ pre p post w', rs = pre ++ log_rec i p :: post ∧ Truncate w i = Ok w' ∧ truncated w i pre w' ∧ live w' pre.
Proof.
  intros Hlv Hi. pose proof Hlv as [Ho Hs Hn Hb Hl Hy].
  destruct (split_at_log rs i) as (pre & p & post & -> & Hpre).
  { assert (Hin : i ∈ filter (λ j, snap_of w < j) (log_indices rs)) by (rewrite Hl; apply elem_of_seqZ; lia).
    by apply list_elem_of_filter in Hin as [_ ?]. }
  destruct (truncate_layout w _ i pre p post Ho Hy) as (w' & HT & Htr); [lia|lia|done|done|].
  exists pre, p, post, w'. split; [done|]. split; [done|]. split; [done|].
  destruct Htr as [Hlay Hnx (Hm & Hfi & Hhs & Hcl) _].
  rewrite log_indices_app in Hb, Hl.
  change (log_indices (log_rec i p :: post)) with (i :: log_indices post) in Hb, Hl. rewrite filter_app, filter_cons_True in Hl by lia.
  apply seqZ_cut in Hl as [Hl _]. apply Forall_app in Hb as [Hb _].
  constructor; rewrite ?Hm, ?Hnx; [congruence|done|lia| | |done].
  - apply Forall_forall. intros j Hj. rewrite Forall_forall in Hb. specialize (Hb j Hj). cbn in Hb.
    destruct (decide (snap_of w < j)) as [Hsj|]; [|lia].
    assert (Hin : j ∈ filter (λ j, snap_of w < j) (log_indices pre)) by (by apply list_elem_of_filter).
    rewrite Hl in Hin. apply elem_of_seqZ in Hin. lia.
  - rewrite Hl. f_equal. lia.
Qed.

Lemma truncate_end w rs i w' : live w rs → Truncate w i = Ok w' → i = w_nextLogIndex w → w' = w.
Proof.
  intros [] HT ->. unfold Truncate in HT.
  rewrite lv_open0, (proj2 (Z.ltb_ge _ _)), (proj2 (Z.leb_le _ _)) in HT by lia.
  rewrite (proj2 (Z.ltb_ge _ _)) in HT by lia. by injection HT.
Qed.

(** ** The storage on the log *)

Definition entry_record (e : Entry) : Record_ :=
  log_rec (e_Index e) (encodeEntryPayload (e_Term e) (e_Type e) (e_Data e)).

(** The mirror in memory is what the log serves. *)
Record ws_rel (s : WALStorage) (rs : list Record_) : Prop := {
  wr_live : live (ws_w s) rs;
  wr_base : ws_baseIndex s = snap_of (ws_w s);
  wr_entries : served (snap_of (ws_w s) + 1) rs = entry_record <$> ws_entries s;
  wr_fits : snap_of (ws_w s) + zlen (ws_entries s) + 1 < 2 ^ 63
}.

Definition ws_valid (s : WALStorage) : Prop := ∃ rs, ws_rel s rs.
Definition ws_view (s : WALStorage) : view := mkView (ws_hs s) (ws_baseIndex s) (ws_entries s).

Lemma encodeEntryPayload_wf e : wf_bytes (e_Data e) → wf_bytes (r_Payload (entry_record e)).
Proof.
  intros H. cbn. unfold encodeEntryPayload. destruct (e_Type e); apply Forall_app_2; try apply wf_be_put; [done|].
  by constructor; [|constructor; [|]].
Qed.

Lemma fmap_indices (es : list Entry) : r_Index <$> (entry_record <$> es) = e_Index <$> es.
Proof. induction es as [|e es IH]; [done|]. cbn. by f_equal. Qed.

Lemma indexed_seqZ b es n : e_Index <$> es = seqZ b n → indexed_from b es ∧ zlen es = Z.max 0 n.
Proof.
  intros H. split.
  - intros k e He. assert (Hk : seqZ b n !! k = Some (e_Index e)) by (rewrite <- H, list_lookup_fmap, He; done).
    apply lookup_seqZ in Hk as [-> _]. done.
  - apply (f_equal length) in H. rewrite length_fmap, length_seqZ in H. unfold zlen. lia.
Qed.

Lemma ws_rel_indexed s rs :
  ws_rel s rs → 0 ≤ ws_baseIndex s ∧ indexed_from (ws_baseIndex s + 1) (ws_entries s) ∧
    w_nextLogIndex (ws_w s) = ws_baseIndex s + zlen (ws_entries s) + 1.
Proof.
  intros [Hl Hb He Hf]. pose proof (live_served _ _ Hl) as Hs. rewrite He, fmap_indices in Hs.
  apply indexed_seqZ in Hs as [Hi Hz]. destruct Hl. rewrite Hb. split; [done|]. split; [done|lia].
Qed.

Lemma append_too_large w p w' i : AppendLogEntry w p = Ok (w', i) → zlen p ≤ MaxRecordPayloadSize.
Proof.
  unfold AppendLogEntry, appendLocked. destruct (w_closed w); [done|].
  destruct (Z.ltb_spec MaxRecordPayloadSize (zlen p)); [done|]. lia.
Qed.

Lemma append_hs_too_large w p w' : AppendHardState w p = Ok w' → zlen p ≤ MaxRecordPayloadSize.
Proof.
  unfold AppendHardState, appendLocked. destruct (w_closed w); [done|].
  destruct (Z.ltb_spec MaxRecordPayloadSize (zlen p)); [done|]. lia.
Qed.

Lemma on_wal_ok {A} (f : WAL → result wal_error (WAL * A)) s s' a :
  on_wal f s = (s', Ok a) →
  ∃ w, f (ws_w s) = Ok (w, a) ∧ s' = mkWALStorage w (ws_hs s) (ws_baseIndex s) (ws_entries s).
Proof. unfold on_wal. destruct (f (ws_w s)) as [[w x]|]; intros H; simplify_eq; by eauto. Qed.

Lemma on_wal__ok f s s' :
  on_wal_ f s = (s', Ok tt) →
  ∃ w, f (ws_w s) = Ok w ∧ s' = mkWALStorage w (ws_hs s) (ws_baseIndex s) (ws_entries s).
Proof.
  unfold on_wal_. intros (w & H & ->)%on_wal_ok. destruct (f (ws_w s)) as [w'|]; [|done]. cbn in H. simplify_eq. by eauto.
Qed.

(** What a batch of appended records leaves. *)
Lemma append_records_live es s rs s' :
  live (ws_w s) rs → Forall entry_wf es → indexed_from (w_nextLogIndex (ws_w s)) es →
  w_nextLogIndex (ws_w s) + zlen es < 2 ^ 64 → append_records es s = (s', Ok tt) →
  live (ws_w s') (rs ++ (entry_record <$> es)) ∧ w_metadata (ws_w s') = w_metadata (ws_w s) ∧
    w_latestHardState (ws_w s') = w_latestHardState (ws_w s) ∧
    w_firstLogIndex (ws_w s') = w_firstLogIndex (ws_w s) ∧
    s' = mkWALStorage (ws_w s') (ws_hs s) (ws_baseIndex s) (ws_entries s).
Proof.
  revert s rs. induction es as [|e es IH]; intros s rs Hl Hwf Hi Hf Ha; cbn in Ha.
  { injection Ha as <-. cbn. rewrite app_nil_r. by destruct s. }
  apply indexed_cons in Hi as [He Hi]. apply Forall_cons in Hwf as [Hw Hwf]. rewrite zlen_cons in Hf.
  pose proof (zlen_nonneg es).
  apply then_ok in Ha as (s1 & idx & H1 & Ha). apply on_wal_ok in H1 as (w1 & H1 & ->).
  destruct (live_append_log _ _ (r_Payload (entry_record e)) Hl) as (w2 & H2 & Hl2 & _ & Hn2 & Hm2 & Hh2 & Hf2).
  { split; [apply encodeEntryPayload_wf, Hw|by eapply append_too_large]. }
  { lia. }
  cbn in H2. rewrite H1 in H2. injection H2 as -> ->. rewrite He, Z.eqb_refl in Ha. cbn in Ha.
  set (s1 := mkWALStorage w2 (ws_hs s) (ws_baseIndex s) (ws_entries s)) in *.
  destruct (IH s1 _ Hl2 Hwf) as (Hl' & Hm & Hh & Hfi & Hs'); [cbn; rewrite Hn2; done|cbn; lia|exact Ha|].
  subst s1. cbn in *. rewrite Hm, Hh, Hfi. split; [|done].
  rewrite <- app_assoc in Hl'. unfold entry_record at 1. rewrite He. exact Hl'.
Qed.

Lemma served_entry_records from es :
  Forall (λ e, from ≤ e_Index e) es → served from (entry_record <$> es) = entry_record <$> es.
Proof.
  intros H. apply filter_all. apply Forall_fmap. eapply Forall_impl; [exact H|]. done.
Qed.

Lemma indexed_ge b es : indexed_from b es → Forall (λ e, b ≤ e_Index e) es.
Proof. intros H. apply Forall_lookup_2. intros k e He. rewrite (H k e He). lia. Qed.

Lemma encodeHardState_wf hs : hard_state_wf hs → wf_bytes (encodeHardState hs).
Proof.
  intros (_ & H & _). unfold encodeHardState.
  apply Forall_app_2; [apply wf_be_put|]. apply Forall_app_2; [apply wf_be_put|done].
Qed.

Lemma ws_hard_state_law s rs hs s' :
  ws_rel s rs → hard_state_wf hs → ws_SetHardState hs s = (s', Ok tt) →
  ws_rel s' (rs ++ [hs_rec (encodeHardState hs)]) ∧ ws_view s' = view_hard_state hs (ws_view s) ∧
    w_latestHardState (ws_w s') = encodeHardState hs ∧ w_metadata (ws_w s') = w_metadata (ws_w s).
Proof.
  intros [Hl Hb He Hf] Hhs H. unfold ws_SetHardState in H.
  apply then_ok in H as (s1 & [] & (w1 & H1 & ->)%on_wal__ok & H).
  apply then_ok in H as (s2 & [] & (w2 & H2 & ->)%on_wal__ok & H). cbn in *. injection H as <-.
  destruct (live_append_hs _ _ (encodeHardState hs) Hl) as (wx & Hx & Hlx & Hmx & Hnx & Hhx & Hfx).
  { split; [by apply encodeHardState_wf|by eapply append_hs_too_large]. }
  rewrite H1 in Hx. injection Hx as <-. destruct (live_sync _ _ Hlx) as [Hs Hls].
  rewrite Hs in H2. injection H2 as <-. split; [|done]. constructor; cbn; rewrite ?Hmx; [done|done| |done].
  rewrite served_app. cbn. by rewrite app_nil_r.
Qed.

Lemma ws_append_law s rs es s' :
  ws_rel s rs → Forall entry_wf es → view_fits (ws_view s) (zlen es) → ws_Append es s = (s', Ok tt) →
  ws_rel s' (rs ++ (entry_record <$> es)) ∧ ws_view s' = view_append es (ws_view s) ∧
    w_latestHardState (ws_w s') = w_latestHardState (ws_w s) ∧ w_metadata (ws_w s') = w_metadata (ws_w s).
Proof.
  intros Hr Hwf Hfit H. pose proof Hr as [Hl Hb He Hf]. destruct (ws_rel_indexed _ _ Hr) as (H0 & Hi & Hn).
  unfold view_fits in Hfit. cbn in Hfit. pose proof (zlen_nonneg es) as Hz1. pose proof (zlen_nonneg (ws_entries s)) as Hz2.
  unfold ws_Append in H. destruct (Z.eqb_spec (zlen es) 0) as [Hz|Hz].
  { injection H as <-. destruct es; [|done]. cbn. rewrite app_nil_r. unfold view_append. cbn.
    rewrite app_nil_r. done. }
  rewrite u64_small in H by (unfold is_u64; lia).
  destruct (contiguous _ es) eqn:E; [|done]. cbn [negb] in H.
  apply contiguous_indexed in E; [|lia|lia].
  apply then_ok in H as (s1 & [] & H1 & H). apply then_ok in H as (s2 & [] & (w2 & H2 & ->)%on_wal__ok & H).
  cbn in H. injection H as <-.
  destruct (append_records_live es s rs s1 Hl Hwf) as (Hl1 & Hm1 & Hh1 & _ & Hs1); [by rewrite Hn|lia|done|].
  rewrite Hs1 in H2 |- *. cbn in *. destruct (live_sync _ _ Hl1) as [Hs Hls].
  rewrite Hs in H2. injection H2 as <-. split; [|done].
  constructor; cbn; rewrite ?Hm1; [done|done| |rewrite zlen_app; lia].
  rewrite served_app, He, fmap_app. f_equal. apply served_entry_records.
  eapply Forall_impl; [by apply indexed_ge|]. cbn. intros; lia.
Qed.

(** What truncation keeps of the records that are served. *)
Lemma served_cut w rs i pre p post es :
  live w rs → rs = pre ++ log_rec i p :: post → snap_of w < i →
  served (snap_of w + 1) rs = entry_record <$> es →
  served (snap_of w + 1) pre = entry_record <$> take (Z.to_nat (i - 1 - snap_of w)) es.
Proof.
  intros Hl -> Hi He. pose proof (live_served _ _ Hl) as Hs. rewrite served_app in Hs, He.
  assert (Hc : served (snap_of w + 1) (log_rec i p :: post) = log_rec i p :: served (snap_of w + 1) post).
  { unfold served. rewrite filter_cons_True; [done|]. cbn. split; [done|lia]. }
  rewrite Hc in Hs, He. rewrite fmap_app, fmap_cons in Hs. apply seqZ_cut in Hs as [Hs _].
  apply (f_equal length) in Hs. rewrite length_fmap, length_seqZ in Hs. cbn in Hs.
  replace (Z.to_nat (i - 1 - snap_of w)) with (length (served (snap_of w + 1) pre)) by lia.
  rewrite fmap_take, <- He. by rewrite take_app_length.
Qed.

Lemma ws_truncate_law s rs from s' :
  ws_rel s rs → ws_baseIndex s < from ≤ ws_baseIndex s + zlen (ws_entries s) + 1 →
  ws_Truncate from s = (s', Ok tt) →
  (∃ rs', ws_rel s' rs' ∧ rs' `prefix_of` rs) ∧ ws_view s' = view_truncate from (ws_view s).
Proof.
  intros Hr Hfrom H. pose proof Hr as [Hl Hb He Hf]. destruct (ws_rel_indexed _ _ Hr) as (H0 & Hi & Hn).
  unfold ws_Truncate in H. apply then_ok in H as (s1 & [] & (w1 & H1 & ->)%on_wal__ok & H).
  cbn in H. rewrite u64_small in H by (unfold is_u64; lia). unfold view_truncate. cbn.
  destruct (Z.ltb_spec (from - ws_baseIndex s - 1) (zlen (ws_entries s))) as [Hlt|Hge].
  - injection H as <-. destruct (live_truncate _ _ from Hl) as (pre & p & post & wx & Hrs & Hx & Htr & Hlx); [lia|].
    rewrite H1 in Hx. injection Hx as <-. destruct Htr as [_ Hnx (Hm & _) _].
    replace (from - 1 - ws_baseIndex s) with (from - ws_baseIndex s - 1) by lia. split; [|done].
    exists pre. split; [|rewrite Hrs; by apply prefix_app_r].
    constructor; cbn; rewrite ?Hm; [done|done| |].
    + rewrite (served_cut _ _ _ _ _ _ _ Hl Hrs ltac:(lia) He), Hb. do 3 f_equal. lia.
    + unfold zlen in *. rewrite length_take. lia.
  - injection H as <-. split.
    + exists rs. split; [|done]. rewrite (truncate_end _ _ _ _ Hl H1) by lia. by destruct s.
    + rewrite take_ge; [done|]. unfold zlen in *. lia.
Qed.

#[export, refine] Instance wal_laws : StorageLaws WALStorage := {
  st_valid := ws_valid;
  st_view := ws_view
}.
Proof.
  - done.
  - intros s [rs Hr]. destruct (ws_rel_indexed _ _ Hr) as (H0 & Hi & Hn). destruct Hr. cbn.
    split; [done|]. split; [done|]. unfold view_fits. cbn. lia.
  - intros s [rs Hr]. destruct (ws_rel_indexed _ _ Hr) as (H0 & Hi & Hn). destruct Hr as [_ Hb _ Hf]. cbn. unfold ws_LastIndex.
    pose proof (zlen_nonneg (ws_entries s)). rewrite (u64_small (zlen _)) by (unfold is_u64; lia).
    apply u64_small. unfold is_u64. lia.
  - intros s lo hi [rs Hr] Hlo Hhi. destruct (ws_rel_indexed _ _ Hr) as (H0 & Hi & Hn). destruct Hr as [_ Hb _ Hf]. cbn.
    pose proof (zlen_nonneg (ws_entries s)).
    rewrite <- (entries_window (ws_baseIndex s)) by (done || lia). cbv zeta. unfold ws_Entries.
    rewrite !u64_small by (unfold is_u64; lia). done.
  - intros s hs s' [rs Hr] Hhs H. destruct (ws_hard_state_law _ _ _ _ Hr Hhs H) as (H1 & H2 & _). split; [by eexists|done].
  - intros s from s' [rs Hr] Hfrom H.
    destruct (ws_truncate_law _ _ _ _ Hr Hfrom H) as [(rs' & H1 & _) H2]. split; [by eexists|done].
  - intros s es s' [rs Hr] Hwf Hfit H. destruct (ws_append_law _ _ _ _ Hr Hwf Hfit H) as (H1 & H2 & _).
    split; [by eexists|done].
Defined.

(** ** Payload codecs *)

(** A plain payload must not look like a typed one. *)
Definition unambiguous (e : Entry) : Prop :=
  e_Type e = EntryNormal → ∀ x y rest, e_Data e = x :: y :: rest → x ≠ entryPayloadTypeSentinel.

Lemma nth_put_u64 t rest k : nth (8 + k) (put_u64 t ++ rest) 0 = nth k rest 0.
Proof. rewrite app_nth2 by (rewrite length_be_put; lia). rewrite length_be_put. f_equal. lia. Qed.

Lemma decode_encode_entry e :
  entry_wf e → unambiguous e →
  decodeEntryPayload (encodeEntryPayload (e_Term e) (e_Type e) (e_Data e)) = Ok (e_Term e, e_Type e, e_Data e).
Proof.
  intros [Ht Hd] Hu. unfold decodeEntryPayload, encodeEntryPayload.
  destruct (e_Type e) eqn:T.
  - rewrite (proj2 (Z.ltb_ge _ _)) by (rewrite zlen_app, zlen_be_put; pose proof (zlen_nonneg (e_Data e)); lia).
    rewrite get_u64_put by done. rewrite (drop_be_put 8).
    replace (_ && _) with false; [done|]. symmetry. apply andb_false_iff.
    destruct (Z.leb_spec 10 (zlen (put_u64 (e_Term e) ++ e_Data e))) as [Hl|]; [right|by left].
    rewrite zlen_app, zlen_be_put in Hl. change 8%nat with (8 + 0)%nat. rewrite nth_put_u64.
    destruct (e_Data e) as [|x [|y rest]] eqn:E; [rewrite zlen_nil in Hl; lia|rewrite zlen_cons, zlen_nil in Hl; lia|].
    apply Z.eqb_neq. by eapply Hu.
  - rewrite (proj2 (Z.ltb_ge _ _)), (proj2 (Z.leb_le _ _))
      by (rewrite zlen_app, zlen_be_put, !zlen_app; change (zlen [_; _]) with 2; pose proof (zlen_nonneg (e_Data e)); lia).
    rewrite get_u64_put by done. change 8%nat with (8 + 0)%nat at 1. rewrite nth_put_u64.
    change 9%nat with (8 + 1)%nat. rewrite nth_put_u64. cbn [nth app andb Z.eqb entry_type_byte].
    change (entryPayloadTypeSentinel =? entryPayloadTypeSentinel) with true. cbn [andb].
    replace (drop 10 _) with (e_Data e); [done|].
    rewrite (drop_app_ge _ _ 10) by (rewrite length_be_put; lia). rewrite length_be_put. done.
Qed.

Lemma decode_encode_hard_state hs :
  hard_state_wf hs → decodeHardState (encodeHardState hs) = Ok hs.
Proof.
  intros (Ht & Hw & Hl). unfold decodeHardState, encodeHardState.
  pose proof (zlen_nonneg (hs_VotedFor hs)).
  rewrite (proj2 (Z.ltb_ge _ _)) by (rewrite !zlen_app, !zlen_be_put; lia).
  rewrite get_u64_put by done. rewrite (drop_be_put 8).
  rewrite u32_small by (unfold is_u32; lia). rewrite get_u32_put by (unfold is_u32; lia).
  rewrite (proj2 (Z.ltb_ge _ _)) by (rewrite !zlen_app, !zlen_be_put; lia).
  rewrite (drop_app_ge _ _ 12) by (rewrite length_be_put; lia). rewrite length_be_put.
  rewrite (drop_be_put 4), to_nat_zlen, take_ge by lia. by destruct hs.
Qed.

Lemma decode_entries_records es :
  Forall (λ e, entry_wf e ∧ unambiguous e) es → decode_entries (entry_record <$> es) = Ok es.
Proof.
  induction 1 as [|e es [H1 H2] Hes IH]; [done|]. cbn. rewrite decode_encode_entry by done.
  rewrite bind_Ok. cbn. rewrite IH. cbn. by destruct e.
Qed.

(** ** Restart *)

(** The whole invariant of a running storage: the mirror, the log and what a
    restart would read agree. *)
Record ws_durable (s : WALStorage) (base rs : list Record_) : Prop := {
  wd_rel : ws_rel s rs;
  wd_inv : wal_inv (ws_w s) base rs;
  wd_entries : Forall (λ e, entry_wf e ∧ unambiguous e) (ws_entries s);
  wd_hs_wf : hard_state_wf (ws_hs s);
  wd_hs : w_latestHardState (ws_w s) = encodeHardState (ws_hs s) ∨
    (w_latestHardState (ws_w s) = [] ∧ ws_hs s = mkHardState 0 noVote)
}.

Lemma encodeHardState_ne hs : encodeHardState hs ≠ [].
Proof. unfold encodeHardState. intros H%(f_equal length). rewrite length_app, length_be_put in H. cbn in H. lia. Qed.

Lemma reopen_storage s base rs d' nid maxsz :
  ws_durable s base rs → all_synced (w_disk (ws_w s)) → crash (w_disk (ws_w s)) d' →
  ∃ w' s', Open d' nid maxsz = Ok w' ∧ OpenWALStorage w' = Ok s' ∧ ws_durable s' base rs ∧
    ws_view s' = ws_view s.
Proof.
  intros [Hr Hinv Hes Hwf Hhs] Hsy Hc.
  destruct (crash_recovery _ _ _ rs d' nid maxsz Hinv) as (w' & rs' & HO & Hinv' & _ & Hp1 & Hp2 & _);
    [eapply all_synced_durable; [apply Hinv|done]|eapply hist_extends, Hinv|done|].
  assert (rs' = rs) as -> by (by apply (anti_symm prefix)).
  pose proof (facts_open _ _ _ _ (hist_has_facts _ _ _ _ _ (wi_hist _ _ _ Hinv))) as H1.
  pose proof (facts_open _ _ _ _ (hist_has_facts _ _ _ _ _ (wi_hist _ _ _ Hinv'))) as H2. rewrite H1 in H2.
  injection H2 as Hm Hn Hh. pose proof Hr as [Hl Hb He Hf].
  assert (Hfirst : FirstIndex w' = snap_of (ws_w s) + 1) by (unfold FirstIndex; rewrite (wi_first _ _ _ Hinv'), Hm; done).
  exists w', (mkWALStorage w' (ws_hs s) (ws_baseIndex s) (ws_entries s)). split; [done|].
  assert (Hopen : OpenWALStorage w' = Ok (mkWALStorage w' (ws_hs s) (ws_baseIndex s) (ws_entries s))).
  { unfold OpenWALStorage, LatestHardState, Replay. rewrite <- Hh, (wi_open _ _ _ Hinv'), Hfirst.
    rewrite (replay_layout _ _ _ _ (wi_layout _ _ _ Hinv')), He, decode_entries_records by done.
    destruct Hl. rewrite u64_small by (unfold is_u64; lia). replace (snap_of (ws_w s) + 1 - 1) with (ws_baseIndex s) by lia.
    destruct Hhs as [->|[-> ->]].
    - rewrite bool_decide_false by apply encodeHardState_ne. by rewrite decode_encode_hard_state.
    - by rewrite bool_decide_true. }
  split; [exact Hopen|]. split; [|done].
  constructor; cbn; rewrite <- ?Hh; [|done|done|done|done].
  constructor; cbn; rewrite <- ?Hm; [by eapply wal_inv_live|done|done|done].
Qed.

(** *** Persistence keeps the invariant *)

Lemma set_hard_state_durable s base rs hs s' :
  ws_durable s base rs → hard_state_wf hs → ws_SetHardState hs s = (s', Ok tt) →
  ws_durable s' base (rs ++ [hs_rec (encodeHardState hs)]) ∧
    (closed_synced (ws_w s') → all_synced (w_disk (ws_w s'))).
Proof.
  intros [Hr Hinv Hes Hwf _] Hhs H.
  destruct (ws_hard_state_law _ _ _ _ Hr Hhs H) as (Hr' & Hv & Hh & _). unfold ws_SetHardState in H.
  apply then_ok in H as (s1 & [] & (w1 & H1 & ->)%on_wal__ok & H).
  apply then_ok in H as (s2 & [] & (w2 & H2 & ->)%on_wal__ok & H). cbn in *. injection H as <-.
  destruct (wal_do_inv _ _ _ (OpHardState (encodeHardState hs)) Hinv) as (wx & Hx & Hinv1).
  { split; [by apply encodeHardState_wf|by eapply append_hs_too_large]. }
  cbn in Hx, Hinv1. rewrite H1 in Hx. injection Hx as <-.
  destruct (wal_do_inv _ _ _ OpSync Hinv1 I) as (wx & Hx & Hinv2). cbn in Hx, Hinv2. rewrite app_nil_r in Hinv2.
  rewrite H2 in Hx. injection Hx as <-. split; [|].
  - constructor; cbn; [done|done|done|done|by left].
  - unfold Sync in H2. destruct (w_closed w1); [done|]. injection H2 as <-. apply sync_all.
Qed.

Lemma append_records_inv es s base rs s' :
  wal_inv (ws_w s) base rs → Forall entry_wf es → indexed_from (w_nextLogIndex (ws_w s)) es →
  w_nextLogIndex (ws_w s) + zlen es < 2 ^ 64 → append_records es s = (s', Ok tt) →
  wal_inv (ws_w s') base (rs ++ (entry_record <$> es)).
Proof.
  revert s rs. induction es as [|e es IH]; intros s rs Hl Hwf Hi Hf Ha; cbn in Ha.
  { injection Ha as <-. by rewrite app_nil_r. }
  apply indexed_cons in Hi as [He Hi]. apply Forall_cons in Hwf as [Hw Hwf]. rewrite zlen_cons in Hf.
  pose proof (zlen_nonneg es).
  apply then_ok in Ha as (s1 & idx & H1 & Ha). apply on_wal_ok in H1 as (w1 & H1 & ->).
  destruct (wal_do_inv _ _ _ (OpLog (r_Payload (entry_record e))) Hl) as (w2 & H2 & Hl2).
  { split; [split; [apply encodeEntryPayload_wf, Hw|by eapply append_too_large]|lia]. }
  destruct (live_append_log _ rs (r_Payload (entry_record e)) (wal_inv_live _ _ _ Hl)) as (w3 & H3 & _ & _ & Hn & _).
  { split; [apply encodeEntryPayload_wf, Hw|by eapply append_too_large]. }
  { lia. }
  cbn in H2, H3. rewrite H1 in H3. injection H3 as -> ->. rewrite H1, bind_Ok in H2. injection H2 as ->.
  rewrite He, Z.eqb_refl in Ha. cbn in Ha. set (s1 := mkWALStorage w2 (ws_hs s) (ws_baseIndex s) (ws_entries s)) in *.
  specialize (IH s1 _ Hl2 Hwf). cbn in IH. rewrite Hn in IH. specialize (IH Hi ltac:(lia) Ha).
  rewrite <- app_assoc in IH. cbn [fmap list_fmap]. unfold entry_record at 1. rewrite He. exact IH.
Qed.

Lemma append_durable s base rs es s' :
  ws_durable s base rs → Forall (λ e, entry_wf e ∧ unambiguous e) es → view_fits (ws_view s) (zlen es) →
  es ≠ [] → ws_Append es s = (s', Ok tt) →
  ws_durable s' base (rs ++ (entry_record <$> es)) ∧ (closed_synced (ws_w s') → all_synced (w_disk (ws_w s'))).
Proof.
  intros [Hr Hinv Hes Hwf Hhs] Hwe Hfit Hne H.
  assert (Hw : Forall entry_wf es) by (eapply Forall_impl; [exact Hwe|]; by intros e []).
  destruct (ws_append_law _ _ _ _ Hr Hw Hfit H) as (Hr' & Hv & Hh & _).
  destruct (ws_rel_indexed _ _ Hr) as (H0 & Hi & Hn). unfold view_fits in Hfit. cbn in Hfit.
  pose proof (zlen_nonneg es) as Hz1. pose proof (zlen_nonneg (ws_entries s)) as Hz2.
  assert (He : ws_entries s' = ws_entries s ++ es) by (by injection Hv).
  assert (Hhs' : ws_hs s' = ws_hs s) by (by injection Hv).
  unfold ws_Append in H. destruct (Z.eqb_spec (zlen es) 0) as [Hz|Hz]; [by destruct es|].
  rewrite u64_small in H by (unfold is_u64; lia).
  destruct (contiguous _ es) eqn:E; [|done]. cbn [negb] in H. apply contiguous_indexed in E; [|lia|lia].
  apply then_ok in H as (s1 & [] & H1 & H). apply then_ok in H as (s2 & [] & (w2 & H2 & ->)%on_wal__ok & H).
  cbn in H. injection H as <-. cbn in *.
  pose proof (append_records_inv _ _ _ _ _ Hinv Hw ltac:(by rewrite Hn) ltac:(lia) H1) as Hinv1.
  unfold Sync in H2. destruct (w_closed (ws_w s1)) eqn:Ec; [done|]. injection H2 as <-. split; [|apply sync_all].
  destruct Hinv1 as [Ho1 Hh1 Hf1 Hl1].
  constructor; cbn [ws_w ws_hs ws_entries]; [done| | |by rewrite Hhs'|by rewrite Hh, Hhs'].
  - constructor; [done|done|done|by apply layout_sync].
  - rewrite He. by apply Forall_app_2.
Qed.

Lemma truncate_durable s base rs from s' :
  ws_durable s base rs → ws_baseIndex s < from ≤ ws_baseIndex s + zlen (ws_entries s) + 1 →
  Forall (λ r, is_log from r = false) base →
  (∀ pre p post, rs = pre ++ log_rec from p :: post → log_only post) →
  ws_Truncate from s = (s', Ok tt) →
  ∃ rs', ws_durable s' base rs' ∧ (all_synced (w_disk (ws_w s)) → all_synced (w_disk (ws_w s'))).
Proof.
  intros [Hr Hinv Hes Hwf Hhs] Hfrom Hbase Hlog H. pose proof Hr as [Hl Hb He Hf].
  destruct (ws_rel_indexed _ _ Hr) as (H0 & Hi & Hn).
  destruct (ws_truncate_law _ _ _ _ Hr Hfrom H) as [_ Hv].
  unfold ws_Truncate in H. apply then_ok in H as (s1 & [] & (w1 & H1 & ->)%on_wal__ok & H).
  cbn in H. rewrite u64_small in H by (unfold is_u64; lia).
  destruct (Z.ltb_spec (from - ws_baseIndex s - 1) (zlen (ws_entries s))) as [Hlt|Hge].
  - injection H as <-. destruct (live_truncate _ _ from Hl) as (pre & p & post & wx & Hrs & Hx & Htr & Hlx); [lia|].
    rewrite H1 in Hx. injection Hx as <-. exists pre. subst rs.
    assert (Hpre : base `prefix_of` pre).
    { eapply split_after_base; [eapply hist_extends, Hinv|apply is_log_rec|done]. }
    pose proof (truncated_inv _ _ _ _ _ _ _ Hinv Hpre Htr (Hlog _ _ _ eq_refl)) as Hinv'.
    destruct Htr as [_ Hnx (Hm & _ & Hhx & _) Hsy]. split; [|done].
    constructor; cbn; [|done|by apply Forall_take|done|by rewrite Hhx].
    constructor; cbn; rewrite ?Hm; [done|done| |unfold zlen in *; rewrite length_take; lia].
    rewrite (served_cut _ _ _ _ _ _ _ Hl eq_refl ltac:(lia) He), Hb. do 3 f_equal. lia.
  - injection H as <-. exists rs. rewrite (truncate_end _ _ _ _ Hl H1) by lia. by destruct s.
Qed.

(** ** Properties *)

(** The requests whose truncation, if any, removes log entries only: no
    metadata or hard-state record follows the entry, and the entry is not in
    what a compaction kept. *)
Definition cuts_entries_only (base rs : list Record_) (pr : option PersistRequest) : Prop :=
  match pr with
  | None => True
  | Some pr =>
      pr_TruncateFrom pr ≠ 0 →
      Forall (λ r, is_log (pr_TruncateFrom pr) r = false) base ∧
      ∀ pre p post, rs = pre ++ log_rec (pr_TruncateFrom pr) p :: post → log_only post
  end.

Definition request_unambiguous (pr : option PersistRequest) : Prop :=
  match pr with None => True | Some pr => Forall unambiguous (pr_Entries pr) end.

Lemma persist_durable s base rs pr s' :
  ws_durable s base rs → all_synced (w_disk (ws_w s)) → persist_ok (ws_view s) pr →
  request_unambiguous pr → cuts_entries_only base rs pr → ApplyPersistRequest pr s = (s', Ok tt) →
  closed_synced (ws_w s') → (∃ rs', ws_durable s' base rs') ∧ all_synced (w_disk (ws_w s')).
Proof.
  intros Hd Hsy Hok Hun Hcut H Hcl. destruct pr as [pr|]; cbn in *; [|injection H as <-; by eauto].
  apply then_ok in H as (s1 & [] & H1 & H). apply then_ok in H as (s2 & [] & H2 & H3).
  destruct Hok as (Htf & Hwf & Hfit & Hhs).
  assert (∃ rs1, ws_durable s1 base rs1 ∧ all_synced (w_disk (ws_w s1)) ∧ view_fits (ws_view s1) (zlen (pr_Entries pr)))
    as (rs1 & Hd1 & Hsy1 & Hfit1).
  { destruct (Z.eqb_spec (pr_TruncateFrom pr) 0) as [E|E]; cbn [negb] in H1; [injection H1 as <-; by eauto|].
    destruct Htf as [|Htf]; [done|]. destruct (Hcut E) as [Hc1 Hc2].
    destruct (truncate_durable _ _ _ _ _ Hd Htf Hc1 Hc2 H1) as (rs1 & Hd1 & Hs1). exists rs1.
    split; [done|]. split; [by apply Hs1|].
    destruct (ws_truncate_law _ _ _ _ (wd_rel _ _ _ Hd) Htf H1) as [_ Hv]. rewrite Hv.
    unfold view_fits, view_truncate, zlen in *. cbn in *. rewrite length_take. lia. }
  assert (∃ rs2, ws_durable s2 base rs2 ∧
    (pr_HardState pr = None → closed_synced (ws_w s2) → all_synced (w_disk (ws_w s2)))) as (rs2 & Hd2 & Hsy2).
  { destruct (Z.eqb_spec (zlen (pr_Entries pr)) 0) as [E|E]; cbn [negb] in H2; [injection H2 as <-; by eauto|].
    assert (Hboth : Forall (λ e, entry_wf e ∧ unambiguous e) (pr_Entries pr)) by (by apply Forall_and).
    assert (Hne : pr_Entries pr ≠ []) by (by destruct (pr_Entries pr)).
    destruct (append_durable _ _ _ _ _ Hd1 Hboth Hfit1 Hne H2) as (Hd2 & Hs2). by eauto. }
  destruct (pr_HardState pr) as [hs|]; [|injection H3 as <-; by eauto].
  destruct (set_hard_state_durable _ _ _ _ _ Hd2 (Hhs _ eq_refl) H3). by eauto.
Qed.


Definition demo_storage : WALStorage := mkWALStorage demo_wal (mkHardState 0 noVote) 0 [].
Definition demo_request : PersistRequest :=
  mkPersistRequest 1 (Some (mkHardState 1 [98])) 0 [mkEntry 1 1 EntryNormal [2]].
Definition demo_persisted : WALStorage := fst (ApplyPersistRequest (Some demo_request) demo_storage).

Lemma demo_storage_durable :
  ws_durable demo_storage [meta_rec (fresh_meta [97])] [meta_rec (fresh_meta [97])].
Proof.
  pose proof (proj1 demo_inv) as Hi.
  constructor; [|exact Hi|constructor| |by right].
  - constructor; [exact (wal_inv_live _ _ _ Hi)|done|done|done].
  - split; [unfold is_u64; cbn; lia|]. split; [constructor|done].
Qed.


(** A persist request can make a restart forget a vote.  A follower that
    granted a vote in term 2 and then repairs its log persists a truncation
    without a hard state, because neither term nor vote changed in that step;
    the log drops the hard-state record with the suffix, and after a restart
    the node is back in term 1 without a vote. *)
Definition vote_requests : list (option PersistRequest) :=
  [Some (mkPersistRequest 1 (Some (mkHardState 1 [])) 0 [mkEntry 1 1 EntryNormal [2]]);
   Some (mkPersistRequest 2 (Some (mkHardState 1 [])) 0 [mkEntry 2 1 EntryNormal [2]]);
   Some (mkPersistRequest 3 (Some (mkHardState 2 [98])) 0 []);
   Some (mkPersistRequest 4 None 2 [mkEntry 2 2 EntryNormal [3]])].

Fixpoint persist_all (prs : list (option PersistRequest)) (s : WALStorage) : WALStorage :=
  match prs with
  | [] => s
  | pr :: prs => persist_all prs (fst (ApplyPersistRequest pr s))
  end.

Theorem restart_forgets_vote :
  let s := persist_all vote_requests demo_storage in
  InitialState s = mkHardState 2 [98] ∧
  ∃ w s', Open (w_disk (ws_w s)) [97] 0 = Ok w ∧ OpenWALStorage w = Ok s' ∧ InitialState s' = mkHardState 1 [].
Proof.
  cbv zeta. split; [vm_compute; reflexivity|].
  exists (match Open (w_disk (ws_w (persist_all vote_requests demo_storage))) [97] 0 with
          | Ok w => w | Err _ => demo_wal end).
  exists (match OpenWALStorage (match Open (w_disk (ws_w (persist_all vote_requests demo_storage))) [97] 0 with
          | Ok w => w | Err _ => demo_wal end) with Ok s => s | Err _ => demo_storage end).
  split; [vm_compute; reflexivity|]. split; vm_compute; reflexivity.
Qed.

(** Truncating beyond the end is not a no-op on the log-backed storage: the
    log moves its counter, so the next append of the right index fails. *)
Theorem truncate_beyond_end_breaks_append :
  ∃ s', StTruncate 3 demo_storage = (s', Ok tt) ∧ LastIndex s' = 0 ∧
    snd (StAppend [mkEntry 1 1 EntryNormal [2]] s') = Err ErrIndexMismatch.
Proof.
  exists (fst (StTruncate 3 demo_storage)). split; [vm_compute; reflexivity|]. split; vm_compute; reflexivity.
Qed.
