(* ===== verification/RaftPersist.v ===== *)
(** * The core and its storage

    The core changes its log, term and vote in memory and asks the driver to
    persist the change.  Whatever storage the driver uses, as long as it keeps
    the contract of [Storage], it mirrors the core after every step, and a
    core rebuilt from it has the same log and term and has not forgotten a
    vote. *)

From S2P Require Import Prelude Bytes RaftTypes RaftMembership RaftMembershipSpec RaftCore RaftInv RaftSpec Storage StorageSpec.

(** ** Helpers that leave the durable state alone *)

(** The durable part of a core and the pending request of an output. *)
Record calm (c : Core) (out : Output) (c' : Core) (out' : Output) : Prop := {
  ca_log : c_log c' = c_log c;
  ca_snap : c_snapshotIndex c' = c_snapshotIndex c;
  ca_term : c_currentTerm c' = c_currentTerm c;
  ca_vote : c_votedFor c' = c_votedFor c;
  ca_cfg : c_cfg c' = c_cfg c;
  ca_request : out_PersistRequest out' = out_PersistRequest out
}.

Lemma calm_refl c out : calm c out c out.
Proof. by constructor. Qed.

Lemma calm_trans c o c1 o1 c2 o2 : calm c o c1 o1 → calm c1 o1 c2 o2 → calm c o c2 o2.
Proof. intros [] []. constructor; congruence. Qed.

(** A computation on a core and its output that keeps them calm. *)
Definition calms (r : result raft_panic (Core * Output)) (c : Core) (out : Output) : Prop :=
  ∀ c' out', r = Ok (c', out') → calm c out c' out'.

Lemma calms_ok c out c' out' : calm c out c' out' → calms (Ok (c', out')) c out.
Proof. intros H c1 o1 [= <- <-]. done. Qed.

Lemma calms_err e c out : calms (Err e) c out.
Proof. done. Qed.

Lemma calms_bind r f c out :
  calms r c out → (∀ c1 o1, calm c out c1 o1 → calms (f (c1, o1)) c1 o1) → calms (r ≫= f) c out.
Proof.
  intros Hr Hf c' out' H. apply bind_Ok_inv in H as ([c1 o1] & H1 & H2).
  eapply calm_trans; [by apply Hr|]. eapply Hf; [by apply Hr|done].
Qed.

Lemma appendEntriesMessage_calm c peer c' m :
  appendEntriesMessage c peer = Ok (c', m) → ∀ out, calm c out c' out.
Proof.
  unfold appendEntriesMessage. intros H out. case_match; [by injection H as <- _; apply calm_refl|].
  apply bind_Ok_inv in H as ([es nn] & _ & H). apply bind_Ok_inv in H as (nx & _ & H).
  injection H as <- _. by constructor.
Qed.

Lemma calm_send c out m : calm c out c (send m out).
Proof. by constructor. Qed.

Lemma replicate_to_calm skip ms c out : calms (replicate_to skip ms c out) c out.
Proof.
  revert c out. induction ms as [|m ms IH]; intros c out; cbn [replicate_to]; [by apply calms_ok, calm_refl|].
  case_match; [apply IH|]. intros c' out' Hr. apply bind_Ok_inv in Hr as ([c1 msg] & H1 & H2).
  eapply calm_trans; [by eapply appendEntriesMessage_calm|].
  eapply calm_trans; [apply (calm_send _ _ msg)|]. by apply IH.
Qed.

Lemma broadcast_calm c out : calms (broadcast c out) c out.
Proof. apply calms_bind; [apply replicate_to_calm|]. intros c1 o1 _. apply replicate_to_calm. Qed.

Lemma becomeLeader_calm c out : calms (becomeLeader c out) c out.
Proof.
  unfold becomeLeader. destruct (init_progress _ _ _) as [nx mt]. cbv zeta. intros c' out' H.
  eapply calm_trans; [|by eapply broadcast_calm]. by constructor.
Qed.

Lemma advanceFollowerCommit_calm c n out : calms (advanceFollowerCommit c n out) c out.
Proof.
  unfold advanceFollowerCommit. cbv zeta. case_match; [by apply calms_ok, calm_refl|].
  intros c' out' Hr. apply bind_Ok_inv in Hr as (es & _ & Hr). injection Hr as <- <-. by constructor.
Qed.

Lemma maybeStepDown_calm c out :
  calm c out (maybeStepDownAfterSelfRemoval c out).1 (maybeStepDownAfterSelfRemoval c out).2.
Proof. unfold maybeStepDownAfterSelfRemoval. case_match; by constructor. Qed.

Lemma advance_loop_calm fuel c n out : calms (advance_loop fuel c n out) c out.
Proof.
  revert n. induction fuel as [|fuel IH]; intros n; cbn [advance_loop]; [by apply calms_ok, calm_refl|].
  repeat case_match; try apply IH; [by apply calms_ok, calm_refl|].
  intros c' out' Hr. apply bind_Ok_inv in Hr as (es & _ & Hr). injection Hr as Hr.
  match type of Hr with maybeStepDownAfterSelfRemoval ?c1 ?o1 = _ =>
    pose proof (maybeStepDown_calm c1 o1) as Hm; rewrite Hr in Hm; cbn [fst snd] in Hm;
    eapply (calm_trans _ _ c1 o1); [by constructor|exact Hm] end.
Qed.

Lemma advanceLeaderCommit_calm c out : calms (advanceLeaderCommit c out) c out.
Proof. apply advance_loop_calm. Qed.

Lemma note_match_calm c from m c' : note_match c from m = Ok c' → ∀ out, calm c out c' out.
Proof.
  unfold note_match. intros H out. apply bind_Ok_inv in H as (x & _ & H).
  apply bind_Ok_inv in H as (y & _ & H). injection H as <-. by constructor.
Qed.

Lemma continue_replication_calm c from out : calms (continue_replication c from out) c out.
Proof.
  unfold continue_replication. case_match; [|by apply calms_ok, calm_refl].
  intros c' out' Hr. apply bind_Ok_inv in Hr as ([c1 msg] & H1 & H2). injection H2 as <- <-.
  eapply calm_trans; [by eapply appendEntriesMessage_calm|apply calm_send].
Qed.

Lemma release_pending_calm c out p : calms (release_pending c out p) c out.
Proof.
  unfold release_pending. repeat case_match; try apply calms_ok; try apply calm_refl; try by constructor.
  1: apply advanceFollowerCommit_calm.
  all: intros c' out' Hr; apply bind_Ok_inv in Hr as (x & _ & Hr);
    (eapply calm_trans; [|by eapply advanceLeaderCommit_calm]); by constructor.
Qed.

Lemma release_loop_calm ps c out rem c' out' rem' :
  release_loop c out rem ps = Ok (c', out', rem') → calm c out c' out'.
Proof.
  revert c out rem. induction ps as [|p ps IH]; intros c out rem H; cbn [release_loop] in H.
  { injection H as <- <- _. apply calm_refl. }
  case_match; [by eapply IH|]. apply bind_Ok_inv in H as ([c1 o1] & H1 & H).
  eapply calm_trans; [by eapply release_pending_calm|by eapply IH].
Qed.

Lemma handlePersistenceComplete_calm c seq : calms (handlePersistenceComplete c seq) c no_output.
Proof.
  unfold handlePersistenceComplete. intros c' out' H. cbv zeta in H.
  apply bind_Ok_inv in H as ([[c1 o1] rem] & H1 & H). injection H as <- <-.
  apply release_loop_calm in H1. destruct H1. revert ca_log0 ca_snap0 ca_term0 ca_vote0 ca_cfg0 ca_request0.
  case_match; by constructor.
Qed.

(** Inversion that does not evaluate its arguments. *)
Lemma Ok_inj {E A} (a b : A) : @Ok E A a = Ok b → a = b.
Proof. congruence. Qed.

(** ** What a step asks to persist *)

Definition keeps_vote (v v' : NodeID) : Prop := v' = v ∨ v' = noVote.

(** The request describes the change from [c] to [c']. *)
Record asks (c c' : Core) (pr : option PersistRequest) : Prop := {
  as_snap : c_snapshotIndex c' = c_snapshotIndex c;
  as_cfg : c_cfg c' = c_cfg c;
  as_change :
    match pr with
    | None => c_log c' = c_log c ∧ c_currentTerm c' = c_currentTerm c ∧ keeps_vote (c_votedFor c) (c_votedFor c')
    | Some pr =>
        c_log c' = (if pr_TruncateFrom pr =? 0 then c_log c
                    else take (Z.to_nat (pr_TruncateFrom pr - c_snapshotIndex c)) (c_log c)) ++ pr_Entries pr ∧
        (pr_TruncateFrom pr = 0 ∨ c_snapshotIndex c < pr_TruncateFrom pr ≤ lastIndex c) ∧
        match pr_HardState pr with
        | Some hs => hs = hard_state c'
        | None => c_currentTerm c' = c_currentTerm c ∧ keeps_vote (c_votedFor c) (c_votedFor c')
        end
    end
}.

Definition step_asks (c : Core) (r : Core * Output) : Prop := asks c r.1 (out_PersistRequest r.2).

(** From a core [c1] that differs from [c] in term and vote only. *)
Record retermed (c c1 : Core) (changed : bool) : Prop := {
  rt_log : c_log c1 = c_log c;
  rt_snap : c_snapshotIndex c1 = c_snapshotIndex c;
  rt_cfg : c_cfg c1 = c_cfg c;
  rt_same : changed = false → c_currentTerm c1 = c_currentTerm c ∧ keeps_vote (c_votedFor c) (c_votedFor c1)
}.

Lemma asks_calm c c1 o1 c2 o2 :
  asks c c1 (out_PersistRequest o1) → calm c1 o1 c2 o2 → asks c c2 (out_PersistRequest o2).
Proof.
  intros [H1 H2 H3] [Cl Cs Ct Cv Cc Cr]. rewrite Cr.
  assert (Hh : hard_state c2 = hard_state c1) by (unfold hard_state; by rewrite Ct, Cv).
  constructor; [congruence|congruence|].
  destruct (out_PersistRequest o1) as [pr|]; rewrite Cl, Ct, Cv; [|done]. by rewrite Hh.
Qed.

Lemma asks_hard_state c c1 hs seq :
  hs = hard_state c1 → retermed c c1 true → asks c c1 (Some (mkPersistRequest seq (Some hs) 0 [])).
Proof.
  intros -> [Hl Hs Hc _]. constructor; [done|done|]. cbn. rewrite app_nil_r. split; [done|]. split; [by left|done].
Qed.

Lemma asks_none c c1 : retermed c c1 false → asks c c1 None.
Proof. intros [Hl Hs Hc H]. constructor; [done|done|]. split; [done|]. by apply H. Qed.

Lemma asks_refl c : asks c c None.
Proof. apply asks_none. constructor; [done|done|done|]. intros _. split; [done|by left]. Qed.

Lemma calms_asks c r : calms r c no_output → ∀ c' out, r = Ok (c', out) → step_asks c (c', out).
Proof. intros H c' out Hr. eapply (asks_calm c c no_output); [apply asks_refl|by apply H]. Qed.

Lemma retermed_weaken c c1 b : retermed c c1 b → retermed c c1 true.
Proof. intros []. by constructor. Qed.

Lemma persist_if_asks c b c1 out :
  retermed c c1 b → out_PersistRequest out = None → step_asks c (persist_if b c1 out).
Proof.
  intros Hr Ho. unfold step_asks, persist_if. destruct b.
  - unfold persist_hard_state. cbn [fst snd nextPersistSeq]. apply asks_hard_state; [done|]. by destruct Hr; constructor.
  - cbn [fst snd]. rewrite Ho. by apply asks_none.
Qed.

Lemma step_down_if_retermed b c term out :
  retermed c (step_down_if b c term out).1 b ∧
  out_PersistRequest (step_down_if b c term out).2 = out_PersistRequest out.
Proof.
  unfold step_down_if. destruct b; [|split; [|done]; constructor; [done|done|done|]].
  - split; [by constructor|]. cbn. by case_if.
  - intros _. split; [done|by left].
Qed.

Lemma handleElectionTimeout_asks intn c c' out :
  handleElectionTimeout intn c = Ok (c', out) → step_asks c (c', out).
Proof.
  unfold handleElectionTimeout. case_bool_decide; [intros [= <- <-]; apply asks_refl|].
  case_if; [intros [= <- <-]; apply asks_none; constructor; [done|done|done|]; intros _; split; [done|by left]|].
  set (c1 := become_candidate _). unfold persist_hard_state. cbn [nextPersistSeq].
  set (c2 := c1 <| c_persistSeq := _ |>). set (o2 := request_votes _ _).
  assert (Ho : out_PersistRequest o2 = Some (mkPersistRequest (c_persistSeq c1 + 1)%u64 (Some (hard_state c2)) 0 [])).
  { unfold o2, request_votes. generalize (Voters (c_activeConfig c2)). intros ms.
    match goal with |- context [foldl _ ?x ms] =>
      assert (Hx : out_PersistRequest x = Some (mkPersistRequest (c_persistSeq c1 + 1)%u64 (Some (hard_state c2)) 0 [])) by done;
      revert Hx; generalize x end.
    generalize c2. clear. intros c2. induction ms as [|m ms IH]; intros o Ho; cbn [foldl]; [done|].
    apply IH. by case_bool_decide. }
  assert (Ha : asks c c2 (out_PersistRequest o2)) by (rewrite Ho; apply asks_hard_state; [done|by constructor]).
  clearbody o2. case_if; [|intros [= <- <-]; exact Ha].
  intros Hb. eapply asks_calm; [exact Ha|]. by eapply becomeLeader_calm.
Qed.

Lemma newer_term_response_asks intn c term out :
  out_PersistRequest out = None → step_asks c (newer_term_response intn c term out).
Proof.
  intros Ho. unfold newer_term_response, step_asks. cbn [stepDownTo]. unfold persist_hard_state. cbn [fst snd nextPersistSeq].
  apply asks_hard_state; [done|by constructor].
Qed.

Lemma handleRequestVoteRequest_asks intn c msg : step_asks c (handleRequestVoteRequest intn c msg).
Proof.
  unfold handleRequestVoteRequest. case_if; [apply asks_refl|]. case_if; [apply asks_refl|].
  case_if; [apply asks_refl|]. cbv zeta. set (newer := _ <? _).
  destruct (step_down_if_retermed newer c (m_Term msg) no_output) as [Hr Ho].
  destruct (step_down_if newer c (m_Term msg) no_output) as [c1 o1]. cbn [fst snd] in *. case_if.
  - unfold step_asks, grant_vote. cbn [fst snd nextPersistSeq]. apply asks_hard_state; [done|]. destruct Hr; by constructor.
  - unfold step_asks, refuse_vote. destruct newer.
    + unfold persist_hard_state. cbn [fst snd nextPersistSeq].
      match goal with |- context [if ?b then _ else _] => destruct b end; cbn [out_PersistRequest];
        (apply asks_hard_state; [done|]); destruct Hr; by constructor.
    + cbn [fst snd]. change (out_PersistRequest (send _ o1)) with (out_PersistRequest o1). rewrite Ho. by apply asks_none.
Qed.

Lemma handleRequestVoteResponse_asks intn c msg c' out :
  handleRequestVoteResponse intn c msg = Ok (c', out) → step_asks c (c', out).
Proof.
  unfold handleRequestVoteResponse. case_if; [intros <-%Ok_inj; by apply newer_term_response_asks|].
  case_if; [intros [= <- <-]; apply asks_refl|]. intros H. apply bind_Ok_inv in H as (v & _ & H).
  eapply (asks_calm c (c <| c_votesReceived := v |>) no_output).
  - apply asks_none. constructor; [done|done|done|]. intros _. split; [done|by left].
  - revert H. cbv zeta. case_if; [apply becomeLeader_calm|intros [= <- <-]; apply calm_refl].
Qed.

Lemma accept_leader_retermed intn c msg out :
  c_currentTerm c ≤ m_Term msg →
  retermed c (accept_leader intn c msg out).1.1 (accept_leader intn c msg out).2 ∧
  out_PersistRequest (accept_leader intn c msg out).1.2 = out_PersistRequest out.
Proof.
  intros Hle. unfold accept_leader. set (newer := _ <? _).
  set (b := newer || _). destruct (step_down_if_spec b c (m_Term msg) out) as (_ & _ & Ht & _ & Hid).
  destruct (step_down_if_retermed b c (m_Term msg) out) as [[Hl Hs Hc Hsm] Ho].
  assert (Hv : keeps_vote (c_votedFor c) (c_votedFor (step_down_if b c (m_Term msg) out).1)).
  { unfold step_down_if. destruct b; [by right|by left]. }
  destruct (step_down_if b c (m_Term msg) out) as [c1 o1]. cbn [fst snd] in *. split; [|done].
  constructor; [done|done|done|]. intros Hn. split; [|exact Hv]. cbn. rewrite Ht.
  unfold b, newer in *. destruct (_ || _) eqn:E; [|done]. bool_to_prop. lia.
Qed.

Lemma append_scan_more c idx es c1 tf new :
  append_scan c idx es = Ok (c1, tf, new) → c_votedFor c1 = c_votedFor c ∧ c_cfg c1 = c_cfg c ∧ new `suffix_of` es.
Proof.
  revert idx. induction es as [|e es IH]; intros idx H; cbn [append_scan] in H.
  { injection H as <- _ <-. done. }
  destruct ((idx <=? lastIndex c) && (termAt c idx =? e_Term e)).
  { apply IH in H as (H1 & H2 & H3). split; [done|]. split; [done|]. by apply suffix_cons_r. }
  destruct (idx <=? lastIndex c); [|injection H as <- _ <-; done].
  destruct (idx <=? c_commitIndex c); [done|]. apply bind_Ok_inv in H as (kept & _ & H).
  injection H as <- _ <-. done.
Qed.

Lemma activate_loop_calm prior c es c' : activate_loop prior c es = Ok c' → ∀ out, calm c out c' out.
Proof.
  revert prior c. induction es as [|e es IH]; intros prior c H out; cbn [activate_loop] in H.
  { injection H as <-. apply calm_refl. }
  destruct (negb (bool_decide (e_Type e = EntryConfig))); [by eapply IH|].
  destruct (decodeConfigChange (e_Data e)) as [cc|]; [|done].
  destruct (negb (cc_establishes cc)); [by eapply IH|].
  destruct (_ && _); [done|]. eapply calm_trans; [|by eapply IH]. by constructor.
Qed.

Lemma reconfigure_calm c tf new c' : reconfigure c tf new = Ok c' → ∀ out, calm c out c' out.
Proof.
  unfold reconfigure. intros H out. destruct (negb (tf =? 0)).
  - destruct (ConfigAt c (lastIndex c)). injection H as <-. by constructor.
  - destruct (negb (zlen new =? 0)); [by eapply activate_loop_calm|]. injection H as <-. apply calm_refl.
Qed.

Lemma append_finish_calm c msg out sc tf new c' out' :
  append_finish c msg out sc tf new = Ok (c', out') →
  calm c out c' (out' <| out_PersistRequest := out_PersistRequest out |>) ∧
  (out_PersistRequest out' = out_PersistRequest out ∧ sc = false ∧ tf = 0 ∧ new = [] ∨
   ∃ seq, out_PersistRequest out' =
     Some (mkPersistRequest seq (if sc then Some (hard_state c') else None) tf new)).
Proof.
  intros H. unfold append_finish in H. cbv zeta in H.
  set (need := sc || negb (tf =? 0) || negb (zlen new =? 0)) in H.
  fold (finish_persist c out need sc tf new) in H.
  assert (Hf : calm c out (finish_persist c out need sc tf new).1.1
      ((finish_persist c out need sc tf new).1.2 <| out_PersistRequest := out_PersistRequest out |>) ∧
    out_PersistRequest (finish_persist c out need sc tf new).1.2 =
      if need then Some (mkPersistRequest (finish_persist c out need sc tf new).2
        (if sc then Some (hard_state c) else None) tf new) else out_PersistRequest out).
  { unfold finish_persist. destruct need; (split; [by constructor|done]). }
  destruct (finish_persist c out need sc tf new) as [[c1 o1] seq]. cbn [fst snd] in Hf. destruct Hf as [Hc Hp].
  apply bind_Ok_inv in H as ([c2 o2] & H1 & H2).
  assert (H12 : calm c1 o1 c2 o2).
  { revert H1. repeat case_if; try (intros [= <- <-]; by constructor).
    all: apply advanceFollowerCommit_calm. }
  assert (H2' : calm c2 o2 c' out').
  { revert H2. case_if; intros [= <- <-]; by constructor. }
  clear H1 H2. pose proof (calm_trans _ _ _ _ _ _ H12 H2') as [L1 L2 L3 L4 L5 L6].
  destruct Hc as [M1 M2 M3 M4 M5 _].
  split; [constructor; cbn; congruence|]. rewrite L6, Hp. destruct need eqn:E.
  - right. exists seq. unfold hard_state. by rewrite L3, L4, M3, M4.
  - left. unfold need in E. bool_to_prop. split; [done|]. split; [done|]. split; [done|].
    destruct new; [done|]. rewrite zlen_cons in *. pose proof (zlen_nonneg new). lia.
Qed.

Lemma handleAppendEntriesRequest_asks intn c msg c' out :
  core_wf c → append_msg_ok msg → handleAppendEntriesRequest intn c msg = Ok (c', out) → step_asks c (c', out).
Proof.
  intros Hwf (Hp0 & He & Hb) H. unfold handleAppendEntriesRequest in H.
  destruct (Z.ltb_spec (m_Term msg) (c_currentTerm c)); [injection H as <- <-; apply asks_refl|].
  destruct (accept_leader_spec intn c msg no_output) as (Hsl & Hro & _ & _); [done|].
  destruct (accept_leader_retermed intn c msg no_output) as [Hrt Ho]; [done|].
  destruct (accept_leader intn c msg no_output) as [[c1 o1] sc]. cbn [fst snd] in *.
  assert (Hwf1 : core_wf c1) by (eapply wf_same_log; [done|done|by apply role_ok_follower]).
  destruct (Z.ltb_spec (m_PrevLogIndex msg) (c_snapshotIndex c1)).
  { apply Ok_inj in H as <-. by apply persist_if_asks. }
  destruct (Z.ltb_spec (lastIndex c1) (m_PrevLogIndex msg)); cbn [orb] in H.
  { destruct (conflictHint _ _). apply Ok_inj in H as <-. by apply persist_if_asks. }
  destruct (_ =? _) eqn:Hterm; cbn [negb] in H.
  2: { destruct (conflictHint _ _). apply Ok_inj in H as <-. by apply persist_if_asks. }
  pose proof (zlen_nonneg (m_Entries msg)). pose proof (wf_bound c1 Hwf1).
  assert (m_PrevLogIndex msg + zlen (m_Entries msg) + 1 < 2 ^ 64) by (destruct Hb as [->|]; [rewrite zlen_nil|]; lia).
  rewrite u64_small in H by (unfold is_u64; lia).
  apply bind_Ok_inv in H as ([[c2 tf] new] & Hscan & H).
  pose proof (append_scan_spec c1 (m_PrevLogIndex msg) (m_Entries msg) Hwf1 He ltac:(lia) ltac:(lia)) as Hsp.
  rewrite Hscan in Hsp. cbn [safe] in Hsp. destruct Hsp as (k & _ & _ & Hk & Htf & Hs2 & _ & Ht2 & _).
  destruct (append_scan_more _ _ _ _ _ _ Hscan) as (Hv2 & Hc2 & _).
  fold (reconfigure (c2 <| c_log := c_log c2 ++ new |>) tf new) in H.
  apply bind_Ok_inv in H as (c3 & Hrec & H). pose proof (reconfigure_calm _ _ _ _ Hrec o1) as [R1 R2 R3 R4 R5 _].
  destruct (append_finish_calm _ _ _ _ _ _ _ _ H) as [[F1 F2 F3 F4 F5 _] Hpr].
  pose proof (wf_commit c1 Hwf1). destruct Hrt as [T1 T2 T3 T4].
  assert (Hsnap2 : c_snapshotIndex c2 = c_snapshotIndex c1) by apply Hs2.
  cbn in R1, R2, R3, R4, R5.
  assert (Hterm' : c_currentTerm c' = c_currentTerm c1) by congruence.
  assert (Hvote' : c_votedFor c' = c_votedFor c1) by congruence.
  assert (Hlast : lastIndex c1 = lastIndex c) by (unfold lastIndex; congruence).
  constructor; cbn [fst snd]; [congruence|congruence|].
  destruct Hpr as [(-> & -> & -> & ->)|(seq & ->)].
  - rewrite Ho. cbn. rewrite F1, R1, app_nil_r. destruct (Hk eq_refl) as [_ ->].
    rewrite Hterm', Hvote'. split; [done|]. by apply T4.
  - cbn [pr_TruncateFrom pr_Entries pr_HardState]. rewrite Hterm', Hvote', F1, R1.
    split; [|split; [|destruct sc; [done|by apply T4]]].
    + destruct (Z.eqb_spec tf 0) as [E|E]; [destruct (Hk E) as [_ ->]; congruence|].
      destruct (Htf E) as [_ ->]. congruence.
    + destruct (decide (tf = 0)) as [E|E]; [by left|right]. destruct (Htf E) as [? _]. lia.
Qed.

Lemma handleAppendEntriesResponse_asks intn c msg c' out :
  handleAppendEntriesResponse intn c msg = Ok (c', out) → step_asks c (c', out).
Proof.
  unfold handleAppendEntriesResponse. case_if; [intros <-%Ok_inj; by apply newer_term_response_asks|].
  case_if; [intros [= <- <-]; apply asks_refl|]. case_if.
  - apply calms_asks. intros c1 o1 H. apply bind_Ok_inv in H as (c2 & H2 & H).
    eapply calm_trans; [by eapply note_match_calm|]. revert H. apply calms_bind; [apply advanceLeaderCommit_calm|].
    intros c3 o3 _. apply continue_replication_calm.
  - apply calms_asks. cbv zeta. intros c1 o1 H. apply bind_Ok_inv in H as (nx & _ & H).
    revert H. case_if; [|intros [= <- <-]; by constructor].
    intros H. apply bind_Ok_inv in H as ([c3 m] & H3 & H). injection H as <- <-.
    eapply calm_trans; [|apply calm_send]. eapply calm_trans; [|by eapply appendEntriesMessage_calm]. by constructor.
Qed.

Lemma handleInstallSnapshotResponse_asks intn c msg c' out :
  handleInstallSnapshotResponse intn c msg = Ok (c', out) → step_asks c (c', out).
Proof.
  unfold handleInstallSnapshotResponse. case_if; [intros <-%Ok_inj; by apply newer_term_response_asks|].
  case_if; [intros [= <- <-]; apply asks_refl|].
  apply calms_asks. intros c1 o1 H. apply bind_Ok_inv in H as (c2 & H2 & H).
  eapply calm_trans; [by eapply note_match_calm|]. revert H. apply calms_bind; [apply advanceLeaderCommit_calm|].
  intros c3 o3 _. apply continue_replication_calm.
Qed.

Lemma handlePropose_asks c data c' out :
  core_wf c → lastIndex c + 2 < 2 ^ 64 → handlePropose c data = Ok (c', out) → step_asks c (c', out).
Proof.
  intros Hwf Hb. unfold handlePropose. case_bool_decide as Hr; cbn [negb]; [|intros [= <- <-]; apply asks_refl].
  intros H. destruct (appendLeaderEntry_post c EntryNormal data) as (r & Hr' & _ & [A1 _ A3 _ _ A6 A7] & seq & Hpr); [done..|].
  assert (Hv : c_votedFor r.1 = c_votedFor c).
  { rewrite Hr' in H. apply Ok_inj in H as ->. unfold appendLeaderEntry in Hr'. cbv zeta in Hr'.
    apply bind_Ok_inv in Hr' as (mt & _ & Hr'). rewrite bool_decide_false, bind_Ok in Hr' by done.
    cbn [await_self_match nextPersistSeq] in Hr'.
    apply broadcast_calm in Hr' as [_ _ _ Hv _ _]. exact Hv. }
  rewrite Hr' in H. apply Ok_inj in H as ->. cbn [fst snd] in *.
  constructor; cbn [fst snd]; [done|done|]. rewrite Hpr. cbn. split; [done|]. split; [by left|].
  split; [done|]. left. done.
Qed.

(** ** Installing a snapshot *)

Lemma handleInstallSnapshotRequest_asks intn c msg :
  installs c (InputMessage msg) = None → m_Type msg = MsgInstallSnapshotRequest → core_wf c →
  step_asks c (handleInstallSnapshotRequest intn c msg).
Proof.
  intros Hi Ht Hwf. unfold installs in Hi. rewrite bool_decide_true in Hi by done. cbn [andb] in Hi.
  unfold handleInstallSnapshotRequest.
  destruct (Z.ltb_spec (m_Term msg) (c_currentTerm c)); [apply asks_refl|].
  rewrite (proj2 (Z.leb_le _ _)) in Hi by done. cbn [andb] in Hi.
  destruct (Z.ltb_spec (c_commitIndex c) (m_LastIncludedIndex msg)) as [|Hle]; [done|].
  destruct (accept_leader_spec intn c msg no_output) as (Hsl & _); [done|].
  destruct (accept_leader_retermed intn c msg no_output) as [Hrt Ho]; [done|].
  destruct (accept_leader intn c msg no_output) as [[c1 o1] sc]. cbn [fst snd] in *.
  rewrite (proj2 (Z.leb_le (m_LastIncludedIndex msg) (c_commitIndex c1))) by (rewrite (sl_commit _ _ Hsl); done).
  rewrite orb_true_r. by apply persist_if_asks.
Qed.

Lemma Step_asks intn c i c' out :
  core_wf c → input_ok c i → installs c i = None → Step intn c i = Ok (c', out) → step_asks c (c', out).
Proof.
  intros Hwf Hok Hi H. destruct i as [| |msg|data|seq]; cbn [Step input_ok] in *.
  - by eapply handleElectionTimeout_asks.
  - revert H. unfold handleHeartbeatTimeout. case_if; [intros [= <- <-]; apply asks_refl|].
    apply calms_asks. intros c1 o1 H. eapply calm_trans; [|by eapply broadcast_calm]. by constructor.
  - unfold handleMessage, msg_ok in *. destruct (m_Type msg) eqn:T.
    + apply Ok_inj in H as <-. apply handleRequestVoteRequest_asks.
    + by eapply handleRequestVoteResponse_asks.
    + by eapply handleAppendEntriesRequest_asks.
    + by eapply handleAppendEntriesResponse_asks.
    + apply Ok_inj in H as <-. by apply handleInstallSnapshotRequest_asks.
    + by eapply handleInstallSnapshotResponse_asks.
  - by eapply handlePropose_asks.
  - revert H. apply calms_asks, handlePersistenceComplete_calm.
Qed.

(** ** The storage mirrors the core *)

(** The stored term is the core's, and so is the stored vote unless the core
    gave up its own candidacy in this term. *)
Record mirrors (c : Core) (v : view) : Prop := {
  mi_base : v_base v = c_snapshotIndex c;
  mi_log : v_entries v = Entries c;
  mi_term : hs_CurrentTerm (v_hs v) = c_currentTerm c;
  mi_vote : c_votedFor c = hs_VotedFor (v_hs v) ∨ c_votedFor c = noVote
}.

(** What Go's types guarantee of a request, and that indices fit an [int]. *)
Definition request_typed (v : view) (pr : option PersistRequest) : Prop :=
  match pr with
  | None => True
  | Some pr => Forall entry_wf (pr_Entries pr) ∧ view_fits v (zlen (pr_Entries pr)) ∧
      ∀ hs, pr_HardState pr = Some hs → hard_state_wf hs
  end.

Lemma mirrors_lastIndex c v :
  core_wf c → mirrors c v → lastIndex c = v_base v + zlen (v_entries v).
Proof.
  intros Hwf [-> -> _ _]. unfold lastIndex, Entries. destruct (wf_log_cons c Hwf) as (e0 & es & ->).
  change (drop 1 (e0 :: es)) with es. rewrite zlen_cons. lia.
Qed.

Lemma asks_persist_ok c c' pr v :
  core_wf c → mirrors c v → request_typed v pr → asks c c' pr → persist_ok v pr.
Proof.
  intros Hwf Hm Ht [_ _ Ha]. destruct pr as [pr|]; [|done]. destruct Ha as (_ & Hf & _).
  destruct Ht as (H1 & H2 & H3). pose proof (mirrors_lastIndex _ _ Hwf Hm). pose proof (mi_base _ _ Hm).
  split; [|done]. destruct Hf as [Hf|Hf]; [by left|right]. lia.
Qed.

Lemma asks_mirrors c c' pr v :
  core_wf c → mirrors c v → asks c c' pr → mirrors c' (view_persist pr v).
Proof.
  intros Hwf [Hb Hl Ht Hv] [Hs _ Ha]. destruct pr as [pr|]; cbn [view_persist].
  2: { destruct Ha as (H1 & H2 & H3). constructor; [congruence|unfold Entries in *; congruence|congruence|].
       destruct H3 as [->| ->]; [done|by right]. }
  destruct Ha as (Hlog & Htf & Hhs). destruct (wf_log_cons c Hwf) as (e0 & es & Hc).
  assert (Hlog' : v_entries (view_append (pr_Entries pr)
      (if negb (pr_TruncateFrom pr =? 0) then view_truncate (pr_TruncateFrom pr) v else v)) = Entries c').
  { unfold Entries in *. rewrite Hlog. rewrite Hc in *. cbn [drop] in Hl.
    destruct (Z.eqb_spec (pr_TruncateFrom pr) 0); cbn [negb view_append v_entries view_truncate]; [by rewrite Hl|].
    destruct Htf as [|Htf]; [done|]. rewrite Hl, Hb.
    replace (Z.to_nat (pr_TruncateFrom pr - c_snapshotIndex c))
      with (S (Z.to_nat (pr_TruncateFrom pr - 1 - c_snapshotIndex c))) by lia. done. }
  assert (Hbase : v_base (if negb (pr_TruncateFrom pr =? 0) then view_truncate (pr_TruncateFrom pr) v else v) =
    c_snapshotIndex c') by (rewrite Hs; by case_if).
  assert (Hhs' : v_hs (if negb (pr_TruncateFrom pr =? 0) then view_truncate (pr_TruncateFrom pr) v else v) = v_hs v)
    by (by case_if).
  destruct (pr_HardState pr) as [hs|].
  - subst hs. constructor; [exact Hbase|exact Hlog'|done|by left].
  - destruct Hhs as [H1 H2].
    constructor; [exact Hbase|exact Hlog'| |]; cbn [view_append v_hs]; rewrite Hhs'; [congruence|].
    destruct H2 as [->| ->]; [done|by right].
Qed.


Definition demo_memory : MemoryStorage := mkMemoryStorage (mkHardState 2 []) demo_entries 0 0 0.

