(* ===== verification/RaftDriver.v ===== *)
(** * What a driver may rely on

    Facts about the outputs of the core that the code of its driver depends
    on: an output that asks for persistence delivers no entries, the answer to
    a persisted request asks for nothing more, a new leader has its old log,
    and a leader that stops being one says so. *)

From S2P Require Import Prelude Bytes RaftTypes RaftMembership RaftMembershipSpec RaftCore RaftInv RaftSpec Storage StorageSpec RaftPersist.

(** ** Helpers that do not decide about leadership *)

Record drives (c : Core) (out : Output) (c' : Core) (out' : Output) : Prop := {
  dr_log : c_log c' = c_log c ∧ c_snapshotIndex c' = c_snapshotIndex c;
  dr_request : out_PersistRequest out' = out_PersistRequest out;
  dr_leader : out_BecameLeader out' = out_BecameLeader out;
  dr_down : out_SteppedDown out = true → out_SteppedDown out' = true;
  dr_role : c_role c' = c_role c ∨ c_role c = Leader ∧ c_role c' = Follower ∧ out_SteppedDown out' = true
}.

Lemma drives_refl c out : drives c out c out.
Proof. constructor; auto. Qed.

Lemma drives_trans c o c1 o1 c2 o2 : drives c o c1 o1 → drives c1 o1 c2 o2 → drives c o c2 o2.
Proof.
  intros [[A1 A2] A3 A4 A5 A6] [[B1 B2] B3 B4 B5 B6]. constructor; [split; congruence|congruence|congruence|auto|].
  destruct A6 as [A6|(A6 & A7 & A8)], B6 as [B6|(B6 & B7 & B8)].
  - left. congruence.
  - right. split; [congruence|]. done.
  - right. split; [done|]. split; [congruence|]. auto.
  - congruence.
Qed.

Lemma drives_lastIndex c o c1 o1 : drives c o c1 o1 → lastIndex c1 = lastIndex c.
Proof. intros [[H1 H2] _ _ _ _]. unfold lastIndex. by rewrite H1, H2. Qed.

(** A computation on a core and its output. *)
Definition drive (r : result raft_panic (Core * Output)) (c : Core) (out : Output) : Prop :=
  ∀ c' out', r = Ok (c', out') → drives c out c' out'.

Lemma drive_ok c out c' out' : drives c out c' out' → drive (Ok (c', out')) c out.
Proof. intros H c1 o1 [= <- <-]. done. Qed.

Lemma drive_bind r f c out :
  drive r c out → (∀ c1 o1, drive (f (c1, o1)) c1 o1) → drive (r ≫= f) c out.
Proof.
  intros Hr Hf c' out' H. apply bind_Ok_inv in H as ([c1 o1] & H1 & H2).
  eapply drives_trans; [by apply Hr|by eapply Hf].
Qed.

Lemma drive_first {A} (r : result raft_panic A) f c out :
  (∀ a, drive (f a) c out) → drive (r ≫= f) c out.
Proof. intros Hf c' out' H. apply bind_Ok_inv in H as (a & _ & H). by eapply Hf. Qed.

(** A change of fields that the relation does not see, then a drive. *)
Lemma drive_after r c out c1 o1 : drives c out c1 o1 → drive r c1 o1 → drive r c out.
Proof. intros H Hr c' out' E. eapply drives_trans; [done|by apply Hr]. Qed.

Lemma drives_send c out m : drives c out c (send m out).
Proof. constructor; cbn; auto. Qed.

Lemma appendEntriesMessage_drives c peer c' m :
  appendEntriesMessage c peer = Ok (c', m) → ∀ out, drives c out c' out.
Proof.
  unfold appendEntriesMessage. intros H out. case_match; [injection H as <- _; apply drives_refl|].
  apply bind_Ok_inv in H as ([es nn] & _ & H). apply bind_Ok_inv in H as (nx & _ & H).
  injection H as <- _. constructor; cbn; auto.
Qed.

Lemma replicate_to_drive skip ms c out : drive (replicate_to skip ms c out) c out.
Proof.
  revert c out. induction ms as [|m ms IH]; intros c out; cbn [replicate_to]; [by apply drive_ok, drives_refl|].
  case_match; [apply IH|]. intros c' out' Hr. apply bind_Ok_inv in Hr as ([c1 msg] & H1 & H2).
  eapply drives_trans; [by eapply appendEntriesMessage_drives|].
  eapply drives_trans; [apply (drives_send _ _ msg)|]. by apply IH.
Qed.

Lemma broadcast_drive c out : drive (broadcast c out) c out.
Proof. apply drive_bind; [apply replicate_to_drive|]. intros c1 o1. apply replicate_to_drive. Qed.

Lemma advanceFollowerCommit_drive c n out : drive (advanceFollowerCommit c n out) c out.
Proof.
  unfold advanceFollowerCommit. cbv zeta. case_match; [by apply drive_ok, drives_refl|].
  apply drive_first. intros es. apply drive_ok. constructor; cbn; auto.
Qed.

Lemma maybeStepDown_drives c out :
  drives c out (maybeStepDownAfterSelfRemoval c out).1 (maybeStepDownAfterSelfRemoval c out).2.
Proof.
  unfold maybeStepDownAfterSelfRemoval. case_bool_decide as Hr; cbn [negb orb].
  2: { apply drives_refl. }
  case_match; [apply drives_refl|]. constructor; cbn; auto.
Qed.

Lemma advance_loop_drive fuel c n out : drive (advance_loop fuel c n out) c out.
Proof.
  revert n. induction fuel as [|fuel IH]; intros n; cbn [advance_loop]; [by apply drive_ok, drives_refl|].
  repeat case_match; try apply IH; [by apply drive_ok, drives_refl|].
  apply drive_first. intros es c' out' Hr. injection Hr as Hr.
  match type of Hr with maybeStepDownAfterSelfRemoval ?c1 ?o1 = _ =>
    pose proof (maybeStepDown_drives c1 o1) as Hm; rewrite Hr in Hm; cbn [fst snd] in Hm;
    eapply (drives_trans _ _ c1 o1); [constructor; cbn; auto|exact Hm] end.
Qed.

Lemma note_match_drives c from m c' : note_match c from m = Ok c' → ∀ out, drives c out c' out.
Proof.
  unfold note_match. intros H out. apply bind_Ok_inv in H as (x & _ & H).
  apply bind_Ok_inv in H as (y & _ & H). injection H as <-. constructor; cbn; auto.
Qed.

Lemma continue_replication_drive c from out : drive (continue_replication c from out) c out.
Proof.
  unfold continue_replication. case_match; [|by apply drive_ok, drives_refl].
  intros c' out' Hr. apply bind_Ok_inv in Hr as ([c1 msg] & H1 & H2). injection H2 as <- <-.
  eapply drives_trans; [by eapply appendEntriesMessage_drives|apply drives_send].
Qed.

Lemma release_pending_drive c out p : drive (release_pending c out p) c out.
Proof.
  unfold release_pending. repeat case_match;
    try apply drive_ok; try apply drives_refl; try apply drives_send; try apply advanceFollowerCommit_drive.
  all: apply drive_first; intros x; eapply drive_after; [|apply advance_loop_drive]; constructor; cbn; auto.
Qed.

Lemma release_loop_drives ps c out rem c' out' rem' :
  release_loop c out rem ps = Ok (c', out', rem') → drives c out c' out'.
Proof.
  revert c out rem. induction ps as [|p ps IH]; intros c out rem H; cbn [release_loop] in H.
  { injection H as <- <- _. apply drives_refl. }
  case_match; [by eapply IH|]. apply bind_Ok_inv in H as ([c1 o1] & H1 & H).
  eapply drives_trans; [by eapply release_pending_drive|by eapply IH].
Qed.

Lemma handlePersistenceComplete_drive c seq : drive (handlePersistenceComplete c seq) c no_output.
Proof.
  unfold handlePersistenceComplete. cbv zeta. intros c' out' H.
  apply bind_Ok_inv in H as ([[c1 o1] rem] & H1 & H). injection H as <- <-.
  apply release_loop_drives in H1. eapply drives_trans; [|eapply drives_trans; [exact H1|constructor; cbn; auto]].
  case_match; constructor; cbn; auto.
Qed.

(** ** Outputs of a step *)

(** Where the entries of the log come from: it had them, the input carries
    them, or they are the empty sentinel. *)
Definition from_input (new : list Entry) (c c' : Core) : Prop :=
  ∀ e, e ∈ c_log c' → e ∈ c_log c ∨ e ∈ new ∨ e_Data e = [].

Lemma from_input_same new c c' : c_log c' = c_log c → from_input new c c'.
Proof. intros H e He. left. by rewrite <- H. Qed.

Record driver_view (new : list Entry) (c c' : Core) (out : Output) : Prop := {
  dv_origin : from_input new c c';
  dv_request : out_PersistRequest out ≠ None → out_CommittedEntries out = [];
  dv_leader : out_BecameLeader out = true →
    out_CommittedEntries out = [] ∧ c_role c' = Leader ∧ c_log c' = c_log c ∧ c_snapshotIndex c' = c_snapshotIndex c;
  dv_role : c_role c = Leader →
    c_role c' = Leader ∧ lastIndex c ≤ lastIndex c' ∨ c_role c' ≠ Leader ∧ out_SteppedDown out = true
}.

Lemma view_refl new c out :
  out_BecameLeader out = false → (out_PersistRequest out ≠ None → out_CommittedEntries out = []) → driver_view new c c out.
Proof. intros H1 H2. constructor; [by apply from_input_same|done|congruence|]. intros. left. split; [done|lia]. Qed.

(** A drive that starts from an empty output. *)
Lemma drives_view new c c' out : drives c no_output c' out → driver_view new c c' out.
Proof.
  intros Hd. pose proof (drives_lastIndex _ _ _ _ Hd) as Hl. destruct Hd as [[H0 _] H1 H2 _ H3]. constructor.
  - by apply from_input_same.
  - by rewrite H1.
  - by rewrite H2.
  - intros Hr. destruct H3 as [H3|(_ & H3 & H4)]; [left; split; [congruence|lia]|right]. by rewrite H3.
Qed.

(** Fields of an output that only carry information. *)
Lemma request_votes_flags c out :
  out_PersistRequest (request_votes c out) = out_PersistRequest out ∧
  out_BecameLeader (request_votes c out) = out_BecameLeader out ∧
  out_CommittedEntries (request_votes c out) = out_CommittedEntries out.
Proof.
  unfold request_votes. generalize (Voters (c_activeConfig c)). intros ms. revert out.
  induction ms as [|m ms IH]; intros out; [done|]. cbn [foldl]. case_bool_decide; [apply IH|].
  destruct (IH (send ((message MsgRequestVoteRequest (self c) (m_ID m) (c_currentTerm c))
            <| m_LastLogIndex := lastIndex c |> <| m_LastLogTerm := lastTerm c |>) out)) as (-> & -> & ->). done.
Qed.

Lemma becomeLeader_view new c c0 out c' out' :
  c_log c = c_log c0 → c_snapshotIndex c = c_snapshotIndex c0 → c_role c0 ≠ Leader → out_CommittedEntries out = [] →
  becomeLeader c out = Ok (c', out') → driver_view new c0 c' out'.
Proof.
  intros Hl Hs Hr Hc H. destruct (becomeLeader_spec c out) as (x & y & msgs & E & _). rewrite E in H. apply Ok_inj in H.
  assert (c' = _ ∧ out' = _) as [-> ->] by (split; [exact (eq_sym (f_equal fst H))|exact (eq_sym (f_equal snd H))]).
  constructor; [by apply from_input_same|done..].
Qed.

Lemma persist_hard_state_flags c out :
  c_log (persist_hard_state c out).1 = c_log c ∧ c_snapshotIndex (persist_hard_state c out).1 = c_snapshotIndex c ∧
  out_BecameLeader (persist_hard_state c out).2 = out_BecameLeader out ∧
  out_CommittedEntries (persist_hard_state c out).2 = out_CommittedEntries out.
Proof. done. Qed.

Lemma reset_election_timer_flags c intn out :
  out_BecameLeader (reset_election_timer c intn out) = out_BecameLeader out ∧
  out_CommittedEntries (reset_election_timer c intn out) = out_CommittedEntries out.
Proof. done. Qed.

Lemma handleElectionTimeout_view intn new c c' out : handleElectionTimeout intn c = Ok (c', out) → driver_view new c c' out.
Proof.
  unfold handleElectionTimeout. case_bool_decide as Hr; [intros [= <- <-]; by apply view_refl|].
  cbv zeta. case_if; [intros [= <- <-]; constructor; [by apply from_input_same|done..]|]. set (c0 := become_candidate _).
  assert (Hc0 : c_log c0 = c_log c ∧ c_snapshotIndex c0 = c_snapshotIndex c) by done. clearbody c0.
  destruct (persist_hard_state_flags c0 no_output) as (P1 & P2 & P3 & P4).
  destruct (persist_hard_state c0 no_output) as [c1 o1]. cbn [fst snd] in *.
  destruct (reset_election_timer_flags c1 intn o1) as [R1 R2].
  destruct (request_votes_flags c1 (reset_election_timer c1 intn o1)) as (_ & F2 & F3).
  set (o2 := request_votes _ _) in *. clearbody o2.
  assert (B2 : out_BecameLeader o2 = false) by (by rewrite F2, R1, P3).
  assert (C2 : out_CommittedEntries o2 = []) by (by rewrite F3, R2, P4). destruct Hc0 as [L0 S0].
  case_if.
  - apply becomeLeader_view; [congruence..|done|done].
  - intros [= <- <-]. constructor; [apply from_input_same; congruence|done|congruence|done].
Qed.

Lemma stepDownTo_flag c term : c_role c = Leader → stepDownTo c term = ((stepDownTo c term).1, true).
Proof. intros Hr. unfold stepDownTo. by rewrite Hr. Qed.

Lemma newer_term_response_flags intn c term out :
  out_BecameLeader (newer_term_response intn c term out).2 = out_BecameLeader out ∧
  (c_role c = Leader → out_SteppedDown (newer_term_response intn c term out).2 = true).
Proof.
  unfold newer_term_response. split.
  - by destruct (stepDownTo c term) as [c1 []].
  - intros Hr. rewrite stepDownTo_flag by done. by destruct (stepDownTo c term) as [c1 was].
Qed.

Lemma newer_term_response_view intn new c term c' out' :
  newer_term_response intn c term no_output = (c', out') → driver_view new c c' out'.
Proof.
  intros H. destruct (newer_term_response_spec intn c term no_output) as (Hsl & Hrole & _ & Hcom).
  destruct (newer_term_response_flags intn c term no_output) as [Hb Hd].
  rewrite H in Hsl, Hrole, Hcom, Hb, Hd. cbn [fst snd] in *. clear H. constructor.
  - by apply from_input_same, Hsl.
  - done.
  - by rewrite Hb.
  - intros Hr. right. split; [congruence|by apply Hd].
Qed.

Lemma step_down_if_flags b c term out :
  out_PersistRequest (step_down_if b c term out).2 = out_PersistRequest out ∧
  out_BecameLeader (step_down_if b c term out).2 = out_BecameLeader out ∧
  (b = true → c_role c = Leader → out_SteppedDown (step_down_if b c term out).2 = true).
Proof.
  unfold step_down_if. destruct b; [|done]. destruct (stepDownTo c term) as [c1 was] eqn:E. cbn [fst snd].
  split; [by destruct was|]. split; [by destruct was|]. intros _ Hr. rewrite stepDownTo_flag in E by done.
  by injection E as _ <-.
Qed.

Lemma handleRequestVoteRequest_view intn new c msg c' out :
  handleRequestVoteRequest intn c msg = (c', out) → driver_view new c c' out.
Proof.
  unfold handleRequestVoteRequest. cbv zeta.
  case_if; [intros [= <- <-]; by apply view_refl|]. case_if; [intros [= <- <-]; by apply view_refl|].
  case_if; [intros [= <- <-]; by apply view_refl|]. set (newer := c_currentTerm c <? m_Term msg).
  destruct (step_down_if_spec newer c (m_Term msg) no_output) as (Hsl & Hrole & _ & Hcom & _).
  destruct (step_down_if_flags newer c (m_Term msg) no_output) as (_ & Hb & Hd).
  destruct (step_down_if newer c (m_Term msg) no_output) as [c1 o1]. cbn [fst snd] in *.
  assert (Hfin : ∀ c2 o2, same_log c1 c2 → c_role c2 = c_role c1 → out_CommittedEntries o2 = [] →
    out_BecameLeader o2 = false → out_SteppedDown o2 = out_SteppedDown o1 → driver_view new c c2 o2).
  { intros c2 o2 S R C B D. constructor; [apply from_input_same; by rewrite (sl_log _ _ S), (sl_log _ _ Hsl)|done|congruence|]. intros Hr. rewrite R, Hrole, D.
    destruct newer; [right; split; [done|by apply Hd]|left]. split; [done|].
    rewrite (same_log_lastIndex _ _ S), (same_log_lastIndex _ _ Hsl). lia. }
  case_if; intros H.
  - destruct (grant_vote_spec intn c1 msg o1) as (S & R & _ & _ & _ & _ & C). rewrite H in *. cbn [fst snd] in *.
    apply Hfin; [done|done|by rewrite C, Hcom| |]; unfold grant_vote in H; cbn in H; by injection H as _ <-.
  - destruct (refuse_vote_spec intn newer c1 msg o1) as (S & R & _ & _ & _ & _ & C). rewrite H in *. cbn [fst snd] in *.
    apply Hfin; [done|done|by rewrite C, Hcom| |]; unfold refuse_vote in H; destruct newer; cbn in H;
      try (by injection H as _ <-); injection H as _ <-; by case_match.
Qed.

Lemma handleRequestVoteResponse_view intn new c msg c' out :
  handleRequestVoteResponse intn c msg = Ok (c', out) → driver_view new c c' out.
Proof.
  unfold handleRequestVoteResponse. cbv zeta. case_if; [intros H%Ok_inj; by eapply newer_term_response_view|].
  case_bool_decide as Hr; cbn [negb orb]; [|intros [= <- <-]; by apply view_refl].
  case_if; [intros [= <- <-]; by apply view_refl|]. intros H. apply bind_Ok_inv in H as (v & _ & H). revert H.
  case_if.
  - apply becomeLeader_view; [done..| |done]. by rewrite Hr.
  - intros [= <- <-]. constructor; [by apply from_input_same|done|done|]. cbn. rewrite Hr. done.
Qed.

(** ** A follower's handlers *)

(** What the rest of a handler keeps once the node is a follower. *)
Record follows (c : Core) (out : Output) (c' : Core) (out' : Output) : Prop := {
  fo_role : c_role c' = c_role c;
  fo_leader : out_BecameLeader out' = out_BecameLeader out;
  fo_down : out_SteppedDown out' = out_SteppedDown out;
  fo_request : out_CommittedEntries out = [] → out_PersistRequest out' ≠ None → out_CommittedEntries out' = []
}.

Lemma follows_refl c out : out_PersistRequest out = None → follows c out c out.
Proof. intros H. constructor; auto. Qed.

Lemma accept_leader_flags intn c msg :
  out_BecameLeader (accept_leader intn c msg no_output).1.2 = false ∧
  out_PersistRequest (accept_leader intn c msg no_output).1.2 = None ∧
  (c_role c = Leader → out_SteppedDown (accept_leader intn c msg no_output).1.2 = true).
Proof.
  unfold accept_leader. set (b := (c_currentTerm c <? m_Term msg) || negb (bool_decide (c_role c = Follower))).
  destruct (step_down_if_flags b c (m_Term msg) no_output) as (F1 & F2 & F3).
  destruct (step_down_if b c (m_Term msg) no_output) as [c1 o1]. cbn [fst snd] in *.
  assert (H : ∀ c2, out_BecameLeader (reset_election_timer c2 intn o1) = out_BecameLeader o1 ∧
    out_PersistRequest (reset_election_timer c2 intn o1) = out_PersistRequest o1 ∧
    out_SteppedDown (reset_election_timer c2 intn o1) = out_SteppedDown o1) by done.
  destruct (H (c1 <| c_leaderID := m_From msg |> <| c_heardFromLeader := true |>)) as (-> & -> & ->).
  split; [by rewrite F2|]. split; [by rewrite F1|]. intros Hr. apply F3; [|done]. unfold b. rewrite Hr. apply orb_true_r.
Qed.

Lemma persist_if_follows b c out :
  out_PersistRequest out = None → follows c out (persist_if b c out).1 (persist_if b c out).2.
Proof. intros Ho. destruct b; [|by apply follows_refl]. by constructor. Qed.

Lemma advanceFollowerCommit_keeps c n out c' out' :
  advanceFollowerCommit c n out = Ok (c', out') →
  c_role c' = c_role c ∧ out_BecameLeader out' = out_BecameLeader out ∧ out_SteppedDown out' = out_SteppedDown out ∧
  out_PersistRequest out' = out_PersistRequest out.
Proof.
  unfold advanceFollowerCommit. cbv zeta. case_if; [by intros [= <- <-]|].
  intros H. apply bind_Ok_inv in H as (es & _ & H). by injection H as <- <-.
Qed.

Lemma append_finish_follows c msg out sc tf new c' out' :
  out_PersistRequest out = None → append_finish c msg out sc tf new = Ok (c', out') → follows c out c' out'.
Proof.
  intros Ho. unfold append_finish. cbv zeta.
  destruct (sc || negb (tf =? 0) || negb (zlen new =? 0)) eqn:En.
  - cbn [nextPersistSeq]. set (c1 := c <| c_persistSeq := _ |>). set (o1 := out <| out_PersistRequest := _ |>).
    assert (F : c_role c1 = c_role c ∧ out_BecameLeader o1 = out_BecameLeader out ∧
      out_SteppedDown o1 = out_SteppedDown out ∧ out_CommittedEntries o1 = out_CommittedEntries out) by done.
    clearbody c1 o1. destruct F as (F1 & F2 & F3 & F4). intros H.
    apply bind_Ok_inv in H as ([c2 o2] & H1 & H2).
    assert (c_role c2 = c_role c1 ∧ o2 = o1) as [R ->].
    { revert H1. repeat case_if; by intros [= <- <-]. }
    injection H2 as <- <-. constructor; [cbn; congruence|done|done|congruence].
  - intros H. apply bind_Ok_inv in H as ([c2 o2] & H1 & H2). injection H2 as <- <-.
    assert (c_role c2 = c_role c ∧ out_BecameLeader o2 = out_BecameLeader out ∧ out_SteppedDown o2 = out_SteppedDown out ∧
      out_PersistRequest o2 = out_PersistRequest out) as (R1 & R2 & R3 & R4).
    { revert H1. repeat case_if; try (by intros [= <- <-]); apply advanceFollowerCommit_keeps. }
    constructor; cbn; congruence.
Qed.

Lemma append_scan_role c idx es c1 tf new :
  append_scan c idx es = Ok (c1, tf, new) →
  c_role c1 = c_role c ∧ ∀ e, (e ∈ c_log c1 → e ∈ c_log c) ∧ (e ∈ new → e ∈ es).
Proof.
  revert idx. induction es as [|e es IH]; intros idx; cbn [append_scan]; [by intros [= <- _ <-]|].
  case_if.
  { intros H. destruct (IH _ H) as [H1 H2]. split; [done|]. intros x. split; [apply H2|]. intros Hx. right. by apply H2. }
  case_if; [|by intros [= <- _ <-]]. case_if; [done|].
  intros H. apply bind_Ok_inv in H as (k & Hk & H). injection H as <- _ <-. split; [done|]. intros x. split; [|done].
  cbn. unfold log_slice in Hk. revert Hk. case_if; [done|]. intros [= <-] Hx. rewrite drop_0 in Hx. cbn in Hx.
  by apply elem_of_take in Hx as (i & Hx & _); eapply list_elem_of_lookup_2.
Qed.

Lemma reconfigure_role c tf new c' : reconfigure c tf new = Ok c' → c_role c' = c_role c ∧ c_log c' = c_log c.
Proof.
  unfold reconfigure. case_if.
  - destruct (ConfigAt c (lastIndex c)) as [cfg i]. by intros [= <-].
  - case_if; [|by intros [= <-]]. intros H. unfold activateFromAppendedEntries in H.
    pose proof (activate_loop_spec (c_activeConfig c) c new) as S. rewrite H in S. destruct S as (_ & S & R & _). split; [done|]. by rewrite (sl_log _ _ S).
Qed.

Lemma persist_if_log b c out c' out' : persist_if b c out = (c', out') → c_log c' = c_log c.
Proof. destruct b; by intros [= <- <-]. Qed.

Lemma append_finish_log c msg out sc tf new c' out' :
  append_finish c msg out sc tf new = Ok (c', out') → c_log c' = c_log c.
Proof.
  unfold append_finish. cbv zeta. case_if.
  - cbn [nextPersistSeq]. intros H. apply bind_Ok_inv in H as ([c2 o2] & H1 & H2). injection H2 as <- _. cbn.
    revert H1. repeat case_if; by intros [= <- _].
  - intros H. apply bind_Ok_inv in H as ([c2 o2] & H1 & H2). injection H2 as <- _.
    revert H1. repeat case_if; try (by intros [= <- _]).
    all: unfold advanceFollowerCommit; cbv zeta; case_if; [by intros [= <- _]|].
    all: intros H; apply bind_Ok_inv in H as (es & _ & H); by injection H as <- _.
Qed.

Lemma reset_to_snapshot_sentinel c msg e : e ∈ c_log (reset_to_snapshot c msg) → e_Data e = [].
Proof.
  unfold reset_to_snapshot. cbv zeta. intros H.
  assert (c_log (reset_to_snapshot c msg) =
    [mkEntry (m_LastIncludedIndex msg) (m_LastIncludedTerm msg) EntryNormal []]) as E.
  { unfold reset_to_snapshot, SetApplied. cbv zeta. repeat case_match; done. }
  change (e ∈ c_log (reset_to_snapshot c msg)) in H. rewrite E in H. by apply list_elem_of_singleton in H as ->.
Qed.

(** A handler that first accepts the sender as leader. *)
Lemma accepted_view intn new c msg c1 o1 sc c' out' :
  accept_leader intn c msg no_output = (c1, o1, sc) → c_currentTerm c ≤ m_Term msg → follows c1 o1 c' out' →
  from_input new c1 c' → driver_view new c c' out'.
Proof.
  intros E Ht [F1 F2 F3 F4] Ho. destruct (accept_leader_spec intn c msg no_output Ht) as (Hsl & R & _ & C).
  destruct (accept_leader_flags intn c msg) as (B & P & D). rewrite E in *. cbn [fst snd] in *. constructor.
  - intros e He. rewrite <- (sl_log _ _ Hsl). by apply Ho.
  - by apply F4.
  - congruence.
  - intros Hr. right. rewrite F1, R, F3. by split; [|apply D].
Qed.

Lemma handleAppendEntriesRequest_view intn c msg c' out :
  handleAppendEntriesRequest intn c msg = Ok (c', out) → driver_view (m_Entries msg) c c' out.
Proof.
  unfold handleAppendEntriesRequest. cbv zeta. destruct (Z.ltb_spec (m_Term msg) (c_currentTerm c)) as [|Ht].
  { intros [= <- <-]. by apply view_refl. }
  destruct (accept_leader intn c msg no_output) as [[c1 o1] sc] eqn:E.
  destruct (accept_leader_flags intn c msg) as (_ & P & _). rewrite E in P. cbn [fst snd] in P.
  assert (Hsend : ∀ m b c2 o2, persist_if b c1 (send m o1) = (c2, o2) → follows c1 o1 c2 o2).
  { intros m b c2 o2 Hp. destruct (persist_if_follows b c1 (send m o1)) as [R1 R2 R3 R4]; [done|].
    rewrite Hp in *. cbn [fst snd] in *. by constructor. }
  case_if; [|case_if].
  - intros H%Ok_inj. eapply accepted_view; [done|done|by eapply Hsend|]. apply from_input_same.
    by apply (persist_if_log sc c1) in H.
  - destruct (conflictHint c1 (m_PrevLogIndex msg)) as [ci ct]. intros H%Ok_inj.
    eapply accepted_view; [done|done|by eapply Hsend|]. apply from_input_same. by apply (persist_if_log sc c1) in H.
  - intros H. apply bind_Ok_inv in H as ([[c2 tf] new] & H1 & H). apply bind_Ok_inv in H as (c3 & H2 & H).
    apply append_scan_role in H1 as [H1 Ho]. change (reconfigure (c2 <| c_log := c_log c2 ++ new |>) tf new = Ok c3) in H2.
    apply reconfigure_role in H2 as [H2 Hl]. eapply accepted_view; [done|done| |].
    2: { intros e. rewrite (append_finish_log _ _ _ _ _ _ _ _ H), Hl. cbn. rewrite elem_of_app. naive_solver. }
    destruct (append_finish_follows _ _ _ _ _ _ _ _ P H) as [R1 R2 R3 R4]. constructor; [|done..].
    rewrite R1, H2. exact H1.
Qed.

Lemma handleInstallSnapshotRequest_view intn new c msg c' out :
  handleInstallSnapshotRequest intn c msg = (c', out) → driver_view new c c' out.
Proof.
  unfold handleInstallSnapshotRequest. cbv zeta. destruct (Z.ltb_spec (m_Term msg) (c_currentTerm c)) as [|Ht].
  { intros [= <- <-]. by apply view_refl. }
  destruct (accept_leader intn c msg no_output) as [[c1 o1] sc] eqn:E.
  destruct (accept_leader_flags intn c msg) as (_ & P & _). rewrite E in P. cbn [fst snd] in P. case_if; intros H.
  - match type of H with persist_if ?b ?c ?o = _ =>
      destruct (persist_if_follows b c o) as [R1 R2 R3 R4]; [done|]; rewrite H in *; cbn [fst snd] in * end.
    eapply accepted_view; [done|done|by constructor|]. apply from_input_same. by eapply persist_if_log.
  - destruct (persist_if_follows sc (reset_to_snapshot c1 msg) o1 P) as [R1 R2 R3 R4].
    destruct (persist_if sc (reset_to_snapshot c1 msg) o1) as [c2 o2] eqn:L. apply persist_if_log in L. cbn [fst snd] in *. injection H as <- <-.
    eapply accepted_view; [done|done| |].
    + constructor; [|done..]. rewrite R1. apply reset_to_snapshot_role.
    + intros e He. rewrite L in He. right. right. by apply reset_to_snapshot_sentinel in He.
Qed.

(** ** Every step *)

Lemma acknowledged_drive c from m :
  drive (c1 ← note_match c from m; '(c2, out) ← advanceLeaderCommit c1 no_output; continue_replication c2 from out) c no_output.
Proof.
  intros c' out' H. apply bind_Ok_inv in H as (c1 & H1 & H). eapply drives_trans; [by eapply note_match_drives|].
  revert H. apply drive_bind; [apply advance_loop_drive|]. intros c2 o2. apply continue_replication_drive.
Qed.

Lemma handleAppendEntriesResponse_view intn new c msg c' out :
  handleAppendEntriesResponse intn c msg = Ok (c', out) → driver_view new c c' out.
Proof.
  unfold handleAppendEntriesResponse. cbv zeta. case_if; [intros H%Ok_inj; by eapply newer_term_response_view|].
  case_if; [intros [= <- <-]; by apply view_refl|]. case_if; intros H; apply drives_view; revert H.
  - apply acknowledged_drive.
  - apply drive_first. intros nx.
    apply (drive_after _ c no_output (c <| c_nextIndex := nx |>) no_output); [by constructor; cbn; auto|].
    case_if; [|by apply drive_ok, drives_refl]. intros c1 o1 H. apply bind_Ok_inv in H as ([c2 m] & H1 & H).
    injection H as <- <-. eapply drives_trans; [by eapply appendEntriesMessage_drives|apply drives_send].
Qed.

Lemma handleInstallSnapshotResponse_view intn new c msg c' out :
  handleInstallSnapshotResponse intn c msg = Ok (c', out) → driver_view new c c' out.
Proof.
  unfold handleInstallSnapshotResponse. cbv zeta. case_if; [intros H%Ok_inj; by eapply newer_term_response_view|].
  case_if; [intros [= <- <-]; by apply view_refl|]. intros H; apply drives_view; revert H. apply acknowledged_drive.
Qed.

Lemma appendLeaderEntry_flags c t data c' out :
  appendLeaderEntry c t data = Ok (c', out) → out_BecameLeader out = false ∧ out_SteppedDown out = false ∧ out_ProposalRejected out = false.
Proof.
  unfold appendLeaderEntry. cbv zeta. intros H. apply bind_Ok_inv in H as (mt & _ & H). apply bind_Ok_inv in H as (c1 & _ & H).
  destruct (await_self_match c1 _) as [c2 seq]. unfold broadcast in H. apply bind_Ok_inv in H as ([c3 o3] & H1 & H2).
  assert (Hk : ∀ skip ms c out c' out', replicate_to skip ms c out = Ok (c', out') →
    out_BecameLeader out' = out_BecameLeader out ∧ out_SteppedDown out' = out_SteppedDown out ∧
    out_ProposalRejected out' = out_ProposalRejected out).
  { clear. intros skip ms. induction ms as [|m ms IH]; intros c out c' out'; cbn [replicate_to]; [by intros [= <- <-]|].
    case_if; [apply IH|]. intros H. apply bind_Ok_inv in H as ([c1 msg] & _ & H). by apply IH in H. }
  apply Hk in H1 as (A1 & A2 & A3). apply Hk in H2 as (B1 & B2 & B3). by rewrite B1, B2, B3, A1, A2, A3.
Qed.

(** The output of a proposal, accepted or not. *)
Lemma handlePropose_shape c data c' out :
  core_wf c → lastIndex c + 2 < 2 ^ 64 → handlePropose c data = Ok (c', out) →
  (c_role c ≠ Leader ∧ c' = c ∧ out_ProposalRejected out = true ∧ out_CommittedEntries out = [] ∧
     out_PersistRequest out = None ∧ out_BecameLeader out = false) ∨
  (c_role c = Leader ∧ appended c (leader_entry c EntryNormal data) c' ∧ out_ProposalRejected out = false ∧
     out_CommittedEntries out = [] ∧ out_BecameLeader out = false ∧
     ∃ seq, out_PersistRequest out = Some (mkPersistRequest seq None 0 [leader_entry c EntryNormal data])).
Proof.
  intros Hwf Hb. unfold handlePropose. case_bool_decide as Hr; cbn [negb].
  2: { intros [= <- <-]. left. done. }
  intros H. right. destruct (appendLeaderEntry_post c EntryNormal data) as (r & Hr' & Hp & Ha & Hpr); [done..|].
  destruct (appendLeaderEntry_flags _ _ _ _ _ H) as (F1 & _ & F3).
  rewrite Hr' in H. apply Ok_inj in H. subst r. cbn [fst snd] in *. split; [done|]. split; [done|]. split; [done|].
  split; [|done]. destruct Hp as [_ _ _ [_ _ _ E _]]. cbn [fst snd] in E. rewrite E, (ap_commit _ _ _ Ha). apply entries_between_nil.
Qed.

Lemma appended_lastIndex c e c' : appended c e c' → lastIndex c' = lastIndex c + 1.
Proof. intros [H1 _ H2 _ _ _ _]. unfold lastIndex. rewrite H1, H2, zlen_app. unfold zlen at 2. cbn [length]. lia. Qed.

Lemma handlePropose_view c data c' out new :
  leader_entry c EntryNormal data ∈ new →
  core_wf c → lastIndex c + 2 < 2 ^ 64 → handlePropose c data = Ok (c', out) → driver_view new c c' out.
Proof.
  intros Hn Hwf Hb H. destruct (handlePropose_shape _ _ _ _ Hwf Hb H) as [(Hr & -> & _ & C & P & B)|(Hr & Ha & _ & C & B & P)].
  - by apply view_refl.
  - constructor; [|done|congruence|].
    { intros e. rewrite (ap_log _ _ _ Ha), elem_of_app, list_elem_of_singleton. naive_solver. }
    intros _. left. split; [by apply Ha|]. rewrite (appended_lastIndex _ _ _ Ha). lia.
Qed.

(** The entries an input brings. *)
Definition input_entries (c : Core) (i : Input) : list Entry :=
  match i with
  | InputMessage msg => m_Entries msg
  | InputPropose data => [leader_entry c EntryNormal data]
  | _ => []
  end.

Lemma Step_view intn c i c' out :
  core_wf c → input_ok c i → Step intn c i = Ok (c', out) → driver_view (input_entries c i) c c' out.
Proof.
  intros Hwf Hok H. destruct i as [| |msg|data|seq]; cbn [Step input_ok] in *.
  - by eapply handleElectionTimeout_view.
  - apply drives_view. revert H. unfold handleHeartbeatTimeout. case_if; [by apply drive_ok, drives_refl|].
    eapply drive_after; [|apply broadcast_drive]. constructor; cbn; auto.
  - unfold handleMessage in H. destruct (m_Type msg) eqn:T.
    + apply Ok_inj in H. by eapply handleRequestVoteRequest_view.
    + by eapply handleRequestVoteResponse_view.
    + by eapply handleAppendEntriesRequest_view.
    + by eapply handleAppendEntriesResponse_view.
    + apply Ok_inj in H. by eapply handleInstallSnapshotRequest_view.
    + by eapply handleInstallSnapshotResponse_view.
  - eapply handlePropose_view; [by apply list_elem_of_singleton|done..].
  - apply drives_view. revert H. apply handlePersistenceComplete_drive.
Qed.
