(* ===== verification/Protocol.v ===== *)
(** * The replication protocol

    An abstract view of a cluster with a fixed set of voters: what each node
    has made durable (its term and its log), and three history variables that
    no node stores: the log of the leader of each term, the votes cast, and
    the entries of the current term each node has held.  [s_cap] bounds the
    terms and the lengths of logs in use.  The messages of the
    protocol are facts about this history that no later event falsifies.  The
    file proves the protocol's safety from the few events that change it:
    one leader per term, matching logs, and that an entry held by a majority
    in its own term is in the log of every later leader. *)

From stdpp Require Import functions.
From S2P Require Import Prelude Bytes RaftTypes RaftMembershipSpec.

Inductive phase := Idle | Campaigning | Leading.

Record sys := mkSys {
  s_term : NodeID → Z;
  s_log : NodeID → list Entry;
  s_phase : NodeID → phase;
  s_led : gmap Z (NodeID * list Entry);
  s_when : Z → nat;
  s_now : nat;
  s_cast : gmap (NodeID * Z) NodeID;
  s_held : NodeID → Z → nat → Prop;
  s_cap : Z
}.

(** Position [k] of the log [L] holds an entry of term [T]. *)
Definition has (L : list Entry) (k : nat) (T : Z) : Prop := e_Term <$> L !! k = Some T.

#[export] Instance has_dec L k T : Decision (has L k T).
Proof. unfold has. apply _. Defined.

(** The log of the leader of term [T]. *)
Definition led (s : sys) (T : Z) (h : list Entry) : Prop := ∃ j, s_led s !! T = Some (j, h).

(** Of the leaders elected before the [n]-th election, one of a later term
    than [T] does not have the entry of term [T] at position [k]. *)
Definition outvoted (s : sys) (n : nat) (T : Z) (k : nat) : Prop :=
  ∃ T' h, T < T' ∧ (s_when s T' < n)%nat ∧ led s T' h ∧ ¬ has h k T.

(** Every entry of [L] is at the same place in the log of its term's leader,
    after the same entries. *)
Definition rooted (s : sys) (T : Z) (L : list Entry) : Prop :=
  ∀ k e, L !! k = Some e → e_Term e ≤ T ∧ ∃ h, led s (e_Term e) h ∧ take (S k) h = take (S k) L.

Definition last_term (L : list Entry) : Z := from_option e_Term 0 (last L).

(** [isLogUpToDate], from the voter's side. *)
Definition up_to_date (L : list Entry) (li : nat) (lt : Z) : Prop :=
  last_term L < lt ∨ last_term L = lt ∧ (length L ≤ li)%nat.

Definition quorum (C : Configuration) (Q : gset NodeID) : Prop :=
  Q ⊆ voter_ids C ∧ Majority C ≤ Z.of_nat (size Q).

Lemma quorums_meet C Q Q' :
  NoDup (m_ID <$> Voters C) → quorum C Q → quorum C Q' → ∃ v, v ∈ Q ∧ v ∈ Q'.
Proof.
  intros Hd [H1 H2] [H3 H4]. eapply (majorities_of_subsets (voter_ids C)); [done..|].
  rewrite Majority_size by done. Z.to_euclidean_division_equations. lia.
Qed.

(** ** Logs *)

Lemma has_lookup L k T : has L k T ↔ ∃ e, L !! k = Some e ∧ e_Term e = T.
Proof. unfold has. rewrite fmap_Some. naive_solver. Qed.

Lemma has_length L k T : has L k T → (k < length L)%nat.
Proof. intros (e & H & _)%has_lookup. by eapply lookup_lt_Some. Qed.

Lemma has_take L n k T : (k < n)%nat → has (take n L) k T ↔ has L k T.
Proof. intros H. unfold has. by rewrite lookup_take_lt. Qed.

Lemma has_take_eq L L' n k T : take n L = take n L' → (k < n)%nat → has L k T → has L' k T.
Proof. intros H Hk. rewrite <- (has_take L n), H, has_take; done. Qed.

Lemma has_prefix L L' k T : L `prefix_of` L' → has L k T → has L' k T.
Proof. intros [x ->] H. pose proof (has_length _ _ _ H). unfold has in *. by rewrite lookup_app_l. Qed.

Lemma has_last L : L ≠ [] → has L (length L - 1) (last_term L).
Proof.
  intros H. unfold has, last_term. rewrite last_lookup. replace (pred (length L)) with (length L - 1)%nat by lia.
  destruct (L !! (length L - 1)%nat) eqn:E; [done|]. apply lookup_ge_None in E. destruct L; [done|]. cbn in E. lia.
Qed.

Lemma take_prefix_eq {A} (L L' : list A) n : L `prefix_of` L' → (n ≤ length L)%nat → take n L' = take n L.
Proof. intros [x ->] H. by rewrite take_app_le. Qed.

Lemma take_eq_le {A} (L L' : list A) n m : take n L = take n L' → (m ≤ n)%nat → take m L = take m L'.
Proof.
  intros H Hm. replace m with (m `min` n)%nat by lia. by rewrite <- !take_take, H.
Qed.

Lemma led_unique s T h h' : led s T h → led s T h' → h = h'.
Proof. intros [j H] [j' H']. congruence. Qed.

(** Logs that agree on the term of one position agree on everything before. *)
Lemma rooted_match s T T' L L' k t : rooted s T L → rooted s T' L' → has L k t → has L' k t → take (S k) L = take (S k) L'.
Proof.
  intros H H' (e & He & <-)%has_lookup (e' & He' & Ht)%has_lookup.
  destruct (H _ _ He) as (_ & h & Hh & <-). destruct (H' _ _ He') as (_ & h' & Hh' & <-).
  rewrite Ht in Hh'. by rewrite (led_unique s _ _ _ Hh Hh').
Qed.

Lemma rooted_take s T L n : rooted s T L → rooted s T (take n L).
Proof.
  intros H k e Hk. apply lookup_take_Some in Hk as [Hk Hn]. destruct (H _ _ Hk) as (Ht & h & Hh & E). split; [done|].
  exists h. split; [done|]. by rewrite take_take, Nat.min_l.
Qed.

Lemma rooted_weaken s T T' L : T ≤ T' → rooted s T L → rooted s T' L.
Proof. intros Hle H k e Hk. destruct (H _ _ Hk) as (Ht & Hh). split; [lia|done]. Qed.

(** ** The invariant *)

(** Entry [k] of term [T] is in [L], unless one of the first [n] leaders did
    not have it either. *)
Definition survives (s : sys) (n : nat) (L : list Entry) (T : Z) (k : nat) : Prop := has L k T ∨ outvoted s n T k.

(** Entries are numbered from 1 and carry no configuration. *)
Definition numbered (L : list Entry) : Prop :=
  ∀ k e, L !! k = Some e → e_Index e = Z.of_nat k + 1 ∧ e_Type e = EntryNormal.

(** What makes [j] the leader of [T], with [h] the log of that term: votes of
    a majority, whose voters saw to it that [h] has what they held. *)
Definition elected (C : Configuration) (s : sys) (n : nat) (T : Z) (j : NodeID) (h : list Entry) : Prop :=
  ∃ Q, quorum C Q ∧ ∀ v, v ∈ Q →
    s_cast s !! (v, T) = Some j ∧ ∀ k T0, T0 < T → s_held s v T0 k → survives s n h T0 k.

Record inv (C : Configuration) (s : sys) : Prop := {
  i_term : ∀ i, 0 ≤ s_term s i;
  i_log : ∀ i, rooted s (s_term s i) (s_log s i);
  i_led : ∀ T j h, s_led s !! T = Some (j, h) →
    1 ≤ T ∧ rooted s T h ∧ numbered h ∧ T ≤ s_term s j ∧ (s_term s j = T → s_phase s j ≠ Campaigning) ∧ elected C s (s_when s T) T j h;
  i_when : ∀ T h, led s T h → (s_when s T < s_now s)%nat;
  i_cast : ∀ v T j, s_cast s !! (v, T) = Some j →
    T ≤ s_term s v ∧ v ∈ voter_ids C ∧
    ∀ k T0, T0 < T → s_held s v T0 k → survives s (s_now s) (s_log s j) T0 k;
  i_held : ∀ v T k, s_held s v T k →
    T ≤ s_term s v ∧ (∃ h, led s T h ∧ has h k T) ∧ survives s (s_now s) (s_log s v) T k;
  i_lead : ∀ i, s_phase s i = Leading → s_led s !! s_term s i = Some (i, s_log s i);
  i_low : ∀ i, s_term s i ≤ s_cap s;
  i_short : ∀ T h, led s T h → zlen h ≤ s_cap s
}.

(** ** Events only add to the history *)

Record evolves (s s' : sys) : Prop := {
  ev_term : ∀ i, s_term s i ≤ s_term s' i;
  ev_led : ∀ T j h, s_led s !! T = Some (j, h) →
    s_when s' T = s_when s T ∧ ∃ x, s_led s' !! T = Some (j, h ++ x) ∧ ∀ e, e ∈ x → e_Term e = T;
  ev_now : (s_now s ≤ s_now s')%nat;
  ev_cast : ∀ v T j, s_cast s !! (v, T) = Some j → s_cast s' !! (v, T) = Some j;
  ev_held : ∀ v T k, s_held s v T k → s_held s' v T k;
  ev_log : ∀ i k T, has (s_log s i) k T → survives s' (s_now s') (s_log s' i) T k;
  ev_cap : s_cap s ≤ s_cap s'
}.

Lemma history_refl s : evolves s s.
Proof.
  constructor; [done| |done|done|done|by left|done]. intros T j h H. split; [done|]. exists []. rewrite app_nil_r. split; [done|].
  by intros e ?%not_elem_of_nil.
Qed.

Section evolution.
Context (s s' : sys) (Hev : evolves s s').

Lemma led_evolves T h : led s T h → ∃ h', led s' T h' ∧ h `prefix_of` h'.
Proof. intros [j H]. destruct (ev_led _ _ Hev _ _ _ H) as (_ & x & H' & _). exists (h ++ x). split; [by exists j|by eexists]. Qed.

Lemma rooted_evolves T L : rooted s T L → rooted s' T L.
Proof.
  intros H k e Hk. destruct (H _ _ Hk) as (Ht & h & Hh & E). split; [done|].
  destruct (led_evolves _ _ Hh) as (h' & Hh' & Hp). exists h'. split; [done|]. rewrite <- E. apply take_prefix_eq; [done|].
  apply (f_equal length) in E. rewrite !length_take in E. apply lookup_lt_Some in Hk. lia.
Qed.

Lemma outvoted_evolves n n' T k : (n ≤ n')%nat → outvoted s n T k → outvoted s' n' T k.
Proof.
  intros Hn (T' & h & Hr & Hw & [j H] & Hno). destruct (ev_led _ _ Hev _ _ _ H) as (Hw' & x & H' & Hx).
  exists T', (h ++ x). split; [done|]. split; [lia|]. split; [by exists j|]. intros (e & He & Ht)%has_lookup.
  apply lookup_app_Some in He as [He|[_ He]]; [apply Hno, has_lookup; by exists e|].
  apply list_elem_of_lookup_2 in He. apply Hx in He. lia.
Qed.

Lemma survives_evolves n n' L T k : (n ≤ n')%nat → survives s n L T k → survives s' n' L T k.
Proof. intros Hn [H|H]; [by left|right; by eapply outvoted_evolves]. Qed.

(** What a node's log keeps. *)
Lemma survives_log j T k : survives s (s_now s) (s_log s j) T k → survives s' (s_now s') (s_log s' j) T k.
Proof. intros [H|H]; [by apply (ev_log _ _ Hev)|]. right. eapply outvoted_evolves; [|done]. apply (ev_now _ _ Hev). Qed.

Lemma elected_evolves C n T j h :
  (∀ v T k, s_held s' v T k → s_held s v T k ∨ T = s_term s' v) → (∀ v T j, s_cast s !! (v, T) = Some j → T ≤ s_term s v) →
  elected C s n T j h → elected C s' n T j h.
Proof.
  intros Hnew Hcast (Q & HQ & H). exists Q. split; [done|]. intros v Hv. destruct (H v Hv) as [H1 H2].
  split; [by apply (ev_cast _ _ Hev)|]. intros k T0 Hlt Hh. apply Hnew in Hh as [Hh|Hh].
  - eapply survives_evolves; [done|]. by apply H2.
  - apply Hcast in H1. pose proof (ev_term _ _ Hev v). lia.
Qed.
End evolution.

Lemma survives_prefix s n L L' T k : L `prefix_of` L' → survives s n L T k → survives s n L' T k.
Proof. intros Hp [H|H]; [left; by eapply has_prefix|by right]. Qed.

Lemma history_trans s s1 s2 : evolves s s1 → evolves s1 s2 → evolves s s2.
Proof.
  intros H1 H2. constructor.
  - intros i. pose proof (ev_term _ _ H1 i). pose proof (ev_term _ _ H2 i). lia.
  - intros T j h H. apply (ev_led _ _ H1) in H as (W1 & x & H & Hx). apply (ev_led _ _ H2) in H as (W2 & y & H & Hy).
    split; [congruence|]. exists (x ++ y). rewrite app_assoc. split; [done|]. intros e [He|He]%elem_of_app; auto.
  - pose proof (ev_now _ _ H1). pose proof (ev_now _ _ H2). lia.
  - intros v T j H. by apply (ev_cast _ _ H2), (ev_cast _ _ H1).
  - intros v T k H. by apply (ev_held _ _ H2), (ev_held _ _ H1).
  - intros i k T H. eapply survives_log; [done|]. by apply (ev_log _ _ H1).
  - pose proof (ev_cap _ _ H1). pose proof (ev_cap _ _ H2). lia.
Qed.

(** The old part of the history stays as the invariant wants it; what an
    event adds is left to show. *)
Lemma inv_evolves C s s' :
  inv C s → evolves s s' →
  (∀ v T k, s_held s' v T k → s_held s v T k ∨ T = s_term s' v ∧ has (s_log s' v) k T ∧ ∃ h, led s' T h ∧ has h k T) →
  (∀ v T j, s_cast s' !! (v, T) = Some j → s_cast s !! (v, T) = Some j ∨
     T = s_term s' v ∧ v ∈ voter_ids C ∧ (∀ k T0, T0 < T → s_held s v T0 k → survives s (s_now s) (s_log s j) T0 k)) →
  (∀ T j h, s_led s' !! T = Some (j, h) →
     (s_led s !! T = Some (j, h)) ∨
     (1 ≤ T ∧ rooted s' T h ∧ numbered h ∧ T = s_term s' j ∧ s_phase s' j ≠ Campaigning ∧ (s_when s' T < s_now s')%nat ∧ elected C s (s_when s' T) T j h)) →
  (∀ i h, s_phase s' i = Campaigning → s_led s !! s_term s' i = Some (i, h) → s_phase s i = Campaigning ∧ s_term s' i = s_term s i) →
  (∀ i, rooted s' (s_term s' i) (s_log s' i)) →
  (∀ i, s_phase s' i = Leading → s_led s' !! s_term s' i = Some (i, s_log s' i)) →
  (∀ i, s_term s' i ≤ s_cap s') →
  (∀ T j h, s_led s' !! T = Some (j, h) → s_led s !! T = Some (j, h) ∨ zlen h ≤ s_cap s') →
  inv C s'.
Proof.
  intros Hi Hev Hheld Hcast Hled Hcamp Hlog Hlead Hlow Hshort. constructor; [| done | | | | | done | done |].
  - intros i. pose proof (i_term _ _ Hi i). pose proof (ev_term _ _ Hev i). lia.
  - intros T j h H.
    assert (Hel : ∀ n h, elected C s n T j h → elected C s' n T j h).
    { intros n h'. apply elected_evolves; [done| |]; [|intros v T' j' Hc; by apply (i_cast _ _ Hi) in Hc as [Hc _]].
      intros v T' k Hk. apply Hheld in Hk as [Hk|(Hk & _)]; auto. }
    destruct (Hled _ _ _ H) as [Ho|(A1 & A2 & A3 & A4 & A5 & _ & A6)].
    + destruct (i_led _ _ Hi _ _ _ Ho) as (A1 & A2 & A3 & A4 & A5 & A6). pose proof (ev_term _ _ Hev j).
      split; [done|]. split; [by eapply rooted_evolves|]. split; [done|]. split; [lia|].
      destruct (ev_led _ _ Hev _ _ _ Ho) as [-> _]. split; [|by apply Hel].
      intros Ht Hc. rewrite <- Ht in Ho. apply (Hcamp _ h) in Hc as [Hc E]; [|done]. apply A5; [lia|done].
    + split; [done|]. split; [done|]. split; [done|]. split; [lia|]. split; [done|]. by apply Hel.
  - intros T h [j H]. destruct (Hled _ _ _ H) as [Ho|(_ & _ & _ & _ & _ & Hw & _)]; [|done].
    destruct (ev_led _ _ Hev _ _ _ Ho) as [-> _]. pose proof (ev_now _ _ Hev). pose proof (i_when _ _ Hi T h). unfold led in *.
    enough (s_when s T < s_now s)%nat by lia. apply H1. by exists j.
  - intros v T j H. destruct (Hcast _ _ _ H) as [Ho|(-> & Hv & Hs)].
    + apply (i_cast _ _ Hi) in Ho as (A1 & A2 & A3). pose proof (ev_term _ _ Hev v). split; [lia|]. split; [done|].
      intros k T0 Hlt Hh. apply (survives_log s s' Hev). apply A3; [done|]. apply Hheld in Hh as [Hh|(-> & _)]; [done|lia].
    + split; [done|]. split; [done|]. intros k T0 Hlt Hh. apply (survives_log s s' Hev). apply Hs; [done|].
      apply Hheld in Hh as [Hh|(-> & _)]; [done|lia].
  - intros v T k H. apply Hheld in H as [Ho|(-> & H1 & H2)].
    + apply (i_held _ _ Hi) in Ho as (A1 & (h & Hh & Hk) & A3). pose proof (ev_term _ _ Hev v). split; [lia|]. split.
      * destruct (led_evolves _ _ Hev _ _ Hh) as (h' & Hh' & Hp). exists h'. split; [done|]. by eapply has_prefix.
      * by apply (survives_log s s' Hev).
    + split; [done|]. split; [done|]. by left.
  - intros T h [j H]. destruct (Hshort _ _ _ H) as [Ho|]; [|done]. pose proof (ev_cap _ _ Hev).
    enough (zlen h ≤ s_cap s) by lia. eapply (i_short C s); [done|by exists j].
Qed.

(** ** Events *)

(** A node moves to a term, or stops: it is neither candidate nor leader. *)
Definition observe (s : sys) (i : NodeID) (T : Z) : sys :=
  mkSys (<[i := T]> (s_term s)) (s_log s) (<[i := Idle]> (s_phase s)) (s_led s) (s_when s) (s_now s) (s_cast s) (s_held s) (s_cap s).

(** A vote, which takes the voter to the candidate's term. *)
Definition vote (s : sys) (i j : NodeID) (T : Z) : sys :=
  mkSys (<[i := T]> (s_term s)) (s_log s)
    (if decide (T = s_term s i) then s_phase s else <[i := Idle]> (s_phase s))
    (s_led s) (s_when s) (s_now s) (<[(i, T) := j]> (s_cast s)) (s_held s) (s_cap s).

Definition campaign (s : sys) (i : NodeID) : sys :=
  let T := s_term s i + 1 in
  mkSys (<[i := T]> (s_term s)) (s_log s) (<[i := Campaigning]> (s_phase s))
    (s_led s) (s_when s) (s_now s) (<[(i, T) := i]> (s_cast s)) (s_held s) (s_cap s).

Definition win (s : sys) (i : NodeID) : sys :=
  mkSys (s_term s) (s_log s) (<[i := Leading]> (s_phase s))
    (<[s_term s i := (i, s_log s i)]> (s_led s)) (<[s_term s i := s_now s]> (s_when s)) (S (s_now s)) (s_cast s) (s_held s) (s_cap s).

(** The leader appends; [durable] is false when its disk fails: the entry is
    on its way to the others, but not in the leader's own log. *)
Definition append (s : sys) (i : NodeID) (e : Entry) (durable : bool) : sys :=
  let L := s_log s i ++ [e] in
  mkSys (s_term s) (if durable then <[i := L]> (s_log s) else s_log s)
    (if durable then s_phase s else <[i := Idle]> (s_phase s))
    (<[s_term s i := (i, L)]> (s_led s)) (s_when s) (s_now s) (s_cast s) (s_held s) (s_cap s).

(** A follower's log changes under a leader. *)
Definition relog (s : sys) (i : NodeID) (L : list Entry) : sys :=
  mkSys (s_term s) (<[i := L]> (s_log s)) (<[i := Idle]> (s_phase s)) (s_led s) (s_when s) (s_now s) (s_cast s) (s_held s) (s_cap s).

(** A node's log agrees with its leader's up to [m]. *)
Definition hold (s : sys) (i : NodeID) (m : nat) : sys :=
  mkSys (s_term s) (s_log s) (s_phase s) (s_led s) (s_when s) (s_now s) (s_cast s)
    (λ v T k, s_held s v T k ∨ v = i ∧ T = s_term s i ∧ (k < m)%nat ∧ has (s_log s i) k T) (s_cap s).

(** More room for terms and logs. *)
Definition raise (s : sys) (n : Z) : sys :=
  mkSys (s_term s) (s_log s) (s_phase s) (s_led s) (s_when s) (s_now s) (s_cast s) (s_held s) n.

(** What a vote request says of its sender's log: [li] entries, the last of
    term [lt]. *)
Definition claim (s : sys) (j : NodeID) (li : nat) (lt : Z) : Prop :=
  li = 0%nat ∧ lt = 0 ∨
  ∃ h, led s lt h ∧ has h (li - 1) lt ∧ (0 < li)%nat ∧
    ∀ k T, (k < li)%nat → has h k T → survives s (s_now s) (s_log s j) T k.

Lemma insert_fn_eq {A B} `{EqDecision A} (f : A → B) i x : <[i := x]> f i = x.
Proof. apply fn_lookup_insert. Qed.

Lemma insert_fn_ne {A B} `{EqDecision A} (f : A → B) i j x : i ≠ j → <[i := x]> f j = f j.
Proof. apply fn_lookup_insert_ne. Qed.

Ltac at_node i j :=
  destruct (decide (i = j)) as [<-|?]; [rewrite ?insert_fn_eq in *|rewrite ?insert_fn_ne in * by done].

(** Events that leave the logs and the leaders alone. *)
Lemma evolves_light s s' :
  (∀ i, s_term s i ≤ s_term s' i) → s_log s' = s_log s → s_led s' = s_led s → s_when s' = s_when s → s_now s' = s_now s →
  (∀ v T j, s_cast s !! (v, T) = Some j → s_cast s' !! (v, T) = Some j) →
  (∀ v T k, s_held s v T k → s_held s' v T k) → s_cap s ≤ s_cap s' → evolves s s'.
Proof.
  intros Ht Hl Hd Hw Hn Hc Hh Hcap. constructor; [done| |lia|done|done| |done].
  - intros T j h H. rewrite Hw. split; [done|]. exists []. rewrite app_nil_r, Hd. split; [done|]. by intros e ?%not_elem_of_nil.
  - intros i k T H. left. by rewrite Hl.
Qed.

Lemma rooted_led s s' T L : s_led s' = s_led s → rooted s T L → rooted s' T L.
Proof. intros E H k e Hk. destruct (H k e Hk) as (A & h & [j B] & D). split; [done|]. exists h. split; [|done]. exists j. by rewrite E. Qed.

Section events.
Context (C : Configuration) (s : sys) (Hi : inv C s).

Lemma observe_evolves i T : s_term s i ≤ T → evolves s (observe s i T).
Proof. intros Hle. apply evolves_light; [|done..]. intros j. cbn. at_node i j; lia. Qed.

Lemma observe_inv i T : s_term s i ≤ T ≤ s_cap s → inv C (observe s i T).
Proof.
  intros Hle. eapply inv_evolves; [done|apply observe_evolves; lia|by left|by left|by left| | | | |by left].
  - intros j h. cbn. by at_node i j.
  - intros j. cbn. eapply (rooted_weaken _ (s_term s j)); [at_node i j; lia|]. eapply rooted_led; [|by apply (i_log C s)]. done.
  - intros j. cbn. at_node i j; [done|]. apply (i_lead C s Hi).
  - intros j. cbn. at_node i j; [lia|]. apply (i_low C s Hi).
Qed.

Lemma raise_inv n : s_cap s ≤ n → evolves s (raise s n) ∧ inv C (raise s n).
Proof.
  intros Hn. assert (Hev : evolves s (raise s n)) by (by apply evolves_light). split; [done|].
  eapply inv_evolves; [done|done|by left|by left|by left|done|apply (i_log C s Hi)|apply (i_lead C s Hi)| |by left].
  intros i. cbn. pose proof (i_low C s Hi i). lia.
Qed.

Lemma cap_nonneg : 0 ≤ s_cap s.
Proof. pose proof (i_term C s Hi noVote). pose proof (i_low C s Hi noVote). lia. Qed.

Lemma led_low T h : led s T h → T ≤ s_cap s.
Proof. intros [j H]. destruct (i_led C s Hi _ _ _ H) as (_ & _ & _ & Ht & _). pose proof (i_low C s Hi j). lia. Qed.

(** A log is at most as long as the log of some leader. *)
Lemma rooted_short T L : rooted s T L → zlen L ≤ s_cap s.
Proof.
  intros H. pose proof cap_nonneg as H0. destruct (last L) as [e|] eqn:E; [|apply last_None in E as ->; done]. rewrite last_lookup in E.
  destruct (H _ _ E) as (_ & h & Hh & Et). apply lookup_lt_Some in E.
  pose proof (i_short C s Hi _ _ Hh) as Hs. apply (f_equal length) in Et. rewrite !length_take in Et. unfold zlen in *. lia.
Qed.

(** The voter's last entry, seen from its own log. *)
Lemma sorted_last L T k t : rooted s T L → has L k t → t ≤ last_term L.
Proof.
  intros HL Hk. pose proof (has_length _ _ _ Hk) as Hlen.
  assert (Hne : L ≠ []) by (intros ->; cbn in Hlen; lia). pose proof (has_last L Hne) as Hlast.
  apply has_lookup in Hlast as (e & He & <-). destruct (HL _ _ He) as (_ & h & [j Hh] & E).
  destruct (i_led _ _ Hi _ _ _ Hh) as (_ & Hroot & _).
  assert (Hk' : has h k t) by (eapply (has_take_eq L h); [by symmetry|lia|done]).
  apply has_lookup in Hk' as (e' & He' & <-). by apply Hroot in He' as [He' _].
Qed.

Lemma led_pos T h : led s T h → 1 ≤ T.
Proof. intros [j H]. by apply (i_led _ _ Hi) in H as [H _]. Qed.

Lemma has_pos L T k t : rooted s T L → has L k t → 1 ≤ t.
Proof. intros HL (e & He & <-)%has_lookup. apply HL in He as (_ & h & Hh & _). by eapply led_pos. Qed.

(** A vote carries what the voter held to the candidate. *)
Lemma vote_survives i j li lt k T :
  claim s j li lt → up_to_date (s_log s i) li lt → s_held s i T k → survives s (s_now s) (s_log s j) T k.
Proof.
  intros Hcl Hup Hh. destruct (i_held _ _ Hi _ _ _ Hh) as (_ & _ & [Hk|Hout]); [|by right].
  pose proof (i_log _ _ Hi i) as HL. pose proof (sorted_last _ _ _ _ HL Hk) as Hs. pose proof (has_pos _ _ _ _ HL Hk) as Hpos.
  pose proof (has_length _ _ _ Hk) as Hlen. destruct Hcl as [[-> ->]|(h & Hh' & Hhl & Hli & Hall)].
  { exfalso. destruct Hup as [Hup|[Hup Hup']]; lia. }
  pose proof Hh' as [jl Hjl]. destruct (i_led _ _ Hi _ _ _ Hjl) as (_ & Hroot & _). destruct Hup as [Hup|[Hup Hup']].
  - destruct (decide (has h k T)) as [Hhk|Hhk].
    + apply Hall; [|done]. apply Nat.nle_gt. intros Hge.
      assert (H1 : has (take (S k) h) (li - 1) lt) by (apply has_take; [lia|done]).
      apply (sorted_last _ lt) in H1; [|by apply rooted_take].
      assert (Hlast : last_term (take (S k) h) = T); [|lia].
      apply has_lookup in Hhk as (e & He & <-). unfold last_term. rewrite (take_S_r _ _ _ He), last_snoc. done.
    + right. exists lt, h. split; [lia|]. split; [by eapply (i_when C s Hi)|done].
  - apply Hall; [lia|]. subst lt. assert (Hne : s_log s i ≠ []) by (intros E; rewrite E in Hlen; cbn in Hlen; lia).
    pose proof (has_last _ Hne) as (e & He & Het)%has_lookup. destruct (HL _ _ He) as (_ & h' & Hh'' & E). rewrite Het in Hh''.
    rewrite (led_unique s _ _ _ Hh'' Hh') in E. eapply (has_take_eq (s_log s i) h); [by symmetry|lia|done].
Qed.

Lemma vote_inv i j T li lt :
  i ∈ voter_ids C → s_term s i ≤ T ≤ s_cap s → (s_cast s !! (i, T) = None ∨ s_cast s !! (i, T) = Some j) →
  claim s j li lt → up_to_date (s_log s i) li lt →
  evolves s (vote s i j T) ∧ inv C (vote s i j T).
Proof.
  intros Hv Hti Hfree Hcl Hup.
  assert (Hev : evolves s (vote s i j T)).
  { apply evolves_light; [|done|done|done|done| |done|done].
    - intros x. cbn. at_node i x; lia.
    - intros v T1 j1 H. cbn. destruct (decide ((v, T1) = (i, T))) as [[= -> ->]|]; [|by rewrite lookup_insert_ne].
      rewrite lookup_insert_eq. destruct Hfree; congruence. }
  split; [done|]. eapply inv_evolves; [done|done|by left| |by left| | | | |by left].
  - intros v T1 j1. cbn. destruct (decide ((v, T1) = (i, T))) as [[= -> ->]|]; [|rewrite lookup_insert_ne by done; by left].
    rewrite lookup_insert_eq, insert_fn_eq. intros [= <-]. right. split; [done|]. split; [done|]. intros k T0 _.
    by apply (vote_survives i j li lt).
  - intros x h. cbn. destruct (decide (T = s_term s i)) as [->|Hne]; by at_node i x.
  - intros x. cbn. eapply (rooted_weaken _ (s_term s x)); [at_node i x; lia|]. eapply rooted_led; [|by apply (i_log C s)]. done.
  - intros x. cbn. destruct (decide (T = s_term s i)) as [->|Hne].
    + at_node i x; apply (i_lead C s Hi).
    + at_node i x; [done|apply (i_lead C s Hi)].
  - intros x. cbn. at_node i x; [lia|]. apply (i_low C s Hi).
Qed.

Lemma campaign_inv i :
  i ∈ voter_ids C → s_term s i < s_cap s → evolves s (campaign s i) ∧ inv C (campaign s i).
Proof.
  intros Hv Hcap.
  assert (Hnew : ∀ j, s_cast s !! (i, s_term s i + 1) = Some j → False).
  { intros j H. apply (i_cast _ _ Hi) in H as [H _]. lia. }
  assert (Hev : evolves s (campaign s i)).
  { apply evolves_light; [|done|done|done|done| |done|done].
    - intros x. cbn. at_node i x; lia.
    - intros v T1 j1 H. cbn. destruct (decide ((v, T1) = (i, s_term s i + 1))) as [[= -> ->]|]; [by apply Hnew in H|].
      by rewrite lookup_insert_ne. }
  split; [done|]. eapply inv_evolves; [done|done|by left| |by left| | | | |by left].
  - intros v T1 j1. cbn. destruct (decide ((v, T1) = (i, s_term s i + 1))) as [[= -> ->]|]; [|rewrite lookup_insert_ne by done; by left].
    rewrite lookup_insert_eq, insert_fn_eq. intros [= <-]. right. split; [done|]. split; [done|]. intros k T0 Hlt Hh.
    by apply (i_held _ _ Hi).
  - intros x h. cbn. at_node i x; [|done]. intros _ H. apply (i_led _ _ Hi) in H as (_ & _ & _ & H & _). lia.
  - intros x. cbn. eapply (rooted_weaken _ (s_term s x)); [at_node i x; lia|]. eapply rooted_led; [|by apply (i_log C s)]. done.
  - intros x. cbn. at_node i x; [done|apply (i_lead C s Hi)].
  - intros x. cbn. at_node i x; [lia|]. apply (i_low C s Hi).
Qed.

(** A candidate with the votes of a majority is the first leader of its term. *)
Lemma win_unled i Q :
  NoDup (m_ID <$> Voters C) → s_phase s i = Campaigning → quorum C Q →
  (∀ v, v ∈ Q → s_cast s !! (v, s_term s i) = Some i) → s_led s !! s_term s i = None.
Proof.
  intros Hd Hp HQ Hc. apply eq_None_not_Some. intros [[j h] H].
  destruct (i_led _ _ Hi _ _ _ H) as (_ & _ & _ & _ & Hph & Q' & HQ' & Hel).
  destruct (quorums_meet _ _ _ Hd HQ HQ') as (v & Hv & Hv'). destruct (Hel v Hv') as [H1 _]. rewrite (Hc v Hv) in H1.
  injection H1 as <-. by apply Hph.
Qed.

Lemma win_inv i Q :
  NoDup (m_ID <$> Voters C) → s_phase s i = Campaigning → 1 ≤ s_term s i → numbered (s_log s i) → quorum C Q →
  (∀ v, v ∈ Q → s_cast s !! (v, s_term s i) = Some i) →
  evolves s (win s i) ∧ inv C (win s i).
Proof.
  intros Hd Hp Hpos Hnum HQ Hc. pose proof (win_unled i Q Hd Hp HQ Hc) as Hl.
  assert (Hev : evolves s (win s i)).
  { constructor; [done| |cbn; lia|done|done|by left|done]. intros T j h H. cbn.
    assert (Hne : s_term s i ≠ T) by congruence. rewrite insert_fn_ne by done. split; [done|]. exists []. rewrite app_nil_r.
    rewrite lookup_insert_ne by done. split; [done|]. by intros e ?%not_elem_of_nil. }
  split; [done|]. eapply inv_evolves; [done|done|by left|by left| | | | |apply (i_low C s Hi)|].
  - intros T j h. cbn. destruct (decide (s_term s i = T)) as [<-|]; [|rewrite lookup_insert_ne by done; by left].
    rewrite lookup_insert_eq. intros [= <- <-]. right. rewrite !insert_fn_eq. split; [done|].
    split; [by eapply rooted_evolves, (i_log C s)|]. split; [done|]. split; [done|]. split; [done|]. split; [lia|].
    exists Q. split; [done|]. intros v Hv. split; [by apply Hc|]. by apply (i_cast _ _ Hi _ _ _ (Hc v Hv)).
  - intros x h. cbn. by at_node i x.
  - intros x. by eapply rooted_evolves, (i_log C s).
  - intros x. cbn. at_node i x; [by rewrite lookup_insert_eq|]. intros Hx. pose proof (i_lead C s Hi x Hx) as H.
    rewrite lookup_insert_ne; [done|]. congruence.
  - intros T j h. cbn. destruct (decide (s_term s i = T)) as [<-|]; [|rewrite lookup_insert_ne by done; by left].
    rewrite lookup_insert_eq. intros [= <- <-]. right. eapply rooted_short, (i_log C s Hi).
Qed.

Lemma append_inv i e d :
  s_phase s i = Leading → zlen (s_log s i) < s_cap s → e_Term e = s_term s i → e_Index e = Z.of_nat (length (s_log s i)) + 1 → e_Type e = EntryNormal →
  evolves s (append s i e d) ∧ inv C (append s i e d).
Proof.
  intros Hp Hroom He Hx Hn. pose proof (i_lead C s Hi i Hp) as Hl. destruct (i_led _ _ Hi _ _ _ Hl) as (A1 & A2 & A3 & A4 & _ & A6).
  assert (Hw : (s_when s (s_term s i) < s_now s)%nat) by (eapply (i_when C s Hi); by exists i).
  assert (Hev : evolves s (append s i e d)).
  { constructor; [done| |done|done|done| |done].
    - intros T j h H. split; [done|]. cbn. destruct (decide (s_term s i = T)) as [<-|].
      + rewrite lookup_insert_eq. rewrite Hl in H. injection H as <- <-. exists [e]. split; [done|].
        by intros x ->%list_elem_of_singleton.
      + rewrite lookup_insert_ne by done. exists []. rewrite app_nil_r. split; [done|]. by intros x ?%not_elem_of_nil.
    - intros x k T H. left. cbn. destruct d; [|done]. at_node i x; [|done]. eapply has_prefix; [|done]. by eexists. }
  assert (Hroot : rooted (append s i e d) (s_term s i) (s_log s i ++ [e])).
  { intros k x Hk. apply lookup_app_Some in Hk as [Hk|[Hk Hk']].
    - destruct (rooted_evolves _ _ Hev _ _ A2 _ _ Hk) as (B1 & h & B2 & B3). split; [done|]. exists h. split; [done|].
      rewrite B3. apply lookup_lt_Some in Hk. by rewrite take_app_le.
    - apply list_lookup_singleton_Some in Hk' as [Hk' <-]. split; [lia|]. exists (s_log s i ++ [e]). split; [|done].
      exists i. rewrite He. apply lookup_insert_eq. }
  split; [done|]. eapply inv_evolves; [done|done|by left|by left| | | | |apply (i_low C s Hi)|].
  - intros T j h. cbn. destruct (decide (s_term s i = T)) as [<-|]; [|rewrite lookup_insert_ne by done; by left].
    rewrite lookup_insert_eq. intros [= <- <-]. right. split; [done|]. split; [done|]. split.
    { intros k x Hk. apply lookup_app_Some in Hk as [Hk|[Hk Hk']]; [by apply A3|].
      apply list_lookup_singleton_Some in Hk' as [Hk' <-]. split; [lia|done]. }
    split; [done|]. split; [destruct d; [by rewrite Hp|by rewrite insert_fn_eq]|]. split; [done|].
    destruct A6 as (Q & HQ & H6). exists Q. split; [done|]. intros v Hv. destruct (H6 v Hv) as [B1 B2]. split; [done|].
    intros k T0 H1 H2. eapply survives_prefix; [|by apply B2]. by eexists.
  - intros x h. cbn. destruct d; [done|]. by at_node i x.
  - intros x. cbn. destruct d; [|by apply (rooted_evolves _ _ Hev), (i_log C s)].
    at_node i x; [done|]. by apply (rooted_evolves _ _ Hev), (i_log C s).
  - intros x. cbn. destruct d.
    + at_node i x; [by rewrite lookup_insert_eq|]. intros Hx'. pose proof (i_lead C s Hi x Hx') as H.
      rewrite lookup_insert_ne; [done|]. congruence.
    + at_node i x; [done|]. intros Hx'. pose proof (i_lead C s Hi x Hx') as H. rewrite lookup_insert_ne; [done|]. congruence.
  - intros T j h. cbn. destruct (decide (s_term s i = T)) as [<-|]; [|rewrite lookup_insert_ne by done; by left].
    rewrite lookup_insert_eq. intros [= <- <-]. right. rewrite zlen_app. change (zlen [e]) with 1. lia.
Qed.

(** [L] follows from the log of [i] under the leader's log [h]: it is a part
    of [h], and what it drops disagrees with [h]. *)
Definition follows_leader (i : NodeID) (h L : list Entry) : Prop :=
  L `prefix_of` h ∧
  (s_log s i `prefix_of` L ∨
   ∃ n, (n ≤ length L)%nat ∧ (n < length (s_log s i))%nat ∧ (n < length h)%nat ∧ e_Term <$> s_log s i !! n ≠ e_Term <$> h !! n ∧ take n (s_log s i) = take n L).

(** The leader may be of a later term than the node has on disk, as long as
    the log that stays there has no entry of a later term. *)
Lemma relog_inv i T h L :
  led s T h → s_term s i ≤ T → follows_leader i h L → (T = s_term s i ∨ L `prefix_of` s_log s i) →
  evolves s (relog s i L) ∧ inv C (relog s i L).
Proof.
  intros Hh Hle [HL Hf] Hlow. pose proof Hh as [j Hj]. destruct (i_led _ _ Hi _ _ _ Hj) as (_ & Hroot & _).
  assert (Hev : evolves s (relog s i L)).
  { constructor; [done| |done|done|done| |done].
    - intros T' j' h' H. split; [done|]. exists []. rewrite app_nil_r. split; [done|]. by intros x ?%not_elem_of_nil.
    - intros x k t H. cbn. at_node i x; [|by left]. destruct Hf as [Hf|(n & N1 & N2 & N3 & N4 & N5)].
      { left. by eapply has_prefix. }
      destruct (decide (k < n)%nat) as [Hk|Hk]; [left; by eapply (has_take_eq (s_log s i))|].
      right. exists T, h.
      assert (Hno : ¬ has h k t).
      { intros Hhk. pose proof (rooted_match s _ _ _ _ _ _ (i_log C s Hi i) Hroot H Hhk) as E. apply N4.
        f_equal. rewrite <- (lookup_take_lt (s_log s i) (S k) n), <- (lookup_take_lt h (S k) n) by lia. by rewrite E. }
      split; [|split; [by eapply (i_when C s Hi)|split; [by exists j|done]]].
      pose proof H as (e & He & Het)%has_lookup. destruct (i_log C s Hi i _ _ He) as (B1 & h' & B2 & B3).
      destruct (decide (t = T)) as [->|]; [|lia]. exfalso. apply Hno. rewrite Het in B2.
      rewrite (led_unique s _ _ _ Hh B2). eapply (has_take_eq (s_log s i)); [by symmetry|lia|done]. }
  split; [done|]. eapply inv_evolves; [done|done|by left|by left|by left| | | |apply (i_low C s Hi)|by left].
  - intros x h'. cbn. by at_node i x.
  - intros x. cbn. at_node i x; [|by apply (i_log C s)]. destruct Hlow as [->|[y Hy]].
    + destruct HL as [y ->]. rewrite <- (take_app_length L y). by apply (rooted_take s).
    + rewrite <- (take_app_length L y), <- Hy. apply (rooted_take s), (i_log C s Hi).
  - intros x. cbn. at_node i x; [done|]. apply (i_lead C s Hi).
Qed.

Lemma hold_inv i h m :
  led s (s_term s i) h → take m (s_log s i) = take m h →
  evolves s (hold s i m) ∧ inv C (hold s i m).
Proof.
  intros Hh Hm. assert (Hev : evolves s (hold s i m)) by (apply evolves_light; [done|done|done|done|done|done|by left|done]).
  split; [done|]. eapply inv_evolves; [done|done| |by left|by left|done| | |apply (i_low C s Hi)|by left].
  - intros v T k [H|(-> & -> & Hk & H)]; [by left|]. right. split; [done|]. split; [done|]. exists h. split; [done|].
    by eapply (has_take_eq (s_log s i)).
  - apply (i_log C s Hi).
  - apply (i_lead C s Hi).
Qed.
End events.

(** ** Facts that messages carry *)

(** The leader of [T] had [es] after the first [prev] entries of its log, the
    last of which has term [pt]. *)
Definition appends (s : sys) (T : Z) (prev : nat) (pt : Z) (es : list Entry) : Prop :=
  ∃ h, led s T h ∧ (prev + length es ≤ length h)%nat ∧ es = take (length es) (drop prev h) ∧ pt = last_term (take prev h).

(** [v] held the first [m] entries of the leader of [T], in that term. *)
Definition acked (s : sys) (v : NodeID) (T : Z) (m : nat) : Prop :=
  ∃ h, led s T h ∧ (m ≤ length h)%nat ∧ ∀ k, (k < m)%nat → has h k T → s_held s v T k.

(** A majority held the entry of term [T] at position [k], in that term. *)
Definition committed (C : Configuration) (s : sys) (T : Z) (k : nat) : Prop :=
  ∃ Q, quorum C Q ∧ ∀ v, v ∈ Q → s_held s v T k.

(** The first [n] entries of [L] are committed, by a leader of a term up to [T]. *)
Definition decided (C : Configuration) (s : sys) (T : Z) (L : list Entry) (n : nat) : Prop :=
  n = 0%nat ∨ (n ≤ length L)%nat ∧ ∃ T0 k h, T0 ≤ T ∧ committed C s T0 k ∧ led s T0 h ∧ has h k T0 ∧ (n ≤ S k)%nat ∧ take n L = take n h.

Section facts.
Context (C : Configuration) (s s' : sys) (Hi : inv C s) (Hev : evolves s s').

Lemma claim_now j : claim s j (length (s_log s j)) (last_term (s_log s j)).
Proof.
  destruct (decide (s_log s j = [])) as [->|Hne]; [by left|].
  pose proof (has_last _ Hne) as Hlast. pose proof Hlast as (e & He & Het)%has_lookup.
  destruct (i_log _ _ Hi j _ _ He) as (A1 & h & A2 & A3). rewrite Het in *. pose proof (has_length _ _ _ Hlast) as Hlen.
  right. exists h. split; [done|]. split; [eapply (has_take_eq (s_log s j)); [by symmetry|lia|done]|]. split; [lia|].
  intros k T0 Hk Hhk. left. eapply (has_take_eq h); [exact A3|lia|done].
Qed.

Lemma claim_evolves j li lt : claim s j li lt → claim s' j li lt.
Proof.
  intros [H|(h & A1 & A2 & A3 & A4)]; [by left|right].
  destruct (led_evolves _ _ Hev _ _ A1) as (h' & B1 & B2). exists h'. split; [done|]. split; [by eapply has_prefix|].
  split; [done|]. intros k T0 Hk Hh. apply (survives_log s s' Hev). apply A4; [done|].
  pose proof (has_length _ _ _ A2). destruct B2 as [x ->]. unfold has in *. rewrite lookup_app_l in Hh by lia. done.
Qed.

Lemma appends_evolves T prev pt es : appends s T prev pt es → appends s' T prev pt es.
Proof.
  intros (h & H1 & H2 & H3 & H4). destruct (led_evolves _ _ Hev _ _ H1) as (h' & B1 & [x ->]). exists (h ++ x).
  split; [done|]. split; [rewrite length_app; lia|]. split.
  - rewrite drop_app_le by lia. rewrite take_app_le; [done|]. rewrite length_drop. lia.
  - rewrite take_app_le by lia. done.
Qed.

Lemma acked_evolves v T m : acked s v T m → acked s' v T m.
Proof.
  intros (h & H1 & H2 & H3). destruct (led_evolves _ _ Hev _ _ H1) as (h' & B1 & [x ->]). exists (h ++ x).
  split; [done|]. split; [rewrite length_app; lia|]. intros k Hk Hh. apply (ev_held _ _ Hev), H3; [done|].
  unfold has in *. rewrite lookup_app_l in Hh by lia. done.
Qed.

Lemma committed_evolves T k : committed C s T k → committed C s' T k.
Proof. intros (Q & HQ & H). exists Q. split; [done|]. intros v Hv. by apply (ev_held _ _ Hev), H. Qed.

Lemma decided_evolves T T' L n : T ≤ T' → decided C s T L n → decided C s' T' L n.
Proof.
  intros Hle [->|(Hn & T0 & k & h & H1 & H2 & H3 & H4 & H5 & H6)]; [by left|right]. split; [done|].
  destruct (led_evolves _ _ Hev _ _ H3) as (h' & B1 & [x ->]). exists T0, k, (h ++ x).
  split; [lia|]. split; [by apply committed_evolves|]. split; [done|].
  pose proof (has_length _ _ _ H4). split; [eapply has_prefix; [|done]; by eexists|]. split; [done|]. rewrite take_app_le by lia. done.
Qed.
End facts.

Lemma decided_take C s T L L' n m : take m L = take m L' → (n ≤ m)%nat → decided C s T L n → decided C s T L' n.
Proof.
  intros E Hm [->|(Hn & T0 & k & h & H1 & H2 & H3 & H4 & H5 & H6)]; [by left|right].
  assert (E' : take n L = take n L') by by eapply take_eq_le. split.
  - apply (f_equal length) in E'. rewrite !length_take in E'. lia.
  - exists T0, k, h. split; [done|]. split; [done|]. split; [done|]. split; [done|]. split; [done|]. congruence.
Qed.

Lemma decided_le C s T L n m : (m ≤ n)%nat → decided C s T L n → decided C s T L m.
Proof.
  intros Hm [->|(Hn & T0 & k & h & H1 & H2 & H3 & H4 & H5 & H6)]; [left; lia|right]. split; [lia|].
  exists T0, k, h. split; [done|]. split; [done|]. split; [done|]. split; [done|]. split; [lia|]. by eapply take_eq_le.
Qed.

(** ** Safety *)

Section safety.
Context (C : Configuration) (s : sys) (Hd : NoDup (m_ID <$> Voters C)) (Hi : inv C s).

(** A committed entry is in the log of every leader of a later term, by
    induction on the order of the elections. *)
Lemma leader_completeness T k T' h : committed C s T k → T < T' → led s T' h → has h k T.
Proof.
  intros (Q & HQ & Hc). remember (s_when s T') as n eqn:En. revert T' h En.
  induction n as [n IH] using lt_wf_ind. intros T' h -> Hlt [j Hl].
  destruct (i_led _ _ Hi _ _ _ Hl) as (_ & _ & _ & _ & _ & Q' & HQ' & Hel).
  destruct (quorums_meet _ _ _ Hd HQ HQ') as (v & Hv & Hv'). destruct (Hel v Hv') as [_ Hs].
  destruct (Hs k T Hlt (Hc v Hv)) as [H|(T'' & h'' & Hr & Hw & Hl'' & Hn)]; [done|]. exfalso. apply Hn.
  by eapply (IH (s_when s T'')).
Qed.

Lemma committed_prefix T k h T' h' :
  committed C s T k → led s T h → has h k T → T ≤ T' → led s T' h' → take (S k) h' = take (S k) h.
Proof.
  intros Hc Hl Hk Hle Hl'. destruct (decide (T = T')) as [<-|]; [by rewrite (led_unique s _ _ _ Hl Hl')|].
  assert (Hk' : has h' k T) by (eapply leader_completeness; [done| |done]; lia).
  destruct Hl as [j Hl], Hl' as [j' Hl']. destruct (i_led _ _ Hi _ _ _ Hl) as (_ & R & _).
  destruct (i_led _ _ Hi _ _ _ Hl') as (_ & R' & _). by eapply rooted_match.
Qed.

(** Decided prefixes are prefixes of one sequence. *)
Lemma decided_agree T T' L L' n m k :
  decided C s T L n → decided C s T' L' m → (k < n)%nat → (k < m)%nat → L !! k = L' !! k.
Proof.
  intros [->|(_ & T0 & i & h & A1 & A2 & A3 & A4 & A5 & A6)]; [lia|].
  intros [->|(_ & T1 & j & h' & B1 & B2 & B3 & B4 & B5 & B6)]; [lia|]. intros Hn Hm.
  rewrite <- (lookup_take_lt L n k), A6 by done. rewrite <- (lookup_take_lt L' m k), B6 by done.
  rewrite !lookup_take_lt by done. destruct (Z.le_ge_cases T0 T1).
  - pose proof (committed_prefix _ _ _ _ _ A2 A3 A4 H B3) as E.
    rewrite <- (lookup_take_lt h (S i)), <- E, lookup_take_lt by lia. done.
  - pose proof (committed_prefix _ _ _ _ _ B2 B3 B4 H A3) as E.
    rewrite <- (lookup_take_lt h' (S j)), <- E, lookup_take_lt by lia. done.
Qed.

(** What a node has decided is in the log of the leader of its term. *)
Lemma decided_leader T L n h : decided C s T L n → led s T h → take n L = take n h.
Proof.
  intros [->|(_ & T0 & i & h' & A1 & A2 & A3 & A4 & A5 & A6)] Hl; [done|].
  rewrite A6. symmetry. by eapply take_eq_le; [eapply committed_prefix|].
Qed.
End safety.

(** ** The beginning *)

Definition genesis : sys := mkSys (λ _, 0) (λ _, []) (λ _, Idle) ∅ (λ _, 0%nat) 0 ∅ (λ _ _ _, False) 0.

Lemma genesis_inv C : inv C genesis.
Proof. constructor; try done; by intros T h [j H]. Qed.
