(* ===== verification/ProtocolCore.v ===== *)
(** * A core follows the protocol

    [tracks] relates one core to the abstract history: its term, its log, its
    votes and its progress are those of its node.  Every message a core sends
    is a fact of the history, and every entry it reports as committed is
    final. *)

From S2P Require Import Prelude Bytes RaftTypes RaftMembership RaftMembershipSpec RaftCore RaftInv RaftSpec RaftPersist Protocol.

Definition sentinel : Entry := mkEntry 0 0 EntryNormal [].

(** ** The log of a core without snapshots *)

Section log.
Context (c : Core) (L : list Entry) (Hs : c_snapshotIndex c = 0) (Hl : c_log c = sentinel :: L).

Lemma plain_lastIndex : lastIndex c = zlen L.
Proof. unfold lastIndex. rewrite Hs, Hl, zlen_cons. lia. Qed.

Lemma plain_lastTerm : lastTerm c = last_term L.
Proof. unfold lastTerm, last_term. rewrite Hl. destruct L as [|e L'] eqn:E; [done|]. rewrite last_cons. by destruct (last (e :: L')). Qed.

Lemma plain_termAt k : termAt c (Z.of_nat k) = if decide (k ≤ length L)%nat then last_term (take k L) else 0.
Proof.
  unfold termAt. rewrite Hs, (proj2 (Z.ltb_ge (Z.of_nat k) 0)) by lia. unfold pos. rewrite Hs, Z.sub_0_r, Nat2Z.id, Hl.
  destruct k as [|k]; [by rewrite decide_True by lia|]. change ((sentinel :: L) !! S k) with (L !! k). destruct (decide _) as [Hk|Hk].
  - destruct (lookup_lt_is_Some_2 L k) as [e He]; [lia|]. rewrite He. unfold last_term.
    by rewrite (take_S_r _ _ _ He), last_snoc.
  - by rewrite lookup_ge_None_2 by lia.
Qed.

Lemma plain_slice k es : log_slice c (Z.of_nat (S k)) (zlen (c_log c)) = Ok es → es = drop k L ∧ (k ≤ length L)%nat.
Proof.
  unfold log_slice. case_if; [done|]. rewrite Hl in *. intros [= <-]. bool_to_prop. rewrite zlen_cons in *. unfold zlen in *.
  rewrite Nat2Z.id. cbn [drop]. split; [|lia]. rewrite firstn_all2; [done|]. rewrite length_drop. lia.
Qed.
End log.

(** A position whose term is found in a log without sentinel. *)
Lemma last_term_take L k : (k < length L)%nat → has L k (last_term (take (S k) L)).
Proof.
  intros Hk. destruct (lookup_lt_is_Some_2 L k Hk) as [e He]. unfold has, last_term.
  by rewrite (take_S_r _ _ _ He), last_snoc, He.
Qed.

Section core.
Context (C : Configuration) (HC : NoDup (m_ID <$> Voters C)) (HL : Learners C = []) (Hnv : noVote ∉ voter_ids C).

(** What a message says, whatever its term. *)
Definition says (s : sys) (m : Message) : Prop :=
  match m_Type m with
  | MsgRequestVoteRequest =>
      0 ≤ m_LastLogIndex m ∧ claim s (m_From m) (Z.to_nat (m_LastLogIndex m)) (m_LastLogTerm m)
  | MsgRequestVoteResponse =>
      m_VoteGranted m = true → m_To m ≠ noVote → s_cast s !! (m_From m, m_Term m) = Some (m_To m)
  | MsgAppendEntriesRequest =>
      0 ≤ m_PrevLogIndex m ∧ appends s (m_Term m) (Z.to_nat (m_PrevLogIndex m)) (m_PrevLogTerm m) (m_Entries m) ∧
      0 ≤ m_LeaderCommit m ∧ ∃ h, led s (m_Term m) h ∧ decided C s (m_Term m) h (Z.to_nat (m_LeaderCommit m))
  | MsgAppendEntriesResponse =>
      m_Success m = true → 0 ≤ m_MatchIndex m ∧ acked s (m_From m) (m_Term m) (Z.to_nat (m_MatchIndex m))
  | _ => False
  end.

Definition fact (s : sys) (m : Message) : Prop := m_Term m ≤ s_cap s ∧ says s m.

(** An entry that is decided at its place. *)
Definition final (s : sys) (e : Entry) : Prop :=
  ∃ T L n k, decided C s T L n ∧ (k < n)%nat ∧ L !! k = Some e.

Record tracks (s : sys) (c : Core) : Prop := {
  tk_boot : c_bootstrapConfig c = C;
  tk_snap : c_snapshotIndex c = 0;
  tk_nosnap : c_snapshotHasConfig c = false;
  tk_active : c_activeConfig c = C;
  tk_self : self c ∈ voter_ids C;
  tk_log : c_log c = sentinel :: s_log s (self c);
  tk_term : c_currentTerm c = s_term s (self c);
  tk_vote : c_votedFor c = noVote ∧ (s_cast s !! (self c, c_currentTerm c) = None ∨ c_heardFromLeader c = true) ∨
            c_votedFor c ≠ noVote ∧ s_cast s !! (self c, c_currentTerm c) = Some (c_votedFor c);
  tk_candidate : c_role c = Candidate → s_phase s (self c) = Campaigning ∧ 1 ≤ c_currentTerm c ∧
    ∀ vs x, c_votesReceived c = Some vs → x ∈ dom vs → s_cast s !! (x, c_currentTerm c) = Some (self c);
  tk_leader : c_role c = Leader → s_phase s (self c) = Leading ∧
    (∀ nx v n, c_nextIndex c = Some nx → nx !! v = Some n → n ≤ lastIndex c + 1) ∧
    (∀ mt v m, c_matchIndex c = Some mt → mt !! v = Some m → 0 ≤ m ∧ acked s v (c_currentTerm c) (Z.to_nat m));
  tk_follower : c_role c = Follower → s_phase s (self c) = Idle;
  tk_commit : 0 ≤ c_commitIndex c ∧ decided C s (c_currentTerm c) (s_log s (self c)) (Z.to_nat (c_commitIndex c))
}.

Record ok (s : sys) (c : Core) (out : Output) : Prop := {
  ok_core : tracks s c;
  ok_msgs : Forall (fact s) (out_Messages out);
  ok_final : Forall (final s) (out_CommittedEntries out)
}.

Lemma fact_evolves s s' m : inv C s → evolves s s' → fact s m → fact s' m.
Proof.
  intros Hi Hev [Ht Hf]. split; [pose proof (ev_cap _ _ Hev); lia|]. revert Hf. unfold says. destruct (m_Type m); [..|done|done].
  - intros [H1 H2]. split; [done|]. by eapply claim_evolves.
  - intros H H1 H2. by apply (ev_cast _ _ Hev), H.
  - intros (H1 & H2 & H3 & h & H4 & H5). split; [done|]. split; [by eapply appends_evolves|]. split; [done|].
    destruct (led_evolves _ _ Hev _ _ H4) as (h' & B1 & B2). exists h'. split; [done|].
    eapply (decided_take C s' _ h h' _ (length h)); [symmetry; by apply take_prefix_eq| |by eapply decided_evolves].
    destruct H5 as [->|[H5 _]]; lia.
  - intros H H1. destruct (H H1) as [H2 H3]. split; [done|]. by eapply acked_evolves.
Qed.

Lemma final_evolves s s' e : evolves s s' → final s e → final s' e.
Proof. intros Hev (T & L & n & k & H1 & H2 & H3). exists T, L, n, k. split; [|done]. by eapply decided_evolves. Qed.

(** Final entries with the same index are the same entry. *)
Lemma final_agree s e e' : inv C s → final s e → final s e' → e_Index e = e_Index e' → e = e'.
Proof.
  intros Hi (T & L & n & k & H1 & H2 & H3) (T' & L' & n' & k' & H1' & H2' & H3') Hx.
  assert (Hnum : ∀ T L n k e, decided C s T L n → (k < n)%nat → L !! k = Some e → e_Index e = Z.of_nat k + 1).
  { clear -Hi. intros T L n k e [->|(_ & T0 & x & h & _ & _ & [j Hh] & _ & _ & E)] Hk He; [lia|].
    destruct (i_led _ _ Hi _ _ _ Hh) as (_ & _ & Hn & _). apply Hn.
    rewrite <- (lookup_take_lt h n), <- E, lookup_take_lt by done. done. }
  rewrite (Hnum _ _ _ _ _ H1 H2 H3), (Hnum _ _ _ _ _ H1' H2' H3') in Hx. assert (k = k') as <- by lia.
  pose proof (decided_agree C s HC Hi _ _ _ _ _ _ k H1 H1' H2 H2') as E. congruence.
Qed.

(** ** Replication *)

Section fixed.
Context (s : sys) (Hi : inv C s).

Lemma leader_led c : tracks s c → c_role c = Leader → led s (c_currentTerm c) (s_log s (self c)).
Proof.
  intros Ht Hr. exists (self c). rewrite (tk_term s c Ht). apply (i_lead C s Hi). by apply (tk_leader s c Ht).
Qed.

Lemma tracks_low c : tracks s c → c_currentTerm c ≤ s_cap s.
Proof. intros Ht. rewrite (tk_term s c Ht). apply (i_low C s Hi). Qed.

(** What a leader needs to send true messages. *)
Record replicates (c : Core) (h : list Entry) : Prop := {
  rp_low : c_currentTerm c ≤ s_cap s;
  rp_snap : c_snapshotIndex c = 0;
  rp_log : c_log c = sentinel :: h;
  rp_led : led s (c_currentTerm c) h;
  rp_next : ∀ nx v n, c_nextIndex c = Some nx → nx !! v = Some n → n ≤ lastIndex c + 1;
  rp_commit : 0 ≤ c_commitIndex c ∧ decided C s (c_currentTerm c) h (Z.to_nat (c_commitIndex c))
}.

Lemma leader_replicates c : tracks s c → c_role c = Leader → replicates c (s_log s (self c)).
Proof.
  intros Ht Hr. constructor; [by apply tracks_low|apply Ht|apply Ht|by apply leader_led|by apply (tk_leader s c Ht)|apply (tk_commit s c Ht)].
Qed.

Lemma appendEntriesMessage_fact c h peer c' m :
  replicates c h → appendEntriesMessage c peer = Ok (c', m) →
  fact s m ∧ ∃ nx, c' = c <| c_nextIndex := nx |> ∧ replicates c' h.
Proof.
  intros [Hlow Hsnap Hlog Hled Hn Hc]. unfold appendEntriesMessage. cbv zeta. pose proof (plain_lastIndex c _ Hsnap Hlog) as Hlast.
  set (next := if map_read 0 (c_nextIndex c) peer <? 1 then 1 else _).
  assert (Hnext : 1 ≤ next ≤ lastIndex c + 1).
  { unfold next. rewrite Hlast in *. pose proof (zlen_nonneg h). destruct (Z.ltb_spec (map_read 0 (c_nextIndex c) peer) 1); [lia|].
    split; [lia|]. unfold map_read in *. destruct (c_nextIndex c) as [nx|] eqn:E; [|lia].
    destruct (nx !! peer) eqn:E'; cbn [default from_option] in *; [|lia]. by eapply Hn. }
  clearbody next. rewrite Hsnap. destruct (Z.leb_spec next 0); [lia|]. intros H1.
  apply bind_Ok_inv in H1 as ([es nn] & H1 & H2). apply bind_Ok_inv in H2 as (nx' & H2 & H3). apply Ok_inj in H3.
  assert (c' = c <| c_nextIndex := nx' |> ∧ m = (message MsgAppendEntriesRequest (self c) peer (c_currentTerm c))
      <| m_PrevLogIndex := next - 1 |> <| m_PrevLogTerm := termAt c (next - 1) |>
      <| m_Entries := es |> <| m_LeaderCommit := c_commitIndex c |>) as [-> ->] by (split; congruence). clear H3.
  set (k := Z.to_nat (next - 1)). assert (Hk : next - 1 = Z.of_nat k) by lia.
  assert (Hes : es = drop k h ∧ nn ≤ lastIndex c + 1 ∧ (k ≤ length h)%nat).
  { rewrite Hlast in *. unfold zlen in Hnext, H1. destruct (Z.leb_spec next (Z.of_nat (length h))).
    - apply bind_Ok_inv in H1 as (es' & H1 & H3). apply Ok_inj in H3. injection H3 as <- <-.
      unfold pos in H1. rewrite Hsnap, Z.sub_0_r in H1. replace next with (Z.of_nat (S k)) in H1 by lia.
      apply (plain_slice c _ Hlog) in H1 as [-> H1]. split; [done|]. split; [|done]. unfold zlen, u64.
      pose proof (Z.mod_le (Z.of_nat (length h) + 1) (2 ^ 64)). lia.
    - apply Ok_inj in H1. injection H1 as <- <-. split; [symmetry; apply drop_ge; lia|]. unfold zlen. lia. }
  destruct Hes as (-> & Hnn & Hkl). split.
  - split; [exact Hlow|]. cbn. split; [lia|]. rewrite Hk, Nat2Z.id. split.
    + exists h. split; [done|]. rewrite length_drop. split; [lia|]. split; [by rewrite firstn_all2 by (rewrite length_drop; lia)|].
      rewrite (plain_termAt c _ Hsnap Hlog). by rewrite decide_True.
    + split; [apply Hc|]. exists h. split; [done|]. apply Hc.
  - exists nx'. split; [done|]. constructor; try done. cbn.
    intros nx v n -> Hv. unfold map_write in H2. destruct (c_nextIndex c) as [nx0|]; [|done]. apply Ok_inj in H2.
    injection H2 as <-. destruct (decide (peer = v)) as [<-|].
    + rewrite lookup_insert_eq in Hv. injection Hv as <-. exact Hnn.
    + rewrite lookup_insert_ne in Hv by done. by eapply Hn.
Qed.

Lemma replicate_to_facts skip ms c h out c' out' :
  replicates c h → Forall (fact s) (out_Messages out) → replicate_to skip ms c out = Ok (c', out') →
  replicates c' h ∧ Forall (fact s) (out_Messages out').
Proof.
  revert c out. induction ms as [|m ms IH]; intros c out Hr Ho; cbn [replicate_to]; [by intros [= <- <-]|].
  case_if; [by apply IH|]. intros H. apply bind_Ok_inv in H as ([c1 msg] & H1 & H2).
  apply (appendEntriesMessage_fact c h) in H1 as (A1 & nx & _ & A2); [|done]. revert H2. apply IH; [done|].
  cbn. apply Forall_app. split; [done|]. by apply Forall_singleton.
Qed.

Lemma broadcast_facts c h out c' out' :
  replicates c h → Forall (fact s) (out_Messages out) → broadcast c out = Ok (c', out') → Forall (fact s) (out_Messages out').
Proof.
  intros Hr Ho H. apply bind_Ok_inv in H as ([c1 o1] & H1 & H2). eapply replicate_to_facts in H1 as [A1 A2]; [|done..].
  by eapply replicate_to_facts in H2 as [_ H2].
Qed.

Lemma appendEntriesMessage_ok c peer c' m :
  tracks s c → c_role c = Leader → appendEntriesMessage c peer = Ok (c', m) → tracks s c' ∧ c_role c' = Leader ∧ fact s m ∧ c_pending c' = c_pending c.
Proof.
  intros Ht Hr H. apply (appendEntriesMessage_fact c (s_log s (self c))) in H as (A1 & nx & -> & [_ _ _ _ A2 _]); [|by apply leader_replicates].
  split; [|done]. destruct (tk_leader s c Ht Hr) as (B1 & B2 & B3). destruct Ht. by constructor.
Qed.

Lemma ok_send c out m : fact s m → ok s c out → ok s c (send m out).
Proof. intros Hm [H1 H2 H3]. constructor; [done| |done]. cbn. apply Forall_app. split; [done|]. by apply Forall_singleton. Qed.

Lemma ok_tracks c c' out : tracks s c' → ok s c out → ok s c' out.
Proof. intros H [_ H2 H3]. by constructor. Qed.

Lemma replicate_to_ok skip ms c out c' out' :
  ok s c out → c_role c = Leader → replicate_to skip ms c out = Ok (c', out') → ok s c' out' ∧ c_role c' = Leader.
Proof.
  revert c out. induction ms as [|m ms IH]; intros c out Ho Hr; cbn [replicate_to]; [by intros [= <- <-]|].
  case_if; [by apply IH|]. intros H. apply bind_Ok_inv in H as ([c1 msg] & H1 & H2).
  apply appendEntriesMessage_ok in H1 as (A1 & A2 & A3 & A4); [|apply Ho|done]. revert H2. apply IH; [|done].
  apply ok_send; [done|]. by eapply ok_tracks.
Qed.

Lemma broadcast_ok c out c' out' :
  ok s c out → c_role c = Leader → broadcast c out = Ok (c', out') → ok s c' out' ∧ c_role c' = Leader.
Proof.
  intros Ho Hr H. apply bind_Ok_inv in H as ([c1 o1] & H1 & H2). apply replicate_to_ok in H1 as [A1 A2]; [|done..].
  by eapply replicate_to_ok.
Qed.

(** ** Commitment *)

Lemma commit_slice_final c n es :
  tracks s c → decided C s (c_currentTerm c) (s_log s (self c)) (Z.to_nat n) → commit_slice c n = Ok es → Forall (final s) es.
Proof.
  intros Ht Hdec. unfold commit_slice. cbv zeta. unfold pos. rewrite (tk_snap s c Ht).
  set (start := if _ <=? 0 then 0 + 1 else _). assert (Hst : 1 ≤ start).
  { unfold start. destruct (Z.leb_spec (c_commitIndex c + 1)%u64 0); lia. }
  clearbody start. unfold log_slice. case_if; [done|]. intros [= <-]. bool_to_prop. apply Forall_forall. intros e He.
  apply list_elem_of_lookup in He as [i He]. apply lookup_take_Some in He as [He Hi']. rewrite lookup_drop, (tk_log s c Ht) in He.
  set (k := (Z.to_nat (start - 0) + i - 1)%nat).
  replace (Z.to_nat (start - 0) + i)%nat with (S k) in He by lia. change ((sentinel :: s_log s (self c)) !! S k) with (s_log s (self c) !! k) in He.
  exists (c_currentTerm c), (s_log s (self c)), (Z.to_nat n), k. split; [done|]. split; [lia|done].
Qed.

(** Moving the commit index to a decided place. *)
Lemma tracks_commit c n :
  tracks s c → 0 ≤ n → decided C s (c_currentTerm c) (s_log s (self c)) (Z.to_nat n) → tracks s (c <| c_commitIndex := n |>).
Proof. intros [] Hn Hd. by constructor. Qed.

Lemma ok_commit c out n es :
  ok s c out → 0 ≤ n → decided C s (c_currentTerm c) (s_log s (self c)) (Z.to_nat n) → commit_slice c n = Ok es →
  ok s (c <| c_commitIndex := n |>) (out <| out_CommittedEntries := out_CommittedEntries out ++ es |>).
Proof.
  intros [H1 H2 H3] Hn Hd Hs. constructor; [by apply tracks_commit|done|]. cbn. apply Forall_app. split; [done|].
  by eapply commit_slice_final.
Qed.

Lemma advanceFollowerCommit_ok c n out c' out' :
  ok s c out → decided C s (c_currentTerm c) (s_log s (self c)) (Z.to_nat n) →
  advanceFollowerCommit c n out = Ok (c', out') → ok s c' out' ∧ c_role c' = c_role c ∧ c_pending c' = c_pending c ∧ c_persistedSeq c' = c_persistedSeq c.
Proof.
  intros Ho Hd. unfold advanceFollowerCommit. cbv zeta. set (n' := if lastIndex c <? n then lastIndex c else n).
  destruct (Z.leb_spec n' (c_commitIndex c)); [by intros [= <- <-]|]. intros Hs. apply bind_Ok_inv in Hs as (es & Hs & E). injection E as <- <-.
  split; [|done]. pose proof (tk_commit s c (ok_core _ _ _ Ho)) as [Hc _]. apply ok_commit; [done|lia| |done].
  eapply decided_le; [|exact Hd]. unfold n' in *. destruct (Z.ltb_spec (lastIndex c) n); lia.
Qed.

Lemma plain_has c k : tracks s c → (k < length (s_log s (self c)))%nat → has (s_log s (self c)) k (termAt c (Z.of_nat (S k))).
Proof.
  intros Ht Hk. rewrite (plain_termAt c _ (tk_snap s c Ht) (tk_log s c Ht)), decide_True by lia. by apply last_term_take.
Qed.

(** A majority of acknowledgements commits an entry of the leader's term. *)
Lemma leader_commits c n :
  tracks s c → c_role c = Leader → 0 < n ≤ lastIndex c → termAt c n = c_currentTerm c →
  Majority (c_activeConfig c) ≤ match_count c n → decided C s (c_currentTerm c) (s_log s (self c)) (Z.to_nat n).
Proof.
  intros Ht Hr Hn Hterm Hm. pose proof (leader_led c Ht Hr) as Hled. destruct (tk_leader s c Ht Hr) as (_ & _ & Hack).
  rewrite (plain_lastIndex c _ (tk_snap s c Ht) (tk_log s c Ht)) in Hn. unfold zlen in Hn.
  assert (∃ k, n = Z.of_nat (S k)) as [k ->] by (exists (Z.to_nat (n - 1)); lia).
  pose proof (plain_has c k Ht) as Hhas. rewrite Hterm in Hhas. specialize (Hhas ltac:(lia)).
  right. rewrite Nat2Z.id. split; [lia|]. exists (c_currentTerm c), k, (s_log s (self c)).
  split; [done|]. split; [|done]. unfold match_count in Hm. rewrite (tk_active s c Ht) in Hm.
  set (vs := filter _ (Voters C)) in Hm. exists (ids vs). split.
  - split.
    + intros v (m & Hm' & <-)%elem_of_ids. apply list_elem_of_filter in Hm' as [_ Hm']. apply elem_of_ids. by exists m.
    + rewrite size_ids; [done|]. by apply NoDup_filter_member.
  - intros v (m & Hm' & <-)%elem_of_ids. apply list_elem_of_filter in Hm' as [Hm' _].
    unfold map_read in Hm'. destruct (c_matchIndex c) as [mt|] eqn:E; [|lia].
    destruct (mt !! m_ID m) as [x|] eqn:Ex; cbn [default from_option] in Hm'; [|lia].
    destruct (Hack _ _ _ eq_refl Ex) as (_ & h & Hh & _ & Hall). rewrite (led_unique s _ _ _ Hh Hled) in Hall.
    change (Z.of_nat (S k) ≤ x) in Hm'. apply Hall; [lia|done].
Qed.

Lemma maybeStepDown_voter c out : tracks s c → maybeStepDownAfterSelfRemoval c out = (c, out).
Proof.
  intros Ht. unfold maybeStepDownAfterSelfRemoval. rewrite (tk_active s c Ht).
  rewrite (proj2 (has_member_ids (Voters C) (self c)) (tk_self s c Ht) : IsVoter C (self c) = true). by rewrite orb_true_r.
Qed.

Lemma advance_loop_ok fuel c n out c' out' :
  ok s c out → c_role c = Leader → n ≤ lastIndex c → advance_loop fuel c n out = Ok (c', out') →
  ok s c' out' ∧ c_role c' = Leader ∧ c_pending c' = c_pending c ∧ c_persistedSeq c' = c_persistedSeq c.
Proof.
  revert n. induction fuel as [|fuel IH]; intros n Ho Hr Hn; cbn [advance_loop]; [by intros [= <- <-]|].
  destruct (Z.leb_spec n (c_commitIndex c)) as [|Hlt]; [by intros [= <- <-]|].
  destruct (Z.eqb_spec (termAt c n) (c_currentTerm c)) as [Ht|]; cbn [negb]; [|apply IH; [done|done|lia]].
  destruct (Z.leb_spec (Majority (c_activeConfig c)) (match_count c n)); [|apply IH; [done|done|lia]].
  intros Hs. apply bind_Ok_inv in Hs as (es & Hs & E). apply Ok_inj in E.
  pose proof (tk_commit s c (ok_core _ _ _ Ho)) as [Hc _].
  assert (Hok : ok s (c <| c_commitIndex := n |>) (out <| out_CommittedEntries := out_CommittedEntries out ++ es |>)).
  { apply ok_commit; [done|lia| |done]. apply leader_commits; [apply Ho|done|lia|done|done]. }
  rewrite maybeStepDown_voter in E by apply Hok.
  assert (c' = c <| c_commitIndex := n |> ∧ out' = out <| out_CommittedEntries := out_CommittedEntries out ++ es |>) as [-> ->] by (split; congruence).
  done.
Qed.

Lemma note_match_ok c from m c' :
  tracks s c → c_role c = Leader → 0 ≤ m → acked s from (c_currentTerm c) (Z.to_nat m) → note_match c from m = Ok c' →
  tracks s c' ∧ c_role c' = Leader ∧ c_pending c' = c_pending c.
Proof.
  intros Ht Hr Hm Hack. unfold note_match. intros H. apply bind_Ok_inv in H as (mt & Hmt & H).
  apply bind_Ok_inv in H as (nx & Hnx & H). apply Ok_inj in H. subst c'. split; [|done].
  destruct (tk_leader s c Ht Hr) as (Hp & Hn & Ha).
  assert (Hml : m ≤ lastIndex c).
  { rewrite (plain_lastIndex c _ (tk_snap s c Ht) (tk_log s c Ht)). destruct Hack as (h & Hh & Hle & _).
    rewrite (led_unique s _ _ _ Hh (leader_led c Ht Hr)) in Hle. unfold zlen. lia. }
  pose proof (Z.mod_le (m + 1) (2 ^ 64)) as Hmod. fold (u64 (m + 1)) in Hmod.
  destruct Ht. constructor; try done. cbn. intros _. split; [done|]. split.
  - intros nx0 v n E Hv. subst nx. destruct (map_read 0 (c_nextIndex c) from <? u64 (m + 1)); [|apply Ok_inj in Hnx; by eapply Hn].
    unfold map_write in Hnx. destruct (c_nextIndex c) as [nx1|]; [|done]. apply Ok_inj in Hnx. injection Hnx as <-.
    destruct (decide (from = v)) as [<-|]; [|rewrite lookup_insert_ne in Hv by done; by eapply Hn].
    rewrite lookup_insert_eq in Hv. injection Hv as <-. change (u64 (m + 1) ≤ lastIndex c + 1). lia.
  - intros mt0 v n E Hv. subst mt. destruct (map_read 0 (c_matchIndex c) from <? m); [|apply Ok_inj in Hmt; by eapply Ha].
    unfold map_write in Hmt. destruct (c_matchIndex c) as [mt1|]; [|done]. apply Ok_inj in Hmt. injection Hmt as <-.
    destruct (decide (from = v)) as [<-|]; [|rewrite lookup_insert_ne in Hv by done; by eapply Ha].
    rewrite lookup_insert_eq in Hv. by injection Hv as <-.
Qed.

Lemma continue_replication_ok c from out c' out' :
  ok s c out → c_role c = Leader → continue_replication c from out = Ok (c', out') → ok s c' out' ∧ c_pending c' = c_pending c.
Proof.
  intros Ho Hr. unfold continue_replication. case_match; [|by intros [= <- <-]].
  intros H'. apply bind_Ok_inv in H' as ([c1 m] & H1 & H2). injection H2 as <- <-.
  apply appendEntriesMessage_ok in H1 as (A1 & A2 & A3 & A4); [|apply Ho|done]. split; [|done].
  apply ok_send; [done|]. by eapply ok_tracks.
Qed.
End fixed.

(** ** Pending work *)

(** What the core will announce once its request is durable. *)
Definition due (s : sys) (c : Core) (p : pendingItem) : Prop :=
  match p_kind p with
  | pendingVoteGrant => True
  | pendingAppendAck | pendingSelfMatch => 0 ≤ p_index p ∧ acked s (self c) (c_currentTerm c) (Z.to_nat (p_index p))
  | pendingCommitAdvance => decided C s (c_currentTerm c) (s_log s (self c)) (Z.to_nat (p_index p))
  end.

Lemma tracks_quiet s c c' : quiet c c' → tracks s c → tracks s c'.
Proof.
  intros [Hl H1 H2 H3 H4 H5 H6 H7] Ht. pose proof (same_log_lastIndex _ _ Hl) as Hlast.
  assert (Hself : self c' = self c) by (unfold self; by rewrite (sl_cfg _ _ Hl)).
  destruct Hl, Ht. constructor; rewrite ?Hself, ?H1, ?H2, ?H3, ?H4, ?H5, ?H6, ?H7, ?Hlast; congruence || done.
Qed.

Section release.
Context (s : sys) (Hi : inv C s).

(** Releasing one item leaves the others due. *)
Record released (c : Core) (c' : Core) : Prop := {
  re_self : self c' = self c;
  re_term : c_currentTerm c' = c_currentTerm c;
  re_pending : c_pending c' = c_pending c;
  re_seq : c_persistedSeq c' = c_persistedSeq c
}.

Lemma released_due c c' p : released c c' → due s c p → due s c' p.
Proof. intros [H1 H2 _ _]. unfold due. by rewrite H1, H2. Qed.

Lemma release_pending_ok c out p c' out' :
  ok s c out → due s c p → release_pending c out p = Ok (c', out') → ok s c' out' ∧ released c c'.
Proof.
  intros Ho Hp H. pose proof (release_pending_calm c out p _ _ H) as [_ _ Ct _ Cc _]. pose proof (ok_core _ _ _ Ho) as Ht.
  assert (Hself : self c' = self c) by (unfold self; by rewrite Cc).
  enough (ok s c' out' ∧ c_pending c' = c_pending c ∧ c_persistedSeq c' = c_persistedSeq c) as (A1 & A2 & A3) by (split; [done|by constructor]).
  revert H. unfold release_pending, due in *. destruct (p_kind p).
  - destruct (_ && _) eqn:E; [|by intros [= <- <-]]. intros [= <- <-]. bool_to_prop. split; [|done]. apply ok_send; [|done].
    split; [by apply (tracks_low s Hi)|]. cbn. intros _ Hne. destruct (tk_vote s c Ht) as [[Hv _]|[_ Hv]]; [congruence|]. by rewrite Hv, H0.
  - case_if; [|by intros [= <- <-]]. intros [= <- <-]. split; [|done]. apply ok_send; [|done]. split; [by apply (tracks_low s Hi)|]. cbn. intros _. done.
  - case_if; [|by intros [= <- <-]]. intros Ha. by apply (advanceFollowerCommit_ok s c) in Ha as (A1 & _ & A2).
  - destruct (_ && _) eqn:E; [|by intros [= <- <-]]. bool_to_prop. intros Ha. apply bind_Ok_inv in Ha as (mt & Hm & Ha).
    assert (Ht' : tracks s (c <| c_matchIndex := mt |>)).
    { destruct (tk_leader s c Ht) as (Hph & Hnx & Hmt); [done|]. destruct Ht. constructor; try done. cbn. intros _. split; [done|].
      split; [done|]. intros mt0 v m -> Hv. destruct (map_read 0 (c_matchIndex c) (self c) <? p_index p); [|apply Ok_inj in Hm; by eapply Hmt].
      unfold map_write in Hm. destruct (c_matchIndex c) as [mt1|]; [|done]. apply Ok_inj in Hm. injection Hm as <-.
      destruct (decide (self c = v)) as [<-|]; [|rewrite lookup_insert_ne in Hv by done; by eapply Hmt].
      rewrite lookup_insert_eq in Hv. by injection Hv as <-. }
    apply (advance_loop_ok s Hi) in Ha as (A1 & _ & A2); [done|by eapply ok_tracks|done|done].
Qed.

Lemma release_loop_ok ps c out rem c' out' rem' :
  ok s c out → Forall (λ p, due s c p ∧ p_seq p ≤ c_persistedSeq c) ps → release_loop c out rem ps = Ok (c', out', rem') →
  ok s c' out' ∧ rem' = rem.
Proof.
  revert c out. induction ps as [|p ps IH]; intros c out Ho Hp; cbn [release_loop]; [by intros [= <- <- <-]|].
  apply Forall_cons in Hp as [[Hd Hs] Hp]. rewrite (proj2 (Z.ltb_ge (c_persistedSeq c) (p_seq p))) by done. intros H.
  apply bind_Ok_inv in H as ([c1 o1] & H1 & H2). apply release_pending_ok in H1 as [A1 A2]; [|done|done].
  apply (IH c1 o1); [done| |done]. eapply Forall_impl; [exact Hp|]. intros q [Q1 Q2]. split; [by eapply released_due|].
  by rewrite (re_seq _ _ A2).
Qed.

Lemma persisted_ok c seq c' out :
  tracks s c → Forall (λ p, due s c p ∧ p_seq p ≤ seq) (c_pending c) → handlePersistenceComplete c seq = Ok (c', out) →
  ok s c' out ∧ c_pending c' = [].
Proof.
  intros Ht Hp. unfold handlePersistenceComplete. cbv zeta.
  set (c0 := if c_persistedSeq c <? seq then _ else c).
  assert (H0 : quiet c c0 ∧ c_pending c0 = c_pending c ∧ seq ≤ c_persistedSeq c0).
  { unfold c0. destruct (Z.ltb_spec (c_persistedSeq c) seq); [|split; [apply quiet_refl|done]].
    split; [constructor; [by constructor|done..]|]. split; [done|]. cbn. lia. }
  clearbody c0. destruct H0 as (Hq & Hpe & Hs). intros H. apply bind_Ok_inv in H as ([[c1 o1] rem] & H1 & H2).
  injection H2 as <- <-.
  apply release_loop_ok in H1 as [A1 ->].
  - split; [|done]. eapply ok_tracks; [|exact A1]. eapply tracks_quiet; [apply quiet_pending|apply A1].
  - constructor; [by eapply tracks_quiet|done|done].
  - rewrite Hpe. eapply Forall_impl; [exact Hp|]. intros p [P1 P2]. split; [|lia]. unfold due in *.
    assert (self c0 = self c) as -> by (unfold self; by rewrite (sl_cfg _ _ (q_log _ _ Hq))). by rewrite (q_term _ _ Hq).
Qed.
End release.
End core.
