(* ===== verification/ProtocolStep.v ===== *)
(** * Every step of a core is an event of the protocol

    For each input of a core that tracks the history there are events after
    which the stepped core tracks the new history, whether its request was
    made durable or its disk failed on the way. *)

From stdpp Require Import functions.
From S2P Require Import Prelude Bytes RaftTypes RaftMembership RaftMembershipSpec RaftCore RaftInv RaftSpec RaftPersist RaftDriver Protocol ProtocolCore.

(** The vote and the term on disk. *)
Definition vote_link (s : sys) (i : NodeID) (hs : HardState) : Prop :=
  hs_CurrentTerm hs = s_term s i ∧
  (hs_VotedFor hs = noVote ∧ s_cast s !! (i, s_term s i) = None ∨
   hs_VotedFor hs ≠ noVote ∧ s_cast s !! (i, s_term s i) = Some (hs_VotedFor hs)).

Definition disk (s : sys) (i : NodeID) (hs : HardState) (es : list Entry) : Prop :=
  vote_link s i hs ∧ es = s_log s i.

(** The log on disk when a request fails before its entries are written: the
    truncation comes first, the hard state last. *)
Definition partial (pr : PersistRequest) (es es' : list Entry) : Prop :=
  es' = es ∨ pr_TruncateFrom pr ≠ 0 ∧ es' = take (Z.to_nat (pr_TruncateFrom pr - 1)) es.

Section steps.
Context (C : Configuration) (HC : NoDup (m_ID <$> Voters C)) (HL : Learners C = []) (Hnv : noVote ∉ voter_ids C).

(** Events of node [i]. *)
Record moves (i : NodeID) (s s' : sys) : Prop := {
  mv_evolves : evolves s s';
  mv_inv : inv C s';
  mv_kept : ∀ x, x ≠ i → s_term s' x = s_term s x ∧ s_log s' x = s_log s x ∧ s_phase s' x = s_phase s x ∧
    ∀ T, s_cast s' !! (x, T) = s_cast s !! (x, T);
  mv_cap : s_cap s' = s_cap s
}.

Lemma moves_refl i s : inv C s → moves i s s.
Proof. intros H. constructor; [apply history_refl|done|done|done]. Qed.

Lemma moves_trans i s s1 s2 : moves i s s1 → moves i s1 s2 → moves i s s2.
Proof.
  intros [A1 A2 A3 A4] [B1 B2 B3 B4]. constructor; [by eapply history_trans|done| |congruence]. intros x Hx.
  destruct (A3 x Hx) as (E1 & E2 & E3 & E4), (B3 x Hx) as (F1 & F2 & F3 & F4).
  split; [congruence|]. split; [congruence|]. split; [congruence|]. intros T. by rewrite F4, E4.
Qed.

Ltac kept_frame := intros x Hx; cbn; rewrite ?insert_fn_ne by done; split; [done|]; split; [done|]; split; [done|]; intros T';
  rewrite ?lookup_insert_ne by congruence; done.

Lemma observe_moves s i T : inv C s → s_term s i ≤ T ≤ s_cap s → moves i s (observe s i T).
Proof. intros Hi Hle. constructor; [apply observe_evolves; lia|by apply observe_inv|kept_frame|done]. Qed.

Lemma vote_moves s i j T li lt :
  inv C s → i ∈ voter_ids C → s_term s i ≤ T ≤ s_cap s → (s_cast s !! (i, T) = None ∨ s_cast s !! (i, T) = Some j) →
  claim s j li lt → up_to_date (s_log s i) li lt → moves i s (vote s i j T).
Proof.
  intros Hi Hv Ht Hc Hcl Hup. destruct (vote_inv C s Hi i j T li lt) as [H1 H2]; [done..|]. constructor; [done|done| |done].
  intros x Hx. cbn. rewrite !insert_fn_ne by done. split; [done|]. split; [done|]. split.
  - case_decide; [done|]. by rewrite insert_fn_ne.
  - intros T'. by rewrite lookup_insert_ne by congruence.
Qed.

Lemma campaign_moves s i : inv C s → i ∈ voter_ids C → s_term s i < s_cap s → moves i s (campaign s i).
Proof. intros Hi Hv Hc. destruct (campaign_inv C s Hi i Hv Hc) as [H1 H2]. constructor; [done|done|kept_frame|done]. Qed.

Lemma win_moves s i Q :
  inv C s → s_phase s i = Campaigning → 1 ≤ s_term s i → numbered (s_log s i) → quorum C Q →
  (∀ v, v ∈ Q → s_cast s !! (v, s_term s i) = Some i) → moves i s (win s i).
Proof. intros Hi H1 H2 H3 H4 H5. destruct (win_inv C s Hi i Q) as [A1 A2]; [done..|]. constructor; [done|done|kept_frame|done]. Qed.

Lemma append_moves s i e d :
  inv C s → s_phase s i = Leading → zlen (s_log s i) < s_cap s → e_Term e = s_term s i → e_Index e = Z.of_nat (length (s_log s i)) + 1 → e_Type e = EntryNormal →
  moves i s (append s i e d).
Proof.
  intros Hi H1 H0 H2 H3 H4. destruct (append_inv C s Hi i e d) as [A1 A2]; [done..|]. constructor; [done|done| |done].
  destruct d; kept_frame.
Qed.

Lemma relog_moves s i T h L :
  inv C s → led s T h → s_term s i ≤ T → follows_leader s i h L → (T = s_term s i ∨ L `prefix_of` s_log s i) → moves i s (relog s i L).
Proof. intros Hi H1 H2 H3 H4. destruct (relog_inv C s Hi i T h L) as [A1 A2]; [done..|]. constructor; [done|done|kept_frame|done]. Qed.

Lemma hold_moves s i h m : inv C s → led s (s_term s i) h → take m (s_log s i) = take m h → moves i s (hold s i m).
Proof. intros Hi H1 H2. destruct (hold_inv C s Hi i h m) as [A1 A2]; [done..|]. constructor; [done|done|kept_frame|done]. Qed.

(** Other nodes do not notice. *)
Lemma tracks_other i s s' c : moves i s s' → inv C s → self c ≠ i → tracks C s c → tracks C s' c.
Proof.
  intros [Hev Hi' Hk _] Hi Hne Ht. destruct (Hk _ Hne) as (E1 & E2 & E3 & E4). destruct Ht. constructor; try done.
  - congruence.
  - congruence.
  - by rewrite E4.
  - intros Hr. destruct (tk_candidate Hr) as (A1 & A0 & A2). split; [congruence|]. split; [done|]. intros vs x Hvs Hx. by eapply (ev_cast _ _ Hev), A2.
  - intros Hr. destruct (tk_leader Hr) as (A1 & A2 & A3). split; [congruence|]. split; [done|]. intros mt v m Hm Hv.
    destruct (A3 _ _ _ Hm Hv) as [B1 B2]. split; [done|]. by eapply acked_evolves.
  - intros Hr. rewrite E3. by apply tk_follower.
  - destruct tk_commit as [B1 B2]. split; [done|]. rewrite E2. by eapply decided_evolves.
Qed.

Lemma disk_other i s s' x hs es : moves i s s' → x ≠ i → disk s x hs es → disk s' x hs es.
Proof. intros [_ _ Hk _] Hne. destruct (Hk _ Hne) as (E1 & E2 & _ & E4). unfold disk, vote_link. by rewrite E1, E2, E4. Qed.

(** ** Outcomes *)

Record advances (s : sys) (c c' : Core) (out : Output) (s' : sys) : Prop := {
  ad_moves : moves (self c) s s';
  ad_self : self c' = self c;
  ad_ok : ok C s' c' out;
  ad_due : match out_PersistRequest out with
           | Some pr => Forall (λ p, due C s' c' p ∧ p_seq p ≤ pr_Seq pr) (c_pending c')
           | None => c_pending c' = []
           end;
  ad_vote : ∀ hs, vote_link s (self c) hs → vote_link s' (self c) (default hs (out_PersistRequest out ≫= pr_HardState))
}.

(** The disk failed on the request: the node stops, but what it sent is
    true and what it wrote is a state the protocol allows. *)
Definition survivable (s : sys) (c : Core) (out : Output) : Prop :=
  ∀ pr hs es es', out_PersistRequest out = Some pr → disk s (self c) hs es → partial pr es es' →
  ∃ s', moves (self c) s s' ∧ Forall (fact C s') (out_Messages out) ∧ Forall (final C s') (out_CommittedEntries out) ∧ disk s' (self c) hs es'.

Definition protocol_step (s : sys) (c c' : Core) (out : Output) : Prop :=
  (∃ s', advances s c c' out s') ∧ survivable s c out.

Lemma survivable_none s c out : out_PersistRequest out = None → survivable s c out.
Proof. intros H pr hs es es' Hp. congruence. Qed.

(** Steps that touch neither the disk nor the history. *)
Lemma protocol_same s c c' out :
  inv C s → self c' = self c → ok C s c' out → out_PersistRequest out = None → c_pending c' = [] → protocol_step s c c' out.
Proof.
  intros Hi Hs Ho Hp Hq. split; [|by apply survivable_none]. exists s. constructor; [by apply moves_refl|done|done|by rewrite Hp|].
  intros hs H. by rewrite Hp.
Qed.

Lemma ok_none s c : tracks C s c → ok C s c no_output.
Proof. by constructor. Qed.

(** Only the hard state was to be written. *)
Lemma protocol_hard_state s c c' out s' seq h :
  inv C s → advances s c c' out s' → out_PersistRequest out = Some (mkPersistRequest seq (Some h) 0 []) →
  Forall (fact C s) (out_Messages out) → out_CommittedEntries out = [] → protocol_step s c c' out.
Proof.
  intros Hi Ha Hp Hm Hc. split; [by exists s'|]. intros pr hs es es' Hp' Hd. rewrite Hp in Hp'. injection Hp' as <-.
  intros [->|[H _]]; [|done]. exists s. rewrite Hc. split; [by apply moves_refl|done].
Qed.

(** ** Elections *)

Lemma rooted_numbered s T L : inv C s → rooted s T L → numbered L.
Proof.
  intros Hi H k e Hk. destruct (H k e Hk) as (_ & h & [j Hh] & E). destruct (i_led _ _ Hi _ _ _ Hh) as (_ & _ & Hn & _).
  apply Hn. rewrite <- (lookup_take_lt h (S k)), E, lookup_take_lt by lia. done.
Qed.

Lemma tracks_campaign s c :
  inv C s → tracks C s c → c_currentTerm c < s_cap s < 2 ^ 63 →
  tracks C (campaign s (self c)) (become_candidate (c <| c_heardFromLeader := false |>)).
Proof.
  intros Hi Ht Hb. rewrite (tk_term C s c Ht) in Hb.
  pose proof (campaign_moves s (self c) Hi (tk_self _ _ _ Ht) (proj1 Hb)) as [Hev _ _ _]. rewrite <- (tk_term C s c Ht) in Hb.
  pose proof (i_term _ _ Hi (self c)) as Hp. rewrite <- (tk_term C s c Ht) in Hp.
  assert (Hu : (c_currentTerm c + 1)%u64 = s_term s (self c) + 1).
  { rewrite u64_small by (unfold is_u64; lia). by rewrite (tk_term C s c Ht). }
  destruct Ht. constructor; try done; unfold become_candidate; cbn; fold (self c); rewrite ?Hu.
  - by rewrite insert_fn_eq.
  - right. split; [intros E; apply Hnv; rewrite <- E; exact tk_self|]. by rewrite lookup_insert_eq.
  - intros _. rewrite insert_fn_eq. split; [done|]. split; [lia|]. intros vs x [= <-] Hx. apply elem_of_dom in Hx as [b Hx].
    apply lookup_singleton_Some in Hx as [<- _]. by rewrite lookup_insert_eq.
  - split; [apply tk_commit|]. eapply decided_evolves; [exact Hev| |apply tk_commit]. rewrite tk_term. lia.
Qed.

Lemma request_votes_msgs (F : Message → Prop) c out :
  Forall F (out_Messages out) →
  (∀ to, to ≠ self c → to ∈ voter_ids (c_activeConfig c) → F ((message MsgRequestVoteRequest (self c) to (c_currentTerm c))
          <| m_LastLogIndex := lastIndex c |> <| m_LastLogTerm := lastTerm c |>)) →
  Forall F (out_Messages (request_votes c out)).
Proof.
  intros H HF. unfold request_votes, voter_ids in *. assert (Hsub : Voters (c_activeConfig c) ⊆ Voters (c_activeConfig c)) by done.
  revert Hsub. generalize (Voters (c_activeConfig c)) at 1 3. intros ms Hsub. revert out H.
  induction ms as [|m ms IH]; intros out H; [done|]. cbn [foldl]. apply IH.
  - intros x Hx. apply Hsub. by right.
  - case_bool_decide; [done|]. cbn. apply Forall_app. split; [done|]. apply Forall_singleton. apply HF; [done|].
    apply elem_of_ids. exists m. split; [|done]. apply Hsub. by left.
Qed.

(** A new leader has everything acknowledged up to its last entry: nothing
    of its term is there yet. *)
Lemma new_leader_acked s i v m :
  inv C s → s_led s !! s_term s i = None → (m ≤ length (s_log s i))%nat → acked (win s i) v (s_term s i) m.
Proof.
  intros Hi Hl Hm. exists (s_log s i). split; [exists i; apply lookup_insert_eq|]. split; [done|].
  intros k _ (e & He & Het)%has_lookup. destruct (i_log _ _ Hi i _ _ He) as (_ & h & [j Hh] & _). rewrite Het in Hh. congruence.
Qed.

Lemma tracks_win s c nx mt last :
  inv C s → tracks C s c → c_role c = Candidate → s_led s !! s_term s (self c) = None → moves (self c) s (win s (self c)) →
  (∀ v n, nx !! v = Some n → n ≤ lastIndex c + 1) → (∀ v m, mt !! v = Some m → 0 ≤ m ≤ lastIndex c) →
  tracks C (win s (self c)) (c <| c_role := Leader |> <| c_leaderID := self c |> <| c_votesReceived := None |>
           <| c_pendingConfIndex := last |> <| c_nextIndex := Some nx |> <| c_matchIndex := Some mt |>).
Proof.
  intros Hi Ht Hr Hl [Hev _ _ _] Hnx Hmt. pose proof (plain_lastIndex c _ (tk_snap _ _ _ Ht) (tk_log _ _ _ Ht)) as Hlast.
  pose proof (tk_term _ _ _ Ht) as Hterm. destruct Ht. constructor; try done; cbn; fold (self c).
  - intros _. rewrite insert_fn_eq. split; [done|]. split.
    + intros nx0 v n [= <-]. apply Hnx.
    + intros mt0 v m [= <-] Hv. apply Hmt in Hv. split; [lia|]. rewrite Hterm. apply new_leader_acked; [done|done|].
      rewrite Hlast in Hv. unfold zlen in Hv. lia.
  - split; [apply tk_commit|]. eapply decided_evolves; [exact Hev|done|apply tk_commit].
Qed.

Lemma init_progress_values last ms p :
  (∀ v n, p.1 !! v = Some n → n = (last + 1)%u64) → (∀ v m, p.2 !! v = Some m → m = 0) →
  (∀ v n, (init_progress last ms p).1 !! v = Some n → n = (last + 1)%u64) ∧
  (∀ v m, (init_progress last ms p).2 !! v = Some m → m = 0).
Proof.
  revert p. unfold init_progress. induction ms as [|m ms IH]; intros p H1 H2; [done|]. cbn [foldl].
  apply IH; cbn; intros v n; (destruct (decide (m_ID m = v)) as [<-|]; [rewrite lookup_insert_eq|rewrite lookup_insert_ne by done]);
    [by intros [= <-]|apply H1|by intros [= <-]|apply H2].
Qed.

Lemma broadcast_request c out c' out' : broadcast c out = Ok (c', out') →
  out_PersistRequest out' = out_PersistRequest out ∧ c_pending c' = c_pending c ∧ self c' = self c ∧ c_log c' = c_log c.
Proof.
  assert (H : ∀ skip ms c out c' out', replicate_to skip ms c out = Ok (c', out') →
    out_PersistRequest out' = out_PersistRequest out ∧ c_pending c' = c_pending c ∧ self c' = self c ∧ c_log c' = c_log c).
  { clear. intros skip ms. induction ms as [|m ms IH]; intros c out c' out'; cbn [replicate_to]; [by intros [= <- <-]|].
    case_if; [apply IH|]. intros H0. apply bind_Ok_inv in H0 as ([c1 msg] & H1 & H2). apply IH in H2 as (-> & -> & -> & ->).
    cbn. unfold appendEntriesMessage in H1. cbv zeta in H1. split; [done|]. case_match; [by injection H1 as <- _|].
    apply bind_Ok_inv in H1 as ([es nn] & _ & H1). apply bind_Ok_inv in H1 as (nx & _ & H1). by injection H1 as <- _. }
  intros Hb. apply bind_Ok_inv in Hb as ([c1 o1] & H1 & H2). apply H in H1 as (<- & <- & <- & <-). by apply H in H2.
Qed.

Lemma becomeLeader_ok s c out Q c' out' :
  inv C s → ok C s c out → c_role c = Candidate → 1 ≤ c_currentTerm c → quorum C Q →
  (∀ v, v ∈ Q → s_cast s !! (v, c_currentTerm c) = Some (self c)) → becomeLeader c out = Ok (c', out') →
  moves (self c) s (win s (self c)) ∧ ok C (win s (self c)) c' out' ∧ self c' = self c ∧ c_pending c' = c_pending c ∧
  c_log c' = c_log c ∧ out_PersistRequest out' = out_PersistRequest out.
Proof.
  intros Hi Ho Hr Hp HQ Hc. pose proof (ok_core _ _ _ _ Ho) as Ht. rewrite (tk_term _ _ _ Ht) in Hp, Hc.
  assert (Hph : s_phase s (self c) = Campaigning) by (by apply (tk_candidate _ _ _ Ht)).
  pose proof (win_unled C s Hi (self c) Q HC Hph HQ Hc) as Hl.
  assert (Hmv : moves (self c) s (win s (self c))).
  { eapply win_moves; [done|done|done| |done|done]. eapply rooted_numbered; [done|]. by apply (i_log C s). }
  unfold becomeLeader. cbv zeta.
  destruct (init_progress_values (lastIndex c) (Voters (c_activeConfig c)) (∅, ∅)) as [V1 V2]; [done|done|].
  destruct (init_progress_values (lastIndex c) (Learners (c_activeConfig c))
    (init_progress (lastIndex c) (Voters (c_activeConfig c)) (∅, ∅))) as [W1 W2]; [done|done|]. clear V1 V2.
  destruct (init_progress (lastIndex c) (Learners (c_activeConfig c)) _) as [nx mt]. cbn [fst snd] in *.
  pose proof (plain_lastIndex c _ (tk_snap _ _ _ Ht) (tk_log _ _ _ Ht)) as Hlast.
  pose proof (zlen_nonneg (s_log s (self c))) as Hz.
  assert (Ht' := tracks_win s c nx (<[self c := lastIndex c]> mt) (lastIndex c) Hi Ht Hr Hl Hmv).
  intros Hb. match type of Hb with broadcast ?c0 ?o0 = _ =>
    destruct (broadcast_request c0 o0 _ _ Hb) as (B1 & B2 & B3 & B4); apply (broadcast_ok C (win s (self c))) in Hb as [B5 _] end;
    [done|by apply Hmv| |done].
  constructor; [apply Ht'| |].
  - intros v n ->%W1. pose proof (Z.mod_le (lastIndex c + 1) (2 ^ 64)) as Hm. fold (u64 (lastIndex c + 1)) in Hm. rewrite Hlast in *. lia.
  - intros v m. destruct (decide (self c = v)) as [<-|]; [rewrite lookup_insert_eq; intros [= <-]; lia|].
    rewrite lookup_insert_ne by done. intros ->%W2. lia.
  - eapply Forall_impl; [apply Ho|]. intros m. apply fact_evolves; [done|apply Hmv].
  - eapply Forall_impl; [apply Ho|]. intros m. apply final_evolves. apply Hmv.
Qed.

Lemma sole_voter c x : Majority C ≤ 1 → self c ∈ voter_ids C → x ∈ voter_ids C → x = self c.
Proof.
  intros Hm Hs Hx. unfold Majority in Hm. assert (Hz : zlen (Voters C) < 2) by (Z.to_euclidean_division_equations; lia).
  unfold voter_ids, zlen in *. apply elem_of_ids in Hs as (m & Hm1 & <-), Hx as (m' & Hm2 & <-).
  destruct (Voters C) as [|a [|b l]]; cbn in Hz; [by apply not_elem_of_nil in Hm1| |lia].
  apply list_elem_of_singleton in Hm1 as ->, Hm2 as ->. done.
Qed.

Lemma replicate_none ms c out : (∀ m, m ∈ ms → m_ID m = self c) → replicate_to true ms c out = Ok (c, out).
Proof.
  induction ms as [|m ms IH]; intros H; [done|]. cbn [replicate_to]. rewrite bool_decide_true by (apply H; by left).
  apply IH. intros x Hx. apply H. by right.
Qed.

Lemma sole_leader_silent c out c' out' :
  c_activeConfig c = C → (∀ x, x ∈ voter_ids C → x = self c) → becomeLeader c out = Ok (c', out') →
  out_Messages out' = out_Messages out ∧ out_CommittedEntries out' = out_CommittedEntries out.
Proof.
  intros Ha Hs. unfold becomeLeader. cbv zeta. destruct (init_progress _ _ _) as [nx mt]. unfold broadcast. cbv zeta.
  match goal with |- context [replicate_to true (Voters ?a) ?c0 ?o0] => change a with (c_activeConfig c); rewrite (replicate_none (Voters (c_activeConfig c)) c0 o0) end.
  - cbn [mbind result_bind]. match goal with |- replicate_to false (Learners ?a) ?c0 ?o0 = _ → _ => change a with (c_activeConfig c) end.
    rewrite Ha, HL. by intros [= _ <-].
  - intros m Hm. apply Hs. rewrite Ha in Hm. apply elem_of_ids. by exists m.
Qed.

Lemma election_timeout_step intn s c c' out :
  inv C s → tracks C s c → c_pending c = [] → c_currentTerm c < s_cap s < 2 ^ 63 → handleElectionTimeout intn c = Ok (c', out) →
  protocol_step s c c' out.
Proof.
  intros Hi Ht Hp Hb. unfold handleElectionTimeout. case_bool_decide as Hr.
  { intros [= <- <-]. apply protocol_same; [done|done|by apply ok_none|done|done]. }
  cbv zeta. change (c_activeConfig (c <| c_heardFromLeader := false |>)) with (c_activeConfig c).
  change (self (c <| c_heardFromLeader := false |>)) with (self c).
  rewrite (tk_active _ _ _ Ht), (proj2 (has_member_ids (Voters C) (self c)) (tk_self _ _ _ Ht) : IsVoter C (self c) = true). cbn [negb].
  pose proof (tracks_campaign s c Hi Ht Hb) as Ht0. pose proof (i_term _ _ Hi (self c)) as Hpos.
  rewrite (tk_term _ _ _ Ht) in Hb. pose proof (campaign_moves s (self c) Hi (tk_self _ _ _ Ht) (proj1 Hb)) as Hmv. set (s1 := campaign s (self c)) in *.
  set (c0 := become_candidate (c <| c_heardFromLeader := false |>)) in *.
  assert (F0 : self c0 = self c ∧ c_log c0 = c_log c ∧ c_role c0 = Candidate ∧ c_votedFor c0 = self c ∧
    c_votesReceived c0 = Some {[ self c := true ]} ∧ c_pending c0 = c_pending c) by done. clearbody c0.
  destruct F0 as (F1 & F2 & F3 & F4 & F5 & F6).
  assert (Hterm0 : c_currentTerm c0 = s_term s (self c) + 1).
  { rewrite (tk_term _ _ _ Ht0), F1. unfold s1. cbn. by rewrite insert_fn_eq. }
  unfold persist_hard_state. cbn [nextPersistSeq]. set (c1 := c0 <| c_persistSeq := _ |>).
  assert (Hq : quiet c0 c1) by (constructor; [by constructor|done..]).
  pose proof (tracks_quiet C s1 c0 c1 Hq Ht0) as Ht1.
  assert (G : self c1 = self c ∧ c_log c1 = c_log c ∧ c_role c1 = Candidate ∧ c_votesReceived c1 = Some {[ self c := true ]} ∧
    c_pending c1 = [] ∧ c_currentTerm c1 = s_term s (self c) + 1 ∧ c_votedFor c1 = self c ∧ c_activeConfig c1 = C ∧
    lastIndex c1 = lastIndex c ∧ lastTerm c1 = lastTerm c).
  { split; [done|]. split; [done|]. split; [done|]. split; [done|]. split; [by rewrite <- Hp|]. split; [done|]. split; [done|].
    split; [apply Ht1|]. unfold lastIndex, lastTerm. rewrite (tk_snap _ _ _ Ht1), (tk_snap _ _ _ Ht).
    assert (c_log c1 = c_log c) as -> by exact F2. done. }
  set (o1 := reset_election_timer c1 intn _).
  assert (Ho1 : out_Messages o1 = [] ∧ out_CommittedEntries o1 = [] ∧
    out_PersistRequest o1 = Some (mkPersistRequest (c_persistSeq c0 + 1)%u64 (Some (hard_state c1)) 0 [])) by done.
  clearbody o1 c1. destruct G as (G1 & G2 & G3 & G4 & G5 & G6 & G7 & G8 & G9 & G10), Ho1 as (O1 & O2 & O3).
  destruct (request_votes_flags c1 o1) as (R1 & _ & R3).
  assert (Hfacts : ∀ s0, inv C s0 → evolves s s0 → s_log s0 (self c) = s_log s (self c) → Forall (fact C s0) (out_Messages (request_votes c1 o1))).
  { intros s0 Hi0 Hev0 Hl0. apply request_votes_msgs; [by rewrite O1|]. intros to _ _. rewrite G1, G6, G9, G10.
    split; [cbn; pose proof (ev_cap _ _ Hev0); lia|]. cbn. rewrite (plain_lastIndex c _ (tk_snap _ _ _ Ht) (tk_log _ _ _ Ht)), (plain_lastTerm c _ (tk_log _ _ _ Ht)).
    unfold zlen. split; [lia|]. rewrite Nat2Z.id, <- Hl0. apply (claim_now C s0 Hi0). }
  assert (Hsilent : Majority C ≤ 1 → out_Messages (request_votes c1 o1) = []).
  { intros Hm. assert (Forall (λ _, False) (out_Messages (request_votes c1 o1))) as H.
    - apply request_votes_msgs; [by rewrite O1|]. intros to H1 H2. apply H1. rewrite G1.
      apply (sole_voter c); [done|apply Ht|by rewrite <- G8].
    - destruct (out_Messages (request_votes c1 o1)) as [|m ms]; [done|]. by apply Forall_cons in H as [H _]. }
  set (o2 := request_votes c1 o1) in *. clearbody o2. rewrite O3 in R1. rewrite O2 in R3.
  assert (Hok1 : ok C s1 c1 o2).
  { constructor; [done| |by rewrite R3]. apply Hfacts; [apply Hmv|apply Hmv|done]. }
  assert (Hvote1 : ∀ hs, vote_link s (self c) hs → vote_link s1 (self c) (hard_state c1)).
  { intros _ _. unfold vote_link, hard_state. cbn. rewrite insert_fn_eq, G6, G7. split; [done|]. right.
    split; [|by rewrite lookup_insert_eq]. intros E. apply Hnv. rewrite <- E. apply Ht. }
  destruct (Z.leb_spec (Majority (c_activeConfig c1)) (votes_count c1)) as [Hmaj|_].
  - assert (Hm1 : Majority C ≤ 1).
    { unfold votes_count in Hmaj. rewrite G4, G8 in Hmaj. rewrite map_size_singleton in Hmaj. done. }
    intros Hlead. destruct (sole_leader_silent c1 o2 c' out) as [S1 S2]; [done| |done|].
    { intros x Hx. rewrite G1. apply (sole_voter c); [done|apply Ht|done]. }
    destruct (becomeLeader_ok s1 c1 o2 {[ self c ]} c' out) as (M1 & M2 & M3 & M4 & M5 & M6); [apply Hmv|done|done|lia| | |done|].
    + split; [apply singleton_subseteq_l, Ht|]. by rewrite size_singleton.
    + intros v ->%elem_of_singleton. rewrite G6, G1. unfold s1. cbn. by rewrite lookup_insert_eq.
    + eapply (protocol_hard_state s c c' out (win s1 (self c))); [done| |by rewrite M6, R1| |by rewrite S2, R3].
      * rewrite G1 in M1. constructor; [by eapply moves_trans|congruence|by rewrite <- G1|rewrite M6, R1, M4, G5; constructor|].
        intros hs Hhs. rewrite M6, R1. cbn. exact (Hvote1 hs Hhs).
      * rewrite S1, Hsilent by done. constructor.
  - intros [= <- <-]. eapply (protocol_hard_state s c c1 o2 s1); [done| |done| |done].
    + constructor; [done|done|done|rewrite R1, G5; constructor|]. intros hs Hhs. rewrite R1. by eapply Hvote1.
    + apply Hfacts; [done|apply history_refl|done].
Qed.

(** ** Newer terms *)

(** A node that becomes a follower in a term. *)
Lemma tracks_observe s c c' T :
  inv C s → tracks C s c → s_term s (self c) ≤ T → same_log c c' → c_currentTerm c' = T → c_role c' = Follower →
  (c_votedFor c' = noVote ∧ (s_cast s !! (self c, T) = None ∨ c_heardFromLeader c' = true) ∨
   c_votedFor c' ≠ noVote ∧ s_cast s !! (self c, T) = Some (c_votedFor c')) →
  tracks C (observe s (self c) T) c'.
Proof.
  intros Hi Ht Hle Hs HT Hr Hv. pose proof (observe_evolves s (self c) T Hle) as Hev.
  assert (Hself : self c' = self c) by (unfold self; by rewrite (sl_cfg _ _ Hs)).
  pose proof (tk_commit _ _ _ Ht) as [Hc1 Hc2]. destruct Ht, Hs.
  constructor; rewrite ?Hself, ?HT, ?Hr; cbn [observe s_log s_term s_phase s_cast]; try done; try congruence.
  - by rewrite insert_fn_eq.
  - intros _. by rewrite insert_fn_eq.
  - rewrite sl_commit. split; [done|]. eapply decided_evolves; [exact Hev| |exact Hc2]. by rewrite tk_term.
Qed.

Lemma uncast_above s i T : inv C s → s_term s i < T → s_cast s !! (i, T) = None.
Proof. intros Hi Hlt. apply eq_None_not_Some. intros [j H]. apply (i_cast _ _ Hi) in H as [H _]. lia. Qed.

(** The hard state of a node that just moved to a term without voting. *)
Lemma observe_vote_link s i T : inv C s → s_term s i < T → vote_link (observe s i T) i (mkHardState T noVote).
Proof. intros Hi Hlt. unfold vote_link. cbn. rewrite insert_fn_eq. split; [done|]. left. split; [done|]. by apply uncast_above. Qed.

Lemma newer_term_step intn s c T c' out :
  inv C s → tracks C s c → c_pending c = [] → c_currentTerm c < T ≤ s_cap s → newer_term_response intn c T no_output = (c', out) →
  protocol_step s c c' out.
Proof.
  intros Hi Ht Hp Hlt. unfold newer_term_response. cbn [stepDownTo]. set (o1 := if _ || _ then _ else no_output).
  assert (O : out_Messages o1 = [] ∧ out_CommittedEntries o1 = []) by (unfold o1; by case_match). clearbody o1. destruct O as [O1 O2].
  unfold persist_hard_state. cbn [nextPersistSeq]. set (c1 := _ <| c_persistSeq := _ |>).
  assert (F : same_log c c1 ∧ c_currentTerm c1 = T ∧ c_role c1 = Follower ∧ c_votedFor c1 = noVote ∧ c_pending c1 = c_pending c)
    by (split; [by constructor|done]).
  clearbody c1. destruct F as (F1 & F2 & F3 & F4 & F5). intros [= <- <-].
  rewrite (tk_term _ _ _ Ht) in Hlt. pose proof (uncast_above _ _ _ Hi (proj1 Hlt)) as Hnone.
  eapply (protocol_hard_state s c c1 _ (observe s (self c) T)); [done| |done|cbn; rewrite O1; constructor|done].
  constructor.
  - apply observe_moves; [done|lia].
  - unfold self. by rewrite (sl_cfg _ _ F1).
  - constructor; [|cbn; rewrite O1; constructor|cbn; rewrite O2; constructor]. apply tracks_observe; [done|done|lia|done|done|done|].
    left. split; [done|by left].
  - cbn. rewrite F5, Hp. constructor.
  - intros hs _. cbn. unfold hard_state. rewrite F2, F4. apply observe_vote_link; [done|lia].
Qed.

Lemma heartbeat_step s c c' out :
  inv C s → tracks C s c → c_pending c = [] → handleHeartbeatTimeout c = Ok (c', out) → protocol_step s c c' out.
Proof.
  intros Hi Ht Hp. unfold handleHeartbeatTimeout. case_bool_decide as Hr; cbn [negb].
  2: { intros [= <- <-]. apply protocol_same; [done|done|by apply ok_none|done|done]. }
  intros H. destruct (broadcast_request _ _ _ _ H) as (B1 & B2 & B3 & _). apply (broadcast_ok C s) in H as [H _]; [|done|by constructor|done].
  apply protocol_same; [done|done|done|done|congruence].
Qed.

(** ** Vote requests *)

Lemma up_to_date_spec s c li lt :
  tracks C s c → 0 ≤ li → isLogUpToDate c li lt = true → up_to_date (s_log s (self c)) (Z.to_nat li) lt.
Proof.
  intros Ht Hli. unfold isLogUpToDate, up_to_date. cbv zeta.
  rewrite (plain_lastIndex c _ (tk_snap _ _ _ Ht) (tk_log _ _ _ Ht)), (plain_lastTerm c _ (tk_log _ _ _ Ht)).
  destruct (Z.eqb_spec lt (last_term (s_log s (self c)))) as [->|]; cbn [negb]; intros H; bool_to_prop; [|by left].
  right. split; [done|]. unfold zlen in H. lia.
Qed.

(** The state after [step_down_if] in the vote handler. *)
Lemma tracks_vote s c1 c2 j :
  inv C s → tracks C s c1 → quiet (c1 <| c_votedFor := j |>) c2 → j ≠ noVote → moves (self c1) s (vote s (self c1) j (c_currentTerm c1)) →
  tracks C (vote s (self c1) j (c_currentTerm c1)) c2.
Proof.
  intros Hi Ht Hq Hj [Hev _ _ _]. eapply tracks_quiet; [exact Hq|]. pose proof (tk_term _ _ _ Ht) as Hterm.
  destruct Ht. constructor; try done; cbn; fold (self c1).
  - by rewrite insert_fn_eq.
  - right. by rewrite lookup_insert_eq.
  - intros Hr. rewrite decide_True by done. destruct (tk_candidate Hr) as (A1 & A0 & A2). split; [done|]. split; [done|]. intros vs x Hvs Hx.
    apply (ev_cast _ _ Hev). by eapply A2.
  - intros Hr. rewrite decide_True by done. destruct (tk_leader Hr) as (A1 & A2 & A3). split; [done|]. split; [done|].
    intros mt v m Hm Hv. destruct (A3 _ _ _ Hm Hv) as [B1 B2]. split; [done|]. by eapply acked_evolves.
  - intros Hr. rewrite decide_True by done. by apply tk_follower.
Qed.

Lemma refusal_fact s c to : c_currentTerm c ≤ s_cap s → fact C s (vote_reply c to false).
Proof. done. Qed.

(** The opening of the vote handler: a newer term makes the node a follower. *)
Lemma step_down_if_step s c T newer :
  inv C s → tracks C s c → newer = (c_currentTerm c <? T) → c_currentTerm c ≤ T ≤ s_cap s →
  let r := step_down_if newer c T no_output in let s1 := if newer then observe s (self c) T else s in
  moves (self c) s s1 ∧ tracks C s1 r.1 ∧ self r.1 = self c ∧ c_currentTerm r.1 = T ∧ c_log r.1 = c_log c ∧ c_pending r.1 = c_pending c ∧
  (newer = true → c_votedFor r.1 = noVote) ∧ (newer = false → r = (c, no_output)) ∧
  out_Messages r.2 = [] ∧ out_CommittedEntries r.2 = [] ∧ out_PersistRequest r.2 = None.
Proof.
  intros Hi Ht En Hle. cbv zeta. pose proof (tk_term _ _ _ Ht) as Hterm. unfold step_down_if.
  destruct newer; symmetry in En; bool_to_prop.
  - cbn [stepDownTo fst snd]. split; [apply observe_moves; [done|lia]|]. split.
    { apply tracks_observe; [done|done|lia|by constructor|done|done|]. left. split; [done|]. left. apply uncast_above; [done|lia]. }
    do 6 (split; [done|]). by case_match.
  - split; [by apply moves_refl|]. split; [done|]. split; [done|]. split; [cbn; lia|]. done.
Qed.

Lemma grant_step intn s s1 c c1 o1 msg c' out :
  inv C s → tracks C s c → moves (self c) s s1 → tracks C s1 c1 → self c1 = self c → c_log c1 = c_log c → c_pending c1 = [] →
  out_Messages o1 = [] → out_CommittedEntries o1 = [] → c_currentTerm c1 = m_Term msg → m_From msg ≠ noVote →
  (s_cast s1 !! (self c, m_Term msg) = None ∨ s_cast s1 !! (self c, m_Term msg) = Some (m_From msg)) →
  0 ≤ m_LastLogIndex msg → claim s (m_From msg) (Z.to_nat (m_LastLogIndex msg)) (m_LastLogTerm msg) →
  isLogUpToDate c1 (m_LastLogIndex msg) (m_LastLogTerm msg) = true → grant_vote intn c1 msg o1 = (c', out) → protocol_step s c c' out.
Proof.
  intros Hi Ht Hm1 Ht1 Hs1 Hl1 Hp1 O1 O2 HT Hne Hfree Hli Hcl Hup.
  assert (Hmv : moves (self c) s1 (vote s1 (self c) (m_From msg) (m_Term msg))).
  { apply (vote_moves s1 (self c) (m_From msg) (m_Term msg) (Z.to_nat (m_LastLogIndex msg)) (m_LastLogTerm msg)); [apply Hm1|apply Ht| |done| |].
    - rewrite <- Hs1, <- (tk_term _ _ _ Ht1), HT. split; [lia|]. rewrite <- HT. eapply (tracks_low C s1); [apply Hm1|done].
    - eapply claim_evolves; [apply Hm1|done].
    - rewrite <- Hs1. by apply up_to_date_spec. }
  unfold grant_vote. cbn [nextPersistSeq]. set (c2 := _ <| c_pending := _ |>).
  assert (Hq : quiet (c1 <| c_votedFor := m_From msg |>) c2) by (constructor; [by constructor|done..]).
  assert (Ht2 : tracks C (vote s1 (self c) (m_From msg) (m_Term msg)) c2).
  { rewrite <- Hs1, <- HT. eapply tracks_vote; [apply Hm1|done|done|done|]. by rewrite Hs1, HT. }
  assert (F : self c2 = self c1 ∧ c_log c2 = c_log c1 ∧
    hard_state c2 = mkHardState (c_currentTerm c1) (m_From msg) ∧
    c_pending c2 = c_pending c1 ++ [mkPending pendingVoteGrant (c_persistSeq c1 + 1)%u64 (c_currentTerm c1) (m_From msg) [] 0 0]) by done.
  clearbody c2. destruct F as (F1 & F2 & F3 & F4). intros [= <- <-].
  eapply (protocol_hard_state s c c2 _ (vote s1 (self c) (m_From msg) (m_Term msg))); [done| |done|cbn; rewrite O1; constructor|done].
  constructor.
  - by eapply moves_trans.
  - congruence.
  - constructor; [done|cbn; rewrite O1; constructor|cbn; rewrite O2; constructor].
  - cbn. rewrite F4, Hp1. apply Forall_singleton. done.
  - intros hs _. cbn. unfold vote_link. cbn. rewrite insert_fn_eq, HT. split; [done|]. right. by rewrite lookup_insert_eq.
Qed.

Lemma vote_request_step intn s c msg c' out :
  inv C s → tracks C s c → c_pending c = [] → m_Type msg = MsgRequestVoteRequest → fact C s msg →
  handleRequestVoteRequest intn c msg = (c', out) → protocol_step s c c' out.
Proof.
  intros Hi Ht Hp HT [Hcap Hf]. unfold says in Hf. rewrite HT in Hf. destruct Hf as [Hli Hcl]. pose proof (tracks_low C s Hi c Ht) as Hlow.
  unfold handleRequestVoteRequest. cbv zeta.
  destruct (IsVoter (c_activeConfig c) (m_From msg)) eqn:Hvoter; cbn [negb].
  2: { intros [= <- <-]. apply protocol_same; [done|done|by apply ok_none|done|done]. }
  destruct (c_heardFromLeader c) eqn:Hheard.
  { intros [= <- <-]. apply protocol_same; [done|done|by apply ok_none|done|done]. }
  destruct (Z.ltb_spec (m_Term msg) (c_currentTerm c)) as [|Hle].
  { intros [= <- <-]. apply protocol_same; [done|done| |done|done]. apply ok_send; [by apply refusal_fact|by apply ok_none]. }
  set (newer := c_currentTerm c <? m_Term msg).
  destruct (step_down_if_step s c (m_Term msg) newer Hi Ht eq_refl (conj Hle Hcap)) as (A1 & A2 & A3 & A4 & A5 & A6 & A7 & A8 & A9 & A10 & A11).
  destruct (step_down_if newer c (m_Term msg) no_output) as [c1 o1]. cbn [fst snd] in *.
  set (s1 := if newer then observe s (self c) (m_Term msg) else s) in *.
  assert (Hcast : s_cast s1 = s_cast s) by (unfold s1; by destruct newer).
  pose proof (tk_term _ _ _ Ht) as Hterm. rewrite (tk_active _ _ _ Ht) in Hvoter. apply has_member_ids in Hvoter.
  destruct (can_vote c1 msg) eqn:Hcan.
  - unfold can_vote in Hcan. bool_to_prop. apply (grant_step intn s s1 c c1 o1 msg); try done; [congruence| |].
    { intros E. apply Hnv. by rewrite <- E. }
    rewrite Hcast. destruct newer eqn:En; unfold newer in En; bool_to_prop; [left; apply uncast_above; [done|lia]|].
    injection (A8 eq_refl) as -> _. assert (E : m_Term msg = c_currentTerm c) by lia. rewrite E.
    destruct (tk_vote _ _ _ Ht) as [[V1 [V2|V2]]|[V1 V2]]; [by left|congruence|right].
    rewrite V2. f_equal. match goal with H : _ || _ = true |- _ => apply orb_true_iff in H as [H|H]; bool_to_prop; congruence end.
  - unfold refuse_vote. destruct newer eqn:En; unfold newer in En; bool_to_prop.
    + unfold persist_hard_state. cbn [nextPersistSeq]. set (c2 := c1 <| c_persistSeq := _ |>).
      assert (Hq : quiet c1 c2) by (constructor; [by constructor|done..]).
      assert (F : self c2 = self c1 ∧ c_log c2 = c_log c1 ∧ hard_state c2 = hard_state c1 ∧ c_pending c2 = c_pending c1) by done.
      set (o2 := if out_SteppedDown _ then _ else _).
      assert (O : out_Messages o2 = [vote_reply c1 (m_From msg) false] ∧ out_CommittedEntries o2 = [] ∧
        out_PersistRequest o2 = Some (mkPersistRequest (c_persistSeq c1 + 1)%u64 (Some (hard_state c2)) 0 [])).
      { unfold o2. case_match; cbn; by rewrite A9. }
      clearbody c2 o2. destruct F as (F1 & F2 & F3 & F4), O as (O1 & O2 & O3). intros [= <- <-].
      eapply (protocol_hard_state s c c2 o2 s1); [done| |done| |done].
      * constructor; [done|congruence| |rewrite O3, F4, A6, Hp; constructor|].
        -- constructor; [by eapply tracks_quiet|rewrite O1; apply Forall_singleton, refusal_fact; rewrite A4, (mv_cap _ _ _ A1); done|rewrite O2; constructor].
        -- intros hs _. rewrite O3. cbn. rewrite F3. unfold hard_state. rewrite A4, A7 by done. apply observe_vote_link; [done|lia].
      * rewrite O1. apply Forall_singleton, refusal_fact. by rewrite A4.
    + injection (A8 eq_refl) as -> ->. intros [= <- <-]. apply protocol_same; [done|done| |done|done].
      apply ok_send; [by apply refusal_fact|by apply ok_none].
Qed.

(** ** Votes *)

Lemma vote_response_step intn s c msg c' out :
  inv C s → tracks C s c → c_pending c = [] → m_Type msg = MsgRequestVoteResponse → m_To msg = self c → fact C s msg →
  handleRequestVoteResponse intn c msg = Ok (c', out) → protocol_step s c c' out.
Proof.
  intros Hi Ht Hp HT Hto [Hcap Hf]. unfold says in Hf. rewrite HT in Hf. unfold handleRequestVoteResponse. cbv zeta.
  destruct (Z.ltb_spec (c_currentTerm c) (m_Term msg)) as [Hlt|Hle].
  { intros H%Ok_inj. by eapply newer_term_step. }
  destruct (_ || _) eqn:E; [intros [= <- <-]; apply protocol_same; [done|done|by apply ok_none|done|done]|].
  assert (Hr : c_role c = Candidate ∧ m_Term msg = c_currentTerm c ∧ m_VoteGranted msg = true).
  { apply orb_false_iff in E as [E1 E3]. apply orb_false_iff in E1 as [E1 E2]. apply negb_false_iff in E1, E2, E3. by bool_to_prop. }
  destruct Hr as (Hr & Heq & Hg). intros H. apply bind_Ok_inv in H as (votes & Hv & H).
  assert (Hself : self c ≠ noVote) by (intros E'; apply Hnv; rewrite <- E'; apply Ht).
  rewrite Hto, Heq in Hf. specialize (Hf Hg Hself). unfold map_write in Hv.
  destruct (c_votesReceived c) as [w|] eqn:Ew; [|done]. apply Ok_inj in Hv. subst votes.
  set (c1 := c <| c_votesReceived := Some (<[m_From msg := true]> w) |>) in H.
  assert (Hdom : ∀ x, x ∈ dom (<[m_From msg := true]> w) → s_cast s !! (x, c_currentTerm c) = Some (self c)).
  { intros x. rewrite dom_insert_L. intros [->%elem_of_singleton|Hx]%elem_of_union; [done|].
    destruct (tk_candidate _ _ _ Ht Hr) as (_ & _ & A2). by eapply A2. }
  assert (Ht1 : tracks C s c1).
  { destruct (tk_candidate _ _ _ Ht Hr) as (A1 & A0 & _). destruct Ht. constructor; try done. cbn. intros _. split; [done|]. split; [done|].
    intros vs x [= <-]. apply Hdom. }
  assert (F : self c1 = self c ∧ c_log c1 = c_log c ∧ c_role c1 = c_role c ∧ c_currentTerm c1 = c_currentTerm c ∧ c_pending c1 = c_pending c ∧
    c_votesReceived c1 = Some (<[m_From msg := true]> w) ∧ c_activeConfig c1 = c_activeConfig c) by done.
  clearbody c1. destruct F as (F1 & F2 & F3 & F4 & F5 & F6 & F7). revert H.
  destruct (Z.leb_spec (Majority (c_activeConfig c1)) (votes_count c1)) as [Hmaj|].
  2: { intros [= <- <-]. apply protocol_same; [done|done|by apply ok_none|done|congruence]. }
  intros Hlead. unfold votes_count in Hmaj. rewrite F6, F7, (tk_active _ _ _ Ht) in Hmaj.
  assert (Hpos : 1 ≤ c_currentTerm c1).
  { rewrite F4. by apply (tk_candidate _ _ _ Ht). }
  destruct (becomeLeader_ok s c1 no_output (dom (<[m_From msg := true]> w)) c' out) as (M1 & M2 & M3 & M4 & M5 & M6);
    [done|by apply ok_none|congruence|done| | |done|].
  - split; [|by rewrite size_dom]. intros x Hx. apply Hdom in Hx. by apply (i_cast _ _ Hi) in Hx as (_ & Hx & _).
  - intros x Hx. rewrite F4, F1. by apply Hdom.
  - rewrite F1 in *. split; [|by apply survivable_none]. exists (win s (self c)).
    constructor; [done|done|done|rewrite M6; cbn; congruence|]. intros hs Hhs. rewrite M6. exact Hhs.
Qed.

(** ** Responses of followers *)

Lemma calm_none c c' out : calm c no_output c' out → self c' = self c ∧ out_PersistRequest out = None.
Proof. intros [_ _ _ _ Hc Hr]. split; [unfold self; by rewrite Hc|by rewrite Hr]. Qed.

Lemma acknowledged_step s c from m c' out :
  inv C s → tracks C s c → c_pending c = [] → c_role c = Leader → 0 ≤ m → acked s from (c_currentTerm c) (Z.to_nat m) →
  (c1 ← note_match c from m; '(c2, out) ← advanceLeaderCommit c1 no_output; continue_replication c2 from out) = Ok (c', out) →
  protocol_step s c c' out.
Proof.
  intros Hi Ht Hp Hr Hm Ha H. apply bind_Ok_inv in H as (c1 & H1 & H). apply bind_Ok_inv in H as ([c2 o2] & H2 & H3).
  pose proof (note_match_calm _ _ _ _ H1 no_output) as K1. pose proof (advanceLeaderCommit_calm _ _ _ _ H2) as K2.
  pose proof (continue_replication_calm _ _ _ _ _ H3) as K3.
  destruct (calm_none c c' out) as [Hs Hq]; [eapply calm_trans; [done|by eapply calm_trans]|].
  destruct (note_match_ok C s Hi c from m c1) as (A1 & A2 & A3); [done..|].
  destruct (advance_loop_ok C HC s Hi _ c1 _ no_output c2 o2 (ok_none _ _ A1) A2 (Z.le_refl _) H2) as (B1 & B2 & B3 & _).
  destruct (continue_replication_ok C s Hi c2 from o2 c' out) as [D1 D2]; [done..|].
  apply protocol_same; [done|done|done|done|congruence].
Qed.

Lemma append_response_step intn s c msg c' out :
  inv C s → tracks C s c → c_pending c = [] → m_Type msg = MsgAppendEntriesResponse → fact C s msg →
  handleAppendEntriesResponse intn c msg = Ok (c', out) → protocol_step s c c' out.
Proof.
  intros Hi Ht Hp HT [Hcap Hf]. unfold says in Hf. rewrite HT in Hf. unfold handleAppendEntriesResponse. cbv zeta.
  destruct (Z.ltb_spec (c_currentTerm c) (m_Term msg)) as [Hlt|Hle].
  { intros H%Ok_inj. by eapply newer_term_step. }
  destruct (_ || _) eqn:E; [intros [= <- <-]; apply protocol_same; [done|done|by apply ok_none|done|done]|].
  apply orb_false_iff in E as [E1 E2]. apply negb_false_iff in E1, E2. bool_to_prop.
  destruct (m_Success msg) eqn:Hsucc.
  { destruct (Hf eq_refl) as [Hm Ha]. apply acknowledged_step; [done..|]. by rewrite <- E2. }
  set (next := if _ <? 1 then 1 else _). clearbody next. intros H. apply bind_Ok_inv in H as (nx & Hnx & H).
  assert (Ht1 : tracks C s (c <| c_nextIndex := nx |>)).
  { destruct (tk_leader _ _ _ Ht E1) as (A1 & A2 & A3). destruct Ht. constructor; try done. cbn. intros _. split; [done|]. split; [|done].
    intros nx0 v n -> Hv. destruct (Z.ltb_spec next (map_read 0 (c_nextIndex c) (m_From msg))) as [Hlt|]; [|apply Ok_inj in Hnx; by eapply A2].
    unfold map_read, map_write in *. destruct (c_nextIndex c) as [nx1|]; [|done]. apply Ok_inj in Hnx. injection Hnx as <-.
    destruct (decide (m_From msg = v)) as [<-|]; [|rewrite lookup_insert_ne in Hv by done; by eapply A2].
    rewrite lookup_insert_eq in Hv. injection Hv as <-. change (next ≤ lastIndex c + 1).
    destruct (nx1 !! m_From msg) as [y|] eqn:Ey; cbn [default from_option id] in Hlt.
    - pose proof (A2 _ _ _ eq_refl Ey). lia.
    - rewrite (plain_lastIndex c _ tk_snap tk_log). pose proof (zlen_nonneg (s_log s (self c))). lia. }
  revert H. destruct (IsMember _ (m_From msg)); [|intros [= <- <-]; apply protocol_same; [done|done|by apply ok_none|done|done]].
  intros H'. apply bind_Ok_inv in H' as ([c2 m] & H1 & H2). injection H2 as <- <-.
  pose proof (appendEntriesMessage_calm _ _ _ _ H1) as K.
  apply (appendEntriesMessage_ok C s Hi) in H1 as (A1 & A2 & A3 & A4); [|done|done].
  apply protocol_same; [done| |by apply ok_send, ok_none|done|rewrite A4; exact Hp].
  unfold self. destruct (K no_output) as [_ _ _ _ K5 _]. by rewrite K5.
Qed.

(** ** Proposals *)

Lemma tracks_append s c e mt :
  inv C s → tracks C s c → c_role c = Leader → lastIndex c < s_cap s → e = leader_entry c EntryNormal (e_Data e) →
  (∀ m0, c_matchIndex c = Some m0 → mt = <[self c := e_Index e]> m0) → is_Some (c_matchIndex c) →
  let s' := hold (append s (self c) e true) (self c) (S (length (s_log s (self c)))) in
  moves (self c) s s' ∧ tracks C s' (c <| c_log := c_log c ++ [e] |> <| c_matchIndex := Some mt |>) ∧
  acked s' (self c) (c_currentTerm c) (Z.to_nat (e_Index e)).
Proof.
  intros Hi Ht Hr Hroom He Hmt [m0 Hm0]. pose proof (plain_lastIndex c _ (tk_snap _ _ _ Ht) (tk_log _ _ _ Ht)) as Hlast.
  specialize (Hmt m0 Hm0). subst mt.
  destruct (tk_leader _ _ _ Ht Hr) as (B1 & B2 & B3). pose proof (tk_term _ _ _ Ht) as Hterm. set (i := self c) in *.
  assert (F : e_Term e = s_term s i ∧ e_Index e = Z.of_nat (length (s_log s i)) + 1 ∧ e_Type e = EntryNormal).
  { rewrite He. cbn. rewrite Hlast. done. }
  destruct F as (F1 & F2 & F3).
  rewrite Hlast in Hroom. pose proof (append_moves s i e true Hi B1 Hroom F1 F2 F3) as M1. rewrite <- Hlast in Hroom. set (s1 := append s i e true) in *.
  assert (Hled : led s1 (s_term s i) (s_log s i ++ [e])) by (exists i; apply lookup_insert_eq).
  assert (Hlog1 : s_log s1 i = s_log s i ++ [e]) by (unfold s1; cbn; by rewrite insert_fn_eq).
  assert (M2 : moves i s1 (hold s1 i (S (length (s_log s i))))).
  { apply (hold_moves s1 i (s_log s i ++ [e])); [apply M1|done|]. by rewrite Hlog1. }
  set (s2 := hold s1 i _) in *. pose proof (moves_trans _ _ _ _ M1 M2) as M.
  assert (Hack : acked s2 i (c_currentTerm c) (Z.to_nat (e_Index e))).
  { exists (s_log s i ++ [e]). rewrite Hterm. split; [done|]. rewrite length_app, F2. cbn [length]. split; [lia|].
    intros k Hk Hh. right. split; [done|]. split; [done|]. split; [lia|]. by rewrite Hlog1. }
  cbv zeta. split; [done|]. split; [|done]. pose proof (mv_evolves _ _ _ M) as Hev. pose proof (tk_commit _ _ _ Ht) as [D1 D2].
  destruct Ht. constructor; try done.
  - change (c_log c ++ [e] = sentinel :: s_log s1 i). rewrite tk_log, Hlog1. done.
  - intros _. split; [done|]. split.
    + intros nx v n Hnx Hv. pose proof (B2 _ _ _ Hnx Hv) as Hn. unfold lastIndex in *. cbn -[Z.add]. rewrite zlen_app.
      pose proof (zlen_nonneg [e]). lia.
    + intros mt v m [= <-] Hv. destruct (decide (self c = v)) as [<-|].
      * rewrite lookup_insert_eq in Hv. injection Hv as <-. split; [lia|done].
      * rewrite lookup_insert_ne in Hv by done. destruct (B3 _ _ _ Hm0 Hv) as [E1 E2]. split; [done|]. by eapply acked_evolves.
  - split; [done|]. change (decided C s2 (c_currentTerm c) (s_log s1 i) (Z.to_nat (c_commitIndex c))). rewrite Hlog1.
    eapply (decided_take C s2 _ (s_log s i) _ _ (length (s_log s i))); [by rewrite take_app_length, firstn_all| |].
    + destruct D2 as [->|[D2 _]]; [lia|exact D2].
    + eapply decided_evolves; [exact Hev|done|exact D2].
Qed.

Lemma propose_step s c data c' out :
  inv C s → tracks C s c → c_pending c = [] → core_wf c → lastIndex c < s_cap s < 2 ^ 63 → handlePropose c data = Ok (c', out) →
  protocol_step s c c' out.
Proof.
  intros Hi Ht Hp Hwf Hb. unfold handlePropose. case_bool_decide as Hr; cbn [negb].
  2: { intros [= <- <-]. apply protocol_same; [done|done|by constructor|done|done]. }
  unfold appendLeaderEntry. cbv zeta. rewrite bool_decide_false by done.
  destruct (wf_leader c Hwf Hr) as [_ [m0 Hm0]]. rewrite Hm0. cbn [map_write mbind result_bind].
  pose proof (plain_lastIndex c _ (tk_snap _ _ _ Ht) (tk_log _ _ _ Ht)) as Hlast. pose proof (zlen_nonneg (s_log s (self c))) as Hz.
  rewrite (u64_small (lastIndex c + 1)) by (unfold is_u64; lia). set (e := mkEntry (lastIndex c + 1) (c_currentTerm c) EntryNormal data).
  destruct (tracks_append s c e (<[self c := e_Index e]> m0) Hi Ht Hr (proj1 Hb) eq_refl) as (M & Ht1 & Hack); [intros m1 E; rewrite Hm0 in E; by injection E as <-|by eexists|].
  set (s' := hold _ _ _) in *. change (lastIndex c + 1) with (e_Index e).
  set (c1 := c <| c_log := c_log c ++ [e] |> <| c_matchIndex := Some (<[self c := e_Index e]> m0) |>) in *.
  unfold await_self_match. cbn [nextPersistSeq]. set (c2 := _ <| c_pending := _ |>).
  assert (Hq : quiet c1 c2) by (constructor; [by constructor|done..]).
  pose proof (tracks_quiet C s' c1 c2 Hq Ht1) as Ht2.
  assert (F : self c2 = self c ∧ c_log c2 = c_log c ++ [e] ∧ c_role c2 = c_role c ∧ c_currentTerm c2 = c_currentTerm c ∧ c_commitIndex c2 = c_commitIndex c ∧
    c_pending c2 = c_pending c ++ [mkPending pendingSelfMatch (c_persistSeq c1 + 1)%u64 (c_currentTerm c) [] [] (e_Index e) (c_currentTerm c)] ∧
    c_nextIndex c2 = c_nextIndex c) by done.
  clearbody c2. destruct F as (F1 & F2 & F3 & F4 & F5 & F6 & F7). intros H.
  destruct (broadcast_request _ _ _ _ H) as (B1 & B2 & B3 & _). cbn [out_PersistRequest] in B1.
  split.
  - exists s'. assert (Ho : ok C s' c2 (no_output <| out_PersistRequest := Some (mkPersistRequest (c_persistSeq c1 + 1)%u64 None 0 [e]) |>)) by by constructor.
    apply (broadcast_ok C s' (mv_inv _ _ _ M)) in H as [H _]; [|done|congruence].
    constructor; [done|congruence|done| |intros hs Hhs; rewrite B1; exact Hhs].
    rewrite B1. cbn. rewrite B2, F6, Hp. apply Forall_singleton. split; [|done]. unfold due. cbn [p_kind p_index].
    rewrite B3, F1, (tk_term _ _ _ (ok_core _ _ _ _ H)), B3, F1. split; [cbn; lia|].
    rewrite (tk_term _ _ _ Ht) in Hack. exact Hack.
  - intros pr hs es es' Hpr Hd Hpart. rewrite B1 in Hpr. injection Hpr as <-.
    assert (es' = es) as -> by by destruct Hpart as [|[E2 _]].
    pose proof (tk_leader _ _ _ Ht Hr) as (L1 & L2 & _).
    assert (Mf : moves (self c) s (append s (self c) e false)).
    { apply append_moves; [done|done|by rewrite <- Hlast; apply Hb|by cbn; rewrite (tk_term _ _ _ Ht)|cbn; rewrite Hlast; done|done]. }
    exists (append s (self c) e false). split; [done|]. split; [|split].
    + refine (broadcast_facts C _ c2 (s_log s (self c) ++ [e]) _ _ _ _ _ H); [|constructor].
      pose proof (tk_commit _ _ _ Ht) as [D1 D2]. constructor.
      * rewrite F4. by apply (tracks_low C s).
      * apply Ht2.
      * rewrite F2, (tk_log _ _ _ Ht). done.
      * exists (self c). rewrite F4, (tk_term _ _ _ Ht). apply lookup_insert_eq.
      * apply (tk_leader _ _ _ Ht2). congruence.
      * rewrite F4, F5. split; [done|].
        eapply (decided_take C _ _ (s_log s (self c)) _ _ (length (s_log s (self c)))); [by rewrite take_app_length, firstn_all| |].
        -- destruct D2 as [->|[D2 _]]; lia.
        -- eapply decided_evolves; [apply Mf|done|exact D2].
    + destruct (wf_leader c Hwf Hr) as [[nx Hnx] _]. destruct (broadcast_spec c2 (no_output <| out_PersistRequest := Some (mkPersistRequest (c_persistSeq c1 + 1)%u64 None 0 [e]) |>))
        as (x & msgs & E & _); [by rewrite F7|]. rewrite E in H. apply Ok_inj in H. by injection H as _ <-.
    + exact Hd.
Qed.
End steps.
