(* ===== verification/ProtocolAppend.v ===== *)
(** * Following a leader

    The handler of the leader's entries, and with it every input: a step of a
    core that tracks the history never panics and is an event of the
    protocol. *)

From stdpp Require Import functions.
From S2P Require Import Prelude Bytes RaftTypes RaftMembership RaftMembershipSpec RaftCore RaftInv RaftSpec RaftPersist RaftDriver Protocol ProtocolCore ProtocolStep.

Section append.
Context (C : Configuration) (HC : NoDup (m_ID <$> Voters C)) (HL : Learners C = []) (Hnv : noVote ∉ voter_ids C).

(** ** The scan *)

(** The scan of a message that carries the leader's log [h] up to [m]
    leaves the log [L1], with [new] to append; a truncation point is a
    place where the logs disagree. *)
Record scanned (c : Core) (L h : list Entry) (m : nat) (c1 : Core) (tf : Z) (new L1 : list Entry) : Prop := {
  sn_cut : c1 = c ∧ tf = 0 ∧ L1 = L ∨
    c1 = (invalidatePendingFrom c tf) <| c_log := sentinel :: L1 |> ∧ tf = Z.of_nat (length L1) + 1 ∧
    (length L1 < length L)%nat ∧ (length L1 < length h)%nat ∧ L1 = take (length L1) L ∧
    e_Term <$> L !! length L1 ≠ e_Term <$> h !! length L1;
  sn_all : take m (L1 ++ new) = take m h;
  sn_new : new = [] ∧ tf = 0 ∨ L1 ++ new = take m h
}.

Lemma scan_spec s c L h es prev T T' :
  rooted s T L → rooted s T' h → c_snapshotIndex c = 0 → c_log c = sentinel :: L →
  (prev ≤ length L)%nat → take prev L = take prev h → (prev + length es ≤ length h)%nat → es = take (length es) (drop prev h) →
  take (Z.to_nat (c_commitIndex c)) L = take (Z.to_nat (c_commitIndex c)) h → Z.of_nat prev + zlen es + 1 < 2 ^ 64 →
  ∃ c1 tf new L1, append_scan c (Z.of_nat prev + 1) es = Ok (c1, tf, new) ∧ scanned c L h (prev + length es) c1 tf new L1.
Proof.
  intros HL1 Hh Hs Hl. revert prev. induction es as [|e es IH]; intros prev Hp Hpre Hle He Hc Hb; cbn [append_scan].
  { exists c, 0, [], L. split; [done|]. constructor; [by left| |by left]. cbn [length]. by rewrite Nat.add_0_r, app_nil_r. }
  rewrite zlen_cons in Hb. pose proof (zlen_nonneg es) as Hz. cbn [length] in Hle.
  rewrite (plain_lastIndex c L Hs Hl). replace (Z.of_nat prev + 1) with (Z.of_nat (S prev)) by lia.
  rewrite (plain_termAt c L Hs Hl).
  assert (Hhe : h !! prev = Some e).
  { assert (E : take (length (e :: es)) (drop prev h) !! 0%nat = Some e) by (by rewrite <- He).
    rewrite lookup_take_lt, lookup_drop, Nat.add_0_r in E by (cbn; lia). done. }
  destruct (Z.leb_spec (Z.of_nat (S prev)) (zlen L)) as [Hlt|Hge]; cbn [andb].
  - unfold zlen in Hlt. rewrite decide_True by lia. destruct (Z.eqb_spec (last_term (take (S prev) L)) (e_Term e)) as [Ht|Hne]; cbn [andb].
    + rewrite u64_small by (unfold is_u64; lia). replace (Z.of_nat (S prev) + 1) with (Z.of_nat (S prev) + 1) by done.
      replace (prev + length (e :: es))%nat with (S prev + length es)%nat by (cbn; lia). apply IH; [lia| |lia| |done|lia].
      * apply (rooted_match s T T' L h prev (e_Term e)); [done|done| |].
        -- rewrite <- Ht. apply last_term_take. lia.
        -- apply has_lookup. by exists e.
      * cbn [length] in He. rewrite (drop_S h e prev Hhe) in He. cbn [take] in He. by injection He.
    + destruct (Z.leb_spec (Z.of_nat (S prev)) (c_commitIndex c)) as [Hcm|Hcm].
      { exfalso. apply Hne. destruct (lookup_lt_is_Some_2 L prev) as [x Hx]; [lia|]. unfold last_term. rewrite (take_S_r _ _ _ Hx), last_snoc. cbn.
        f_equal. assert (Some x = Some e) as E; [|by injection E]. rewrite <- Hx, <- Hhe.
        rewrite <- (lookup_take_lt L (Z.to_nat (c_commitIndex c))), Hc, lookup_take_lt by lia. done. }
      assert (Hsl : log_slice (invalidatePendingFrom c (Z.of_nat (S prev))) 0 (pos (invalidatePendingFrom c (Z.of_nat (S prev))) (Z.of_nat (S prev))) =
        Ok (sentinel :: take prev L)).
      { unfold pos. change (c_snapshotIndex (invalidatePendingFrom c (Z.of_nat (S prev)))) with (c_snapshotIndex c). rewrite Hs, Z.sub_0_r.
        rewrite log_slice_ok; [|lia|lia|]; change (c_log (invalidatePendingFrom c (Z.of_nat (S prev)))) with (c_log c); rewrite Hl.
        - rewrite Z.sub_0_r, Nat2Z.id. done.
        - rewrite zlen_cons. unfold zlen. lia. }
      rewrite Hsl. cbn [mbind result_bind].
      exists ((invalidatePendingFrom c (Z.of_nat (S prev))) <| c_log := sentinel :: take prev L |>), (Z.of_nat (S prev)), (e :: es), (take prev L).
      split; [done|]. assert (Hlen : length (take prev L) = prev) by (rewrite length_take; lia).
      assert (Hnew : take prev L ++ e :: es = take (prev + length (e :: es)) h).
      { rewrite He, Hpre, length_take, length_drop. rewrite Nat.min_l by (cbn; lia). by rewrite take_take_drop. }
      constructor; [|by rewrite Hnew, take_take, Nat.min_id|by right]. right. rewrite Hlen. split; [done|]. split; [lia|]. split; [lia|].
      split; [lia|]. split; [done|]. rewrite Hhe. cbn. intros E. apply Hne.
      pose proof (last_term_take L prev) as Hlt'. unfold has in Hlt'. rewrite E in Hlt'. specialize (Hlt' ltac:(lia)). by injection Hlt'.
  - unfold zlen in Hge. assert (Hpl : prev = length L) by lia.
    exists c, 0, (e :: es), L. split; [done|].
    assert (Hnew : L ++ e :: es = take (prev + length (e :: es)) h).
    { rewrite He, length_take, length_drop. rewrite Nat.min_l by (cbn; lia). rewrite <- take_take_drop, <- Hpre, Hpl. by rewrite firstn_all. }
    constructor; [by left|by rewrite Hnew, take_take, Nat.min_id|by right].
Qed.

(** ** The configuration does not change *)

Lemma configAt_loop_plain fuel log snap idx :
  (∀ e, e ∈ log → e_Type e = EntryNormal) → configAt_loop fuel log snap idx = None.
Proof.
  intros H. revert idx. induction fuel as [|fuel IH]; intros idx; cbn [configAt_loop]; [done|]. case_if; [done|].
  destruct (log !! Z.to_nat (idx - snap)) as [e|] eqn:He; [|apply IH]. rewrite bool_decide_false; [apply IH|].
  apply list_elem_of_lookup_2 in He. rewrite (H _ He). done.
Qed.

Lemma activate_loop_plain prior c es : (∀ e, e ∈ es → e_Type e = EntryNormal) → activate_loop prior c es = Ok c.
Proof.
  revert prior. induction es as [|e es IH]; intros prior H; cbn [activate_loop]; [done|].
  rewrite (bool_decide_false (e_Type e = EntryConfig)) by (rewrite (H e) by (by left); done). cbn [negb].
  apply IH. intros x Hx. apply H. by right.
Qed.

Lemma reconfigure_plain c tf new L :
  c_log c = sentinel :: L → numbered L → (∀ e, e ∈ new → e ∈ L) → c_snapshotHasConfig c = false → c_bootstrapConfig c = C → c_activeConfig c = C →
  ∃ x, reconfigure c tf new = Ok (c <| c_activeConfig := C |> <| c_activeConfigIndex := x |>).
Proof.
  intros Hl Hn Hsub Hsc Hb Ha. assert (Hnorm : ∀ e, e ∈ L → e_Type e = EntryNormal).
  { intros e He. apply list_elem_of_lookup in He as [k He]. by apply Hn in He as [_ He]. }
  assert (Hid : ∃ x, Ok (E:=raft_panic) c = Ok (c <| c_activeConfig := C |> <| c_activeConfigIndex := x |>)).
  { exists (c_activeConfigIndex c). f_equal. rewrite <- Ha. by destruct c. }
  unfold reconfigure. destruct (negb (tf =? 0)).
  - unfold ConfigAt. rewrite configAt_loop_plain.
    + rewrite Hsc, Hb. by eexists.
    + rewrite Hl. intros e [->|He]%elem_of_cons; [done|by apply Hnorm].
  - destruct (negb (zlen new =? 0)); [|done]. unfold activateFromAppendedEntries. rewrite activate_loop_plain; [done|].
    intros e He. by apply Hnorm, Hsub.
Qed.

(** ** The history of an accepted message *)

Lemma scanned_prefix c L h m c1 tf new L1 n :
  scanned c L h m c1 tf new L1 → (n ≤ length L)%nat → take n L = take n h → take n (L1 ++ new) = take n L.
Proof.
  intros [Hcut _ _] Hn E. destruct Hcut as [(-> & -> & ->)|(_ & _ & H1 & H2 & H3 & H4)]; [by rewrite take_app_le|].
  destruct (decide (n ≤ length L1)%nat) as [Hle|Hgt].
  - rewrite take_app_le by done. rewrite H3, take_take. f_equal. lia.
  - exfalso. apply H4. f_equal. rewrite <- (lookup_take_lt L n), <- (lookup_take_lt h n) by lia. by rewrite E.
Qed.

Lemma scanned_follows s i c L h m c1 tf new L1 :
  scanned c L h m c1 tf new L1 → s_log s i = L → (new ≠ [] ∨ tf ≠ 0) → follows_leader s i h (L1 ++ new) ∧ (tf ≠ 0 → follows_leader s i h L1).
Proof.
  intros [Hcut Hall Hnew] Hl Hch. destruct Hnew as [[-> ->]|Hnew]; [by destruct Hch|].
  assert (Hp : L1 ++ new `prefix_of` h) by (rewrite Hnew; exists (drop m h); by rewrite take_drop).
  destruct Hcut as [(-> & -> & ->)|(-> & -> & H1 & H2 & H3 & H4)].
  - split; [|done]. split; [done|]. left. rewrite Hl. by eexists.
  - assert (Hp1 : L1 `prefix_of` h) by (etrans; [by apply prefix_app_r|done]).
    assert (Hcond : ∀ X, L1 `prefix_of` X → ∃ n, (n ≤ length X)%nat ∧ (n < length (s_log s i))%nat ∧ (n < length h)%nat ∧
      e_Term <$> s_log s i !! n ≠ e_Term <$> h !! n ∧ take n (s_log s i) = take n X).
    { intros X HX. exists (length L1). rewrite Hl. split; [by apply prefix_length|]. split; [done|]. split; [done|]. split; [done|].
      rewrite <- H3. destruct HX as [y ->]. by rewrite take_app_length. }
    split; [|intros _]; (split; [done|right; apply Hcond]); [by eexists|done].
Qed.

(** The events of an accepted message: the term, the log, and that the log
    now agrees with the leader's up to [m]. *)
Lemma accept_moves s i T h c L m c1 tf new L1 :
  inv C s → s_term s i ≤ T → led s T h → s_log s i = L → scanned c L h m c1 tf new L1 →
  ∃ s', moves C i s s' ∧ s_log s' i = L1 ++ new ∧ s_term s' i = T ∧ s_phase s' i = Idle ∧
    (∀ T', s_cast s' !! (i, T') = s_cast s !! (i, T')) ∧ s_led s' = s_led s ∧ acked s' i T (m `min` length h).
Proof.
  intros Hi Hle Hled Hl Hsc. pose proof (observe_moves C s i T Hi (conj Hle (led_low C s Hi _ _ Hled))) as M1. set (s1 := observe s i T) in *.
  assert (E1 : s_term s1 i = T ∧ s_phase s1 i = Idle ∧ s_log s1 i = L).
  { unfold s1. cbn. by rewrite !insert_fn_eq. }
  destruct E1 as (E1 & E2 & E3).
  assert (∃ s2, moves C i s1 s2 ∧ s_log s2 i = L1 ++ new ∧ s_term s2 i = T ∧ s_phase s2 i = Idle ∧ s_cast s2 = s_cast s ∧ s_led s2 = s_led s)
    as (s2 & M2 & F1 & F2 & F3 & F4 & F5).
  { destruct (decide (new = [] ∧ tf = 0)) as [[-> ->]|Hch].
    - exists s1. split; [apply moves_refl, M1|]. rewrite app_nil_r. split; [|done]. rewrite E3.
      destruct (sn_cut _ _ _ _ _ _ _ _ Hsc) as [(_ & _ & ->)|(_ & H & _)]; [done|lia].
    - exists (relog s1 i (L1 ++ new)). split.
      + apply (relog_moves C s1 i T h); [apply M1|done|lia| |by left].
        destruct (scanned_follows s1 i c L h m c1 tf new L1 Hsc E3) as [H _]; [|done].
        destruct (decide (new = [])); [right; tauto|by left].
      + cbn. rewrite !insert_fn_eq. done. }
  assert (Hled2 : led s2 T h) by (destruct Hled as [j Hj]; exists j; by rewrite F5).
  pose proof (sn_all _ _ _ _ _ _ _ _ Hsc) as Hall.
  exists (hold s2 i (m `min` length h)). split.
  { eapply moves_trans; [done|]. eapply moves_trans; [done|]. apply (hold_moves C s2 i h); [apply M2|by rewrite F2|].
    rewrite F1. eapply take_eq_le; [exact Hall|lia]. }
  split; [done|]. split; [done|]. split; [done|]. split; [intros T'; cbn; by rewrite F4|]. split; [done|].
  exists h. split; [done|]. split; [lia|]. intros k Hk Hh. right. split; [done|]. split; [by rewrite F2|]. split; [lia|]. rewrite F1.
  eapply (has_take_eq h); [by symmetry|lia|done].
Qed.

(** A follower's log replaced by [L']. *)
Lemma tracks_follow s s' c c' L' :
  inv C s → tracks C s c → evolves s s' → c_cfg c' = c_cfg c → c_bootstrapConfig c' = c_bootstrapConfig c →
  c_snapshotIndex c' = c_snapshotIndex c → c_snapshotHasConfig c' = c_snapshotHasConfig c → c_activeConfig c' = C →
  c_log c' = sentinel :: L' → s_log s' (self c) = L' → s_term s' (self c) = c_currentTerm c' → c_role c' = Follower →
  s_phase s' (self c) = Idle → c_commitIndex c' = c_commitIndex c →
  (c_votedFor c' = noVote ∧ (s_cast s' !! (self c, c_currentTerm c') = None ∨ c_heardFromLeader c' = true) ∨
   c_votedFor c' ≠ noVote ∧ s_cast s' !! (self c, c_currentTerm c') = Some (c_votedFor c')) →
  decided C s' (c_currentTerm c') L' (Z.to_nat (c_commitIndex c)) → tracks C s' c'.
Proof.
  intros Hi Ht Hev E1 E2 E3 E4 E5 E6 E7 E8 E9 E10 E11 Hv Hd. assert (Hself : self c' = self c) by (unfold self; by rewrite E1).
  pose proof (tk_commit _ _ _ Ht) as [D1 _]. destruct Ht. constructor; rewrite ?Hself, ?E9, ?E11; try done; try congruence.
  split; [done|]. by rewrite E7.
Qed.

(** ** The reply *)

Lemma append_finish_ok s c msg out sc tf new c' out' :
  inv C s → tracks C s c → c_pending c = [] → out_Messages out = [] → out_CommittedEntries out = [] → out_PersistRequest out = None →
  0 ≤ m_PrevLogIndex msg + zlen (m_Entries msg) →
  acked s (self c) (c_currentTerm c) (Z.to_nat (m_PrevLogIndex msg + zlen (m_Entries msg))) →
  decided C s (c_currentTerm c) (s_log s (self c))
    (Z.to_nat (Z.min (m_PrevLogIndex msg + zlen (m_Entries msg)) (m_LeaderCommit msg))) →
  append_finish c msg out sc tf new = Ok (c', out') →
  ok C s c' out' ∧ self c' = self c ∧
  match out_PersistRequest out' with
  | Some pr => (∃ seq, pr = mkPersistRequest seq (if sc then Some (hard_state c) else None) tf new) ∧
      Forall (λ p, due C s c' p ∧ p_seq p ≤ pr_Seq pr) (c_pending c') ∧ out_Messages out' = [] ∧ out_CommittedEntries out' = []
  | None => sc = false ∧ tf = 0 ∧ new = [] ∧ c_pending c' = []
  end.
Proof.
  intros Hi Ht Hp O1 O2 O3 Hln Hack Hdec. unfold append_finish. cbv zeta. set (lastNew := m_PrevLogIndex msg + zlen (m_Entries msg)) in *.
  assert (Hnc : (if lastNew <? m_LeaderCommit msg then lastNew else m_LeaderCommit msg) = Z.min lastNew (m_LeaderCommit msg)).
  { destruct (Z.ltb_spec lastNew (m_LeaderCommit msg)); lia. }
  rewrite Hnc. set (newCommit := Z.min lastNew (m_LeaderCommit msg)) in *. clearbody newCommit lastNew. clear Hnc.
  destruct (sc || negb (tf =? 0) || negb (zlen new =? 0)) eqn:En.
  - cbn [nextPersistSeq]. set (seq := (c_persistSeq c + 1)%u64). set (c1 := c <| c_persistSeq := seq |>).
    set (o1 := out <| out_PersistRequest := _ |>). intros H. apply bind_Ok_inv in H as ([c2 o2] & H1 & H2). injection H2 as <- <-.
    assert (Hc2 : quiet c c2 ∧ o2 = o1 ∧ Forall (λ p, due C s c p ∧ p_seq p ≤ seq) (c_pending c2)).
    { revert H1. case_if; [case_if|]; intros [= <- <-].
      - split; [constructor; [by constructor|done..]|]. split; [done|]. cbn. rewrite Hp. apply Forall_singleton.
        split; [exact Hdec|done].
      - split; [constructor; [by constructor|done..]|]. split; [done|]. cbn. rewrite Hp. constructor.
      - split; [constructor; [by constructor|done..]|]. split; [done|]. cbn. rewrite Hp. constructor. }
    destruct Hc2 as (Q & -> & Hdue). set (c3 := c2 <| c_pending := _ |>).
    assert (Q3 : quiet c c3) by (eapply quiet_trans; [exact Q|apply quiet_pending]).
    assert (Hself : self c3 = self c) by (unfold self; by rewrite (sl_cfg _ _ (q_log _ _ Q3))).
    split; [constructor; [by eapply tracks_quiet|cbn; rewrite O1; constructor|cbn; rewrite O2; constructor]|]. split; [done|].
    cbn [out_PersistRequest]. change (out_PersistRequest o1) with (Some (mkPersistRequest seq (if sc then Some (hard_state c1) else None) tf new)).
    split; [by exists seq|]. split; [|done]. cbn. apply Forall_app. split.
    + eapply Forall_impl; [exact Hdue|]. intros p [P1 P2]. split; [|done]. unfold due in *. by rewrite Hself, (q_term _ _ Q3).
    + apply Forall_singleton. split; [|done]. unfold due. cbn [p_kind p_index]. by rewrite Hself, (q_term _ _ Q3).
  - intros H. apply bind_Ok_inv in H as ([c2 o2] & H1 & H2). injection H2 as <- <-.
    assert (Ho : ok C s c out) by (constructor; [done|rewrite O1; constructor|rewrite O2; constructor]).
    assert (Hc2 : ok C s c2 o2 ∧ self c2 = self c ∧ c_pending c2 = [] ∧ out_PersistRequest o2 = None).
    { assert (Hsame : ok C s c out ∧ self c = self c ∧ c_pending c = [] ∧ out_PersistRequest out = None) by done.
      revert H1. case_if; [case_if|]; [|by intros [= <- <-]..]. intros Ha.
      destruct (advanceFollowerCommit_calm _ _ _ _ _ Ha) as [_ _ _ _ K1 K2].
      apply (advanceFollowerCommit_ok C s) in Ha as (A1 & _ & A2 & _); [|done|exact Hdec]. split; [done|].
      split; [unfold self; by rewrite K1|]. split; congruence. }
    destruct Hc2 as (B1 & B2 & B3 & B4). split.
    { apply ok_send; [|done]. split; [eapply (tracks_low C s Hi), B1|]. cbn. intros _. split; [done|]. rewrite (tk_term _ _ _ (ok_core _ _ _ _ B1)), B2.
      rewrite (tk_term _ _ _ Ht) in Hack. done. }
    split; [done|]. cbn [out_PersistRequest]. change (out_PersistRequest (send _ o2)) with (out_PersistRequest o2). rewrite B4.
    apply orb_false_iff in En as [En E3]. apply orb_false_iff in En as [E1 E2]. apply negb_false_iff in E2, E3. bool_to_prop.
    split; [done|]. split; [done|]. split; [|done]. by apply zlen_0_nil.
Qed.

(** ** The handler *)

Lemma accept_leader_step intn s c msg c1 o1 sc :
  inv C s → tracks C s c → c_currentTerm c ≤ m_Term msg → accept_leader intn c msg no_output = (c1, o1, sc) →
  tracks C (observe s (self c) (m_Term msg)) c1 ∧ same_log c c1 ∧ c_role c1 = Follower ∧ c_currentTerm c1 = m_Term msg ∧
  c_pending c1 = c_pending c ∧ c_heardFromLeader c1 = true ∧ sc = (c_currentTerm c <? m_Term msg) ∧ (sc = true → c_votedFor c1 = noVote) ∧
  out_Messages o1 = [] ∧ out_CommittedEntries o1 = [] ∧ out_PersistRequest o1 = None.
Proof.
  intros Hi Ht Hle E. destruct (accept_leader_spec intn c msg no_output Hle) as (Hsl & Hr & Hterm & Hcm).
  pose proof (tk_term _ _ _ Ht) as HT. rewrite E in *. cbn [fst snd] in *.
  assert (F : c_pending c1 = c_pending c ∧ c_heardFromLeader c1 = true ∧ sc = (c_currentTerm c <? m_Term msg) ∧ out_Messages o1 = [] ∧ out_PersistRequest o1 = None ∧
    (c_votedFor c1 = noVote ∨ c_votedFor c1 = c_votedFor c ∧ sc = false)).
  { unfold accept_leader in E. set (newer := c_currentTerm c <? m_Term msg) in *. unfold step_down_if in E.
    destruct (newer || _) eqn:Eb.
    - cbn [stepDownTo] in E. set (o0 := if _ || _ then _ else no_output) in E.
      assert (O : out_Messages o0 = [] ∧ out_PersistRequest o0 = None) by (unfold o0; by case_match). clearbody o0. destruct O as [O1 O2].
      apply (f_equal (λ x, (x.1.1, x.1.2, x.2))) in E. cbn [fst snd] in E. injection E as <- <- <-.
      do 3 (split; [done|]). split; [done|]. split; [done|]. by left.
    - apply (f_equal (λ x, (x.1.1, x.1.2, x.2))) in E. cbn [fst snd] in E. injection E as <- <- <-.
      do 5 (split; [done|]). right. split; [done|]. by apply orb_false_iff in Eb as [Eb _]. }
  destruct F as (F1 & F2 & F3 & F4 & F5 & F6). split.
  { apply tracks_observe; [done|done|lia|done|done|done|]. destruct F6 as [F6|[F6 F7]]; [left; split; [done|by right]|].
    rewrite F6. subst sc. bool_to_prop. assert (E' : m_Term msg = c_currentTerm c) by lia. rewrite E'.
    destruct (tk_vote _ _ _ Ht) as [[V1 _]|V]; [left; split; [done|by right]|by right]. }
  do 6 (split; [done|]). split; [|done]. intros ->. destruct F6 as [|[_ F6]]; [done|done].
Qed.

(** A reply that does not touch the log. *)
Lemma nack_step s c c1 o1 sc m c' out :
  inv C s → tracks C s c → c_pending c = [] → s_term s (self c) ≤ c_currentTerm c1 ≤ s_cap s → sc = (c_currentTerm c <? c_currentTerm c1) →
  tracks C (observe s (self c) (c_currentTerm c1)) c1 → same_log c c1 → c_pending c1 = [] → (sc = true → c_votedFor c1 = noVote) →
  out_Messages o1 = [] → out_CommittedEntries o1 = [] → out_PersistRequest o1 = None → m_Term m ≤ s_cap s → (∀ s', says C s' m) →
  persist_if sc c1 (send m o1) = (c', out) → protocol_step C s c c' out.
Proof.
  intros Hi Ht Hp Hle Hsc Ht1 Hsl Hp1 Hv O1 O2 O3 Hcap Hm. pose proof (observe_moves C s (self c) _ Hi Hle) as M.
  assert (Hself : self c1 = self c) by (unfold self; by rewrite (sl_cfg _ _ Hsl)). rewrite (tk_term _ _ _ Ht) in Hsc.
  assert (Hms : ∀ s', s_cap s' = s_cap s → Forall (fact C s') (out_Messages (send m o1))).
  { intros s' E. cbn. rewrite O1. apply Forall_singleton. split; [by rewrite E|apply Hm]. }
  unfold persist_if. destruct sc; symmetry in Hsc; bool_to_prop.
  - unfold persist_hard_state. cbn [nextPersistSeq]. set (c2 := c1 <| c_persistSeq := _ |>).
    assert (Q : quiet c1 c2) by (constructor; [by constructor|done..]).
    assert (F : c_log c2 = c_log c1 ∧ c_pending c2 = c_pending c1 ∧ self c2 = self c1 ∧ hard_state c2 = hard_state c1) by done.
    clearbody c2. destruct F as (F1 & F2 & F3 & F4). intros [= <- <-].
    eapply (protocol_hard_state C s c c2 _ (observe s (self c) (c_currentTerm c1))); [done| |done|by apply Hms|exact O2].
    constructor; [done|congruence| |cbn; rewrite F2, Hp1; constructor|].
    + constructor; [by eapply tracks_quiet|by apply Hms|cbn; rewrite O2; constructor].
    + intros hs _. cbn. rewrite F4. unfold hard_state. rewrite Hv by done. apply (observe_vote_link C); [done|lia].
  - intros [= <- <-]. split; [|by apply survivable_none]. exists (observe s (self c) (c_currentTerm c1)).
    constructor; [done|done| |cbn; by rewrite O3|].
    + constructor; [done|by apply Hms|cbn; rewrite O2; constructor].
    + intros hs Hhs. cbn. rewrite O3. cbn. unfold vote_link in *. cbn. rewrite insert_fn_eq.
      assert (E : c_currentTerm c1 = s_term s (self c)) by lia. by rewrite E.
Qed.

(** Logs that agree on the term before the message's entries agree up to there. *)
Lemma prev_match s c T h prev :
  inv C s → tracks C s c → led s T h → (prev ≤ length h)%nat → Z.of_nat prev ≤ lastIndex c →
  termAt c (Z.of_nat prev) = last_term (take prev h) →
  (prev ≤ length (s_log s (self c)))%nat ∧ take prev (s_log s (self c)) = take prev h.
Proof.
  intros Hi Ht [j Hj] Hph Hpl Hterm. rewrite (plain_lastIndex c _ (tk_snap _ _ _ Ht) (tk_log _ _ _ Ht)) in Hpl. unfold zlen in Hpl.
  rewrite (plain_termAt c _ (tk_snap _ _ _ Ht) (tk_log _ _ _ Ht)), decide_True in Hterm by lia. split; [lia|].
  destruct prev as [|k]; [done|]. destruct (i_led _ _ Hi _ _ _ Hj) as (_ & Hr & _).
  eapply (rooted_match s _ _ _ _ k); [apply (i_log C s Hi)|exact Hr|apply last_term_take; lia|].
  rewrite Hterm. apply last_term_take. lia.
Qed.

(** What the scan leaves of the core. *)
Lemma scanned_core c L h m c2 tf new L1 :
  scanned c L h m c2 tf new L1 → c_log c = sentinel :: L → c_pending c = [] →
  c_log c2 = sentinel :: L1 ∧ c_pending c2 = [] ∧ same_log c (c2 <| c_log := c_log c |>) ∧ c_role c2 = c_role c ∧
  c_currentTerm c2 = c_currentTerm c ∧ c_votedFor c2 = c_votedFor c ∧ c_heardFromLeader c2 = c_heardFromLeader c.
Proof.
  intros [[(-> & _ & ->)|(-> & _)] _ _] Hl Hp.
  - split; [done|]. split; [done|]. split; [by constructor|done].
  - split; [done|]. split; [cbn; by rewrite Hp|]. split; [by constructor|done].
Qed.

(** A failed disk after the scan. *)
Lemma accept_survivable s c c1 hs T h L m c2 tf new L1 out seq :
  inv C s → s_term s (self c) ≤ T → led s T h → s_log s (self c) = L → scanned c1 L h m c2 tf new L1 →
  out_Messages out = [] → out_CommittedEntries out = [] → out_PersistRequest out = Some (mkPersistRequest seq hs tf new) →
  survivable C s c out.
Proof.
  intros Hi Hle Hled Hl Hsn O1 O2 O3 pr hs0 es es' Hpr [Hhs ->]. rewrite O3 in Hpr. injection Hpr as <-. rewrite O1, O2.
  intros [->|[Htf ->]]; [exists s; split; [by apply moves_refl|done]|]. cbn in Htf.
  assert (Hcut : L1 = take (Z.to_nat (tf - 1)) (s_log s (self c))).
  { rewrite Hl. destruct (sn_cut _ _ _ _ _ _ _ _ Hsn) as [(_ & H & _)|(_ & -> & _ & _ & H & _)]; [done|].
    by replace (Z.to_nat (Z.of_nat (length L1) + 1 - 1)) with (length L1) by lia. }
  exists (relog s (self c) L1). split; [|split; [constructor|split; [constructor|]]].
  - apply (relog_moves C s (self c) T h); [done|done|done| |].
    + by apply (scanned_follows s (self c) c1 L h m c2 tf new L1 Hsn Hl (or_intror Htf)).
    + right. rewrite Hcut. exists (drop (Z.to_nat (tf - 1)) (s_log s (self c))). by rewrite take_drop.
  - split; [exact Hhs|]. cbn. by rewrite insert_fn_eq.
Qed.

(** A message whose entries extend a matching log, and the node that
    accepted its sender. *)
Record accepting (s : sys) (c c1 : Core) (o1 : Output) (sc : bool) (msg : Message) : Prop := {
  ac_term : s_term s (self c) ≤ m_Term msg;
  ac_newer : sc = (c_currentTerm c <? m_Term msg);
  ac_tracks : tracks C (observe s (self c) (m_Term msg)) c1;
  ac_same : same_log c c1;
  ac_role : c_role c1 = Follower;
  ac_currentTerm : c_currentTerm c1 = m_Term msg;
  ac_pending : c_pending c1 = [];
  ac_heard : c_heardFromLeader c1 = true;
  ac_vote : sc = true → c_votedFor c1 = noVote;
  ac_out : out_Messages o1 = [] ∧ out_CommittedEntries o1 = [] ∧ out_PersistRequest o1 = None
}.

(** The follower with the leader's entries in its log. *)
Lemma accepted_tracks s c c1 o1 sc msg h L m c2 tf new L1 x :
  inv C s → tracks C s c → accepting s c c1 o1 sc msg → led s (m_Term msg) h → s_log s (self c) = L →
  scanned c1 L h m c2 tf new L1 → take (Z.to_nat (c_commitIndex c1)) L = take (Z.to_nat (c_commitIndex c1)) h → (m ≤ length h)%nat →
  let c3 := c2 <| c_log := c_log c2 ++ new |> <| c_activeConfig := C |> <| c_activeConfigIndex := x |> in
  ∃ s', moves C (self c) s s' ∧ tracks C s' c3 ∧ s_log s' (self c) = L1 ++ new ∧ acked s' (self c) (m_Term msg) m ∧
    c_pending c3 = [] ∧ self c3 = self c ∧ c_currentTerm c3 = m_Term msg ∧ hard_state c3 = hard_state c1 ∧
    (∀ hs, vote_link s (self c) hs → vote_link s' (self c) (if sc then hard_state c3 else hs)).
Proof.
  intros Hi Ht [A1 A2 A3 A4 A5 A6 A7 A8 A9 A10] Hled Hl Hsn Hc Hm. cbv zeta.
  assert (Hself1 : self c1 = self c) by (unfold self; by rewrite (sl_cfg _ _ A4)).
  assert (Hlog1 : c_log c1 = sentinel :: L) by (rewrite (tk_log _ _ _ A3), Hself1; by rewrite <- Hl).
  destruct (scanned_core _ _ _ _ _ _ _ _ Hsn Hlog1 A7) as (B1 & B2 & B3 & B4 & B5 & B6 & B7).
  destruct (accept_moves s (self c) (m_Term msg) h c1 L m c2 tf new L1) as (s' & M & E1 & E2 & E3 & E4 & E5 & E6); [done..|].
  rewrite Nat.min_l in E6 by done.
  set (c3 := c2 <| c_log := _ |> <| c_activeConfig := C |> <| c_activeConfigIndex := x |>).
  assert (F : c_cfg c3 = c_cfg c2 ∧ c_bootstrapConfig c3 = c_bootstrapConfig c2 ∧ c_snapshotIndex c3 = c_snapshotIndex c2 ∧
    c_snapshotHasConfig c3 = c_snapshotHasConfig c2 ∧ c_activeConfig c3 = C ∧ c_log c3 = c_log c2 ++ new ∧ c_currentTerm c3 = c_currentTerm c2 ∧
    c_role c3 = c_role c2 ∧ c_commitIndex c3 = c_commitIndex c2 ∧ c_votedFor c3 = c_votedFor c2 ∧ c_heardFromLeader c3 = c_heardFromLeader c2 ∧
    c_pending c3 = c_pending c2) by done.
  clearbody c3. destruct F as (F1 & F2 & F3 & F4 & F5 & F6 & F7 & F8 & F9 & F10 & F11 & F12).
  assert (K : c_cfg c2 = c_cfg c1 ∧ c_bootstrapConfig c2 = c_bootstrapConfig c1 ∧ c_snapshotIndex c2 = c_snapshotIndex c1 ∧
    c_snapshotHasConfig c2 = c_snapshotHasConfig c1 ∧ c_commitIndex c2 = c_commitIndex c1).
  { destruct B3 as [K1 _ K2 K3 _ _ _ _ K4 K5]. done. }
  destruct K as (K1 & K2 & K3 & K4 & K5). pose proof A4 as [S1 S2 S3 S4 S5 S6 S7 S8 S9 S10].
  assert (HT3 : c_currentTerm c3 = m_Term msg) by congruence.
  exists s'. split; [done|]. split.
  { eapply (tracks_follow s s' c c3 (L1 ++ new)); try done; try congruence.
    - apply M.
    - rewrite F6, B1. done.
    - rewrite HT3, F10, F11, B6, B7, A8, E4. destruct (tk_vote _ _ _ A3) as [[V1 _]|[V1 V2]]; [left; split; [done|by right]|right].
      split; [done|]. rewrite Hself1, A6 in V2. exact V2.
    - rewrite HT3, <- S4. pose proof (tk_commit _ _ _ A3) as [_ D]. rewrite Hself1, A6 in D.
      change (decided C s (m_Term msg) (s_log s (self c)) (Z.to_nat (c_commitIndex c1))) in D. rewrite Hl in D.
      eapply (decided_take C s' _ L _ _ (Z.to_nat (c_commitIndex c1))); [|done|eapply decided_evolves; [apply M|apply Z.le_refl|exact D]].
      symmetry. eapply scanned_prefix; [exact Hsn| |done]. destruct D as [->|[D _]]; lia. }
  split; [done|]. split; [done|]. split; [congruence|]. split; [unfold self; congruence|]. split; [done|].
  split; [unfold hard_state; congruence|]. intros hs Hhs. unfold vote_link in *. rewrite E2, E4. rewrite (tk_term _ _ _ Ht) in A2.
  destruct sc; symmetry in A2; bool_to_prop.
  - unfold hard_state. cbn. rewrite HT3. split; [done|]. left. rewrite F10, B6. split; [by apply A9|]. apply (uncast_above C); [done|lia].
  - assert (E : m_Term msg = s_term s (self c)) by lia. by rewrite E.
Qed.

(** A message of the leader whose log is [h] that fits the node's log. *)
Record fitting (s : sys) (c : Core) (msg : Message) (h : list Entry) : Prop := {
  ft_prev : 0 ≤ m_PrevLogIndex msg;
  ft_led : led s (m_Term msg) h;
  ft_len : (Z.to_nat (m_PrevLogIndex msg) + length (m_Entries msg) ≤ length h)%nat;
  ft_entries : m_Entries msg = take (length (m_Entries msg)) (drop (Z.to_nat (m_PrevLogIndex msg)) h);
  ft_bound : zlen h + 1 < 2 ^ 64;
  ft_commit : decided C s (m_Term msg) h (Z.to_nat (m_LeaderCommit msg));
  ft_log : (Z.to_nat (m_PrevLogIndex msg) ≤ length (s_log s (self c)))%nat;
  ft_match : take (Z.to_nat (m_PrevLogIndex msg)) (s_log s (self c)) = take (Z.to_nat (m_PrevLogIndex msg)) h
}.

(** Neither the scan nor the configuration it leaves can fail. *)
Lemma fitting_scan s c c1 o1 sc msg h (m := (Z.to_nat (m_PrevLogIndex msg) + length (m_Entries msg))%nat) :
  inv C s → tracks C s c → accepting s c c1 o1 sc msg → fitting s c msg h →
  ∃ c2 tf new L1 x, append_scan c1 (m_PrevLogIndex msg + 1)%u64 (m_Entries msg) = Ok (c2, tf, new) ∧
    scanned c1 (s_log s (self c)) h m c2 tf new L1 ∧
    take (Z.to_nat (c_commitIndex c1)) (s_log s (self c)) = take (Z.to_nat (c_commitIndex c1)) h ∧
    reconfigure (c2 <| c_log := c_log c2 ++ new |>) tf new =
      Ok (c2 <| c_log := c_log c2 ++ new |> <| c_activeConfig := C |> <| c_activeConfigIndex := x |>).
Proof.
  intros Hi Ht [A1 A2 A3 A4 A5 A6 A7 A8 A9 A10] [Hp0 Hled Hlen Hes Hb Hlc Hpl Hpre].
  set (L := s_log s (self c)) in *. set (prev := Z.to_nat (m_PrevLogIndex msg)) in *.
  assert (Hprev : m_PrevLogIndex msg = Z.of_nat prev) by (unfold prev; lia).
  assert (Hself1 : self c1 = self c) by (unfold self; by rewrite (sl_cfg _ _ A4)).
  pose proof Hled as [j Hj]. destruct (i_led _ _ Hi _ _ _ Hj) as (_ & Hrh & _).
  assert (Hlog1 : c_log c1 = sentinel :: L) by (rewrite (tk_log _ _ _ A3), Hself1; done).
  assert (Hc : take (Z.to_nat (c_commitIndex c1)) L = take (Z.to_nat (c_commitIndex c1)) h).
  { pose proof (tk_commit _ _ _ A3) as [_ D]. rewrite Hself1, A6 in D. eapply (decided_leader C s HC Hi); [exact D|exact Hled]. }
  destruct (scan_spec s c1 L h (m_Entries msg) prev (s_term s (self c)) (m_Term msg)) as (c2 & tf & new & L1 & Hscan & Hsn);
    [apply (i_log C s Hi)|done|apply A3|done|done|done|done|done|done|unfold zlen in *; lia|].
  destruct (scanned_core _ _ _ _ _ _ _ _ Hsn Hlog1 A7) as (B1 & _ & B3 & _).
  destruct (reconfigure_plain (c2 <| c_log := c_log c2 ++ new |>) tf new (L1 ++ new)) as [x Hx].
  { cbn. by rewrite B1. }
  { destruct (accept_moves s (self c) (m_Term msg) h c1 L m c2 tf new L1) as (s' & M & E1 & _); [done..|].
    rewrite <- E1. eapply (rooted_numbered C s'); [apply M|]. apply (i_log C s'), M. }
  { intros e He. apply elem_of_app. by right. }
  { cbn. rewrite <- (tk_nosnap _ _ _ A3). apply (sl_hasConfig _ _ B3). }
  { cbn. rewrite <- (tk_boot _ _ _ A3). apply (sl_bootstrap _ _ B3). }
  { cbn. rewrite <- (tk_active _ _ _ A3). apply (sl_active _ _ B3). }
  exists c2, tf, new, L1, x. split; [|done]. rewrite Hprev, u64_small by (unfold is_u64, zlen in *; lia). done.
Qed.

(** Once the previous entry matched: the log, the disk and the reply. *)
Lemma accepted_step s c c1 o1 sc msg h c' out :
  inv C s → tracks C s c → accepting s c c1 o1 sc msg → fitting s c msg h →
  ('(c2, tf, new) ← append_scan c1 (m_PrevLogIndex msg + 1)%u64 (m_Entries msg);
   c3 ← reconfigure (c2 <| c_log := c_log c2 ++ new |>) tf new;
   append_finish c3 msg o1 sc tf new) = Ok (c', out) →
  protocol_step C s c c' out.
Proof.
  intros Hi Ht Hac Hfit. destruct (fitting_scan s c c1 o1 sc msg h Hi Ht Hac Hfit) as (c2 & tf & new & L1 & x & Hscan & Hsn & Hc & Hx).
  rewrite Hscan. cbn [mbind result_bind].
  pose proof Hac as [A1 A2 A3 A4 A5 A6 A7 A8 A9 (O1 & O2 & O3)]. pose proof Hfit as [Hp0 Hled Hlen Hes Hb Hlc Hpl Hpre].
  set (L := s_log s (self c)) in *. set (m := (Z.to_nat (m_PrevLogIndex msg) + length (m_Entries msg))%nat) in *.
  rewrite Hx. cbn [mbind result_bind]. clear Hx.
  destruct (accepted_tracks s c c1 o1 sc msg h L m c2 tf new L1 x) as (s' & M & T3 & G1 & G2 & G3 & G4 & G5 & G6 & G7); [done..|].
  set (c3 := c2 <| c_log := _ |> <| c_activeConfig := C |> <| c_activeConfigIndex := x |>) in *. clearbody c3. intros Hfin.
  assert (Hm : Z.to_nat (m_PrevLogIndex msg + zlen (m_Entries msg)) = m) by (unfold m, zlen in *; lia).
  apply (append_finish_ok s') in Hfin as (K1 & K2 & K3); [|apply M|done|done|done|done|done|unfold zlen; lia|by rewrite Hm, G4, G5|].
  2: { rewrite G4, G5, G1. set (n := Z.to_nat (Z.min _ _)). assert (Hn : (n ≤ m)%nat ∧ (n ≤ Z.to_nat (m_LeaderCommit msg))%nat) by (unfold n; lia).
       eapply (decided_take C s' _ h _ _ m); [symmetry; apply (sn_all _ _ _ _ _ _ _ _ Hsn)|apply Hn|].
       eapply decided_le; [apply Hn|]. eapply decided_evolves; [apply M|apply Z.le_refl|exact Hlc]. }
  split.
  - exists s'. constructor; [done|congruence|done| |].
    + destruct (out_PersistRequest out); [apply K3|apply K3].
    + intros hs Hhs. apply G7 in Hhs. destruct (out_PersistRequest out) as [pr|].
      * destruct K3 as [[seq ->] _]. cbn. by destruct sc.
      * destruct K3 as (-> & _). exact Hhs.
  - destruct (out_PersistRequest out) as [pr|] eqn:Epr; [|by apply survivable_none]. destruct K3 as ([seq ->] & _ & K4 & K5).
    by eapply (accept_survivable s c c1 (if sc then Some (hard_state c3) else None) (m_Term msg) h L m c2 tf new L1 out seq).
Qed.

(** The opening of the handler, up to the check of the previous entry. *)
Lemma append_request_opening intn s c msg c1 o1 sc :
  inv C s → tracks C s c → c_pending c = [] → m_Type msg = MsgAppendEntriesRequest → fact C s msg →
  s_cap s < 2 ^ 63 → c_currentTerm c ≤ m_Term msg → accept_leader intn c msg no_output = (c1, o1, sc) →
  accepting s c c1 o1 sc msg ∧ 0 ≤ m_PrevLogIndex msg ∧ ∃ h,
    (lastIndex c1 <? m_PrevLogIndex msg) || negb (termAt c1 (m_PrevLogIndex msg) =? m_PrevLogTerm msg) = false → fitting s c msg h.
Proof.
  intros Hi Ht Hp HT [Hcap Hf] Hb Hle E. unfold says in Hf. rewrite HT in Hf.
  destruct Hf as (Hp0 & (h & Hled & Hlen & Hes & Hpt) & _ & h' & Hled' & Hlc). rewrite (led_unique s _ _ _ Hled' Hled) in Hlc.
  destruct (accept_leader_step intn s c msg c1 o1 sc Hi Ht Hle E) as (A1 & A2 & A3 & A4 & A5 & A6 & A7 & A8 & A9 & A10 & A11).
  rewrite (tk_term _ _ _ Ht) in Hle. split; [constructor; try done; congruence|]. split; [done|]. exists h. intros Eb.
  apply orb_false_iff in Eb as [E1 E2]. apply negb_false_iff in E2. bool_to_prop.
  assert (Hprev : m_PrevLogIndex msg = Z.of_nat (Z.to_nat (m_PrevLogIndex msg))) by lia.
  assert (Hself1 : self c1 = self c) by (unfold self; by rewrite (sl_cfg _ _ A2)).
  destruct (prev_match (observe s (self c) (m_Term msg)) c1 (m_Term msg) h (Z.to_nat (m_PrevLogIndex msg))) as [B1 B2];
    [by apply observe_inv|done|exact Hled|lia|lia|by rewrite <- Hprev, E2|].
  rewrite Hself1 in B1, B2. pose proof (i_short C s Hi _ _ Hled). constructor; [done|done|done|done|lia|done|exact B1|exact B2].
Qed.

Lemma append_request_step intn s c msg c' out :
  inv C s → tracks C s c → c_pending c = [] → m_Type msg = MsgAppendEntriesRequest → fact C s msg →
  s_cap s < 2 ^ 63 →
  handleAppendEntriesRequest intn c msg = Ok (c', out) → protocol_step C s c c' out.
Proof.
  intros Hi Ht Hp HT Hf Hb. unfold handleAppendEntriesRequest. cbv zeta.
  destruct (Z.ltb_spec (m_Term msg) (c_currentTerm c)) as [|Hle].
  { intros [= <- <-]. apply protocol_same; [done|done| |done|done]. apply ok_send; [|by apply ok_none]. split; [by apply (tracks_low C s)|by cbn]. }
  destruct (accept_leader intn c msg no_output) as [[c1 o1] sc] eqn:E.
  destruct (append_request_opening intn s c msg c1 o1 sc Hi Ht Hp HT Hf Hb Hle E) as (Hac & Hp0 & h & Hfit).
  pose proof Hac as [A1 A2 A3 A4 A5 A6 A7 A8 A9 (O1 & O2 & O3)].
  rewrite (tk_snap _ _ _ A3), (proj2 (Z.ltb_ge (m_PrevLogIndex msg) 0)) by lia.
  destruct (_ || _) eqn:Eb.
  - destruct (conflictHint c1 (m_PrevLogIndex msg)) as [ci ct]. intros H%Ok_inj. rewrite <- A6 in *.
    destruct Hf as [Hcap _]. rewrite <- A6 in Hcap.
    eapply (nack_step s c c1 o1 sc); try done; [exact Hcap|by cbn].
  - apply (accepted_step s c c1 o1 sc msg h); [done|done|done|by apply Hfit].
Qed.

(** ** Every input *)

(** An input whose message, if any, is a fact addressed to this node, and
    for which there is room. *)
Definition sound_input (s : sys) (c : Core) (i : Input) : Prop :=
  s_cap s < 2 ^ 63 ∧
  match i with
  | InputElectionTimeout => c_currentTerm c < s_cap s
  | InputPropose _ => lastIndex c < s_cap s
  | InputMessage msg => fact C s msg ∧ m_To msg = self c
  | InputHeartbeatTimeout => True
  | InputPersistenceComplete _ => False
  end.

Lemma Step_protocol intn s c i c' out :
  inv C s → tracks C s c → core_wf c → c_pending c = [] → sound_input s c i → Step intn c i = Ok (c', out) → protocol_step C s c c' out.
Proof.
  intros Hi Ht Hwf Hp [Hcap Hs] H. destruct i as [| |msg|data|seq]; cbn [Step] in *.
  - by eapply election_timeout_step.
  - by eapply heartbeat_step.
  - destruct Hs as (Hf & Hto). unfold handleMessage in H. destruct (m_Type msg) eqn:T.
    + apply Ok_inj in H. by eapply vote_request_step.
    + by eapply vote_response_step.
    + by eapply append_request_step.
    + by eapply append_response_step.
    + destruct Hf as [_ Hf]. unfold says in Hf. by rewrite T in Hf.
    + destruct Hf as [_ Hf]. unfold says in Hf. by rewrite T in Hf.
  - by eapply propose_step.
  - done.
Qed.

(** ** No step fails *)

Lemma sound_input_ok s c i : inv C s → tracks C s c → sound_input s c i → input_ok c i.
Proof.
  intros Hi Ht [Hcap Hs]. destruct i as [| |msg|data|seq]; cbn; [| |..|lia|done].
  - split; [|lia]. rewrite (tk_term _ _ _ Ht). apply (i_term C s Hi).
  - done.
  - destruct Hs as ([_ Hf] & _). unfold msg_ok, says in *. destruct (m_Type msg); try done.
    destruct Hf as (Hp & (h & Hled & Hlen & Hes & _) & _). pose proof (i_short C s Hi _ _ Hled) as Hb. unfold zlen in Hb. split; [done|]. split.
    + intros k e He. rewrite Hes in He. apply lookup_take_Some in He as [He _]. rewrite lookup_drop in He.
      destruct Hled as [j Hj]. destruct (i_led _ _ Hi _ _ _ Hj) as (_ & _ & Hn & _). apply Hn in He as [He _]. lia.
    + right. unfold zlen. lia.
Qed.

(** A failure that is not a report of another node breaking the protocol. *)
Definition own {A} (r : result raft_panic A) : Prop := ∀ p, r = Err p → ¬ protocol_panic p.

Lemma own_ok {A} (a : A) : own (Ok a).
Proof. by intros p. Qed.

Lemma own_bind {A B} (r : result raft_panic A) (f : A → result raft_panic B) : own r → (∀ a, own (f a)) → own (r ≫= f).
Proof. intros H1 H2. destruct r as [a|e]; [apply H2|]. intros p [= <-]. by apply H1. Qed.

Lemma own_map_write {A} (m : option (gmap bytes A)) k v : own (map_write m k v).
Proof. intros p. unfold map_write. destruct m; [done|]. intros [= <-]. unfold protocol_panic. naive_solver. Qed.

Lemma own_log_slice c a b : own (log_slice c a b).
Proof. intros p. unfold log_slice. case_if; [|done]. intros [= <-]. unfold protocol_panic. naive_solver. Qed.
End append.

Create HintDb own discriminated.
#[export] Hint Resolve own_ok own_map_write own_log_slice : own.

(** Splits a handler into its branches and calls. *)
Ltac own_step :=
  match goal with
  | |- own (let '(_, _) := ?x in _) => destruct x
  | |- own (_ ≫= _) => apply own_bind; [|intros ?]
  | |- own (if ?b then _ else _) => destruct b
  | |- own (match ?x with _ => _ end) => destruct x
  end; cbv zeta; auto with own.
Ltac own_solve := cbv zeta; auto with own; repeat own_step.

Lemma own_appendEntriesMessage c peer : own (appendEntriesMessage c peer).
Proof. unfold appendEntriesMessage. own_solve. Qed.
#[export] Hint Resolve own_appendEntriesMessage : own.

Lemma own_replicate_to skip ms c out : own (replicate_to skip ms c out).
Proof. revert c out. induction ms as [|m ms IH]; intros c out; cbn [replicate_to]; own_solve. Qed.
#[export] Hint Resolve own_replicate_to : own.

Lemma own_broadcast c out : own (broadcast c out).
Proof. unfold broadcast. own_solve. Qed.
#[export] Hint Resolve own_broadcast : own.

Lemma own_becomeLeader c out : own (becomeLeader c out).
Proof. unfold becomeLeader. own_solve. Qed.
#[export] Hint Resolve own_becomeLeader : own.

Lemma own_advanceFollowerCommit c n out : own (advanceFollowerCommit c n out).
Proof. unfold advanceFollowerCommit, commit_slice. own_solve. Qed.
#[export] Hint Resolve own_advanceFollowerCommit : own.

Lemma own_advance_loop fuel c n out : own (advance_loop fuel c n out).
Proof. revert n. induction fuel as [|fuel IH]; intros n; cbn [advance_loop]; unfold commit_slice; own_solve. Qed.
#[export] Hint Resolve own_advance_loop : own.

Lemma own_note_match c from m : own (note_match c from m).
Proof. unfold note_match. own_solve. Qed.
#[export] Hint Resolve own_note_match : own.

Lemma own_acknowledged c from m :
  own (c1 ← note_match c from m; '(c2, out) ← advanceLeaderCommit c1 no_output; continue_replication c2 from out).
Proof. unfold advanceLeaderCommit, continue_replication. own_solve. Qed.
#[export] Hint Resolve own_acknowledged : own.

Lemma own_append_finish c msg out sc tf new : own (append_finish c msg out sc tf new).
Proof. unfold append_finish. own_solve. Qed.

Section total.
Context (C : Configuration) (HC : NoDup (m_ID <$> Voters C)) (HL : Learners C = []) (Hnv : noVote ∉ voter_ids C).

Lemma own_append_request intn s c msg :
  inv C s → tracks C s c → c_pending c = [] → m_Type msg = MsgAppendEntriesRequest → fact C s msg →
  s_cap s < 2 ^ 63 → own (handleAppendEntriesRequest intn c msg).
Proof.
  intros Hi Ht Hp HT Hf Hb. unfold handleAppendEntriesRequest. cbv zeta.
  destruct (Z.ltb_spec (m_Term msg) (c_currentTerm c)) as [|Hle]; [apply own_ok|].
  destruct (accept_leader intn c msg no_output) as [[c1 o1] sc] eqn:E.
  destruct (append_request_opening C intn s c msg c1 o1 sc Hi Ht Hp HT Hf Hb Hle E) as (Hac & _ & h & Hfit).
  destruct (m_PrevLogIndex msg <? c_snapshotIndex c1); [apply own_ok|].
  destruct (_ || _) eqn:Eb; [destruct (conflictHint _ _); apply own_ok|].
  destruct (fitting_scan C HC s c c1 o1 sc msg h Hi Ht Hac (Hfit eq_refl)) as (c2 & tf & new & L1 & x & Hscan & _ & _ & Hx).
  rewrite Hscan. cbn [mbind result_bind]. unfold reconfigure in Hx. rewrite Hx. cbn [mbind result_bind]. apply own_append_finish.
Qed.

Lemma own_Step intn s c i :
  inv C s → tracks C s c → c_pending c = [] → sound_input C s c i → own (Step intn c i).
Proof.
  intros Hi Ht Hp [Hcap Hs]. destruct i as [| |msg|data|seq]; cbn [Step] in *.
  - unfold handleElectionTimeout. own_solve.
  - unfold handleHeartbeatTimeout. own_solve.
  - destruct Hs as (Hf & _). unfold handleMessage. destruct (m_Type msg) eqn:T; [apply own_ok| | | | |].
    + unfold handleRequestVoteResponse. own_solve.
    + by eapply own_append_request.
    + unfold handleAppendEntriesResponse. own_solve.
    + destruct Hf as [_ Hf]. unfold says in Hf. by rewrite T in Hf.
    + destruct Hf as [_ Hf]. unfold says in Hf. by rewrite T in Hf.
  - unfold handlePropose, appendLeaderEntry. rewrite (bool_decide_false (EntryNormal = EntryConfig)) by done. own_solve.
  - done.
Qed.

Lemma sound_installs s c i : sound_input C s c i → installs c i = None.
Proof.
  intros [_ Hs]. destruct i as [| |msg|data|seq]; try done. destruct Hs as [[_ Hs] _]. unfold says in Hs. cbn.
  by destruct (m_Type msg).
Qed.

(** A step succeeds, keeps the core well formed, asks to persist what it
    changed, and is an event. *)
Lemma Step_total intn s c i :
  inv C s → tracks C s c → core_wf c → c_pending c = [] → sound_input C s c i →
  ∃ c' out, Step intn c i = Ok (c', out) ∧ step_post c (c', out) ∧ step_asks c (c', out) ∧ protocol_step C s c c' out.
Proof.
  intros Hi Ht Hwf Hp Hs. pose proof (sound_input_ok C s c i Hi Ht Hs) as Hok. pose proof (sound_installs s c i Hs) as Hin.
  pose proof (Step_result intn c i Hwf Hok) as Hr.
  pose proof (own_Step intn s c i Hi Ht Hp Hs) as Ho. destruct (Step intn c i) as [[c' out]|p] eqn:E; [|by apply (Ho p) in Hr].
  cbn [safe] in Hr. unfold step_result in Hr. rewrite Hin in Hr. exists c', out.
  split; [done|]. split; [done|]. split; [by eapply Step_asks|by eapply Step_protocol].
Qed.

(** The acknowledgement that follows a durable write. *)
Lemma persisted_total s c seq :
  inv C s → tracks C s c → core_wf c → Forall (λ p, due C s c p ∧ p_seq p ≤ seq) (c_pending c) →
  ∃ c' out, handlePersistenceComplete c seq = Ok (c', out) ∧ step_post c (c', out) ∧ ok C s c' out ∧ c_pending c' = [] ∧
    calm c no_output c' out.
Proof.
  intros Hi Ht Hwf Hp. destruct (handlePersistenceComplete_post c seq Hwf) as ([c' out] & E & Hpost).
  exists c', out. split; [done|]. split; [done|]. destruct (persisted_ok C HC s Hi c seq c' out Ht Hp E) as [H1 H2].
  split; [done|]. split; [done|]. by apply (handlePersistenceComplete_calm c seq).
Qed.
End total.
