(* ===== verification/Fault.v ===== *)
(** * The deterministic cluster simulator ([internal/fault])

    Whole clusters of cores, each with its disk and its timers, over a network
    that the caller controls: it may delay, drop, duplicate, reorder and
    partition, nodes may crash and restart and their disks may fail.  The
    random source ([rand.go]) is a parameter: a state type [R] with the
    function of [Intn] on it, and the state of each seed.

    A Go panic is an [Err].  The loop of [DeliverEligible] is bounded by fuel
    and returns the cluster it reached together with the count, or without it
    when the fuel was spent. *)

From Stdlib Require Import String.
From S2P Require Import Prelude Bytes GoSort RaftTypes RaftMembership RaftCore Storage.

Inductive fault_panic :=
| PanicCore (p : raft_panic)
| PanicStorage (e : storage_error)
| PanicNewCore
| PanicNilCore
| PanicNilNode
| PanicNoNodes
| PanicRecursion.

Definition on_core {A} (r : result raft_panic A) : result fault_panic A :=
  match r with Ok a => Ok a | Err p => Err (PanicCore p) end.

(** ** The network ([transport.go]) *)

Record PendingMessage := mkPendingMessage {
  pm_ID : Z;
  pm_Message : Message;
  pm_ReadyAtTick : Z
}.

(** [t_isolated] and [t_blocked] are the keys of maps whose values are all
    true. *)
Record Transport := mkTransport {
  t_nextID : Z;
  t_pending : gmap Z PendingMessage;
  t_order : list Z;
  t_isolated : gset NodeID;
  t_blocked : gset (NodeID * NodeID);
  t_tick : Z
}.

#[export] Instance Transport_eta : Eta Transport := λ t,
  mkTransport (t_nextID t) (t_pending t) (t_order t) (t_isolated t) (t_blocked t) (t_tick t).
#[export] Instance set_t_nextID : Setter t_nextID.
Proof. derive_setter. Defined.
#[export] Instance set_t_pending : Setter t_pending.
Proof. derive_setter. Defined.
#[export] Instance set_t_order : Setter t_order.
Proof. derive_setter. Defined.
#[export] Instance set_t_isolated : Setter t_isolated.
Proof. derive_setter. Defined.
#[export] Instance set_t_blocked : Setter t_blocked.
Proof. derive_setter. Defined.
#[export] Instance set_t_tick : Setter t_tick.
Proof. derive_setter. Defined.

Definition NewTransport : Transport := mkTransport 0 ∅ [] ∅ ∅ 0.

Definition advanceTick (tick : Z) (t : Transport) : Transport := t <| t_tick := tick |>.

Definition Send (msg : Message) (t : Transport) : Transport * Z :=
  let id := (t_nextID t + 1)%u64 in
  (t <| t_nextID := id |>
     <| t_pending := <[id := mkPendingMessage id msg 0]> (t_pending t) |>
     <| t_order := t_order t ++ [id] |>, id).

Definition reachableLocked (t : Transport) (from to : NodeID) : bool :=
  if bool_decide (from = to) then true
  else if bool_decide (from ∈ t_isolated t) || bool_decide (to ∈ t_isolated t) then false
  else negb (bool_decide ((from, to) ∈ t_blocked t)).

Definition Pending (t : Transport) : list PendingMessage := omap (λ id, t_pending t !! id) (t_order t).

Definition Take (id : Z) (t : Transport) : Transport * option Message :=
  match t_pending t !! id with
  | None => (t, None)
  | Some pm => (t <| t_pending := delete id (t_pending t) |>, Some (pm_Message pm))
  end.

Definition eligible (t : Transport) (pm : PendingMessage) : bool :=
  negb (t_tick t <? pm_ReadyAtTick pm) && reachableLocked t (m_From (pm_Message pm)) (m_To (pm_Message pm)).

(** The loop over the order: what is taken, what stays queued and in which
    order. *)
Fixpoint take_loop (ids : list Z) (t : Transport) : Transport * list Message * list Z :=
  match ids with
  | [] => (t, [], [])
  | id :: ids =>
      match t_pending t !! id with
      | None => take_loop ids t
      | Some pm =>
          if negb (eligible t pm) then
            let '(t, out, remaining) := take_loop ids t in (t, out, id :: remaining)
          else
            let '(t, out, remaining) := take_loop ids (t <| t_pending := delete id (t_pending t) |>) in
            (t, pm_Message pm :: out, remaining)
      end
  end.

Definition TakeEligible (t : Transport) : Transport * list Message :=
  let '(t, out, remaining) := take_loop (t_order t) t in (t <| t_order := remaining |>, out).

Definition Drop (id : Z) (t : Transport) : Transport * bool :=
  let '(t, m) := Take id t in (t, bool_decide (is_Some m)).

Definition Duplicate (id : Z) (t : Transport) : Transport * option Z :=
  match t_pending t !! id with
  | None => (t, None)
  | Some pm => let '(t, id) := Send (pm_Message pm) t in (t, Some id)
  end.

Definition Delay (id readyAtTick : Z) (t : Transport) : Transport * bool :=
  match t_pending t !! id with
  | None => (t, false)
  | Some pm => (t <| t_pending := <[id := mkPendingMessage (pm_ID pm) (pm_Message pm) readyAtTick]> (t_pending t) |>, true)
  end.

Definition IsolateNode (id : NodeID) (t : Transport) : Transport := t <| t_isolated := {[id]} ∪ t_isolated t |>.
Definition HealNode (id : NodeID) (t : Transport) : Transport := t <| t_isolated := t_isolated t ∖ {[id]} |>.
Definition IsolateLink (from to : NodeID) (t : Transport) : Transport := t <| t_blocked := {[(from, to)]} ∪ t_blocked t |>.
Definition HealLink (from to : NodeID) (t : Transport) : Transport := t <| t_blocked := t_blocked t ∖ {[(from, to)]} |>.

Definition Partition (groupA groupB : list NodeID) (t : Transport) : Transport :=
  foldl (λ t a, foldl (λ t b, IsolateLink b a (IsolateLink a b t)) t groupB) t groupA.

Definition HealAll (t : Transport) : Transport := t <| t_isolated := ∅ |> <| t_blocked := ∅ |>.

(** ** One node ([node.go]) *)

Record FNode := mkFNode {
  fn_id : NodeID;
  fn_cfg : Config;
  fn_storage : MemoryStorage;
  fn_core : option Core;
  fn_electionArmed : bool;
  fn_electionTicksLeft : Z;
  fn_heartbeatArmed : bool;
  fn_heartbeatTicksLeft : Z;
  fn_outbox : list Message;
  fn_committed : list Entry;
  fn_crashed : bool;
  fn_failed : bool;
  fn_failErr : option storage_error
}.

#[export] Instance FNode_eta : Eta FNode := λ n,
  mkFNode (fn_id n) (fn_cfg n) (fn_storage n) (fn_core n) (fn_electionArmed n) (fn_electionTicksLeft n)
    (fn_heartbeatArmed n) (fn_heartbeatTicksLeft n) (fn_outbox n) (fn_committed n) (fn_crashed n) (fn_failed n)
    (fn_failErr n).
#[export] Instance set_fn_storage : Setter fn_storage.
Proof. derive_setter. Defined.
#[export] Instance set_fn_core : Setter fn_core.
Proof. derive_setter. Defined.
#[export] Instance set_fn_electionArmed : Setter fn_electionArmed.
Proof. derive_setter. Defined.
#[export] Instance set_fn_electionTicksLeft : Setter fn_electionTicksLeft.
Proof. derive_setter. Defined.
#[export] Instance set_fn_heartbeatArmed : Setter fn_heartbeatArmed.
Proof. derive_setter. Defined.
#[export] Instance set_fn_heartbeatTicksLeft : Setter fn_heartbeatTicksLeft.
Proof. derive_setter. Defined.
#[export] Instance set_fn_outbox : Setter fn_outbox.
Proof. derive_setter. Defined.
#[export] Instance set_fn_committed : Setter fn_committed.
Proof. derive_setter. Defined.
#[export] Instance set_fn_crashed : Setter fn_crashed.
Proof. derive_setter. Defined.
#[export] Instance set_fn_failed : Setter fn_failed.
Proof. derive_setter. Defined.
#[export] Instance set_fn_failErr : Setter fn_failErr.
Proof. derive_setter. Defined.

Definition Crashed (n : FNode) : bool := fn_crashed n || fn_failed n.

Definition fn_Crash (n : FNode) : FNode :=
  n <| fn_crashed := true |> <| fn_failed := false |> <| fn_failErr := None |> <| fn_core := None |>
    <| fn_outbox := [] |> <| fn_electionArmed := false |> <| fn_heartbeatArmed := false |>.

Definition DrainOutbox (n : FNode) : FNode * list Message := (n <| fn_outbox := [] |>, fn_outbox n).

(** [n.core.SetApplied] of the last committed entry. *)
Definition note_applied (n : FNode) (committed : list Entry) : result fault_panic FNode :=
  match last committed with
  | None => Ok n
  | Some e =>
      match fn_core n with
      | None => Err PanicNilCore
      | Some c => Ok (n <| fn_committed := fn_committed n ++ committed |> <| fn_core := Some (SetApplied c (e_Index e)) |>)
      end
  end.

(** The timers, messages and commits of an output, before its disk write. *)
Definition absorb (n : FNode) (out : Output) : result fault_panic FNode :=
  let n := if out_ResetElectionTimer out
           then n <| fn_electionArmed := true |> <| fn_electionTicksLeft := out_ElectionTimeoutTicks out |> else n in
  let n := if out_ResetHeartbeatTimer out
           then n <| fn_heartbeatArmed := true |> <| fn_heartbeatTicksLeft := out_HeartbeatTimeoutTicks out |> else n in
  let n := n <| fn_outbox := fn_outbox n ++ out_Messages out |> in
  note_applied n (out_CommittedEntries out).

Section random.
Context {R : Type} (Intn : R → Z → Z * R).

(** [cfg.electionTimeout()], which draws from the source. *)
Definition NewElectionTimeout (cfg : Config) (r : R) : Z * R :=
  if cfg_ElectionTimeoutJitterTicks cfg =? 0 then (electionTimeout cfg (λ _, 0), r)
  else (electionTimeout cfg (λ n, (Intn r n).1), (Intn r (cfg_ElectionTimeoutJitterTicks cfg + 1)).2).

(** A step of the core draws once if it resets the election timer. *)
Definition core_step (c : Core) (i : Input) (r : R) : result fault_panic (Core * Output * R) :=
  '(c', out) ← on_core (Step (λ n, (Intn r n).1) c i);
  Ok (c', out, if out_ResetElectionTimer out then (NewElectionTimeout (c_cfg c) r).2 else r).

Definition armInitialElectionTimer (n : FNode) (c : Core) (r : R) : FNode * R :=
  let '(ticks, r) := NewElectionTimeout (c_cfg c) r in
  (n <| fn_electionArmed := true |> <| fn_electionTicksLeft := ticks |> <| fn_heartbeatArmed := false |>, r).

Definition startFresh (n : FNode) (r : R) : result fault_panic (FNode * R) :=
  match NewCore (fn_cfg n) (mkHardState 0 noVote) [] with
  | Err _ => Err PanicNewCore
  | Ok c => Ok (armInitialElectionTimer (n <| fn_core := Some c |>) c r)
  end.

Definition newNode (cfg : Config) (r : R) : result fault_panic (FNode * R) :=
  startFresh (mkFNode (cfg_ID cfg) cfg NewMemoryStorage None false 0 false 0 [] [] false false None) r.

Definition fn_Restart (n : FNode) (r : R) : result fault_panic (FNode * R) :=
  let hs := InitialState (fn_storage n) in
  let last := LastIndex (fn_storage n) in
  let entries := StEntries (fn_storage n) 1 (last + 1)%u64 in
  match NewCore (fn_cfg n) hs entries with
  | Err _ => Err PanicNewCore
  | Ok c =>
      Ok (armInitialElectionTimer (n <| fn_core := Some c |> <| fn_crashed := false |> <| fn_failed := false |>
            <| fn_failErr := None |>) c r)
  end.

(** The disk write of an output: the error that stopped the node, or the
    sequence number the core hears about. *)
Definition persist (n : FNode) (pr : PersistRequest) : result fault_panic (FNode * bool) :=
  let '(st, res) := ApplyPersistRequest (Some pr) (fn_storage n) in
  let n := n <| fn_storage := st |> in
  match res with
  | Ok _ => Ok (n, true)
  | Err PanicSliceBounds => Err (PanicStorage PanicSliceBounds)
  | Err e => Ok (n <| fn_failed := true |> <| fn_failErr := Some e |>, false)
  end.

Fixpoint apply_output (fuel : nat) (n : FNode) (out : Output) (r : R) : result fault_panic (FNode * R) :=
  match fuel with
  | O => Err PanicRecursion
  | S fuel =>
      n ← absorb n out;
      match out_PersistRequest out with
      | None => Ok (n, r)
      | Some pr =>
          '(n, ok) ← persist n pr;
          if negb ok then Ok (n, r) else
          match fn_core n with
          | None => Err PanicNilCore
          | Some c =>
              '(c, ack, r) ← core_step c (InputPersistenceComplete (pr_Seq pr)) r;
              apply_output fuel (n <| fn_core := Some c |>) ack r
          end
      end
  end.

(** The acknowledgement of a durable write asks for nothing more, so that the
    recursion is two deep. *)
Definition applyOutput : FNode → Output → R → result fault_panic (FNode * R) := apply_output 2.

Definition fn_Step (n : FNode) (i : Input) (r : R) : result fault_panic (FNode * R) :=
  if Crashed n then Ok (n, r) else
  match fn_core n with
  | None => Err PanicNilCore
  | Some c =>
      '(c, out, r) ← core_step c i r;
      applyOutput (n <| fn_core := Some c |>) out r
  end.

Definition election_tick (n : FNode) (r : R) : result fault_panic (FNode * R) :=
  if negb (fn_electionArmed n) then Ok (n, r) else
  let n := n <| fn_electionTicksLeft := fn_electionTicksLeft n - 1 |> in
  if 0 <? fn_electionTicksLeft n then Ok (n, r)
  else fn_Step (n <| fn_electionArmed := false |>) InputElectionTimeout r.

Definition heartbeat_tick (n : FNode) (r : R) : result fault_panic (FNode * R) :=
  if negb (fn_heartbeatArmed n) then Ok (n, r) else
  let n := n <| fn_heartbeatTicksLeft := fn_heartbeatTicksLeft n - 1 |> in
  if 0 <? fn_heartbeatTicksLeft n then Ok (n, r)
  else fn_Step (n <| fn_heartbeatArmed := false |>) InputHeartbeatTimeout r.

Definition fn_Tick (n : FNode) (r : R) : result fault_panic (FNode * R) :=
  if Crashed n then Ok (n, r) else
  '(n, r) ← election_tick n r; heartbeat_tick n r.
End random.

(** ** The cluster ([cluster.go]) *)

Record ClusterOptions := mkClusterOptions {
  co_ElectionTimeoutTicks : Z;
  co_ElectionTimeoutJitterTicks : Z;
  co_HeartbeatTimeoutTicks : Z;
  co_Seed : Z
}.

Definition setDefaults (o : ClusterOptions) : ClusterOptions :=
  mkClusterOptions
    (if co_ElectionTimeoutTicks o <=? 0 then 10 else co_ElectionTimeoutTicks o)
    (if co_ElectionTimeoutJitterTicks o <? 0 then 0 else co_ElectionTimeoutJitterTicks o)
    (if co_HeartbeatTimeoutTicks o <=? 0 then 2 else co_HeartbeatTimeoutTicks o)
    (co_Seed o).

Inductive propose_error := NodeUnknownOrCrashed | ProposeRefused (e : membership_error).

(** [seed] is kept by the code for logging only. *)
Record Cluster {R : Type} := mkCluster {
  cl_nodes : gmap NodeID FNode;
  cl_order : list NodeID;
  cl_transport : Transport;
  cl_rnd : R;
  cl_tick : Z;
  cl_seed : Z
}.
Arguments Cluster : clear implicits.
Arguments mkCluster {R} _ _ _ _ _ _.

Section cluster.
Context {R : Type} (NewRand : Z → R) (Intn : R → Z → Z * R).

(** The cluster after a change of one node and of the network. *)
Definition put_node (cl : Cluster R) (id : NodeID) (n : FNode) (t : Transport) (r : R) : Cluster R :=
  mkCluster (<[id := n]> (cl_nodes cl)) (cl_order cl) t r (cl_tick cl) (cl_seed cl).

Definition with_transport (f : Transport → Transport) (cl : Cluster R) : Cluster R :=
  mkCluster (cl_nodes cl) (cl_order cl) (f (cl_transport cl)) (cl_rnd cl) (cl_tick cl) (cl_seed cl).

Definition voter_member (id : NodeID) : Member := mkMember id (id ++ str ":0"%string).

Definition bootstrap (peers : list NodeID) : Configuration := mkConfiguration (voter_member <$> peers) [].

Definition node_config (o : ClusterOptions) (boot : Configuration) (id : NodeID) : Config :=
  mkConfig id boot (co_ElectionTimeoutTicks o) (co_ElectionTimeoutJitterTicks o) (co_HeartbeatTimeoutTicks o) true.

Fixpoint new_nodes (o : ClusterOptions) (boot : Configuration) (ids : list NodeID) (nodes : gmap NodeID FNode) (r : R)
    : result fault_panic (gmap NodeID FNode * R) :=
  match ids with
  | [] => Ok (nodes, r)
  | id :: ids =>
      '(n, r) ← newNode Intn (node_config o boot id) r;
      new_nodes o boot ids (<[id := n]> nodes) r
  end.

Definition NewCluster (peers : list NodeID) (opts : ClusterOptions) : result fault_panic (Cluster R) :=
  let opts := setDefaults opts in
  '(nodes, r) ← new_nodes opts (bootstrap peers) peers ∅ (NewRand (co_Seed opts));
  Ok (mkCluster nodes (sort_strings peers) NewTransport r 0 (co_Seed opts)).

Definition AddNode (id : NodeID) (cl : Cluster R) : result fault_panic (Cluster R) :=
  match cl_order cl with
  | [] => Err PanicNoNodes
  | first :: _ =>
      match cl_nodes cl !! first with
      | None => Err PanicNilNode
      | Some base =>
          let cfg := mkConfig id no_config (cfg_ElectionTimeoutTicks (fn_cfg base))
                       (cfg_ElectionTimeoutJitterTicks (fn_cfg base)) (cfg_HeartbeatTimeoutTicks (fn_cfg base)) true in
          '(n, r) ← newNode Intn cfg (cl_rnd cl);
          Ok (mkCluster (<[id := n]> (cl_nodes cl)) (sort_strings (cl_order cl ++ [id])) (cl_transport cl) r
                (cl_tick cl) (cl_seed cl))
      end
  end.

Definition cl_Compact (id : NodeID) (uptoIndex : Z) (cl : Cluster R) : result fault_panic (Cluster R * bool) :=
  match cl_nodes cl !! id with
  | None => Ok (cl, false)
  | Some n =>
      if Crashed n then Ok (cl, false) else
      match fn_core n with
      | None => Err PanicNilCore
      | Some c =>
          '(c, b) ← on_core (Compact c uptoIndex);
          Ok (put_node cl id (n <| fn_core := Some c |>) (cl_transport cl) (cl_rnd cl), b)
      end
  end.

Definition send_all (ms : list Message) (t : Transport) : Transport := foldl (λ t m, (Send m t).1) t ms.

(** [flush], after which the node is back in the cluster. *)
Definition flush (cl : Cluster R) (id : NodeID) (n : FNode) (r : R) : Cluster R :=
  let '(n, ms) := DrainOutbox n in put_node cl id n (send_all ms (cl_transport cl)) r.

Fixpoint tick_nodes (ids : list NodeID) (cl : Cluster R) : result fault_panic (Cluster R) :=
  match ids with
  | [] => Ok cl
  | id :: ids =>
      match cl_nodes cl !! id with
      | None => Err PanicNilNode
      | Some n => '(n, r) ← fn_Tick Intn n (cl_rnd cl); tick_nodes ids (flush cl id n r)
      end
  end.

Definition Tick (cl : Cluster R) : result fault_panic (Cluster R) :=
  let tick := cl_tick cl + 1 in
  tick_nodes (cl_order cl)
    (mkCluster (cl_nodes cl) (cl_order cl) (advanceTick tick (cl_transport cl)) (cl_rnd cl) tick (cl_seed cl)).

Fixpoint AdvanceTicks (n : nat) (cl : Cluster R) : result fault_panic (Cluster R) :=
  match n with
  | O => Ok cl
  | S n => cl ← Tick cl; AdvanceTicks n cl
  end.

Definition step_node (id : NodeID) (n : FNode) (i : Input) (cl : Cluster R) : result fault_panic (Cluster R) :=
  '(n, r) ← fn_Step Intn n i (cl_rnd cl); Ok (flush cl id n r).

Definition deliverToNode (m : Message) (cl : Cluster R) : result fault_panic (Cluster R) :=
  match cl_nodes cl !! m_To m with
  | None => Ok cl
  | Some n => if Crashed n then Ok cl else step_node (m_To m) n (InputMessage m) cl
  end.

Fixpoint deliver_all (ms : list Message) (cl : Cluster R) : result fault_panic (Cluster R) :=
  match ms with
  | [] => Ok cl
  | m :: ms => cl ← deliverToNode m cl; deliver_all ms cl
  end.

Fixpoint DeliverEligible (fuel : nat) (delivered : Z) (cl : Cluster R) : result fault_panic (Cluster R * option Z) :=
  match fuel with
  | O => Ok (cl, None)
  | S fuel =>
      let '(t, ms) := TakeEligible (cl_transport cl) in
      let cl := with_transport (λ _, t) cl in
      if zlen ms =? 0 then Ok (cl, Some delivered) else
      cl ← deliver_all ms cl;
      DeliverEligible fuel (delivered + zlen ms) cl
  end.

Definition Deliver (id : Z) (cl : Cluster R) : result fault_panic (Cluster R * bool) :=
  match Take id (cl_transport cl) with
  | (_, None) => Ok (cl, false)
  | (t, Some m) => cl ← deliverToNode m (with_transport (λ _, t) cl); Ok (cl, true)
  end.

Definition Propose (leader : NodeID) (data : bytes) (cl : Cluster R) : result fault_panic (Cluster R) :=
  match cl_nodes cl !! leader with
  | None => Ok cl
  | Some n => step_node leader n (InputPropose data) cl
  end.

Definition cl_ProposeConfigChange (leader : NodeID) (kind : MembershipChangeKind) (requestID targetID targetAddr : bytes)
    (cl : Cluster R) : result fault_panic (Cluster R * result propose_error unit) :=
  match cl_nodes cl !! leader with
  | None => Ok (cl, Err NodeUnknownOrCrashed)
  | Some n =>
      if Crashed n then Ok (cl, Err NodeUnknownOrCrashed) else
      match fn_core n with
      | None => Err PanicNilCore
      | Some c =>
          '(c, res) ← on_core (ProposeConfigChange c kind requestID targetID targetAddr);
          match res with
          | Err e => Ok (put_node cl leader (n <| fn_core := Some c |>) (cl_transport cl) (cl_rnd cl), Err (ProposeRefused e))
          | Ok out =>
              '(n, r) ← applyOutput Intn (n <| fn_core := Some c |>) out (cl_rnd cl);
              Ok (flush cl leader n r, Ok tt)
          end
      end
  end.

Definition Crash (id : NodeID) (cl : Cluster R) : Cluster R :=
  match cl_nodes cl !! id with
  | None => cl
  | Some n => put_node cl id (fn_Crash n) (cl_transport cl) (cl_rnd cl)
  end.

Definition Restart (id : NodeID) (cl : Cluster R) : result fault_panic (Cluster R) :=
  match cl_nodes cl !! id with
  | None => Ok cl
  | Some n => '(n, r) ← fn_Restart Intn n (cl_rnd cl); Ok (put_node cl id n (cl_transport cl) r)
  end.

(** A change of one node's disk, as in [cl.Node(id).Storage().FailNextAppends(1)]. *)
Definition at_storage (id : NodeID) (f : MemoryStorage → MemoryStorage) (cl : Cluster R) : result fault_panic (Cluster R) :=
  match cl_nodes cl !! id with
  | None => Err PanicNilNode
  | Some n => Ok (put_node cl id (n <| fn_storage := f (fn_storage n) |>) (cl_transport cl) (cl_rnd cl))
  end.

Fixpoint leaders_of (ids : list NodeID) (cl : Cluster R) : result fault_panic (list NodeID) :=
  match ids with
  | [] => Ok []
  | id :: ids =>
      match cl_nodes cl !! id with
      | None => Err PanicNilNode
      | Some n =>
          if Crashed n then leaders_of ids cl else
          match fn_core n with
          | None => Err PanicNilCore
          | Some c => out ← leaders_of ids cl; Ok (if bool_decide (c_role c = Leader) then id :: out else out)
          end
      end
  end.

Definition Leaders (cl : Cluster R) : result fault_panic (list NodeID) := leaders_of (cl_order cl) cl.

(** [fuel] bounds each call of [DeliverEligible]; [None] when one of them did
    not finish within it. *)
Fixpoint SettleElection (fuel : nat) (maxRounds : nat) (cl : Cluster R) : result fault_panic (Cluster R * option bool) :=
  match maxRounds with
  | O => Ok (cl, Some false)
  | S maxRounds =>
      cl ← AdvanceTicks 1 cl;
      '(cl, d) ← DeliverEligible fuel 0 cl;
      match d with
      | None => Ok (cl, None)
      | Some _ =>
          ls ← Leaders cl;
          if zlen ls =? 1 then Ok (cl, Some true) else SettleElection fuel maxRounds cl
      end
  end.
End cluster.
