(* ===== verification/FaultInv.v ===== *)
(** * A simulated node follows the protocol

    [node_ok] relates one node of the simulator to the abstract history: its
    disk holds the node's term, vote and log, its running core tracks the
    history, what it sent is true and what it reported as committed is final.
    Every operation on the node keeps this, also when its disk fails while it
    truncates or appends, and none of them panics. *)

From stdpp Require Import functions.
From S2P Require Import Prelude Bytes RaftTypes RaftMembership RaftMembershipSpec RaftCore RaftInv RaftSpec Storage RaftPersist RaftDriver Protocol ProtocolCore ProtocolStep ProtocolAppend Fault.

(** ** The disk in memory *)

(** The entries once the truncation is done. *)
Definition cut_entries (pr : PersistRequest) (es : list Entry) : list Entry :=
  if pr_TruncateFrom pr =? 0 then es else take (Z.to_nat (pr_TruncateFrom pr - 1)) es.

Definition stored (st : MemoryStorage) (hs : HardState) (es : list Entry) : Prop :=
  ms_hs st = hs ∧ ms_entries st = es ∧ ms_failSetHardState st ≤ 0.

Lemma ms_truncate_stored st tf hs es :
  stored st hs es → 1 ≤ tf ≤ zlen es → zlen es < 2 ^ 63 →
  (∃ st', ms_Truncate tf st = (st', Ok tt) ∧ stored st' hs (take (Z.to_nat (tf - 1)) es)) ∨
  (∃ st', ms_Truncate tf st = (st', Err errInjectedFault) ∧ stored st' hs es).
Proof.
  intros (H1 & H2 & H3) Htf Hb. unfold ms_Truncate. case_if; [right; by eexists|left].
  rewrite (proj2 (Z.ltb_ge tf 1)) by lia. assert (i64 (tf - 1) = tf - 1) as ->.
  { unfold i64. rewrite u64_small by (unfold is_u64; lia). by rewrite (proj2 (Z.ltb_lt _ _)) by lia. }
  rewrite (proj2 (Z.ltb_ge (tf - 1) 0)) by lia. rewrite H2, (proj2 (Z.ltb_lt (tf - 1) (zlen es))) by lia. eexists. split; [done|].
  by split.
Qed.

Lemma ms_append_stored st new hs es :
  stored st hs es →
  (∃ st', ms_Append new st = (st', Ok tt) ∧ stored st' hs (es ++ new)) ∨
  (∃ st' e, ms_Append new st = (st', Err e) ∧ e ≠ PanicSliceBounds ∧ stored st' hs es).
Proof.
  intros (H1 & H2 & H3). unfold ms_Append. case_if; [right; by do 2 eexists|]. case_if; [right; by do 2 eexists|].
  left. eexists. split; [done|]. split; [done|]. by rewrite H2.
Qed.

Lemma ms_hard_state_stored st hs hs' es :
  stored st hs es → ∃ st', ms_SetHardState hs' st = (st', Ok tt) ∧ stored st' hs' es.
Proof. intros (H1 & H2 & H3). unfold ms_SetHardState. rewrite (proj2 (Z.ltb_ge 0 _)) by done. eexists. by split. Qed.

(** A request is written whole, or up to some point before its hard state. *)
Lemma persist_stored st pr hs es :
  stored st hs es → (pr_TruncateFrom pr = 0 ∨ 1 ≤ pr_TruncateFrom pr ≤ zlen es) → zlen es < 2 ^ 63 →
  (∃ st', ApplyPersistRequest (Some pr) st = (st', Ok tt) ∧
    stored st' (default hs (pr_HardState pr)) (cut_entries pr es ++ pr_Entries pr)) ∨
  (∃ st' e es', ApplyPersistRequest (Some pr) st = (st', Err e) ∧ e ≠ PanicSliceBounds ∧ stored st' hs es' ∧ partial pr es es').
Proof.
  intros Hst Htf Hb. cbn [ApplyPersistRequest]. unfold then_, cut_entries. cbn [StTruncate StAppend SetHardState memory_storage].
  assert (Hcut : (∃ st', (if negb (pr_TruncateFrom pr =? 0) then ms_Truncate (pr_TruncateFrom pr) else done_) st = (st', Ok tt) ∧
      stored st' hs (cut_entries pr es)) ∨
    (∃ st', (if negb (pr_TruncateFrom pr =? 0) then ms_Truncate (pr_TruncateFrom pr) else done_) st = (st', Err errInjectedFault) ∧ stored st' hs es)).
  { unfold cut_entries. destruct (Z.eqb_spec (pr_TruncateFrom pr) 0); cbn [negb]; [left; by eexists|].
    destruct Htf; [done|]. by apply ms_truncate_stored. }
  destruct Hcut as [(st1 & -> & H1)|(st1 & -> & H1)].
  2: { right. exists st1, errInjectedFault, es. split; [done|]. split; [done|]. split; [done|by left]. }
  assert (Happ : (∃ st', (if negb (zlen (pr_Entries pr) =? 0) then ms_Append (pr_Entries pr) else done_) st1 = (st', Ok tt) ∧
      stored st' hs (cut_entries pr es ++ pr_Entries pr)) ∨
    (∃ st' e, (if negb (zlen (pr_Entries pr) =? 0) then ms_Append (pr_Entries pr) else done_) st1 = (st', Err e) ∧ e ≠ PanicSliceBounds ∧
      stored st' hs (cut_entries pr es))).
  { destruct (Z.eqb_spec (zlen (pr_Entries pr)) 0) as [E|]; cbn [negb]; [|by apply ms_append_stored].
    left. apply zlen_0_nil in E. rewrite E, app_nil_r. by eexists. }
  destruct Happ as [(st2 & -> & H2)|(st2 & e & -> & He & H2)].
  - left. destruct (pr_HardState pr) as [hs'|]; [|by eexists]. cbn [default]. by eapply ms_hard_state_stored.
  - right. exists st2, e, (cut_entries pr es). split; [done|]. split; [done|]. split; [done|]. unfold partial, cut_entries.
    destruct (Z.eqb_spec (pr_TruncateFrom pr) 0); [by left|by right].
Qed.

(** ** The cores of the simulator *)

(** The core once the committed entries count as applied. *)
Definition applied (c : Core) (es : list Entry) : Core :=
  match last es with None => c | Some e => SetApplied c (e_Index e) end.

(** The part of a node that [absorb] leaves alone. *)
Record absorbed (n : FNode) (c : Core) (out : Output) (n' : FNode) : Prop := {
  ab_core : fn_core n' = Some (applied c (out_CommittedEntries out));
  ab_outbox : fn_outbox n' = fn_outbox n ++ out_Messages out;
  ab_committed : fn_committed n' = fn_committed n ++ out_CommittedEntries out;
  ab_cfg : fn_cfg n' = fn_cfg n;
  ab_storage : fn_storage n' = fn_storage n;
  ab_crashed : Crashed n' = Crashed n
}.

Lemma absorb_ok n c out : fn_core n = Some c → ∃ n', absorb n out = Ok n' ∧ absorbed n c out n'.
Proof.
  intros Hc. unfold absorb, note_applied. cbv zeta.
  set (n1 := if out_ResetElectionTimer out then _ else n). set (n2 := if out_ResetHeartbeatTimer out then _ else n1).
  assert (F : fn_core n2 = fn_core n ∧ fn_outbox n2 = fn_outbox n ∧ fn_committed n2 = fn_committed n ∧ fn_cfg n2 = fn_cfg n ∧
    fn_storage n2 = fn_storage n ∧ Crashed n2 = Crashed n) by (unfold n2, n1; repeat case_match; done).
  clearbody n2. destruct F as (F1 & F2 & F3 & F4 & F5 & F6). destruct (last (out_CommittedEntries out)) as [e|] eqn:E.
  - cbn. rewrite F1, Hc. eexists. split; [done|]. constructor; cbn; unfold applied; rewrite ?E; try done; congruence.
  - eexists. split; [done|]. apply last_None in E. constructor; cbn; unfold applied; rewrite ?E, ?app_nil_r; try done; (rewrite F1, Hc; done) || congruence.
Qed.

(** Entries a step delivers are not above its commit index. *)
Lemma delivered_low c r : core_wf c → step_post c r → Forall (λ e, e_Index e ≤ c_commitIndex r.1) (out_CommittedEntries r.2).
Proof.
  intros Hwf0 [Hwf _ _ Hext]. apply Forall_forall. intros e He. rewrite (er_es _ _ _ Hext) in He.
  apply list_elem_of_lookup in He as [k He]. unfold entries_between in He. apply lookup_take_Some in He as [He Hk].
  rewrite lookup_drop in He. pose proof (wf_indexed _ Hwf _ _ He) as Hx. pose proof (wf_commit _ Hwf0). pose proof (er_snap _ _ _ Hext).
  rewrite Hx. lia.
Qed.

Section node.
Context (C : Configuration) (HC : NoDup (m_ID <$> Voters C)) (HL : Learners C = []) (Hnv : noVote ∉ voter_ids C).

Lemma tracks_applied s c es : tracks C s c → tracks C s (applied c es).
Proof.
  intros Ht. unfold applied, SetApplied. destruct (last es); [|done]. case_if; [|done]. destruct Ht. by constructor.
Qed.

Lemma wf_applied_core c es : core_wf c → Forall (λ e, e_Index e ≤ c_commitIndex c) es → core_wf (applied c es).
Proof.
  intros Hwf Hes. unfold applied, SetApplied. destruct (last es) as [e|] eqn:E; [|done]. case_if; [|done].
  apply last_Some_elem_of in E. rewrite Forall_forall in Hes. apply Hes in E. destruct Hwf. by constructor.
Qed.

Lemma applied_frame c es : self (applied c es) = self c ∧ c_pending (applied c es) = c_pending c ∧ c_currentTerm (applied c es) = c_currentTerm c ∧
  c_log (applied c es) = c_log c ∧ c_cfg (applied c es) = c_cfg c.
Proof. unfold applied, SetApplied. destruct (last es); [|done]. by case_if. Qed.

(** ** The invariant of a node *)

Record live (s : sys) (i : NodeID) (c : Core) : Prop := {
  lv_tracks : tracks C s c;
  lv_wf : core_wf c;
  lv_pending : c_pending c = [];
  lv_self : self c = i
}.

Record node_ok (s : sys) (i : NodeID) (n : FNode) : Prop := {
  no_id : cfg_ID (fn_cfg n) = i;
  no_boot : cfg_Bootstrap (fn_cfg n) = C;
  no_valid : validate (fn_cfg n) = true;
  no_voter : i ∈ voter_ids C;
  no_disk : disk s i (ms_hs (fn_storage n)) (ms_entries (fn_storage n));
  no_reliable : ms_failSetHardState (fn_storage n) ≤ 0;
  no_outbox : Forall (fact C s) (fn_outbox n);
  no_committed : Forall (final C s) (fn_committed n);
  no_live : Crashed n = false → ∃ c, fn_core n = Some c ∧ live s i c
}.

Lemma facts_evolve s s' ms : inv C s → evolves s s' → Forall (fact C s) ms → Forall (fact C s') ms.
Proof. intros Hi Hev H. eapply Forall_impl; [exact H|]. intros m. by apply fact_evolves. Qed.

Lemma finals_evolve s s' es : evolves s s' → Forall (final C s) es → Forall (final C s') es.
Proof. intros Hev H. eapply Forall_impl; [exact H|]. intros e. by apply final_evolves. Qed.

(** Nodes do not notice the events of others. *)
Lemma node_other i s s' x n : inv C s → moves C i s s' → x ≠ i → node_ok s x n → node_ok s' x n.
Proof.
  intros Hi M Hx [H1 H2 H3 H4 H5 H6 H7 H8 H9]. pose proof (mv_evolves _ _ _ _ M) as Hev.
  constructor; [done|done|done|done|by eapply disk_other|done|by eapply facts_evolve|by eapply finals_evolve|].
  intros Hc. destruct (H9 Hc) as (c & Hcore & [L1 L2 L3 L4]). exists c. split; [done|]. constructor; [|done|done|done].
  eapply tracks_other; [done|done|by rewrite L4|done].
Qed.

(** More room changes nothing. *)
Lemma tracks_raise s c n : tracks C s c → tracks C (raise s n) c.
Proof. intros []. by constructor. Qed.

Lemma node_raise s i n m : inv C s → s_cap s ≤ m → node_ok s i n → node_ok (raise s m) i n.
Proof.
  intros Hi Hm [H1 H2 H3 H4 H5 H6 H7 H8 H9]. destruct (raise_inv C s Hi m Hm) as [Hev _].
  constructor; [done|done|done|done|exact H5|done|by eapply facts_evolve|by eapply finals_evolve|].
  intros Hc. destruct (H9 Hc) as (c & Hcore & [L1 L2 L3 L4]). exists c. split; [done|]. constructor; [by apply tracks_raise|done..].
Qed.

(** What a change of the core, the disk and the outputs leaves to show. *)
Lemma node_update s s' i n n' ms es hs st :
  inv C s → evolves s s' → node_ok s i n → fn_cfg n' = fn_cfg n → fn_outbox n' = fn_outbox n ++ ms → fn_committed n' = fn_committed n ++ es →
  stored (fn_storage n') hs st → disk s' i hs st → Forall (fact C s') ms → Forall (final C s') es →
  (Crashed n' = false → ∃ c, fn_core n' = Some c ∧ live s' i c) → node_ok s' i n'.
Proof.
  intros Hi Hev [H1 H2 H3 H4 H5 H6 H7 H8 H9] E1 E2 E3 (S1 & S2 & S3) Hd Hms Hes Hl. constructor; rewrite ?E1, ?S1, ?S2; try done.
  - rewrite E2. apply Forall_app. split; [by eapply facts_evolve|done].
  - rewrite E3. apply Forall_app. split; [by eapply finals_evolve|done].
Qed.

(** The log on disk is the core's before the step; the request leads to the
    core's after it. *)
Lemma asks_stored s s' c c' out es :
  tracks C s c → tracks C s' c' → self c' = self c → step_asks c (c', out) → es = s_log s (self c) →
  match out_PersistRequest out with
  | None => s_log s' (self c) = es
  | Some pr => s_log s' (self c) = cut_entries pr es ++ pr_Entries pr ∧ (pr_TruncateFrom pr = 0 ∨ 1 ≤ pr_TruncateFrom pr ≤ zlen es)
  end.
Proof.
  intros Ht Ht' Hself [_ _ Ha] ->. cbn [fst snd] in *. pose proof (tk_log _ _ _ Ht) as Hl. pose proof (tk_log _ _ _ Ht') as Hl'.
  rewrite Hself in Hl'. destruct (out_PersistRequest out) as [pr|].
  - destruct Ha as (Hlog & Htf & _). rewrite (tk_snap _ _ _ Ht), (plain_lastIndex c _ (tk_snap _ _ _ Ht) Hl) in Htf. split; [|lia].
    rewrite Hl', Hl, (tk_snap _ _ _ Ht), Z.sub_0_r in Hlog. unfold cut_entries. destruct (Z.eqb_spec (pr_TruncateFrom pr) 0); [by injection Hlog|].
    destruct Htf as [|Htf]; [done|]. replace (Z.to_nat (pr_TruncateFrom pr)) with (S (Z.to_nat (pr_TruncateFrom pr - 1))) in Hlog by lia.
    by injection Hlog.
  - destruct Ha as (Hlog & _). rewrite Hl', Hl in Hlog. by injection Hlog.
Qed.

(** ** Outputs *)

Context {R : Type} (Intn : R → Z → Z * R).

Lemma apply_output_S fuel n out r :
  apply_output Intn (S fuel) n out r =
  (n ← absorb n out;
   match out_PersistRequest out with
   | None => Ok (n, r)
   | Some pr =>
       '(n, ok) ← persist n pr;
       if negb ok then Ok (n, r) else
       match fn_core n with
       | None => Err PanicNilCore
       | Some c =>
           '(c, ack, r) ← core_step Intn c (InputPersistenceComplete (pr_Seq pr)) r;
           apply_output Intn fuel (n <| fn_core := Some c |>) ack r
       end
   end).
Proof. done. Qed.

(** The second half of [applyOutput]: the acknowledgement. *)
Lemma acknowledge_ok s i n c seq r :
  inv C s → node_ok s i (n <| fn_failed := true |>) → Crashed n = false → fn_core n = Some c → tracks C s c → core_wf c → self c = i →
  Forall (λ p, due C s c p ∧ p_seq p ≤ seq) (c_pending c) →
  ∃ n' r', ('(c, ack, r) ← core_step Intn c (InputPersistenceComplete seq) r; apply_output Intn 1 (n <| fn_core := Some c |>) ack r) = Ok (n', r') ∧
    node_ok s i n'.
Proof.
  intros Hi Hn Hcr Hc Ht Hwf Hs Hp. destruct (persisted_total C HC s c seq Hi Ht Hwf Hp) as (c' & out & E & Hpost & Ho & Hpe & Hcalm).
  unfold core_step. cbn [Step]. rewrite E. cbn [on_core mbind result_bind].
  destruct (absorb_ok (n <| fn_core := Some c' |>) c' out) as (n' & E' & Hab); [done|]. rewrite apply_output_S, E'. cbn [mbind result_bind].
  rewrite (ca_request _ _ _ _ Hcalm). cbn. exists n'. eexists. split; [done|].
  destruct Hab as [A1 A2 A3 A4 A5 A6]. cbn in A2, A3, A4, A5.
  eapply (node_update s s i (n <| fn_failed := true |>) n' (out_Messages out) (out_CommittedEntries out));
    [done|apply history_refl|done|done|done|done|by rewrite A5; split; [|split; [|apply Hn]]|apply Hn|apply Ho|apply Ho|].
  intros _. eexists. split; [done|]. pose proof (delivered_low _ _ Hwf Hpost) as Hlow. destruct (applied_frame c' (out_CommittedEntries out)) as (F1 & F2 & _).
  constructor; [apply tracks_applied, Ho|apply wf_applied_core; [apply Hpost|done]|congruence|].
  rewrite F1, <- Hs. unfold self. by rewrite (ca_cfg _ _ _ _ Hcalm).
Qed.

Lemma live_core s i n : node_ok s i n → Crashed n = false → ∃ c, fn_core n = Some c ∧ live s i c.
Proof. intros H. apply (no_live _ _ _ H). Qed.

(** The disk write of an output. *)
Lemma persist_ok_or_failed n pr hs es :
  stored (fn_storage n) hs es → (pr_TruncateFrom pr = 0 ∨ 1 ≤ pr_TruncateFrom pr ≤ zlen es) → zlen es < 2 ^ 63 →
  (∃ st, persist n pr = Ok (n <| fn_storage := st |>, true) ∧ stored st (default hs (pr_HardState pr)) (cut_entries pr es ++ pr_Entries pr)) ∨
  (∃ st e es', persist n pr = Ok (n <| fn_storage := st |> <| fn_failed := true |> <| fn_failErr := Some e |>, false) ∧
    stored st hs es' ∧ partial pr es es').
Proof.
  intros H1 H2 H3. unfold persist. destruct (persist_stored _ pr hs es H1 H2 H3) as [(st & -> & Hs)|(st & e & es' & -> & He & Hs & Hp)].
  - left. by exists st.
  - right. exists st, e, es'. by destruct e.
Qed.

Lemma applyOutput_ok s i n c c' out r :
  inv C s → s_cap s < 2 ^ 63 → node_ok s i n → Crashed n = false → live s i c → step_post c (c', out) → step_asks c (c', out) →
  protocol_step C s c c' out →
  ∃ n' r' s', applyOutput Intn (n <| fn_core := Some c' |>) out r = Ok (n', r') ∧ moves C i s s' ∧ node_ok s' i n'.
Proof.
  intros Hi Hcap Hn Hcr [L1 L2 L3 L4] Hpost Hask [[s1 [M Hself Hok Hdue Hvote]] Hsurv]. rewrite L4 in *.
  pose proof (no_disk _ _ _ Hn) as [Hlink Hes]. pose proof (asks_stored s s1 c c' out (ms_entries (fn_storage n)) L1 (ok_core _ _ _ _ Hok)) as Hst.
  rewrite L4 in Hst. specialize (Hst Hself Hask Hes). pose proof (delivered_low _ _ L2 Hpost) as Hlow. cbn [fst snd] in Hlow.
  destruct (absorb_ok (n <| fn_core := Some c' |>) c' out) as (n1 & E & [A1 A2 A3 A4 A5 A6]); [done|].
  cbn in A2, A3, A4, A5. change (Crashed (n <| fn_core := Some c' |>)) with (Crashed n) in A6.
  unfold applyOutput. rewrite apply_output_S, E. cbn [mbind result_bind].
  set (es := ms_entries (fn_storage n)) in *. set (hs := ms_hs (fn_storage n)) in *.
  assert (Hs0 : stored (fn_storage n1) hs es) by (rewrite A5; split; [done|split; [done|apply Hn]]).
  destruct (applied_frame c' (out_CommittedEntries out)) as (F1 & F2 & F3 & _).
  destruct (out_PersistRequest out) as [pr|] eqn:Epr.
  - destruct Hst as [Hlog Htf]. assert (Hlen : zlen es < 2 ^ 63).
    { rewrite Hes. pose proof (rooted_short C s Hi _ _ (i_log C s Hi i)). lia. }
    destruct (persist_ok_or_failed n1 pr hs es Hs0 Htf Hlen) as [(st & -> & Hs)|(st & e & es' & -> & Hs & Hp)]; cbn [mbind result_bind negb].
    + change (fn_core (n1 <| fn_storage := st |>)) with (fn_core n1). rewrite A1.
      destruct (acknowledge_ok s1 i (n1 <| fn_storage := st |>) (applied c' (out_CommittedEntries out)) (pr_Seq pr) r) as (n' & r' & -> & H).
      * apply M.
      * eapply (node_update s s1 i n _ (out_Messages out) (out_CommittedEntries out) (default hs (pr_HardState pr)) (s_log s1 i));
          [done|apply M|done|done|done|done|by rewrite Hlog|split; [by apply Hvote|done]|apply Hok|apply Hok|unfold Crashed; cbn; by rewrite orb_true_r].
      * unfold Crashed in *. cbn. by rewrite A6.
      * done.
      * apply tracks_applied, Hok.
      * apply wf_applied_core; [apply Hpost|done].
      * congruence.
      * rewrite F2. eapply Forall_impl; [exact Hdue|]. intros p. unfold due. by rewrite F1, F3.
      * by exists n', r', s1.
    + destruct (Hsurv pr hs es es' Epr) as (s' & M' & K1 & K2 & K3); [by rewrite L4|done|]. rewrite L4 in *.
      eexists _, r, s'. split; [done|]. split; [done|].
      eapply (node_update s s' i n _ (out_Messages out) (out_CommittedEntries out) hs es'); [done|apply M'|done|done|done|done|done|done|done|done|].
      unfold Crashed. cbn. by rewrite orb_true_r.
  - exists n1, r, s1. split; [done|]. split; [done|].
    eapply (node_update s s1 i n _ (out_Messages out) (out_CommittedEntries out) hs es);
      [done|apply M|done|done|done|done|done|split; [by apply Hvote|done]|apply Hok|apply Hok|].
    intros _. eexists. split; [done|]. constructor; [apply tracks_applied, Hok|apply wf_applied_core; [apply Hpost|done]|congruence|congruence].
Qed.

(** A step of a node: nothing happens if it is down, and otherwise an event. *)
Lemma fn_Step_ok s i n inp r :
  inv C s → s_cap s < 2 ^ 63 → node_ok s i n → (∀ c, Crashed n = false → fn_core n = Some c → live s i c → sound_input C s c inp) →
  ∃ n' r' s', fn_Step Intn n inp r = Ok (n', r') ∧ moves C i s s' ∧ node_ok s' i n'.
Proof.
  intros Hi Hcap Hn Hs. unfold fn_Step. destruct (Crashed n) eqn:Hcr.
  { exists n, r, s. split; [done|]. split; [by apply moves_refl|done]. }
  destruct (live_core s i n Hn Hcr) as (c & Hc & Hl). rewrite Hc. pose proof Hl as [L1 L2 L3 L4].
  destruct (Step_total C HC HL Hnv (λ m, (Intn r m).1) s c inp Hi L1 L2 L3 (Hs c eq_refl Hc Hl)) as (c' & out & E & H1 & H2 & H3).
  unfold core_step. rewrite E. cbn [on_core mbind result_bind]. by apply (applyOutput_ok s i n c c' out).
Qed.

(** ** Timers, crashes and restarts *)

Lemma node_timers s i n n' :
  node_ok s i n → fn_cfg n' = fn_cfg n → fn_storage n' = fn_storage n → fn_outbox n' = fn_outbox n → fn_committed n' = fn_committed n →
  fn_core n' = fn_core n → Crashed n' = Crashed n → node_ok s i n'.
Proof.
  intros [] E1 E2 E3 E4 E5 E6. constructor; rewrite ?E1, ?E2, ?E3, ?E4, ?E5, ?E6; done.
Qed.

Lemma fn_Tick_ok s i n r :
  inv C s → s_cap s < 2 ^ 63 → s_term s i < s_cap s → node_ok s i n →
  ∃ n' r' s', fn_Tick Intn n r = Ok (n', r') ∧ moves C i s s' ∧ node_ok s' i n'.
Proof.
  intros Hi Hcap Hroom Hn. unfold fn_Tick. destruct (Crashed n) eqn:Hcr.
  { exists n, r, s. split; [done|]. split; [by apply moves_refl|done]. }
  assert (∃ n1 r1 s1, election_tick Intn n r = Ok (n1, r1) ∧ moves C i s s1 ∧ node_ok s1 i n1) as (n1 & r1 & s1 & -> & M1 & H1).
  { unfold election_tick. destruct (fn_electionArmed n); cbn [negb]; [|exists n, r, s; split; [done|]; split; [by apply moves_refl|done]].
    cbv zeta. case_if; [do 2 eexists; exists s; split; [done|]; split; [by apply moves_refl|by eapply node_timers]|].
    apply fn_Step_ok; [done|done|by eapply node_timers|]. intros c _ _ [L1 _ _ L4]. split; [done|]. by rewrite (tk_term _ _ _ L1), L4. }
  cbn [mbind result_bind]. rewrite <- (mv_cap _ _ _ _ M1) in Hcap. pose proof (mv_inv _ _ _ _ M1) as Hi1.
  assert (∃ n2 r2 s2, heartbeat_tick Intn n1 r1 = Ok (n2, r2) ∧ moves C i s1 s2 ∧ node_ok s2 i n2) as (n2 & r2 & s2 & -> & M2 & H2).
  { unfold heartbeat_tick. destruct (fn_heartbeatArmed n1); cbn [negb]; [|exists n1, r1, s1; split; [done|]; split; [by apply moves_refl|done]].
    cbv zeta. case_if; [do 2 eexists; exists s1; split; [done|]; split; [by apply moves_refl|by eapply node_timers]|].
    apply fn_Step_ok; [done|done|by eapply node_timers|]. by split. }
  exists n2, r2, s2. split; [done|]. split; [by eapply moves_trans|done].
Qed.

Lemma fn_Crash_ok s i n : node_ok s i n → node_ok s i (fn_Crash n).
Proof. intros []. constructor; done. Qed.

Lemma fn_storage_ok s i n f :
  (∀ st, ms_hs (f st) = ms_hs st ∧ ms_entries (f st) = ms_entries st ∧ ms_failSetHardState (f st) = ms_failSetHardState st) →
  node_ok s i n → node_ok s i (n <| fn_storage := f (fn_storage n) |>).
Proof.
  intros Hf []. destruct (Hf (fn_storage n)) as (E1 & E2 & E3). constructor; cbn; rewrite ?E1, ?E2, ?E3; done.
Qed.

Lemma drain_ok s i n : node_ok s i n → node_ok s i (DrainOutbox n).1 ∧ Forall (fact C s) (DrainOutbox n).2.
Proof. intros []. split; [by constructor|done]. Qed.

Lemma NewCore_fields cfg hs es c :
  NewCore cfg hs es = Ok c →
  c_cfg c = cfg ∧ c_bootstrapConfig c = cfg_Bootstrap cfg ∧ c_snapshotIndex c = 0 ∧ c_snapshotHasConfig c = false ∧ c_log c = sentinel :: es ∧
  c_role c = Follower ∧ hard_state c = hs ∧ c_commitIndex c = 0 ∧ c_pending c = [] ∧
  (c_activeConfig c, c_activeConfigIndex c) = ConfigAt c (lastIndex c).
Proof.
  unfold NewCore, NewCoreFromSnapshot. case_if; [done|]. case_if; [done|]. cbv zeta.
  match goal with |- context [ConfigAt ?x (lastIndex ?x)] => destruct (ConfigAt x (lastIndex x)) as [act idx] eqn:Hc end.
  intros [= <-]. do 6 (split; [done|]). split; [by destruct hs|]. do 2 (split; [done|]). exact (eq_sym Hc).
Qed.

(** A core built from the disk. *)
Lemma NewCore_live s i cfg hs es :
  inv C s → s_cap s < 2 ^ 63 → cfg_ID cfg = i → cfg_Bootstrap cfg = C → validate cfg = true → i ∈ voter_ids C →
  disk s i hs es → s_phase s i = Idle → ∃ c, NewCore cfg hs es = Ok c ∧ live s i c.
Proof.
  intros Hi Hcap Hid Hb Hv Hvoter [[Hterm Hvote] ->] Hph. pose proof (rooted_short C s Hi _ _ (i_log C s Hi i)) as Hlen.
  pose proof (rooted_numbered C s _ _ Hi (i_log C s Hi i)) as Hnum.
  pose proof (recovered_core cfg hs 0 0 no_config false (s_log s i) (Z.le_refl 0) ltac:(lia)) as Hrec. fold (NewCore cfg hs (s_log s i)) in Hrec.
  destruct (NewCore cfg hs (s_log s i)) as [c|e] eqn:E.
  2: { exfalso. destruct Hrec as [Hrec|Hrec]; [congruence|]. apply Hrec. intros k e0 Hk. apply Hnum in Hk as [Hk _]. lia. }
  exists c. split; [done|]. destruct Hrec as [Hwf _]. apply NewCore_fields in E as (E1 & E2 & E3 & E4 & E5 & E6 & E7 & E8 & E9 & E10).
  assert (Hself : self c = i) by (unfold self; by rewrite E1). constructor; [|done|done|done].
  assert (Hact : c_activeConfig c = C).
  { unfold ConfigAt in E10. rewrite configAt_loop_plain in E10.
    - rewrite E4, E2, Hb in E10. by injection E10 as -> _.
    - rewrite E5. intros e [->|He]%elem_of_cons; [done|]. apply list_elem_of_lookup in He as [k He]. by apply Hnum in He as [_ He]. }
  unfold hard_state in E7. subst hs. cbn in Hterm, Hvote.
  constructor; rewrite ?Hself, ?E6; try done; try congruence.
  - rewrite Hterm. destruct Hvote as [[V1 V2]|V]; [left; split; [done|by left]|by right].
  - rewrite E8. split; [done|by left].
Qed.

Lemma restart_entries st : zlen (ms_entries st) < 2 ^ 63 → ms_Entries st 1 (u64 (zlen (ms_entries st)) + 1)%u64 = ms_entries st.
Proof.
  intros Hb. pose proof (zlen_nonneg (ms_entries st)) as Hz. rewrite (u64_small (zlen (ms_entries st))) by (unfold is_u64; lia).
  unfold ms_Entries. cbv zeta. rewrite (u64_small (zlen (ms_entries st) + 1)) by (unfold is_u64; lia).
  rewrite !Z.ltb_irrefl. destruct (Z.leb_spec (zlen (ms_entries st) + 1) 1).
  - symmetry. apply zlen_0_nil. lia.
  - replace (zlen (ms_entries st) + 1 - 1) with (zlen (ms_entries st)) by lia. change (Z.to_nat (1 - 1)) with 0%nat. rewrite drop_0, firstn_all2; [done|]. unfold zlen. lia.
Qed.

Lemma armed_frame n c r : ∃ n' r', armInitialElectionTimer Intn n c r = (n', r') ∧ fn_cfg n' = fn_cfg n ∧ fn_storage n' = fn_storage n ∧
  fn_outbox n' = fn_outbox n ∧ fn_committed n' = fn_committed n ∧ fn_core n' = fn_core n ∧ Crashed n' = Crashed n.
Proof. unfold armInitialElectionTimer. destruct (NewElectionTimeout Intn (c_cfg c) r) as [ticks r']. by do 2 eexists. Qed.

Lemma fn_Restart_ok s i n r :
  inv C s → s_cap s < 2 ^ 63 → node_ok s i n →
  ∃ n' r' s', fn_Restart Intn n r = Ok (n', r') ∧ moves C i s s' ∧ node_ok s' i n'.
Proof.
  intros Hi Hcap Hn. pose proof (observe_moves C s i (s_term s i) Hi (conj (Z.le_refl _) (i_low C s Hi i))) as M.
  set (s1 := observe s i (s_term s i)) in *.
  pose proof (no_disk _ _ _ Hn) as [Hlink Hes]. pose proof (rooted_short C s Hi _ _ (i_log C s Hi i)) as Hlen.
  assert (Hd : disk s1 i (ms_hs (fn_storage n)) (ms_entries (fn_storage n))).
  { split; [|done]. unfold vote_link in *. cbn. by rewrite insert_fn_eq. }
  unfold fn_Restart. cbn [InitialState LastIndex StEntries memory_storage]. rewrite restart_entries by (rewrite Hes; lia).
  destruct (NewCore_live s1 i (fn_cfg n) (ms_hs (fn_storage n)) (ms_entries (fn_storage n))) as (c & -> & Hl);
    [apply M|done|apply Hn|apply Hn|apply Hn|apply Hn|done|unfold s1; cbn; by rewrite insert_fn_eq|].
  match goal with |- context [armInitialElectionTimer Intn ?x c r] => destruct (armed_frame x c r) as (n' & r' & -> & A1 & A2 & A3 & A4 & A5 & A6) end.
  exists n', r', s1. split; [done|]. split; [done|].
  eapply (node_update s s1 i n n' [] [] (ms_hs (fn_storage n)) (ms_entries (fn_storage n))); [done|apply M|done|exact A1|by rewrite app_nil_r|by rewrite app_nil_r|
    rewrite A2; split; [done|split; [done|apply Hn]]|done|constructor|constructor|].
  intros _. exists c. split; [exact A5|done].
Qed.

Lemma newNode_ok s cfg r i :
  inv C s → s_cap s < 2 ^ 63 → cfg_ID cfg = i → cfg_Bootstrap cfg = C → validate cfg = true → i ∈ voter_ids C →
  disk s i (mkHardState 0 noVote) [] → s_phase s i = Idle →
  ∃ n r', newNode Intn cfg r = Ok (n, r') ∧ node_ok s i n.
Proof.
  intros Hi Hcap H1 H2 H3 H4 Hd Hph. unfold newNode, startFresh. cbn [fn_cfg].
  destruct (NewCore_live s i cfg (mkHardState 0 noVote) []) as (c & -> & Hl); [done..|].
  match goal with |- context [armInitialElectionTimer Intn ?x c r] => destruct (armed_frame x c r) as (n' & r' & -> & A1 & A2 & A3 & A4 & A5 & A6) end.
  exists n', r'. split; [done|]. constructor; rewrite ?A1, ?A2, ?A3, ?A4; cbn; try done; try constructor.
  intros _. exists c. split; [exact A5|done].
Qed.
End node.
