(* ===== verification/FaultSpec.v ===== *)
(** * Safety of a simulated cluster

    A script is a sequence of calls a test makes on the simulator.  From a new
    cluster, every script of ticks, deliveries in any order, losses,
    duplicates, delays, partitions, proposals, crashes, restarts and failing
    log writes runs to its end, and what it reaches is safe: one leader per
    term, matching logs, leaders that have everything committed before them,
    and one entry per committed index on all nodes.  A failing write of the
    hard state is not among them: a script at the end of the file reaches two
    different committed entries at the same index with it. *)

From stdpp Require Import functions.
From Stdlib Require Import String.
From S2P Require Import Prelude Bytes GoSort RaftTypes RaftMembership RaftMembershipSpec RaftCore RaftInv RaftSpec Storage RaftPersist RaftDriver Protocol ProtocolCore ProtocolStep ProtocolAppend Fault FaultInv.

(** ** Scripts *)

Inductive op :=
| OpTick
| OpDeliverEligible (fuel : nat)
| OpDeliver (id : Z)
| OpPropose (leader : NodeID) (data : bytes)
| OpCrash (id : NodeID)
| OpRestart (id : NodeID)
| OpFailAppends (id : NodeID) (n : Z)
| OpFailTruncate (id : NodeID) (n : Z)
| OpFailSetHardState (id : NodeID) (n : Z)
| OpDrop (id : Z)
| OpDuplicate (id : Z)
| OpDelay (id readyAtTick : Z)
| OpIsolateNode (id : NodeID)
| OpHealNode (id : NodeID)
| OpIsolateLink (from to : NodeID)
| OpHealLink (from to : NodeID)
| OpPartition (groupA groupB : list NodeID)
| OpHealAll.

Section script.
Context {R : Type} (Intn : R → Z → Z * R).

(** One call. *)
Definition perform (o : op) (cl : Cluster R) : result fault_panic (Cluster R) :=
  match o with
  | OpTick => Tick Intn cl
  | OpDeliverEligible fuel => '(cl, _) ← DeliverEligible Intn fuel 0 cl; Ok cl
  | OpDeliver id => '(cl, _) ← Deliver Intn id cl; Ok cl
  | OpPropose id data => Propose Intn id data cl
  | OpCrash id => Ok (Crash id cl)
  | OpRestart id => Restart Intn id cl
  | OpFailAppends id n => at_storage id (FailNextAppends n) cl
  | OpFailTruncate id n => at_storage id (FailNextTruncate n) cl
  | OpFailSetHardState id n => at_storage id (FailNextSetHardState n) cl
  | OpDrop id => Ok (with_transport (λ t, (Drop id t).1) cl)
  | OpDuplicate id => Ok (with_transport (λ t, (Duplicate id t).1) cl)
  | OpDelay id ready => Ok (with_transport (λ t, (Delay id ready t).1) cl)
  | OpIsolateNode id => Ok (with_transport (IsolateNode id) cl)
  | OpHealNode id => Ok (with_transport (HealNode id) cl)
  | OpIsolateLink from to => Ok (with_transport (IsolateLink from to) cl)
  | OpHealLink from to => Ok (with_transport (HealLink from to) cl)
  | OpPartition a b => Ok (with_transport (Partition a b) cl)
  | OpHealAll => Ok (with_transport HealAll cl)
  end.

Fixpoint run (ops : list op) (cl : Cluster R) : result fault_panic (Cluster R) :=
  match ops with
  | [] => Ok cl
  | o :: ops => cl ← perform o cl; run ops cl
  end.
End script.

(** The scripts the theorems are about: hard states are written. *)
Definition allowed (peers : list NodeID) (o : op) : bool :=
  match o with
  | OpFailAppends id _ | OpFailTruncate id _ => bool_decide (id ∈ peers)
  | OpFailSetHardState _ _ => false
  | _ => true
  end.

(** [id] is up and leads in term [T]. *)
Definition leads {R} (cl : Cluster R) (id : NodeID) (T : Z) : Prop :=
  ∃ n c, cl_nodes cl !! id = Some n ∧ Crashed n = false ∧ fn_core n = Some c ∧ c_role c = Leader ∧ c_currentTerm c = T.

(** ** The network *)

(** Every queued message satisfies [F]. *)
Definition queued (F : Message → Prop) (t : Transport) : Prop := ∀ id pm, t_pending t !! id = Some pm → F (pm_Message pm).

Section network.
Context (F : Message → Prop).

Lemma queued_delete t id : queued F t → queued F (t <| t_pending := delete id (t_pending t) |>).
Proof. intros H x pm Hx. cbn in Hx. apply lookup_delete_Some in Hx as [_ Hx]. by eapply H. Qed.

Lemma queued_insert t id pm : queued F t → F (pm_Message pm) → queued F (t <| t_pending := <[id := pm]> (t_pending t) |>).
Proof. intros H Hm x pm' Hx. cbn in Hx. apply lookup_insert_Some in Hx as [[_ <-]|[_ Hx]]; [done|by eapply H]. Qed.

Lemma queued_same t t' : t_pending t' = t_pending t → queued F t → queued F t'.
Proof. intros E H x pm Hx. rewrite E in Hx. by eapply H. Qed.

Lemma Send_queued m t : queued F t → F m → queued F (Send m t).1.
Proof.
  intros H Hm. eapply (queued_same (t <| t_pending := <[(t_nextID t + 1)%u64 := mkPendingMessage (t_nextID t + 1)%u64 m 0]> (t_pending t) |>)); [done|].
  by apply queued_insert.
Qed.

Lemma send_all_queued ms t : queued F t → Forall F ms → queued F (send_all ms t).
Proof.
  revert t. unfold send_all. induction ms as [|m ms IH]; intros t H Hms; [done|]. apply Forall_cons in Hms as [Hm Hms].
  cbn [foldl]. apply IH; [by apply Send_queued|done].
Qed.

Lemma Take_queued id t : queued F t → queued F (Take id t).1 ∧ ∀ m, (Take id t).2 = Some m → F m.
Proof.
  intros H. unfold Take. destruct (t_pending t !! id) as [pm|] eqn:E; [|done]. split; [by apply queued_delete|].
  intros m [= <-]. by eapply H.
Qed.

Lemma take_loop_queued ids t : queued F t → queued F (take_loop ids t).1.1 ∧ Forall F (take_loop ids t).1.2.
Proof.
  revert t. induction ids as [|id ids IH]; intros t H; cbn [take_loop]; [done|].
  destruct (t_pending t !! id) as [pm|] eqn:E; [|by apply IH]. destruct (negb (eligible t pm)).
  - specialize (IH t H). by destruct (take_loop ids t) as [[t' out] rem].
  - destruct (IH _ (queued_delete t id H)) as [H1 H2]. destruct (take_loop ids _) as [[t' out] rem]. cbn in *.
    split; [done|]. constructor; [by eapply H|done].
Qed.

Lemma TakeEligible_queued t : queued F t → queued F (TakeEligible t).1 ∧ Forall F (TakeEligible t).2.
Proof.
  intros H. unfold TakeEligible. destruct (take_loop_queued (t_order t) t H) as [H1 H2].
  destruct (take_loop (t_order t) t) as [[t' out] rem]. cbn in *. split; [by eapply queued_same|done].
Qed.

Lemma Drop_queued id t : queued F t → queued F (Drop id t).1.
Proof. intros H. destruct (Take_queued id t H) as [H1 _]. unfold Drop. by destruct (Take id t). Qed.

Lemma Duplicate_queued id t : queued F t → queued F (Duplicate id t).1.
Proof.
  intros H. unfold Duplicate. destruct (t_pending t !! id) as [pm|] eqn:E; [|done].
  pose proof (Send_queued (pm_Message pm) t H (H _ _ E)) as Hs. by destruct (Send (pm_Message pm) t).
Qed.

Lemma Delay_queued id ready t : queued F t → queued F (Delay id ready t).1.
Proof.
  intros H. unfold Delay. destruct (t_pending t !! id) as [pm|] eqn:E; [|done]. apply queued_insert; [done|]. exact (H _ _ E).
Qed.

Lemma Partition_queued a b t : queued F t → queued F (Partition a b t).
Proof.
  unfold Partition. revert t. induction a as [|x a IH]; intros t H; [done|]. cbn [foldl]. apply IH. clear IH.
  revert t H. induction b as [|y b IHb]; intros t H; [done|]. cbn [foldl]. apply IHb. by apply (queued_same t).
Qed.
End network.

(** ** The cluster *)

Section cluster.
Context (C : Configuration) (HC : NoDup (m_ID <$> Voters C)) (HL : Learners C = []) (Hnv : noVote ∉ voter_ids C).
Context {R : Type} (Intn : R → Z → Z * R).

Record cluster_ok (s : sys) (cl : Cluster R) : Prop := {
  ck_inv : inv C s;
  ck_nodes : ∀ i n, cl_nodes cl !! i = Some n → node_ok C s i n;
  ck_voters : ∀ i, i ∈ voter_ids C → is_Some (cl_nodes cl !! i);
  ck_order : ∀ i, i ∈ cl_order cl → is_Some (cl_nodes cl !! i);
  ck_nodup : NoDup (cl_order cl);
  ck_queued : queued (fact C s) (cl_transport cl)
}.

(** A computation that succeeds and leaves the cluster in a later state. *)
Definition reaches (s : sys) (r : result fault_panic (Cluster R)) : Prop :=
  ∃ cl' s', r = Ok cl' ∧ evolves s s' ∧ s_cap s' = s_cap s ∧ cluster_ok s' cl'.

Lemma reaches_ok s cl : cluster_ok s cl → reaches s (Ok cl).
Proof. intros H. exists cl, s. split; [done|]. split; [apply history_refl|done]. Qed.

Lemma reaches_bind s r f :
  reaches s r → (∀ cl s1, evolves s s1 → s_cap s1 = s_cap s → cluster_ok s1 cl → reaches s1 (f cl)) → reaches s (r ≫= f).
Proof.
  intros (cl & s1 & -> & E1 & E2 & H) Hf. destruct (Hf cl s1 E1 E2 H) as (cl' & s2 & E & F1 & F2 & F3).
  exists cl', s2. split; [done|]. split; [by eapply history_trans|]. split; [congruence|done].
Qed.

Lemma queued_evolves s s' t : inv C s → evolves s s' → queued (fact C s) t → queued (fact C s') t.
Proof. intros Hi Hev H id pm Hid. eapply fact_evolves; [done|done|]. by eapply H. Qed.

(** One node and the network change. *)
Lemma put_node_ok s s' cl i n t r :
  cluster_ok s cl → is_Some (cl_nodes cl !! i) → moves C i s s' → node_ok C s' i n → queued (fact C s') t →
  cluster_ok s' (put_node cl i n t r).
Proof.
  intros [K1 K2 K3 K4 K5 K6] Hin M Hn Ht. constructor; cbn; [apply M| | | |done|done].
  - intros x m. rewrite lookup_insert_Some. intros [[<- <-]|[Hne Hx]]; [done|]. eapply node_other; [done|done|by intros ->|by apply K2].
  - intros x Hx. rewrite lookup_insert_is_Some. destruct (decide (i = x)); [by left|right]. by split; [|apply K3].
  - intros x Hx. rewrite lookup_insert_is_Some. destruct (decide (i = x)); [by left|right]. by split; [|apply K4].
Qed.

Lemma flush_ok s s' cl i n r :
  cluster_ok s cl → is_Some (cl_nodes cl !! i) → moves C i s s' → node_ok C s' i n → cluster_ok s' (flush cl i n r).
Proof.
  intros Hc Hin M Hn. unfold flush. destruct (drain_ok C s' i n Hn) as [H1 H2]. destruct (DrainOutbox n) as [n' ms]. cbn [fst snd] in *.
  apply (put_node_ok s s'); [done|done|done|done|]. apply send_all_queued; [|done].
  eapply queued_evolves; [apply Hc|apply M|apply Hc].
Qed.

Lemma with_transport_ok s cl f :
  cluster_ok s cl → (queued (fact C s) (cl_transport cl) → queued (fact C s) (f (cl_transport cl))) → cluster_ok s (with_transport f cl).
Proof. intros [K1 K2 K3 K4 K5 K6] H. constructor; cbn; auto. Qed.

Lemma step_node_ok s cl i n inp :
  cluster_ok s cl → s_cap s < 2 ^ 63 → cl_nodes cl !! i = Some n →
  (∀ c, Crashed n = false → fn_core n = Some c → live C s i c → sound_input C s c inp) → reaches s (step_node Intn i n inp cl).
Proof.
  intros Hc Hcap Hn Hs. unfold step_node.
  destruct (fn_Step_ok C HC HL Hnv Intn s i n inp (cl_rnd cl)) as (n' & r' & s' & -> & M & H); [apply Hc|done|by apply (ck_nodes _ _ Hc)|done|].
  cbn [mbind result_bind]. eexists _, s'. split; [done|]. split; [apply M|]. split; [apply M|]. by apply (flush_ok s s').
Qed.

Lemma deliverToNode_ok s cl m :
  cluster_ok s cl → s_cap s < 2 ^ 63 → fact C s m → reaches s (deliverToNode Intn m cl).
Proof.
  intros Hc Hcap Hm. unfold deliverToNode. destruct (cl_nodes cl !! m_To m) as [n|] eqn:E; [|by apply reaches_ok].
  case_if; [by apply reaches_ok|]. apply step_node_ok; [done|done|done|]. intros c _ _ [_ _ _ L4]. by split.
Qed.

Lemma deliver_all_ok ms s cl :
  cluster_ok s cl → s_cap s < 2 ^ 63 → Forall (fact C s) ms → reaches s (deliver_all Intn ms cl).
Proof.
  revert s cl. induction ms as [|m ms IH]; intros s cl Hc Hcap Hms; cbn [deliver_all]; [by apply reaches_ok|].
  apply Forall_cons in Hms as [Hm Hms]. apply reaches_bind; [by apply deliverToNode_ok|]. intros cl' s1 H1 H2 H3.
  apply IH; [done|by rewrite H2|]. eapply facts_evolve; [apply Hc|done|done].
Qed.

Lemma DeliverEligible_ok fuel d s cl :
  cluster_ok s cl → s_cap s < 2 ^ 63 → reaches s ('(cl, _) ← DeliverEligible Intn fuel d cl; Ok cl).
Proof.
  revert d s cl. induction fuel as [|fuel IH]; intros d s cl Hc Hcap; cbn [DeliverEligible]; [by apply reaches_ok|].
  destruct (TakeEligible_queued (fact C s) (cl_transport cl) (ck_queued _ _ Hc)) as [H1 H2].
  destruct (TakeEligible (cl_transport cl)) as [t ms]. cbn [fst snd] in *.
  assert (Hc' : cluster_ok s (with_transport (λ _, t) cl)) by (by apply with_transport_ok).
  case_if; [by apply reaches_ok|].
  assert (Eb : ∀ r : result fault_panic (Cluster R), ('(cl, _) ← (cl ← r; DeliverEligible Intn fuel (d + zlen ms) cl); Ok cl) =
    (cl ← r; '(cl, _) ← DeliverEligible Intn fuel (d + zlen ms) cl; Ok cl)) by (by intros []).
  rewrite Eb. apply reaches_bind; [by apply deliver_all_ok|]. intros cl' s1 F1 F2 F3. apply IH; [done|by rewrite F2].
Qed.

Lemma Deliver_ok id s cl :
  cluster_ok s cl → s_cap s < 2 ^ 63 → reaches s ('(cl, _) ← Deliver Intn id cl; Ok cl).
Proof.
  intros Hc Hcap. unfold Deliver. destruct (Take_queued (fact C s) id (cl_transport cl) (ck_queued _ _ Hc)) as [H1 H2].
  destruct (Take id (cl_transport cl)) as [t [m|]]; [|by apply reaches_ok]. cbn [fst snd] in *.
  assert (Hc' : cluster_ok s (with_transport (λ _, t) cl)) by (by apply with_transport_ok).
  destruct (deliverToNode_ok s _ m Hc' Hcap (H2 m eq_refl)) as (cl' & s1 & -> & H). by exists cl', s1.
Qed.

(** Each node of a tick raises its own term at most once. *)
Lemma tick_nodes_ok ids s cl :
  cluster_ok s cl → s_cap s < 2 ^ 63 → NoDup ids → (∀ i, i ∈ ids → is_Some (cl_nodes cl !! i) ∧ s_term s i < s_cap s) →
  reaches s (tick_nodes Intn ids cl).
Proof.
  revert s cl. induction ids as [|i ids IH]; intros s cl Hc Hcap Hnd Hids; cbn [tick_nodes]; [by apply reaches_ok|].
  apply NoDup_cons in Hnd as [Hni Hnd]. destruct (Hids i) as [[n Hn] Hterm]; [by left|]. rewrite Hn.
  destruct (fn_Tick_ok C HC HL Hnv Intn s i n (cl_rnd cl)) as (n' & r' & s' & -> & M & H); [apply Hc|done|done|by apply (ck_nodes _ _ Hc)|].
  cbn [mbind result_bind]. assert (Hc' : cluster_ok s' (flush cl i n' r')) by (by apply (flush_ok s s')).
  destruct (IH s' (flush cl i n' r')) as (cl' & s2 & E & F1 & F2 & F3); [done|by rewrite (mv_cap _ _ _ _ M)|done| |].
  - intros x Hx. destruct (Hids x) as [Hs Ht]; [by right|]. destruct (mv_kept _ _ _ _ M x) as (Et & _); [by intros ->|].
    rewrite Et, (mv_cap _ _ _ _ M). split; [|done]. cbn. rewrite lookup_insert_is_Some. destruct (decide (i = x)); [by left|by right].
  - exists cl', s2. split; [done|]. split; [eapply history_trans; [apply M|done]|]. split; [|done]. by rewrite F2, (mv_cap _ _ _ _ M).
Qed.

Lemma Tick_ok s cl :
  cluster_ok s cl → s_cap s < 2 ^ 63 → (∀ i, s_term s i < s_cap s) → reaches s (Tick Intn cl).
Proof.
  intros [K1 K2 K3 K4 K5 K6] Hcap Hroom. unfold Tick. cbv zeta. apply tick_nodes_ok; [|done|done|by split; [apply K4|]].
  constructor; cbn; try done.
Qed.

Lemma Propose_ok id data s cl :
  cluster_ok s cl → s_cap s < 2 ^ 63 → (∀ i, zlen (s_log s i) < s_cap s) → reaches s (Propose Intn id data cl).
Proof.
  intros Hc Hcap Hroom. unfold Propose. destruct (cl_nodes cl !! id) as [n|] eqn:E; [|by apply reaches_ok].
  apply step_node_ok; [done|done|done|]. intros c _ _ [L1 _ _ _]. split; [done|].
  rewrite (plain_lastIndex c _ (tk_snap _ _ _ L1) (tk_log _ _ _ L1)). apply Hroom.
Qed.

Lemma Restart_ok id s cl : cluster_ok s cl → s_cap s < 2 ^ 63 → reaches s (Restart Intn id cl).
Proof.
  intros Hc Hcap. unfold Restart. destruct (cl_nodes cl !! id) as [n|] eqn:E; [|by apply reaches_ok].
  destruct (fn_Restart_ok C Intn s id n (cl_rnd cl)) as (n' & r' & s' & -> & M & H); [apply Hc|done|by apply (ck_nodes _ _ Hc)|].
  cbn [mbind result_bind]. eexists _, s'. split; [done|]. split; [apply M|]. split; [apply M|].
  apply (put_node_ok s s'); [done|done|done|done|]. eapply queued_evolves; [apply Hc|apply M|apply Hc].
Qed.

(** A change of one node that is no event. *)
Lemma put_same_ok s cl i n n' :
  cluster_ok s cl → cl_nodes cl !! i = Some n → node_ok C s i n' → cluster_ok s (put_node cl i n' (cl_transport cl) (cl_rnd cl)).
Proof. intros Hc Hn H. apply (put_node_ok s s); [done|by rewrite Hn|apply moves_refl, Hc|done|apply Hc]. Qed.

Lemma Crash_ok id s cl : cluster_ok s cl → cluster_ok s (Crash id cl).
Proof.
  intros Hc. unfold Crash. destruct (cl_nodes cl !! id) as [n|] eqn:E; [|done]. apply (put_same_ok s cl id n); [done|done|].
  apply fn_Crash_ok. by apply (ck_nodes _ _ Hc).
Qed.

Lemma at_storage_ok id f s cl :
  cluster_ok s cl → id ∈ voter_ids C →
  (∀ st, ms_hs (f st) = ms_hs st ∧ ms_entries (f st) = ms_entries st ∧ ms_failSetHardState (f st) = ms_failSetHardState st) →
  reaches s (at_storage id f cl).
Proof.
  intros Hc Hid Hf. unfold at_storage. destruct (ck_voters _ _ Hc id Hid) as [n Hn]. rewrite Hn. apply reaches_ok.
  apply (put_same_ok s cl id n); [done|done|]. apply fn_storage_ok; [done|]. by apply (ck_nodes _ _ Hc).
Qed.

Lemma cluster_raise s cl n : cluster_ok s cl → s_cap s ≤ n → evolves s (raise s n) ∧ cluster_ok (raise s n) cl.
Proof.
  intros [K1 K2 K3 K4 K5 K6] Hn. destruct (raise_inv C s K1 n Hn) as [Hev Hi]. split; [done|].
  constructor; [done| |done|done|done|by apply (queued_evolves s)]. intros i m Hm. apply (node_raise C); [done|done|by apply K2].
Qed.

(** Every call of a script, with room for one more term and entry. *)
Lemma perform_ok o s cl :
  cluster_ok s cl → s_cap s < 2 ^ 63 → (∀ i, s_term s i < s_cap s) → (∀ i, zlen (s_log s i) < s_cap s) →
  (∀ id n, o = OpFailAppends id n ∨ o = OpFailTruncate id n → id ∈ voter_ids C) → (∀ id n, o ≠ OpFailSetHardState id n) →
  reaches s (perform Intn o cl).
Proof.
  intros Hc Hcap Ht Hl Hf Hh.
  destruct o as [|fuel|id|id data|id|id|id n|id n|id n|id|id|id ready|id|id|from to|from to|a b|]; cbn [perform];
    try (apply reaches_ok, with_transport_ok; [done|]; intros Hq).
  - by apply Tick_ok.
  - by apply DeliverEligible_ok.
  - by apply Deliver_ok.
  - by apply Propose_ok.
  - apply reaches_ok. by apply Crash_ok.
  - by apply Restart_ok.
  - apply at_storage_ok; [done|eapply (Hf id n); by left|done].
  - apply at_storage_ok; [done|eapply (Hf id n); by right|done].
  - by destruct (Hh id n).
  - by apply Drop_queued.
  - by apply Duplicate_queued.
  - by apply Delay_queued.
  - by apply (queued_same _ (cl_transport cl)).
  - by apply (queued_same _ (cl_transport cl)).
  - by apply (queued_same _ (cl_transport cl)).
  - by apply (queued_same _ (cl_transport cl)).
  - by apply Partition_queued.
  - by apply (queued_same _ (cl_transport cl)).
Qed.
End cluster.

Section theorems.
Context {R : Type} (NewRand : Z → R) (Intn : R → Z → Z * R).

Lemma bootstrap_ids peers : m_ID <$> Voters (bootstrap peers) = peers.
Proof. unfold bootstrap. cbn. induction peers as [|p ps IH]; [done|]. cbn. by rewrite IH. Qed.

Lemma bootstrap_voters peers id : id ∈ voter_ids (bootstrap peers) ↔ id ∈ peers.
Proof.
  unfold voter_ids. rewrite elem_of_ids. trans (id ∈ m_ID <$> Voters (bootstrap peers)); [|by rewrite bootstrap_ids].
  rewrite list_elem_of_fmap. split; intros (m & H1 & H2); by exists m.
Qed.

Lemma run_ok peers ops s cl :
  let C := bootstrap peers in
  NoDup peers → noVote ∉ peers → cluster_ok C s cl → s_cap s + zlen ops < 2 ^ 63 → forallb (allowed peers) ops = true →
  ∃ cl' s', run Intn ops cl = Ok cl' ∧ evolves s s' ∧ cluster_ok C s' cl' ∧ s_cap s' = s_cap s + zlen ops.
Proof.
  intros C Hnd Hno. assert (HC : NoDup (m_ID <$> Voters C)) by (by unfold C; rewrite bootstrap_ids).
  assert (Hnv : noVote ∉ voter_ids C) by (by unfold C; rewrite bootstrap_voters).
  revert s cl. induction ops as [|o ops IH]; intros s cl Hc Hb Ha; cbn [run].
  { exists cl, s. split; [done|]. split; [apply history_refl|]. split; [done|]. unfold zlen. cbn. lia. }
  cbn [forallb] in Ha. apply andb_true_iff in Ha as [Ho Ha]. rewrite zlen_cons in Hb. pose proof (zlen_nonneg ops) as Hz.
  destruct (cluster_raise C s cl (s_cap s + 1) Hc) as [Hev Hc']; [lia|]. pose proof (ck_inv _ _ _ Hc) as Hi.
  destruct (perform_ok C HC eq_refl Hnv Intn o (raise s (s_cap s + 1)) cl) as (cl1 & s1 & -> & E1 & E2 & E3); [done|cbn; lia| | | | |].
  - intros i. cbn. pose proof (i_low _ _ Hi i). lia.
  - intros i. cbn. pose proof (rooted_short _ _ Hi _ _ (i_log _ _ Hi i)). lia.
  - intros id n E. apply bootstrap_voters. destruct E as [-> | ->]; by apply bool_decide_eq_true_1 in Ho.
  - by intros id n ->.
  - cbn [mbind result_bind]. destruct (IH s1 cl1) as (cl2 & s2 & -> & F1 & F2 & F3); [done|rewrite E2; cbn; lia|done|].
    exists cl2, s2. split; [done|]. split; [eapply history_trans; [done|by eapply history_trans]|]. split; [done|].
    rewrite F3, E2, zlen_cons. cbn. lia.
Qed.

Lemma node_config_valid peers o id : id ∈ peers → noVote ∉ peers → validate (node_config (setDefaults o) (bootstrap peers) id) = true.
Proof.
  intros Hid Hno. unfold validate, node_config, setDefaults. cbn [cfg_ID cfg_Bootstrap cfg_ElectionTimeoutTicks cfg_ElectionTimeoutJitterTicks cfg_HeartbeatTimeoutTicks cfg_HasRand
    co_ElectionTimeoutTicks co_ElectionTimeoutJitterTicks co_HeartbeatTimeoutTicks].
  rewrite bool_decide_false by (intros ->; by apply Hno).
  assert (IsMember (bootstrap peers) id = true) as ->.
  { unfold IsMember. apply orb_true_iff. left. apply has_member_ids. by apply bootstrap_voters. }
  rewrite andb_false_r.
  assert (Hpos : ∀ d a, 0 < d → ((if a <=? 0 then d else a) <=? 0) = false).
  { intros d a Hd. apply Z.leb_gt. destruct (Z.leb_spec a 0); lia. }
  assert (Hnon : ∀ a, ((if a <? 0 then 0 else a) <? 0) = false).
  { intros a. apply Z.ltb_ge. destruct (Z.ltb_spec a 0); lia. }
  by rewrite !Hpos, Hnon by lia.
Qed.

Lemma new_nodes_ok peers o ids nodes r :
  let C := bootstrap peers in
  NoDup peers → noVote ∉ peers → (∀ id, id ∈ ids → id ∈ peers) → (∀ i n, nodes !! i = Some n → node_ok C genesis i n) →
  ∃ nodes' r', new_nodes Intn (setDefaults o) C ids nodes r = Ok (nodes', r') ∧ (∀ i n, nodes' !! i = Some n → node_ok C genesis i n) ∧
    ∀ i, i ∈ ids ∨ is_Some (nodes !! i) → is_Some (nodes' !! i).
Proof.
  intros C Hnd Hno. revert nodes r. induction ids as [|id ids IH]; intros nodes r Hids Hn; cbn [new_nodes].
  { exists nodes, r. split; [done|]. split; [done|]. by intros i [?%not_elem_of_nil|?]. }
  assert (Hid : id ∈ peers) by (apply Hids; by left).
  destruct (newNode_ok C Intn genesis (node_config (setDefaults o) C id) r id) as (n & r1 & -> & H1);
    [apply genesis_inv|done|done|done|by apply node_config_valid|by apply bootstrap_voters|split; [|done]; split; [done|by left]|done|].
  cbn [mbind result_bind]. destruct (IH (<[id := n]> nodes) r1) as (nodes' & r2 & -> & A1 & A2).
  - intros x Hx. apply Hids. by right.
  - intros i m. rewrite lookup_insert_Some. intros [[<- <-]|[_ Hm]]; [done|by apply Hn].
  - exists nodes', r2. split; [done|]. split; [done|]. intros i Hi. apply A2. rewrite lookup_insert_is_Some, elem_of_cons in *.
    destruct (decide (id = i)); [tauto|]. destruct Hi as [[->|Hi]|Hi]; tauto.
Qed.

Lemma NewCluster_ok peers o :
  NoDup peers → noVote ∉ peers → ∃ cl, NewCluster NewRand Intn peers o = Ok cl ∧ cluster_ok (bootstrap peers) genesis cl.
Proof.
  intros Hnd Hno. unfold NewCluster. cbv zeta.
  destruct (new_nodes_ok peers o peers ∅ (NewRand (co_Seed (setDefaults o)))) as (nodes & r & -> & H1 & H2); [done|done|done|done|].
  cbn [mbind result_bind]. eexists. split; [done|]. constructor; cbn; [apply genesis_inv|done| | | |done].
  - intros i Hi. apply H2. left. by apply bootstrap_voters.
  - intros i Hi. apply H2. left. unfold sort_strings in Hi. by rewrite merge_sort_Permutation in Hi.
  - unfold sort_strings. by rewrite merge_sort_Permutation.
Qed.

(** What a script reaches from a new cluster. *)
Definition started (peers : list NodeID) (o : ClusterOptions) (ops : list op) (cl : Cluster R) : Prop :=
  NoDup peers ∧ (noVote ∉ peers) ∧ forallb (allowed peers) ops = true ∧ zlen ops < 2 ^ 63 ∧
  ∃ cl0, NewCluster NewRand Intn peers o = Ok cl0 ∧ run Intn ops cl0 = Ok cl.

Lemma run_app ops1 ops2 (cl : Cluster R) : run Intn (ops1 ++ ops2) cl = (cl ← run Intn ops1 cl; run Intn ops2 cl).
Proof. revert cl. induction ops1 as [|o ops IH]; intros cl; [done|]. cbn [run app]. destruct (perform Intn o cl); [apply IH|done]. Qed.

Lemma started_ok peers o ops cl : started peers o ops cl → ∃ s, cluster_ok (bootstrap peers) s cl ∧ s_cap s = zlen ops.
Proof.
  intros (H1 & H2 & H3 & H4 & cl0 & H5 & H6). destruct (NewCluster_ok peers o H1 H2) as (cl0' & E & Hc). rewrite H5 in E. injection E as <-.
  destruct (run_ok peers ops genesis cl0 H1 H2 Hc) as (cl' & s' & E & _ & F2 & F3); [done|done|]. rewrite H6 in E. injection E as <-.
  by exists s'.
Qed.

(** Two points of one run. *)
Lemma started_later peers o ops1 ops2 cl1 cl2 :
  started peers o ops1 cl1 → forallb (allowed peers) ops2 = true → zlen (ops1 ++ ops2) < 2 ^ 63 → run Intn ops2 cl1 = Ok cl2 →
  NoDup (m_ID <$> Voters (bootstrap peers)) ∧
  ∃ s1 s2, cluster_ok (bootstrap peers) s1 cl1 ∧ evolves s1 s2 ∧ cluster_ok (bootstrap peers) s2 cl2.
Proof.
  intros H Ha Hb Hr. destruct (started_ok _ _ _ _ H) as (s1 & H1 & Hcap). destruct H as (Hnd & Hno & _).
  split; [by rewrite bootstrap_ids|]. rewrite zlen_app in Hb.
  destruct (run_ok peers ops2 s1 cl1 Hnd Hno H1) as (cl' & s2 & E & F1 & F2 & _); [by rewrite Hcap|done|]. rewrite Hr in E. injection E as <-.
  by exists s1, s2.
Qed.

Lemma leads_led C s (cl : Cluster R) i T : cluster_ok C s cl → leads cl i T →
  ∃ n c, cl_nodes cl !! i = Some n ∧ fn_core n = Some c ∧ live C s i c ∧ s_led s !! T = Some (i, s_log s i).
Proof.
  intros Hc (n & c & H1 & H2 & H3 & H4 & H5). destruct (no_live _ _ _ _ (ck_nodes _ _ _ Hc _ _ H1) H2) as (c' & E & Hl).
  rewrite H3 in E. injection E as <-. exists n, c. split; [done|]. split; [done|]. split; [done|]. destruct Hl as [L1 _ _ L4].
  subst T. rewrite (tk_term _ _ _ L1), L4. apply (i_lead C s (ck_inv _ _ _ Hc)). rewrite <- L4. by apply (tk_leader _ _ _ L1).
Qed.

(** C4: no script makes a cluster panic.  A new cluster of distinct, named
    nodes starts, and every script of ticks, deliveries, proposals, crashes,
    restarts, network faults and failing log writes runs to its end: no core
    panics, none is missing when it is stepped, and every core that restarts
    can be rebuilt from its disk. *)
Theorem cluster_never_panics peers o ops :
  NoDup peers → noVote ∉ peers → forallb (allowed peers) ops = true → zlen ops < 2 ^ 63 →
  ∃ cl0 cl, NewCluster NewRand Intn peers o = Ok cl0 ∧ run Intn ops cl0 = Ok cl.
Proof.
  intros H1 H2 H3 H4. destruct (NewCluster_ok peers o H1 H2) as (cl0 & E & Hc).
  destruct (run_ok peers ops genesis cl0 H1 H2 Hc) as (cl & s & E' & _); [done|done|]. by exists cl0, cl.
Qed.

(** C2: election safety of a whole cluster, over time.  If one node leads in
    a term at one point of a run, and a node leads in the same term at that
    or any later point, it is the same node, whatever was lost, duplicated,
    reordered, crashed and restarted, and whichever log writes failed in
    between. *)
Theorem cluster_election_safety peers o ops1 ops2 cl1 cl2 i j T :
  started peers o ops1 cl1 → forallb (allowed peers) ops2 = true → zlen (ops1 ++ ops2) < 2 ^ 63 → run Intn ops2 cl1 = Ok cl2 →
  leads cl1 i T → leads cl2 j T → i = j.
Proof.
  intros H1 H2 H3 H4 Hi Hj. destruct (started_later _ _ _ _ _ _ H1 H2 H3 H4) as (_ & s1 & s2 & K1 & Hev & K2).
  destruct (leads_led _ _ _ _ _ K1 Hi) as (_ & _ & _ & _ & _ & L1). destruct (leads_led _ _ _ _ _ K2 Hj) as (_ & _ & _ & _ & _ & L2).
  destruct (ev_led _ _ Hev _ _ _ L1) as (_ & x & L1' & _). congruence.
Qed.

(** C1: state machine safety of a whole cluster.  Whatever a node reported
    as committed at any time of a run, before or after its crashes, no node
    ever reported a different entry for the same index. *)
Theorem cluster_state_machine_safety peers o ops cl i j n m e e' :
  started peers o ops cl → cl_nodes cl !! i = Some n → cl_nodes cl !! j = Some m →
  e ∈ fn_committed n → e' ∈ fn_committed m → e_Index e = e_Index e' → e = e'.
Proof.
  intros H Hn Hm He He' Hx. destruct (started_ok _ _ _ _ H) as (s & K & _). destruct H as (Hnd & _).
  assert (HC : NoDup (m_ID <$> Voters (bootstrap peers))) by (by rewrite bootstrap_ids).
  pose proof (no_committed _ _ _ _ (ck_nodes _ _ _ K _ _ Hn)) as F1. pose proof (no_committed _ _ _ _ (ck_nodes _ _ _ K _ _ Hm)) as F2.
  rewrite Forall_forall in F1, F2. eapply (final_agree _ HC s); [apply K|by apply F1|by apply F2|done].
Qed.

(** Log matching on disk.  Two disks of the cluster that hold entries of
    the same term at the same position hold the same entries up to there. *)
Theorem cluster_log_matching peers o ops cl i j n m k e e' :
  started peers o ops cl → cl_nodes cl !! i = Some n → cl_nodes cl !! j = Some m →
  ms_entries (fn_storage n) !! k = Some e → ms_entries (fn_storage m) !! k = Some e' → e_Term e = e_Term e' →
  take (S k) (ms_entries (fn_storage n)) = take (S k) (ms_entries (fn_storage m)).
Proof.
  intros H Hn Hm. destruct (started_ok _ _ _ _ H) as (s & K & _). pose proof (ck_inv _ _ _ K) as Hi.
  destruct (no_disk _ _ _ _ (ck_nodes _ _ _ K _ _ Hn)) as [_ ->]. destruct (no_disk _ _ _ _ (ck_nodes _ _ _ K _ _ Hm)) as [_ ->].
  intros He He' Ht. eapply (rooted_match s); [apply (i_log _ _ Hi)|apply (i_log _ _ Hi)|apply has_lookup; by exists e|apply has_lookup; by exists e'].
Qed.

Lemma quorum_inhabited C Q : quorum C Q → ∃ v, v ∈ Q.
Proof.
  intros [_ Hq]. apply set_choose_L. intros ->. rewrite size_empty in Hq. unfold Majority in Hq. pose proof (zlen_nonneg (Voters C)).
  Z.to_euclidean_division_equations. lia.
Qed.

(** What is final before a term is decided in it. *)
Lemma final_before peers s (cl : Cluster R) e T :
  let C := bootstrap peers in
  cluster_ok C s cl → final C s e → (∀ x n, cl_nodes cl !! x = Some n → hs_CurrentTerm (ms_hs (fn_storage n)) < T) →
  ∃ L n k, decided C s T L n ∧ (k < n)%nat ∧ L !! k = Some e ∧ e_Index e = Z.of_nat k + 1.
Proof.
  intros C K (T1 & L & n & k & Hd & Hk & He) Hlow. exists L, n, k. pose proof (ck_inv _ _ _ K) as Hi.
  destruct Hd as [->|(Hn & T0 & k0 & h & D1 & D2 & D3 & D4 & D5 & D6)]; [lia|]. split.
  - right. split; [done|]. exists T0, k0, h. split; [|done]. destruct D2 as (Q & HQ & Hheld). destruct (quorum_inhabited _ _ HQ) as [v Hv].
    destruct (i_held _ _ Hi _ _ _ (Hheld v Hv)) as [Ht _]. destruct (ck_voters _ _ _ K v) as [m Hm]; [by apply HQ|].
    destruct (no_disk _ _ _ _ (ck_nodes _ _ _ K _ _ Hm)) as [[Et _] _]. specialize (Hlow _ _ Hm). lia.
  - split; [done|]. split; [done|]. destruct D3 as [j Hj]. destruct (i_led _ _ Hi _ _ _ Hj) as (_ & _ & Hnum & _).
    apply Hnum. rewrite <- (lookup_take_lt h n), <- D6, lookup_take_lt by done. done.
Qed.

End theorems.

(** ** Concrete runs *)

(** A source that draws 0 at the given calls and the maximum elsewhere. *)
Definition demo_draws (early : list nat) (k : nat) (n : Z) : Z * nat := (if bool_decide (k ∈ early) then 0 else n - 1, S k).

Definition demo_options : ClusterOptions := mkClusterOptions 1 1000 1000 0.

Definition demo_script (early : list nat) (peers : list NodeID) (ops : list op) : result fault_panic (Cluster nat) :=
  cl ← NewCluster (λ _, 0%nat) (demo_draws early) peers demo_options; run (demo_draws early) ops cl.

Definition leadsb {R} (cl : Cluster R) (id : NodeID) (T : Z) : bool :=
  match cl_nodes cl !! id with
  | Some n =>
      match fn_core n with
      | Some c => negb (Crashed n) && bool_decide (c_role c = Leader) && (c_currentTerm c =? T)
      | None => false
      end
  | None => false
  end.

Definition committed_at {R} (cl : Cluster R) (id : NodeID) : list Entry :=
  match cl_nodes cl !! id with Some n => fn_committed n | None => [] end.

Definition disk_at {R} (cl : Cluster R) (id : NodeID) : list Entry :=
  match cl_nodes cl !! id with Some n => ms_entries (fn_storage n) | None => [] end.

Definition holds {R} (r : result fault_panic (Cluster R)) (f : Cluster R → bool) : bool :=
  match r with Ok cl => f cl | Err _ => false end.

Lemma holds_inv {R} (r : result fault_panic (Cluster R)) f : holds r f = true → ∃ cl, r = Ok cl ∧ f cl = true.
Proof. destruct r as [cl|]; [by exists cl|done]. Qed.

Lemma leadsb_leads {R} (cl : Cluster R) id T : leadsb cl id T = true → leads cl id T.
Proof.
  unfold leadsb, leads. destruct (cl_nodes cl !! id) as [n|]; [|done]. destruct (fn_core n) as [c|] eqn:E; [|done].
  intros H. bool_to_prop. exists n, c. split; [done|]. done.
Qed.

Lemma demo_started early peers ops cl :
  forallb (allowed peers) ops && (zlen ops <? 2 ^ 63) && bool_decide (NoDup peers) && bool_decide (noVote ∉ peers) = true →
  demo_script early peers ops = Ok cl → started (λ _, 0%nat) (demo_draws early) peers demo_options ops cl.
Proof.
  intros H Hr. apply bind_Ok_inv in Hr as (cl0 & Hn & Hr). bool_to_prop. split; [done|]. split; [done|]. split; [done|]. split; [done|]. by exists cl0.
Qed.

Definition node_a : NodeID := [97].
Definition node_b : NodeID := [98].
Definition node_c : NodeID := [99].
Definition demo_peers : list NodeID := [node_a; node_b; node_c].

(** The first node wins the first term and commits while the third node's
    disk fails; then it crashes and the second node wins the next term. *)
Definition demo_ops1 : list op :=
  [OpTick; OpDeliverEligible 10; OpPropose node_a [1]; OpDuplicate 9; OpDeliverEligible 10;
   OpFailAppends node_c 1; OpPropose node_a [2]; OpDeliverEligible 10].
Definition demo_ops2 : list op :=
  [OpCrash node_c; OpRestart node_c; OpIsolateNode node_a; OpCrash node_b; OpRestart node_b; OpTick; OpDeliverEligible 10;
   OpPropose node_b [3]; OpDeliverEligible 10].

Definition demo_early : list nat := [0; 14]%nat.

(** The two points of the run that the witnesses below look at. *)
Lemma demo_points (f : Cluster nat → Cluster nat → bool) :
  holds (demo_script demo_early demo_peers demo_ops1) (λ cl1, holds (run (demo_draws demo_early) demo_ops2 cl1) (f cl1)) = true →
  ∃ cl1 cl2, started (λ _, 0%nat) (demo_draws demo_early) demo_peers demo_options demo_ops1 cl1 ∧
    run (demo_draws demo_early) demo_ops2 cl1 = Ok cl2 ∧ f cl1 cl2 = true.
Proof.
  intros H. apply holds_inv in H as (cl1 & E1 & H). apply holds_inv in H as (cl2 & E2 & H). exists cl1, cl2.
  split; [apply demo_started; [reflexivity|exact E1]|]. split; [exact E2|exact H].
Qed.

Lemma cluster_never_panics_witness :
  ∃ cl0 cl, NewCluster (λ _, 0%nat) (demo_draws demo_early) demo_peers demo_options = Ok cl0 ∧
    run (demo_draws demo_early) (demo_ops1 ++ demo_ops2) cl0 = Ok cl.
Proof.
  apply (cluster_never_panics (λ _, 0%nat) (demo_draws demo_early) demo_peers demo_options (demo_ops1 ++ demo_ops2));
    [apply (bool_decide_eq_true_1 (NoDup demo_peers)); reflexivity|apply (bool_decide_eq_true_1 (noVote ∉ demo_peers)); reflexivity|reflexivity|reflexivity].
Defined.

(** The first node still believes to lead its term when the second leads the
    next. *)
Lemma cluster_election_safety_witness :
  ∃ cl1 cl2 i j, leads cl1 i 1 ∧ leads cl2 j 1 ∧ leads cl2 node_b 2 ∧ run (demo_draws demo_early) demo_ops2 cl1 = Ok cl2 ∧ i = j.
Proof.
  destruct (demo_points (λ cl1 cl2, leadsb cl1 node_a 1 && leadsb cl2 node_a 1 && leadsb cl2 node_b 2)) as (cl1 & cl2 & H1 & H2 & H3);
    [vm_compute; reflexivity|].
  apply andb_true_iff in H3 as [[H3 H4]%andb_true_iff H5]. apply leadsb_leads in H3, H4, H5.
  exists cl1, cl2, node_a, node_a. split; [exact H3|]. split; [exact H4|]. split; [exact H5|]. split; [exact H2|].
  apply (cluster_election_safety (λ _, 0%nat) (demo_draws demo_early) demo_peers demo_options demo_ops1 demo_ops2 cl1 cl2 node_a node_a 1);
    [exact H1|reflexivity|reflexivity|exact H2|exact H3|exact H4].
Defined.

Lemma cluster_state_machine_safety_witness :
  ∃ (cl : Cluster nat) n m e e', cl_nodes cl !! node_a = Some n ∧ cl_nodes cl !! node_b = Some m ∧ e ∈ fn_committed n ∧ e' ∈ fn_committed m ∧
    e_Index e = 2 ∧ e = e'.
Proof.
  destruct (holds_inv (demo_script demo_early demo_peers (demo_ops1 ++ demo_ops2))
    (λ cl, bool_decide (committed_at cl node_a !! 1%nat = Some (mkEntry 2 1 EntryNormal [2])) &&
           bool_decide (committed_at cl node_b !! 2%nat = Some (mkEntry 2 1 EntryNormal [2])))) as (cl & E & H); [vm_compute; reflexivity|].
  apply andb_true_iff in H as [H1%bool_decide_eq_true_1 H2%bool_decide_eq_true_1]. unfold committed_at in H1, H2.
  destruct (cl_nodes cl !! node_a) as [n|] eqn:Hn; [|done]. destruct (cl_nodes cl !! node_b) as [m|] eqn:Hm; [|done].
  apply list_elem_of_lookup_2 in H1, H2. exists cl, n, m, (mkEntry 2 1 EntryNormal [2]), (mkEntry 2 1 EntryNormal [2]).
  split; [exact Hn|]. split; [exact Hm|]. split; [exact H1|]. split; [exact H2|]. split; [reflexivity|].
  apply (cluster_state_machine_safety (λ _, 0%nat) (demo_draws demo_early) demo_peers demo_options (demo_ops1 ++ demo_ops2) cl node_a node_b n m);
    [apply demo_started; [reflexivity|exact E]|exact Hn|exact Hm|exact H1|exact H2|reflexivity].
Defined.

Lemma cluster_log_matching_witness :
  ∃ (cl : Cluster nat) n m, cl_nodes cl !! node_b = Some n ∧ cl_nodes cl !! node_c = Some m ∧
    take 3 (ms_entries (fn_storage n)) = take 3 (ms_entries (fn_storage m)).
Proof.
  destruct (holds_inv (demo_script demo_early demo_peers (demo_ops1 ++ demo_ops2))
    (λ cl, bool_decide (disk_at cl node_b !! 2%nat = Some (mkEntry 3 2 EntryNormal [3])) &&
           bool_decide (disk_at cl node_c !! 2%nat = Some (mkEntry 3 2 EntryNormal [3])))) as (cl & E & H); [vm_compute; reflexivity|].
  apply andb_true_iff in H as [H1%bool_decide_eq_true_1 H2%bool_decide_eq_true_1]. unfold disk_at in H1, H2.
  destruct (cl_nodes cl !! node_b) as [n|] eqn:Hn; [|done]. destruct (cl_nodes cl !! node_c) as [m|] eqn:Hm; [|done].
  exists cl, n, m. split; [exact Hn|]. split; [exact Hm|].
  apply (cluster_log_matching (λ _, 0%nat) (demo_draws demo_early) demo_peers demo_options (demo_ops1 ++ demo_ops2) cl node_b node_c n m 2
    (mkEntry 3 2 EntryNormal [3]) (mkEntry 3 2 EntryNormal [3])); [apply demo_started; [reflexivity|exact E]|exact Hn|exact Hm|exact H1|exact H2|reflexivity].
Defined.


(** ** A failing write of the hard state *)

Definition node_j : NodeID := [106].
Definition node_l : NodeID := [108].
Definition node_y : NodeID := [121].

(** The disk of [j] fails three times on the hard state, once each after its
    vote requests were sent and after the entries of [l] were appended: it
    comes back in an old term with entries of a newer one, wins the old term
    with votes for its first candidacy, and with an entry of that term on top
    its log and that of [y] look older than they are. *)
Definition fault_script : list op :=
  [OpFailSetHardState node_j 1; OpCrash node_j; OpRestart node_j; OpTick; OpDeliver 1; OpDeliver 2; OpCrash node_j; OpRestart node_j;
   OpCrash node_l; OpRestart node_l; OpTick; OpTick; OpDeliver 11; OpDeliver 12; OpDeliver 15; OpDeliver 16;
   OpPropose node_l [1]; OpDeliver 21; OpDeliver 22; OpDeliver 25; OpDeliver 26;
   OpFailSetHardState node_j 1; OpDeliver 23; OpCrash node_j; OpRestart node_j;
   OpPropose node_l [2]; OpFailSetHardState node_j 1; OpDeliver 29; OpDeliver 27; OpDeliver 31; OpCrash node_j; OpRestart node_j;
   OpTick; OpDeliver 5; OpDeliver 6; OpPropose node_j [3]; OpDeliver 43; OpDeliver 44; OpDeliver 45;
   OpDeliver 30; OpDeliver 47;
   OpCrash node_y; OpRestart node_y; OpCrash node_j; OpRestart node_j; OpCrash node_b; OpRestart node_b; OpTick;
   OpDeliver 49; OpDeliver 51; OpDeliver 52; OpDeliver 53; OpPropose node_b [4]; OpDeliver 59; OpDeliver 61; OpDeliver 62; OpDeliver 63].

(** Two nodes commit different entries at the same index once writes of the
    hard state may fail: [ApplyPersistRequest] writes the entries first and
    the hard state last, and the messages of the output are sent before
    either. *)
Theorem hard_state_fault_diverges :
  ∃ cl e e', demo_script [5; 10; 11; 21; 28]%nat [node_a; node_b; node_j; node_l; node_y] fault_script = Ok cl ∧
    e ∈ committed_at cl node_l ∧ e' ∈ committed_at cl node_b ∧ e_Index e = e_Index e' ∧ e ≠ e'.
Proof.
  destruct (holds_inv (demo_script [5; 10; 11; 21; 28]%nat [node_a; node_b; node_j; node_l; node_y] fault_script)
    (λ cl, bool_decide (committed_at cl node_l !! 1%nat = Some (mkEntry 2 2 EntryNormal [2])) &&
           bool_decide (committed_at cl node_b !! 1%nat = Some (mkEntry 2 3 EntryNormal [4])))) as (cl & E & H); [vm_compute; reflexivity|].
  apply andb_true_iff in H as [H1%bool_decide_eq_true_1 H2%bool_decide_eq_true_1]. apply list_elem_of_lookup_2 in H1, H2.
  exists cl, (mkEntry 2 2 EntryNormal [2]), (mkEntry 2 3 EntryNormal [4]).
  split; [exact E|]. split; [exact H1|]. split; [exact H2|]. split; [reflexivity|discriminate].
Qed.
