(* ===== verification/Txn.v ===== *)
(** * Transactions of the standalone database ([internal/txn/txn.go])

    [Manager] owns the write-ahead log and the state machine; its mutex makes
    [Begin] and the whole of [commit] one atomic step each.  A [Txn] is a
    session: a snapshot sequence and a private write set.  The session keeps a
    pointer to its manager, so the operations that go through it take the
    manager as an argument and return it.  The diagnostic counters are kept:
    they tell a retry from a fresh commit. *)

From S2P Require Import Prelude Bytes Hash Mvcc FsmCommand Fsm WalRecord Wal.

Inductive txn_error :=
| ErrAlreadyCommitted
| ErrAlreadyAborted
| ErrInvalidState
| ErrConflict (key : bytes) (latest startSeq : Z)
| ErrTxnWal (e : wal_error)
| ErrTxnFsm (e : fsm_error)
| ErrTxnStore (e : mvcc_error)
| TxnPanic.

(** Go's [%w] of an error of the layer below. *)
Definition wrap {E F A} (f : E → F) (r : result E A) : result F A :=
  match r with Ok a => Ok a | Err e => Err (f e) end.

Inductive State := StateActive | StateCommitted | StateAborted.
#[export] Instance State_eq_dec : EqDecision State.
Proof. solve_decision. Defined.

(** ** The manager *)

Record Manager := mkManager {
  m_walog : WAL;
  m_fsm : FSM;
  m_lastSeq : Z;
  m_nextTxnID : Z;
  m_TxnConflictsTotal : Z;
  m_RequestIDDuplicatesTotal : Z
}.
#[export] Instance Manager_eta : Eta Manager := λ m,
  mkManager (m_walog m) (m_fsm m) (m_lastSeq m) (m_nextTxnID m) (m_TxnConflictsTotal m)
    (m_RequestIDDuplicatesTotal m).
#[export] Instance set_m_walog : Setter m_walog.
Proof. derive_setter. Defined.
#[export] Instance set_m_fsm : Setter m_fsm.
Proof. derive_setter. Defined.
#[export] Instance set_m_lastSeq : Setter m_lastSeq.
Proof. derive_setter. Defined.
#[export] Instance set_m_nextTxnID : Setter m_nextTxnID.
Proof. derive_setter. Defined.
#[export] Instance set_m_TxnConflictsTotal : Setter m_TxnConflictsTotal.
Proof. derive_setter. Defined.
#[export] Instance set_m_RequestIDDuplicatesTotal : Setter m_RequestIDDuplicatesTotal.
Proof. derive_setter. Defined.

(** The body of the recovery loop, over the records the iterator yields; the
    state is the FSM and [lastSeq]. *)
Fixpoint recover_records (f : FSM) (lastSeq : Z) (rs : list Record_) : result txn_error (FSM * Z) :=
  match rs with
  | [] => Ok (f, lastSeq)
  | rec :: rs =>
      cmd ← wrap ErrTxnFsm (DecodeCommitTxn (r_Payload rec));
      '(f, _) ← wrap ErrTxnFsm (Apply f (r_Index rec) cmd);
      recover_records f (if lastSeq <? r_Index rec then r_Index rec else lastSeq) rs
  end.

(** An iterator that fails has yielded the records before the failure first. *)
Definition recover (m : Manager) : result txn_error Manager :=
  '(rs, e) ← wrap ErrTxnWal (Replay (m_walog m) 1);
  '(f, lastSeq) ← recover_records (m_fsm m) (m_lastSeq m) rs;
  match e with
  | Some e => Err (ErrTxnWal e)
  | None => Ok (m <| m_fsm := f |> <| m_lastSeq := lastSeq |>)
  end.

Definition NewManager (w : WAL) (store : Store) : result txn_error Manager :=
  recover (mkManager w (New store) 0 0 0 0).

Definition GetRequestOutcome (m : Manager) (requestID : RequestID) : result txn_error Outcome :=
  match GetOutcome (m_fsm m) requestID with
  | None => Err (ErrTxnFsm ErrRequestIDUnknown)
  | Some outcome => Ok outcome
  end.

Definition zero_outcome : Outcome := mkOutcome [] StatusCommitted 0 [] 0.

(** The conflict check at the end of [commit], common to a retry and to a
    fresh command.  A stale abort is not one. *)
Definition commit_result (m : Manager) (outcome : Outcome) (startSeq : Z)
    : Manager * Outcome * option txn_error :=
  if bool_decide (o_Status outcome = StatusAborted)
  then (m, outcome, Some (ErrConflict (o_ConflictKey outcome) (o_ConflictLatestSeq outcome) startSeq))
  else (m, outcome, None).

Definition commit (m : Manager) (id : Z) (requestID : RequestID) (startSeq : Z) (mutations : list Mutation)
    : Manager * Outcome * option txn_error :=
  if zlen mutations =? 0
  then (m, mkOutcome requestID StatusCommitted (m_lastSeq m) [] 0, None) else
  let cmd := mkCommitTxn requestID id startSeq mutations in
  match Precheck (m_fsm m) cmd with
  | Ok outcome =>
      commit_result (m <| m_RequestIDDuplicatesTotal := (m_RequestIDDuplicatesTotal m + 1)%u64 |>) outcome startSeq
  | Err ErrRequestIDUnknown =>
      match AppendLogEntry (m_walog m) (EncodeCommitTxn cmd) with
      | Err e => (m, zero_outcome, Some (ErrTxnWal e))
      | Ok (w, idx) =>
          match Sync w with
          | Err e => (m <| m_walog := w |>, zero_outcome, Some (ErrTxnWal e))
          | Ok w =>
              let m := m <| m_walog := w |> in
              match Apply (m_fsm m) idx cmd with
              | Err e => (m, zero_outcome, Some (ErrTxnFsm e))
              | Ok (f, outcome) =>
                  let m := m <| m_fsm := f |> in
                  let m := if bool_decide (o_Status outcome = StatusAborted)
                           then m <| m_TxnConflictsTotal := (m_TxnConflictsTotal m + 1)%u64 |> else m in
                  commit_result (m <| m_lastSeq := idx |>) outcome startSeq
              end
          end
      end
  | Err e => (m, zero_outcome, Some (ErrTxnFsm e))
  end.

Definition Resubmit (m : Manager) (requestID : RequestID) (txnID startSeq : Z) (mutations : list Mutation)
    : Manager * Outcome * option txn_error :=
  commit m txnID requestID startSeq mutations.

(** ** Sessions *)

(** [t_writes] is a map that [Commit] and [Abort] set to nil. *)
Record Txn := mkTxn {
  t_id : Z;
  t_startSeq : Z;
  t_state : State;
  t_writes : option (gmap bytes Mutation);
  t_order : list bytes
}.

Definition Begin (m : Manager) : Manager * Txn :=
  let startSeq := m_lastSeq m in
  let m := m <| m_nextTxnID := (m_nextTxnID m + 1)%u64 |> in
  (m, mkTxn (m_nextTxnID m) startSeq StateActive (Some ∅) []).

Definition terminalErr (t : Txn) : txn_error :=
  match t_state t with
  | StateCommitted => ErrAlreadyCommitted
  | StateAborted => ErrAlreadyAborted
  | StateActive => ErrInvalidState
  end.

(** [t.writes[key]] of a map that may be nil. *)
Definition own_write (t : Txn) (key : bytes) : option Mutation := t_writes t ≫= (.!! key).

Definition Read (m : Manager) (t : Txn) (key : bytes) : result txn_error (option bytes) :=
  if negb (bool_decide (t_state t = StateActive)) then Err (terminalErr t) else
  match own_write t key with
  | Some mu => Ok (if MTombstone mu then None else Some (MValue mu))
  | None => wrap ErrTxnStore (Visible (f_store (m_fsm m)) key (t_startSeq t))
  end.

(** The loop over [t.order]; a key that is not in the map gives the zero
    value. *)
Definition write_set (t : Txn) : list Mutation :=
  (λ k, default (mkMutation [] [] false) (own_write t k)) <$> t_order t.

Definition LocalWrites (t : Txn) : list Mutation :=
  if negb (bool_decide (t_state t = StateActive)) then [] else write_set t.

(** Storing into a nil map panics. *)
Definition recordWriteLocked (t : Txn) (key value : bytes) (tombstone : bool) : result txn_error Txn :=
  let order := if decide (own_write t key = None) then t_order t ++ [key] else t_order t in
  match t_writes t with
  | None => Err TxnPanic
  | Some ws => Ok (mkTxn (t_id t) (t_startSeq t) (t_state t)
                     (Some (<[key := mkMutation key value tombstone]> ws)) order)
  end.

Definition Write (t : Txn) (key value : bytes) : result txn_error Txn :=
  if negb (bool_decide (t_state t = StateActive)) then Err (terminalErr t) else
  recordWriteLocked t key value false.

Definition Delete (t : Txn) (key : bytes) : result txn_error Txn :=
  if negb (bool_decide (t_state t = StateActive)) then Err (terminalErr t) else
  recordWriteLocked t key [] true.

Definition finish (t : Txn) (s : State) : Txn := mkTxn (t_id t) (t_startSeq t) s None [].

Definition Commit (m : Manager) (t : Txn) (requestID : RequestID)
    : Manager * Txn * result txn_error Z :=
  if negb (bool_decide (t_state t = StateActive)) then (m, t, Err (terminalErr t)) else
  let '(m, outcome, cerr) := commit m (t_id t) requestID (t_startSeq t) (write_set t) in
  match cerr with
  | Some e => (m, finish t StateAborted, Err e)
  | None => (m, finish t StateCommitted, Ok (o_CommitSeq outcome))
  end.

Definition AbortTxn (t : Txn) : result txn_error Txn :=
  if negb (bool_decide (t_state t = StateActive)) then Err (terminalErr t)
  else Ok (finish t StateAborted).
