(* ===== verification/TxnSpec.v ===== *)
(** * What the standalone database promises

    The manager's invariant ties its three copies of the history together:
    the log on disk, the state machine and the ghost trace of the decided
    transactions.  Every step of the manager keeps it, restarts and crashes
    in the middle of a commit included, and the properties follow from it. *)

From S2P Require Import Prelude Bytes Hash Mvcc MvccSpec FsmCommand Fsm FsmSpec WalRecord Wal WalSpec Txn.

(** ** Requests *)

Lemma encode_commit_wf cmd : commit_cmd_wf cmd → wf_bytes (EncodeCommitTxn cmd).
Proof. intros [Hid _ _ Hm]. by apply encode_commit_bytes. Qed.

(** A request whose encoding fits a log record. *)
Definition fits (cmd : CommitTxnCommand) : Prop := zlen (EncodeCommitTxn cmd) ≤ MaxRecordPayloadSize.

Lemma fits_ok cmd : commit_cmd_wf cmd → fits cmd → commit_cmd_ok cmd ∧ payload_ok (EncodeCommitTxn cmd).
Proof.
  intros Hw Hf. split; [|split; [by apply encode_commit_wf|done]]. destruct Hw as [_ Ht Hs Hm].
  constructor; [done|done| |unfold fits, MaxRecordPayloadSize in Hf; lia].
  eapply Forall_impl; [exact Hm|]. by intros m (_ & _ & ?).
Qed.

(** ** Recovery *)

Lemma recover_records_app f n rs rs' :
  recover_records f n (rs ++ rs') = ('(f, n) ← recover_records f n rs; recover_records f n rs').
Proof.
  revert f n. induction rs as [|r rs IH]; intros f n; [done|]. cbn [recover_records app].
  destruct (wrap _ (DecodeCommitTxn _)) as [cmd|]; [|done]. rewrite !bind_Ok.
  destruct (wrap _ (Apply _ _ _)) as [[f' o]|]; [|done]. rewrite !bind_Ok. apply IH.
Qed.

Definition base_of (nid : bytes) : list Record_ := [meta_rec (fresh_meta nid)].

Record mgr_inv (nid : bytes) (m : Manager) (rs : list Record_) (tr : trace) : Prop := {
  mi_wal : wal_inv (m_walog m) (base_of nid) rs;
  mi_synced : all_synced (w_disk (m_walog m));
  mi_next : w_nextLogIndex (m_walog m) = m_lastSeq m + 1;
  mi_run : fsm_inv (mkRun (m_fsm m) (m_lastSeq m) tr);
  mi_watermark : f_gcWatermark (m_fsm m) = 0;
  mi_log : recover_records (New NewStore) 0 (served 1 rs) = Ok (m_fsm m, m_lastSeq m)
}.

(** Opening the directory and recovering, as the process does at startup. *)
Definition restart (d : Disk) (nid : bytes) (maxsz : Z) : result txn_error Manager :=
  w ← wrap ErrTxnWal (Open d nid maxsz); NewManager w NewStore.

(** The database a manager holds: what its clients can observe. *)
Definition contents (m : Manager) : FSM * Z := (m_fsm m, m_lastSeq m).

Lemma NewManager_recovers w nid rs m :
  wal_inv w (base_of nid) rs → all_synced (w_disk w) →
  (∃ tr, mgr_inv nid m rs tr) →
  ∃ m', NewManager w NewStore = Ok m' ∧ contents m' = contents m ∧
    ∀ tr, mgr_inv nid m rs tr → mgr_inv nid m' rs tr.
Proof.
  intros Hw Hsy (tr & Hi). unfold NewManager, recover, Replay. cbn [m_walog m_fsm m_lastSeq].
  rewrite (wi_open _ _ _ Hw), (replay_layout _ _ _ _ (wi_layout _ _ _ Hw)). cbn [wrap]. rewrite bind_Ok.
  rewrite (mi_log _ _ _ _ Hi). rewrite bind_Ok.
  eexists. split; [reflexivity|]. split; [done|]. clear tr Hi. intros tr Hi.
  pose proof (facts_open _ _ _ _ (hist_has_facts _ _ _ _ _ (wi_hist _ _ _ (mi_wal _ _ _ _ Hi)))) as H1.
  pose proof (facts_open _ _ _ _ (hist_has_facts _ _ _ _ _ (wi_hist _ _ _ Hw))) as H2.
  rewrite H1 in H2. injection H2 as _ Hn _. destruct Hi.
  constructor; cbn; [done|done|lia|done|done|done].
Qed.

(** A crash of the directory of [w]: the log reopens at a prefix of the
    history that contains everything synced. *)
Lemma reopen_prefix w nid rs rs0 d' nid' maxsz :
  wal_inv w (base_of nid) rs → durable (w_disk w) rs0 rs → base_of nid `prefix_of` rs0 → crash (w_disk w) d' →
  ∃ w' rs', Open d' nid' maxsz = Ok w' ∧ wal_inv w' (base_of nid) rs' ∧ all_synced (w_disk w') ∧
    rs0 `prefix_of` rs' ∧ rs' `prefix_of` rs.
Proof.
  intros H1 H2 H3 H4. destruct (crash_recovery _ _ _ _ d' nid' maxsz H1 H2 H3 H4)
    as (w' & rs' & HO & Hi & Hd & ? & ? & _).
  exists w', rs'. split; [done|]. split; [done|]. split; [|done].
  eapply durable_all_synced; [apply Hi|done].
Qed.

(** ** A fresh commit *)

Record committed_fresh (nid : bytes) (m : Manager) rs tr cmd (m' : Manager) (o : Outcome) (w1 : WAL) : Prop := {
  cf_append : AppendLogEntry (m_walog m) (EncodeCommitTxn cmd) = Ok (w1, m_lastSeq m + 1);
  cf_apply : Apply (m_fsm m) (m_lastSeq m + 1) cmd = Ok (m_fsm m', o);
  cf_last : m_lastSeq m' = m_lastSeq m + 1;
  cf_wal : m_walog m' = sync_current w1;
  cf_log_inv : wal_inv w1 (base_of nid) (rs ++ [log_rec (m_lastSeq m + 1) (EncodeCommitTxn cmd)]);
  cf_durable : durable (w_disk w1) rs (rs ++ [log_rec (m_lastSeq m + 1) (EncodeCommitTxn cmd)]);
  cf_inv : mgr_inv nid m' (rs ++ [log_rec (m_lastSeq m + 1) (EncodeCommitTxn cmd)])
             (tr ++ [mkDecided (m_lastSeq m + 1) cmd o]);
  cf_counters : m_RequestIDDuplicatesTotal m' = m_RequestIDDuplicatesTotal m ∧
    m_TxnConflictsTotal m' = if bool_decide (o_Status o = StatusAborted)
      then u64 (m_TxnConflictsTotal m + 1) else m_TxnConflictsTotal m
}.

(** The error [commit] derives from a decided outcome. *)
Definition conflict_of (o : Outcome) (startSeq : Z) : option txn_error :=
  if bool_decide (o_Status o = StatusAborted)
  then Some (ErrConflict (o_ConflictKey o) (o_ConflictLatestSeq o) startSeq) else None.

Lemma commit_result_eq m o s : commit_result m o s = (m, o, conflict_of o s).
Proof. unfold commit_result, conflict_of. by case_bool_decide. Qed.

Lemma append_log_synced nid m rs tr cmd :
  mgr_inv nid m rs tr → payload_ok (EncodeCommitTxn cmd) → m_lastSeq m + 2 < 2 ^ 64 →
  let rs' := rs ++ [log_rec (m_lastSeq m + 1) (EncodeCommitTxn cmd)] in
  ∃ w1, AppendLogEntry (m_walog m) (EncodeCommitTxn cmd) = Ok (w1, m_lastSeq m + 1) ∧
    wal_inv w1 (base_of nid) rs' ∧ durable (w_disk w1) rs rs' ∧
    Sync w1 = Ok (sync_current w1) ∧ wal_inv (sync_current w1) (base_of nid) rs' ∧
    all_synced (w_disk (sync_current w1)) ∧ w_nextLogIndex w1 = m_lastSeq m + 2.
Proof.
  intros Hi Hp Hb. cbv zeta. pose proof (mi_wal _ _ _ _ Hi) as Hw. pose proof (mi_next _ _ _ _ Hi) as Hn.
  destruct (wal_do_inv _ _ _ (OpLog (EncodeCommitTxn cmd)) Hw) as (w1 & H1 & Hi1); [split; [done|lia]|].
  cbn [wal_do op_records] in *. rewrite Hn in Hi1.
  destruct (AppendLogEntry _ _) as [[wx idx]|] eqn:HA; [|done]. rewrite bind_Ok in H1. injection H1 as ->.
  assert (idx = m_lastSeq m + 1 ∧ w_nextLogIndex w1 = m_lastSeq m + 2 ∧ closed_synced w1 ∧
    durable (w_disk w1) rs (rs ++ [log_rec (m_lastSeq m + 1) (EncodeCommitTxn cmd)])) as (-> & Hnx & Hc & Hd).
  { unfold AppendLogEntry in HA. rewrite (wi_open _ _ _ Hw) in HA.
    destruct (appendLocked _ _ _) as [w0|] eqn:Ha; [|done]. rewrite bind_Ok in HA. injection HA as <- <-.
    destruct (hist_next_u64 _ _ _ _ _ (wi_hist _ _ _ Hw)) as [Hu _].
    destruct (append_after_sync _ RecordTypeLogEntry _ rs w0 (wi_layout _ _ _ Hw) Hp Hu) as [Hcs Hdu];
      [by eapply hist_has_facts, Hw|by eapply mi_synced|done|].
    rewrite bool_decide_true, Hn in Hdu by done. split; [done|]. split; [|done].
    cbn [w_nextLogIndex modify set_w_nextLogIndex]. rewrite Hn, u64_small by (unfold is_u64 in *; lia). lia. }
  destruct (wal_do_inv _ _ _ OpSync Hi1) as (w2 & H2 & Hi2); [done|]. cbn [wal_do op_records] in *.
  rewrite app_nil_r in Hi2. assert (Hs : Sync w1 = Ok (sync_current w1)).
  { unfold Sync. by rewrite (wi_open _ _ _ Hi1). }
  rewrite Hs in H2. injection H2 as <-.
  exists w1. split; [done|]. split; [done|]. split; [done|]. split; [done|]. split; [done|].
  split; [|done]. apply sync_all. apply Forall_forall. intros s Hin Hne. cbn in Hin, Hne.
  unfold SyncSegment, on_segment in Hin. apply list_elem_of_fmap in Hin as (x & -> & Hx).
  case_bool_decide; [done|]. unfold closed_synced in Hc. rewrite Forall_forall in Hc. by apply Hc.
Qed.

Lemma Precheck_unknown f cmd : Precheck f cmd = Err ErrRequestIDUnknown ↔ f_outcomes f !! c_RequestID cmd = None.
Proof.
  unfold Precheck, lookupLocked. destruct (f_outcomes f !! _); [|done]. by case_bool_decide.
Qed.

Lemma served_snoc_log rs i p : 1 ≤ i → served 1 (rs ++ [log_rec i p]) = served 1 rs ++ [log_rec i p].
Proof. intros Hi. rewrite served_app. unfold served at 2. rewrite filter_cons, decide_True by done. done. Qed.

Lemma mgr_last_nonneg nid m rs tr : mgr_inv nid m rs tr → 0 ≤ m_lastSeq m.
Proof.
  intros Hi. destruct (hist_next_u64 _ _ _ _ _ (wi_hist _ _ _ (mi_wal _ _ _ _ Hi))) as [_ H].
  rewrite (mi_next _ _ _ _ Hi) in H. lia.
Qed.

Lemma commit_fresh nid m rs tr cmd :
  mgr_inv nid m rs tr → commit_cmd_wf cmd → fits cmd → m_lastSeq m + 2 < 2 ^ 64 →
  c_Mutations cmd ≠ [] → Precheck (m_fsm m) cmd = Err ErrRequestIDUnknown →
  ∃ m' o w1, commit m (c_TxnID cmd) (c_RequestID cmd) (c_StartSeq cmd) (c_Mutations cmd) =
      (m', o, conflict_of o (c_StartSeq cmd)) ∧
    committed_fresh nid m rs tr cmd m' o w1.
Proof.
  intros Hi Hwf Hfit Hb Hne Hpre. destruct (fits_ok _ Hwf Hfit) as [Hok Hp].
  destruct (append_log_synced _ _ _ _ cmd Hi Hp Hb) as (w1 & HA & Hi1 & Hd & HS & Hi2 & Hsy & Hnx).
  pose proof Hpre as Hfresh%Precheck_unknown.
  destruct (Apply_total _ (m_lastSeq m + 1) cmd (mi_run _ _ _ _ Hi)) as [(f' & o & HAp & _)|(_ & e & He & _)];
    [cbn; lia| |cbn in He; congruence]. cbn [r_fsm] in HAp.
  unfold commit. rewrite (proj2 (Z.eqb_neq _ _)).
  2: { destruct (c_Mutations cmd); [done|]. rewrite zlen_cons. pose proof (zlen_nonneg l). lia. }
  replace (mkCommitTxn (c_RequestID cmd) (c_TxnID cmd) (c_StartSeq cmd) (c_Mutations cmd)) with cmd by (by destruct cmd).
  cbv zeta. rewrite Hpre, HA, HS. cbn [m_fsm modify set_m_walog]. rewrite HAp, commit_result_eq.
  match goal with |- context [(?x, o, _)] => set (m' := x) end.
  assert (m_walog m' = sync_current w1 ∧ m_fsm m' = f' ∧ m_lastSeq m' = m_lastSeq m + 1 ∧
    m_RequestIDDuplicatesTotal m' = m_RequestIDDuplicatesTotal m ∧
    m_TxnConflictsTotal m' = if bool_decide (o_Status o = StatusAborted)
      then u64 (m_TxnConflictsTotal m + 1) else m_TxnConflictsTotal m) as (Hw' & Hf' & Hl' & Hd' & Hc').
  { unfold m'. by case_bool_decide. }
  clearbody m'. exists m', o, w1. split; [done|].
  assert (Hrun := inv_txn_fresh _ _ _ _ _ _ _ (mi_run _ _ _ _ Hi) (Z.lt_succ_diag_r _) Hfresh HAp).
  destruct (Apply_other_fields _ _ _ _ _ HAp) as (_ & _ & _ & Hgw & _).
  rewrite (mi_watermark _ _ _ _ Hi) in Hgw. pose proof (mgr_last_nonneg _ _ _ _ Hi).
  constructor; rewrite ?Hf'; try done.
  constructor; rewrite ?Hw', ?Hf', ?Hl'; try done.
  - change (w_nextLogIndex (sync_current w1)) with (w_nextLogIndex w1). lia.
  - rewrite served_snoc_log, recover_records_app, (mi_log _ _ _ _ Hi), bind_Ok by lia.
    cbn [recover_records r_Payload r_Index log_rec]. rewrite decode_encode_commit by done. cbn [wrap].
    rewrite bind_Ok, HAp. cbn [wrap]. rewrite bind_Ok, (proj2 (Z.ltb_lt _ _)) by lia. done.
Qed.

(** ** Crashes *)

Lemma restart_at nid m rs tr w nid' maxsz d' :
  mgr_inv nid m rs tr → Open d' nid' maxsz = Ok w → wal_inv w (base_of nid) rs → all_synced (w_disk w) →
  ∃ m', restart d' nid' maxsz = Ok m' ∧ contents m' = contents m ∧ mgr_inv nid m' rs tr.
Proof.
  intros Hi HO Hw Hsy. destruct (NewManager_recovers w nid rs m Hw Hsy) as (m' & HN & Hc & H); [by exists tr|].
  exists m'. unfold restart. rewrite HO. cbn [wrap]. rewrite bind_Ok. split; [done|]. split; [done|by apply H].
Qed.

(** Between commits nothing is lost. *)
Lemma crash_idle nid m rs tr d' nid' maxsz :
  mgr_inv nid m rs tr → crash (w_disk (m_walog m)) d' →
  ∃ m', restart d' nid' maxsz = Ok m' ∧ contents m' = contents m ∧ mgr_inv nid m' rs tr.
Proof.
  intros Hi Hc. pose proof (mi_wal _ _ _ _ Hi) as Hw.
  destruct (reopen_prefix _ _ _ rs d' nid' maxsz Hw) as (w & rs' & HO & Hw' & Hsy & H1 & H2).
  - eapply all_synced_durable; [apply Hw|by eapply mi_synced].
  - by eapply hist_extends, Hw.
  - done.
  - assert (rs' = rs) as -> by (by apply (anti_symm prefix)). by eapply restart_at.
Qed.

(** Between the append and the sync the command is there or it is not. *)
Lemma crash_in_commit nid m rs tr cmd m1 o w1 d' nid' maxsz :
  mgr_inv nid m rs tr → committed_fresh nid m rs tr cmd m1 o w1 → crash (w_disk w1) d' →
  ∃ m', restart d' nid' maxsz = Ok m' ∧
    ((contents m' = contents m ∧ mgr_inv nid m' rs tr) ∨
     (contents m' = contents m1 ∧
      mgr_inv nid m' (rs ++ [log_rec (m_lastSeq m + 1) (EncodeCommitTxn cmd)])
        (tr ++ [mkDecided (m_lastSeq m + 1) cmd o]))).
Proof.
  intros Hi [_ _ _ _ Hli Hdu Hi' _] Hc.
  destruct (reopen_prefix _ _ _ rs d' nid' maxsz Hli Hdu) as (w & rs' & HO & Hw' & Hsy & H1 & H2).
  - by eapply hist_extends, (mi_wal _ _ _ _ Hi).
  - done.
  - apply prefix_snoc_inv in H2 as [->|H2].
    + destruct (restart_at _ _ _ _ _ _ _ _ Hi' HO Hw' Hsy) as (m' & ? & ? & ?). exists m'. eauto.
    + assert (rs' = rs) as -> by (by apply (anti_symm prefix)).
      destruct (restart_at _ _ _ _ _ _ _ _ Hi HO Hw' Hsy) as (m' & ? & ? & ?). exists m'. eauto.
Qed.

(** ** Every other branch of [commit] leaves the database alone *)

Definition decides_nothing (m : Manager) (cmd : CommitTxnCommand) : Prop :=
  c_Mutations cmd = [] ∨ Precheck (m_fsm m) cmd ≠ Err ErrRequestIDUnknown ∨ ¬ fits cmd.

Lemma decides_or_not m cmd :
  decides_nothing m cmd ∨
  (c_Mutations cmd ≠ [] ∧ Precheck (m_fsm m) cmd = Err ErrRequestIDUnknown ∧ fits cmd).
Proof.
  unfold decides_nothing. destruct (c_Mutations cmd); [by left; left|].
  destruct (Z_le_dec (zlen (EncodeCommitTxn cmd)) MaxRecordPayloadSize) as [Hf|]; [|by left; right; right].
  destruct (Precheck (m_fsm m) cmd) as [|[]]; try (left; right; left; done). by right.
Qed.

Lemma commit_unchanged m cmd m' o e :
  commit m (c_TxnID cmd) (c_RequestID cmd) (c_StartSeq cmd) (c_Mutations cmd) = (m', o, e) →
  decides_nothing m cmd →
  m_walog m' = m_walog m ∧ contents m' = contents m ∧ m_nextTxnID m' = m_nextTxnID m.
Proof.
  intros H Hcase. unfold commit in H.
  replace (mkCommitTxn (c_RequestID cmd) (c_TxnID cmd) (c_StartSeq cmd) (c_Mutations cmd)) with cmd in H by (by destruct cmd).
  destruct (zlen (c_Mutations cmd) =? 0) eqn:Hz; [by injection H as <- _ _|]. cbv zeta in H.
  destruct (Precheck (m_fsm m) cmd) as [o'|e'] eqn:Hp.
  { rewrite commit_result_eq in H. by injection H as <- _ _. }
  destruct e'; try (by injection H as <- _ _).
  assert (Hbig : ¬ fits cmd).
  { destruct Hcase as [Hn|[Hn|Hn]]; [by rewrite Hn in Hz|done|done]. }
  assert (∃ e0, AppendLogEntry (m_walog m) (EncodeCommitTxn cmd) = Err e0) as (e0 & HA).
  { unfold AppendLogEntry, appendLocked. case_if; [by eexists|]. unfold fits in Hbig.
    rewrite (proj2 (Z.ltb_lt _ _)) by lia. by eexists. }
  rewrite HA in H. by injection H as <- _ _.
Qed.

(** ** The steps of the database *)

Definition trace_after (m m' : Manager) (cmd : CommitTxnCommand) (o : Outcome) (tr : trace) : trace :=
  if m_lastSeq m' =? m_lastSeq m then tr else tr ++ [mkDecided (m_lastSeq m') cmd o].

(** [db_crash] is a power failure between two operations followed by a
    restart; [db_crash_commit] one inside [commit], after the append. *)
Inductive db_step : Manager * trace → Manager * trace → Prop :=
| db_begin m tr : db_step (m, tr) ((Begin m).1, tr)
| db_commit m tr cmd m' o e :
    commit_cmd_wf cmd → m_lastSeq m + 2 < 2 ^ 64 →
    commit m (c_TxnID cmd) (c_RequestID cmd) (c_StartSeq cmd) (c_Mutations cmd) = (m', o, e) →
    db_step (m, tr) (m', trace_after m m' cmd o tr)
| db_crash m tr d' nid' maxsz m' :
    crash (w_disk (m_walog m)) d' → restart d' nid' maxsz = Ok m' → db_step (m, tr) (m', tr)
| db_crash_commit m tr cmd w1 idx d' nid' maxsz m' :
    commit_cmd_wf cmd → m_lastSeq m + 2 < 2 ^ 64 → c_Mutations cmd ≠ [] →
    Precheck (m_fsm m) cmd = Err ErrRequestIDUnknown →
    AppendLogEntry (m_walog m) (EncodeCommitTxn cmd) = Ok (w1, idx) →
    crash (w_disk w1) d' → restart d' nid' maxsz = Ok m' →
    db_step (m, tr) (m', trace_after m m' cmd (default zero_outcome (GetOutcome (m_fsm m') (c_RequestID cmd))) tr).

Definition db_reachable (m : Manager) (tr : trace) : Prop :=
  ∃ nid maxsz m0, wf_bytes nid ∧ zlen nid < 2 ^ 16 ∧ restart [] nid maxsz = Ok m0 ∧ rtc db_step (m0, []) (m, tr).

(** What a step may do to the trace. *)
Definition grows (m : Manager) (tr : trace) (m' : Manager) (tr' : trace) : Prop :=
  m_lastSeq m ≤ m_lastSeq m' ∧
  ∃ new, tr' = tr ++ new ∧ Forall (λ d, m_lastSeq m < d_index d) new.

Lemma grows_refl m m' tr : m_lastSeq m' = m_lastSeq m → grows m tr m' tr.
Proof. intros H. split; [lia|]. exists []. by rewrite app_nil_r. Qed.

Lemma mgr_inv_same nid m m' rs tr :
  mgr_inv nid m rs tr → m_walog m' = m_walog m → contents m' = contents m → mgr_inv nid m' rs tr.
Proof. intros [] Hw [= Hf Hl]. by constructor; rewrite ?Hw, ?Hf, ?Hl. Qed.

Lemma outcome_of_fresh nid m rs tr cmd m1 o w1 :
  committed_fresh nid m rs tr cmd m1 o w1 →
  GetOutcome (m_fsm m1) (c_RequestID cmd) = Some o.
Proof.
  intros H. destruct (cf_inv _ _ _ _ _ _ _ _ H) as [_ _ _ Hrun _ _].
  unfold GetOutcome. assert (f_outcomes (m_fsm m1) !! c_RequestID cmd = Some (mkOutcomeEntry o (fingerprintOf cmd))) as ->; [|done].
  apply (fi_outcomes _ Hrun). exists (mkDecided (m_lastSeq m + 1) cmd o). split; [|done]. cbn. set_solver.
Qed.

Lemma trace_after_fresh nid m rs tr cmd m1 o w1 :
  committed_fresh nid m rs tr cmd m1 o w1 →
  trace_after m m1 cmd o tr = tr ++ [mkDecided (m_lastSeq m + 1) cmd o].
Proof. intros H. unfold trace_after. rewrite (cf_last _ _ _ _ _ _ _ _ H), (proj2 (Z.eqb_neq _ _)) by lia. done. Qed.

Lemma grows_fresh nid m rs tr cmd m1 o w1 :
  committed_fresh nid m rs tr cmd m1 o w1 →
  (∃ rs', mgr_inv nid m1 rs' (trace_after m m1 cmd o tr)) ∧ grows m tr m1 (trace_after m m1 cmd o tr).
Proof.
  intros H. rewrite (trace_after_fresh _ _ _ _ _ _ _ _ H). split; [eexists; apply H|].
  split; [rewrite (cf_last _ _ _ _ _ _ _ _ H); lia|]. eexists. split; [reflexivity|].
  apply Forall_singleton. cbn. lia.
Qed.

Lemma db_step_inv nid m rs tr m' tr' :
  mgr_inv nid m rs tr → db_step (m, tr) (m', tr') →
  (∃ rs', mgr_inv nid m' rs' tr') ∧ grows m tr m' tr'.
Proof.
  intros Hi H. inversion H as [|? ? cmd ? o e Hwf Hb Hc|? ? d' nid' maxsz ? Hcr Hre
    |? ? cmd w1 idx d' nid' maxsz ? Hwf Hb Hne Hpre HA Hcr Hre]; subst; clear H.
  - split; [|by apply grows_refl]. exists rs. by eapply mgr_inv_same.
  - destruct (decides_or_not m cmd) as [Hd|(Hne & Hpre & Hfit)].
    + destruct (commit_unchanged _ _ _ _ _ Hc Hd) as (Hw & Hk & _). pose proof Hk as [= _ Hl].
      unfold trace_after. rewrite (proj2 (Z.eqb_eq _ _)) by done.
      split; [exists rs; by eapply mgr_inv_same|by apply grows_refl].
    + destruct (commit_fresh _ _ _ _ _ Hi Hwf Hfit Hb Hne Hpre) as (m1 & o1 & w1 & Hc1 & Hcf).
      rewrite Hc1 in Hc. injection Hc as <- <- _. by eapply grows_fresh.
  - destruct (crash_idle _ _ _ _ _ nid' maxsz Hi Hcr) as (m1 & Hm1 & Hk & Hi1).
    rewrite Hre in Hm1. injection Hm1 as ->. injection Hk as _ Hl.
    split; [by exists rs|by apply grows_refl].
  - destruct (decides_or_not m cmd) as [[?|[?|Hbig]]|(_ & _ & Hfit)]; [done|done| |].
    { exfalso. unfold AppendLogEntry, appendLocked, fits in *. rewrite (wi_open _ _ _ (mi_wal _ _ _ _ Hi)) in HA.
      by rewrite (proj2 (Z.ltb_lt _ _)) in HA by lia. }
    destruct (commit_fresh _ _ _ _ _ Hi Hwf Hfit Hb Hne Hpre) as (m1 & o1 & w1' & Hc1 & Hcf).
    rewrite (cf_append _ _ _ _ _ _ _ _ Hcf) in HA. injection HA as <- <-.
    destruct (crash_in_commit _ _ _ _ _ _ _ _ _ nid' maxsz Hi Hcf Hcr) as (m2 & Hm2 & Hk).
    rewrite Hre in Hm2. injection Hm2 as ->. destruct Hk as [[[= Hf Hl] Hi2]|[[= Hf Hl] Hi2]].
    + unfold trace_after. rewrite Hl, Z.eqb_refl. split; [by exists rs|by apply grows_refl].
    + assert (Ht : trace_after m m2 cmd (default zero_outcome (GetOutcome (m_fsm m2) (c_RequestID cmd))) tr =
        trace_after m m1 cmd o1 tr).
      { unfold trace_after. by rewrite Hl, Hf, (outcome_of_fresh _ _ _ _ _ _ _ _ Hcf). }
      rewrite Ht. destruct (grows_fresh _ _ _ _ _ _ _ _ Hcf) as [_ [Hle Hg]].
      split; [|split; [by rewrite Hl|done]]. rewrite (trace_after_fresh _ _ _ _ _ _ _ _ Hcf). by eexists.
Qed.

Lemma initial_inv nid maxsz :
  wf_bytes nid → zlen nid < 2 ^ 16 →
  ∃ m0, restart [] nid maxsz = Ok m0 ∧ mgr_inv nid m0 (base_of nid) [].
Proof.
  intros Hn Hl. destruct (open_fresh nid maxsz Hn Hl) as (w & HO & Hw & Hd).
  assert (Hs : served 1 (base_of nid) = []) by (unfold served, base_of; rewrite filter_cons_False; [done|by intros [? _]]).
  unfold restart. rewrite HO. cbn [wrap]. rewrite bind_Ok. unfold NewManager, recover, Replay. cbn [m_walog].
  rewrite (wi_open _ _ _ Hw), (replay_layout _ _ _ _ (wi_layout _ _ _ Hw)). cbn [wrap]. fold (base_of nid).
  rewrite bind_Ok, Hs. cbn [recover_records]. rewrite bind_Ok. eexists. split; [reflexivity|].
  constructor; [done|by eapply durable_all_synced; [apply Hw|]| |apply fsm_inv_initial|done|by rewrite Hs]. cbn.
  pose proof (facts_open _ _ _ _ (hist_has_facts _ _ _ _ _ (wi_hist _ _ _ Hw))) as H1.
  pose proof (facts_open _ _ _ _ (fresh_facts _ (fresh_meta_good nid Hn Hl) eq_refl)) as H2.
  fold (base_of nid) in H1, H2. rewrite H1 in H2. injection H2 as _ H2 _. lia.
Qed.

Lemma db_steps_inv x y :
  rtc db_step x y → ∀ nid rs, mgr_inv nid x.1 rs x.2 →
  (∃ rs', mgr_inv nid y.1 rs' y.2) ∧ grows x.1 x.2 y.1 y.2.
Proof.
  induction 1 as [x|[m tr] [m' tr'] [m'' tr''] Hstep _ IH]; intros nid rs Hi; cbn in *.
  { split; [by exists rs|by apply grows_refl]. }
  destruct (db_step_inv _ _ _ _ _ _ Hi Hstep) as ((rs' & Hi') & Hl & new & -> & Hn).
  destruct (IH _ _ Hi') as (? & Hl' & new' & -> & Hn'). split; [done|]. split; [lia|].
  exists (new ++ new'). rewrite app_assoc. split; [done|]. apply Forall_app_2; [done|].
  eapply Forall_impl; [exact Hn'|]. cbn. intros; lia.
Qed.

Lemma db_reachable_inv m tr : db_reachable m tr → ∃ nid rs, mgr_inv nid m rs tr.
Proof.
  intros (nid & maxsz & m0 & Hn & Hl & Hr & Hs). destruct (initial_inv nid maxsz Hn Hl) as (m1 & Hm1 & Hi).
  rewrite Hr in Hm1. injection Hm1 as ->. exists nid. by apply (db_steps_inv _ _ Hs nid (base_of nid)).
Qed.

(** ** Reads *)

(** A snapshot does not see commits decided after it was taken. *)
Lemma db_at_extend tr new seq :
  Forall (λ d, seq < d_index d) new → db_at (history_of (tr ++ new)) seq = db_at (history_of tr) seq.
Proof.
  intros Hn. unfold db_at, history_of. rewrite filter_app, fmap_app, filter_app.
  rewrite (filter_none _ (_ <$> filter _ new)), app_nil_r; [done|].
  apply Forall_fmap, Forall_forall. intros d [_ Hd]%list_elem_of_filter. rewrite Forall_forall in Hn.
  specialize (Hn d Hd). cbn. lia.
Qed.

Lemma mgr_visible nid m rs tr k seq :
  mgr_inv nid m rs tr → 0 ≤ seq → Visible (f_store (m_fsm m)) k seq = Ok (db_at (history_of tr) seq !! k).
Proof.
  intros Hi Hs. pose proof (mi_run _ _ _ _ Hi) as Hr. apply refines_visible; [apply Hr|].
  pose proof (fi_horizon _ Hr) as Hh. cbn in Hh. by rewrite Hh, (mi_watermark _ _ _ _ Hi).
Qed.

(** ** Sessions *)

(** The operations a client may call on an open session. *)
Inductive session_op := SWrite (key value : bytes) | SDelete (key : bytes).
Definition session_do (t : Txn) (op : session_op) : result txn_error Txn :=
  match op with SWrite k v => Write t k v | SDelete k => Delete t k end.
Fixpoint session_run (t : Txn) (ops : list session_op) : result txn_error Txn :=
  match ops with [] => Ok t | op :: ops => t ← session_do t op; session_run t ops end.

Definition op_key (op : session_op) : bytes := match op with SWrite k _ | SDelete k => k end.
Definition op_value (op : session_op) : option bytes := match op with SWrite _ v => Some v | SDelete _ => None end.
Definition op_mutation (op : session_op) : Mutation :=
  match op with SWrite k v => mkMutation k v false | SDelete k => mkMutation k [] true end.

(** The last write of a key, as a map; the keys in the order of their first. *)
Definition write_map (ops : list session_op) : gmap bytes Mutation :=
  foldl (λ ws op, <[op_key op := op_mutation op]> ws) ∅ ops.
Definition write_order (ops : list session_op) : list bytes :=
  foldl (λ ks op, if decide (op_key op ∈ ks) then ks else ks ++ [op_key op]) [] ops.

(** What every session satisfies: an open one has a map whose domain is its
    order, without repetition; a closed one has neither. *)
Record session_inv (t : Txn) : Prop := {
  si_active : t_state t = StateActive → ∃ ws, t_writes t = Some ws ∧ dom ws = list_to_set (t_order t) ∧
    NoDup (t_order t) ∧ map_Forall (λ k m, Key m = k ∧ mutation_ok m) ws;
  si_closed : t_state t ≠ StateActive → t_writes t = None ∧ t_order t = []
}.

Lemma session_inv_begin m : session_inv (Begin m).2.
Proof.
  constructor; cbn; [|done]. intros _. exists ∅. split; [done|]. split; [by rewrite dom_empty_L|].
  split; [constructor|apply map_Forall_empty].
Qed.

Lemma session_inv_finish t s : s ≠ StateActive → session_inv (finish t s).
Proof. intros Hs. by constructor. Qed.

Lemma record_write t k v b :
  session_inv t → t_state t = StateActive → (b = true → v = []) →
  ∃ t' ws, recordWriteLocked t k v b = Ok t' ∧ session_inv t' ∧ t_writes t = Some ws ∧
    t' = mkTxn (t_id t) (t_startSeq t) StateActive (Some (<[k := mkMutation k v b]> ws))
           (if decide (k ∈ t_order t) then t_order t else t_order t ++ [k]).
Proof.
  intros [Ha _] Hs Hb. destruct (Ha Hs) as (ws & Hw & Hd & Hnd & Hf).
  assert (Hiff : ws !! k = None ↔ k ∉ t_order t).
  { rewrite <- not_elem_of_dom, Hd. by rewrite elem_of_list_to_set. }
  unfold recordWriteLocked, own_write. rewrite Hw. cbn [mbind option_bind]. do 2 eexists.
  split; [reflexivity|]. split; [|split; [done|]].
  - constructor; cbn; [intros _|by rewrite Hs]. eexists. split; [done|]. split; [|split].
    + rewrite dom_insert_L, Hd. destruct (decide (ws !! k = None)) as [Hn|Hn]; [set_solver|].
      assert (k ∈ t_order t) by (destruct (decide (k ∈ t_order t)); tauto). set_solver.
    + destruct (decide (ws !! k = None)) as [Hn|Hn]; [|done]. apply NoDup_app. split; [done|].
      split; [|apply NoDup_singleton]. intros x Hx ->%list_elem_of_singleton. tauto.
    + apply map_Forall_insert_2; [|done]. by split.
  - rewrite Hs. f_equal. destruct (decide (ws !! k = None)), (decide (k ∈ t_order t)); tauto.
Qed.

Lemma session_step t op :
  session_inv t → t_state t = StateActive →
  ∃ t' ws, session_do t op = Ok t' ∧ session_inv t' ∧ t_writes t = Some ws ∧
    t' = mkTxn (t_id t) (t_startSeq t) StateActive (Some (<[op_key op := op_mutation op]> ws))
           (if decide (op_key op ∈ t_order t) then t_order t else t_order t ++ [op_key op]).
Proof.
  intros Hi Hs. destruct op as [k v|k]; cbn [session_do op_key op_mutation];
    unfold Write, Delete; rewrite bool_decide_true by done; by apply record_write.
Qed.

Lemma session_run_spec id s ws order ops :
  session_inv (mkTxn id s StateActive (Some ws) order) →
  ∃ t, session_run (mkTxn id s StateActive (Some ws) order) ops = Ok t ∧ session_inv t ∧
    t = mkTxn id s StateActive (Some (foldl (λ ws op, <[op_key op := op_mutation op]> ws) ws ops))
          (foldl (λ ks op, if decide (op_key op ∈ ks) then ks else ks ++ [op_key op]) order ops).
Proof.
  revert ws order. induction ops as [|op ops IH]; intros ws order Hi; [by eexists|]. cbn [session_run foldl].
  destruct (session_step _ op Hi eq_refl) as (t' & ws' & -> & Hi' & [= <-] & ->). rewrite bind_Ok. by apply IH.
Qed.

(** A session just begun and used for some writes. *)
Lemma session_from_begin m ops :
  ∃ t, session_run (Begin m).2 ops = Ok t ∧ session_inv t ∧
    t = mkTxn (u64 (m_nextTxnID m + 1)) (m_lastSeq m) StateActive (Some (write_map ops)) (write_order ops).
Proof. apply session_run_spec, (session_inv_begin m). Qed.

Lemma write_map_last ops k :
  write_map ops !! k = op_mutation <$> last (filter (λ op, op_key op = k) ops).
Proof.
  unfold write_map. induction ops as [|op ops IH] using rev_ind; [done|].
  rewrite foldl_app, filter_app, filter_cons, filter_nil. cbn [foldl].
  destruct (decide (op_key op = k)) as [<-|Hne].
  - by rewrite lookup_insert_eq, last_snoc.
  - by rewrite lookup_insert_ne, app_nil_r.
Qed.

Lemma write_order_spec ops :
  NoDup (write_order ops) ∧ ∀ k, k ∈ write_order ops ↔ k ∈ op_key <$> ops.
Proof.
  unfold write_order. induction ops as [|op ops [IH1 IH2]] using rev_ind.
  { split; [constructor|]. done. }
  rewrite foldl_app, fmap_app. cbn [foldl fmap list_fmap]. set (ks := foldl _ [] ops) in *.
  destruct (decide (op_key op ∈ ks)) as [Hin|Hin].
  - split; [done|]. intros k. rewrite IH2. pose proof (proj1 (IH2 _) Hin). set_solver.
  - split; [|set_solver]. apply NoDup_app. split; [done|]. split; [|apply NoDup_singleton].
    intros x Hx ->%list_elem_of_singleton. done.
Qed.

(** What is left of a session that committed or aborted: every call is
    refused with [e] and changes nothing. *)
Definition closed_session (t : Txn) (e : txn_error) : Prop :=
  LocalWrites t = [] ∧ (∀ m k, Read m t k = Err e) ∧ (∀ op, session_do t op = Err e) ∧
  (∀ m req, Commit m t req = (m, t, Err e)) ∧ AbortTxn t = Err e.

Lemma finish_closed t s :
  s ≠ StateActive →
  closed_session (finish t s) (match s with StateCommitted => ErrAlreadyCommitted | _ => ErrAlreadyAborted end).
Proof. intros Hs. destruct s; [done| |]; (split; [done|]; split; [done|]; split; [by intros []|]; done). Qed.

(** The write set of a session, from the calls made on it. *)
Definition submitted (ops : list session_op) : list Mutation :=
  omap (λ k, op_mutation <$> last (filter (λ op, op_key op = k) ops)) (write_order ops).

Lemma write_set_spec id s ops :
  write_set (mkTxn id s StateActive (Some (write_map ops)) (write_order ops)) = submitted ops.
Proof.
  unfold write_set, submitted, own_write. cbn [t_writes t_order mbind option_bind].
  assert (H : ∀ k, k ∈ write_order ops → is_Some (write_map ops !! k)).
  { intros k (op & -> & Hop)%(write_order_spec ops)%list_elem_of_fmap. rewrite write_map_last.
    destruct (last _) eqn:E; [done|]. apply last_None in E.
    assert (Hn : op ∈ filter (λ op0, op_key op0 = op_key op) ops) by (by apply list_elem_of_filter).
    rewrite E in Hn. by apply not_elem_of_nil in Hn. }
  induction (write_order ops) as [|k ks IH]; [done|]. cbn [fmap list_fmap omap list_omap].
  rewrite <- IH by (intros; apply H; by right). rewrite <- write_map_last.
  destruct (H k) as [mu ->]; [by left|]. done.
Qed.

Definition session_op_wf (op : session_op) : Prop :=
  wf_bytes (op_key op) ∧ wf_bytes (default [] (op_value op)).

Lemma submitted_wf ops : Forall session_op_wf ops → Forall mutation_wf (submitted ops).
Proof.
  intros Hops. apply Forall_forall. intros mu (k & Hk & Hmu)%list_elem_of_omap.
  destruct (last _) as [op|] eqn:E; [|done]. injection Hmu as <-.
  apply last_Some_elem_of, list_elem_of_filter in E as [_ Hop].
  rewrite Forall_forall in Hops. destruct (Hops _ Hop) as [H1 H2].
  destruct op; (split; [done|]; split; [done|]; done).
Qed.

(** ** What a commit decides *)

Lemma db_at_all tr seq :
  Forall (λ d, d_index d ≤ seq) tr →
  db_at (history_of tr) seq = foldl (λ db c, foldl apply_mutation db (commit_mutations c)) ∅ (history_of tr).
Proof.
  intros H. unfold db_at. f_equal. apply filter_all. apply Forall_forall.
  intros c (d & Hd & _ & ->)%elem_of_history_of. rewrite Forall_forall in H. by apply H.
Qed.

Lemma db_at_commit tr i cmd o seq :
  Forall (λ d, d_index d ≤ seq) tr → seq ≤ i → o_Status o = StatusCommitted →
  db_at (history_of (tr ++ [mkDecided i cmd o])) i =
  foldl apply_mutation (db_at (history_of tr) seq) (c_Mutations cmd).
Proof.
  intros Ht Hs Ho. rewrite (db_at_all tr) by done. rewrite db_at_all.
  - rewrite history_of_snoc. unfold is_committed at 1. cbn [d_outcome]. rewrite bool_decide_true by done.
    by rewrite foldl_app.
  - apply Forall_app_2; [|apply Forall_singleton; cbn; lia]. eapply Forall_impl; [exact Ht|]. cbn. lia.
Qed.

(** The log of [m'] is the log of [m] and one record of the command. *)
Definition logged (m : Manager) (cmd : CommitTxnCommand) (m' : Manager) : Prop :=
  ∃ old, Replay (m_walog m) 1 = Ok (old, None) ∧
    Replay (m_walog m') 1 = Ok (old ++ [log_rec (m_lastSeq m + 1) (EncodeCommitTxn cmd)], None) ∧
    m_lastSeq m' = m_lastSeq m + 1.

(** The current database. *)
Definition database (tr : trace) (m : Manager) : gmap bytes bytes := db_at (history_of tr) (m_lastSeq m).

(** A commit that was decided after the snapshot and wrote a common key. *)
Definition overwritten (tr : trace) (cmd : CommitTxnCommand) : Prop :=
  ∃ mu c, mu ∈ c_Mutations cmd ∧ c ∈ history_of tr ∧ writes c (Key mu) ∧ c_StartSeq cmd < commit_seq c.

(** The possible answers to a request, with the conditions under which each
    is given; the conditions exclude each other. *)
Inductive commit_answer (m : Manager) (tr : trace) (cmd : CommitTxnCommand)
    : Manager → Outcome → option txn_error → Prop :=
| answer_readonly :
    c_Mutations cmd = [] →
    commit_answer m tr cmd m (mkOutcome (c_RequestID cmd) StatusCommitted (m_lastSeq m) [] 0) None
| answer_retry d m' :
    c_Mutations cmd ≠ [] → d ∈ tr → c_RequestID (d_cmd d) = c_RequestID cmd →
    fingerprintOf (d_cmd d) = fingerprintOf cmd → contents m' = contents m → m_walog m' = m_walog m →
    commit_answer m tr cmd m' (d_outcome d) (conflict_of (d_outcome d) (c_StartSeq cmd))
| answer_reused d :
    c_Mutations cmd ≠ [] → d ∈ tr → c_RequestID (d_cmd d) = c_RequestID cmd →
    fingerprintOf (d_cmd d) ≠ fingerprintOf cmd →
    commit_answer m tr cmd m zero_outcome (Some (ErrTxnFsm ErrRequestIDPayloadMismatch))
| answer_too_large :
    c_Mutations cmd ≠ [] → (∀ d, d ∈ tr → c_RequestID (d_cmd d) ≠ c_RequestID cmd) → ¬ fits cmd →
    commit_answer m tr cmd m zero_outcome (Some (ErrTxnWal ErrRecordTooLarge))
| answer_conflict m' key latest :
    c_Mutations cmd ≠ [] → (∀ d, d ∈ tr → c_RequestID (d_cmd d) ≠ c_RequestID cmd) → fits cmd →
    overwritten tr cmd → logged m cmd m' → f_store (m_fsm m') = f_store (m_fsm m) →
    commit_answer m tr cmd m' (mkOutcome (c_RequestID cmd) StatusAborted 0 key latest)
      (Some (ErrConflict key latest (c_StartSeq cmd)))
| answer_committed m' :
    c_Mutations cmd ≠ [] → (∀ d, d ∈ tr → c_RequestID (d_cmd d) ≠ c_RequestID cmd) → fits cmd →
    ¬ overwritten tr cmd → logged m cmd m' →
    (∀ k, Visible (f_store (m_fsm m')) k (m_lastSeq m') =
          Ok (foldl apply_mutation (database tr m) (c_Mutations cmd) !! k)) →
    commit_answer m tr cmd m' (mkOutcome (c_RequestID cmd) StatusCommitted (m_lastSeq m') [] 0) None.

Lemma unknown_in_trace nid m rs tr id :
  mgr_inv nid m rs tr → f_outcomes (m_fsm m) !! id = None ↔ ∀ d, d ∈ tr → c_RequestID (d_cmd d) ≠ id.
Proof.
  intros Hi. pose proof (fi_outcomes _ (mi_run _ _ _ _ Hi) id) as Ho. cbn in Ho. split.
  - intros Hn d Hd He. pose proof (proj2 (Ho _) (ex_intro _ d (conj Hd (conj He eq_refl)))). congruence.
  - intros Hn. destruct (f_outcomes (m_fsm m) !! id) as [e|]; [|done].
    destruct (proj1 (Ho e) eq_refl) as (d & Hd & He & _). by destruct (Hn d Hd).
Qed.

Lemma fresh_answer nid m rs tr cmd m' o w1 :
  mgr_inv nid m rs tr → commit_cmd_wf cmd → fits cmd → c_Mutations cmd ≠ [] →
  f_outcomes (m_fsm m) !! c_RequestID cmd = None → committed_fresh nid m rs tr cmd m' o w1 →
  commit_answer m tr cmd m' o (conflict_of o (c_StartSeq cmd)).
Proof.
  intros Hi Hwf Hfit Hne Hfresh Hcf. pose proof (mi_run _ _ _ _ Hi) as Hrun.
  pose proof (proj1 (unknown_in_trace _ _ _ _ _ Hi) Hfresh) as Hnone.
  pose proof (cf_inv _ _ _ _ _ _ _ _ Hcf) as Hi'. pose proof (mgr_last_nonneg _ _ _ _ Hi) as H0.
  pose proof (CheckConflicts_exact _ _ (c_StartSeq cmd) (c_Mutations cmd) (fi_store _ Hrun)) as Hcc.
  cbn in Hcc. fold (overwritten tr cmd) in Hcc.
  assert (Hlog : logged m cmd m').
  { exists (served 1 rs). unfold Replay.
    rewrite (wi_open _ _ _ (mi_wal _ _ _ _ Hi)), (wi_open _ _ _ (mi_wal _ _ _ _ Hi')).
    rewrite (replay_layout _ _ _ _ (wi_layout _ _ _ (mi_wal _ _ _ _ Hi))).
    rewrite (replay_layout _ _ _ _ (wi_layout _ _ _ (mi_wal _ _ _ _ Hi'))), served_snoc_log by lia.
    split; [done|]. split; [done|apply Hcf]. }
  destruct (Apply_fresh _ _ _ _ _ Hfresh (cf_apply _ _ _ _ _ _ _ _ Hcf))
    as [(Hlt & _)|[(key & latest & _ & Hc & -> & Hf)|(s' & _ & Hc & Hs & -> & Hf)]].
  - rewrite (mi_watermark _ _ _ _ Hi) in Hlt. destruct (ccw_start _ Hwf). lia.
  - unfold conflict_of. cbn [o_Status o_ConflictKey o_ConflictLatestSeq]. rewrite bool_decide_true by done.
    apply answer_conflict; try done; [apply Hcc; by rewrite Hc|by rewrite Hf].
  - unfold conflict_of. cbn [o_Status]. rewrite bool_decide_false by done.
    rewrite <- (cf_last _ _ _ _ _ _ _ _ Hcf).
    apply answer_committed; try done; [rewrite <- Hcc, Hc; naive_solver|].
    intros k. rewrite (mgr_visible _ _ _ _ _ _ Hi') by (rewrite (cf_last _ _ _ _ _ _ _ _ Hcf); lia).
    unfold database. rewrite (cf_last _ _ _ _ _ _ _ _ Hcf).
    rewrite (db_at_commit _ _ _ _ (m_lastSeq m)); [done|apply Hrun|lia|done].
Qed.

Lemma commit_answers nid m rs tr cmd m' o e :
  mgr_inv nid m rs tr → commit_cmd_wf cmd → m_lastSeq m + 2 < 2 ^ 64 →
  commit m (c_TxnID cmd) (c_RequestID cmd) (c_StartSeq cmd) (c_Mutations cmd) = (m', o, e) →
  commit_answer m tr cmd m' o e.
Proof.
  intros Hi Hwf Hb Hc.
  destruct (decides_or_not m cmd) as [Hd|(Hne & Hpre & Hfit)].
  2: { destruct (commit_fresh _ _ _ _ _ Hi Hwf Hfit Hb Hne Hpre) as (m1 & o1 & w1 & Hc1 & Hcf).
       rewrite Hc1 in Hc. injection Hc as <- <- <-. eapply fresh_answer; try done. by apply Precheck_unknown. }
  destruct (commit_unchanged _ _ _ _ _ Hc Hd) as (Hw & Hk & _). unfold commit in Hc.
  replace (mkCommitTxn (c_RequestID cmd) (c_TxnID cmd) (c_StartSeq cmd) (c_Mutations cmd)) with cmd in Hc by (by destruct cmd).
  destruct (Z.eqb_spec (zlen (c_Mutations cmd)) 0) as [Hz|Hz].
  { injection Hc as <- <- <-. apply answer_readonly. apply nil_length_inv. unfold zlen in Hz. lia. }
  assert (Hne : c_Mutations cmd ≠ []) by (intros E; by rewrite E in Hz). cbv zeta in Hc.
  unfold Precheck, lookupLocked in Hc. destruct (f_outcomes (m_fsm m) !! c_RequestID cmd) as [oe|] eqn:Ho.
  - apply (fi_outcomes _ (mi_run _ _ _ _ Hi)) in Ho as (d & Hdin & Hid & ->). cbn [oe_fingerprint oe_outcome] in Hc.
    case_bool_decide as Hfp; cbn [negb] in Hc.
    + rewrite commit_result_eq in Hc. injection Hc as <- <- <-. by apply answer_retry.
    + injection Hc as <- <- <-. by eapply answer_reused.
  - pose proof (proj1 (unknown_in_trace _ _ _ _ _ Hi) Ho) as Hnone.
    destruct Hd as [?|[Hp|Hbig]]; [done|by destruct Hp; apply Precheck_unknown|].
    unfold AppendLogEntry, appendLocked in Hc. rewrite (wi_open _ _ _ (mi_wal _ _ _ _ Hi)) in Hc.
    rewrite (proj2 (Z.ltb_lt _ _)) in Hc by (unfold fits in Hbig; lia). injection Hc as <- <- <-.
    by apply answer_too_large.
Qed.

(** ** Properties of the standalone database *)

(** C23: snapshot isolation as a session sees it.  A transaction begun in any
    reachable state reads its own last write of a key, a delete included, and
    otherwise the value of the database as it was when the transaction began,
    however many transactions commit, and however often the database
    restarts, before the read. *)
Theorem txn_snapshot_reads m0 tr0 m tr ops k :
  db_reachable m0 tr0 → rtc db_step ((Begin m0).1, tr0) (m, tr) →
  ∃ t, session_run (Begin m0).2 ops = Ok t ∧
    Read m t k = Ok (match last (filter (λ op, op_key op = k) ops) with
                     | Some op => op_value op
                     | None => db_at (history_of tr0) (m_lastSeq m0) !! k
                     end).
Proof.
  intros Hr Hs. destruct (db_reachable_inv _ _ Hr) as (nid & rs & Hi).
  pose proof (mgr_last_nonneg _ _ _ _ Hi) as H0.
  destruct (db_steps_inv _ _ Hs nid rs) as ((rs' & Hi') & _ & new & Htr & Hnew); [by eapply mgr_inv_same|].
  cbn in Htr, Hnew, Hi'. destruct (session_from_begin m0 ops) as (t & Ht & _ & ->).
  eexists. split; [exact Ht|]. unfold Read, own_write. cbn [t_state t_writes t_startSeq mbind option_bind].
  rewrite bool_decide_true by done. cbn [negb]. rewrite write_map_last.
  destruct (last _) as [[k' v|k']|]; cbn [fmap option_fmap option_map]; [done|done|].
  rewrite (mgr_visible _ _ _ _ _ _ Hi' H0), Htr, db_at_extend by done. done.
Qed.

(** C22: commits are atomic and durable.  A fresh request first reaches the log
    unsynced; a power failure then leaves the database exactly as before or
    exactly as after the commit, and never refuses to start.  Once [commit]
    has returned, every power failure restarts to exactly the state it
    returned in, outcome table included. *)
Theorem txn_crash_atomic m tr cmd nid' maxsz :
  db_reachable m tr → commit_cmd_wf cmd → fits cmd → m_lastSeq m + 2 < 2 ^ 64 →
  c_Mutations cmd ≠ [] → Precheck (m_fsm m) cmd = Err ErrRequestIDUnknown →
  ∃ m1 o e w1 idx,
    commit m (c_TxnID cmd) (c_RequestID cmd) (c_StartSeq cmd) (c_Mutations cmd) = (m1, o, e) ∧
    AppendLogEntry (m_walog m) (EncodeCommitTxn cmd) = Ok (w1, idx) ∧
    (∀ d', crash (w_disk w1) d' → ∃ m', restart d' nid' maxsz = Ok m' ∧
       (contents m' = contents m ∨ contents m' = contents m1)) ∧
    (∀ d', crash (w_disk (m_walog m1)) d' → ∃ m', restart d' nid' maxsz = Ok m' ∧ contents m' = contents m1) ∧
    GetRequestOutcome m1 (c_RequestID cmd) = Ok o.
Proof.
  intros Hr Hwf Hfit Hb Hne Hpre. destruct (db_reachable_inv _ _ Hr) as (nid & rs & Hi).
  destruct (commit_fresh _ _ _ _ _ Hi Hwf Hfit Hb Hne Hpre) as (m1 & o & w1 & Hc & Hcf).
  exists m1, o, (conflict_of o (c_StartSeq cmd)), w1, (m_lastSeq m + 1).
  split; [done|]. split; [apply Hcf|]. split; [|split].
  - intros d' Hd. destruct (crash_in_commit _ _ _ _ _ _ _ _ _ nid' maxsz Hi Hcf Hd) as (m' & ? & [[? _]|[? _]]); eauto.
  - intros d' Hd. destruct (crash_idle _ _ _ _ _ nid' maxsz (cf_inv _ _ _ _ _ _ _ _ Hcf) Hd) as (m' & ? & ? & _); eauto.
  - unfold GetRequestOutcome. by rewrite (outcome_of_fresh _ _ _ _ _ _ _ _ Hcf).
Qed.

(** C24: what [commit] answers, on every branch.  An empty mutation set commits
    at the current sequence and touches nothing.  A request already decided
    gets its recorded outcome again, without a log record and without being
    evaluated again, and is refused when its fingerprint differs.  A fresh
    request is refused when it does not fit a log record; otherwise exactly
    one record is logged, and it aborts if and only if a transaction that
    committed after its snapshot wrote one of its keys, in which case no data
    changes; else the database becomes the old one with the whole mutation
    set applied, at the next sequence number.  The stale-abort outcome, which
    [commit] would report as success, is not among the answers. *)
Theorem txn_commit_answers m tr cmd m' o e :
  db_reachable m tr → commit_cmd_wf cmd → m_lastSeq m + 2 < 2 ^ 64 →
  commit m (c_TxnID cmd) (c_RequestID cmd) (c_StartSeq cmd) (c_Mutations cmd) = (m', o, e) →
  commit_answer m tr cmd m' o e.
Proof.
  intros Hr Hwf Hb Hc. destruct (db_reachable_inv _ _ Hr) as (nid & rs & Hi). by eapply commit_answers.
Qed.

(** C25: the life of a session.  Whatever a client calls, an open session is
    well formed and no call panics: its write set has one mutation per key,
    the last one written, in the order of the first writes, and what it
    submits is a well-formed request.  [Commit] closes it, as committed
    exactly when it returns no error; [Abort] closes it as aborted; on a
    closed session every call is refused with the error that names how it
    ended, and changes nothing. *)
Theorem txn_session_lifecycle m ops :
  ∃ t, session_run (Begin m).2 ops = Ok t ∧ session_inv t ∧
    LocalWrites t = submitted ops ∧ NoDup (write_order ops) ∧
    (∀ k, k ∈ write_order ops ↔ k ∈ op_key <$> ops) ∧
    (∀ req, Forall session_op_wf ops → wf_bytes req → is_u64 (m_lastSeq m) →
       commit_cmd_wf (mkCommitTxn req (t_id t) (t_startSeq t) (LocalWrites t))) ∧
    (∀ m1 req m2 t' r, Commit m1 t req = (m2, t', r) →
       closed_session t' (if is_Ok r then ErrAlreadyCommitted else ErrAlreadyAborted) ∧
       t_state t' = if is_Ok r then StateCommitted else StateAborted) ∧
    (∃ t', AbortTxn t = Ok t' ∧ t_state t' = StateAborted ∧ closed_session t' ErrAlreadyAborted).
Proof.
  destruct (session_from_begin m ops) as (t & Ht & Hi & Heq). exists t. split; [done|]. split; [done|].
  assert (Ha : t_state t = StateActive) by (by rewrite Heq).
  assert (HL : LocalWrites t = submitted ops).
  { unfold LocalWrites. rewrite bool_decide_true by done. rewrite Heq. apply write_set_spec. }
  split; [done|]. split; [apply write_order_spec|]. split; [apply write_order_spec|]. split; [|split].
  - intros req Hops Hreq Hm. rewrite HL, Heq. constructor; cbn; [done|apply u64_range|done|by apply submitted_wf].
  - intros m1 req m2 t' r. unfold Commit. rewrite bool_decide_true by done. cbn [negb].
    destruct (commit _ _ _ _ _) as [[mx o] [e|]]; intros [= _ <- <-]; cbn [is_Ok]; (split; [|done]).
    + by apply (finish_closed t StateAborted).
    + by apply (finish_closed t StateCommitted).
  - exists (finish t StateAborted). unfold AbortTxn. rewrite bool_decide_true by done. split; [done|].
    split; [done|]. by apply (finish_closed t StateAborted).
Qed.

(** ** A concrete database

    Opened in an empty directory; one transaction writes the key ["a"]. *)

Definition demo_m0 : Manager :=
  match restart [] [97] 0 with Ok m => m | Err _ => mkManager demo_wal (New NewStore) 0 0 0 0 end.
Definition demo_do (m : Manager) (cmd : CommitTxnCommand) : Manager * Outcome * option txn_error :=
  commit m (c_TxnID cmd) (c_RequestID cmd) (c_StartSeq cmd) (c_Mutations cmd).
Definition demo_m1 : Manager := (demo_do demo_m0 demo_txn1).1.1.
Definition demo_t1 : trace := trace_after demo_m0 demo_m1 demo_txn1 (demo_do demo_m0 demo_txn1).1.2 [].

Lemma demo_txn_wf id txn start k v :
  is_wf_bytes id && is_wf_bytes k && is_wf_bytes v = true → is_u64 txn → is_u64 start →
  commit_cmd_wf (mkCommitTxn id txn start [mkMutation k v false]).
Proof.
  intros H Ht Hs. bool_to_prop. constructor; cbn; [by apply wf_bytes_compute|done|done|].
  repeat constructor; cbn; by (apply wf_bytes_compute || done).
Qed.

Lemma demo_txn1_wf : commit_cmd_wf demo_txn1.
Proof. apply demo_txn_wf; [vm_compute; reflexivity|done|done]. Qed.

Lemma demo_opened : restart [] [97] 0 = Ok demo_m0.
Proof. vm_compute. reflexivity. Qed.

Lemma demo_step m tr cmd :
  commit_cmd_wf cmd → m_lastSeq m + 2 < 2 ^ 64 →
  db_step (m, tr) ((demo_do m cmd).1.1, trace_after m (demo_do m cmd).1.1 cmd (demo_do m cmd).1.2 tr).
Proof.
  intros Hwf Hb. destruct (demo_do m cmd) as [[m' o] e] eqn:E. cbn [fst snd]. by eapply db_commit.
Qed.

Lemma demo_m0_reachable : db_reachable demo_m0 [].
Proof.
  exists [97], 0, demo_m0. split; [by repeat constructor|]. split; [done|]. split; [exact demo_opened|]. done.
Qed.

Lemma demo_m1_reachable : db_reachable demo_m1 demo_t1.
Proof.
  exists [97], 0, demo_m0. split; [by repeat constructor|]. split; [done|]. split; [exact demo_opened|].
  apply rtc_once, demo_step; [exact demo_txn1_wf|vm_compute; reflexivity].
Qed.

(** The session begun before the commit still reads the empty database after
    it, except for its own write. *)
Lemma txn_snapshot_reads_witness :
  ∃ t, session_run (Begin demo_m0).2 [SWrite key_b [5]] = Ok t ∧
    Read demo_m1 t key_b = Ok (Some [5]) ∧
    ∃ t', session_run (Begin demo_m0).2 [SWrite key_b [5]] = Ok t' ∧ Read demo_m1 t' key_a = Ok None.
Proof.
  assert (Hs : rtc db_step ((Begin demo_m0).1, []) ((demo_do (Begin demo_m0).1 demo_txn1).1.1,
    trace_after (Begin demo_m0).1 (demo_do (Begin demo_m0).1 demo_txn1).1.1 demo_txn1
      (demo_do (Begin demo_m0).1 demo_txn1).1.2 [])).
  { apply rtc_once, demo_step; [exact demo_txn1_wf|vm_compute; reflexivity]. }
  destruct (txn_snapshot_reads demo_m0 [] _ _ [SWrite key_b [5]] key_b demo_m0_reachable Hs) as (t & Ht & Hr).
  exists t. split; [exact Ht|].
  split; [revert Ht Hr; vm_compute; intros [= <-] _; reflexivity|].
  exists t. split; [exact Ht|]. revert Ht. vm_compute. intros [= <-]. reflexivity.
Defined.

Lemma txn_crash_atomic_witness :
  ∃ m1 o e w1 idx, demo_do demo_m0 demo_txn1 = (m1, o, e) ∧
    AppendLogEntry (m_walog demo_m0) (EncodeCommitTxn demo_txn1) = Ok (w1, idx) ∧
    ∃ m', restart (w_disk (m_walog m1)) [98] 0 = Ok m' ∧ contents m' = contents m1.
Proof.
  destruct (txn_crash_atomic demo_m0 [] demo_txn1 [98] 0 demo_m0_reachable demo_txn1_wf)
    as (m1 & o & e & w1 & idx & H1 & H2 & _ & H4 & _).
  - vm_compute. discriminate.
  - vm_compute. reflexivity.
  - discriminate.
  - vm_compute. reflexivity.
  - exists m1, o, e, w1, idx. split; [exact H1|]. split; [exact H2|]. apply H4.
    apply crash_refl, all_synced_compute. revert H1. vm_compute. intros [= <- _ _]. reflexivity.
Defined.

(** The same request again, and a concurrent one that loses. *)
Lemma txn_commit_answers_witness :
  commit_answer demo_m0 [] demo_txn1 demo_m1 (demo_do demo_m0 demo_txn1).1.2 None ∧
  ∃ m2 o2, commit_answer demo_m1 demo_t1 (mkCommitTxn [9] 2 0 [mkMutation key_a [2] false]) m2 o2
             (Some (ErrConflict key_a 1 0)).
Proof.
  split.
  - apply (txn_commit_answers demo_m0 [] demo_txn1); [exact demo_m0_reachable|exact demo_txn1_wf|
      vm_compute; reflexivity|vm_compute; reflexivity].
  - exists (demo_do demo_m1 (mkCommitTxn [9] 2 0 [mkMutation key_a [2] false])).1.1,
      (demo_do demo_m1 (mkCommitTxn [9] 2 0 [mkMutation key_a [2] false])).1.2.
    apply (txn_commit_answers demo_m1 demo_t1); [exact demo_m1_reachable| |vm_compute; reflexivity|vm_compute; reflexivity].
    apply demo_txn_wf; [vm_compute; reflexivity|done|done].
Defined.

Lemma txn_session_lifecycle_witness :
  ∃ t, session_run (Begin demo_m0).2 [SWrite key_a [1]; SDelete key_a] = Ok t ∧
    LocalWrites t = [mkMutation key_a [] true].
Proof.
  destruct (txn_session_lifecycle demo_m0 [SWrite key_a [1]; SDelete key_a]) as (t & H1 & _ & H2 & _).
  exists t. split; [exact H1|]. rewrite H2. vm_compute. reflexivity.
Defined.

(** The documentation of [Commit] promises that retrying it with the same
    request identifier and the same mutation set returns the recorded
    outcome.  A session is closed by its first [Commit], so the retry comes
    from a new session; its [TxnID] and snapshot are part of the fingerprint,
    and the retry is refused as a reuse of the identifier. *)
Definition demo_retry (m : Manager) : result txn_error Z :=
  let '(m, t) := Begin m in
  match session_run t [SWrite key_a [1]] with
  | Ok t => (Commit m t [1]).2
  | Err e => Err e
  end.

Theorem commit_retry_by_new_session_refused :
  demo_retry demo_m0 = Ok 1 ∧
  let m := match session_run (Begin demo_m0).2 [SWrite key_a [1]] with
           | Ok t => (Commit (Begin demo_m0).1 t [1]).1.1 | Err _ => demo_m0 end in
  GetRequestOutcome m [1] = Ok (mkOutcome [1] StatusCommitted 1 [] 0) ∧
  demo_retry m = Err (ErrTxnFsm ErrRequestIDPayloadMismatch).
Proof. split; [vm_compute; reflexivity|]. split; vm_compute; reflexivity. Qed.
