(* ===== verification/SqlSyntax.v ===== *)
(** * The SQL front end: tokens, lexer, syntax trees and parser
    ([internal/sql/token.go], [lexer.go], [ast.go], [parser.go], and the
    literals and column types of [value.go], [limits.go])

    Text is a byte string.  The lexer keeps the byte position and the text
    that remains; the parser keeps the current token and the ones after it,
    which is [toks[pos:]]: the list is never empty, since the last token is the
    end marker and [advance] stops there. *)

From Stdlib Require Import String Ascii.
From S2P Require Import Prelude Bytes.

(** ** Limits and errors *)

Definition MaxStatementBytes : Z := 64 * 1024.
Definition MaxIdentifierBytes : Z := 128.
Definition MaxStringLiteralBytes : Z := 64 * 1024.
Definition MaxColumns : Z := 64.
Definition MaxIntegerDigits : Z := 32.

Inductive sql_sentinel :=
| ErrSyntax
| ErrUnsupportedStatement
| ErrUnsupportedFeature
| ErrInvalidIdentifier
| ErrLimitExceeded
| ErrUnknownTable
| ErrDuplicateTable
| ErrUnknownColumn
| ErrDuplicateColumn
| ErrTypeMismatch
| ErrMissingPrimaryKey
| ErrMultiplePrimaryKeys
| ErrDuplicatePrimaryKey
| ErrInvalidPredicate
| ErrRowNotFound
| ErrNoActiveTransaction
| ErrTransactionAlreadyActive
| ErrSqlConflict.

(** What a caller can tell apart: the sentinel and, for the lexer and the
    parser, the byte offset.  [SyntaxFuel] stands for a loop that did not end. *)
Inductive syntax_error :=
| Sentinel (e : sql_sentinel)
| PositionError (pos : Z) (e : sql_sentinel)
| SyntaxFuel.

(** ** Tokens

    [tokError], which the lexer never produces, is left out. *)

Inductive tokenKind :=
| tokEOF | tokIdent | tokInt | tokString
| tokLParen | tokRParen | tokComma | tokSemicolon | tokEquals | tokStar.
#[export] Instance tokenKind_eq_dec : EqDecision tokenKind.
Proof. solve_decision. Defined.

Record token := mkToken { t_kind : tokenKind; t_text : bytes; t_pos : Z }.

Definition keywords : list bytes := str <$>
  ["create"; "table"; "insert"; "into"; "values"; "select"; "from"; "where";
   "update"; "set"; "delete"; "primary"; "key"; "integer"; "text"; "boolean";
   "true"; "false"; "begin"; "commit"; "rollback"; "null"]%string.
Definition isKeyword (folded : bytes) : bool := bool_decide (folded ∈ keywords).

(** ** Lexer *)

Record lexer := mkLexer { l_pos : Z; l_rest : bytes }.

Definition newLexer (src : bytes) : result syntax_error lexer :=
  if MaxStatementBytes <? zlen src then Err (PositionError MaxStatementBytes ErrLimitExceeded)
  else Ok (mkLexer 0 src).

Definition isSpace (c : Z) : bool := (c =? 32) || (c =? 9) || (c =? 10) || (c =? 13).
Definition isDigit (c : Z) : bool := (48 <=? c) && (c <=? 57).
Definition isIdentStart (c : Z) : bool :=
  (c =? 95) || ((97 <=? c) && (c <=? 122)) || ((65 <=? c) && (c <=? 90)).
Definition isIdentCont (c : Z) : bool := isIdentStart c || isDigit c.

Definition foldIdent (s : bytes) : bytes :=
  (λ c, if (65 <=? c) && (c <=? 90) then c - 65 + 97 else c) <$> s.

(** The loops that advance while the next byte satisfies [p]: what they pass
    over and what remains. *)
Fixpoint scan_while (p : Z → bool) (s : bytes) : bytes * bytes :=
  match s with
  | [] => ([], [])
  | c :: r => if p c then let '(a, b) := scan_while p r in (c :: a, b) else ([], s)
  end.

Definition skipSpace (l : lexer) : lexer :=
  let '(a, r) := scan_while isSpace (l_rest l) in mkLexer (l_pos l + zlen a) r.

Definition lexIdent (l : lexer) : result syntax_error (token * lexer) :=
  let start := l_pos l in
  let '(a, r) := scan_while isIdentCont (l_rest l) in
  if MaxIdentifierBytes <? zlen a then Err (PositionError start ErrLimitExceeded)
  else Ok (mkToken tokIdent (foldIdent a) start, mkLexer (start + zlen a) r).

Definition hasDigitAfterSign (l : lexer) : bool :=
  match l_rest l with _ :: d :: _ => isDigit d | _ => false end.

Definition lexInt (l : lexer) : result syntax_error (token * lexer) :=
  let start := l_pos l in
  let '(sign, rest) := match l_rest l with
                       | c :: r => if c =? 45 then ([c], r) else ([], c :: r)
                       | [] => ([], [])
                       end in
  let '(a, r) := scan_while isDigit rest in
  if zlen a =? 0 then Err (PositionError start ErrSyntax) else
  let text := sign ++ a in
  if MaxIntegerDigits <? zlen text then Err (PositionError start ErrLimitExceeded)
  else Ok (mkToken tokInt text start, mkLexer (start + zlen text) r).

(** The loop of [lexString] after the opening quote: the decoded contents,
    how many bytes were read, and what remains. *)
Fixpoint string_body (start : Z) (s acc : bytes) (n : Z) : result syntax_error (bytes * Z * bytes) :=
  match s with
  | [] => Err (PositionError start ErrSyntax)
  | c :: r =>
      if c =? 39 then
        match r with
        | c' :: r' => if c' =? 39 then string_body start r' (acc ++ [39]) (n + 2) else Ok (acc, n + 1, r)
        | [] => Ok (acc, n + 1, r)
        end
      else
        let acc := acc ++ [c] in
        if MaxStringLiteralBytes <? zlen acc then Err (PositionError start ErrLimitExceeded)
        else string_body start r acc (n + 1)
  end.

Definition lexString (l : lexer) : result syntax_error (token * lexer) :=
  let start := l_pos l in
  '(text, n, r) ← string_body start (drop 1 (l_rest l)) [] 1;
  Ok (mkToken tokString text start, mkLexer (start + n) r).

Definition next (l : lexer) : result syntax_error (token * lexer) :=
  let l := skipSpace l in
  let start := l_pos l in
  match l_rest l with
  | [] => Ok (mkToken tokEOF [] start, l)
  | c :: r =>
      let single k := Ok (mkToken k [] start, mkLexer (start + 1) r) in
      if c =? 40 then single tokLParen
      else if c =? 41 then single tokRParen
      else if c =? 44 then single tokComma
      else if c =? 59 then single tokSemicolon
      else if c =? 61 then single tokEquals
      else if c =? 42 then single tokStar
      else if c =? 39 then lexString l
      else if isDigit c || ((c =? 45) && hasDigitAfterSign l) then lexInt l
      else if isIdentStart c then lexIdent l
      else Err (PositionError start ErrSyntax)
  end.

(** The token loop of [Parse]. *)
Fixpoint lex_all (fuel : nat) (l : lexer) : result syntax_error (list token) :=
  match fuel with
  | O => Err SyntaxFuel
  | S fuel =>
      '(t, l) ← next l;
      if bool_decide (t_kind t = tokEOF) then Ok [t] else
      ts ← lex_all fuel l; Ok (t :: ts)
  end.

(** ** Syntax trees *)

Inductive ColumnType := TypeInteger | TypeText | TypeBoolean.
#[export] Instance ColumnType_eq_dec : EqDecision ColumnType.
Proof. solve_decision. Defined.

Definition columnTypeFromKeyword (kw : bytes) : option ColumnType :=
  if bool_decide (kw = str "integer") then Some TypeInteger
  else if bool_decide (kw = str "text") then Some TypeText
  else if bool_decide (kw = str "boolean") then Some TypeBoolean
  else None.

(** The fields of [Literal] its [Kind] selects. *)
Inductive Literal := LiteralInt (n : Z) | LiteralString (s : bytes) | LiteralBool (b : bool).

Record ColumnDef := mkColumnDef { cd_Name : bytes; cd_Type : ColumnType; cd_PrimaryKey : bool }.
Record Predicate := mkPredicate { p_Column : bytes; p_Value : Literal }.
Record Assignment := mkAssignment { a_Column : bytes; a_Value : Literal }.

(** A nil column list is [None]. *)
Inductive Statement :=
| CreateTableStmt (table : bytes) (columns : list ColumnDef)
| InsertStmt (table : bytes) (columns : option (list bytes)) (values : list Literal)
| SelectStmt (table : bytes) (columns : option (list bytes)) (where_ : option Predicate)
| UpdateStmt (table : bytes) (assignments : list Assignment) (where_ : Predicate)
| DeleteStmt (table : bytes) (where_ : Predicate)
| BeginStmt
| CommitStmt
| RollbackStmt.

(** [strconv.ParseInt(text, 10, 64)] of an optional sign and decimal digits:
    [None] when the value does not fit. *)
Definition digits_value (ds : bytes) : Z := foldl (λ acc d, acc * 10 + (d - 48)) 0 ds.
Definition parseIntLiteral (text : bytes) : option Z :=
  let v := match text with
           | c :: ds => if c =? 45 then - digits_value ds else digits_value text
           | [] => 0
           end in
  if (- 2 ^ 63 <=? v) && (v <? 2 ^ 63) then Some v else None.

(** ** Parser *)

Record parser := mkParser { p_cur : token; p_after : list token }.
Abbreviation P A := (parser → result syntax_error (A * parser)).

Definition at_kind (p : parser) (k : tokenKind) : bool := bool_decide (t_kind (p_cur p) = k).
Definition advance (p : parser) : parser :=
  match p_after p with [] => p | t :: ts => mkParser t ts end.
Definition errf {A} (p : parser) : result syntax_error A := Err (PositionError (t_pos (p_cur p)) ErrSyntax).

Definition expect (k : tokenKind) : P token := λ p,
  if negb (at_kind p k) then errf p else Ok (p_cur p, advance p).

Definition atKeyword (p : parser) (kw : bytes) : bool :=
  at_kind p tokIdent && bool_decide (t_text (p_cur p) = kw).
Definition expectKeyword (kw : bytes) : P () := λ p,
  if negb (at_kind p tokIdent) || negb (bool_decide (t_text (p_cur p) = kw)) then errf p
  else Ok (tt, advance p).

Definition expectName : P bytes := λ p,
  if negb (at_kind p tokIdent) then errf p else
  let t := p_cur p in
  if isKeyword (t_text t) then Err (PositionError (t_pos t) ErrInvalidIdentifier)
  else Ok (t_text t, advance p).

(** The loop [item (, item)*], which refuses the item after [MaxColumns].
    The fuel is one more than the limit. *)
Fixpoint comma_loop {A} (fuel : nat) (item : P A) (acc : list A) : P (list A) := λ p,
  match fuel with
  | O => Err SyntaxFuel
  | S fuel =>
      '(x, p) ← item p;
      let acc := acc ++ [x] in
      if MaxColumns <? zlen acc then Err (PositionError (t_pos (p_cur p)) ErrLimitExceeded)
      else if at_kind p tokComma then comma_loop fuel item acc (advance p)
      else Ok (acc, p)
  end.
Definition comma_list {A} (item : P A) : P (list A) := comma_loop (S (Z.to_nat MaxColumns)) item [].

Definition parseLiteral : P Literal := λ p,
  let t := p_cur p in
  match t_kind t with
  | tokInt =>
      match parseIntLiteral (t_text t) with
      | None => Err (PositionError (t_pos t) ErrSyntax)
      | Some n => Ok (LiteralInt n, advance p)
      end
  | tokString => Ok (LiteralString (t_text t), advance p)
  | tokIdent =>
      if bool_decide (t_text t = str "true") then Ok (LiteralBool true, advance p)
      else if bool_decide (t_text t = str "false") then Ok (LiteralBool false, advance p)
      else if bool_decide (t_text t = str "null") then Err (Sentinel ErrUnsupportedFeature)
      else errf p
  | _ => errf p
  end.

Definition parsePredicate : P Predicate := λ p,
  '(name, p) ← expectName p;
  '(_, p) ← expect tokEquals p;
  '(lit, p) ← parseLiteral p;
  Ok (mkPredicate name lit, p).

Definition parseColumnDef : P ColumnDef := λ p,
  '(name, p) ← expectName p;
  if negb (at_kind p tokIdent) then errf p else
  match columnTypeFromKeyword (t_text (p_cur p)) with
  | None => Err (Sentinel ErrUnsupportedFeature)
  | Some ct =>
      let p := advance p in
      if atKeyword p (str "primary") then
        let p := advance p in
        '(_, p) ← expectKeyword (str "key") p;
        Ok (mkColumnDef name ct true, p)
      else Ok (mkColumnDef name ct false, p)
  end.

Definition parseCreateTable : P Statement := λ p,
  '(_, p) ← expectKeyword (str "create") p;
  '(_, p) ← expectKeyword (str "table") p;
  '(table, p) ← expectName p;
  '(_, p) ← expect tokLParen p;
  '(cols, p) ← comma_list parseColumnDef p;
  '(_, p) ← expect tokRParen p;
  Ok (CreateTableStmt table cols, p).

Definition parse_column_names : P (option (list bytes)) := λ p,
  if at_kind p tokLParen then
    let p := advance p in
    '(columns, p) ← comma_list expectName p;
    '(_, p) ← expect tokRParen p;
    Ok (Some columns, p)
  else Ok (None, p).

Definition parseInsert : P Statement := λ p,
  '(_, p) ← expectKeyword (str "insert") p;
  '(_, p) ← expectKeyword (str "into") p;
  '(table, p) ← expectName p;
  '(columns, p) ← parse_column_names p;
  '(_, p) ← expectKeyword (str "values") p;
  '(_, p) ← expect tokLParen p;
  '(values, p) ← comma_list parseLiteral p;
  '(_, p) ← expect tokRParen p;
  Ok (InsertStmt table columns values, p).

Definition parse_projection : P (option (list bytes)) := λ p,
  if at_kind p tokStar then Ok (None, advance p) else
  '(columns, p) ← comma_list expectName p;
  Ok (Some columns, p).

Definition parse_where : P (option Predicate) := λ p,
  if atKeyword p (str "where") then
    '(pred, p) ← parsePredicate (advance p);
    Ok (Some pred, p)
  else Ok (None, p).

Definition parseSelect : P Statement := λ p,
  '(_, p) ← expectKeyword (str "select") p;
  '(columns, p) ← parse_projection p;
  '(_, p) ← expectKeyword (str "from") p;
  '(table, p) ← expectName p;
  '(where_, p) ← parse_where p;
  Ok (SelectStmt table columns where_, p).

Definition parse_assignment : P Assignment := λ p,
  '(name, p) ← expectName p;
  '(_, p) ← expect tokEquals p;
  '(lit, p) ← parseLiteral p;
  Ok (mkAssignment name lit, p).

Definition parseUpdate : P Statement := λ p,
  '(_, p) ← expectKeyword (str "update") p;
  '(table, p) ← expectName p;
  '(_, p) ← expectKeyword (str "set") p;
  '(assigns, p) ← comma_list parse_assignment p;
  if negb (atKeyword p (str "where")) then Err (Sentinel ErrInvalidPredicate) else
  '(where_, p) ← parsePredicate (advance p);
  Ok (UpdateStmt table assigns where_, p).

Definition parseDelete : P Statement := λ p,
  '(_, p) ← expectKeyword (str "delete") p;
  '(_, p) ← expectKeyword (str "from") p;
  '(table, p) ← expectName p;
  if negb (atKeyword p (str "where")) then Err (Sentinel ErrInvalidPredicate) else
  '(where_, p) ← parsePredicate (advance p);
  Ok (DeleteStmt table where_, p).

Definition parseStatement : P Statement := λ p,
  if negb (at_kind p tokIdent) then errf p else
  let kw := t_text (p_cur p) in
  if bool_decide (kw = str "create") then parseCreateTable p
  else if bool_decide (kw = str "insert") then parseInsert p
  else if bool_decide (kw = str "select") then parseSelect p
  else if bool_decide (kw = str "update") then parseUpdate p
  else if bool_decide (kw = str "delete") then parseDelete p
  else if bool_decide (kw = str "begin") then Ok (BeginStmt, advance p)
  else if bool_decide (kw = str "commit") then Ok (CommitStmt, advance p)
  else if bool_decide (kw = str "rollback") then Ok (RollbackStmt, advance p)
  else Err (Sentinel ErrUnsupportedStatement).

(** The fuel of the token loop: every token but the last takes a byte. *)
Definition Parse (src : bytes) : result syntax_error Statement :=
  l ← newLexer src;
  toks ← lex_all (S (length src)) l;
  match toks with
  | [] => Err SyntaxFuel
  | t :: ts =>
      '(stmt, p) ← parseStatement (mkParser t ts);
      let p := if at_kind p tokSemicolon then advance p else p in
      if negb (at_kind p tokEOF) then errf p else Ok stmt
  end.
