(* ===== verification/SqlSyntaxSpec.v ===== *)
(** * What the SQL front end promises

    The parser is total on arbitrary bytes, reports positions inside the
    statement, and produces only well-formed trees; every well-formed tree has
    a text that parses back to it. *)

From Stdlib Require Import String.
From S2P Require Import Prelude Bytes SqlSyntax.

(** ** Well-formed trees *)

(** A folded identifier of the lexer's grammar. *)
Definition ident_char (c : Z) : bool := isIdentCont c && negb ((65 <=? c) && (c <=? 90)).
Definition is_ident (s : bytes) : bool :=
  match s with
  | [] => false
  | c :: r => isIdentStart c && forallb ident_char s && (zlen s <=? MaxIdentifierBytes)
  end.
Definition name_ok (s : bytes) : Prop := is_ident s = true ∧ isKeyword s = false.

Definition literal_ok (l : Literal) : Prop :=
  match l with
  | LiteralInt n => - 2 ^ 63 ≤ n < 2 ^ 63
  | LiteralString s => wf_bytes s ∧ zlen s ≤ MaxStringLiteralBytes
  | LiteralBool _ => True
  end.
Definition predicate_ok (p : Predicate) : Prop := name_ok (p_Column p) ∧ literal_ok (p_Value p).
Definition columns_ok {A} (ok : A → Prop) (l : list A) : Prop :=
  l ≠ [] ∧ zlen l ≤ MaxColumns ∧ Forall ok l.

Definition statement_ok (st : Statement) : Prop :=
  match st with
  | CreateTableStmt t cols => name_ok t ∧ columns_ok (λ c, name_ok (cd_Name c)) cols
  | InsertStmt t cols vals =>
      name_ok t ∧ match cols with Some cols => columns_ok name_ok cols | None => True end ∧ columns_ok literal_ok vals
  | SelectStmt t cols w =>
      name_ok t ∧ match cols with Some cols => columns_ok name_ok cols | None => True end ∧
      match w with Some p => predicate_ok p | None => True end
  | UpdateStmt t asg w =>
      name_ok t ∧ columns_ok (λ a, name_ok (a_Column a) ∧ literal_ok (a_Value a)) asg ∧ predicate_ok w
  | DeleteStmt t w => name_ok t ∧ predicate_ok w
  | BeginStmt | CommitStmt | RollbackStmt => True
  end.

(** ** Running the front end on arbitrary bytes *)

(** No loop runs out of fuel, and positions are within the statement. *)
Definition parse_safe {A} (B : Z) (r : result syntax_error A) (Q : A → Prop) : Prop :=
  match r with
  | Ok a => Q a
  | Err (PositionError pos _) => 0 ≤ pos ≤ B
  | Err (Sentinel _) => True
  | Err SyntaxFuel => False
  end.

Lemma parse_safe_bind {A A'} B (r : result syntax_error A) (f : A → result syntax_error A') P Q :
  parse_safe B r P → (∀ a, P a → parse_safe B (f a) Q) → parse_safe B (r ≫= f) Q.
Proof. destruct r as [a|[]]; cbn; auto. Qed.

Lemma parse_safe_mono {A} B (r : result syntax_error A) (P Q : A → Prop) :
  parse_safe B r P → (∀ a, P a → Q a) → parse_safe B r Q.
Proof. destruct r as [a|[]]; cbn; auto. Qed.

Definition token_ok (B : Z) (t : token) : Prop :=
  0 ≤ t_pos t ≤ B ∧
  match t_kind t with
  | tokIdent => is_ident (t_text t) = true
  | tokString => wf_bytes (t_text t) ∧ zlen (t_text t) ≤ MaxStringLiteralBytes
  | _ => True
  end.

Record lexer_ok (B : Z) (l : lexer) : Prop := {
  lo_pos : 0 ≤ l_pos l;
  lo_end : l_pos l + zlen (l_rest l) = B;
  lo_wf : wf_bytes (l_rest l)
}.

Lemma scan_while_app p s : s = (scan_while p s).1 ++ (scan_while p s).2.
Proof.
  induction s as [|c s IH]; [done|]. cbn. destruct (p c); [|done].
  destruct (scan_while p s); cbn in *. by rewrite IH.
Qed.

Lemma scan_while_all p s : forallb p (scan_while p s).1 = true.
Proof.
  induction s as [|c s IH]; [done|]. cbn. destruct (p c) eqn:E; [|done].
  destruct (scan_while p s); cbn in *. by rewrite E.
Qed.

(** What a scanning loop leaves behind. *)
Lemma lexer_ok_skip B l a r :
  lexer_ok B l → l_rest l = a ++ r → lexer_ok B (mkLexer (l_pos l + zlen a) r).
Proof.
  intros [H1 H2 H3] Ha. rewrite Ha in *. rewrite zlen_app in H2. apply Forall_app in H3 as [_ H3].
  pose proof (zlen_nonneg a). constructor; cbn; [lia|lia|done].
Qed.

Lemma scan_lexer_ok B l p :
  lexer_ok B l → lexer_ok B (mkLexer (l_pos l + zlen (scan_while p (l_rest l)).1) (scan_while p (l_rest l)).2).
Proof. intros H. eapply lexer_ok_skip; [done|apply scan_while_app]. Qed.

Lemma skipSpace_ok B l : lexer_ok B l → lexer_ok B (skipSpace l) ∧ zlen (l_rest (skipSpace l)) ≤ zlen (l_rest l).
Proof.
  intros H. pose proof (scan_lexer_ok B l isSpace H) as Hs. unfold skipSpace.
  pose proof (scan_while_app isSpace (l_rest l)) as Ha. destruct (scan_while _ _) as [a r]. cbn in *.
  split; [done|]. rewrite Ha, zlen_app. pose proof (zlen_nonneg a). lia.
Qed.

Lemma foldIdent_ident c r :
  isIdentStart c = true → forallb isIdentCont r = true → zlen (c :: r) ≤ MaxIdentifierBytes →
  is_ident (foldIdent (c :: r)) = true.
Proof.
  intros Hc Hr Hl. unfold is_ident, foldIdent. cbn [fmap list_fmap].
  assert (Hlen : zlen ((λ c, if (65 <=? c) && (c <=? 90) then c - 65 + 97 else c) <$> (c :: r)) ≤ MaxIdentifierBytes).
  { unfold zlen in *. by rewrite length_fmap. }
  cbn [fmap list_fmap] in Hlen. apply andb_true_iff. split; [|by apply Z.leb_le].
  apply andb_true_iff. split.
  - unfold isIdentStart in *. case_if; lia.
  - cbn [forallb]. apply andb_true_iff. split.
    + unfold ident_char, isIdentCont, isIdentStart, isDigit in *. case_if; lia.
    + clear -Hr. induction r as [|d r IH]; [done|]. cbn in *. apply andb_true_iff in Hr as [Hd Hr].
      rewrite IH by done. unfold ident_char, isIdentCont, isIdentStart, isDigit in *. case_if; lia.
Qed.

Lemma string_body_ok B start s acc n :
  0 ≤ start ≤ B → wf_bytes s → wf_bytes acc → zlen acc + zlen s ≤ MaxStringLiteralBytes →
  parse_safe B (string_body start s acc n) (λ '(text, n', r),
    wf_bytes text ∧ zlen text ≤ MaxStringLiteralBytes ∧ wf_bytes r ∧ n' + zlen r = n + zlen s ∧ zlen r < zlen s).
Proof.
  intros Hst. remember (length s) as len eqn:Hlen. assert (Hle : (length s ≤ len)%nat) by lia. clear Hlen.
  revert s acc n Hle. induction len as [|len IH]; intros s acc n Hle Hs Hacc Hb.
  { destruct s; [done|cbn in Hle; lia]. }
  destruct s as [|c r]; [done|]. cbn [string_body]. cbn in Hle.
  apply Forall_cons in Hs as [Hc Hr]. rewrite zlen_cons in Hb. pose proof (zlen_nonneg r).
  assert (Hnext : ∀ x k r', wf_bytes [x] → wf_bytes r' → (length r' ≤ len)%nat → 0 < k →
    k + zlen r' = zlen (c :: r) →
    parse_safe B (string_body start r' (acc ++ [x]) (n + k)) (λ '(text, n', r0),
      wf_bytes text ∧ zlen text ≤ MaxStringLiteralBytes ∧ wf_bytes r0 ∧ n' + zlen r0 = n + zlen (c :: r) ∧
      zlen r0 < zlen (c :: r))).
  { intros x k r' Hx Hr' Hl Hk Heq. rewrite zlen_cons in *. eapply parse_safe_mono; [apply IH|]; [done|done| |..].
    - by apply Forall_app_2.
    - rewrite zlen_app, zlen_cons, zlen_nil. lia.
    - intros [[text n'] r0] (? & ? & ? & ? & ?). repeat (split; [done|]). lia. }
  assert (Hend : parse_safe B (Ok (acc, n + 1, r)) (λ '(text, n', r0),
      wf_bytes text ∧ zlen text ≤ MaxStringLiteralBytes ∧ wf_bytes r0 ∧ n' + zlen r0 = n + zlen (c :: r) ∧
      zlen r0 < zlen (c :: r))).
  { rewrite zlen_cons. cbn. split; [done|]. split; [lia|]. split; [done|]. lia. }
  destruct (c =? 39).
  - destruct r as [|c' r']; [exact Hend|]. destruct (c' =? 39); [|exact Hend].
    apply Forall_cons in Hr as [Hc' Hr']. apply Hnext; [|done|cbn in Hle; lia|lia|rewrite !zlen_cons; lia].
    apply Forall_singleton. unfold is_byte. lia.
  - rewrite (proj2 (Z.ltb_ge _ _)) by (rewrite zlen_app, zlen_cons, zlen_nil; lia).
    apply Hnext; [by apply Forall_singleton|done|lia|lia|by rewrite zlen_cons].
Qed.

(** One token. *)
Definition lexed (B : Z) (l : lexer) (x : token * lexer) : Prop :=
  token_ok B x.1 ∧ lexer_ok B x.2 ∧ (t_kind x.1 = tokEOF ∨ zlen (l_rest x.2) < zlen (l_rest l)).

Lemma lexIdent_ok B l c r :
  lexer_ok B l → l_rest l = c :: r → isIdentStart c = true → parse_safe B (lexIdent l) (lexed B l).
Proof.
  intros Hl Hr Hc. pose proof (lo_pos _ _ Hl). pose proof (lo_end _ _ Hl) as He. pose proof (zlen_nonneg (l_rest l)).
  pose proof (scan_lexer_ok _ _ isIdentCont Hl) as Hs. pose proof (scan_while_app isIdentCont (l_rest l)) as Ha.
  pose proof (scan_while_all isIdentCont (l_rest l)) as Hall.
  unfold lexIdent. assert (∃ a', (scan_while isIdentCont (l_rest l)).1 = c :: a') as (a' & Ha').
  { rewrite Hr. cbn. unfold isIdentCont at 1. rewrite Hc. cbn. destruct (scan_while _ r). by eexists. }
  destruct (scan_while isIdentCont (l_rest l)) as [a r']. cbn in Hs, Ha, Hall, Ha'. subst a.
  destruct (Z.ltb_spec MaxIdentifierBytes (zlen (c :: a'))); [cbn; lia|]. cbn [parse_safe].
  split; [|split; [done|]]; cbn.
  - split; [cbn; lia|]. cbn [t_kind t_text]. cbn in Hall. apply andb_true_iff in Hall as [_ Hall].
    by apply foldIdent_ident.
  - right. rewrite Ha, ?app_comm_cons, zlen_app, zlen_cons. pose proof (zlen_nonneg a'). lia.
Qed.

Lemma lexInt_ok B l : lexer_ok B l → parse_safe B (lexInt l) (lexed B l).
Proof.
  intros Hl. pose proof (lo_pos _ _ Hl). pose proof (lo_end _ _ Hl) as He. pose proof (zlen_nonneg (l_rest l)).
  unfold lexInt. assert (∃ sign rest, match l_rest l with
                       | c :: r => if c =? 45 then ([c], r) else ([], c :: r)
                       | [] => ([], []) end = (sign, rest) ∧ l_rest l = sign ++ rest) as (sign & rest & -> & Hr).
  { destruct (l_rest l) as [|c r]; [by eexists [], []|]. destruct (c =? 45); by do 2 eexists. }
  pose proof (scan_while_app isDigit rest) as Ha. destruct (scan_while isDigit rest) as [a r]. cbn in Ha.
  destruct (Z.eqb_spec (zlen a) 0); [cbn; lia|]. case_if; [cbn; lia|]. cbn [parse_safe].
  split; [split; [cbn; lia|done]|]. split.
  - eapply lexer_ok_skip; [done|]. by rewrite Hr, Ha, <- app_assoc.
  - right. cbn. rewrite Hr, Ha, !zlen_app. pose proof (zlen_nonneg a). pose proof (zlen_nonneg sign). lia.
Qed.

Lemma lexString_ok B l c r :
  lexer_ok B l → l_rest l = c :: r → B ≤ MaxStatementBytes → parse_safe B (lexString l) (lexed B l).
Proof.
  intros Hl Hr HB. pose proof (lo_pos _ _ Hl). pose proof (lo_end _ _ Hl) as He. pose proof (lo_wf _ _ Hl) as Hw.
  rewrite Hr, zlen_cons in He. rewrite Hr in Hw. apply Forall_cons in Hw as [_ Hw]. pose proof (zlen_nonneg r).
  unfold lexString. rewrite Hr. change (drop 1 (c :: r)) with r. eapply parse_safe_bind.
  - apply string_body_ok; [lia|done|constructor|]. rewrite zlen_nil. unfold MaxStringLiteralBytes, MaxStatementBytes in *. lia.
  - intros [[text n] r'] (H1 & H2 & H3 & H4 & H5). cbn [parse_safe]. split; [split; [cbn; lia|done]|]. split.
    + constructor; cbn; [lia|lia|done].
    + right. cbn. rewrite Hr, zlen_cons. lia.
Qed.

Lemma next_ok B l : lexer_ok B l → B ≤ MaxStatementBytes → parse_safe B (next l) (lexed B l).
Proof.
  intros Hl HB. destruct (skipSpace_ok _ _ Hl) as [Hs Hle]. unfold next.
  set (l' := skipSpace l) in *. clearbody l'.
  assert (Hmono : ∀ x, lexed B l' x → lexed B l x).
  { intros x (? & ? & H). split; [done|]. split; [done|]. destruct H; [by left|right; lia]. }
  pose proof (lo_pos _ _ Hs). pose proof (lo_end _ _ Hs) as He.
  destruct (l_rest l') as [|c r] eqn:Hr.
  { cbn [parse_safe]. rewrite zlen_nil in He. split; [split; [cbn; lia|done]|]. split; [done|by left]. }
  assert (Hsingle : ∀ k, match k with tokIdent | tokString => False | _ => True end →
    parse_safe B (Ok (mkToken k [] (l_pos l'), mkLexer (l_pos l' + 1) r)) (lexed B l)).
  { intros k Hk. pose proof (zlen_nonneg r). rewrite zlen_cons in He. cbn [parse_safe]. split; [|split].
    - split; [cbn; lia|]. cbn. by destruct k.
    - apply (lexer_ok_skip B l' [c] r Hs). by rewrite Hr.
    - right. cbn. rewrite zlen_cons in Hle. lia. }
  repeat (match goal with |- parse_safe _ (if ?b then _ else _) _ => destruct b eqn:? end; [try (by apply Hsingle)|]).
  - eapply parse_safe_mono; [by eapply lexString_ok|done].
  - eapply parse_safe_mono; [by apply lexInt_ok|done].
  - eapply parse_safe_mono; [by eapply lexIdent_ok|done].
  - cbn. pose proof (zlen_nonneg r). rewrite zlen_cons in He. lia.
Qed.

Lemma lex_all_ok B fuel l :
  lexer_ok B l → B ≤ MaxStatementBytes → (length (l_rest l) < fuel)%nat →
  parse_safe B (lex_all fuel l) (λ ts, ts ≠ [] ∧ Forall (token_ok B) ts).
Proof.
  intros Hl HB. revert l Hl. induction fuel as [|fuel IH]; intros l Hl Hf; [lia|]. cbn [lex_all].
  eapply parse_safe_bind; [by apply next_ok|]. intros [t l'] (Ht & Hl' & Hdec). cbn in Ht, Hl', Hdec.
  case_bool_decide; [cbn; split; [done|by constructor]|]. destruct Hdec as [|Hdec]; [done|].
  eapply parse_safe_bind; [apply IH; [done|unfold zlen in Hdec; lia]|].
  intros ts [_ Hts]. cbn. split; [done|by constructor].
Qed.

(** *** The parser *)

Definition parser_ok (B : Z) (p : parser) : Prop := token_ok B (p_cur p) ∧ Forall (token_ok B) (p_after p).

(** [m] is parse_safe and its results satisfy [Q]. *)
Definition psafe {A} (B : Z) (m : P A) (Q : A → Prop) : Prop :=
  ∀ p, parser_ok B p → parse_safe B (m p) (λ x, Q x.1 ∧ parser_ok B x.2).

Lemma advance_ok B p : parser_ok B p → parser_ok B (advance p).
Proof.
  intros [H1 H2]. unfold advance. destruct (p_after p) as [|t ts] eqn:E; [split; [done|by rewrite E]|].
  apply Forall_cons in H2 as [? ?]. by split.
Qed.

Lemma psafe_bind {A A'} B (m : P A) (f : A * parser → result syntax_error A') Q (R : A' → Prop) p :
  psafe B m Q → parser_ok B p → (∀ a p', Q a → parser_ok B p' → parse_safe B (f (a, p')) R) → parse_safe B (m p ≫= f) R.
Proof. intros Hm Hp Hf. eapply parse_safe_bind; [by apply Hm|]. intros [a p'] [? ?]. by apply Hf. Qed.

Lemma errf_ok {A} B p (Q : A → Prop) : parser_ok B p → parse_safe B (errf p) Q.
Proof. intros [[H _] _]. exact H. Qed.

Lemma expect_ok B k : psafe B (expect k) (λ _, True).
Proof. intros p Hp. unfold expect. case_if; [by apply errf_ok|]. split; [done|by apply advance_ok]. Qed.

Lemma expectKeyword_ok B kw : psafe B (expectKeyword kw) (λ _, True).
Proof. intros p Hp. unfold expectKeyword. case_if; [by apply errf_ok|]. split; [done|by apply advance_ok]. Qed.

Lemma expectName_ok B : psafe B expectName name_ok.
Proof.
  intros p Hp. unfold expectName, at_kind. case_bool_decide as Hk; cbn [negb]; [|by apply errf_ok].
  pose proof Hp as [[Hpos Ht] _]. destruct (isKeyword _) eqn:Hkw; [exact Hpos|]. cbn [parse_safe fst snd].
  rewrite Hk in Ht. split; [done|by apply advance_ok].
Qed.

Lemma parseLiteral_ok B : psafe B parseLiteral literal_ok.
Proof.
  intros p Hp. pose proof Hp as [[Hpos Ht] _]. unfold parseLiteral.
  destruct (t_kind (p_cur p)); try (by apply errf_ok).
  - repeat case_bool_decide; try (by apply errf_ok); [| |done]; (split; [done|by apply advance_ok]).
  - destruct (parseIntLiteral _) as [n|] eqn:E; [|exact Hpos]. split; [|by apply advance_ok].
    unfold parseIntLiteral in E. cbv zeta in E. destruct (_ && _) eqn:Hb; [|done]. injection E as <-. cbn [fst literal_ok]. lia.
  - split; [done|by apply advance_ok].
Qed.

Lemma comma_loop_ok {A} B (item : P A) Q fuel acc :
  psafe B item Q → zlen acc + Z.of_nat fuel = MaxColumns + 1 → (0 < fuel)%nat → Forall Q acc →
  psafe B (comma_loop fuel item acc) (columns_ok Q).
Proof.
  intros Hi. revert acc. induction fuel as [|fuel IH]; intros acc Hf H0 Hacc p Hp; [lia|]. cbn [comma_loop].
  eapply psafe_bind; [done|done|]. intros x p' Hx Hp'. cbv beta iota zeta.
  assert (Hl : zlen (acc ++ [x]) = zlen acc + 1) by (rewrite zlen_app, zlen_cons, zlen_nil; lia).
  destruct (Z.ltb_spec MaxColumns (zlen (acc ++ [x]))) as [|Hle]; [apply Hp'|].
  destruct (at_kind p' tokComma).
  - apply IH; [lia|lia|apply Forall_app_2; [done|by constructor]|by apply advance_ok].
  - cbn. split; [|done]. split; [by destruct acc|]. split; [done|]. apply Forall_app_2; [done|by constructor].
Qed.

Lemma comma_list_ok {A} B (item : P A) Q : psafe B item Q → psafe B (comma_list item) (columns_ok Q).
Proof. intros H. apply comma_loop_ok; [done|done|lia|constructor]. Qed.

Create HintDb front_end.
#[local] Hint Resolve expect_ok expectKeyword_ok expectName_ok parseLiteral_ok comma_list_ok advance_ok errf_ok : front_end.

(** One bind of a production. *)
Ltac pstep := eapply psafe_bind; [solve [eauto with front_end]|solve [eauto with front_end]|]; intros; cbv beta iota.

Lemma parsePredicate_ok B : psafe B parsePredicate predicate_ok.
Proof. intros p Hp. unfold parsePredicate. do 3 pstep. by (split; [split|]). Qed.

Lemma parse_assignment_ok B : psafe B parse_assignment (λ a, name_ok (a_Column a) ∧ literal_ok (a_Value a)).
Proof. intros p Hp. unfold parse_assignment. do 3 pstep. by (split; [split|]). Qed.

Lemma parseColumnDef_ok B : psafe B parseColumnDef (λ c, name_ok (cd_Name c)).
Proof.
  intros p Hp. unfold parseColumnDef. pstep. case_if; [eauto with front_end|].
  destruct (columnTypeFromKeyword _); [|done]. cbv zeta. destruct (atKeyword _ _).
  - pstep. done.
  - split; [done|eauto with front_end].
Qed.

#[local] Hint Resolve parsePredicate_ok parse_assignment_ok parseColumnDef_ok : front_end.

Lemma parse_column_names_ok B :
  psafe B parse_column_names (λ c, match c with Some c => columns_ok name_ok c | None => True end).
Proof. intros p Hp. unfold parse_column_names. case_if; [|done]. do 2 pstep. done. Qed.

Lemma parse_projection_ok B :
  psafe B parse_projection (λ c, match c with Some c => columns_ok name_ok c | None => True end).
Proof. intros p Hp. unfold parse_projection. case_if; [split; [done|eauto with front_end]|]. pstep. done. Qed.

Lemma parse_where_ok B : psafe B parse_where (λ w, match w with Some w => predicate_ok w | None => True end).
Proof. intros p Hp. unfold parse_where. case_if; [|done]. pstep. done. Qed.

#[local] Hint Resolve parse_column_names_ok parse_projection_ok parse_where_ok : front_end.

Lemma parseStatement_ok B : psafe B parseStatement statement_ok.
Proof.
  intros p Hp. unfold parseStatement. case_if; [eauto with front_end|].
  repeat (case_bool_decide; [try (split; [done|eauto with front_end])|]).
  - unfold parseCreateTable. do 6 pstep. done.
  - unfold parseInsert. do 8 pstep. done.
  - unfold parseSelect. do 5 pstep. done.
  - unfold parseUpdate. do 4 pstep. case_if; [done|]. pstep. done.
  - unfold parseDelete. do 3 pstep. case_if; [done|]. pstep. done.
  - done.
Qed.

Lemma Parse_safe src : wf_bytes src → parse_safe (zlen src) (Parse src) statement_ok.
Proof.
  intros Hw. unfold Parse, newLexer. destruct (Z.ltb_spec MaxStatementBytes (zlen src)).
  { cbn. unfold MaxStatementBytes in *. lia. }
  rewrite bind_Ok. eapply parse_safe_bind.
  { apply lex_all_ok; [by constructor|done|cbn; lia]. }
  intros toks [Hne Hts]. destruct toks as [|t ts]; [done|]. apply Forall_cons in Hts as [Ht Hts].
  eapply psafe_bind; [apply parseStatement_ok|by split|]. intros st p Hst Hp. cbv beta iota zeta.
  case_if; [|done]. destruct (at_kind p tokSemicolon); eauto with front_end.
Qed.

(** ** A text for every tree

    The printer spells each token after one space. *)

Fixpoint print_digits (fuel : nat) (n : Z) : bytes :=
  match fuel with
  | O => [48 + n]
  | S fuel => if n <? 10 then [48 + n] else print_digits fuel (n / 10) ++ [48 + n mod 10]
  end.
Definition print_nat (n : Z) : bytes := print_digits 20 n.
Definition print_int (n : Z) : bytes := if n <? 0 then 45 :: print_nat (- n) else print_nat n.

Definition escape (s : bytes) : bytes := s ≫= λ c, if c =? 39 then [39; 39] else [c].

Abbreviation lexeme := (tokenKind * bytes)%type.
Definition spell (t : lexeme) : bytes :=
  match t.1 with
  | tokEOF => []
  | tokIdent | tokInt => t.2
  | tokString => 39 :: escape t.2 ++ [39]
  | tokLParen => [40] | tokRParen => [41] | tokComma => [44]
  | tokSemicolon => [59] | tokEquals => [61] | tokStar => [42]
  end.
Definition print_tokens (ts : list lexeme) : bytes := mjoin ((λ t, 32 :: spell t) <$> ts).

Definition kw (s : string) : lexeme := (tokIdent, str s).
Definition sym (k : tokenKind) : lexeme := (k, []).
Definition name_tokens (n : bytes) : list lexeme := [(tokIdent, n)].
Definition literal_tokens (l : Literal) : list lexeme :=
  match l with
  | LiteralInt n => [(tokInt, print_int n)]
  | LiteralString s => [(tokString, s)]
  | LiteralBool b => [kw (if b then "true" else "false")]
  end.
Fixpoint comma_tokens {A} (enc : A → list lexeme) (l : list A) : list lexeme :=
  match l with
  | [] => []
  | x :: l => enc x ++ match l with [] => [] | _ :: _ => sym tokComma :: comma_tokens enc l end
  end.
Definition type_keyword (t : ColumnType) : string :=
  match t with TypeInteger => "integer" | TypeText => "text" | TypeBoolean => "boolean" end.
Definition column_tokens (c : ColumnDef) : list lexeme :=
  [(tokIdent, cd_Name c); kw (type_keyword (cd_Type c))] ++
  if cd_PrimaryKey c then [kw "primary"; kw "key"] else [].
Definition assignment_tokens (n : bytes) (l : Literal) : list lexeme :=
  (tokIdent, n) :: sym tokEquals :: literal_tokens l.
Definition where_tokens (p : Predicate) : list lexeme :=
  kw "where" :: assignment_tokens (p_Column p) (p_Value p).

Definition statement_tokens (st : Statement) : list lexeme :=
  match st with
  | CreateTableStmt t cols =>
      [kw "create"; kw "table"; (tokIdent, t); sym tokLParen] ++ comma_tokens column_tokens cols ++ [sym tokRParen]
  | InsertStmt t cols vals =>
      [kw "insert"; kw "into"; (tokIdent, t)] ++
      match cols with
      | Some cols => sym tokLParen :: comma_tokens name_tokens cols ++ [sym tokRParen]
      | None => []
      end ++ [kw "values"; sym tokLParen] ++ comma_tokens literal_tokens vals ++ [sym tokRParen]
  | SelectStmt t cols w =>
      kw "select" :: match cols with Some cols => comma_tokens name_tokens cols | None => [sym tokStar] end ++
      [kw "from"; (tokIdent, t)] ++ match w with Some p => where_tokens p | None => [] end
  | UpdateStmt t asg w =>
      [kw "update"; (tokIdent, t); kw "set"] ++
      comma_tokens (λ a, assignment_tokens (a_Column a) (a_Value a)) asg ++ where_tokens w
  | DeleteStmt t w => [kw "delete"; kw "from"; (tokIdent, t)] ++ where_tokens w
  | BeginStmt => [kw "begin"]
  | CommitStmt => [kw "commit"]
  | RollbackStmt => [kw "rollback"]
  end.
Definition print_statement (st : Statement) : bytes := print_tokens (statement_tokens st).

(** *** Integers *)

Lemma digits_value_snoc ds d : digits_value (ds ++ [d]) = digits_value ds * 10 + (d - 48).
Proof. unfold digits_value. by rewrite foldl_app. Qed.

Lemma print_digits_spec fuel n :
  0 ≤ n < 10 ^ (1 + Z.of_nat fuel) →
  digits_value (print_digits fuel n) = n ∧ forallb isDigit (print_digits fuel n) = true ∧
  print_digits fuel n ≠ [] ∧ zlen (print_digits fuel n) ≤ 1 + Z.of_nat fuel.
Proof.
  revert n. induction fuel as [|fuel IH]; intros n Hn.
  { cbn [print_digits]. change (10 ^ (1 + Z.of_nat 0)) with 10 in Hn.
    unfold digits_value, isDigit, zlen. cbn [foldl forallb length]. repeat split; try done; lia. }
  cbn [print_digits]. destruct (Z.ltb_spec n 10) as [Hs|Hs].
  { unfold digits_value, isDigit, zlen. cbn [foldl forallb length]. repeat split; try done; lia. }
  destruct (IH (n / 10)) as (H1 & H2 & H3 & H4).
  { split; [apply Z.div_pos; lia|]. apply Z.div_lt_upper_bound; [lia|].
    replace (1 + Z.of_nat (S fuel)) with (1 + (1 + Z.of_nat fuel)) in Hn by lia.
    rewrite Z.pow_add_r in Hn by lia. change (10 ^ 1) with 10 in Hn. lia. }
  rewrite digits_value_snoc, H1, forallb_app, H2, zlen_app, zlen_cons, zlen_nil.
  pose proof (Z.mod_pos_bound n 10 ltac:(lia)). pose proof (Z.div_mod n 10 ltac:(lia)).
  split; [lia|]. split; [cbn; unfold isDigit; lia|]. split; [by destruct (print_digits fuel (n / 10))|lia].
Qed.

Lemma print_nat_spec n :
  0 ≤ n ≤ 2 ^ 63 →
  digits_value (print_nat n) = n ∧ forallb isDigit (print_nat n) = true ∧ print_nat n ≠ [] ∧ zlen (print_nat n) ≤ 21.
Proof. intros Hn. apply (print_digits_spec 20). change (10 ^ (1 + Z.of_nat 20)) with 1000000000000000000000. lia. Qed.

Lemma parse_print_int n : - 2 ^ 63 ≤ n < 2 ^ 63 → parseIntLiteral (print_int n) = Some n.
Proof.
  intros Hn. unfold parseIntLiteral, print_int. destruct (Z.ltb_spec n 0).
  - destruct (print_nat_spec (- n)) as (H1 & _); [lia|]. rewrite Z.eqb_refl, H1.
    replace (- - n) with n by lia. cbv zeta. rewrite (proj2 (andb_true_iff _ _)); [done|lia].
  - destruct (print_nat_spec n) as (H1 & H2 & H3 & _); [lia|].
    destruct (print_nat n) as [|c ds] eqn:E; [done|]. cbn in H2.
    rewrite (proj2 (Z.eqb_neq c 45)) by (unfold isDigit in H2; lia). rewrite <- E in *. rewrite H1. cbv zeta.
    rewrite (proj2 (andb_true_iff _ _)); [done|lia].
Qed.

(** *** Lexing a printed token *)

(** The text after a printed token: nothing, or the space of the next one. *)
Definition at_space (r : bytes) : Prop := match r with [] => True | c :: _ => c = 32 end.

Lemma scan_while_stop p a r :
  forallb p a = true → match r with [] => True | c :: _ => p c = false end → scan_while p (a ++ r) = (a, r).
Proof.
  intros Ha Hr. induction a as [|c a IH]; cbn in *.
  - destruct r as [|c r]; [done|]. cbn. by rewrite Hr.
  - apply andb_true_iff in Ha as [-> Ha]. by rewrite IH.
Qed.

Lemma at_space_stop (p : Z → bool) r : p 32 = false → at_space r → match r with [] => True | c :: _ => p c = false end.
Proof. intros Hp Hr. destruct r; [done|]. cbn in Hr. by rewrite Hr. Qed.

Definition lexeme_ok (t : lexeme) : Prop :=
  match t.1 with
  | tokEOF => False
  | tokIdent => is_ident t.2 = true
  | tokInt => ∃ sign ds, t.2 = sign ++ ds ∧ (sign = [] ∨ sign = [45]) ∧ ds ≠ [] ∧ forallb isDigit ds = true ∧
      zlen t.2 ≤ MaxIntegerDigits
  | tokString => zlen t.2 ≤ MaxStringLiteralBytes
  | _ => t.2 = []
  end.

Lemma is_ident_fold s : forallb ident_char s = true → foldIdent s = s ∧ forallb isIdentCont s = true.
Proof.
  induction s as [|c s IH]; [done|]. cbn. intros [Hc Hs]%andb_true_iff. destruct (IH Hs) as [H1 H2].
  rewrite H2. unfold ident_char in Hc. apply andb_true_iff in Hc as [Hc1 Hc2].
  unfold foldIdent in *. cbn. rewrite H1, Hc1. split; [|done]. by destruct ((65 <=? c) && (c <=? 90)).
Qed.

Lemma skip_to pos c r : isSpace c = false → skipSpace (mkLexer pos (32 :: c :: r)) = mkLexer (pos + 1) (c :: r).
Proof. intros Hc. unfold skipSpace. cbn. by rewrite Hc. Qed.

Lemma string_body_print start s r acc n :
  at_space r → zlen acc + zlen s ≤ MaxStringLiteralBytes →
  string_body start (escape s ++ 39 :: r) acc n = Ok (acc ++ s, n + zlen (escape s) + 1, r).
Proof.
  intros Hr. revert acc n. induction s as [|c s IH]; intros acc n Hl.
  { cbn. rewrite app_nil_r, zlen_nil, Z.add_0_r. destruct r as [|c r]; [done|]. cbn in Hr. by subst. }
  rewrite zlen_cons in Hl. unfold escape. cbn [mbind list_bind]. fold (escape s).
  assert (Ha : (acc ++ [c]) ++ s = acc ++ c :: s) by (by rewrite <- app_assoc).
  assert (Hz : zlen (acc ++ [c]) = zlen acc + 1) by (rewrite zlen_app, zlen_cons, zlen_nil; lia).
  pose proof (zlen_nonneg s). destruct (Z.eqb_spec c 39) as [->|Hc].
  - cbn [app]. cbn [string_body]. rewrite Z.eqb_refl, IH by lia. rewrite Ha, !zlen_cons. do 3 f_equal. lia.
  - cbn [app]. cbn [string_body]. rewrite (proj2 (Z.eqb_neq _ _)) by done. cbv zeta.
    rewrite (proj2 (Z.ltb_ge _ _)), IH by lia. rewrite Ha, zlen_cons. do 3 f_equal. lia.
Qed.

Lemma lexInt_print pos sign ds r :
  sign = [] ∨ sign = [45] → ds ≠ [] → forallb isDigit ds = true → zlen (sign ++ ds) ≤ MaxIntegerDigits → at_space r →
  lexInt (mkLexer pos (sign ++ ds ++ r)) =
    Ok (mkToken tokInt (sign ++ ds) pos, mkLexer (pos + zlen (sign ++ ds)) r).
Proof.
  intros Hs Hne Hd Hl Hr. unfold lexInt. cbn [l_rest l_pos].
  assert (match sign ++ ds ++ r with
          | c :: r0 => if c =? 45 then ([c], r0) else ([], c :: r0)
          | [] => ([], []) end = (sign, ds ++ r)) as ->.
  { destruct Hs as [-> | ->]; [|done]. destruct ds as [|d ds]; [done|]. cbn in Hd |- *.
    rewrite (proj2 (Z.eqb_neq d 45)); [done|]. unfold isDigit in Hd. lia. }
  rewrite scan_while_stop by (done || by apply at_space_stop).
  rewrite (proj2 (Z.eqb_neq _ _)), (proj2 (Z.ltb_ge _ _)); [done|lia|].
  destruct ds; [done|]. rewrite zlen_cons. pose proof (zlen_nonneg ds). lia.
Qed.

Lemma next_print pos t r :
  lexeme_ok t → at_space r →
  next (mkLexer pos (32 :: spell t ++ r)) = Ok (mkToken t.1 t.2 (pos + 1), mkLexer (pos + 1 + zlen (spell t)) r).
Proof.
  destruct t as [k s]. unfold lexeme_ok. cbn [fst snd]. intros Ht Hr. unfold next. destruct k; cbn [spell fst snd].
  - done.
  - destruct s as [|c s]; [done|]. cbn [is_ident] in Ht. bool_to_prop.
    destruct (is_ident_fold (c :: s)) as [Hf Hi]; [done|].
    match goal with H : isIdentStart c = true |- _ => rename H into Hc end. unfold isIdentStart in Hc.
    cbn [app]. rewrite skip_to by (unfold isSpace; lia). cbn [l_rest l_pos].
    repeat (rewrite (proj2 (Z.eqb_neq c _)) by lia). assert (isDigit c = false) as -> by (unfold isDigit; lia).
    cbn [orb andb]. assert (isIdentStart c = true) as -> by done. unfold lexIdent. cbn [l_rest l_pos].
    rewrite app_comm_cons, scan_while_stop by (done || by apply at_space_stop).
    rewrite (proj2 (Z.ltb_ge _ _)) by done. by rewrite Hf.
  - destruct Ht as (sign & ds & -> & Hs & Hne & Hd & Hl). rewrite <- app_assoc.
    assert (∃ c r', sign ++ ds ++ r = c :: r' ∧ (isDigit c = true ∨ (c = 45 ∧ ∃ d r'', r' = d :: r'' ∧ isDigit d = true)))
      as (c & r' & Hcr & Hc).
    { destruct ds as [|d ds]; [done|]. cbn in Hd. apply andb_true_iff in Hd as [Hd _].
      destruct Hs as [-> | ->]; cbn; do 2 eexists; (split; [done|]); [by left|right]. split; [done|]. by do 2 eexists. }
    rewrite Hcr. unfold isDigit in Hc at 1. rewrite skip_to by (unfold isSpace; lia). cbn [l_rest l_pos].
    repeat (rewrite (proj2 (Z.eqb_neq c _)) by lia).
    assert (isDigit c || ((c =? 45) && hasDigitAfterSign (mkLexer (pos + 1) (c :: r'))) = true) as ->.
    { destruct Hc as [Hc|[-> (d & r'' & -> & Hd2)]]; [unfold isDigit; by rewrite Hc|]. cbn. by rewrite Hd2. }
    rewrite <- Hcr. by apply lexInt_print.
  - rewrite <- app_comm_cons, skip_to by done. cbn [l_rest l_pos]. rewrite <- app_assoc.
    change (lexString (mkLexer (pos + 1) (39 :: escape s ++ [39] ++ r)) =
      Ok (mkToken tokString s (pos + 1), mkLexer (pos + 1 + zlen (39 :: escape s ++ [39])) r)).
    unfold lexString. cbn [l_rest l_pos]. change (drop 1 (39 :: escape s ++ [39] ++ r)) with (escape s ++ 39 :: r).
    rewrite string_body_print by (done || by rewrite zlen_nil). rewrite bind_Ok, zlen_cons, zlen_app, zlen_cons, zlen_nil.
    cbn [app]. do 3 f_equal. lia.
  - subst. cbn [app]. by rewrite skip_to.
  - subst. cbn [app]. by rewrite skip_to.
  - subst. cbn [app]. by rewrite skip_to.
  - subst. cbn [app]. by rewrite skip_to.
  - subst. cbn [app]. by rewrite skip_to.
  - subst. cbn [app]. by rewrite skip_to.
Qed.

(** [tok] is the lexeme [t] at some position. *)
Definition spelled (t : lexeme) (tok : token) : Prop := t_kind tok = t.1 ∧ t_text tok = t.2.

Lemma print_tokens_cons t ts : print_tokens (t :: ts) = 32 :: spell t ++ print_tokens ts.
Proof. done. Qed.

Lemma print_tokens_space ts : at_space (print_tokens ts).
Proof. by destruct ts. Qed.

Lemma lex_print fuel pos ts :
  Forall lexeme_ok ts → (length ts < fuel)%nat →
  ∃ toks e, lex_all fuel (mkLexer pos (print_tokens ts)) = Ok (toks ++ [mkToken tokEOF [] e]) ∧ Forall2 spelled ts toks.
Proof.
  intros Hts. revert pos fuel. induction Hts as [|t ts Ht Hts IH]; intros pos fuel Hf.
  { destruct fuel; [lia|]. exists [], (pos + 0). by split. }
  destruct fuel as [|fuel]; [lia|]. cbn [lex_all]. rewrite print_tokens_cons, next_print by (done || apply print_tokens_space).
  rewrite bind_Ok. cbn [t_kind]. rewrite bool_decide_false by (intros E; unfold lexeme_ok in Ht; by rewrite E in Ht).
  destruct (IH (pos + 1 + zlen (spell t)) fuel) as (toks & e & -> & H2); [cbn in Hf; lia|].
  rewrite bind_Ok. exists (mkToken t.1 t.2 (pos + 1) :: toks), e. split; [done|]. by constructor.
Qed.

(** *** Parsing printed tokens *)

Definition remaining (p : parser) : list token := p_cur p :: p_after p.

(** Between [p] and [q] the parser passes over the lexemes [ts]. *)
Definition reading (ts : list lexeme) (p q : parser) : Prop :=
  ∃ toks, Forall2 spelled ts toks ∧ remaining p = toks ++ remaining q.

Lemma reading_cons t ts p q :
  reading (t :: ts) p q → spelled t (p_cur p) ∧ reading ts (advance p) q.
Proof.
  intros (toks & H & Hr). apply Forall2_cons_inv_l in H as (x & toks' & Hx & Ht & ->).
  unfold remaining in Hr. injection Hr as Hc Ha. split; [by rewrite Hc|]. exists toks'. split; [done|].
  unfold advance. rewrite Ha. destruct toks'; done.
Qed.

Lemma reading_nil p q : reading [] p q → p = q.
Proof.
  intros (toks & ->%Forall2_nil_inv_l & Hr). destruct p, q. unfold remaining in Hr. cbn in Hr. by injection Hr as -> ->.
Qed.

Lemma reading_app ts1 ts2 p q :
  reading (ts1 ++ ts2) p q → ∃ r, reading ts1 p r ∧ reading ts2 r q.
Proof.
  revert p. induction ts1 as [|t ts1 IH]; intros p H.
  { exists p. split; [|done]. exists []. by split; [constructor|]. }
  pose proof (reading_cons _ _ _ _ H) as [Ht H']. destruct (IH _ H') as (r & (toks & Hf & Hr) & H2).
  exists r. split; [|done]. destruct H as (toks0 & Hf0 & Hr0).
  apply Forall2_cons_inv_l in Hf0 as (x & toks' & Hx & Hf' & ->). exists (x :: toks). split; [by constructor|].
  unfold remaining in *. injection Hr0 as Hc Ha. rewrite Hc, <- app_comm_cons. f_equal.
  unfold advance in Hr. rewrite Ha in Hr. rewrite Ha. by destruct toks'.
Qed.

Lemma expect_reads k x ts p q :
  reading ((k, x) :: ts) p q → expect k p = Ok (p_cur p, advance p) ∧ reading ts (advance p) q.
Proof.
  intros [[Hk _] H]%reading_cons. split; [|done]. unfold expect, at_kind. by rewrite bool_decide_true.
Qed.

Lemma expectKeyword_reads s ts p q :
  reading (kw s :: ts) p q → expectKeyword (str s) p = Ok (tt, advance p) ∧ reading ts (advance p) q.
Proof.
  intros [[Hk Ht] H]%reading_cons. split; [|done]. unfold expectKeyword, at_kind.
  by rewrite !bool_decide_true.
Qed.

Lemma expectName_reads n ts p q :
  name_ok n → reading ((tokIdent, n) :: ts) p q → expectName p = Ok (n, advance p) ∧ reading ts (advance p) q.
Proof.
  intros [_ Hn] [[Hk Ht] H]%reading_cons. split; [|done]. unfold expectName, at_kind.
  rewrite bool_decide_true by done. cbn [negb]. cbn in Ht. by rewrite Ht, Hn.
Qed.

Lemma atKeyword_reads s ts p q s' :
  reading (kw s :: ts) p q → atKeyword p (str s') = bool_decide (str s = str s').
Proof.
  intros [[Hk Ht] H]%reading_cons. unfold atKeyword, at_kind. cbn in Ht. by rewrite bool_decide_true, Ht by done.
Qed.

Lemma at_kind_reads t ts p q k : reading (t :: ts) p q → at_kind p k = bool_decide (t.1 = k).
Proof. intros [[Hk _] H]%reading_cons. unfold at_kind. by rewrite Hk. Qed.

Lemma parseLiteral_reads l p q :
  literal_ok l → reading (literal_tokens l) p q → parseLiteral p = Ok (l, q).
Proof.
  intros Hl H. assert (∃ t, literal_tokens l = [t]) as (t & Ht) by (destruct l; by eexists).
  rewrite Ht in H. apply reading_cons in H as [[Hk Hx] <-%reading_nil]. unfold parseLiteral.
  destruct l as [n|s|b]; injection Ht as <-; cbn in Hk, Hx; rewrite Hk, Hx; [|done|].
  - by rewrite parse_print_int.
  - destruct b; [by rewrite bool_decide_true|]. rewrite bool_decide_false by done. by rewrite bool_decide_true.
Qed.

(** One step of a production over printed tokens. *)
Ltac rstep H :=
  first
    [ let E := fresh "E" in destruct (expectKeyword_reads _ _ _ _ H) as [E H']; clear H; rename H' into H; rewrite E; clear E; rewrite bind_Ok
    | let E := fresh "E" in destruct (expect_reads _ _ _ _ _ H) as [E H']; clear H; rename H' into H; rewrite E; clear E; rewrite bind_Ok
    | let E := fresh "E" in destruct (expectName_reads _ _ _ _ ltac:(eassumption) H) as [E H']; clear H; rename H' into H; rewrite E; clear E; rewrite bind_Ok ].

Lemma assignment_reads {A} (mk : bytes → Literal → A) n l p q :
  name_ok n → literal_ok l → reading (assignment_tokens n l) p q →
  ('(name, p) ← expectName p; '(_, p) ← expect tokEquals p; '(lit, p) ← parseLiteral p; Ok (mk name lit, p)) = Ok (mk n l, q).
Proof.
  intros Hn Hl H. unfold assignment_tokens in H. rstep H. rstep H.
  by rewrite (parseLiteral_reads _ _ _ Hl H).
Qed.

Lemma parsePredicate_reads w p q :
  predicate_ok w → reading (assignment_tokens (p_Column w) (p_Value w)) p q → parsePredicate p = Ok (w, q).
Proof. intros [Hn Hl] H. unfold parsePredicate. rewrite (assignment_reads mkPredicate _ _ _ _ Hn Hl H). by destruct w. Qed.

(** A token that does not continue a column declaration. *)
Definition ends_column (q : parser) : Prop := atKeyword q (str "primary") = false.

Lemma columnTypeFromKeyword_print t : columnTypeFromKeyword (str (type_keyword t)) = Some t.
Proof. by destruct t. Qed.

Lemma parseColumnDef_reads c p q :
  name_ok (cd_Name c) → reading (column_tokens c) p q → ends_column q → parseColumnDef p = Ok (c, q).
Proof.
  destruct c as [n t pk]. cbn [cd_Name]. intros Hn H Hq. unfold column_tokens in H. cbn [cd_Name cd_Type cd_PrimaryKey app] in H.
  unfold parseColumnDef. rstep H. rewrite (at_kind_reads _ _ _ _ tokIdent H). cbn [fst kw]. rewrite bool_decide_true by done.
  cbn [negb]. apply reading_cons in H as [[_ Ht] H]. cbn in Ht. rewrite Ht, columnTypeFromKeyword_print. cbv zeta.
  destruct pk.
  - rewrite (atKeyword_reads _ _ _ _ "primary" H), bool_decide_true by done.
    apply reading_cons in H as [_ H]. rstep H. by apply reading_nil in H as <-.
  - apply reading_nil in H as <-. unfold ends_column in Hq. by rewrite Hq.
Qed.

Lemma comma_loop_reads {A} (item : P A) (enc : A → list lexeme) (ok : A → Prop) fuel acc l p q :
  (∀ x p q, ok x → reading (enc x) p q → ends_column q → item p = Ok (x, q)) →
  l ≠ [] → Forall ok l → zlen acc + zlen l ≤ MaxColumns → (length l ≤ fuel)%nat →
  reading (comma_tokens enc l) p q → ends_column q → at_kind q tokComma = false →
  comma_loop fuel item acc p = Ok (acc ++ l, q).
Proof.
  intros Hi Hne Hok Hz Hf H Hq Hc. revert acc fuel p Hne Hz Hf H.
  induction Hok as [|x l Hx Hl IH]; intros acc fuel p Hne Hz Hf H; [done|].
  destruct fuel as [|fuel]; [cbn in Hf; lia|]. cbn [comma_loop comma_tokens] in *. rewrite zlen_cons in Hz.
  assert (Hz' : zlen (acc ++ [x]) = zlen acc + 1) by (rewrite zlen_app, zlen_cons, zlen_nil; lia).
  pose proof (zlen_nonneg l). apply reading_app in H as (r & H1 & H2).
  destruct l as [|y l].
  - apply reading_nil in H2 as ->. rewrite (Hi x p q Hx H1 Hq), bind_Ok. cbv zeta.
    rewrite (proj2 (Z.ltb_ge _ _)) by lia. by rewrite Hc.
  - pose proof (at_kind_reads _ _ _ _ tokComma H2) as Hr. cbn [fst sym] in Hr. rewrite bool_decide_true in Hr by done.
    rewrite (Hi x p r Hx H1), bind_Ok.
    2: { unfold ends_column, atKeyword. rewrite (at_kind_reads _ _ _ _ tokIdent H2). by rewrite bool_decide_false. }
    cbv zeta. rewrite (proj2 (Z.ltb_ge _ _)), Hr by lia. apply reading_cons in H2 as [_ H2].
    rewrite (IH (acc ++ [x]) fuel (advance r)); [by rewrite <- app_assoc|done|lia|cbn in *; lia|done].
Qed.

Lemma comma_list_reads {A} (item : P A) (enc : A → list lexeme) (ok : A → Prop) l p q :
  (∀ x p q, ok x → reading (enc x) p q → ends_column q → item p = Ok (x, q)) →
  columns_ok ok l → reading (comma_tokens enc l) p q → ends_column q → at_kind q tokComma = false →
  comma_list item p = Ok (l, q).
Proof.
  intros Hi (Hne & Hz & Hok) H Hq Hc. unfold comma_list.
  rewrite (comma_loop_reads item enc ok _ [] l p q); try done. unfold zlen, MaxColumns in *. lia.
Qed.

(** The lists a production reads, up to a token that is neither a comma nor a
    column attribute. *)
Lemma names_read l p q :
  columns_ok name_ok l → reading (comma_tokens name_tokens l) p q → ends_column q → at_kind q tokComma = false →
  comma_list expectName p = Ok (l, q).
Proof.
  apply comma_list_reads. intros x p' q' Hx H _. unfold name_tokens in H.
  destruct (expectName_reads _ _ _ _ Hx H) as [-> ->%reading_nil]. done.
Qed.

Lemma literals_read l p q :
  columns_ok literal_ok l → reading (comma_tokens literal_tokens l) p q → ends_column q → at_kind q tokComma = false →
  comma_list parseLiteral p = Ok (l, q).
Proof. apply comma_list_reads. intros x p' q' Hx H _. by apply parseLiteral_reads. Qed.

Lemma columns_read l p q :
  columns_ok (λ c, name_ok (cd_Name c)) l → reading (comma_tokens column_tokens l) p q →
  ends_column q → at_kind q tokComma = false → comma_list parseColumnDef p = Ok (l, q).
Proof. apply comma_list_reads. intros x p' q' Hx H Hq. by apply parseColumnDef_reads. Qed.

Lemma assignments_read l p q :
  columns_ok (λ a, name_ok (a_Column a) ∧ literal_ok (a_Value a)) l →
  reading (comma_tokens (λ a, assignment_tokens (a_Column a) (a_Value a)) l) p q →
  ends_column q → at_kind q tokComma = false → comma_list parse_assignment p = Ok (l, q).
Proof.
  apply comma_list_reads. intros x p' q' [Hx Hl] H _. unfold parse_assignment.
  rewrite (assignment_reads mkAssignment _ _ _ _ Hx Hl H). by destruct x.
Qed.

Lemma sym_ends t ts p q :
  reading (t :: ts) p q → (t.1 ≠ tokIdent ∨ t.2 ≠ str "primary") → t.1 ≠ tokComma →
  ends_column p ∧ at_kind p tokComma = false.
Proof.
  intros H Ht Hc. pose proof (reading_cons _ _ _ _ H) as [[Hk Hx] _].
  unfold ends_column, atKeyword. rewrite !(at_kind_reads _ _ _ _ _ H). split; [|by rewrite bool_decide_false].
  destruct Ht as [Ht|Ht]; [by rewrite bool_decide_false|]. rewrite (bool_decide_false (_ = str "primary")) by (by rewrite Hx).
  by destruct (bool_decide _).
Qed.

Definition at_end (q : parser) : Prop := t_kind (p_cur q) = tokEOF.

Lemma at_end_keyword q s : at_end q → atKeyword q (str s) = false.
Proof. intros H. unfold atKeyword, at_kind. by rewrite H, bool_decide_false. Qed.

(** Read a list, then the token after it. *)
Ltac rlist lem H Hok :=
  let r := fresh "r" in let H1 := fresh "H1" in let Hs := fresh "Hs" in let Hc := fresh "Hc" in
  apply reading_app in H as (r & H1 & H);
  destruct (sym_ends _ _ _ _ H) as [Hs Hc]; [first [left; discriminate|right; discriminate]|discriminate|];
  rewrite (lem _ _ _ Hok H1 Hs Hc), bind_Ok; clear H1 Hs Hc.

Lemma where_reads w p q :
  predicate_ok w → reading (where_tokens w) p q →
  atKeyword p (str "where") = true ∧ parsePredicate (advance p) = Ok (w, q).
Proof.
  intros Hw H. unfold where_tokens in H. split; [by rewrite (atKeyword_reads _ _ _ _ "where" H), bool_decide_true|].
  apply reading_cons in H as [_ H]. by apply parsePredicate_reads.
Qed.

Lemma column_names_read cols p q :
  match cols with Some cols => columns_ok name_ok cols | None => True end →
  reading (match cols with
           | Some cols => sym tokLParen :: comma_tokens name_tokens cols ++ [sym tokRParen]
           | None => [] end) p q →
  at_kind q tokLParen = false → parse_column_names p = Ok (cols, q).
Proof.
  intros Hc H Hq. unfold parse_column_names. destruct cols as [cols|].
  - rewrite (at_kind_reads _ _ _ _ tokLParen H), bool_decide_true by done. cbv zeta.
    apply reading_cons in H as [_ H]. rlist names_read H Hc. rstep H. by apply reading_nil in H as ->.
  - apply reading_nil in H as ->. by rewrite Hq.
Qed.

Lemma projection_reads cols p q :
  match cols with Some cols => columns_ok name_ok cols | None => True end →
  reading (match cols with Some cols => comma_tokens name_tokens cols | None => [sym tokStar] end) p q →
  ends_column q → at_kind q tokComma = false → parse_projection p = Ok (cols, q).
Proof.
  intros Hc H Hq1 Hq2. unfold parse_projection. destruct cols as [[|c cols]|].
  - by destruct Hc.
  - cbn [comma_tokens name_tokens app] in H. rewrite (at_kind_reads _ _ _ _ tokStar H), bool_decide_false by done.
    by rewrite (names_read _ _ _ Hc H Hq1 Hq2).
  - rewrite (at_kind_reads _ _ _ _ tokStar H), bool_decide_true by done.
    apply reading_cons in H as [_ H]. by apply reading_nil in H as ->.
Qed.

(** The production a statement keyword selects. *)
Lemma production_reads st p q :
  statement_ok st → reading (statement_tokens st) p q → at_end q →
  match st with
  | CreateTableStmt _ _ => parseCreateTable p
  | InsertStmt _ _ _ => parseInsert p
  | SelectStmt _ _ _ => parseSelect p
  | UpdateStmt _ _ _ => parseUpdate p
  | DeleteStmt _ _ => parseDelete p
  | _ => Ok (st, advance p)
  end = Ok (st, q).
Proof.
  intros Hok H Hq. destruct st as [t cols|t cols vals|t cols w|t asg w|t w| | |]; cbn [statement_ok statement_tokens] in Hok, H.
  - destruct Hok as [Hn Hc]. unfold parseCreateTable. cbn [app] in H. do 4 rstep H. rlist columns_read H Hc.
    rstep H. by apply reading_nil in H as ->.
  - destruct Hok as (Hn & Hc & Hv). unfold parseInsert. cbn [app] in H. do 3 rstep H.
    apply reading_app in H as (r & H1 & H). rewrite (column_names_read _ _ _ Hc H1), bind_Ok by (by rewrite (at_kind_reads _ _ _ _ _ H)).
    do 2 rstep H. rlist literals_read H Hv. rstep H. by apply reading_nil in H as ->.
  - destruct Hok as (Hn & Hc & Hw). unfold parseSelect. rstep H. apply reading_app in H as (r & H1 & H). cbn [app] in H.
    destruct (sym_ends _ _ _ _ H) as [Hs Hcm]; [right; discriminate|discriminate|].
    rewrite (projection_reads _ _ _ Hc H1 Hs Hcm), bind_Ok. do 2 rstep H. unfold parse_where. destruct w as [w|].
    + destruct (where_reads _ _ _ Hw H) as [-> ->]. done.
    + apply reading_nil in H as ->. by rewrite at_end_keyword.
  - destruct Hok as (Hn & Hc & Hw). unfold parseUpdate. cbn [app] in H. do 3 rstep H.
    unfold where_tokens in H. rlist assignments_read H Hc. fold (where_tokens w) in H.
    destruct (where_reads _ _ _ Hw H) as [-> ->]. done.
  - destruct Hok as (Hn & Hw). unfold parseDelete. cbn [app] in H. do 3 rstep H.
    destruct (where_reads _ _ _ Hw H) as [-> ->]. done.
  - apply reading_cons in H as [_ H]. by apply reading_nil in H as ->.
  - apply reading_cons in H as [_ H]. by apply reading_nil in H as ->.
  - apply reading_cons in H as [_ H]. by apply reading_nil in H as ->.
Qed.

Lemma parseStatement_reads st p q :
  statement_ok st → reading (statement_tokens st) p q → at_end q → parseStatement p = Ok (st, q).
Proof.
  intros Hok H Hq. rewrite <- (production_reads st p q Hok H Hq). unfold parseStatement.
  assert (∃ s ts, statement_tokens st = kw s :: ts) as (s & ts & Hs) by (destruct st; by do 2 eexists).
  rewrite Hs in H. pose proof (reading_cons _ _ _ _ H) as [[Hk Hx] _]. cbn in Hx.
  rewrite (at_kind_reads _ _ _ _ tokIdent H), bool_decide_true by done. cbn [negb]. rewrite Hx.
  destruct st; injection Hs as <- _; reflexivity.
Qed.

Lemma literal_lexemes l : literal_ok l → Forall lexeme_ok (literal_tokens l).
Proof.
  destruct l as [n|s|b]; cbn; intros H; apply Forall_singleton; [|apply H|by destruct b].
  unfold lexeme_ok. cbn. unfold print_int. destruct (Z.ltb_spec n 0).
  - destruct (print_nat_spec (- n)) as (_ & H2 & H3 & H4); [lia|]. exists [45], (print_nat (- n)).
    split; [done|]. split; [by right|]. split; [done|]. split; [done|]. rewrite zlen_cons. unfold MaxIntegerDigits. lia.
  - destruct (print_nat_spec n) as (_ & H2 & H3 & H4); [lia|]. exists [], (print_nat n).
    split; [done|]. split; [by left|]. split; [done|]. split; [done|]. unfold MaxIntegerDigits. lia.
Qed.

Lemma comma_lexemes {A} (enc : A → list lexeme) (ok : A → Prop) l :
  (∀ x, ok x → Forall lexeme_ok (enc x)) → Forall ok l → Forall lexeme_ok (comma_tokens enc l).
Proof.
  intros He. induction 1 as [|x l Hx Hl IH]; [constructor|]. cbn [comma_tokens].
  apply Forall_app_2; [by apply He|]. destruct l; [constructor|]. by constructor.
Qed.

Lemma assignment_lexemes n l : name_ok n → literal_ok l → Forall lexeme_ok (assignment_tokens n l).
Proof. intros [Hn _] Hl. constructor; [done|]. constructor; [done|by apply literal_lexemes]. Qed.

Lemma name_lexeme n : name_ok n → lexeme_ok (tokIdent, n).
Proof. by intros [Hn _]. Qed.

Lemma name_list_lexemes l : Forall name_ok l → Forall lexeme_ok (comma_tokens name_tokens l).
Proof. apply comma_lexemes. intros x Hx. apply Forall_singleton. by apply name_lexeme. Qed.

Lemma where_lexemes w : predicate_ok w → Forall lexeme_ok (where_tokens w).
Proof. intros [Hn Hl]. constructor; [done|by apply assignment_lexemes]. Qed.

Lemma statement_lexemes st : statement_ok st → Forall lexeme_ok (statement_tokens st).
Proof.
  destruct st as [t cols|t cols vals|t cols w|t asg w|t w| | |]; cbn [statement_ok statement_tokens]; intros Hok.
  - destruct Hok as (Hn & _ & _ & Hc). repeat (constructor; [solve [done|by apply name_lexeme]|]).
    apply Forall_app_2; [|by constructor]. eapply comma_lexemes; [|exact Hc]. intros [n ty pk] Hx.
    constructor; [by apply name_lexeme|]. constructor; [by destruct ty|]. destruct pk; by repeat constructor.
  - destruct Hok as (Hn & Hc & (_ & _ & Hv)). repeat (constructor; [solve [done|by apply name_lexeme]|]).
    apply Forall_app_2.
    + destruct cols as [cols|]; [|constructor]. constructor; [done|]. apply Forall_app_2; [|by constructor].
      destruct Hc as (_ & _ & Hc). by apply name_list_lexemes.
    + repeat (constructor; [done|]). apply Forall_app_2; [|by constructor].
      eapply comma_lexemes; [|exact Hv]. apply literal_lexemes.
  - destruct Hok as (Hn & Hc & Hw). constructor; [done|]. apply Forall_app_2.
    + destruct cols as [cols|]; [|by constructor]. destruct Hc as (_ & _ & Hc). by apply name_list_lexemes.
    + repeat (constructor; [solve [done|by apply name_lexeme]|]). destruct w; [by apply where_lexemes|constructor].
  - destruct Hok as (Hn & (_ & _ & Hc) & Hw). repeat (constructor; [solve [done|by apply name_lexeme]|]).
    apply Forall_app_2; [|by apply where_lexemes]. eapply comma_lexemes; [|exact Hc].
    intros x [? ?]. by apply assignment_lexemes.
  - destruct Hok as (Hn & Hw). do 3 (constructor; [solve [done|by apply name_lexeme]|]). by apply where_lexemes.
  - by repeat constructor.
  - by repeat constructor.
  - by repeat constructor.
Qed.

Lemma print_tokens_length ts : (length ts ≤ length (print_tokens ts))%nat.
Proof. induction ts as [|t ts IH]; [done|]. rewrite print_tokens_cons. cbn. rewrite length_app. lia. Qed.

(** ** Properties of the front end *)

(** C29: on every byte string the front end terminates with a statement or a
    typed error: no loop runs out of fuel and no index is out of range; an
    error position lies inside the statement; and what it accepts is a
    well-formed tree: names are folded identifiers of the grammar and never
    keywords, integers fit 64 bits, lists have between one and [MaxColumns]
    elements. *)
Theorem sql_parse_total src :
  wf_bytes src →
  match Parse src with
  | Ok st => statement_ok st
  | Err (PositionError pos _) => 0 ≤ pos ≤ zlen src
  | Err (Sentinel _) => True
  | Err SyntaxFuel => False
  end.
Proof. intros H. exact (Parse_safe src H). Qed.

(** C28: parsing inverts printing.  Every well-formed statement whose text fits
    the size limit is the one its text parses to: no two statements share a
    text, quotes inside strings and the smallest 64-bit integer included, and
    with the previous property the parser accepts exactly the well-formed
    trees. *)
Theorem sql_parse_print st :
  statement_ok st → zlen (print_statement st) ≤ MaxStatementBytes → Parse (print_statement st) = Ok st.
Proof.
  intros Hok Hl. unfold Parse, newLexer. rewrite (proj2 (Z.ltb_ge _ _)) by done. rewrite bind_Ok. unfold print_statement.
  pose proof (print_tokens_length (statement_tokens st)).
  destruct (lex_print (S (length (print_tokens (statement_tokens st)))) 0 (statement_tokens st)) as (toks & e & -> & Hf);
    [by apply statement_lexemes|lia|].
  rewrite bind_Ok. set (q := mkParser (mkToken tokEOF [] e) []).
  assert (Hq : at_end q) by done.
  destruct toks as [|t ts]; [by destruct st; inversion Hf|]. rewrite <- app_comm_cons.
  assert (Hr : reading (statement_tokens st) (mkParser t (ts ++ [mkToken tokEOF [] e])) q) by (by exists (t :: ts)).
  by rewrite (parseStatement_reads _ _ _ Hok Hr Hq).
Qed.

(** ** Witnesses *)

Lemma sql_parse_total_witness :
  match Parse (str "select name from users where id = 'x") with
  | Err (PositionError pos _) => 0 ≤ pos ≤ 37
  | _ => False
  end.
Proof.
  assert (H := sql_parse_total (str "select name from users where id = 'x")
    ltac:(apply wf_bytes_compute; vm_compute; reflexivity)).
  vm_compute in H |- *. exact H.
Defined.

Definition demo_insert : Statement :=
  InsertStmt (str "t") (Some [str "a"; str "b"]) [LiteralInt (- 2 ^ 63); LiteralString (str "it's")].

Lemma demo_name_ok s : is_ident s && negb (isKeyword s) = true → name_ok s.
Proof. intros H. bool_to_prop. by split. Qed.

Lemma sql_parse_print_witness : Parse (print_statement demo_insert) = Ok demo_insert.
Proof.
  apply sql_parse_print; [|vm_compute; discriminate]. split; [apply demo_name_ok; vm_compute; reflexivity|]. split.
  - split; [discriminate|]. split; [vm_compute; discriminate|].
    repeat constructor; vm_compute; reflexivity.
  - split; [discriminate|]. split; [vm_compute; discriminate|].
    constructor; [cbn; lia|]. constructor; [|constructor].
    split; [apply wf_bytes_compute; vm_compute; reflexivity|vm_compute; discriminate].
Defined.
