(* ===== verification/SqlRow.v ===== *)
(** * Tables in the key-value store ([internal/sql/value.go], [schema.go],
    [row.go])

    Typed values, schemas and rows, their byte formats, and the keys they are
    stored under.  A [Value] is the field its [Type] selects. *)

From Stdlib Require Import String.
From S2P Require Import Prelude Bytes SqlSyntax Mvcc Txn.

(** What a statement can fail with: a sentinel of the package, an error of the
    parser, one of the transaction below, a refusal of the admission gate, or a
    panic. *)
(** What a call of a node answers with when it decides nothing. *)
Inductive node_call_error :=
| CallNotLeader (leader : bytes)
| CallLeadershipLost
| CallSuperseded
| CallStopped
| CallRemoved
| CallOverloaded
| CallCanceled
| CallRequestMismatch.

Inductive sql_error :=
| SqlSentinel (e : sql_sentinel)
| SqlParse (e : syntax_error)
| SqlTxnErr (e : txn_error)
| SqlNodeErr (e : node_call_error)
| SqlRejected
| SqlPanic.
#[export] Instance sql_panicking : Panicking sql_error := SqlPanic.

Inductive Value := IntValue (n : Z) | TextValue (s : bytes) | BoolValue (b : bool).
#[export] Instance Value_eq_dec : EqDecision Value.
Proof. solve_decision. Defined.

Definition value_type (v : Value) : ColumnType :=
  match v with IntValue _ => TypeInteger | TextValue _ => TypeText | BoolValue _ => TypeBoolean end.

Definition type_byte (t : ColumnType) : Z :=
  match t with TypeInteger => 1 | TypeText => 2 | TypeBoolean => 3 end.
(** [ColumnType.valid] with the conversion. *)
Definition type_of_byte (b : Z) : option ColumnType :=
  if b =? 1 then Some TypeInteger else if b =? 2 then Some TypeText
  else if b =? 3 then Some TypeBoolean else None.

Record Column := mkColumn { col_Name : bytes; col_Type : ColumnType }.
Record Schema := mkSchema { s_Table : bytes; s_Columns : list Column; s_PrimaryKey : Z }.

(** The loop of [Schema.column], from position [i]. *)
Fixpoint find_column (cols : list Column) (name : bytes) (i : Z) : option (Column * Z) :=
  match cols with
  | [] => None
  | c :: cols => if bool_decide (col_Name c = name) then Some (c, i) else find_column cols name (i + 1)
  end.
Definition column (s : Schema) (name : bytes) : option (Column * Z) := find_column (s_Columns s) name 0.

Definition column_at (s : Schema) (i : Z) : result sql_error Column :=
  match s_Columns s !! Z.to_nat i with
  | Some c => if i <? 0 then Err SqlPanic else Ok c
  | None => Err SqlPanic
  end.
Definition primaryKeyColumn (s : Schema) : result sql_error Column := column_at s (s_PrimaryKey s).

(** ** CREATE TABLE *)

(** The loop of [buildSchema]: the columns so far, the names seen and the
    index of the primary key. *)
Fixpoint build_columns (defs : list ColumnDef) (i : Z) (seen : list bytes) (cols : list Column) (pkIndex : Z)
    : result sql_error (list Column * Z) :=
  match defs with
  | [] => Ok (cols, pkIndex)
  | c :: defs =>
      if bool_decide (cd_Name c ∈ seen) then Err (SqlSentinel ErrDuplicateColumn) else
      let seen := cd_Name c :: seen in
      let cols := cols ++ [mkColumn (cd_Name c) (cd_Type c)] in
      if cd_PrimaryKey c then
        if negb (pkIndex =? -1) then Err (SqlSentinel ErrMultiplePrimaryKeys)
        else build_columns defs (i + 1) seen cols i
      else build_columns defs (i + 1) seen cols pkIndex
  end.

Definition buildSchema (table : bytes) (defs : list ColumnDef) : result sql_error Schema :=
  if zlen defs =? 0 then Err (SqlSentinel ErrUnsupportedFeature) else
  if MaxColumns <? zlen defs then Err (SqlSentinel ErrLimitExceeded) else
  '(cols, pkIndex) ← build_columns defs 0 [] [] (-1);
  if pkIndex =? -1 then Err (SqlSentinel ErrMissingPrimaryKey)
  else Ok (mkSchema table cols pkIndex).

Definition schemaRecordVersion : Z := 1.

Definition encode_column (c : Column) : bytes :=
  put_u16 (zlen (col_Name c)) ++ col_Name c ++ [type_byte (col_Type c)].
Definition encodeSchema (s : Schema) : bytes :=
  [schemaRecordVersion] ++ put_u16 (zlen (s_Table s)) ++ s_Table s ++
  put_u16 (zlen (s_Columns s)) ++ put_u16 (s_PrimaryKey s) ++ mjoin (encode_column <$> s_Columns s).

Definition decode_column (b : bytes) : result sql_error (Column * bytes) :=
  if zlen b <? 2 then Err (SqlSentinel ErrSyntax) else
  '(nameLen, b) ← u16_at b;
  if zlen b <? nameLen then Err (SqlSentinel ErrSyntax) else
  '(name, b) ← slice_at nameLen b;
  if zlen b <? 1 then Err (SqlSentinel ErrSyntax) else
  '(t, b) ← u8_at b;
  match type_of_byte t with
  | None => Err (SqlSentinel ErrUnsupportedFeature)
  | Some ct => Ok (mkColumn name ct, b)
  end.

Definition decodeSchema (b : bytes) : result sql_error Schema :=
  if zlen b <? 3 then Err (SqlSentinel ErrSyntax) else
  '(version, b) ← u8_at b;
  if negb (version =? schemaRecordVersion) then Err (SqlSentinel ErrUnsupportedFeature) else
  '(tableLen, b) ← u16_at b;
  if zlen b <? tableLen then Err (SqlSentinel ErrSyntax) else
  '(table, b) ← slice_at tableLen b;
  if zlen b <? 4 then Err (SqlSentinel ErrSyntax) else
  '(numCols, b) ← u16_at b;
  '(pkIndex, b) ← u16_at b;
  if zlen b / 3 <? numCols then Err (SqlSentinel ErrSyntax) else
  if numCols <=? pkIndex then Err (SqlSentinel ErrSyntax) else
  '(cols, b) ← decode_n (Z.to_nat numCols) decode_column b;
  if negb (zlen b =? 0) then Err (SqlSentinel ErrSyntax) else
  Ok (mkSchema table cols pkIndex).

(** ** Keys *)

Definition schemaKeyTag : Z := 1.
Definition rowKeyTag : Z := 2.
Definition schemaKey (table : bytes) : bytes := schemaKeyTag :: table.
Definition rowKeyPrefix (table : bytes) : bytes := rowKeyTag :: table ++ [0].

Definition encodePKValue (v : Value) : bytes :=
  type_byte (value_type v) ::
  match v with
  | IntValue n => put_u64 n
  | BoolValue b => [if b then 1 else 0]
  | TextValue s => s
  end.
Definition rowKey (table : bytes) (pk : Value) : bytes := rowKeyPrefix table ++ encodePKValue pk.

(** ** Rows *)

Definition rowRecordVersion : Z := 1.

Definition encode_value (v : Value) : bytes :=
  type_byte (value_type v) ::
  match v with
  | IntValue n => put_u64 n
  | BoolValue b => [if b then 1 else 0]
  | TextValue s => put_u32 (zlen s) ++ s
  end.
Definition encodeRow (values : list Value) : bytes :=
  [rowRecordVersion] ++ put_u16 (zlen values) ++ mjoin (encode_value <$> values).

(** The [switch] of [decodeRow] on a column's type. *)
Definition decode_value (t : ColumnType) (b : bytes) : result sql_error (Value * bytes) :=
  match t with
  | TypeInteger =>
      if zlen b <? 8 then Err (SqlSentinel ErrSyntax) else
      '(x, b) ← u64_at b; Ok (IntValue (i64 x), b)
  | TypeBoolean =>
      if zlen b <? 1 then Err (SqlSentinel ErrSyntax) else
      '(x, b) ← u8_at b; Ok (BoolValue (negb (x =? 0)), b)
  | TypeText =>
      if zlen b <? 4 then Err (SqlSentinel ErrSyntax) else
      '(strLen, b) ← u32_at b;
      if zlen b <? strLen then Err (SqlSentinel ErrSyntax) else
      '(s, b) ← slice_at strLen b; Ok (TextValue s, b)
  end.

(** The loop of [decodeRow] over the columns of the schema. *)
Fixpoint decode_values (cols : list Column) (b : bytes) : result sql_error (list Value * bytes) :=
  match cols with
  | [] => Ok ([], b)
  | c :: cols =>
      if zlen b <? 1 then Err (SqlSentinel ErrSyntax) else
      '(t, b) ← u8_at b;
      if negb (t =? type_byte (col_Type c)) then Err (SqlSentinel ErrTypeMismatch) else
      '(v, b) ← decode_value (col_Type c) b;
      '(vs, b) ← decode_values cols b;
      Ok (v :: vs, b)
  end.

Definition decodeRow (s : Schema) (b : bytes) : result sql_error (list Value) :=
  if zlen b <? 3 then Err (SqlSentinel ErrSyntax) else
  '(version, b) ← u8_at b;
  if negb (version =? rowRecordVersion) then Err (SqlSentinel ErrUnsupportedFeature) else
  '(numCols, b) ← u16_at b;
  if negb (numCols =? zlen (s_Columns s)) then Err (SqlSentinel ErrSyntax) else
  '(values, b) ← decode_values (s_Columns s) b;
  if negb (zlen b =? 0) then Err (SqlSentinel ErrSyntax) else Ok values.

(** ** Well-formed schemas and rows *)

Definition schema_ok (s : Schema) : Prop :=
  zlen (s_Table s) < 2 ^ 16 ∧ zlen (s_Columns s) < 2 ^ 16 ∧ 0 ≤ s_PrimaryKey s < zlen (s_Columns s) ∧
  Forall (λ c, zlen (col_Name c) < 2 ^ 16) (s_Columns s).

Definition value_ok (v : Value) : Prop :=
  match v with
  | IntValue n => - 2 ^ 63 ≤ n < 2 ^ 63
  | TextValue s => wf_bytes s ∧ zlen s < 2 ^ 32
  | BoolValue _ => True
  end.
(** A row of the table: one value per column, of the column's type. *)
Definition row_ok (s : Schema) (vs : list Value) : Prop :=
  Forall2 (λ c v, value_type v = col_Type c ∧ value_ok v) (s_Columns s) vs.

(** ** Round trips *)

Lemma type_of_byte_byte t : type_of_byte (type_byte t) = Some t.
Proof. by destruct t. Qed.

Lemma type_of_byte_Some b t : type_of_byte b = Some t → b = type_byte t.
Proof.
  unfold type_of_byte. destruct (Z.eqb_spec b 1); [by intros [= <-]|]. destruct (Z.eqb_spec b 2); [by intros [= <-]|].
  destruct (Z.eqb_spec b 3); [by intros [= <-]|done].
Qed.

Lemma decode_encode_column c r :
  zlen (col_Name c) < 2 ^ 16 → decode_column (encode_column c ++ r) = Ok (c, r).
Proof.
  destruct c as [n t]. cbn [col_Name col_Type]. intros Hn. unfold decode_column, encode_column. cbn [col_Name col_Type].
  repeat decode_step. by rewrite type_of_byte_byte.
Qed.

Lemma zlen_encode_column c : zlen (encode_column c) = 3 + zlen (col_Name c).
Proof. unfold encode_column. autorewrite with zlen. lia. Qed.

Lemma decode_encode_schema s : schema_ok s → decodeSchema (encodeSchema s) = Ok s.
Proof.
  destruct s as [t cols pk]. intros (Ht & Hc & Hpk & Hn). cbn [s_Table s_Columns s_PrimaryKey] in *.
  unfold decodeSchema, encodeSchema, schemaRecordVersion. cbn [s_Table s_Columns s_PrimaryKey].
  assert (Hmin : 3 * zlen cols ≤ zlen (mjoin (encode_column <$> cols))).
  { apply zlen_mjoin_ge. intros x _. rewrite zlen_encode_column. zlen_facts. lia. }
  assert (Hd : decode_n (length cols) decode_column (mjoin (encode_column <$> cols)) = Ok (cols, [])).
  { rewrite <- (app_nil_r (mjoin _)). apply decode_n_encode. intros x r Hx. apply decode_encode_column.
    rewrite Forall_forall in Hn. by apply Hn. }
  generalize dependent (mjoin (encode_column <$> cols)). intros body Hmin Hd.
  repeat decode_step. rewrite (proj2 (Z.ltb_ge (zlen body / 3) _)) by (apply Z.div_le_lower_bound; lia).
  rewrite (proj2 (Z.leb_gt _ _)) by lia. rewrite to_nat_zlen, Hd. done.
Qed.

Lemma u64_at_put_signed v r : u64_at (put_u64 v ++ r) = (Ok (u64 v, r) : result sql_error _).
Proof.
  unfold u64_at. rewrite zlen_app, zlen_be_put, drop_be_put. pose proof (zlen_nonneg r).
  rewrite (proj2 (Z.ltb_ge _ _)) by lia. unfold get_u64. by rewrite take_be_put, be_get_put_mod.
Qed.

Lemma i64_u64 v : - 2 ^ 63 ≤ v < 2 ^ 63 → i64 (u64 v) = v.
Proof.
  intros Hv. unfold i64. rewrite (u64_small (u64 v)) by apply u64_range. unfold u64.
  destruct (Z.ltb_spec v 0).
  - replace (v mod 2 ^ 64) with (v + 2 ^ 64).
    + rewrite (proj2 (Z.ltb_ge _ _)) by lia. lia.
    + symmetry. rewrite <- (Z.mod_add v 1 (2 ^ 64)) by lia. rewrite Z.mul_1_l. apply Z.mod_small. lia.
  - rewrite (Z.mod_small v (2 ^ 64)) by lia. rewrite (proj2 (Z.ltb_lt _ _)) by lia. done.
Qed.

Lemma decode_encode_values cols vs r :
  Forall2 (λ c v, value_type v = col_Type c ∧ value_ok v) cols vs →
  decode_values cols (mjoin (encode_value <$> vs) ++ r) = Ok (vs, r).
Proof.
  induction 1 as [|c v cols vs [Ht Hv] Hr IH]; [done|].
  change (mjoin (encode_value <$> v :: vs)) with (encode_value v ++ mjoin (encode_value <$> vs)).
  rewrite <- app_assoc. unfold encode_value at 1. cbn [decode_values]. rewrite Ht.
  set (rest := mjoin (encode_value <$> vs) ++ r) in *. rewrite <- app_comm_cons.
  destruct v as [n|s|b]; cbn [value_type] in Ht; rewrite <- Ht; cbn [type_byte]; unfold decode_value.
  - rewrite (proj2 (Z.ltb_ge _ 1)) by zlen_lia. rewrite u8_at_put, bind_Ok, Z.eqb_refl. cbn [negb].
    rewrite (proj2 (Z.ltb_ge _ 8)) by zlen_lia. rewrite u64_at_put_signed, !bind_Ok, IH, bind_Ok, i64_u64 by done. done.
  - destruct Hv as [_ Hv]. repeat decode_step. by rewrite IH.
  - repeat decode_step. rewrite IH, bind_Ok. by destruct b.
Qed.

Lemma decode_encode_row s vs :
  row_ok s vs → zlen (s_Columns s) < 2 ^ 16 → decodeRow s (encodeRow vs) = Ok vs.
Proof.
  intros Hr Hc. pose proof (Forall2_length _ _ _ Hr) as Hlen. unfold decodeRow, encodeRow, rowRecordVersion.
  assert (zlen vs = zlen (s_Columns s)) by (unfold zlen; lia).
  assert (Hd := decode_encode_values _ _ [] Hr). rewrite app_nil_r in Hd.
  generalize dependent (mjoin (encode_value <$> vs)). intros body Hd. repeat decode_step. by rewrite Hd.
Qed.

(** ** Decoding arbitrary bytes *)

Lemma decode_column_reads b :
  wf_bytes b →
  reads (decode_column b) (λ '(c, b'),
    (wf_bytes (col_Name c) ∧ zlen (col_Name c) < 2 ^ 16) ∧ wf_bytes b' ∧ zlen b' ≤ zlen b - 3).
Proof.
  intros Hb. unfold decode_column. repeat reads_step.
  destruct (type_of_byte _); [|discriminate]. cbn. unfold is_u16 in *. split; [split; [done|lia]|]. split; [done|].
  bool_to_prop. zlen_facts. lia.
Qed.

Lemma decodeSchema_reads b :
  wf_bytes b →
  reads (decodeSchema b) (λ s, schema_ok s ∧ wf_bytes (s_Table s) ∧ Forall (λ c, wf_bytes (col_Name c)) (s_Columns s)).
Proof.
  intros Hb. unfold decodeSchema. repeat reads_step.
  eapply (reads_decode_n (λ c, wf_bytes (col_Name c) ∧ zlen (col_Name c) < 2 ^ 16) 3);
    [apply decode_column_reads|done|].
  intros cols rest Hc Hlen Hrest _. cbv beta iota. reads_step; [reads_step|]. cbn.
  unfold is_u16 in *. bool_to_prop. assert (zlen cols = x2) as Hz by (unfold zlen; lia).
  split; [split; [cbn; lia|]|].
  - cbn. rewrite Hz. split; [lia|]. split; [lia|]. eapply Forall_impl; [exact Hc|]. by intros c [_ ?].
  - split; [done|]. eapply Forall_impl; [exact Hc|]. by intros c [? _].
Qed.

Lemma i64_range x : - 2 ^ 63 ≤ i64 x < 2 ^ 63.
Proof. unfold i64. destruct (u64_range x). destruct (Z.ltb_spec (u64 x) (2 ^ 63)); lia. Qed.

Lemma decode_value_reads t b :
  wf_bytes b → reads (decode_value t b) (λ '(v, b'), (value_type v = t ∧ value_ok v) ∧ wf_bytes b').
Proof.
  intros Hb. destruct t; cbn [decode_value]; repeat reads_step; cbn.
  - split; [split; [done|apply i64_range]|done].
  - unfold is_u32 in *. split; [split; [done|split; [done|lia]]|done].
  - done.
Qed.

Lemma decode_values_reads cols b :
  wf_bytes b →
  reads (decode_values cols b) (λ '(vs, b'),
    Forall2 (λ c v, value_type v = col_Type c ∧ value_ok v) cols vs ∧ wf_bytes b').
Proof.
  revert b. induction cols as [|c cols IH]; intros b Hb; [by split|]. cbn [decode_values].
  repeat reads_step. eapply reads_mono; [by apply decode_value_reads|].
  intros [v b1] [Hv Hb1]. apply reads_bind. eapply reads_mono; [by apply IH|].
  intros [vs b2] [Hvs Hb2]. split; [by constructor|done].
Qed.

Lemma decodeRow_reads s b : wf_bytes b → reads (decodeRow s b) (row_ok s).
Proof.
  intros Hb. unfold decodeRow. repeat reads_step. eapply reads_mono; [by apply decode_values_reads|].
  intros [vs b1] [Hvs _]. by repeat reads_step.
Qed.

(** ** Keys do not collide *)

Definition no_nul (t : bytes) : Prop := Forall (λ c, c ≠ 0) t.

Lemma split_at_nul t1 t2 a b :
  no_nul t1 → no_nul t2 → t1 ++ 0 :: a = t2 ++ 0 :: b → t1 = t2 ∧ a = b.
Proof.
  intros H1. revert t2. induction H1 as [|c t1 Hc H1 IH]; intros [|d t2] H2 He; cbn in He.
  - by injection He.
  - injection He as <- _. by apply Forall_cons in H2 as [? _].
  - by injection He as ->.
  - apply Forall_cons in H2 as [_ H2]. injection He as -> He. by destruct (IH t2 H2 He) as [-> ->].
Qed.

Lemma rowKey_eq t v : rowKey t v = rowKeyTag :: t ++ 0 :: encodePKValue v.
Proof. unfold rowKey, rowKeyPrefix. by rewrite <- app_comm_cons, <- app_assoc. Qed.

Lemma put_u64_inj a b : - 2 ^ 63 ≤ a < 2 ^ 63 → - 2 ^ 63 ≤ b < 2 ^ 63 → put_u64 a = put_u64 b → a = b.
Proof.
  intros Ha Hb He. apply (f_equal be_get) in He. rewrite !be_get_put_mod in He.
  rewrite <- (i64_u64 a), <- (i64_u64 b) by done. unfold u64. by f_equal.
Qed.

Lemma encodePKValue_inj v w : value_ok v → value_ok w → encodePKValue v = encodePKValue w → v = w.
Proof.
  intros Hv Hw He. unfold encodePKValue in He. injection He as Ht Hr.
  destruct v, w; try done; cbn in Hr.
  - f_equal. by apply put_u64_inj.
  - by f_equal.
  - injection Hr as Hr. by destruct b, b0.
Qed.

Lemma rowKey_inj t1 t2 v w :
  no_nul t1 → no_nul t2 → value_ok v → value_ok w → rowKey t1 v = rowKey t2 w → t1 = t2 ∧ v = w.
Proof.
  intros H1 H2 Hv Hw. rewrite !rowKey_eq. intros [= He]. apply split_at_nul in He as [-> He]; [|done|done].
  split; [done|]. by apply encodePKValue_inj.
Qed.

Lemma rowKeyPrefix_prefix t1 t2 v :
  no_nul t1 → no_nul t2 → rowKeyPrefix t1 `prefix_of` rowKey t2 v ↔ t1 = t2.
Proof.
  intros H1 H2. split; [|intros ->; by eexists]. intros [k Hk]. rewrite rowKey_eq in Hk. unfold rowKeyPrefix in Hk.
  rewrite <- app_comm_cons, <- app_assoc in Hk. injection Hk as Hk. cbn in Hk.
  apply split_at_nul in Hk as [-> _]; done.
Qed.

Lemma schemaKey_not_row t1 t2 v : schemaKey t1 ≠ rowKey t2 v.
Proof. by rewrite rowKey_eq. Qed.

(** ** CREATE TABLE accepts exactly the valid declarations *)

Definition pk_count (defs : list ColumnDef) : nat := length (filter (λ c, cd_PrimaryKey c = true) defs).

Lemma build_columns_spec defs i seen cols pk r :
  0 ≤ i → build_columns defs i seen cols pk = Ok r →
  NoDup (cd_Name <$> defs) ∧ (∀ n, n ∈ cd_Name <$> defs → n ∉ seen) ∧
  r.1 = cols ++ ((λ c, mkColumn (cd_Name c) (cd_Type c)) <$> defs) ∧
  ((r.2 = pk ∧ pk_count defs = 0%nat) ∨ (pk = -1 ∧ pk_count defs = 1%nat ∧
     ∃ k c, r.2 = i + Z.of_nat k ∧ defs !! k = Some c ∧ cd_PrimaryKey c = true)).
Proof.
  revert i seen cols pk. induction defs as [|c defs IH]; intros i seen cols pk Hi H; cbn [build_columns] in H.
  { injection H as <-. cbn. rewrite app_nil_r. split; [constructor|]. split; [by intros n ?%not_elem_of_nil|].
    split; [done|by left]. }
  case_bool_decide as Hs; [done|]. cbv zeta in H. unfold pk_count. rewrite filter_cons, fmap_cons.
  assert (Hwrap : ∀ i' pk', 0 ≤ i' → build_columns defs i' (cd_Name c :: seen) (cols ++ [mkColumn (cd_Name c) (cd_Type c)]) pk' = Ok r →
    NoDup (cd_Name c :: (cd_Name <$> defs)) ∧ (∀ n, n ∈ cd_Name c :: (cd_Name <$> defs) → n ∉ seen) ∧
    r.1 = cols ++ ((λ c, mkColumn (cd_Name c) (cd_Type c)) <$> c :: defs)).
  { intros i' pk' Hi' Hb. destruct (IH _ _ _ _ Hi' Hb) as (H1 & H2 & H3 & _). split; [|split].
    - constructor; [|done]. intros Hin. apply (H2 _ Hin). by left.
    - intros n [->|Hn]%elem_of_cons; [done|]. intros Hin. apply (H2 _ Hn). by right.
    - rewrite H3, fmap_cons, <- app_assoc. done. }
  destruct (cd_PrimaryKey c) eqn:Hpk.
  - destruct (Z.eqb_spec pk (-1)) as [->|]; [|done]. cbn [negb] in H.
    assert (Hi' : 0 ≤ i + 1) by lia. destruct (Hwrap _ _ Hi' H) as (H1 & H2 & H3). split; [done|]. split; [done|]. split; [done|]. right. split; [done|].
    destruct (IH _ _ _ _ Hi' H) as (_ & _ & _ & [[Hr Hc]|(Hm1 & Hc & _)]).
    + rewrite decide_True by done. cbn. fold (pk_count defs). rewrite Hc. split; [done|]. exists 0%nat, c. split; [lia|done].
    + lia.
  - assert (Hi' : 0 ≤ i + 1) by lia. destruct (Hwrap _ _ Hi' H) as (H1 & H2 & H3). split; [done|]. split; [done|]. split; [done|].
    rewrite decide_False by done. fold (pk_count defs).
    destruct (IH _ _ _ _ Hi' H) as (_ & _ & _ & [Hr|(Hm1 & Hc & k & c' & Hk & Hl & Hp)]); [by left|right].
    split; [done|]. split; [done|]. exists (S k), c'. split; [lia|done].
Qed.

Lemma buildSchema_ok t defs s :
  buildSchema t defs = Ok s →
  1 ≤ zlen defs ≤ MaxColumns ∧ NoDup (cd_Name <$> defs) ∧ pk_count defs = 1%nat ∧
  s_Table s = t ∧ s_Columns s = (λ c, mkColumn (cd_Name c) (cd_Type c)) <$> defs ∧
  0 ≤ s_PrimaryKey s < zlen defs ∧
  ∃ c, defs !! Z.to_nat (s_PrimaryKey s) = Some c ∧ cd_PrimaryKey c = true.
Proof.
  unfold buildSchema. destruct (Z.eqb_spec (zlen defs) 0); [done|]. destruct (Z.ltb_spec MaxColumns (zlen defs)); [done|].
  pose proof (zlen_nonneg defs). destruct (build_columns _ _ _ _ _) as [[cols pk]|] eqn:E; [|done]. rewrite bind_Ok.
  destruct (Z.eqb_spec pk (-1)); [done|]. intros [= <-]. cbn.
  destruct (build_columns_spec _ _ _ _ _ _ (Z.le_refl 0) E) as (H1 & _ & H2 & [[Hpk _]|(_ & Hc & k & c & Hk & Hl & Hp)]);
    cbn in H2; [by cbn in Hpk|]. cbn in Hk.
  split; [lia|]. split; [done|]. split; [done|]. split; [done|]. split; [done|].
  pose proof (lookup_lt_Some _ _ _ Hl). split; [unfold zlen; lia|]. exists c. by replace (Z.to_nat pk) with k by lia.
Qed.

(** A declaration that breaks none of the rules is accepted. *)
Lemma build_columns_total defs i seen cols pk :
  NoDup (cd_Name <$> defs) → (∀ n, n ∈ cd_Name <$> defs → n ∉ seen) →
  0 ≤ i → (pk = -1 ∧ (pk_count defs ≤ 1)%nat ∨ pk_count defs = 0%nat) →
  ∃ r, build_columns defs i seen cols pk = Ok r.
Proof.
  revert i seen cols pk. induction defs as [|c defs IH]; intros i seen cols pk Hnd Hs Hi Hpk; [by eexists|].
  cbn [build_columns]. rewrite fmap_cons in Hnd, Hs. apply NoDup_cons in Hnd as [Hc Hnd].
  rewrite bool_decide_false by (apply Hs; by left). cbv zeta.
  assert (Hs' : ∀ n, n ∈ cd_Name <$> defs → n ∉ cd_Name c :: seen).
  { intros n Hn [->|Hin]%elem_of_cons; [done|]. apply (Hs n); [by right|done]. }
  unfold pk_count in Hpk. rewrite filter_cons in Hpk. destruct (cd_PrimaryKey c) eqn:Ep.
  - rewrite decide_True in Hpk by done. cbn in Hpk. fold (pk_count defs) in Hpk. destruct Hpk as [[-> Hle]|]; [|lia].
    cbn. apply IH; [done|done|lia|right; lia].
  - rewrite decide_False in Hpk by done. fold (pk_count defs) in Hpk. apply IH; [done|done|lia|done].
Qed.

Lemma buildSchema_no_panic t defs e : buildSchema t defs = Err e → e ≠ SqlPanic.
Proof.
  assert (Hb : ∀ defs i seen cols pk e, build_columns defs i seen cols pk = Err e → e ≠ SqlPanic).
  { clear. induction defs as [|c defs IH]; intros i seen cols pk e H; cbn [build_columns] in H; [done|].
    case_bool_decide; [by injection H as <-|]. cbv zeta in H. destruct (cd_PrimaryKey c); [|by eapply IH].
    destruct (negb _); [by injection H as <-|by eapply IH]. }
  unfold buildSchema. case_if; [by intros [= <-]|]. case_if; [by intros [= <-]|].
  destruct (build_columns _ _ _ _ _) as [[cols pk]|e'] eqn:Eb.
  - rewrite bind_Ok. case_if; [by intros [= <-]|done].
  - intros [= <-]. by eapply Hb.
Qed.

(** ** Properties of the stored form *)

(** The stored form of tables.  A schema and every row of it decode to
    themselves.  Decoding bytes that are not such a record, whatever they are,
    gives an error or a value of the schema's shape, never a panic.  And the
    keys of different things differ: rows of different tables or with
    different primary keys have different keys, no row's key is a schema's
    key, and a scan of one table's prefix meets exactly that table's rows. *)
Theorem sql_storage_codec s t1 t2 row v w b :
  schema_ok s → no_nul t1 → no_nul t2 → value_ok v → value_ok w → wf_bytes b →
  decodeSchema (encodeSchema s) = Ok s ∧
  (row_ok s row → decodeRow s (encodeRow row) = Ok row) ∧
  match decodeRow s b with Ok row' => row_ok s row' | Err e => e ≠ SqlPanic end ∧
  match decodeSchema b with Ok s' => schema_ok s' | Err e => e ≠ SqlPanic end ∧
  (rowKey t1 v = rowKey t2 w ↔ t1 = t2 ∧ v = w) ∧
  (schemaKey t1 = schemaKey t2 ↔ t1 = t2) ∧
  schemaKey t1 ≠ rowKey t2 v ∧
  (rowKeyPrefix t1 `prefix_of` rowKey t2 v ↔ t1 = t2).
Proof.
  intros Hs H1 H2 Hv Hw Hb. split; [by apply decode_encode_schema|].
  split; [intros Hr; apply decode_encode_row; [done|apply Hs]|].
  split; [apply (decodeRow_reads s b Hb)|].
  split; [pose proof (decodeSchema_reads b Hb) as Hd; destruct (decodeSchema b); [apply Hd|exact Hd]|].
  split; [split; [by apply rowKey_inj|by intros [-> ->]]|].
  split; [split; [by intros [= ->]|by intros ->]|].
  split; [apply schemaKey_not_row|by apply rowKeyPrefix_prefix].
Qed.

(** The tables ["a"] and ["ab"], whose names are prefixes of one another. *)
Lemma sql_storage_codec_witness :
  decodeRow (mkSchema [97] [mkColumn [98] TypeInteger] 0) (encodeRow [IntValue (- 2 ^ 63)]) = Ok [IntValue (- 2 ^ 63)] ∧
  ¬ rowKeyPrefix [97] `prefix_of` rowKey [97; 98] (TextValue []).
Proof.
  destruct (sql_storage_codec (mkSchema [97] [mkColumn [98] TypeInteger] 0) [97] [97; 98]
    [IntValue (- 2 ^ 63)] (TextValue []) (TextValue []) [1])
    as (_ & H1 & _ & _ & _ & _ & _ & H2).
  - vm_compute. split; [done|]. split; [done|]. split; [split; [discriminate|done]|]. by repeat constructor.
  - by repeat constructor.
  - by repeat constructor.
  - vm_compute. by split.
  - vm_compute. by split.
  - by apply wf_bytes_compute.
  - split; [apply H1; repeat constructor; cbn; lia|]. rewrite H2. discriminate.
Defined.
