(* ===== verification/SqlExec.v ===== *)
(** * Planning and executing SQL ([internal/sql/plan.go], [exec.go],
    [engine.go])

    A statement is planned against the schema of its table and executed as
    reads and writes of one transaction.  [SqlTxn] and [Engine] are the Go
    interfaces of those names: [W] is the deployment behind the engine, which
    the calls thread, and [T] an open transaction.  The standalone engine is
    the instance over [Txn]; of the replicated one, its bookkeeping and what it
    makes of an outcome are modelled. *)

From Stdlib Require Import String.
From S2P Require Import Prelude Bytes GoSort Hash Mvcc FsmCommand Fsm WalRecord Wal Txn SqlSyntax SqlRow.

(** ** The engine interface *)

Class SqlTxn (W T : Type) := {
  tx_Read : W → T → bytes → result sql_error (option bytes);
  tx_ScanPrefix : W → T → bytes → result sql_error (list (bytes * bytes));
  tx_Write : T → bytes → bytes → result sql_error T;
  tx_Delete : T → bytes → result sql_error T;
  tx_Commit : W → T → bytes → W * result sql_error Z;
  tx_Abort : W → T → W * result sql_error ()
}.

Record RequestOutcome := mkRequestOutcome { ro_Committed : bool; ro_CommitSeq : Z }.

Class Engine (W T : Type) := {
  engine_txn :: SqlTxn W T;
  eng_Begin : W → W * result sql_error T;
  eng_LookupOutcome : W → bytes → option RequestOutcome
}.

(** ** Planning *)

Section plans.
  Context {W T : Type} `{!SqlTxn W T}.

Definition getSchema (w : W) (t : T) (table : bytes) : result sql_error Schema :=
  b ← tx_Read w t (schemaKey table);
  match b with
  | None => Err (SqlSentinel ErrUnknownTable)
  | Some b => decodeSchema b
  end.
End plans.

Definition bindLiteral (lit : Literal) (want : ColumnType) : result sql_error Value :=
  match lit, want with
  | LiteralInt n, TypeInteger => Ok (IntValue n)
  | LiteralString s, TypeText => Ok (TextValue s)
  | LiteralBool b, TypeBoolean => Ok (BoolValue b)
  | _, _ => Err (SqlSentinel ErrTypeMismatch)
  end.

Definition bindPredicate (s : Schema) (pred : Predicate) : result sql_error Value :=
  pkCol ← primaryKeyColumn s;
  if negb (bool_decide (p_Column pred = col_Name pkCol)) then Err (SqlSentinel ErrInvalidPredicate)
  else bindLiteral (p_Value pred) (col_Type pkCol).

Record insertPlan := mkInsertPlan { ip_schema : Schema; ip_pk : Value; ip_values : list Value }.

(** The loop over an explicit column list: the targets so far and the names
    seen. *)
Fixpoint insert_targets (s : Schema) (names seen : list bytes) (targets : list Z)
    : result sql_error (list Z * list bytes) :=
  match names with
  | [] => Ok (targets, seen)
  | name :: names =>
      if bool_decide (name ∈ seen) then Err (SqlSentinel ErrDuplicateColumn) else
      match column s name with
      | None => Err (SqlSentinel ErrUnknownColumn)
      | Some (_, idx) => insert_targets s names (name :: seen) (targets ++ [idx])
      end
  end.

Definition targetCols (s : Schema) (columns : option (list bytes)) (nvalues : Z) : result sql_error (list Z) :=
  match columns with
  | None =>
      if negb (nvalues =? zlen (s_Columns s)) then Err (SqlSentinel ErrUnsupportedFeature)
      else Ok (seqZ 0 (zlen (s_Columns s)))
  | Some names =>
      if negb (zlen names =? nvalues) then Err (SqlSentinel ErrUnsupportedFeature) else
      '(targets, seen) ← insert_targets s names [] [];
      if negb (zlen seen =? zlen (s_Columns s)) then Err (SqlSentinel ErrUnsupportedFeature)
      else Ok targets
  end.

(** The loop that binds the values; [None] is a slot not filled yet. *)
Fixpoint fill_values (s : Schema) (targets : list Z) (lits : list Literal) (values : list (option Value))
    {struct lits} : result sql_error (list (option Value)) :=
  match lits with
  | [] => Ok values
  | lit :: lits =>
      match targets with
      | [] => Err SqlPanic
      | colIdx :: targets =>
          c ← column_at s colIdx;
          v ← bindLiteral lit (col_Type c);
          fill_values s targets lits (<[Z.to_nat colIdx := Some v]> values)
      end
  end.

Definition planInsert (s : Schema) (columns : option (list bytes)) (lits : list Literal)
    : result sql_error insertPlan :=
  targets ← targetCols s columns (zlen lits);
  values ← fill_values s targets lits (replicate (length (s_Columns s)) None);
  match mapM id values with
  | None => Err (SqlSentinel ErrUnsupportedFeature)
  | Some values =>
      match values !! Z.to_nat (s_PrimaryKey s) with
      | None => Err SqlPanic
      | Some pk => Ok (mkInsertPlan s pk values)
      end
  end.

Record selectPlan := mkSelectPlan {
  sp_schema : Schema; sp_columnIdx : list Z; sp_pkPredicate : option Value }.

Fixpoint select_columns (s : Schema) (names : list bytes) : result sql_error (list Z) :=
  match names with
  | [] => Ok []
  | name :: names =>
      match column s name with
      | None => Err (SqlSentinel ErrUnknownColumn)
      | Some (_, ci) => idx ← select_columns s names; Ok (ci :: idx)
      end
  end.

Definition planSelect (s : Schema) (columns : option (list bytes)) (where_ : option Predicate)
    : result sql_error selectPlan :=
  idx ← match columns with
        | None => Ok (seqZ 0 (zlen (s_Columns s)))
        | Some names => select_columns s names
        end;
  match where_ with
  | None => Ok (mkSelectPlan s idx None)
  | Some pred => v ← bindPredicate s pred; Ok (mkSelectPlan s idx (Some v))
  end.

Record updatePlan := mkUpdatePlan { up_schema : Schema; up_pk : Value; up_assignments : list (Z * Value) }.

Fixpoint update_assignments (s : Schema) (asg : list Assignment) (seen : list Z) : result sql_error (list (Z * Value)) :=
  match asg with
  | [] => Ok []
  | a :: asg =>
      match column s (a_Column a) with
      | None => Err (SqlSentinel ErrUnknownColumn)
      | Some (_, idx) =>
          if bool_decide (idx ∈ seen) then Err (SqlSentinel ErrDuplicateColumn) else
          if idx =? s_PrimaryKey s then Err (SqlSentinel ErrUnsupportedFeature) else
          c ← column_at s idx;
          v ← bindLiteral (a_Value a) (col_Type c);
          rest ← update_assignments s asg (idx :: seen);
          Ok ((idx, v) :: rest)
      end
  end.

Definition planUpdate (s : Schema) (asg : list Assignment) (where_ : Predicate) : result sql_error updatePlan :=
  pk ← bindPredicate s where_;
  assignments ← update_assignments s asg [];
  Ok (mkUpdatePlan s pk assignments).

Definition planDelete (s : Schema) (where_ : Predicate) : result sql_error Value := bindPredicate s where_.

(** ** Execution *)

Inductive ResultKind := ResultOK | ResultRows.
Record Result := mkResult {
  r_Kind : ResultKind;
  r_RowsAffected : Z;
  r_Columns : list bytes;
  r_Rows : list (list Value);
  r_CommitSeq : Z
}.
Definition ok_result (affected : Z) : Result := mkResult ResultOK affected [] [] 0.

Section execution.
  Context {W T : Type} `{!Engine W T}.

Definition execCreateTable (w : W) (t : T) (table : bytes) (columns : list ColumnDef) : result sql_error (T * Result) :=
  s ← buildSchema table columns;
  let key := schemaKey (s_Table s) in
  found ← tx_Read w t key;
  match found with
  | Some _ => Err (SqlSentinel ErrDuplicateTable)
  | None => t ← tx_Write t key (encodeSchema s); Ok (t, ok_result 0)
  end.

Definition execInsert (w : W) (t : T) (table : bytes) (columns : option (list bytes)) (lits : list Literal)
    : result sql_error (T * Result) :=
  s ← getSchema w t table;
  plan ← planInsert s columns lits;
  let key := rowKey (s_Table s) (ip_pk plan) in
  found ← tx_Read w t key;
  match found with
  | Some _ => Err (SqlSentinel ErrDuplicatePrimaryKey)
  | None => t ← tx_Write t key (encodeRow (ip_values plan)); Ok (t, ok_result 1)
  end.

(** [values[ci]] for each projected index. *)
Fixpoint projectRow (values : list Value) (idx : list Z) : result sql_error (list Value) :=
  match idx with
  | [] => Ok []
  | ci :: idx =>
      match values !! Z.to_nat ci with
      | None => Err SqlPanic
      | Some v => vs ← projectRow values idx; Ok (v :: vs)
      end
  end.

Fixpoint column_names (s : Schema) (idx : list Z) : result sql_error (list bytes) :=
  match idx with
  | [] => Ok []
  | ci :: idx => c ← column_at s ci; names ← column_names s idx; Ok (col_Name c :: names)
  end.

Fixpoint scan_rows (s : Schema) (idx : list Z) (kvs : list (bytes * bytes)) : result sql_error (list (list Value)) :=
  match kvs with
  | [] => Ok []
  | kv :: kvs =>
      values ← decodeRow s kv.2;
      row ← projectRow values idx;
      rows ← scan_rows s idx kvs;
      Ok (row :: rows)
  end.

Definition execSelect (w : W) (t : T) (table : bytes) (columns : option (list bytes)) (where_ : option Predicate)
    : result sql_error (T * Result) :=
  s ← getSchema w t table;
  plan ← planSelect s columns where_;
  names ← column_names s (sp_columnIdx plan);
  rows ← match sp_pkPredicate plan with
         | Some pk =>
             b ← tx_Read w t (rowKey (s_Table s) pk);
             match b with
             | None => Ok []
             | Some b => values ← decodeRow s b; row ← projectRow values (sp_columnIdx plan); Ok [row]
             end
         | None =>
             kvs ← tx_ScanPrefix w t (rowKeyPrefix (s_Table s));
             scan_rows s (sp_columnIdx plan) kvs
         end;
  Ok (t, mkResult ResultRows 0 names rows 0).

Definition apply_assignments (values : list Value) (asg : list (Z * Value)) : list Value :=
  foldl (λ vs a, <[Z.to_nat a.1 := a.2]> vs) values asg.

Definition execUpdate (w : W) (t : T) (table : bytes) (asg : list Assignment) (where_ : Predicate)
    : result sql_error (T * Result) :=
  s ← getSchema w t table;
  plan ← planUpdate s asg where_;
  let key := rowKey (s_Table s) (up_pk plan) in
  b ← tx_Read w t key;
  match b with
  | None => Err (SqlSentinel ErrRowNotFound)
  | Some b =>
      values ← decodeRow s b;
      t ← tx_Write t key (encodeRow (apply_assignments values (up_assignments plan)));
      Ok (t, ok_result 1)
  end.

Definition execDelete (w : W) (t : T) (table : bytes) (where_ : Predicate) : result sql_error (T * Result) :=
  s ← getSchema w t table;
  pk ← planDelete s where_;
  let key := rowKey (s_Table s) pk in
  b ← tx_Read w t key;
  match b with
  | None => Err (SqlSentinel ErrRowNotFound)
  | Some _ => t ← tx_Delete t key; Ok (t, ok_result 1)
  end.

Definition execOne (w : W) (t : T) (stmt : Statement) : result sql_error (T * Result) :=
  match stmt with
  | CreateTableStmt table cols => execCreateTable w t table cols
  | InsertStmt table cols vals => execInsert w t table cols vals
  | SelectStmt table cols where_ => execSelect w t table cols where_
  | UpdateStmt table asg where_ => execUpdate w t table asg where_
  | DeleteStmt table where_ => execDelete w t table where_
  | BeginStmt | CommitStmt | RollbackStmt => Err (SqlSentinel ErrUnsupportedStatement)
  end.

(** ** Sessions *)

(** [s.txn]: the transaction an explicit BEGIN opened. *)
Abbreviation Session := (option T).
Abbreviation outcome_of := (W * Session * result sql_error Result)%type.

Definition execBegin (w : W) (s : Session) : outcome_of :=
  match s with
  | Some _ => (w, s, Err (SqlSentinel ErrTransactionAlreadyActive))
  | None =>
      match eng_Begin w with
      | (w, Err e) => (w, s, Err e)
      | (w, Ok t) => (w, Some t, Ok (ok_result 0))
      end
  end.

Definition execCommit (w : W) (s : Session) (requestID : bytes) : outcome_of :=
  match s with
  | None => (w, s, Err (SqlSentinel ErrNoActiveTransaction))
  | Some t =>
      match tx_Commit w t requestID with
      | (w, Err e) => (w, None, Err e)
      | (w, Ok seq) => (w, None, Ok (mkResult ResultOK 0 [] [] seq))
      end
  end.

Definition execRollback (w : W) (s : Session) : outcome_of :=
  match s with
  | None => (w, s, Err (SqlSentinel ErrNoActiveTransaction))
  | Some t =>
      match tx_Abort w t with
      | (w, Err e) => (w, None, Err e)
      | (w, Ok _) => (w, None, Ok (ok_result 0))
      end
  end.

Definition isMutatingStatement (stmt : Statement) : bool :=
  match stmt with
  | CreateTableStmt _ _ | InsertStmt _ _ _ | UpdateStmt _ _ _ | DeleteStmt _ _ => true
  | _ => false
  end.

Definition mutationRetryResult (stmt : Statement) (outcome : RequestOutcome) : result sql_error Result :=
  if negb (ro_Committed outcome) then Err (SqlSentinel ErrSqlConflict) else
  match stmt with
  | CreateTableStmt _ _ => Ok (mkResult ResultOK 0 [] [] (ro_CommitSeq outcome))
  | _ => Ok (mkResult ResultOK 1 [] [] (ro_CommitSeq outcome))
  end.

Definition executeDML (w : W) (s : Session) (stmt : Statement) (requestID : bytes) : outcome_of :=
  let explicit := match s with Some _ => true | None => false end in
  match match s with Some t => (w, Ok t) | None => eng_Begin w end with
  | (w, Err e) => (w, s, Err e)
  | (w, Ok t) =>
      match (if negb explicit && negb (bool_decide (requestID = [])) && isMutatingStatement stmt
             then eng_LookupOutcome w requestID else None) with
      | Some outcome => ((tx_Abort w t).1, s, mutationRetryResult stmt outcome)
      | None =>
          match execOne w t stmt with
          | Err e => ((tx_Abort w t).1, None, Err e)
          | Ok (t, result) =>
              if explicit then (w, Some t, Ok result) else
              match tx_Commit w t requestID with
              | (w, Err e) => (w, s, Err e)
              | (w, Ok seq) =>
                  (w, s, Ok (mkResult (r_Kind result) (r_RowsAffected result) (r_Columns result) (r_Rows result) seq))
              end
          end
      end
  end.

Definition dispatch (w : W) (s : Session) (stmt : Statement) (requestID : bytes) : outcome_of :=
  match stmt with
  | BeginStmt => execBegin w s
  | CommitStmt => execCommit w s requestID
  | RollbackStmt => execRollback w s
  | _ => executeDML w s stmt requestID
  end.

(** [admitted] is the answer of the engine's statement gate. *)
Definition ExecuteStatement (admitted : bool) (w : W) (s : Session) (stmt : Statement) (requestID : bytes) : outcome_of :=
  if negb admitted then (w, s, Err SqlRejected) else dispatch w s stmt requestID.

Definition Execute (admitted : bool) (w : W) (s : Session) (sqlText requestID : bytes) : outcome_of :=
  if negb admitted then (w, s, Err SqlRejected) else
  match Parse sqlText with
  | Err e => (w, s, Err (SqlParse e))
  | Ok stmt => dispatch w s stmt requestID
  end.
End execution.

(** ** Scans *)

Fixpoint shadow (prefix : bytes) (present : gmap bytes bytes) (local : list Mutation) : gmap bytes bytes :=
  match local with
  | [] => present
  | m :: local =>
      let present := if negb (has_prefix (Key m) prefix) then present
                     else if MTombstone m then delete (Key m) present
                     else <[Key m := MValue m]> present in
      shadow prefix present local
  end.

Definition mergeLocalWrites (prefix : bytes) (committed : list (bytes * bytes)) (local : list Mutation)
    : list (bytes * bytes) :=
  let present := foldl (λ m kv, <[kv.1 := kv.2]> m) (∅ : gmap bytes bytes) committed in
  let present := shadow prefix present local in
  let keys := sort_strings (map_to_list present).*1 in
  (λ k, (k, default [] (present !! k))) <$> keys.

(** ** The standalone engine *)

Definition lift_txn {A} (r : result txn_error A) : result sql_error A := wrap SqlTxnErr r.

Definition standalone_ScanPrefix (m : Manager) (t : Txn) (prefix : bytes) : result sql_error (list (bytes * bytes)) :=
  match ScanVisible (f_store (m_fsm m)) prefix (t_startSeq t) with
  | Err e => Err (SqlTxnErr (ErrTxnStore e))
  | Ok committed => Ok (mergeLocalWrites prefix committed (LocalWrites t))
  end.

Definition standalone_Commit (m : Manager) (t : Txn) (requestID : bytes) : Manager * result sql_error Z :=
  let '(m, _, r) := Commit m t requestID in
  (m, match r with
      | Ok seq => Ok seq
      | Err (ErrConflict _ _ _) => Err (SqlSentinel ErrSqlConflict)
      | Err e => Err (SqlTxnErr e)
      end).

Definition standalone_LookupOutcome (m : Manager) (requestID : bytes) : option RequestOutcome :=
  match GetRequestOutcome m requestID with
  | Err _ => None
  | Ok outcome => Some (mkRequestOutcome (bool_decide (o_Status outcome = StatusCommitted)) (o_CommitSeq outcome))
  end.

#[export] Instance standalone_txn : SqlTxn Manager Txn := {|
  tx_Read m t key := lift_txn (Read m t key);
  tx_ScanPrefix := standalone_ScanPrefix;
  tx_Write t key value := lift_txn (Write t key value);
  tx_Delete t key := lift_txn (Delete t key);
  tx_Commit := standalone_Commit;
  tx_Abort m t := (m, lift_txn (_ ← AbortTxn t; Ok tt))
|}.

#[export] Instance standalone_engine : Engine Manager Txn := {|
  eng_Begin m := let '(m, t) := Begin m in (m, Ok t);
  eng_LookupOutcome := standalone_LookupOutcome
|}.
