(* ===== verification/SqlWrites.v ===== *)
(** * The write set of an open transaction

    Both engines keep a map of the transaction's own writes and the order in
    which their keys were first written; the command they commit lists the
    writes in that order, and a scan merges them into the committed data. *)

From S2P Require Import Prelude Bytes GoSort Hash Mvcc MvccSpec FsmCommand Fsm FsmSnapshot Txn SqlSyntax SqlRow SqlExec.

(** ** Mutations of distinct keys *)

Definition mutation_value (m : Mutation) : option bytes := if MTombstone m then None else Some (MValue m).

Lemma apply_absent ms db k : k ∉ Key <$> ms → foldl apply_mutation db ms !! k = db !! k.
Proof.
  revert db. induction ms as [|m ms IH]; intros db Hk; [done|]. rewrite fmap_cons, not_elem_of_cons in Hk.
  destruct Hk as [Hne Hk]. cbn [foldl]. rewrite IH by done. unfold apply_mutation.
  destruct (MTombstone m); [by rewrite lookup_delete_ne|by rewrite lookup_insert_ne].
Qed.

Lemma apply_distinct ms db m :
  NoDup (Key <$> ms) → m ∈ ms → foldl apply_mutation db ms !! Key m = mutation_value m.
Proof.
  revert db. induction ms as [|m' ms IH]; intros db Hnd Hm; [by apply not_elem_of_nil in Hm|].
  rewrite fmap_cons in Hnd. apply NoDup_cons in Hnd as [Hn Hnd]. cbn [foldl].
  apply elem_of_cons in Hm as [->|Hm]; [|by apply IH]. rewrite apply_absent by done.
  unfold apply_mutation, mutation_value. destruct (MTombstone m'); [by rewrite lookup_delete_eq|by rewrite lookup_insert_eq].
Qed.

Lemma shadow_filter prefix present local :
  shadow prefix present local = foldl apply_mutation present (filter (λ m, has_prefix (Key m) prefix = true) local).
Proof.
  revert present. induction local as [|m local IH]; intros present; [done|]. cbn [shadow]. rewrite IH, filter_cons.
  destruct (has_prefix (Key m) prefix); [rewrite decide_True by done|by rewrite decide_False]. done.
Qed.

(** ** Writes in the order of their keys *)

Definition local_writes (ws : gmap bytes Mutation) (order : list bytes) : list Mutation :=
  (λ k, default (mkMutation [] [] false) (ws !! k)) <$> order.

Record writes_ok (ws : gmap bytes Mutation) (order : list bytes) : Prop := {
  wo_dom : dom ws = list_to_set order;
  wo_nodup : NoDup order;
  wo_keys : ∀ k m, ws !! k = Some m → Key m = k
}.

Lemma writes_ok_empty : writes_ok ∅ [].
Proof. constructor; [by rewrite dom_empty_L|constructor|done]. Qed.

Lemma writes_ok_record ws order m :
  writes_ok ws order →
  writes_ok (<[Key m := m]> ws) (if decide (is_Some (ws !! Key m)) then order else order ++ [Key m]).
Proof.
  intros [Hd Hn Hk]. assert (Hin : is_Some (ws !! Key m) ↔ Key m ∈ order).
  { rewrite <- elem_of_dom, Hd. apply elem_of_list_to_set. }
  constructor.
  - rewrite dom_insert_L, Hd. case_decide; set_solver.
  - case_decide; [done|]. apply NoDup_app. split; [done|]. split; [|apply NoDup_singleton].
    intros x Hx ->%list_elem_of_singleton. tauto.
  - intros k m'. rewrite lookup_insert_Some. intros [[<- <-]|[_ H]]; [done|by apply Hk].
Qed.

Section local_writes.
  Context (ws : gmap bytes Mutation) (order : list bytes) (Hok : writes_ok ws order).

Lemma local_writes_keys : Key <$> local_writes ws order = order.
Proof using Hok.
  unfold local_writes. rewrite <- list_fmap_compose. rewrite <- (list_fmap_id order) at 2. apply list_fmap_ext.
  intros i k Hi%list_elem_of_lookup_2. cbn. destruct (ws !! k) as [m|] eqn:E; cbn; [by apply (wo_keys _ _ Hok)|].
  apply not_elem_of_dom in E. rewrite (wo_dom _ _ Hok), elem_of_list_to_set in E. done.
Qed.

Lemma local_writes_nodup : NoDup (Key <$> local_writes ws order).
Proof using Hok. rewrite local_writes_keys. apply Hok. Qed.

Lemma elem_of_local_writes m : m ∈ local_writes ws order ↔ ws !! Key m = Some m.
Proof using Hok.
  assert (Hin : ∀ k, k ∈ order ↔ is_Some (ws !! k)).
  { intros k. rewrite <- elem_of_dom, (wo_dom _ _ Hok). by rewrite elem_of_list_to_set. }
  unfold local_writes. rewrite list_elem_of_fmap. split.
  - intros (k & -> & Hk). apply Hin in Hk as [m' Hm']. rewrite Hm'. cbn. by rewrite (wo_keys _ _ Hok _ _ Hm').
  - intros Hm. exists (Key m). rewrite Hm. split; [done|]. apply Hin. by eexists.
Qed.

Lemma apply_local_writes db k :
  foldl apply_mutation db (local_writes ws order) !! k =
    match ws !! k with Some m => mutation_value m | None => db !! k end.
Proof using Hok.
  destruct (ws !! k) as [m|] eqn:Hk.
  - pose proof (wo_keys _ _ Hok _ _ Hk) as <-. apply apply_distinct; [apply local_writes_nodup|].
    by apply elem_of_local_writes.
  - apply apply_absent. intros (m & -> & Hm)%list_elem_of_fmap. apply elem_of_local_writes in Hm. congruence.
Qed.

(** ** Scans *)

Lemma merge_scan prefix committed base :
  StronglySorted blt committed.*1 → (∀ k v, (k, v) ∈ committed ↔ base !! k = Some v ∧ prefix `prefix_of` k) →
  let rows := mergeLocalWrites prefix committed (local_writes ws order) in
  StronglySorted blt rows.*1 ∧
  ∀ k v, (k, v) ∈ rows ↔
    (match ws !! k with Some m => mutation_value m | None => (base : gmap bytes bytes) !! k end) = Some v ∧ prefix `prefix_of` k.
Proof using Hok.
  intros Hsort Hel. cbv zeta. unfold mergeLocalWrites. cbv zeta. fold (insert_all committed).
  assert (Hnd : NoDup committed.*1) by (by apply strict_sorted_NoDup).
  rewrite insert_all_list_to_map, shadow_filter by done.
  set (own := filter _ (local_writes ws order)). set (present := foldl apply_mutation (list_to_map committed) own).
  pose proof local_writes_nodup as Hkn. pose proof elem_of_local_writes as Hkel.
  assert (Hown : NoDup (Key <$> own)).
  { apply NoDup_fmap_2_strong; [|apply NoDup_filter; by eapply NoDup_fmap_1].
    intros m1 m2 H1 H2 He. apply list_elem_of_filter in H1 as [_ H1%Hkel], H2 as [_ H2%Hkel]. congruence. }
  assert (Hownel : ∀ m, m ∈ own ↔ ws !! Key m = Some m ∧ prefix `prefix_of` Key m).
  { intros m. unfold own. rewrite list_elem_of_filter, Hkel, has_prefix_spec. tauto. }
  assert (Hbase : ∀ k v, (list_to_map committed : gmap bytes bytes) !! k = Some v ↔ base !! k = Some v ∧ prefix `prefix_of` k).
  { intros k v. rewrite <- Hel. symmetry. by apply elem_of_list_to_map. }
  assert (Hpres : ∀ k v, present !! k = Some v ↔
    (match ws !! k with Some m => mutation_value m | None => base !! k end) = Some v ∧ prefix `prefix_of` k).
  { intros k v. destruct (decide (k ∈ Key <$> own)) as [(m & -> & Hm)%list_elem_of_fmap|Hk].
    - unfold present. rewrite apply_distinct by done. apply Hownel in Hm as [-> Hp]. tauto.
    - unfold present. rewrite apply_absent, Hbase by done. destruct (ws !! k) as [m|] eqn:Hm; [|done].
      assert (Hkey : Key m = k) by (by apply (wo_keys _ _ Hok)).
      assert (Hnp : ¬ prefix `prefix_of` k).
      { intros Hp. apply Hk. apply list_elem_of_fmap. exists m. rewrite Hkey. split; [done|]. apply Hownel. by rewrite Hkey. }
      tauto. }
  assert (Hkeys : NoDup (map_to_list present).*1) by apply NoDup_fst_map_to_list.
  split.
  - rewrite <- list_fmap_compose. change (fst ∘ _) with (@id bytes). rewrite list_fmap_id. apply sorted_NoDup_strict; [apply sort_strings_sorted|].
    by rewrite sort_strings_perm.
  - intros k v. rewrite <- Hpres, list_elem_of_fmap. split.
    + intros (k' & [= -> ->] & Hk'). rewrite sort_strings_perm in Hk'. apply list_elem_of_fmap in Hk' as ([k1 v1] & -> & H1).
      apply elem_of_map_to_list in H1. cbn. by rewrite H1.
    + intros Hk. exists k. rewrite Hk. split; [done|]. rewrite sort_strings_perm. apply list_elem_of_fmap.
      exists (k, v). split; [done|]. by apply elem_of_map_to_list.
Qed.

End local_writes.
