(* ===== verification/SqlExecSpec.v ===== *)
(** * SQL statements implement a relational database

    The specification is a database of tables, each a schema and a finite map
    from primary keys to rows; [abs_exec] says what a statement does to it.
    [represents] relates such a database to the key-value pairs a transaction
    sees.  The refinement theorem is proved against the laws of an engine; the
    standalone engine satisfies them. *)

From Stdlib Require Import String.
From S2P Require Import Prelude Bytes GoSort Hash Mvcc MvccSpec FsmCommand Fsm FsmSpec WalRecord Wal WalSpec Txn TxnSpec SqlSyntax SqlSyntaxSpec SqlRow SqlExec.

(** ** The relational database *)

Definition value_code (v : Value) : Z + (bytes + bool) :=
  match v with IntValue n => inl n | TextValue s => inr (inl s) | BoolValue b => inr (inr b) end.
Definition value_decode (x : Z + (bytes + bool)) : Value :=
  match x with inl n => IntValue n | inr (inl s) => TextValue s | inr (inr b) => BoolValue b end.
#[export] Instance Value_countable : Countable Value.
Proof. apply (inj_countable' value_code value_decode). by intros []. Defined.

Record table := mkTable { tb_schema : Schema; tb_rows : gmap Value (list Value) }.
Abbreviation tables := (gmap bytes table).

(** The rows in the order of a scan: by the encoding of the primary key. *)
Definition pk_le (a b : Value * list Value) : Prop := ble (encodePKValue a.1) (encodePKValue b.1).
#[export] Instance pk_le_dec : RelDecision pk_le.
Proof. intros a b. unfold pk_le. apply _. Defined.
Definition scan_table (tb : table) : list (Value * list Value) := merge_sort pk_le (map_to_list (tb_rows tb)).

Definition find_table (db : tables) (t : bytes) : result sql_error table :=
  match db !! t with Some tb => Ok tb | None => Err (SqlSentinel ErrUnknownTable) end.

(** The values a select lists of a row. *)
Definition project (row : list Value) (idx : list Z) : list Value := omap (λ i, row !! Z.to_nat i) idx.
Definition project_names (s : Schema) (idx : list Z) : list bytes := omap (λ i, col_Name <$> s_Columns s !! Z.to_nat i) idx.

Definition set_rows (db : tables) (t : bytes) (tb : table) (rows : gmap Value (list Value)) : tables :=
  <[t := mkTable (tb_schema tb) rows]> db.

Definition abs_exec (db : tables) (stmt : Statement) : result sql_error (tables * Result) :=
  match stmt with
  | CreateTableStmt t cols =>
      s ← buildSchema t cols;
      match db !! t with
      | Some _ => Err (SqlSentinel ErrDuplicateTable)
      | None => Ok (<[t := mkTable s ∅]> db, ok_result 0)
      end
  | InsertStmt t cols lits =>
      tb ← find_table db t;
      plan ← planInsert (tb_schema tb) cols lits;
      match tb_rows tb !! ip_pk plan with
      | Some _ => Err (SqlSentinel ErrDuplicatePrimaryKey)
      | None => Ok (set_rows db t tb (<[ip_pk plan := ip_values plan]> (tb_rows tb)), ok_result 1)
      end
  | SelectStmt t cols w =>
      tb ← find_table db t;
      plan ← planSelect (tb_schema tb) cols w;
      let rows := match sp_pkPredicate plan with
                  | Some pk => match tb_rows tb !! pk with Some row => [row] | None => [] end
                  | None => (scan_table tb).*2
                  end in
      Ok (db, mkResult ResultRows 0 (project_names (tb_schema tb) (sp_columnIdx plan))
                ((λ row, project row (sp_columnIdx plan)) <$> rows) 0)
  | UpdateStmt t asg w =>
      tb ← find_table db t;
      plan ← planUpdate (tb_schema tb) asg w;
      match tb_rows tb !! up_pk plan with
      | None => Err (SqlSentinel ErrRowNotFound)
      | Some row =>
          Ok (set_rows db t tb (<[up_pk plan := apply_assignments row (up_assignments plan)]> (tb_rows tb)), ok_result 1)
      end
  | DeleteStmt t w =>
      tb ← find_table db t;
      pk ← planDelete (tb_schema tb) w;
      match tb_rows tb !! pk with
      | None => Err (SqlSentinel ErrRowNotFound)
      | Some _ => Ok (set_rows db t tb (delete pk (tb_rows tb)), ok_result 1)
      end
  | BeginStmt | CommitStmt | RollbackStmt => Err (SqlSentinel ErrUnsupportedStatement)
  end.

(** ** Representation *)

(** A table as the statements leave it: its schema is valid, and every row has
    one value of the right type per column and is stored under its own primary
    key. *)
Record table_ok (t : bytes) (tb : table) : Prop := {
  to_name : s_Table (tb_schema tb) = t;
  to_nul : no_nul t;
  to_wf : wf_bytes t;
  to_schema : schema_ok (tb_schema tb);
  to_columns : NoDup (col_Name <$> s_Columns (tb_schema tb));
  to_rows : ∀ v row, tb_rows tb !! v = Some row →
    row_ok (tb_schema tb) row ∧ row !! Z.to_nat (s_PrimaryKey (tb_schema tb)) = Some v
}.
Definition tables_ok (db : tables) : Prop := map_Forall table_ok db.

(** The pairs the database is stored as. *)
Definition stored (db : tables) (k b : bytes) : Prop :=
  ∃ t tb, db !! t = Some tb ∧
    ((k = schemaKey t ∧ b = encodeSchema (tb_schema tb)) ∨
     ∃ v row, tb_rows tb !! v = Some row ∧ k = rowKey t v ∧ b = encodeRow row).

Definition sql_key (k : bytes) : Prop := head k = Some schemaKeyTag ∨ head k = Some rowKeyTag.

(** Keys of other users of the store are not looked at. *)
Definition represents (kv : gmap bytes bytes) (db : tables) : Prop :=
  ∀ k b, sql_key k → kv !! k = Some b ↔ stored db k b.

Lemma sql_key_schema t : sql_key (schemaKey t).
Proof. by left. Qed.
Lemma sql_key_row t v : sql_key (rowKey t v).
Proof. rewrite rowKey_eq. by right. Qed.

Lemma row_value_ok s row i v : row_ok s row → row !! i = Some v → value_ok v.
Proof. intros H Hi. destruct (Forall2_lookup_r _ _ _ _ _ H Hi) as (c & _ & _ & ?). done. Qed.

Lemma pk_ok t tb v row : table_ok t tb → tb_rows tb !! v = Some row → value_ok v.
Proof. intros H Hr. destruct (to_rows _ _ H _ _ Hr) as [Hok Hv]. by eapply row_value_ok. Qed.

Section represents.
  Context (kv : gmap bytes bytes) (db : tables).
  Hypothesis Hrep : represents kv db.
  Hypothesis Hok : tables_ok db.

Lemma read_schema t : kv !! schemaKey t = encodeSchema ∘ tb_schema <$> db !! t.
Proof.
  apply option_eq. intros b. rewrite (Hrep _ _ (sql_key_schema t)). split.
  - intros (t' & tb & Ht & [[[= <-] ->]|(v & row & _ & Hk & _)]); [by rewrite Ht|].
    by apply schemaKey_not_row in Hk.
  - destruct (db !! t) as [tb|] eqn:Ht; [|done]. intros [= <-]. exists t, tb. split; [done|]. by left.
Qed.

Lemma read_row t tb v :
  db !! t = Some tb → value_ok v → kv !! rowKey t v = encodeRow <$> tb_rows tb !! v.
Proof.
  intros Ht Hv. pose proof (Hok _ _ Ht) as Hto. apply option_eq. intros b. rewrite (Hrep _ _ (sql_key_row t v)). split.
  - intros (t' & tb' & Ht' & [[Hk _]|(v' & row & Hrow & Hk & ->)]); [symmetry in Hk; by apply schemaKey_not_row in Hk|].
    pose proof (Hok _ _ Ht') as Hto'. apply rowKey_inj in Hk as [<- <-];
      [|apply Hto|apply Hto'|done|by eapply pk_ok]. rewrite Ht in Ht'. injection Ht' as <-. by rewrite Hrow.
  - destruct (tb_rows tb !! v) as [row|] eqn:Hrow; [|done]. intros [= <-]. exists t, tb. split; [done|]. right. by exists v, row.
Qed.

Lemma scan_rows_of t tb k b :
  db !! t = Some tb →
  kv !! k = Some b ∧ rowKeyPrefix t `prefix_of` k ↔ ∃ v row, tb_rows tb !! v = Some row ∧ k = rowKey t v ∧ b = encodeRow row.
Proof.
  intros Ht. pose proof (Hok _ _ Ht) as Hto. split.
  - intros [Hk Hp]. assert (Hs : sql_key k) by (right; by destruct Hp as [r ->]).
    apply (Hrep _ _ Hs) in Hk as (t' & tb' & Ht' & [[-> _]|(v & row & Hrow & -> & ->)]).
    + destruct Hp as [r Hr]. done.
    + pose proof (Hok _ _ Ht') as Hto'. apply rowKeyPrefix_prefix in Hp as <-; [|apply Hto|apply Hto'].
      rewrite Ht in Ht'. injection Ht' as <-. by exists v, row.
  - intros (v & row & Hrow & -> & ->). split; [|by eexists].
    apply (Hrep _ _ (sql_key_row t v)). exists t, tb. split; [done|]. right. by exists v, row.
Qed.
End represents.

(** *** Writes *)

Lemma represents_create kv db t s :
  represents kv db → db !! t = None → represents (<[schemaKey t := encodeSchema s]> kv) (<[t := mkTable s ∅]> db).
Proof.
  intros Hrep Hn k b Hk. destruct (decide (k = schemaKey t)) as [->|Hne].
  - rewrite lookup_insert_eq. split.
    + intros [= <-]. exists t, (mkTable s ∅). rewrite lookup_insert_eq. split; [done|]. by left.
    + intros (t' & tb & Ht & [[[= <-] ->]|(v & row & _ & Hr & _)]).
      * rewrite lookup_insert_eq in Ht. injection Ht as <-. done.
      * by apply schemaKey_not_row in Hr.
  - rewrite lookup_insert_ne, (Hrep _ _ Hk) by done. split.
    + intros (t' & tb & Ht & Hs). exists t', tb. split; [|done]. rewrite lookup_insert_ne; [done|]. congruence.
    + intros (t' & tb & Ht & Hs). destruct (decide (t' = t)) as [->|Ht'].
      * rewrite lookup_insert_eq in Ht. injection Ht as <-. destruct Hs as [[? _]|(v & row & Hr & _)]; [done|].
        cbn in Hr. by rewrite lookup_empty in Hr.
      * rewrite lookup_insert_ne in Ht by done. by exists t', tb.
Qed.

(** Changing the row stored under one primary key. *)
Lemma represents_row kv db t tb v new :
  represents kv db → tables_ok db → db !! t = Some tb → value_ok v →
  represents (match new with Some row => <[rowKey t v := encodeRow row]> kv | None => delete (rowKey t v) kv end)
    (set_rows db t tb (match new with Some row => <[v := row]> (tb_rows tb) | None => delete v (tb_rows tb) end)).
Proof.
  intros Hrep Hok Ht Hv k b Hk. pose proof (Hok _ _ Ht) as Hto.
  assert (Hkv : (match new with Some row => <[rowKey t v := encodeRow row]> kv | None => delete (rowKey t v) kv end) !! k =
    if decide (k = rowKey t v) then encodeRow <$> new else kv !! k).
  { case_decide as Hd; [rewrite Hd|]; destruct new;
      by rewrite ?lookup_insert_eq, ?lookup_delete_eq, ?lookup_insert_ne, ?lookup_delete_ne. }
  assert (Hrows : ∀ v', (match new with Some row => <[v := row]> (tb_rows tb) | None => delete v (tb_rows tb) end) !! v' =
    if decide (v' = v) then new else tb_rows tb !! v').
  { intros v'. destruct (decide (v' = v)) as [Hd|Hd]; [rewrite Hd|]; destruct new;
      by rewrite ?lookup_insert_eq, ?lookup_delete_eq, ?lookup_insert_ne, ?lookup_delete_ne. }
  rewrite Hkv. unfold stored, set_rows. clear Hkv. destruct (decide (k = rowKey t v)) as [Hd|Hd].
  - subst k. split.
    + destruct new as [row|]; [|done]. intros [= <-]. eexists t, _. rewrite lookup_insert_eq. split; [done|]. right.
      exists v, row. cbn [tb_rows]. rewrite Hrows, decide_True by done. done.
    + intros (t' & tb' & Ht' & [[Hr _]|(v' & row & Hrow & Hr & ->)]); [symmetry in Hr; by apply schemaKey_not_row in Hr|].
      destruct (decide (t' = t)) as [->|Hne].
      * rewrite lookup_insert_eq in Ht'. injection Ht' as <-. cbn [tb_rows] in Hrow. rewrite Hrows in Hrow.
        destruct (decide (v' = v)) as [->|Hv']; [by rewrite Hrow|].
        apply rowKey_inj in Hr as [_ <-]; [done|apply Hto|apply Hto|done|by eapply pk_ok].
      * rewrite lookup_insert_ne in Ht' by done. pose proof (Hok _ _ Ht') as Hto'.
        apply rowKey_inj in Hr as [<- _]; [done|apply Hto|apply Hto'|done|by eapply pk_ok].
  - rewrite (Hrep _ _ Hk). split.
    + intros (t' & tb' & Ht' & Hs). destruct (decide (t' = t)) as [->|Hne].
      * rewrite Ht in Ht'. injection Ht' as <-. eexists t, _. rewrite lookup_insert_eq. split; [done|].
        destruct Hs as [Hs|(v' & row & Hrow & -> & ->)]; [by left|]. right. exists v', row. cbn [tb_rows].
        rewrite Hrows, decide_False; [done|]. congruence.
      * exists t', tb'. by rewrite lookup_insert_ne.
    + intros (t' & tb' & Ht' & Hs). destruct (decide (t' = t)) as [->|Hne].
      * rewrite lookup_insert_eq in Ht'. injection Ht' as <-. exists t, tb. split; [done|]. cbn [tb_rows tb_schema] in Hs.
        destruct Hs as [Hs|(v' & row & Hrow & -> & ->)]; [by left|]. rewrite Hrows in Hrow.
        destruct (decide (v' = v)); [congruence|]. right. by exists v', row.
      * rewrite lookup_insert_ne in Ht' by done. by exists t', tb'.
Qed.

(** ** Plans *)

(** A planning function does not panic, and its result satisfies [Q]. *)
Abbreviation plans := reads.

Lemma bindLiteral_reads lit ty :
  literal_ok lit → plans (bindLiteral lit ty) (λ v, value_type v = ty ∧ value_ok v).
Proof.
  intros Hl. destruct lit, ty; cbn in *; try discriminate; [done| |done].
  split; [done|]. split; [apply Hl|]. unfold MaxStringLiteralBytes in Hl. lia.
Qed.

Lemma column_at_reads s i : 0 ≤ i < zlen (s_Columns s) → ∃ c, column_at s i = Ok c ∧ s_Columns s !! Z.to_nat i = Some c.
Proof.
  intros Hi. unfold column_at. destruct (lookup_lt_is_Some_2 (s_Columns s) (Z.to_nat i)) as [c Hc]; [unfold zlen in Hi; lia|].
  rewrite Hc, (proj2 (Z.ltb_ge _ _)) by lia. by exists c.
Qed.

Lemma find_column_spec cols name i c j :
  find_column cols name i = Some (c, j) → i ≤ j < i + zlen cols ∧ cols !! Z.to_nat (j - i) = Some c ∧ col_Name c = name.
Proof.
  revert i. induction cols as [|d cols IH]; intros i H; cbn in H; [done|]. rewrite zlen_cons. pose proof (zlen_nonneg cols).
  case_bool_decide as Hd.
  - injection H as <- <-. split; [lia|]. by rewrite Z.sub_diag.
  - destruct (IH _ H) as (H1 & H2 & H3). split; [lia|]. split; [|done].
    replace (Z.to_nat (j - i)) with (S (Z.to_nat (j - (i + 1)))) by lia. done.
Qed.

Lemma column_spec s name c i :
  column s name = Some (c, i) → 0 ≤ i < zlen (s_Columns s) ∧ s_Columns s !! Z.to_nat i = Some c ∧ col_Name c = name.
Proof. intros H%find_column_spec. rewrite Z.sub_0_r in H. naive_solver lia. Qed.

Lemma bindPredicate_reads s p :
  schema_ok s → literal_ok (p_Value p) →
  plans (bindPredicate s p) (λ v, value_ok v ∧ ∃ c, s_Columns s !! Z.to_nat (s_PrimaryKey s) = Some c ∧ value_type v = col_Type c).
Proof.
  intros (_ & _ & Hpk & _) Hl. unfold bindPredicate, primaryKeyColumn.
  destruct (column_at_reads s _ Hpk) as (c & -> & Hc). rewrite bind_Ok. case_if; [discriminate|].
  eapply reads_mono; [by apply bindLiteral_reads|]. intros v [Hv ?]. split; [done|]. by exists c.
Qed.

(** Columns of an insert. *)
Lemma insert_targets_reads s names seen targets :
  Forall (λ i, 0 ≤ i < zlen (s_Columns s)) targets →
  plans (insert_targets s names seen targets) (λ r,
    Forall (λ i, 0 ≤ i < zlen (s_Columns s)) r.1 ∧ length r.1 = (length targets + length names)%nat).
Proof.
  revert seen targets. induction names as [|n names IH]; intros seen targets Ht; cbn [insert_targets].
  { cbn. split; [done|lia]. }
  case_bool_decide; [discriminate|]. destruct (column s n) as [[c i]|] eqn:Hc; [|discriminate].
  apply column_spec in Hc as (Hi & _). eapply reads_mono; [apply IH|].
  - apply Forall_app_2; [done|by constructor].
  - intros r [H1 H2]. split; [done|]. rewrite length_app in H2. cbn in *. lia.
Qed.

Lemma targetCols_reads s columns n :
  plans (targetCols s columns n) (λ ts, Forall (λ i, 0 ≤ i < zlen (s_Columns s)) ts ∧ zlen ts = n).
Proof.
  unfold targetCols. destruct columns as [names|].
  - destruct (Z.eqb_spec (zlen names) n) as [Hn|]; [|discriminate]. cbn [negb]. apply reads_bind.
    eapply reads_mono; [by apply insert_targets_reads|]. intros [ts seen] [H1 H2]. cbn in H1, H2.
    case_if; [discriminate|]. cbn. split; [done|]. unfold zlen in *. lia.
  - destruct (Z.eqb_spec n (zlen (s_Columns s))) as [Hn|]; [|discriminate]. cbn. pose proof (zlen_nonneg (s_Columns s)). split.
    + apply Forall_forall. intros i Hi%elem_of_seqZ. lia.
    + unfold zlen in *. rewrite length_seqZ. lia.
Qed.

(** Slots filled so far have the type of their column. *)
Definition slots_ok (s : Schema) (vs : list (option Value)) : Prop :=
  Forall2 (λ c ov, match ov with Some v => value_type v = col_Type c ∧ value_ok v | None => True end) (s_Columns s) vs.

Lemma fill_values_reads s targets lits vs :
  slots_ok s vs → Forall literal_ok lits → Forall (λ i, 0 ≤ i < zlen (s_Columns s)) targets → length targets = length lits →
  plans (fill_values s targets lits vs) (slots_ok s).
Proof.
  intros Hs Hl. revert targets vs Hs. induction Hl as [|lit lits Hlit Hlits IH]; intros targets vs Hs Ht Hlen; [exact Hs|].
  destruct targets as [|i targets]; [done|]. cbn [fill_values]. apply Forall_cons in Ht as [Hi Ht].
  destruct (column_at_reads s i Hi) as (c & -> & Hc). rewrite bind_Ok. apply reads_bind.
  eapply reads_mono; [by apply bindLiteral_reads|]. intros v Hv. apply IH; [|done|by injection Hlen].
  unfold slots_ok in *. rewrite <- (list_insert_id (s_Columns s) (Z.to_nat i) c Hc). by apply Forall2_insert.
Qed.

Lemma mapM_id_Forall2 {A} (l : list (option A)) l' : mapM id l = Some l' → Forall2 (λ o x, o = Some x) l l'.
Proof. intros H%mapM_Some. exact H. Qed.

Lemma planInsert_reads s columns lits :
  schema_ok s → Forall literal_ok lits →
  plans (planInsert s columns lits) (λ p,
    ip_schema p = s ∧ row_ok s (ip_values p) ∧ ip_values p !! Z.to_nat (s_PrimaryKey s) = Some (ip_pk p)).
Proof.
  intros (_ & _ & Hpk & _) Hl. unfold planInsert. apply reads_bind. eapply reads_mono; [apply targetCols_reads|].
  intros ts [Ht Hn]. apply reads_bind. eapply reads_mono.
  { apply fill_values_reads; [|done|done|unfold zlen in Hn; lia].
    apply Forall2_same_length_lookup. split; [by rewrite length_replicate|].
    intros i c ov _ [-> _]%lookup_replicate. done. }
  intros vs Hvs. destruct (mapM id vs) as [vals|] eqn:E; [|discriminate]. apply mapM_id_Forall2 in E.
  assert (Hrow : row_ok s vals).
  { unfold row_ok. apply Forall2_same_length_lookup. pose proof (Forall2_length _ _ _ Hvs). pose proof (Forall2_length _ _ _ E).
    split; [lia|]. intros i c v Hc Hv. destruct (Forall2_lookup_r _ _ _ _ _ E Hv) as (ov & Hov & ->).
    destruct (Forall2_lookup_l _ _ _ _ _ Hvs Hc) as (ov' & Hov' & H'). rewrite Hov in Hov'. by injection Hov' as <-. }
  pose proof (Forall2_length _ _ _ Hrow) as Hlen.
  destruct (lookup_lt_is_Some_2 vals (Z.to_nat (s_PrimaryKey s))) as [pk Hp]; [unfold zlen in Hpk; lia|].
  rewrite Hp. cbn. done.
Qed.

Definition in_range (s : Schema) (idx : list Z) : Prop := Forall (λ i, 0 ≤ i < zlen (s_Columns s)) idx.

Lemma select_columns_reads s names : plans (select_columns s names) (in_range s).
Proof.
  induction names as [|n names IH]; cbn [select_columns]; [constructor|].
  destruct (column s n) as [[c i]|] eqn:Hc; [|discriminate]. apply column_spec in Hc as (Hi & _).
  apply reads_bind. eapply reads_mono; [exact IH|]. intros idx Hidx. by constructor.
Qed.

Lemma planSelect_reads s columns where_ :
  schema_ok s → match where_ with Some p => literal_ok (p_Value p) | None => True end →
  plans (planSelect s columns where_) (λ p,
    in_range s (sp_columnIdx p) ∧ match sp_pkPredicate p with Some v => value_ok v | None => True end).
Proof.
  intros Hs Hw. unfold planSelect. apply reads_bind. eapply reads_mono with (P := in_range s).
  - destruct columns; [apply select_columns_reads|]. apply Forall_forall. intros i Hi%elem_of_seqZ. lia.
  - intros idx Hidx. destruct where_ as [p|]; [|done]. apply reads_bind.
    eapply reads_mono; [by apply bindPredicate_reads|]. intros v [Hv _]. done.
Qed.

Definition assignment_ok (s : Schema) (a : Z * Value) : Prop :=
  0 ≤ a.1 < zlen (s_Columns s) ∧ a.1 ≠ s_PrimaryKey s ∧
  ∃ c, s_Columns s !! Z.to_nat a.1 = Some c ∧ value_type a.2 = col_Type c ∧ value_ok a.2.

Lemma update_assignments_reads s asg seen :
  Forall (λ a, literal_ok (a_Value a)) asg → plans (update_assignments s asg seen) (Forall (assignment_ok s)).
Proof.
  intros Hl. revert seen. induction Hl as [|a asg Ha Hasg IH]; intros seen; cbn [update_assignments]; [constructor|].
  destruct (column s (a_Column a)) as [[c i]|] eqn:Hc; [|discriminate]. apply column_spec in Hc as (Hi & Hci & _).
  case_bool_decide; [discriminate|]. destruct (Z.eqb_spec i (s_PrimaryKey s)); [discriminate|].
  destruct (column_at_reads s i Hi) as (c' & -> & Hc'). rewrite Hci in Hc'. injection Hc' as <-.
  rewrite bind_Ok. apply reads_bind. eapply reads_mono; [by apply bindLiteral_reads|]. intros v [Hv1 Hv2].
  apply reads_bind. eapply reads_mono; [apply IH|]. intros rest Hrest. constructor; [|done].
  split; [done|]. split; [done|]. by exists c.
Qed.

Lemma planUpdate_reads s asg w :
  schema_ok s → literal_ok (p_Value w) → Forall (λ a, literal_ok (a_Value a)) asg →
  plans (planUpdate s asg w) (λ p, value_ok (up_pk p) ∧ Forall (assignment_ok s) (up_assignments p)).
Proof.
  intros Hs Hw Ha. unfold planUpdate. apply reads_bind. eapply reads_mono; [by apply bindPredicate_reads|].
  intros pk [Hpk _]. apply reads_bind. eapply reads_mono; [by apply update_assignments_reads|]. done.
Qed.

Lemma apply_assignments_ok s row asg :
  row_ok s row → Forall (assignment_ok s) asg → 0 ≤ s_PrimaryKey s →
  row_ok s (apply_assignments row asg) ∧
  apply_assignments row asg !! Z.to_nat (s_PrimaryKey s) = row !! Z.to_nat (s_PrimaryKey s).
Proof.
  intros Hr Ha Hp. revert row Hr. induction Ha as [|a asg (Hi & Hne & c & Hc & Hv) Hasg IH]; intros row Hr; [done|].
  cbn [apply_assignments foldl]. destruct (IH (<[Z.to_nat a.1 := a.2]> row)) as [H1 H2].
  - unfold row_ok in *. rewrite <- (list_insert_id (s_Columns s) (Z.to_nat a.1) c Hc). by apply Forall2_insert.
  - split; [exact H1|]. etrans; [exact H2|]. apply list_lookup_insert_ne. lia.
Qed.

(** ** Projections and scans *)

Lemma projectRow_ok s row idx :
  row_ok s row → in_range s idx → projectRow row idx = Ok (project row idx).
Proof.
  intros Hr. pose proof (Forall2_length _ _ _ Hr) as Hlen. induction 1 as [|i idx Hi Hidx IH]; [done|].
  cbn [projectRow project omap list_omap].
  destruct (lookup_lt_is_Some_2 row (Z.to_nat i)) as [v ->]; [unfold zlen in Hi; lia|].
  change (list_omap _ _ (λ j, row !! Z.to_nat j) idx) with (project row idx). by rewrite IH.
Qed.

Lemma column_names_ok s idx : in_range s idx → column_names s idx = Ok (project_names s idx).
Proof.
  induction 1 as [|i idx Hi Hidx IH]; [done|]. cbn [column_names project_names omap list_omap].
  destruct (column_at_reads s i Hi) as (c & -> & ->). rewrite bind_Ok. cbn [fmap option_fmap option_map].
  change (list_omap _ _ (λ j, col_Name <$> s_Columns s !! Z.to_nat j) idx) with (project_names s idx). by rewrite IH.
Qed.

Lemma assoc_sorted_unique {A} (l1 l2 : list (bytes * A)) :
  StronglySorted blt l1.*1 → StronglySorted blt l2.*1 → (∀ x, x ∈ l1 ↔ x ∈ l2) → l1 = l2.
Proof.
  intros H1 H2 He. assert (Hk : l1.*1 = l2.*1).
  { apply strict_sorted_unique; [done|done|]. intros k. rewrite !list_elem_of_fmap.
    split; intros (x & -> & Hx); exists x; (split; [done|]); by apply He. }
  pose proof (strict_sorted_NoDup _ H2) as Hnd. clear H1 H2.
  revert l2 He Hk Hnd. induction l1 as [|[k a] l1 IH]; intros [|[k' b] l2] He Hk Hnd; try done.
  cbn in Hk, Hnd. injection Hk as <- Hk. apply NoDup_cons in Hnd as [Hn Hnd].
  assert (Hn1 : k ∉ l1.*1) by (by rewrite Hk).
  assert (Hout : ∀ c (l : list (bytes * A)), k ∉ l.*1 → (k, c) ∉ l).
  { intros c l Hl Hin. apply Hl. apply list_elem_of_fmap. by exists (k, c). }
  assert (a = b) as <-.
  { assert ((k, a) ∈ (k, b) :: l2) as [[= ->]|Hin]%elem_of_cons; [apply He; by left|done|]. by apply Hout in Hin. }
  f_equal. apply IH; [|done|done]. intros x. specialize (He x). rewrite !elem_of_cons in He. split; intros Hx.
  - destruct (proj1 He) as [->|?]; [by right| |done]. by apply Hout in Hx.
  - destruct (proj2 He) as [->|?]; [by right| |done]. by apply Hout in Hx.
Qed.

Lemma bltb_app p a b : bltb (p ++ a) (p ++ b) = bltb a b.
Proof. induction p as [|c p IH]; [done|]. cbn. by rewrite Z.ltb_irrefl. Qed.

#[export] Instance pk_le_trans : Transitive pk_le.
Proof. intros a b c. unfold pk_le. apply ble_trans. Qed.
#[export] Instance pk_le_total : Total pk_le.
Proof. intros a b. unfold pk_le. apply ble_total. Qed.

Definition stored_row (t : bytes) (x : Value * list Value) : bytes * bytes := (rowKey t x.1, encodeRow x.2).

Lemma scan_table_elem tb v row : (v, row) ∈ scan_table tb ↔ tb_rows tb !! v = Some row.
Proof. unfold scan_table. rewrite (merge_sort_Permutation pk_le). apply elem_of_map_to_list. Qed.

Lemma scan_table_sorted t tb : table_ok t tb → StronglySorted blt (stored_row t <$> scan_table tb).*1.
Proof.
  intros Hto. rewrite <- list_fmap_compose. apply sorted_NoDup_strict.
  - assert (Hs : StronglySorted pk_le (scan_table tb)) by apply (StronglySorted_merge_sort pk_le).
    induction Hs as [|x l Hs IH Hx]; [constructor|]. cbn. constructor; [exact IH|].
    apply Forall_fmap. eapply Forall_impl; [exact Hx|]. intros y Hy.
    change (ble (rowKey t x.1) (rowKey t y.1)). unfold pk_le, ble, blt, rowKey in *. by rewrite bltb_app.
  - apply NoDup_fmap_2_strong.
    + intros [v1 r1] [v2 r2] H1 H2 He. cbn in He. apply scan_table_elem in H1, H2.
      apply rowKey_inj in He as [_ ->]; [|apply Hto|apply Hto|by eapply pk_ok|by eapply pk_ok]. congruence.
    + unfold scan_table. rewrite (merge_sort_Permutation pk_le). apply NoDup_map_to_list.
Qed.

(** The pairs a prefix scan returns are the rows of the table. *)
Lemma scan_is_table kv db t tb rows :
  represents kv db → tables_ok db → db !! t = Some tb → StronglySorted blt rows.*1 →
  (∀ k b, (k, b) ∈ rows ↔ kv !! k = Some b ∧ rowKeyPrefix t `prefix_of` k) →
  rows = stored_row t <$> scan_table tb.
Proof.
  intros Hrep Hok Ht Hs Hel. apply assoc_sorted_unique; [done|apply scan_table_sorted, Hok, Ht|].
  intros [k b]. rewrite Hel, (scan_rows_of kv db Hrep Hok t tb k b Ht), list_elem_of_fmap. split.
  - intros (v & row & Hr & -> & ->). exists (v, row). split; [done|]. by apply scan_table_elem.
  - intros ([v row] & [= -> ->] & Hin%scan_table_elem). by exists v, row.
Qed.

Lemma scan_rows_ok t tb idx l :
  table_ok t tb → in_range (tb_schema tb) idx → (∀ x, x ∈ l → tb_rows tb !! x.1 = Some x.2) →
  scan_rows (tb_schema tb) idx (stored_row t <$> l) = Ok ((λ row, project row idx) <$> l.*2).
Proof.
  intros Hto Hidx. induction l as [|x l IH]; intros Hl; [done|]. cbn [fmap list_fmap scan_rows stored_row snd].
  destruct (to_rows _ _ Hto x.1 x.2) as [Hrow _]; [apply Hl; by left|]. destruct (to_schema _ _ Hto) as (_ & Hc & _).
  rewrite decode_encode_row, bind_Ok, (projectRow_ok _ _ _ Hrow Hidx), bind_Ok by done.
  change (list_fmap _ _ (stored_row t) l) with (stored_row t <$> l). rewrite IH by (intros; apply Hl; by right). done.
Qed.

(** ** What is written is bytes *)

Lemma name_ok_bytes n : name_ok n → wf_bytes n ∧ no_nul n ∧ zlen n < 2 ^ 16.
Proof.
  intros [H _]. destruct n as [|c r]; [done|]. cbn [is_ident] in H. bool_to_prop.
  match goal with H : forallb ident_char _ = true |- _ => rename H into Hall end. rewrite forallb_forall in Hall.
  assert (Hc : ∀ x, x ∈ c :: r → 0 < x < 256).
  { intros x Hx%list_elem_of_In. specialize (Hall x Hx). unfold ident_char, isIdentCont, isIdentStart, isDigit in Hall. lia. }
  split; [apply Forall_forall; intros x Hx; specialize (Hc x Hx); unfold is_byte; lia|].
  split; [apply Forall_forall; intros x Hx; specialize (Hc x Hx); lia|]. unfold MaxIdentifierBytes in *. lia.
Qed.

Lemma type_byte_wf t : is_byte (type_byte t).
Proof. unfold is_byte. destruct t; cbn; lia. Qed.

Lemma mjoin_wf {A} (enc : A → bytes) l : Forall (λ x, wf_bytes (enc x)) l → wf_bytes (mjoin (enc <$> l)).
Proof. induction 1 as [|x l Hx Hl IH]; [constructor|]. by apply Forall_app_2. Qed.

Lemma encodePKValue_wf v : value_ok v → wf_bytes (encodePKValue v).
Proof.
  intros Hv. constructor; [apply type_byte_wf|]. destruct v as [n|s|b]; [apply wf_be_put|apply Hv|].
  apply Forall_singleton. unfold is_byte. destruct b; lia.
Qed.

Lemma rowKey_wf t v : wf_bytes t → value_ok v → wf_bytes (rowKey t v).
Proof.
  intros Ht Hv. rewrite rowKey_eq. constructor; [unfold is_byte, rowKeyTag; lia|]. apply Forall_app_2; [done|].
  constructor; [unfold is_byte; lia|by apply encodePKValue_wf].
Qed.

Lemma schemaKey_wf t : wf_bytes t → wf_bytes (schemaKey t).
Proof. intros Ht. constructor; [unfold is_byte, schemaKeyTag; lia|done]. Qed.

Lemma encodeRow_wf s row : row_ok s row → wf_bytes (encodeRow row).
Proof.
  intros Hr. constructor; [unfold is_byte, rowRecordVersion; lia|]. apply Forall_app_2; [apply wf_be_put|].
  apply mjoin_wf. apply Forall_forall. intros v [i Hi]%list_elem_of_lookup. pose proof (row_value_ok _ _ _ _ Hr Hi) as Hv.
  constructor; [apply type_byte_wf|]. destruct v as [n|x|b]; [apply wf_be_put| |].
  - apply Forall_app_2; [apply wf_be_put|apply Hv].
  - apply Forall_singleton. unfold is_byte. destruct b; lia.
Qed.

Lemma encodeSchema_wf s :
  wf_bytes (s_Table s) → Forall (λ c, wf_bytes (col_Name c)) (s_Columns s) → wf_bytes (encodeSchema s).
Proof.
  intros Ht Hc. constructor; [unfold is_byte, schemaRecordVersion; lia|].
  repeat (apply Forall_app_2); try apply wf_be_put; [done|]. apply mjoin_wf. eapply Forall_impl; [exact Hc|].
  intros c Hn. repeat (apply Forall_app_2); [apply wf_be_put|exact Hn|]. apply Forall_singleton, type_byte_wf.
Qed.

(** A table just created. *)
Lemma created_ok t cols s :
  name_ok t → Forall (λ c, name_ok (cd_Name c)) cols → buildSchema t cols = Ok s →
  s_Table s = t ∧ table_ok t (mkTable s ∅) ∧ wf_bytes (encodeSchema s).
Proof.
  intros Ht Hc Hb. destruct (buildSchema_ok _ _ _ Hb) as (Hlen & Hnd & _ & Hst & Hcols & Hpk & _).
  destruct (name_ok_bytes _ Ht) as (Hw & Hn & Hl).
  assert (Hzc : zlen (s_Columns s) = zlen cols) by (rewrite Hcols; unfold zlen; by rewrite length_fmap).
  split; [done|]. split.
  - constructor; cbn [tb_schema tb_rows]; [done|done|done| | |].
    + unfold schema_ok. rewrite Hst, Hzc. unfold MaxColumns in Hlen. split; [lia|]. split; [lia|]. split; [lia|].
      rewrite Hcols. apply Forall_fmap. eapply Forall_impl; [exact Hc|]. intros c H'. by apply name_ok_bytes in H' as (_ & _ & ?).
    + rewrite Hcols, <- list_fmap_compose. exact Hnd.
    + intros v row. by rewrite lookup_empty.
  - apply encodeSchema_wf; [by rewrite Hst|]. rewrite Hcols. apply Forall_fmap. eapply Forall_impl; [exact Hc|].
    intros c H'. by apply name_ok_bytes in H' as (? & _).
Qed.

(** ** The laws of an engine

    [sees w t kv]: the open transaction [t] sees the pairs [kv], its own writes
    included. *)
Class EngineLaws (W T : Type) `{!Engine W T} := {
  sees : W → T → gmap bytes bytes → Prop;
  law_read w t kv k : sees w t kv → tx_Read w t k = Ok (kv !! k);
  law_scan w t kv p :
    sees w t kv → ∃ rows, tx_ScanPrefix w t p = Ok rows ∧ StronglySorted blt rows.*1 ∧
      ∀ k b, (k, b) ∈ rows ↔ kv !! k = Some b ∧ p `prefix_of` k;
  law_write w t kv k b :
    sees w t kv → wf_bytes k → wf_bytes b → ∃ t', tx_Write t k b = Ok t' ∧ sees w t' (<[k := b]> kv);
  law_delete w t kv k :
    sees w t kv → wf_bytes k → ∃ t', tx_Delete t k = Ok t' ∧ sees w t' (delete k kv)
}.

Section refinement.
  Context {W T : Type} `{!Engine W T, !EngineLaws W T}.

(** What executing a statement has to establish. *)
Definition refines_abs (w : W) (r : result sql_error (T * Result)) (a : result sql_error (tables * Result)) : Prop :=
  match a with
  | Err e => r = Err e ∧ e ≠ SqlPanic
  | Ok (db', res) => ∃ t' kv', r = Ok (t', res) ∧ sees w t' kv' ∧ represents kv' db' ∧ tables_ok db'
  end.

(** Both sides run the same plan. *)
Lemma refines_plan {A} (w : W) (p : result sql_error A) (f : A → result sql_error (T * Result))
    (g : A → result sql_error (tables * Result)) Q :
  plans p Q → (∀ a, Q a → refines_abs w (f a) (g a)) → refines_abs w (p ≫= f) (p ≫= g).
Proof. destruct p as [a|e]; cbn; [by auto|]. intros He _. done. Qed.

Lemma getSchema_refines (w : W) (t : T) (kv : gmap bytes bytes) (db : tables) (name : bytes) (f : Schema → result sql_error (T * Result))
    (g : table → result sql_error (tables * Result)) :
  sees w t kv → represents kv db → tables_ok db →
  (∀ tb, db !! name = Some tb → table_ok name tb → refines_abs w (f (tb_schema tb)) (g tb)) →
  refines_abs w (getSchema w t name ≫= f) (find_table db name ≫= g).
Proof.
  intros Hs Hrep Hok Hf. unfold getSchema, find_table. rewrite (law_read _ _ _ _ Hs), bind_Ok, (read_schema _ _ Hrep).
  destruct (db !! name) as [tb|] eqn:Ht; cbn [fmap option_fmap option_map]; [|done].
  pose proof (Hok _ _ Ht) as Hto. rewrite bind_Ok. cbn [compose].
  rewrite (decode_encode_schema _ (to_schema _ _ Hto)). by apply Hf.
Qed.
(** Storing a row, and removing one. *)
Lemma write_row_refines (w : W) (t : T) kv db name tb v row res :
  sees w t kv → represents kv db → tables_ok db → db !! name = Some tb → value_ok v →
  row_ok (tb_schema tb) row → row !! Z.to_nat (s_PrimaryKey (tb_schema tb)) = Some v →
  refines_abs w (t ← tx_Write t (rowKey name v) (encodeRow row); Ok (t, res))
    (Ok (set_rows db name tb (<[v := row]> (tb_rows tb)), res)).
Proof.
  intros Hs Hrep Hok Ht Hv Hrow Hpk. pose proof (Hok _ _ Ht) as Hto.
  destruct (law_write _ _ _ (rowKey name v) (encodeRow row) Hs) as (t' & -> & Hs');
    [apply rowKey_wf; [apply Hto|done]|by eapply encodeRow_wf|].
  rewrite bind_Ok. do 2 eexists. split; [reflexivity|]. split; [exact Hs'|].
  split; [by apply (represents_row kv db name tb v (Some row))|].
  apply map_Forall_insert_2; [|done]. destruct Hto. constructor; cbn; try done.
  intros v' row'. rewrite lookup_insert_Some. intros [[<- <-]|[_ Hr]]; [done|by eauto].
Qed.

Lemma delete_row_refines (w : W) (t : T) kv db name tb v res :
  sees w t kv → represents kv db → tables_ok db → db !! name = Some tb → value_ok v →
  refines_abs w (t ← tx_Delete t (rowKey name v); Ok (t, res))
    (Ok (set_rows db name tb (delete v (tb_rows tb)), res)).
Proof.
  intros Hs Hrep Hok Ht Hv. pose proof (Hok _ _ Ht) as Hto.
  destruct (law_delete _ _ _ (rowKey name v) Hs) as (t' & -> & Hs'); [apply rowKey_wf; [apply Hto|done]|].
  rewrite bind_Ok. do 2 eexists. split; [reflexivity|]. split; [exact Hs'|].
  split; [by apply (represents_row kv db name tb v None)|].
  apply map_Forall_insert_2; [|done]. destruct Hto. constructor; cbn; try done.
  intros v' row'. rewrite lookup_delete_Some. intros [_ Hr]. by eauto.
Qed.

Lemma create_refines (w : W) (t : T) kv db name cols :
  sees w t kv → represents kv db → tables_ok db → name_ok name → columns_ok (λ c, name_ok (cd_Name c)) cols →
  refines_abs w (execCreateTable w t name cols) (abs_exec db (CreateTableStmt name cols)).
Proof.
  intros Hs Hrep Hok Hn (_ & _ & Hc). unfold execCreateTable. cbn [abs_exec].
  destruct (buildSchema name cols) as [s|e] eqn:Hb; [|split; [done|by eapply buildSchema_no_panic]].
  rewrite !bind_Ok. destruct (created_ok _ _ _ Hn Hc Hb) as (-> & Hto & Hwf). cbv zeta.
  rewrite (law_read _ _ _ _ Hs), bind_Ok, (read_schema _ _ Hrep).
  destruct (db !! name) as [tb|] eqn:Ht; cbn [fmap option_fmap option_map]; [done|].
  destruct (law_write _ _ _ (schemaKey name) (encodeSchema s) Hs) as (t' & -> & Hs'); [apply schemaKey_wf, Hto|done|].
  rewrite bind_Ok. do 2 eexists. split; [reflexivity|]. split; [exact Hs'|].
  split; [by apply represents_create|]. by apply map_Forall_insert_2.
Qed.

Lemma insert_refines (w : W) (t : T) kv db name cols lits :
  sees w t kv → represents kv db → tables_ok db → columns_ok literal_ok lits →
  refines_abs w (execInsert w t name cols lits) (abs_exec db (InsertStmt name cols lits)).
Proof.
  intros Hs Hrep Hok (_ & _ & Hl). unfold execInsert. cbn [abs_exec]. apply (getSchema_refines _ _ _ _ _ _ _ Hs Hrep Hok).
  intros tb Ht Hto. eapply refines_plan; [apply planInsert_reads; [apply Hto|done]|]. intros p (_ & Hrow & Hpk). cbv zeta.
  rewrite (to_name _ _ Hto). assert (Hv : value_ok (ip_pk p)) by (by eapply row_value_ok).
  rewrite (law_read _ _ _ _ Hs), bind_Ok, (read_row _ _ Hrep Hok _ _ _ Ht Hv).
  destruct (tb_rows tb !! ip_pk p); [done|]. by eapply write_row_refines.
Qed.

Lemma select_refines (w : W) (t : T) kv db name cols wh :
  sees w t kv → represents kv db → tables_ok db →
  match wh with Some p => predicate_ok p | None => True end →
  refines_abs w (execSelect w t name cols wh) (abs_exec db (SelectStmt name cols wh)).
Proof.
  intros Hs Hrep Hok Hw. unfold execSelect. cbn [abs_exec]. apply (getSchema_refines _ _ _ _ _ _ _ Hs Hrep Hok).
  intros tb Ht Hto. eapply refines_plan; [apply planSelect_reads; [apply Hto|by destruct wh as [[? ?]|]; [apply Hw|]]|].
  intros p [Hidx Hpk]. rewrite column_names_ok, bind_Ok by done. cbv zeta. rewrite (to_name _ _ Hto).
  assert (Hdone : ∀ res, refines_abs w (Ok (t, res)) (Ok (db, res))) by (intros res; by do 2 eexists).
  destruct (sp_pkPredicate p) as [pk|].
  - rewrite (law_read _ _ _ _ Hs), bind_Ok, (read_row _ _ Hrep Hok _ _ _ Ht Hpk).
    destruct (tb_rows tb !! pk) as [row|] eqn:Hr; cbn [fmap option_fmap option_map list_fmap]; [|apply Hdone].
    destruct (to_rows _ _ Hto _ _ Hr) as [Hrow _]. destruct (to_schema _ _ Hto) as (_ & Hc & _).
    rewrite decode_encode_row, bind_Ok, (projectRow_ok _ _ _ Hrow Hidx), !bind_Ok by done. apply Hdone.
  - destruct (law_scan _ _ _ (rowKeyPrefix name) Hs) as (rows & -> & Hsort & Hel). rewrite bind_Ok.
    rewrite (scan_is_table _ _ _ _ _ Hrep Hok Ht Hsort Hel).
    rewrite (scan_rows_ok _ _ _ _ Hto Hidx) by (by intros [v r] ?%scan_table_elem).
    rewrite bind_Ok. apply Hdone.
Qed.

Lemma update_refines (w : W) (t : T) kv db name asg wh :
  sees w t kv → represents kv db → tables_ok db →
  columns_ok (λ a, name_ok (a_Column a) ∧ literal_ok (a_Value a)) asg → predicate_ok wh →
  refines_abs w (execUpdate w t name asg wh) (abs_exec db (UpdateStmt name asg wh)).
Proof.
  intros Hs Hrep Hok (_ & _ & Ha) [_ Hw]. unfold execUpdate. cbn [abs_exec]. apply (getSchema_refines _ _ _ _ _ _ _ Hs Hrep Hok).
  intros tb Ht Hto. eapply refines_plan.
  { apply planUpdate_reads; [apply Hto|done|]. eapply Forall_impl; [exact Ha|]. by intros a [_ ?]. }
  intros p [Hv Hasg]. cbv zeta. rewrite (to_name _ _ Hto).
  rewrite (law_read _ _ _ _ Hs), bind_Ok, (read_row _ _ Hrep Hok _ _ _ Ht Hv).
  destruct (tb_rows tb !! up_pk p) as [row|] eqn:Hr; cbn [fmap option_fmap option_map]; [|done].
  destruct (to_rows _ _ Hto _ _ Hr) as [Hrow Hpk]. destruct (to_schema _ _ Hto) as (_ & Hc & Hpi & _).
  rewrite decode_encode_row, bind_Ok by done.
  destruct (apply_assignments_ok _ _ _ Hrow Hasg) as [Hrow' Hpk']; [lia|].
  eapply write_row_refines; try done. by rewrite Hpk'.
Qed.

Lemma delete_refines (w : W) (t : T) kv db name wh :
  sees w t kv → represents kv db → tables_ok db → predicate_ok wh →
  refines_abs w (execDelete w t name wh) (abs_exec db (DeleteStmt name wh)).
Proof.
  intros Hs Hrep Hok [_ Hw]. unfold execDelete. cbn [abs_exec]. apply (getSchema_refines _ _ _ _ _ _ _ Hs Hrep Hok).
  intros tb Ht Hto. unfold planDelete. eapply refines_plan; [apply bindPredicate_reads; [apply Hto|done]|].
  intros pk [Hv _]. cbv zeta. rewrite (to_name _ _ Hto).
  rewrite (law_read _ _ _ _ Hs), bind_Ok, (read_row _ _ Hrep Hok _ _ _ Ht Hv).
  destruct (tb_rows tb !! pk) as [row|]; cbn [fmap option_fmap option_map]; [|done]. by eapply delete_row_refines.
Qed.

Lemma execOne_refines (w : W) (t : T) kv db stmt :
  sees w t kv → represents kv db → tables_ok db → statement_ok stmt →
  refines_abs w (execOne w t stmt) (abs_exec db stmt).
Proof.
  intros Hs Hrep Hok Hst. destruct stmt; cbn [execOne statement_ok] in *; try done.
  - destruct Hst. by eapply create_refines.
  - destruct Hst as (_ & _ & ?). by eapply insert_refines.
  - destruct Hst as (_ & _ & ?). by eapply select_refines.
  - destruct Hst as (_ & ? & ?). by eapply update_refines.
  - destruct Hst as (_ & ?). by eapply delete_refines.
Qed.
End refinement.
