(* ===== verification/SqlStandalone.v ===== *)
(** * SQL on the standalone database

    The standalone engine satisfies the laws of an engine, so the statements
    implement the relational database on it; and a statement executed outside
    an explicit transaction commits exactly that change, atomically, once. *)

From Stdlib Require Import String.
From S2P Require Import Prelude Bytes GoSort Hash Mvcc MvccSpec FsmCommand Fsm FsmSpec FsmSnapshot WalRecord Wal WalSpec Txn TxnSpec SqlSyntax SqlSyntaxSpec SqlRow SqlExec SqlWrites SqlExecSpec.

(** The write set of an open session: one mutation per key. *)
Lemma session_writes t ws :
  session_inv t → t_state t = StateActive → t_writes t = Some ws →
  writes_ok ws (t_order t) ∧ write_set t = local_writes ws (t_order t).
Proof.
  intros [Ha _] Hs Hw. destruct (Ha Hs) as (ws' & Hw' & Hd & Hnd & Hf). rewrite Hw in Hw'. injection Hw' as <-.
  split; [constructor; [done|done|]; intros k m Hm; by apply Hf in Hm as [? _]|].
  unfold write_set, own_write. by rewrite Hw.
Qed.

(** ** What a session sees *)

Definition seen (tr : trace) (t : Txn) (k : bytes) : option bytes :=
  match own_write t k with
  | Some m => mutation_value m
  | None => db_at (history_of tr) (t_startSeq t) !! k
  end.

(** [start] is the snapshot the session was opened at. *)
Record session_sees (start : Z) (m : Manager) (t : Txn) (kv : gmap bytes bytes) : Prop := {
  ss_mgr : ∃ nid rs tr, mgr_inv nid m rs tr ∧ ∀ k, kv !! k = seen tr t k;
  ss_inv : session_inv t;
  ss_active : t_state t = StateActive;
  ss_start : t_startSeq t = start ∧ 0 ≤ start ≤ m_lastSeq m ∧ is_u64 start;
  ss_id : is_u64 (t_id t);
  ss_writes : map_Forall (λ _, mutation_wf) (default ∅ (t_writes t))
}.

Lemma mgr_scan nid m rs tr prefix seq :
  mgr_inv nid m rs tr → 0 ≤ seq →
  ∃ rows, ScanVisible (f_store (m_fsm m)) prefix seq = Ok rows ∧ StronglySorted blt rows.*1 ∧
    ∀ k v, (k, v) ∈ rows ↔ db_at (history_of tr) seq !! k = Some v ∧ prefix `prefix_of` k.
Proof.
  intros Hi Hs. pose proof (mi_run _ _ _ _ Hi) as Hr. apply refines_scan; [apply Hr|].
  pose proof (fi_horizon _ Hr) as Hh. cbn in Hh. by rewrite Hh, (mi_watermark _ _ _ _ Hi).
Qed.

Lemma session_read start m t kv k : session_sees start m t kv → Read m t k = Ok (kv !! k).
Proof.
  intros [(nid & rs & tr & Hi & Hkv) _ Ha [Hs Hu] _ _]. unfold Read. rewrite bool_decide_true by done. cbn [negb].
  rewrite Hkv. unfold seen, mutation_value. destruct (own_write t k) as [mu|]; [done|].
  by rewrite (mgr_visible _ _ _ _ _ _ Hi) by (unfold is_u64 in *; lia).
Qed.

Lemma session_scan start m t kv prefix :
  session_sees start m t kv → ∃ rows, standalone_ScanPrefix m t prefix = Ok rows ∧ StronglySorted blt rows.*1 ∧
    ∀ k b, (k, b) ∈ rows ↔ kv !! k = Some b ∧ prefix `prefix_of` k.
Proof.
  intros [(nid & rs & tr & Hi & Hkv) Hinv Ha [Hs Hu] _ _]. unfold standalone_ScanPrefix.
  destruct (mgr_scan _ _ _ _ prefix (t_startSeq t) Hi) as (rows & -> & Hsort & Hel); [unfold is_u64 in *; lia|].
  destruct (si_active _ Hinv Ha) as (ws & Hw & _). unfold LocalWrites. rewrite bool_decide_true by done. cbn [negb].
  destruct (session_writes t ws Hinv Ha Hw) as [Hws ->]. destruct (merge_scan _ _ Hws prefix rows _ Hsort Hel) as [H1 H2].
  eexists. split; [reflexivity|]. split; [done|]. intros k b. rewrite H2, Hkv. unfold seen, own_write. by rewrite Hw.
Qed.

Lemma session_record start m t kv op :
  session_sees start m t kv → mutation_wf (op_mutation op) →
  ∃ t', session_do t op = Ok t' ∧
    session_sees start m t' (match op with SWrite k b => <[k := b]> kv | SDelete k => delete k kv end).
Proof.
  intros [(nid & rs & tr & Hi & Hkv) Hinv Ha Hst Hid Hwf] Hop.
  destruct (session_step t op Hinv Ha) as (t' & ws & Ht' & Hinv' & Hw & Heq). exists t'. split; [done|].
  constructor; [|done|by rewrite Heq|by rewrite Heq|by rewrite Heq|].
  - exists nid, rs, tr. split; [done|]. intros k.
    assert (Hset : (match op with SWrite k b => <[k := b]> kv | SDelete k => delete k kv end) !! k =
      if decide (op_key op = k) then mutation_value (op_mutation op) else kv !! k).
    { destruct op as [k' b|k']; cbn; destruct (decide (k' = k)) as [->|Hne];
        by rewrite ?lookup_insert_eq, ?lookup_delete_eq, ?lookup_insert_ne, ?lookup_delete_ne. }
    rewrite Hset, Hkv. unfold seen, own_write. rewrite Heq, Hw. cbn [t_writes t_startSeq mbind option_bind].
    destruct (decide (op_key op = k)) as [->|Hne]; [by rewrite lookup_insert_eq|by rewrite lookup_insert_ne].
  - rewrite Heq. cbn [t_writes default]. rewrite Hw in Hwf. by apply map_Forall_insert_2.
Qed.

#[export] Program Instance standalone_laws (start : Z) : EngineLaws Manager Txn := {|
  sees := session_sees start
|}.
Next Obligation.
  intros start w t kv k Hs. cbn. by rewrite (session_read _ _ _ _ _ Hs).
Qed.
Next Obligation.
  intros start w t kv p Hs. by apply session_scan with start.
Qed.
Next Obligation.
  intros start w t kv k b Hs Hk Hb. destruct (session_record _ _ _ _ (SWrite k b) Hs) as (t' & Ht & Hs'); [done|].
  exists t'. cbn in *. by rewrite Ht.
Qed.
Next Obligation.
  intros start w t kv k Hs Hk. destruct (session_record _ _ _ _ (SDelete k) Hs) as (t' & Ht & Hs');
    [split; [done|]; split; [constructor|done]|].
  exists t'. cbn in *. by rewrite Ht.
Qed.

(** ** Committing a session *)

Definition session_cmd (t : Txn) (req : bytes) : CommitTxnCommand :=
  mkCommitTxn req (t_id t) (t_startSeq t) (write_set t).

(** What becomes of a session committed under an identifier never used: how
    the database [m'] holds then relates to the one before. *)
Inductive commit_fate (m : Manager) (tr : trace) (t : Txn) (req : bytes) (m' : Manager)
    : result txn_error Z → Prop :=
| fate_readonly : write_set t = [] → m' = m → commit_fate m tr t req m' (Ok (m_lastSeq m))
| fate_too_large :
    write_set t ≠ [] → ¬ fits (session_cmd t req) → m' = m →
    commit_fate m tr t req m' (Err (ErrTxnWal ErrRecordTooLarge))
| fate_conflict key latest tr' :
    overwritten tr (session_cmd t req) → db_reachable m' tr' → database tr' m' = database tr m →
    commit_fate m tr t req m' (Err (ErrConflict key latest (t_startSeq t)))
| fate_committed tr' :
    write_set t ≠ [] → ¬ overwritten tr (session_cmd t req) → db_reachable m' tr' →
    m_lastSeq m' = m_lastSeq m + 1 →
    database tr' m' = foldl apply_mutation (database tr m) (write_set t) →
    commit_fate m tr t req m' (Ok (m_lastSeq m')).

Lemma session_cmd_wf start m t kv req :
  session_sees start m t kv → wf_bytes req → commit_cmd_wf (session_cmd t req).
Proof.
  intros [_ Hinv Ha (<- & _ & Hu) Hid Hwf] Hr. constructor; cbn; [done|done|done|].
  destruct (si_active _ Hinv Ha) as (ws & Hw & _). destruct (session_writes t ws Hinv Ha Hw) as [Hws ->].
  apply Forall_forall. intros mu Hmu%(elem_of_local_writes _ _ Hws). rewrite Hw in Hwf. by apply (Hwf (Key mu)).
Qed.

Lemma database_visible nid m rs tr db :
  mgr_inv nid m rs tr → (∀ k, Visible (f_store (m_fsm m)) k (m_lastSeq m) = Ok (db !! k)) → database tr m = db.
Proof.
  intros Hi Hv. apply map_eq. intros k. specialize (Hv k).
  rewrite (mgr_visible _ _ _ _ _ _ Hi (mgr_last_nonneg _ _ _ _ Hi)) in Hv. by injection Hv.
Qed.

Lemma reachable_steps m tr m' tr' : db_reachable m tr → rtc db_step (m, tr) (m', tr') → db_reachable m' tr'.
Proof.
  intros (nid & maxsz & m0 & H1 & H2 & H3 & H4) Hs. exists nid, maxsz, m0. split; [done|]. split; [done|].
  split; [done|]. by etransitivity.
Qed.

Lemma commit_session start m tr t kv req m' t' r :
  db_reachable m tr → session_sees start m t kv → wf_bytes req → m_lastSeq m + 2 < 2 ^ 64 →
  (∀ d, d ∈ tr → c_RequestID (d_cmd d) ≠ req) → Commit m t req = (m', t', r) → commit_fate m tr t req m' r.
Proof.
  intros Hr Hs Hreq Hb Hnew Hc. destruct (db_reachable_inv _ _ Hr) as (nid & rs & Hi).
  pose proof (session_cmd_wf _ _ _ _ _ Hs Hreq) as Hwf. unfold Commit in Hc.
  rewrite bool_decide_true in Hc by apply Hs. cbn [negb] in Hc.
  destruct (commit m (t_id t) req (t_startSeq t) (write_set t)) as [[m1 o] e] eqn:Hc1.
  assert (Hm : m' = m1 ∧ r = match e with Some e => Err e | None => Ok (o_CommitSeq o) end)
    by (destruct e; by injection Hc as <- _ <-).
  clear Hc. destruct Hm as [-> ->].
  pose proof (db_commit m tr (session_cmd t req) m1 o e Hwf Hb Hc1) as Hstep.
  pose proof (reachable_steps _ _ _ _ Hr (rtc_once _ _ Hstep)) as Hr1.
  destruct (db_reachable_inv _ _ Hr1) as (nid1 & rs1 & Hi1).
  destruct (commit_answers _ _ _ _ (session_cmd t req) _ _ _ Hi Hwf Hb Hc1)
    as [Hn|d m1 _ Hd Hid|d _ Hd Hid|Hne _ Hf|m1 key latest Hne _ Hf Hov Hlog Hst|m1 Hne _ Hf Hov Hlog Hv].
  - by apply fate_readonly.
  - by destruct (Hnew _ Hd).
  - by destruct (Hnew _ Hd).
  - by apply fate_too_large.
  - apply (fate_conflict _ _ _ _ _ _ _ (trace_after m m1 (session_cmd t req) (mkOutcome req StatusAborted 0 key latest) tr)); [done|exact Hr1|].
    destruct Hlog as (_ & _ & _ & Hl). pose proof (mgr_last_nonneg _ _ _ _ Hi) as H0.
    apply (database_visible _ _ _ _ _ Hi1). intros k. rewrite Hst, Hl, (mgr_visible _ _ _ _ _ _ Hi) by lia.
    unfold database. pose proof (fi_last _ (mi_run _ _ _ _ Hi)) as Hbd. cbn in Hbd.
    rewrite !db_at_all; [done|done|]. eapply Forall_impl; [exact Hbd|]. cbn. lia.
  - eapply fate_committed; [done|done|exact Hr1|by destruct Hlog as (_ & _ & _ & ?)|]. by apply (database_visible _ _ _ _ _ Hi1).
Qed.

(** ** Sessions over time *)

Lemma sees_trace nid start m rs tr t kv :
  session_sees start m t kv → mgr_inv nid m rs tr → ∀ k, kv !! k = seen tr t k.
Proof.
  intros [(nid' & rs' & tr' & Hi' & Hkv) _ _ (<- & [H0 _] & _) _ _] Hi k. rewrite Hkv. unfold seen.
  destruct (own_write t k); [done|]. pose proof (mgr_visible _ _ _ _ k _ Hi' H0) as H1.
  rewrite (mgr_visible _ _ _ _ k _ Hi H0) in H1. by injection H1.
Qed.

(** Other clients, crashes and restarts do not change what an open session
    sees. *)
Lemma sees_later start m tr m' tr' t kv :
  session_sees start m t kv → db_reachable m tr → rtc db_step (m, tr) (m', tr') → session_sees start m' t kv.
Proof.
  intros Hs Hr Hst. destruct (db_reachable_inv _ _ Hr) as (nid & rs & Hi).
  pose proof (sees_trace _ _ _ _ _ _ _ Hs Hi) as Hkv.
  destruct (db_steps_inv _ _ Hst nid rs Hi) as ((rs' & Hi') & Hl & new & Htr & Hnew). cbn in *.
  destruct Hs as [_ Hinv Ha (He & Hle & Hu) Hid Hwf].
  constructor; [|done|done|split; [done|split; [lia|done]]|done|done]. exists nid, rs', tr'. split; [done|]. intros k.
  rewrite Hkv. unfold seen. destruct (own_write t k); [done|]. rewrite Htr, db_at_extend; [done|].
  eapply Forall_impl; [exact Hnew|]. cbn. lia.
Qed.

Lemma sees_begin m tr :
  db_reachable m tr → is_u64 (m_lastSeq m) → session_sees (m_lastSeq m) (Begin m).1 (Begin m).2 (database tr m).
Proof.
  intros Hr Hu. destruct (db_reachable_inv _ _ Hr) as (nid & rs & Hi). pose proof (mgr_last_nonneg _ _ _ _ Hi) as H0.
  constructor; cbn; [|apply session_inv_begin|done|split; [done|split; [lia|done]]|apply u64_range|apply map_Forall_empty].
  exists nid, rs, tr. split; [by eapply mgr_inv_same|]. intros k. unfold seen, own_write, database. cbn. by rewrite lookup_empty.
Qed.

(** The write set turns the snapshot into what the session sees. *)
Lemma sees_write_set start m tr t kv :
  session_sees start m t kv → db_reachable m tr →
  foldl apply_mutation (db_at (history_of tr) start) (write_set t) = kv.
Proof.
  intros Hs Hr. destruct (db_reachable_inv _ _ Hr) as (nid & rs & Hi).
  pose proof (sees_trace _ _ _ _ _ _ _ Hs Hi) as Hkv. destruct Hs as [_ Hinv Ha [He _] _ _].
  destruct (si_active _ Hinv Ha) as (ws & Hw & _). apply map_eq. intros k.
  destruct (session_writes t ws Hinv Ha Hw) as [Hws ->]. rewrite (apply_local_writes _ _ Hws), Hkv. unfold seen, own_write. rewrite Hw, He. cbn [mbind option_bind].
  by destruct (ws !! k).
Qed.

(** Nothing committed since the snapshot: no conflict. *)
Lemma not_overwritten m tr t req :
  db_reachable m tr → m_lastSeq m ≤ t_startSeq t → ¬ overwritten tr (session_cmd t req).
Proof.
  intros Hr Hl (mu & c & _ & Hc & _ & Hlt). destruct (db_reachable_inv _ _ Hr) as (nid & rs & Hi).
  pose proof (fi_last _ (mi_run _ _ _ _ Hi)) as Hb. rewrite Forall_forall in Hb.
  apply elem_of_history_of in Hc as (d & Hd & _ & ->). specialize (Hb d Hd). cbn in *. lia.
Qed.

(** ** Statements of one explicit transaction *)

Definition is_dml (stmt : Statement) : bool :=
  match stmt with BeginStmt | CommitStmt | RollbackStmt => false | _ => true end.

(** Each statement is executed against the database as it is at that moment;
    an error closes the transaction. *)
Fixpoint run_explicit {W T} `{!Engine W T} (t : T) (work : list (W * Statement)) : option T * list (result sql_error Result) :=
  match work with
  | [] => (Some t, [])
  | (m, stmt) :: work =>
      match dispatch m (Some t) stmt [] with
      | (_, None, r) => (None, [r])
      | (_, Some t, r) => let '(s, rs) := run_explicit t work in (s, r :: rs)
      end
  end.

Fixpoint abs_run (db : tables) (stmts : list Statement) : option tables * list (result sql_error Result) :=
  match stmts with
  | [] => (Some db, [])
  | stmt :: stmts =>
      match abs_exec db stmt with
      | Err e => (None, [Err e])
      | Ok (db, r) => let '(s, rs) := abs_run db stmts in (s, Ok r :: rs)
      end
  end.

(** The databases the statements meet, anything happening in between. *)
Fixpoint chain (x : Manager * trace) (ms : list Manager) (y : Manager * trace) : Prop :=
  match ms with
  | [] => rtc db_step x y
  | m :: ms => ∃ tr, rtc db_step x (m, tr) ∧ chain (m, tr) ms y
  end.

Lemma chain_grows ms x m tr :
  chain x ms (m, tr) → ∀ nid rs, mgr_inv nid x.1 rs x.2 → grows x.1 x.2 m tr.
Proof.
  intros Hch nid rs Hi. assert (Hs : rtc db_step x (m, tr)).
  { clear Hi. revert x Hch. induction ms as [|m1 ms IH]; intros x Hch; [done|]. destruct Hch as (tr1 & H1 & H2).
    etransitivity; [exact H1|by apply IH]. }
  apply (db_steps_inv _ _ Hs nid rs Hi).
Qed.

Lemma dispatch_explicit start m t kv db stmt :
  session_sees start m t kv → represents kv db → tables_ok db → statement_ok stmt → is_dml stmt = true →
  match abs_exec db stmt with
  | Err e => dispatch m (Some t) stmt [] = (m, None, Err e)
  | Ok (db', res) => ∃ t' kv', dispatch m (Some t) stmt [] = (m, Some t', Ok res) ∧
      session_sees start m t' kv' ∧ represents kv' db' ∧ tables_ok db'
  end.
Proof.
  intros Hs Hrep Hok Hst Hd.
  pose proof (@execOne_refines _ _ _ (standalone_laws start) m t kv db stmt Hs Hrep Hok Hst) as H.
  assert (Hdis : dispatch m (Some t) stmt [] = executeDML m (Some t) stmt []) by (by destruct stmt).
  rewrite Hdis. unfold executeDML. cbn [negb andb]. unfold refines_abs in H.
  destruct (abs_exec db stmt) as [[db' res]|e].
  - destruct H as (t' & kv' & He & Hs' & H1 & H2). exists t', kv'. by rewrite He.
  - destruct H as [-> _]. done.
Qed.

Lemma run_explicit_spec start work m0 tr0 t kv db m tr :
  db_reachable m0 tr0 → session_sees start m0 t kv → represents kv db → tables_ok db →
  Forall (λ w, statement_ok w.2 ∧ is_dml w.2 = true) work → chain (m0, tr0) work.*1 (m, tr) →
  db_reachable m tr ∧ (run_explicit t work).2 = (abs_run db work.*2).2 ∧
  match (run_explicit t work).1, (abs_run db work.*2).1 with
  | Some t', Some db' => ∃ kv', session_sees start m t' kv' ∧ represents kv' db' ∧ tables_ok db'
  | None, None => True
  | _, _ => False
  end.
Proof.
  revert m0 tr0 t kv db. induction work as [|[m1 stmt] work IH]; intros m0 tr0 t kv db Hr Hs Hrep Hok Hw Hch.
  - cbn in *. split; [by eapply reachable_steps|]. split; [done|]. exists kv. split; [by eapply sees_later|done].
  - destruct Hch as (tr1 & Hst & Hch). apply Forall_cons in Hw as [[Hso Hd] Hw].
    pose proof (reachable_steps _ _ _ _ Hr Hst) as Hr1. pose proof (sees_later _ _ _ _ _ _ _ Hs Hr Hst) as Hs1.
    pose proof (dispatch_explicit _ _ _ _ _ _ Hs1 Hrep Hok Hso Hd) as H. cbn [fmap list_fmap run_explicit abs_run fst snd] in *.
    destruct (abs_exec db stmt) as [[db' res]|e].
    + destruct H as (t' & kv' & -> & Hs' & Hrep' & Hok').
      destruct (IH _ _ _ _ _ Hr1 Hs' Hrep' Hok' Hw Hch) as (H1 & H2 & H3).
      change (list_fmap _ _ snd work) with (work.*2).
      destruct (run_explicit t' work), (abs_run db' work.*2). cbn in *. by rewrite H2.
    + rewrite H. split; [|done]. clear IH Hw H. revert m1 tr1 Hst Hr1 Hs1 Hch. induction work as [|[m2 st2] work IH2]; cbn;
        intros m1 tr1 Hst Hr1 Hs1 Hch; [by eapply reachable_steps|]. destruct Hch as (tr2 & Hst2 & Hch).
      eapply IH2; [| |by eapply sees_later|exact Hch]; [by etransitivity|by eapply reachable_steps].
Qed.

(** ** Statements outside an explicit transaction *)

Definition with_seq (res : Result) (seq : Z) : Result :=
  mkResult (r_Kind res) (r_RowsAffected res) (r_Columns res) (r_Rows res) seq.

(** A statement that writes, under an identifier that has an outcome. *)
Definition already_decided (tr : trace) (stmt : Statement) (req : bytes) (d : decided) : Prop :=
  isMutatingStatement stmt = true ∧ d ∈ tr ∧ c_RequestID (d_cmd d) = req.

Inductive autocommit_answer (m : Manager) (tr : trace) (db : tables) (stmt : Statement) (req : bytes)
    (m' : Manager) (tr' : trace) : result sql_error Result → Prop :=
| auto_retry d :
    already_decided tr stmt req d → database tr' m' = database tr m →
    autocommit_answer m tr db stmt req m' tr'
      (mutationRetryResult stmt (mkRequestOutcome (is_committed d) (o_CommitSeq (d_outcome d))))
| auto_error e :
    (∀ d, ¬ already_decided tr stmt req d) → abs_exec db stmt = Err e → database tr' m' = database tr m →
    autocommit_answer m tr db stmt req m' tr' (Err e)
| auto_done db' res :
    (∀ d, ¬ already_decided tr stmt req d) → abs_exec db stmt = Ok (db', res) →
    represents (database tr' m') db' → tables_ok db' →
    autocommit_answer m tr db stmt req m' tr' (Ok (with_seq res (m_lastSeq m')))
| auto_too_large db' res :
    (∀ d, ¬ already_decided tr stmt req d) → abs_exec db stmt = Ok (db', res) → database tr' m' = database tr m →
    autocommit_answer m tr db stmt req m' tr' (Err (SqlTxnErr (ErrTxnWal ErrRecordTooLarge))).

Lemma lookup_decided m tr req :
  db_reachable m tr →
  match standalone_LookupOutcome m req with
  | Some o => ∃ d, d ∈ tr ∧ c_RequestID (d_cmd d) = req ∧ o = mkRequestOutcome (is_committed d) (o_CommitSeq (d_outcome d))
  | None => ∀ d, d ∈ tr → c_RequestID (d_cmd d) ≠ req
  end.
Proof.
  intros Hr. destruct (db_reachable_inv _ _ Hr) as (nid & rs & Hi).
  unfold standalone_LookupOutcome, GetRequestOutcome, GetOutcome.
  destruct (f_outcomes (m_fsm m) !! req) as [e|] eqn:He; cbn [fmap option_fmap option_map].
  - apply (fi_outcomes _ (mi_run _ _ _ _ Hi)) in He as (d & Hd & Hid & ->). by exists d.
  - by apply (unknown_in_trace _ _ _ _ _ Hi).
Qed.

Lemma execSelect_reads {W T} `{!Engine W T} (w : W) (t : T) name cols wh t' r :
  execSelect w t name cols wh = Ok (t', r) → t' = t.
Proof.
  unfold execSelect. intros H. repeat (apply bind_Ok_inv in H as (? & _ & H)). by injection H as ->.
Qed.

(** Committing the transaction of one statement. *)
Lemma autocommit_commit m tr db stmt req t' kv' db' res :
  db_reachable m tr → session_sees (m_lastSeq m) (Begin m).1 t' kv' → represents kv' db' → tables_ok db' →
  wf_bytes req → m_lastSeq m + 2 < 2 ^ 64 → (∀ d, ¬ already_decided tr stmt req d) →
  (isMutatingStatement stmt = false → write_set t' = []) → abs_exec db stmt = Ok (db', res) →
  ∃ m' tr' r, standalone_Commit (Begin m).1 t' req = (m', r) ∧ db_reachable m' tr' ∧
    autocommit_answer m tr db stmt req m' tr'
      (match r with Ok seq => Ok (with_seq res seq) | Err e => Err e end).
Proof.
  intros Hr Hs Hrep Hok Hreq Hb Hnew Hro Habs.
  assert (Hr0 : db_reachable (Begin m).1 tr) by (eapply reachable_steps; [exact Hr|apply rtc_once, db_begin]).
  pose proof (sees_write_set _ _ _ _ _ Hs Hr0) as Hws. unfold standalone_Commit.
  destruct (decide (write_set t' = [])) as [He|He].
  { unfold Commit, commit. rewrite bool_decide_true by apply Hs. rewrite He in Hws |- *. cbn.
    eexists _, tr, _. split; [reflexivity|]. split; [exact Hr0|].
    apply (auto_done _ _ _ _ _ (Begin m).1 tr db'); [done|done| |done]. cbn in Hws. by rewrite <- Hws in Hrep. }
  assert (Hmut : isMutatingStatement stmt = true) by (destruct (isMutatingStatement stmt); [done|by destruct He; apply Hro]).
  destruct (Commit (Begin m).1 t' req) as [[m' tx] r] eqn:Hc.
  assert (Hst : t_startSeq t' = m_lastSeq m) by apply Hs.
  destruct (commit_session _ _ _ _ _ _ _ _ _ Hr0 Hs Hreq Hb (λ d Hd Hi, Hnew d (conj Hmut (conj Hd Hi))) Hc)
    as [|_ _ ->|key latest tr' Hov|tr' _ _ Hr' Hl Hd]; [done| | |].
  - eexists _, tr, _. split; [reflexivity|]. split; [exact Hr0|]. by eapply auto_too_large.
  - destruct (not_overwritten _ _ t' req Hr0); [by rewrite Hst|done].
  - exists m', tr', (Ok (m_lastSeq m')). split; [done|]. split; [done|]. eapply auto_done; [done|done| |done].
    assert (Hkv : database tr' m' = kv') by (rewrite Hd; exact Hws). by rewrite Hkv.
Qed.

Lemma abort_unchanged (m : Manager) (t : Txn) : (tx_Abort m t).1 = m.
Proof. done. Qed.

(** What COMMIT tells the client of a commit's result. *)
Definition sql_commit_answer (r : result txn_error Z) : result sql_error Result :=
  match r with
  | Ok seq => Ok (mkResult ResultOK 0 [] [] seq)
  | Err (ErrConflict _ _ _) => Err (SqlSentinel ErrSqlConflict)
  | Err e => Err (SqlTxnErr e)
  end.

Lemma dispatch_commit (m : Manager) t req :
  dispatch m (Some t) CommitStmt req =
    ((Commit m t req).1.1, None, sql_commit_answer (Commit m t req).2).
Proof.
  cbn. unfold standalone_Commit. destruct (Commit m t req) as [[m' tx] [seq|e]]; [done|]. by destruct e.
Qed.

(** ** Properties of SQL on the standalone database *)

(** C27: a statement outside an explicit transaction, on any reachable database
    that stores a well-formed relational database.  A statement that writes,
    retried under an identifier already decided, gets the recorded outcome
    again and changes nothing.  Otherwise the statement either fails with the
    error the relational database gives, and changes nothing; or it takes
    effect as a whole, the database then storing exactly the relational
    database the statement leads to, and the client gets its result with the
    commit sequence; or it is refused because its change does not fit a log
    record, and changes nothing.  It never ends in a conflict, and never
    panics. *)
Theorem sql_autocommit m tr db stmt req :
  db_reachable m tr → represents (database tr m) db → tables_ok db → statement_ok stmt → is_dml stmt = true →
  wf_bytes req → req ≠ [] → m_lastSeq m + 2 < 2 ^ 64 →
  ∃ m' tr' r, dispatch m None stmt req = (m', None, r) ∧ db_reachable m' tr' ∧
    autocommit_answer m tr db stmt req m' tr' r.
Proof.
  intros Hr Hrep Hok Hst Hd Hreq Hne Hb.
  assert (Hr0 : db_reachable (Begin m).1 tr) by (eapply reachable_steps; [exact Hr|apply rtc_once, db_begin]).
  assert (Hs : session_sees (m_lastSeq m) (Begin m).1 (Begin m).2 (database tr m)).
  { apply sees_begin; [done|]. destruct (db_reachable_inv _ _ Hr) as (? & ? & Hi).
    pose proof (mgr_last_nonneg _ _ _ _ Hi). unfold is_u64. lia. }
  assert (Hdis : dispatch m None stmt req = executeDML m None stmt req) by (by destruct stmt).
  rewrite Hdis. unfold executeDML. cbn [eng_Begin standalone_engine].
  rewrite (surjective_pairing (Begin m)). cbn [negb andb]. rewrite bool_decide_false by done. cbn [negb andb].
  pose proof (lookup_decided (Begin m).1 tr req Hr0) as Hl. cbn [eng_LookupOutcome standalone_engine].
  destruct (isMutatingStatement stmt) eqn:Hmut; [destruct (standalone_LookupOutcome (Begin m).1 req) as [o|]|].
  { destruct Hl as (d & Hdt & Hid & ->). eexists _, tr, _. split; [reflexivity|]. split; [exact Hr0|]. by apply auto_retry. }
  all: assert (Hnew : ∀ d, ¬ already_decided tr stmt req d) by (intros d (? & Hdt & Hid); [by apply (Hl d)||congruence]).
  all: pose proof (@execOne_refines _ _ _ (standalone_laws (m_lastSeq m)) _ _ _ db stmt Hs Hrep Hok Hst) as H.
  all: unfold refines_abs in H; destruct (abs_exec db stmt) as [[db' res]|e] eqn:Habs.
  all: try (destruct H as [-> _]; eexists _, tr, _; split; [reflexivity|]; split; [exact Hr0|by apply auto_error]).
  all: destruct H as (t' & kv' & He & Hs' & Hrep' & Hok').
  all: destruct (autocommit_commit m tr db stmt req t' kv' db' res Hr Hs' Hrep' Hok' Hreq Hb Hnew)
         as (m' & tr' & r & Hc & Hr' & Ha); [|exact Habs|].
  1: by rewrite Hmut.
  2: { intros _. destruct stmt; try done. by apply execSelect_reads in He as ->. }
  all: rewrite He; change (tx_Commit (Begin m).1 t' req) with (standalone_Commit (Begin m).1 t' req); rewrite Hc.
  all: destruct r as [seq|e]; exists m', tr'; eexists; (split; [reflexivity|split; [done|exact Ha]]).
Qed.


(** C26: an explicit transaction.  Its statements are executed against the
    database as it is at each moment, anything happening in between, crashes
    and other clients' commits included; yet every statement answers as it
    would on the relational database stored when the transaction began, with
    the transaction's own changes, up to the first error, which closes the
    transaction without a trace.  COMMIT then writes the difference between
    the two, all of it or nothing, and conflicts exactly when one of its keys
    was overwritten since; when nothing was committed since BEGIN, it cannot
    conflict and the database afterwards stores the transaction's result. *)
Theorem sql_transaction m0 tr0 db work m tr req :
  db_reachable m0 tr0 → represents (database tr0 m0) db → tables_ok db →
  Forall (λ w, statement_ok w.2 ∧ is_dml w.2 = true) work → chain ((Begin m0).1, tr0) work.*1 (m, tr) →
  wf_bytes req → (∀ d, d ∈ tr → c_RequestID (d_cmd d) ≠ req) → m_lastSeq m + 2 < 2 ^ 64 →
  (run_explicit (Begin m0).2 work).2 = (abs_run db work.*2).2 ∧
  match (run_explicit (Begin m0).2 work).1, (abs_run db work.*2).1 with
  | None, None => True
  | Some t, Some db' =>
      tables_ok db' ∧ represents (foldl apply_mutation (database tr0 m0) (write_set t)) db' ∧
      ∃ m' r, dispatch m (Some t) CommitStmt req = (m', None, sql_commit_answer r) ∧
        commit_fate m tr t req m' r ∧
        (m_lastSeq m = m_lastSeq m0 →
           r = Err (ErrTxnWal ErrRecordTooLarge) ∧ m' = m ∨
           is_Ok r = true ∧ ∃ tr', db_reachable m' tr' ∧ represents (database tr' m') db')
  | _, _ => False
  end.
Proof.
  intros Hr Hrep Hok Hwork Hch Hreq Hnew Hb.
  assert (Hr0 : db_reachable (Begin m0).1 tr0) by (eapply reachable_steps; [exact Hr|apply rtc_once, db_begin]).
  destruct (db_reachable_inv _ _ Hr0) as (nid & rs & Hi0).
  destruct (chain_grows _ _ _ _ Hch nid rs Hi0) as (Hl & new & Htr & Hnewer). cbn in Hl, Htr, Hnewer.
  pose proof (mgr_last_nonneg _ _ _ _ Hi0) as Hpos. cbn in Hpos.
  pose proof (sees_begin _ _ Hr ltac:(unfold is_u64; lia)) as Hs.
  destruct (run_explicit_spec _ _ _ _ _ _ _ _ _ Hr0 Hs Hrep Hok Hwork Hch) as (Hrm & H2 & H3). split; [done|].
  destruct (run_explicit _ work).1 as [t|], (abs_run db work.*2).1 as [db'|]; try done.
  destruct H3 as (kv & Hsee & Hrep' & Hok'). split; [done|].
  assert (Hkv : foldl apply_mutation (database tr0 m0) (write_set t) = kv).
  { rewrite <- (sees_write_set _ _ _ _ _ Hsee Hrm), Htr, db_at_extend; [done|].
    eapply Forall_impl; [exact Hnewer|]. cbn. lia. }
  split; [by rewrite Hkv|]. rewrite dispatch_commit. destruct (Commit m t req) as [[m' tx] r] eqn:Hc. cbn [fst snd].
  exists m', r. split; [done|]. pose proof (commit_session _ _ _ _ _ _ _ _ _ Hrm Hsee Hreq Hb Hnew Hc) as Hfate.
  split; [done|]. intros Hsame.
  assert (Hdb : foldl apply_mutation (database tr m) (write_set t) = kv).
  { rewrite <- (sees_write_set _ _ _ _ _ Hsee Hrm). unfold database. by rewrite Hsame. }
  destruct Hfate as [He ->|_ _ ->|key latest tr' Hov|tr' _ _ Hr' _ Hd].
  - right. split; [done|]. exists tr. split; [done|]. rewrite He in Hdb. cbn in Hdb. by rewrite Hdb.
  - by left.
  - destruct (not_overwritten _ _ t req Hrm); [|done]. rewrite (proj1 (ss_start _ _ _ _ Hsee)). lia.
  - right. split; [done|]. exists tr'. split; [done|]. by rewrite Hd, Hdb.
Qed.

(** ** Concrete statements *)

Definition demo_parse (src : bytes) : Statement := match Parse src with Ok st => st | Err _ => BeginStmt end.

Lemma demo_parse_ok src : is_wf_bytes src && is_dml (demo_parse src) = true → statement_ok (demo_parse src) ∧ is_dml (demo_parse src) = true.
Proof.
  intros H. bool_to_prop. split; [|done]. pose proof (Parse_safe src ltac:(by apply wf_bytes_compute)) as Hp.
  unfold demo_parse, parse_safe in *. by destruct (Parse src).
Qed.

Definition demo_create : Statement := demo_parse (str "CREATE TABLE t (id INTEGER PRIMARY KEY, name TEXT)").
Definition demo_insert_row : Statement := demo_parse (str "INSERT INTO t VALUES (7, 'seven')").
Definition demo_select : Statement := demo_parse (str "SELECT name FROM t WHERE id = 7").

Lemma represents_empty : represents ∅ ∅.
Proof. intros k b _. rewrite lookup_empty. split; [done|]. by intros (t & tb & Ht & _). Qed.

Lemma demo_m0_empty : represents (database [] demo_m0) ∅.
Proof.
  assert (database [] demo_m0 = ∅) as -> by (vm_compute; reflexivity). apply represents_empty.
Qed.

Lemma sql_autocommit_witness :
  ∃ m' tr' r, dispatch demo_m0 None demo_create [1] = (m', None, r) ∧
    autocommit_answer demo_m0 [] ∅ demo_create [1] m' tr' r ∧ r = Ok (mkResult ResultOK 0 [] [] 1).
Proof.
  destruct (demo_parse_ok (str "CREATE TABLE t (id INTEGER PRIMARY KEY, name TEXT)")) as [Hst Hd]; [vm_compute; reflexivity|].
  destruct (sql_autocommit demo_m0 [] ∅ demo_create [1] demo_m0_reachable demo_m0_empty)
    as (m' & tr' & r & H1 & _ & H2); [apply map_Forall_empty|exact Hst|exact Hd|by apply wf_bytes_compute|done|
    vm_compute; reflexivity|].
  exists m', tr', r. split; [exact H1|]. split; [exact H2|]. revert H1. vm_compute. by intros [= _ <-].
Defined.

Definition demo_work : list (Manager * Statement) :=
  [((Begin demo_m0).1, demo_create); ((Begin demo_m0).1, demo_insert_row); ((Begin demo_m0).1, demo_select)].

Lemma sql_transaction_witness :
  (run_explicit (Begin demo_m0).2 demo_work).2 =
    [Ok (ok_result 0); Ok (ok_result 1); Ok (mkResult ResultRows 0 [str "name"] [[TextValue (str "seven")]] 0)] ∧
  (run_explicit (Begin demo_m0).2 demo_work).2 = (abs_run ∅ demo_work.*2).2.
Proof.
  assert (Hw : Forall (λ w, statement_ok w.2 ∧ is_dml w.2 = true) demo_work).
  { constructor; [|constructor; [|constructor; [|constructor]]];
      unfold demo_create, demo_insert_row, demo_select; cbn [snd]; apply demo_parse_ok; vm_compute; reflexivity. }
  assert (Hc : chain ((Begin demo_m0).1, []) demo_work.*1 ((Begin demo_m0).1, [])).
  { do 3 (exists []; split; [apply rtc_refl|]). apply rtc_refl. }
  assert (Hb : m_lastSeq (Begin demo_m0).1 + 2 < 2 ^ 64) by (vm_compute; reflexivity).
  pose proof (sql_transaction demo_m0 [] ∅ demo_work (Begin demo_m0).1 [] [1] demo_m0_reachable demo_m0_empty
    (map_Forall_empty _) Hw Hc ltac:(by apply wf_bytes_compute) (λ d Hd, False_ind _ (not_elem_of_nil d Hd)) Hb) as H.
  destruct H as [H _]. split; [vm_compute; reflexivity|exact H].
Defined.
