(* ===== verification/SqlReplicated.v ===== *)
(** * The replicated SQL engine ([internal/sql/engine.go])

    The engine of a replicated database keeps a transaction's writes itself
    and uses four operations of its node: a read index with a lease, the
    state machine, [Propose], and the release of the lease.  They are a class,
    and what the node promises about them a class of laws, so that the engine
    is verified against any node that keeps them. *)

From Stdlib Require Import String.
From S2P Require Import Prelude Bytes GoSort Hash Mvcc MvccSpec FsmCommand Fsm FsmSpec FsmSnapshot WalRecord Wal Txn TxnSpec SqlSyntax SqlSyntaxSpec SqlRow SqlExec SqlWrites SqlExecSpec SqlStandalone.

(** ** What the engine uses of a node *)

Class NodeClient (W : Type) := {
  nc_fsm : W → FSM;
  nc_BeginReadIndex : W → W * result node_call_error (Z * Z);
  nc_Propose : W → CommitTxnCommand → W * result node_call_error Outcome;
  nc_Release : W → Z → W
}.

(** ** The engine *)

(** [rt_lease] is the identifier of the lease; [rt_writes] is nil after
    [Abort]. *)
Record replicatedTxn := mkReplicatedTxn {
  rt_startSeq : Z;
  rt_lease : Z;
  rt_writes : option (gmap bytes Mutation);
  rt_order : list bytes
}.

(** [hash/fnv.New64a] of the identifier. *)
Definition txnIDFromRequestID (requestID : bytes) : Z :=
  foldl (λ h b, u64 (Z.lxor h b * 1099511628211)) 14695981039346656037 requestID.

Definition rt_own (t : replicatedTxn) (key : bytes) : option Mutation := rt_writes t ≫= (.!! key).

Definition rt_mutations (t : replicatedTxn) : list Mutation :=
  (λ k, default (mkMutation [] [] false) (rt_own t k)) <$> rt_order t.

(** Assigning to a nil map panics. *)
Definition recordWrite (t : replicatedTxn) (key value : bytes) (tombstone : bool) : result sql_error replicatedTxn :=
  let order := match rt_own t key with Some _ => rt_order t | None => rt_order t ++ [key] end in
  match rt_writes t with
  | None => Err SqlPanic
  | Some ws =>
      Ok (mkReplicatedTxn (rt_startSeq t) (rt_lease t) (Some (<[key := mkMutation key value tombstone]> ws)) order)
  end.

(** What [Commit] makes of the outcome that [Propose] returned. *)
Definition replicated_commit_result (outcome : Outcome) : result sql_error Z :=
  if bool_decide (o_Status outcome = StatusAborted) then Err (SqlSentinel ErrSqlConflict)
  else Ok (o_CommitSeq outcome).

Section engine.
  Context {W : Type} `{!NodeClient W}.

Definition replicated_Read (w : W) (t : replicatedTxn) (key : bytes) : result sql_error (option bytes) :=
  match rt_own t key with
  | Some m => Ok (if MTombstone m then None else Some (MValue m))
  | None => match Visible (f_store (nc_fsm w)) key (rt_startSeq t) with
            | Ok v => Ok v
            | Err e => Err (SqlTxnErr (ErrTxnStore e))
            end
  end.

Definition replicated_ScanPrefix (w : W) (t : replicatedTxn) (prefix : bytes)
    : result sql_error (list (bytes * bytes)) :=
  match ScanVisible (f_store (nc_fsm w)) prefix (rt_startSeq t) with
  | Err e => Err (SqlTxnErr (ErrTxnStore e))
  | Ok committed => Ok (mergeLocalWrites prefix committed (rt_mutations t))
  end.

Definition rt_command (t : replicatedTxn) (requestID : bytes) : CommitTxnCommand :=
  mkCommitTxn requestID (txnIDFromRequestID requestID) (rt_startSeq t) (rt_mutations t).

(** The lease is released last, however [Commit] ends. *)
Definition replicated_Commit (w : W) (t : replicatedTxn) (requestID : bytes) : W * result sql_error Z :=
  if bool_decide (rt_mutations t = []) then (nc_Release w (rt_lease t), Ok (rt_startSeq t)) else
  let '(w, r) := nc_Propose w (rt_command t requestID) in
  (nc_Release w (rt_lease t),
   match r with Err e => Err (SqlNodeErr e) | Ok outcome => replicated_commit_result outcome end).

#[export] Instance replicated_txn : SqlTxn W replicatedTxn := {|
  tx_Read := replicated_Read;
  tx_ScanPrefix := replicated_ScanPrefix;
  tx_Write t key value := recordWrite t key value false;
  tx_Delete t key := recordWrite t key [] true;
  tx_Commit := replicated_Commit;
  tx_Abort w t := (nc_Release w (rt_lease t), Ok tt)
|}.

Definition replicated_Begin (w : W) : W * result sql_error replicatedTxn :=
  match nc_BeginReadIndex w with
  | (w, Err e) => (w, Err (SqlNodeErr e))
  | (w, Ok (startSeq, lease)) => (w, Ok (mkReplicatedTxn startSeq lease (Some ∅) []))
  end.

Definition replicated_LookupOutcome (w : W) (requestID : bytes) : option RequestOutcome :=
  match GetOutcome (nc_fsm w) requestID with
  | None => None
  | Some outcome => Some (mkRequestOutcome (bool_decide (o_Status outcome = StatusCommitted)) (o_CommitSeq outcome))
  end.

#[export] Instance replicated_engine : Engine W replicatedTxn := {|
  eng_Begin := replicated_Begin;
  eng_LookupOutcome := replicated_LookupOutcome
|}.
End engine.

(** ** What a node promises

    [run_of] is the run of the replicated state machine as far as this node
    has applied it.  Other clients' commands, garbage collection and changes
    of leadership happen inside the calls.  A read index covers everything
    that was decided before the call; an outcome is what the state machine has
    recorded for the command. *)
Class NodeClientLaws (W : Type) `{!NodeClient W} := {
  valid : W → Prop;
  run_of : W → run_state;
  law_run w : valid w → fsm_reachable (run_of w) ∧ r_fsm (run_of w) = nc_fsm w;
  law_begin w w' r :
    valid w → nc_BeginReadIndex w = (w', r) →
    valid w' ∧ rtc fsm_step (run_of w) (run_of w') ∧
    match r with
    | Ok (seq, _) => is_u64 seq ∧ seq ≤ r_last (run_of w') ∧ Forall (λ d, d_index d ≤ seq) (r_trace (run_of w))
    | Err _ => True
    end;
  law_propose w cmd w' r :
    valid w → nc_Propose w cmd = (w', r) →
    valid w' ∧ rtc fsm_step (run_of w) (run_of w') ∧
    match r with Ok o => Precheck (nc_fsm w') cmd = Ok o | Err _ => True end;
  law_release w id : valid w → valid (nc_Release w id) ∧ run_of (nc_Release w id) = run_of w
}.

Section spec.
  Context {W : Type} `{!NodeClient W, !NodeClientLaws W}.

(** The committed data of the snapshot at [seq]. *)
Definition snapshot_of (w : W) (seq : Z) : gmap bytes bytes := db_at (history_of (r_trace (run_of w))) seq.

(** The snapshot is still served: garbage collection has not passed it. *)
Definition served_at (w : W) (seq : Z) : Prop := f_gcWatermark (nc_fsm w) ≤ seq.

#[export] Instance served_at_dec w seq : Decision (served_at w seq).
Proof. unfold served_at. apply _. Defined.

Lemma valid_visible w k seq :
  valid w → Visible (f_store (nc_fsm w)) k seq =
    if decide (served_at w seq) then Ok (snapshot_of w seq !! k) else Err ErrSnapshotTooOld.
Proof using Type*.
  intros Hv. destruct (law_run w Hv) as [Hr%fsm_reachable_inv He]. pose proof (fi_store _ Hr) as Hs.
  pose proof (fi_horizon _ Hr) as Hh. rewrite He in Hs, Hh. case_decide as Hw; unfold served_at in Hw.
  - apply refines_visible; [done|]. by rewrite Hh.
  - unfold Visible. by rewrite (refines_too_old _ _ _ Hs) by lia.
Qed.

Lemma valid_scan w prefix seq :
  valid w → served_at w seq →
  ∃ rows, ScanVisible (f_store (nc_fsm w)) prefix seq = Ok rows ∧ StronglySorted blt rows.*1 ∧
    ∀ k v, (k, v) ∈ rows ↔ snapshot_of w seq !! k = Some v ∧ prefix `prefix_of` k.
Proof using Type*.
  intros Hv Hw. unfold served_at in Hw. destruct (law_run w Hv) as [Hr%fsm_reachable_inv He]. rewrite <- He in *.
  apply refines_scan; [apply Hr|]. by rewrite (fi_horizon _ Hr).
Qed.

(** What the transaction opened at [seq] with [lease] sees. *)
Record open_sees (seq lease : Z) (w : W) (t : replicatedTxn) (kv : gmap bytes bytes) : Prop := {
  os_valid : valid w;
  os_start : rt_startSeq t = seq;
  os_lease : rt_lease t = lease;
  os_served : served_at w seq;
  os_applied : seq ≤ r_last (run_of w);
  os_writes : ∃ ws, rt_writes t = Some ws ∧ writes_ok ws (rt_order t) ∧
    ∀ k, kv !! k = match ws !! k with Some m => mutation_value m | None => snapshot_of w seq !! k end
}.

Lemma rt_mutations_local t ws : rt_writes t = Some ws → rt_mutations t = local_writes ws (rt_order t).
Proof. intros H. unfold rt_mutations, rt_own. by rewrite H. Qed.

Lemma open_record seq lease w t kv m :
  open_sees seq lease w t kv →
  ∃ t', recordWrite t (Key m) (MValue m) (MTombstone m) = Ok t' ∧ open_sees seq lease w t' (apply_mutation kv m).
Proof using Type*.
  intros [Hv Hst Hl Hs Ha (ws & Hw & Hok & Hkv)]. unfold recordWrite, rt_own. rewrite Hw. cbn [mbind option_bind].
  eexists. split; [reflexivity|]. constructor; [done..|]. exists (<[Key m := m]> ws). cbn. split; [by destruct m|]. split.
  - pose proof (writes_ok_record ws (rt_order t) m Hok) as H.
    destruct (ws !! Key m) eqn:E; [by rewrite decide_True in H by eauto|by rewrite decide_False in H by by intros []].
  - intros k. unfold apply_mutation, mutation_value. destruct (decide (Key m = k)) as [<-|Hne].
    + rewrite lookup_insert_eq. destruct (MTombstone m); [by rewrite lookup_delete_eq|by rewrite lookup_insert_eq].
    + rewrite lookup_insert_ne, <- Hkv by done.
      destruct (MTombstone m); [by rewrite lookup_delete_ne|by rewrite lookup_insert_ne].
Qed.

(** An open transaction whose snapshot is served keeps the laws of an
    engine. *)
#[export] Program Instance replicated_laws (seq lease : Z) : EngineLaws W replicatedTxn := {| sees := open_sees seq lease |}.
Next Obligation.
  intros seq lease w t kv k [Hv <- Hl Hs Ha (ws & Hw & Hok & Hkv)]. cbn. unfold replicated_Read, rt_own. rewrite Hw.
  cbn [mbind option_bind]. rewrite Hkv, valid_visible, decide_True by done. by destruct (ws !! k).
Qed.
Next Obligation.
  intros seq lease w t kv p [Hv <- Hl Hs Ha (ws & Hw & Hok & Hkv)]. cbn. unfold replicated_ScanPrefix.
  destruct (valid_scan w p _ Hv Hs) as (rows & -> & Hsort & Hel). rewrite (rt_mutations_local t ws Hw).
  destruct (merge_scan _ _ Hok p rows _ Hsort Hel) as [H1 H2]. eexists. split; [reflexivity|]. split; [done|].
  intros k b. by rewrite H2, Hkv.
Qed.
Next Obligation.
  intros seq lease w t kv k b Hs _ _. by apply (open_record seq lease w t kv (mkMutation k b false)).
Qed.
Next Obligation.
  intros seq lease w t kv k Hs _. by apply (open_record seq lease w t kv (mkMutation k [] true)).
Qed.

(** ** Sessions over time *)

Lemma open_begin w w1 seq lease :
  valid w → nc_BeginReadIndex w = (w1, Ok (seq, lease)) → served_at w1 seq →
  open_sees seq lease w1 (mkReplicatedTxn seq lease (Some ∅) []) (snapshot_of w1 seq).
Proof using Type*.
  intros Hv Hb Hs. destruct (law_begin _ _ _ Hv Hb) as (Hv1 & _ & _ & Hl & _).
  constructor; [done..|]. exists ∅. split; [done|]. split; [apply writes_ok_empty|]. intros k. by rewrite lookup_empty.
Qed.

(** What a run decides later is later. *)
Lemma run_grows r r' :
  rtc fsm_step r r' → r_last r ≤ r_last r' ∧
  ∃ new, r_trace r' = r_trace r ++ new ∧ Forall (λ d, r_last r < d_index d) new.
Proof.
  induction 1 as [|x y z Hxy _ (IH1 & new & IH2 & IH3)]; [split; [done|]; exists []; by rewrite app_nil_r|].
  assert (Hy : r_last x ≤ r_last y ∧ ∃ new1, r_trace y = r_trace x ++ new1 ∧ Forall (λ d, r_last x < d_index d) new1).
  { destruct Hxy; cbn; (split; [lia|]); [eexists; split; [done|]; by repeat constructor|..]; exists []; by rewrite app_nil_r. }
  destruct Hy as (Hl & new1 & Ht & Hn). split; [lia|]. exists (new1 ++ new). rewrite IH2, Ht, app_assoc. split; [done|].
  apply Forall_app. split; [done|]. eapply Forall_impl; [exact IH3|]. cbn. lia.
Qed.

Lemma snapshot_stable w w' seq :
  rtc fsm_step (run_of w) (run_of w') → seq ≤ r_last (run_of w) → snapshot_of w' seq = snapshot_of w seq.
Proof using Type*.
  intros Hs Hl. destruct (run_grows _ _ Hs) as (_ & new & Ht & Hn). unfold snapshot_of. rewrite Ht, db_at_extend; [done|].
  eapply Forall_impl; [exact Hn|]. cbn. lia.
Qed.

Lemma open_later seq lease w w' t kv :
  open_sees seq lease w t kv → valid w' → rtc fsm_step (run_of w) (run_of w') → served_at w' seq →
  open_sees seq lease w' t kv.
Proof using Type*.
  intros [Hv <- Hl Hs Ha (ws & Hw & Hok & Hkv)] Hv' Hst Hs'. destruct (run_grows _ _ Hst) as (Hle & _).
  constructor; [done..|lia|]. exists ws. split; [done|]. split; [done|]. intros k.
  by rewrite Hkv, (snapshot_stable w w').
Qed.

(** The write set turns the snapshot into what the transaction sees. *)
Lemma open_write_set seq lease w t kv :
  open_sees seq lease w t kv → foldl apply_mutation (snapshot_of w seq) (rt_mutations t) = kv.
Proof using Type*.
  intros [_ <- _ _ _ (ws & Hw & Hok & Hkv)]. apply map_eq. intros k.
  by rewrite (rt_mutations_local t ws Hw), (apply_local_writes _ _ Hok), Hkv.
Qed.

(** ** Committing *)

(** What the client learns of a command that was proposed. *)
Definition decided_answer (o : Outcome) (index : Z) : result sql_error Z :=
  match o_Status o with
  | StatusCommitted => Ok index
  | StatusAborted => Err (SqlSentinel ErrSqlConflict)
  | StatusAbortedStale => Ok (o_CommitSeq o)
  end.

Inductive commit_reply (w : W) (cmd : CommitTxnCommand) (lease : Z) : W → result sql_error Z → Prop :=
| reply_readonly : c_Mutations cmd = [] → commit_reply w cmd lease (nc_Release w lease) (Ok (c_StartSeq cmd))
| reply_failed w' e :
    c_Mutations cmd ≠ [] → nc_Propose w cmd = (w', Err e) →
    commit_reply w cmd lease (nc_Release w' lease) (Err (SqlNodeErr e))
| reply_decided w' d :
    c_Mutations cmd ≠ [] → nc_Propose w cmd = (w', Ok (d_outcome d)) →
    d ∈ r_trace (run_of w') → c_RequestID (d_cmd d) = c_RequestID cmd →
    fingerprintOf (d_cmd d) = fingerprintOf cmd →
    commit_reply w cmd lease (nc_Release w' lease) (decided_answer (d_outcome d) (d_index d)).

Lemma commit_replies w t req w' r :
  valid w → replicated_Commit w t req = (w', r) → commit_reply w (rt_command t req) (rt_lease t) w' r.
Proof using Type*.
  intros Hv. unfold replicated_Commit. case_bool_decide as He; [intros [= <- <-]; by apply reply_readonly|].
  destruct (nc_Propose w (rt_command t req)) as [w1 [o|e]] eqn:Hp; intros [= <- <-]; [|by apply reply_failed].
  destruct (law_propose _ _ _ _ Hv Hp) as (Hv1 & _ & Hpre). destruct (law_run _ Hv1) as [Hr%fsm_reachable_inv Hf].
  unfold Precheck, lookupLocked in Hpre. destruct (f_outcomes (nc_fsm w1) !! _) as [e|] eqn:Hout; [|done].
  case_bool_decide as Hfp; [|done]. injection Hpre as Ho. rewrite <- Hf in Hout.
  apply (fi_outcomes _ Hr) in Hout as (d & Hd & Hid & ->). cbn in Ho, Hfp. subst o.
  assert (Hres : replicated_commit_result (d_outcome d) = decided_answer (d_outcome d) (d_index d)).
  { pose proof (proj2 (proj1 (Forall_forall _ _) (fi_shape _ Hr) d Hd)) as Hsh. unfold is_committed in Hsh.
    unfold replicated_commit_result, decided_answer. destruct (o_Status (d_outcome d)); cbn; [|done..].
    by rewrite Hsh. }
  rewrite Hres. by eapply reply_decided.
Qed.

(** ** Statements *)

(** The answer to a statement executed on its own at the snapshot [seq], which
    stores [db]. *)
Inductive replicated_answer (w : W) (seq lease : Z) (db : tables) (stmt : Statement) (req : bytes)
    : W → result sql_error Result → Prop :=
| ra_retry o :
    isMutatingStatement stmt = true → GetOutcome (nc_fsm w) req = Some o →
    replicated_answer w seq lease db stmt req (nc_Release w lease)
      (mutationRetryResult stmt (mkRequestOutcome (bool_decide (o_Status o = StatusCommitted)) (o_CommitSeq o)))
| ra_error e :
    abs_exec db stmt = Err e → replicated_answer w seq lease db stmt req (nc_Release w lease) (Err e)
| ra_reply db' res ms w' r :
    abs_exec db stmt = Ok (db', res) → tables_ok db' → represents (foldl apply_mutation (snapshot_of w seq) ms) db' →
    (isMutatingStatement stmt = false → ms = []) →
    commit_reply w (mkCommitTxn req (txnIDFromRequestID req) seq ms) lease w' r →
    replicated_answer w seq lease db stmt req w'
      (match r with Ok s => Ok (with_seq res s) | Err e => Err e end).

Lemma open_replies seq lease w t kv db db' res stmt req :
  open_sees seq lease w t kv → abs_exec db stmt = Ok (db', res) → tables_ok db' → represents kv db' →
  (isMutatingStatement stmt = false → rt_mutations t = []) →
  replicated_answer w seq lease db stmt req (replicated_Commit w t req).1
    (match (replicated_Commit w t req).2 with Ok s => Ok (with_seq res s) | Err e => Err e end).
Proof using Type*.
  intros Hs Habs Hok Hrep Hro. eapply (ra_reply _ _ _ _ _ _ db' res (rt_mutations t)); [done|done| |done|].
  { by rewrite (open_write_set _ _ _ _ _ Hs). }
  destruct Hs as [Hv <- <- _ _ _]. apply (commit_replies w t req); [done|]. by destruct (replicated_Commit w t req).
Qed.


(** The states of the node the statements of a transaction meet: anything
    happens in between, but the snapshot stays served. *)
Fixpoint later (seq : Z) (w : W) (ws : list W) : Prop :=
  match ws with
  | [] => True
  | w' :: ws => valid w' ∧ rtc fsm_step (run_of w) (run_of w') ∧ served_at w' seq ∧ later seq w' ws
  end.

Lemma explicit_statement seq lease w t kv db stmt :
  open_sees seq lease w t kv → represents kv db → tables_ok db → statement_ok stmt → is_dml stmt = true →
  match abs_exec db stmt with
  | Err e => dispatch w (Some t) stmt [] = (nc_Release w lease, None, Err e)
  | Ok (db', res) => ∃ t' kv', dispatch w (Some t) stmt [] = (w, Some t', Ok res) ∧
      open_sees seq lease w t' kv' ∧ represents kv' db' ∧ tables_ok db'
  end.
Proof using Type*.
  intros Hs Hrep Hok Hst Hd. pose proof (os_lease _ _ _ _ _ Hs) as <-.
  pose proof (@execOne_refines _ _ _ (replicated_laws seq (rt_lease t)) w t kv db stmt Hs Hrep Hok Hst) as H.
  assert (Hdis : dispatch w (Some t) stmt [] = executeDML w (Some t) stmt []) by (by destruct stmt).
  rewrite Hdis. unfold executeDML. cbn [negb andb]. unfold refines_abs in H.
  destruct (abs_exec db stmt) as [[db' res]|e]; [|by destruct H as [-> _]].
  destruct H as (t' & kv' & He & Hs' & H1 & H2). exists t', kv'. by rewrite He.
Qed.

Lemma run_open seq lease snap work w t kv db :
  open_sees seq lease w t kv → snapshot_of w seq = snap → represents kv db → tables_ok db →
  Forall (λ x, statement_ok x.2 ∧ is_dml x.2 = true) work → later seq w work.*1 →
  (run_explicit t work).2 = (abs_run db work.*2).2 ∧
  match (run_explicit t work).1, (abs_run db work.*2).1 with
  | Some t', Some db' => ∃ w' kv', open_sees seq lease w' t' kv' ∧ snapshot_of w' seq = snap ∧ represents kv' db' ∧ tables_ok db'
  | None, None => True
  | _, _ => False
  end.
Proof using Type*.
  revert w t kv db. induction work as [|[w1 stmt] work IH]; intros w t kv db Hs Hsnap Hrep Hok Hw Hl.
  { split; [done|]. by exists w, kv. }
  destruct Hl as (Hv1 & Hst & Hserved & Hl). apply Forall_cons in Hw as [[Hso Hd] Hw].
  pose proof (open_later _ _ _ w1 _ _ Hs Hv1 Hst Hserved) as Hs1.
  assert (Hsnap1 : snapshot_of w1 seq = snap) by (rewrite <- Hsnap; apply snapshot_stable; [done|apply Hs]).
  pose proof (explicit_statement _ _ _ _ _ _ _ Hs1 Hrep Hok Hso Hd) as H.
  cbn [fmap list_fmap run_explicit abs_run fst snd] in *. change (list_fmap _ _ snd work) with (work.*2).
  destruct (abs_exec db stmt) as [[db' res]|e]; [|by rewrite H].
  destruct H as (t' & kv' & -> & Hs' & Hrep' & Hok').
  destruct (IH _ _ _ _ Hs' Hsnap1 Hrep' Hok' Hw Hl) as [H1 H2].
  destruct (run_explicit t' work), (abs_run db' work.*2). cbn in *. by rewrite H1.
Qed.

(** The statements of an explicit transaction answer as they would on the
    relational database of its snapshot with its own changes, whatever is
    committed in between, and COMMIT proposes exactly the difference. *)
Theorem sql_replicated_transaction w0 w1 seq lease db work :
  valid w0 → nc_BeginReadIndex w0 = (w1, Ok (seq, lease)) → served_at w1 seq →
  represents (snapshot_of w1 seq) db → tables_ok db →
  Forall (λ x, statement_ok x.2 ∧ is_dml x.2 = true) work → later seq w1 work.*1 →
  let t0 := mkReplicatedTxn seq lease (Some ∅) [] in
  dispatch w0 None BeginStmt [] = (w1, Some t0, Ok (ok_result 0)) ∧
  (run_explicit t0 work).2 = (abs_run db work.*2).2 ∧
  match (run_explicit t0 work).1, (abs_run db work.*2).1 with
  | Some t, Some db' =>
      tables_ok db' ∧ represents (foldl apply_mutation (snapshot_of w1 seq) (rt_mutations t)) db' ∧
      ∀ w req, valid w → ∃ w' r,
        dispatch w (Some t) CommitStmt req =
          (w', None, match r with Ok s => Ok (mkResult ResultOK 0 [] [] s) | Err e => Err e end) ∧
        commit_reply w (mkCommitTxn req (txnIDFromRequestID req) seq (rt_mutations t)) lease w' r
  | None, None => True
  | _, _ => False
  end.
Proof using Type*.
  intros Hv Hb Hserved Hrep Hok Hwork Hlater. cbv zeta. split; [cbn; unfold replicated_Begin; by rewrite Hb|].
  pose proof (open_begin _ _ _ _ Hv Hb Hserved) as Hs.
  destruct (run_open _ _ _ _ _ _ _ _ Hs eq_refl Hrep Hok Hwork Hlater) as [H1 H2]. split; [done|].
  destruct (run_explicit _ work).1 as [t|], (abs_run db work.*2).1 as [db'|]; try done.
  destruct H2 as (w' & kv' & Hs' & <- & Hrep' & Hok'). split; [done|]. rewrite (open_write_set _ _ _ _ _ Hs').
  split; [done|]. intros w req Hvw. cbn. destruct (replicated_Commit w t req) as [w2 r] eqn:Hc.
  exists w2, r. split; [by destruct r|]. apply (commit_replies w t req) in Hc; [|done].
  destruct Hs' as [_ <- <- _ _ _]. exact Hc.
Qed.

(** A snapshot that garbage collection has passed is never read wrongly:
    every read of committed data is refused. *)
Theorem unserved_reads_refused w t k :
  valid w → ¬ served_at w (rt_startSeq t) → rt_own t k = None →
  replicated_Read w t k = Err (SqlTxnErr (ErrTxnStore ErrSnapshotTooOld)) ∧
  ∀ p, replicated_ScanPrefix w t p = Err (SqlTxnErr (ErrTxnStore ErrSnapshotTooOld)).
Proof using Type*.
  intros Hv Hs Ho. unfold replicated_Read, replicated_ScanPrefix. rewrite Ho, valid_visible, decide_False by done.
  split; [done|]. intros p. destruct (law_run w Hv) as [Hr%fsm_reachable_inv He]. unfold served_at in Hs.
  pose proof (fi_horizon _ Hr) as Hh. pose proof (fi_store _ Hr) as Hst. rewrite He in Hh, Hst.
  unfold ScanVisible. by rewrite (refines_too_old _ _ _ Hst) by lia.
Qed.
End spec.

(** ** A node on its own

    A node without peers applies what it is proposed at once: an instance of
    the laws. *)
Record solo := mkSolo { so_run : run_state; so_leases : gset Z; so_next : Z }.

Definition solo_apply (w : solo) (cmd : CommitTxnCommand) : solo * result node_call_error Outcome :=
  let r := so_run w in
  let i := r_last r + 1 in
  match Apply (r_fsm r) i cmd with
  | Err _ => (w, Err CallRequestMismatch)
  | Ok (f', o) =>
      let t := match f_outcomes (r_fsm r) !! c_RequestID cmd with
               | None => r_trace r ++ [mkDecided i cmd o]
               | Some _ => r_trace r
               end in
      (mkSolo (mkRun f' i t) (so_leases w) (so_next w), Ok o)
  end.

#[export] Instance solo_client : NodeClient solo := {|
  nc_fsm w := r_fsm (so_run w);
  nc_BeginReadIndex w :=
    if r_last (so_run w) <? 2 ^ 64
    then (mkSolo (so_run w) (so_leases w ∪ {[so_next w]}) (so_next w + 1), Ok (r_last (so_run w), so_next w))
    else (w, Err CallStopped);
  nc_Propose := solo_apply;
  nc_Release w id := mkSolo (so_run w) (so_leases w ∖ {[id]}) (so_next w)
|}.

Lemma solo_apply_ok w cmd w' r :
  fsm_reachable (so_run w) → solo_apply w cmd = (w', r) →
  fsm_reachable (so_run w') ∧ rtc fsm_step (so_run w) (so_run w') ∧
  match r with Ok o => Precheck (r_fsm (so_run w')) cmd = Ok o | Err _ => True end.
Proof.
  intros Hr. unfold solo_apply. destruct (so_run w) as [f last t] eqn:Hw. cbn.
  destruct (Apply f (last + 1) cmd) as [[f' o]|e] eqn:HA; intros [= <- <-]; [|by rewrite Hw].
  cbn. destruct (f_outcomes f !! c_RequestID cmd) as [e|] eqn:He.
  - assert (Hst : fsm_step (mkRun f last t) (mkRun f' (last + 1) t)) by (eapply step_txn_retry; [lia|done|done]).
    split; [eapply rtc_r; [exact Hr|exact Hst]|]. split; [by apply rtc_once|].
    destruct (Apply_recorded _ _ _ _ _ _ He HA) as (-> & -> & Hfp). unfold Precheck, lookupLocked.
    by rewrite He, bool_decide_true.
  - assert (Hst : fsm_step (mkRun f last t) (mkRun f' (last + 1) (t ++ [mkDecided (last + 1) cmd o]))).
    { apply step_txn_fresh; [lia|done|done]. }
    split; [eapply rtc_r; [exact Hr|exact Hst]|]. split; [by apply rtc_once|]. unfold Precheck, lookupLocked.
    assert (Hf' : f_outcomes f' !! c_RequestID cmd = Some (mkOutcomeEntry o (fingerprintOf cmd))).
    { destruct (Apply_fresh _ _ _ _ _ He HA) as [(_ & _ & ->)|[(?&?&_&_&_&->)|(?&_&_&_&_&->)]]; cbn; apply lookup_insert_eq. }
    by rewrite Hf', bool_decide_true.
Qed.

#[export] Program Instance solo_laws : NodeClientLaws solo := {|
  valid w := fsm_reachable (so_run w) ∧ 0 ≤ r_last (so_run w);
  run_of := so_run
|}.
Next Obligation. intros w [Hr _]. done. Qed.
Next Obligation.
  intros w w' r [Hr H0]. cbn. destruct (Z.ltb_spec (r_last (so_run w)) (2 ^ 64)); intros [= <- <-]; cbn; [|done].
  split; [done|]. split; [done|]. split; [unfold is_u64; lia|]. split; [done|]. apply fsm_reachable_inv in Hr. apply Hr.
Qed.
Next Obligation.
  intros w cmd w' r [Hr H0] Ha. destruct (solo_apply_ok _ _ _ _ Hr Ha) as (H1 & H2 & H3).
  split; [|done]. split; [done|]. destruct (run_grows _ _ H2). lia.
Qed.
Next Obligation. done. Qed.

(** A table created on a new node: the statement commits at index 1. *)
Definition demo_solo : solo := mkSolo fsm_initial ∅ 0.
Definition demo_solo_leased : solo := (nc_BeginReadIndex demo_solo).1.


(** ** Finding

    [Commit] turns only [StatusAborted] into an error.  An outcome
    [StatusAbortedStale], which [Apply] gives a command whose snapshot is below
    the garbage-collection watermark and which wrote nothing, is reported to
    the client as a commit at sequence 0. *)
Theorem replicated_commit_reports_stale_abort_as_success f index cmd f' outcome :
  Apply f index cmd = Ok (f', outcome) → f_outcomes f !! c_RequestID cmd = None → c_StartSeq cmd < f_gcWatermark f →
  f_store f' = f_store f ∧ o_Status outcome = StatusAbortedStale ∧ replicated_commit_result outcome = Ok 0.
Proof.
  intros Ha Hn Hw. destruct (Apply_fresh _ _ _ _ _ Hn Ha) as [(_ & -> & ->)|[(k & l & Hge & _)|(s & Hge & _)]]; [done|lia|lia].
Qed.
