(* ===== verification/Snapshot.v ===== *)
(** * Snapshot files ([internal/snapshot/snapshot.go], [manager.go], [scrub.go])

    A snapshot is one framed and checksummed byte string: the log position it
    stands for, the cluster configuration from format version 2 on, and the
    encoded state machine.  [Manager] keeps such files in a directory, one per
    log index, and [Load] finds the newest trustworthy one. *)

From S2P Require Import Prelude Bytes Hash Scrub Mvcc FsmCommand Fsm FsmSnapshot.

(** ** Data *)

Record SnapMember := mkSnapMember { sm_ID : bytes; sm_Address : bytes }.
Record SnapConfiguration := mkSnapConfiguration {
  sc_Voters : list SnapMember; sc_Learners : list SnapMember
}.
Definition zero_SnapConfiguration : SnapConfiguration := mkSnapConfiguration [] [].

Record Meta := mkMeta {
  LastIncludedIndex : Z;
  LastIncludedTerm : Z;
  HasConfiguration : bool;
  meta_Configuration : SnapConfiguration
}.

Record Snapshot := mkSnapshot { snap_Meta : Meta; snap_FSM : FSM }.

Inductive snapshot_error :=
| ErrCorruptSnapshot
| ErrUnsupportedSnapshotVersion
| SnapshotPanic.
#[export] Instance snapshot_panicking : Panicking snapshot_error := SnapshotPanic.

Definition SnapFormatVersion : Z := 2.
Definition MinReadVersion : Z := 1.
(** "CSNP" *)
Definition magic : bytes := [67; 83; 78; 80].
Definition snapHeaderSize : Z := 4 + 1 + 8 + 8 + 8.
Definition snapChecksumSize : Z := 4.

(** ** Encoding *)

Definition put_member (m : SnapMember) : bytes :=
  put_u32 (zlen (sm_ID m)) ++ sm_ID m ++ put_u32 (zlen (sm_Address m)) ++ sm_Address m.

Definition putMembers (members : list SnapMember) : bytes :=
  put_u32 (zlen members) ++ mjoin (put_member <$> members).

Definition encodeSnapConfiguration (cfg : SnapConfiguration) : bytes :=
  putMembers (sc_Voters cfg) ++ putMembers (sc_Learners cfg).

Definition encodeConfigSection (hasConfig : bool) (cfg : SnapConfiguration) : bytes :=
  let cfgBytes := if hasConfig then encodeSnapConfiguration cfg else [] in
  [if hasConfig then 1 else 0] ++ put_u64 (zlen cfgBytes) ++ cfgBytes.

(** The frame without its checksum. *)
Definition snap_frame_body (meta : Meta) (f : FSM) (writeVersion : Z) : bytes :=
  let state := EncodeState f in
  let configSection :=
    if 2 <=? writeVersion then encodeConfigSection (HasConfiguration meta) (meta_Configuration meta) else [] in
  magic ++ [writeVersion] ++ put_u64 (LastIncludedIndex meta) ++ put_u64 (LastIncludedTerm meta) ++
  put_u64 (zlen state) ++ state ++ configSection.

Definition Encode (meta : Meta) (f : FSM) (writeVersion : Z) : result snapshot_error bytes :=
  if (writeVersion <? MinReadVersion) || (SnapFormatVersion <? writeVersion) then Err SnapshotPanic else
  let body := snap_frame_body meta f writeVersion in
  Ok (body ++ put_u32 (crc32 body)).

(** ** Decoding *)

Definition corrupt {A} : result snapshot_error A := Err ErrCorruptSnapshot.

Definition get_member (b : bytes) : result snapshot_error (SnapMember * bytes) :=
  if zlen b <? 4 then corrupt else
  '(idLen, b) ← u32_at b;
  if zlen b <? idLen then corrupt else
  '(id, b) ← slice_at idLen b;
  if zlen b <? 4 then corrupt else
  '(addrLen, b) ← u32_at b;
  if zlen b <? addrLen then corrupt else
  '(addr, b) ← slice_at addrLen b;
  Ok (mkSnapMember id addr, b).

Definition minMemberSize : Z := 4 + 4.

Definition getMembers (b : bytes) : result snapshot_error (list SnapMember * bytes) :=
  if zlen b <? 4 then corrupt else
  '(count, b) ← u32_at b;
  if u32 (zlen b / minMemberSize) <? count then corrupt else
  decode_n (Z.to_nat count) get_member b.

Definition decodeSnapConfiguration (b : bytes) : result snapshot_error SnapConfiguration :=
  '(voters, b) ← getMembers b;
  '(learners, b) ← getMembers b;
  if negb (zlen b =? 0) then corrupt else
  Ok (mkSnapConfiguration voters learners).

(** The configuration section of a version 2 frame, and what follows it. *)
Definition decode_config_section (b : bytes) : result snapshot_error (bool * SnapConfiguration * bytes) :=
  if zlen b - snapChecksumSize <? 9 then corrupt else
  '(hasConfigByte, b) ← u8_at b;
  '(configLen, b) ← u64_at b;
  if negb ((hasConfigByte =? 0) || (hasConfigByte =? 1)) then corrupt else
  if (hasConfigByte =? 0) && negb (configLen =? 0) then corrupt else
  if (hasConfigByte =? 1) && (configLen =? 0) then corrupt else
  if u64 (zlen b - snapChecksumSize) <? configLen then corrupt else
  '(section, b) ← slice_at configLen b;
  if hasConfigByte =? 1 then
    cfg ← decodeSnapConfiguration section;
    Ok (true, cfg, b)
  else Ok (false, zero_SnapConfiguration, b).

Definition Decode (data : bytes) : result snapshot_error Snapshot :=
  if zlen data <? snapHeaderSize + snapChecksumSize then corrupt else
  '(mg, b) ← slice_at 4 data;
  if negb (bool_decide (mg = magic)) then corrupt else
  '(version, b) ← u8_at b;
  if SnapFormatVersion <? version then Err ErrUnsupportedSnapshotVersion else
  if version <? MinReadVersion then Err ErrUnsupportedSnapshotVersion else
  '(index, b) ← u64_at b;
  '(term, b) ← u64_at b;
  '(stateLen, b) ← u64_at b;
  if u64 (zlen b - snapChecksumSize) <? stateLen then corrupt else
  '(state, b) ← slice_at stateLen b;
  '(hasConfig, cfg, b) ← (if 2 <=? version then decode_config_section b else Ok (false, zero_SnapConfiguration, b));
  if negb (zlen b =? snapChecksumSize) then corrupt else
  '(wantCRC, _) ← u32_at b;
  if negb (crc32 (take (Z.to_nat (zlen data - zlen b)) data) =? wantCRC) then corrupt else
  match DecodeState state with
  | Err FsmPanic => Err SnapshotPanic
  | Err _ => corrupt
  | Ok (f, maxSeq) =>
      if index <? maxSeq then corrupt else
      Ok (mkSnapshot (mkMeta index term hasConfig cfg) f)
  end.

(** ** File names *)

(** ".snap" *)
Definition snapshotFileSuffix : bytes := [46; 115; 110; 97; 112].
Definition snapshotIDWidth : nat := 20.

Definition snapshotFileName (index : Z) : bytes := dec_put snapshotIDWidth index ++ snapshotFileSuffix.
#[global] Arguments snapshotFileName : simpl never.

Definition HasSuffix (s suffix : bytes) : bool :=
  bool_decide (drop (length s - length suffix) s = suffix).

(** ** The directory

    The files directly in it, by name, as the running process sees them and as
    they are on the disk: a rename or a removal is certain to have reached the
    disk only once the directory is synced.  [d_tmp] holds the contents of the
    files under [tmp/]. *)

Record Dir := mkDir { d_files : gmap bytes bytes; d_disk : gmap bytes bytes; d_tmp : list bytes }.
#[export] Instance Dir_eta : Eta Dir := λ d, mkDir (d_files d) (d_disk d) (d_tmp d).
#[export] Instance set_d_files : Setter d_files.
Proof. derive_setter. Defined.
#[export] Instance set_d_disk : Setter d_disk.
Proof. derive_setter. Defined.
#[export] Instance set_d_tmp : Setter d_tmp.
Proof. derive_setter. Defined.

Definition SyncDir (d : Dir) : Dir := d <| d_disk := d_files d |>.

(** After a crash every name has what it had before the pending operation on
    it or what it has after. *)
Definition dir_crash (d d' : Dir) : Prop :=
  d_files d' = d_disk d' ∧
  ∀ name, d_files d' !! name = d_files d !! name ∨ d_files d' !! name = d_disk d !! name.

(** [storage.WriteFileDurable]: the directory after each system call.  What a
    crash leaves of the temporary file is [torn]. *)
Definition WriteFileDurable_trace (name data torn : bytes) (d : Dir) : list Dir :=
  let d1 := d <| d_tmp := torn :: d_tmp d |> in
  let d2 := d <| d_files := <[name := data]> (d_files d) |> in
  [d; d1; d2; SyncDir d2].
Definition WriteFileDurable (name data : bytes) (d : Dir) : Dir :=
  SyncDir (d <| d_files := <[name := data]> (d_files d) |>).

(** ** The manager *)

Record SnapManager := mkSnapManager { mg_dir : Dir; mg_retainCount : Z }.
#[export] Instance SnapManager_eta : Eta SnapManager := λ m, mkSnapManager (mg_dir m) (mg_retainCount m).
#[export] Instance set_mg_dir : Setter mg_dir.
Proof. derive_setter. Defined.
#[export] Instance set_mg_retainCount : Setter mg_retainCount.
Proof. derive_setter. Defined.

Definition NewSnapManager (d : Dir) : SnapManager := mkSnapManager (d <| d_tmp := [] |>) 1.

Definition SetRetainCount (m : SnapManager) (n : Z) : option SnapManager :=
  if n <? 1 then None else Some (m <| mg_retainCount := n |>).

Record candidate := mkCandidate { c_index : Z; c_path : bytes }.

(** What the loop over the directory entries makes of one. *)
Definition candidate_of (name : bytes) : option candidate :=
  if negb (HasSuffix name snapshotFileSuffix) then None else
  let idStr := take (length name - length snapshotFileSuffix) name in
  id ← ParseUint idStr;
  Some (mkCandidate id name).

(** [os.ReadDir] lists the entries in the order of their names. *)
Definition listSnapshotCandidates (files : gmap bytes bytes) : list candidate :=
  omap (λ e, candidate_of e.1) (sorted_entries files).

Definition index_ge (a b : candidate) : Prop := c_index b ≤ c_index a.
#[export] Instance index_ge_dec : RelDecision index_ge.
Proof. intros a b. unfold index_ge. apply _. Defined.

Definition candidatesDescending (m : SnapManager) : list candidate :=
  merge_sort index_ge (listSnapshotCandidates (d_files (mg_dir m))).

Definition writeDurable (m : SnapManager) (index : Z) (data : bytes) : SnapManager :=
  m <| mg_dir := WriteFileDurable (snapshotFileName index) data (mg_dir m) |>.

(** The files [Prune] removes, in its order. *)
Definition superseded (m : SnapManager) (keepIndex : Z) : list bytes :=
  let n := if mg_retainCount m <? 1 then 1 else mg_retainCount m in
  c_path <$> filter (λ c, c_index c ≠ keepIndex) (drop (Z.to_nat n) (candidatesDescending m)).

Definition remove_file (d : Dir) (name : bytes) : Dir := d <| d_files := delete name (d_files d) |>.

Definition Prune (m : SnapManager) (keepIndex : Z) : SnapManager :=
  m <| mg_dir := SyncDir (foldl remove_file (mg_dir m) (superseded m keepIndex)) |>.

Definition Create (m : SnapManager) (meta : Meta) (f : FSM) (writeVersion : Z)
    : result snapshot_error (SnapManager * Meta) :=
  data ← Encode meta f writeVersion;
  Ok (writeDurable m (LastIncludedIndex meta) data, meta).

Definition Install (m : SnapManager) (data : bytes) : result snapshot_error (SnapManager * Snapshot) :=
  snap ← Decode data;
  Ok (writeDurable m (LastIncludedIndex (snap_Meta snap)) data, snap).

(** A candidate [Load] trusts. *)
Definition trusted (files : gmap bytes bytes) (pointerIndex : Z) (c : candidate) : option Snapshot :=
  if pointerIndex <? c_index c then None else
  data ← files !! c_path c;
  match Decode data with
  | Err _ => None
  | Ok snap => if LastIncludedIndex (snap_Meta snap) =? c_index c then Some snap else None
  end.

Fixpoint first_trusted (files : gmap bytes bytes) (pointerIndex : Z) (cs : list candidate) : option Snapshot :=
  match cs with
  | [] => None
  | c :: cs =>
      match trusted files pointerIndex c with
      | Some snap => Some snap
      | None => first_trusted files pointerIndex cs
      end
  end.

Definition Load (m : SnapManager) (pointerIndex : Z) : option Snapshot :=
  if pointerIndex =? 0 then None else
  first_trusted (d_files (mg_dir m)) pointerIndex (candidatesDescending m).

Definition Bytes (m : SnapManager) (index : Z) : option bytes :=
  d_files (mg_dir m) !! snapshotFileName index.

(** ** Scrubbing *)

Definition classifySnapshotErr (e : snapshot_error) : FindingKind :=
  match e with
  | ErrUnsupportedSnapshotVersion => FindingUnsupportedVersion
  | _ => FindingSnapshotDecodeFailed
  end.

(** What the loop reports about one file it could read. *)
Definition scrub_file (c : candidate) (data : bytes) : list Finding :=
  match Decode data with
  | Err e => [mkFinding (c_path c) 0 (classifySnapshotErr e)]
  | Ok snap =>
      if negb (LastIncludedIndex (snap_Meta snap) =? c_index c)
      then [mkFinding (c_path c) 0 FindingSnapshotDecodeFailed] else []
  end.

(** The findings and [ScrubStats]: files checked, bytes read.  A file that is
    gone when it is opened is skipped; no other read error is modelled. *)
Definition SnapshotScrub (files : gmap bytes bytes) : list Finding * (Z * Z) :=
  foldl (λ '(fs, (checked, size)) c,
    match files !! c_path c with
    | None => (fs, (checked, size))
    | Some data => (fs ++ scrub_file c data, (checked + 1, size + zlen data))
    end) ([], (0, 0)) (listSnapshotCandidates files).
