(* ===== verification/SnapshotSpec.v ===== *)
(** * What snapshot files promise

    The frame decodes to what was encoded and rejects everything else without
    reading out of range.  The directory always holds the snapshot that the
    durable pointer names, at every instant of every run with crashes. *)

From S2P Require Import Prelude Bytes Hash GoSort Scrub Mvcc FsmCommand Fsm FsmSnapshot Snapshot.

(** ** The frame *)

Definition snap_config_ok (cfg : SnapConfiguration) : Prop := zlen (encodeSnapConfiguration cfg) < 2 ^ 32.
Record meta_ok (m : Meta) : Prop := {
  mo_index : is_u64 (LastIncludedIndex m);
  mo_term : is_u64 (LastIncludedTerm m);
  mo_config : snap_config_ok (meta_Configuration m)
}.

(** What a frame of version [v] carries of [m]. *)
Definition meta_view (v : Z) (m : Meta) : Meta :=
  let has := (2 <=? v) && HasConfiguration m in
  mkMeta (LastIncludedIndex m) (LastIncludedTerm m) has
    (if has then meta_Configuration m else zero_SnapConfiguration).

Lemma get_put_member m r :
  zlen (put_member m ++ r) < 2 ^ 32 → get_member (put_member m ++ r) = Ok (m, r).
Proof.
  intros Hl. destruct m as [id addr]. unfold get_member, put_member, corrupt in *. cbn [sm_ID sm_Address] in *.
  autorewrite with zlen in Hl. zlen_facts. repeat decode_step. done.
Qed.

Lemma put_member_size m : minMemberSize ≤ zlen (put_member m).
Proof. unfold put_member, minMemberSize. zlen_lia. Qed.

Lemma get_put_members ms r :
  zlen (putMembers ms ++ r) < 2 ^ 32 → getMembers (putMembers ms ++ r) = Ok (ms, r).
Proof.
  intros Hl. unfold getMembers, putMembers, corrupt in *.
  pose proof (zlen_mjoin_ge put_member minMemberSize ms (λ x _, put_member_size x)) as Hmin.
  assert (Hn : zlen (mjoin (put_member <$> ms) ++ r) ≤ 2 ^ 32 - 1 →
    decode_n (length ms) get_member (mjoin (put_member <$> ms) ++ r) = Ok (ms, r)).
  { apply decode_n_encode_le. intros x r' Hx Hle. apply get_put_member. lia. }
  generalize dependent (mjoin (put_member <$> ms)). intros body Hl Hmin Hn. unfold minMemberSize in *.
  autorewrite with zlen in Hl. zlen_facts. repeat decode_step.
  rewrite count_guard, to_nat_zlen, Hn by (autorewrite with zlen; lia). done.
Qed.

Lemma decode_encode_snap_configuration cfg :
  snap_config_ok cfg → decodeSnapConfiguration (encodeSnapConfiguration cfg) = Ok cfg.
Proof.
  unfold snap_config_ok, decodeSnapConfiguration, encodeSnapConfiguration. destruct cfg as [vs ls]. cbn [sc_Voters sc_Learners].
  intros Hl. rewrite get_put_members by done. rewrite bind_Ok. cbv beta iota.
  rewrite <- (app_nil_r (putMembers ls)), get_put_members; [done|].
  rewrite app_nil_r. rewrite zlen_app in Hl. pose proof (zlen_nonneg (putMembers vs)). lia.
Qed.

Lemma encodeSnapConfiguration_size cfg : 8 ≤ zlen (encodeSnapConfiguration cfg).
Proof. unfold encodeSnapConfiguration, putMembers. zlen_lia. Qed.

Lemma decode_encode_section has cfg r :
  snap_config_ok cfg → zlen r = snapChecksumSize →
  decode_config_section (encodeConfigSection has cfg ++ r) =
  Ok (has, if has then cfg else zero_SnapConfiguration, r).
Proof.
  intros Hc Hr. pose proof (decode_encode_snap_configuration cfg Hc) as Hd.
  pose proof (encodeSnapConfiguration_size cfg) as Hs.
  unfold decode_config_section, encodeConfigSection, snap_config_ok, snapChecksumSize, corrupt in *. cbv zeta.
  generalize dependent (encodeSnapConfiguration cfg). intros body Hc Hd Hs.
  assert (Hu : ∀ x : Z, 0 ≤ x < 2 ^ 32 → u64 x = x) by (intros; apply u64_small; unfold is_u64; lia).
  destruct has; repeat decode_step; cbn [orb andb negb]; repeat decode_step; rewrite ?Hu by zlen_lia;
    repeat decode_step; [by rewrite Hd|]. by rewrite (slice_at_app _ [] r).
Qed.

Lemma zlen_section has cfg : snap_config_ok cfg → zlen (encodeConfigSection has cfg) < 2 ^ 33.
Proof. unfold snap_config_ok, encodeConfigSection. destruct has; intros; zlen_lia. Qed.

Lemma decode_encode_snapshot meta f v data :
  meta_ok meta → state_ok f → state_below (LastIncludedIndex meta) f → Encode meta f v = Ok data →
  Decode data = Ok (mkSnapshot (meta_view v meta) (snapshot_view f)).
Proof.
  intros [Hi Ht Hc] Hok Hb He. destruct (decode_encode_state f Hok) as (seq & Hd & _ & Hseq).
  specialize (Hseq _ Hb). pose proof (so_size f Hok) as Hsz.
  unfold Encode, SnapFormatVersion, MinReadVersion in He.
  destruct ((v <? 1) || (2 <? v)) eqn:Hv; [done|]. cbv zeta in He. bool_to_prop.
  assert (He' : data = snap_frame_body meta f v ++ put_u32 (crc32 (snap_frame_body meta f v))) by congruence. clear He.
  assert (Hcrc : ∀ body r, crc32 (take (Z.to_nat (zlen (body ++ r) - zlen r)) (body ++ r)) = crc32 body).
  { intros body r. rewrite zlen_app, Z.add_simpl_r, take_app_zlen. done. }
  specialize (Hcrc (snap_frame_body meta f v) (put_u32 (crc32 (snap_frame_body meta f v)))).
  pose proof (crc32_range (snap_frame_body meta f v)) as Hr. generalize dependent (crc32 (snap_frame_body meta f v)).
  intros crc He Hcrc Hr. rewrite <- He in Hcrc.
  assert (Hdata : data = magic ++ v :: put_u64 (LastIncludedIndex meta) ++ put_u64 (LastIncludedTerm meta) ++
    put_u64 (zlen (EncodeState f)) ++ EncodeState f ++
    (if 2 <=? v then encodeConfigSection (HasConfiguration meta) (meta_Configuration meta) else []) ++ put_u32 crc).
  { rewrite He. unfold snap_frame_body. cbv zeta. rewrite <- !app_assoc. done. }
  generalize dependent (EncodeState f). intros state Hd Hsz Hdata.
  pose proof (zlen_section (HasConfiguration meta) _ Hc) as Hls.
  set (rest := v :: put_u64 (LastIncludedIndex meta) ++ _) in Hdata.
  assert (Hmg : slice_at 4 data = Ok (magic, rest)) by (by rewrite Hdata, slice_at_app).
  assert (Hlen : (zlen data <? snapHeaderSize + snapChecksumSize) = false).
  { apply Z.ltb_ge. rewrite Hdata, zlen_app. change (zlen magic) with 4. unfold rest, snapHeaderSize, snapChecksumSize. destruct (2 <=? v); zlen_lia. }
  assert (Hu : ∀ x : Z, 0 ≤ x < 2 ^ 40 → u64 x = x) by (intros; apply u64_small; unfold is_u64; lia).
  unfold Decode. rewrite Hlen, Hmg, bind_Ok. cbv beta iota. rewrite bool_decide_eq_true_2 by done. unfold rest.
  unfold SnapFormatVersion, MinReadVersion, snapChecksumSize, corrupt. set (dl := zlen data) in *. clearbody dl.
  clear Hdata rest Hlen Hmg He. repeat decode_step. unfold meta_view.
  assert (Hend : ∀ has cfg, (if negb (zlen (put_u32 crc) =? 4) then Err ErrCorruptSnapshot else
    '(wantCRC, _) ← u32_at (put_u32 crc);
    if negb (crc32 (take (Z.to_nat (dl - zlen (put_u32 crc))) data) =? wantCRC) then Err ErrCorruptSnapshot else
    match DecodeState state with
    | Err FsmPanic => Err SnapshotPanic
    | Err _ => Err ErrCorruptSnapshot
    | Ok (f, maxSeq) => if LastIncludedIndex meta <? maxSeq then Err ErrCorruptSnapshot
        else Ok (mkSnapshot (mkMeta (LastIncludedIndex meta) (LastIncludedTerm meta) has cfg) f)
    end) = Ok (mkSnapshot (mkMeta (LastIncludedIndex meta) (LastIncludedTerm meta) has cfg) (snapshot_view f))).
  { intros has cfg. assert (Hat : u32_at (put_u32 crc) = Ok (crc, [])).
    { rewrite <- (u32_at_put crc []) by done. by rewrite app_nil_r. }
    rewrite zlen_be_put in *. rewrite Hat, bind_Ok. cbv beta iota.
    rewrite Hcrc, Z.eqb_refl, Hd. cbn [negb]. rewrite (proj2 (Z.ltb_ge (LastIncludedIndex meta) seq)) by done. by rewrite Z.eqb_refl. }
  destruct (2 <=? v); cbn [andb].
  - rewrite Hu, (proj2 (Z.ltb_ge _ _)) by zlen_lia.
    rewrite decode_encode_section by (done || by rewrite zlen_be_put). rewrite bind_Ok. cbv beta iota. apply Hend.
  - rewrite app_nil_l, Hu, (proj2 (Z.ltb_ge _ _)) by zlen_lia. rewrite bind_Ok. cbv beta iota. apply Hend.
Qed.

(** Decoding arbitrary bytes. *)

Lemma get_member_reads b :
  wf_bytes b → reads (get_member b) (λ '(_, b'), True ∧ wf_bytes b' ∧ zlen b' ≤ zlen b - 0).
Proof.
  intros Hb. unfold get_member, corrupt. repeat reads_step. simpl. split_and!; [done|done|]. bool_to_prop. zlen_lia.
Qed.

Lemma getMembers_reads b : wf_bytes b → reads (getMembers b) (λ '(_, b'), wf_bytes b').
Proof.
  intros Hb. unfold getMembers, corrupt. repeat reads_step.
  eapply (reads_decode_n (λ _, True) 0); [apply get_member_reads|done|]. by intros.
Qed.

Lemma decodeSnapConfiguration_reads b : wf_bytes b → reads (decodeSnapConfiguration b) (λ _, True).
Proof.
  intros Hb. unfold decodeSnapConfiguration, corrupt. apply reads_bind.
  eapply reads_mono; [by apply getMembers_reads|]. intros [vs b1] Hb1. apply reads_bind.
  eapply reads_mono; [by apply getMembers_reads|]. intros [ls b2] Hb2. cbv beta iota. by repeat reads_step.
Qed.

Lemma u64_le x : 0 ≤ x → u64 x ≤ x.
Proof. intros Hx. unfold u64. apply Z.mod_le; lia. Qed.

Lemma decode_config_section_reads b :
  wf_bytes b → reads (decode_config_section b) (λ '(_, _, b'), wf_bytes b').
Proof.
  intros Hb. unfold decode_config_section, corrupt, snapChecksumSize. repeat reads_step.
  bool_to_prop. match goal with H : _ ≤ u64 ?x |- _ => pose proof (u64_le x ltac:(lia)) end.
  apply reads_slice; [done|unfold is_u64 in *; lia|]. intros section b2 Hs Hb2 _ _. cbv beta iota.
  reads_step; [|done]. apply reads_bind. eapply reads_mono; [by apply decodeSnapConfiguration_reads|]. done.
Qed.

Lemma Decode_reads data :
  wf_bytes data → reads (Decode data) (λ s,
    is_u64 (LastIncludedIndex (snap_Meta s)) ∧ state_below (LastIncludedIndex (snap_Meta s)) (snap_FSM s)).
Proof.
  intros Hb. unfold Decode, corrupt, snapHeaderSize, snapChecksumSize. repeat reads_step.
  bool_to_prop. match goal with H : _ ≤ u64 ?x |- _ => pose proof (u64_le x ltac:(lia)) end.
  apply reads_slice; [done|unfold is_u64 in *; lia|]. intros state b2 Hs Hb2 _ _. cbv beta iota.
  apply reads_bind. eapply (reads_mono _ (λ '(_, _, b'), wf_bytes b')).
  { destruct (2 <=? _); [by apply decode_config_section_reads|done]. }
  intros [[has cfg] b3] Hb3. cbv beta iota. repeat reads_step.
  pose proof (DecodeState_reads state Hs) as Hd. pose proof (DecodeState_below state) as Hbelow.
  destruct (DecodeState state) as [[f seq]|e]; [|by destruct e].
  reads_step; [done|]. bool_to_prop. split; [done|]. eapply state_below_mono; [|by apply Hbelow]. done.
Qed.

(** ** File names *)

Lemma snapshotFileName_candidate i :
  is_u64 i → candidate_of (snapshotFileName i) = Some (mkCandidate i (snapshotFileName i)).
Proof.
  intros Hi. destruct (dec_put_spec snapshotIDWidth i) as (H1 & H2 & H3).
  { unfold is_u64, snapshotIDWidth in *. change (10 ^ Z.of_nat 20) with 100000000000000000000. lia. }
  unfold candidate_of, HasSuffix, snapshotFileName. rewrite !length_app, Nat.add_sub.
  rewrite drop_app_length, bool_decide_eq_true_2 by done. cbn [negb]. cbv zeta. rewrite take_app_length.
  assert (H4 : zlen (dec_put snapshotIDWidth i) = 20) by (unfold zlen; by rewrite H1).
  unfold ParseUint. rewrite H2, H3, H4, (proj2 (Z.ltb_lt i (2 ^ 64))) by apply Hi. done.
Qed.

Lemma candidate_of_path name c : candidate_of name = Some c → c_path c = name ∧ is_u64 (c_index c).
Proof.
  unfold candidate_of. destruct (negb _); [done|]. cbv zeta. unfold ParseUint. intros (id & Hid & [= <-])%bind_Some.
  split; [done|]. cbn. destruct (_ && _ && _) eqn:E; [|done]. injection Hid as <-.
  apply andb_true_iff in E as [[_ E1]%andb_true_iff E2%Z.ltb_lt].
  split; [|done]. clear E2. revert E1. change (length snapshotFileSuffix) with 5%nat; generalize (take (length name - 5) name). intros s.
  induction s as [|d s IH] using rev_ind; [intros _; unfold dec_value; cbn; lia|]. rewrite forallb_app, dec_value_snoc. cbn. intros E.
  bool_to_prop. specialize (IH ltac:(done)). lia.
Qed.

(** ** Loading *)

Lemma listSnapshotCandidates_elem files c :
  c ∈ listSnapshotCandidates files ↔ candidate_of (c_path c) = Some c ∧ is_Some (files !! c_path c).
Proof.
  unfold listSnapshotCandidates. rewrite list_elem_of_omap. split.
  - intros ([n data] & Hin & Hc). apply elem_of_sorted_entries in Hin. cbn in Hc.
    destruct (candidate_of_path _ _ Hc) as [-> _]. eauto.
  - intros [Hc [data Hd]]. exists (c_path c, data). split; [by apply elem_of_sorted_entries|done].
Qed.

Lemma candidatesDescending_elem m c :
  c ∈ candidatesDescending m ↔ candidate_of (c_path c) = Some c ∧ is_Some (d_files (mg_dir m) !! c_path c).
Proof. unfold candidatesDescending. rewrite merge_sort_Permutation. apply listSnapshotCandidates_elem. Qed.

#[export] Instance index_ge_trans : Transitive index_ge.
Proof. intros a b c. unfold index_ge. lia. Qed.
#[export] Instance index_ge_total : Total index_ge.
Proof. intros a b. unfold index_ge. lia. Qed.

Lemma candidatesDescending_sorted m : StronglySorted index_ge (candidatesDescending m).
Proof. apply (StronglySorted_merge_sort index_ge). Qed.

(** [c] is a candidate of [m] that [Load] may return, and [snap] its content. *)
Definition loadable (m : SnapManager) (p : Z) (c : candidate) (snap : Snapshot) : Prop :=
  candidate_of (c_path c) = Some c ∧ c_index c ≤ p ∧ LastIncludedIndex (snap_Meta snap) = c_index c ∧
  ∃ data, d_files (mg_dir m) !! c_path c = Some data ∧ Decode data = Ok snap.

Lemma trusted_loadable m p c snap :
  candidate_of (c_path c) = Some c →
  trusted (d_files (mg_dir m)) p c = Some snap ↔ loadable m p c snap.
Proof.
  intros Hc. unfold trusted, loadable. split.
  - destruct (Z.ltb_spec p (c_index c)); [done|]. intros (data & Hd & H')%bind_Some.
    destruct (Decode data) as [s|e] eqn:E; [|done]. destruct (Z.eqb_spec (LastIncludedIndex (snap_Meta s)) (c_index c)); [|done].
    injection H' as <-. eauto 10.
  - intros (_ & Hp & Hi & data & Hd & Hdec). rewrite (proj2 (Z.ltb_ge _ _)) by done. rewrite Hd. cbn.
    by rewrite Hdec, (proj2 (Z.eqb_eq _ _)).
Qed.

Lemma first_trusted_spec files p cs :
  StronglySorted index_ge cs →
  match first_trusted files p cs with
  | Some snap => ∃ c, c ∈ cs ∧ trusted files p c = Some snap ∧
      ∀ c', c' ∈ cs → is_Some (trusted files p c') → c_index c' ≤ c_index c
  | None => ∀ c, c ∈ cs → trusted files p c = None
  end.
Proof.
  induction 1 as [|c cs Hs IH Hc]; cbn [first_trusted]; [by intros c ?%not_elem_of_nil|].
  destruct (trusted files p c) as [snap|] eqn:E.
  - exists c. split; [by left|]. split; [done|]. intros c' [->|Hc']%elem_of_cons _; [done|].
    by eapply Forall_forall in Hc.
  - destruct (first_trusted files p cs) as [snap|].
    + destruct IH as (c0 & H1 & H2 & H3). exists c0. split; [by right|]. split; [done|].
      intros c' [->|Hc']%elem_of_cons; [rewrite E; by intros []|by apply H3].
    + intros c' [->|Hc']%elem_of_cons; [done|by apply IH].
Qed.

Lemma Load_spec m p :
  match Load m p with
  | Some snap => p ≠ 0 ∧ ∃ c, loadable m p c snap ∧ ∀ c' snap', loadable m p c' snap' → c_index c' ≤ c_index c
  | None => p = 0 ∨ ∀ c snap, ¬ loadable m p c snap
  end.
Proof.
  unfold Load. destruct (Z.eqb_spec p 0) as [->|Hp]; [by left|].
  pose proof (first_trusted_spec (d_files (mg_dir m)) p _ (candidatesDescending_sorted m)) as H.
  assert (Hl : ∀ c snap, loadable m p c snap → c ∈ candidatesDescending m ∧ trusted (d_files (mg_dir m)) p c = Some snap).
  { intros c snap Hc. pose proof Hc as (H1 & _ & _ & data & H2 & _). split; [|by apply trusted_loadable].
    apply candidatesDescending_elem. eauto. }
  destruct (first_trusted _ _ _) as [snap|].
  - split; [done|]. destruct H as (c & Hc & Ht & Hmax). exists c. apply candidatesDescending_elem in Hc as [Hc _].
    split; [by apply trusted_loadable|]. intros c' snap' Hc'. destruct (Hl _ _ Hc') as [H1 H2]. eapply Hmax; eauto.
  - right. intros c snap Hc. destruct (Hl _ _ Hc) as [H1 H2]. by rewrite (H c H1) in H2.
Qed.

(** ** Runs with crashes

    [p] is the durable pointer of the write-ahead log and [h] everything ever
    handed to [Create] or [Install].  The caller adopts a file by moving the
    pointer to it and prunes with the pointer as the index to keep. *)

Definition captured (meta : Meta) (f : FSM) (v : Z) : Snapshot := mkSnapshot (meta_view v meta) (snapshot_view f).

Definition capturable (meta : Meta) (f : FSM) : Prop :=
  meta_ok meta ∧ state_ok f ∧ state_below (LastIncludedIndex meta) f.

Definition prune_trace (m : SnapManager) (keepIndex : Z) : list Dir :=
  let names := superseded m keepIndex in
  ((λ k, foldl remove_file (mg_dir m) (take k names)) <$> seq 0 (S (length names))) ++ [mg_dir (Prune m keepIndex)].

Definition snap_state : Type := SnapManager * Z * list Snapshot.

Inductive snap_step : snap_state → snap_state → Prop :=
| ss_create m p h meta f v m' meta' :
    capturable meta f → Create m meta f v = Ok (m', meta') → snap_step (m, p, h) (m', p, captured meta f v :: h)
| ss_install m p h data m' snap :
    wf_bytes data → Install m data = Ok (m', snap) → snap_step (m, p, h) (m', p, snap :: h)
| ss_adopt m p h i data snap :
    i ≠ 0 → Bytes m i = Some data → Decode data = Ok snap → LastIncludedIndex (snap_Meta snap) = i →
    snap_step (m, p, h) (m, i, h)
| ss_prune m p h : snap_step (m, p, h) (Prune m p, p, h)
| ss_retain m p h n m' : SetRetainCount m n = Some m' → snap_step (m, p, h) (m', p, h)
| ss_crash_create m p h meta f v data torn d d' :
    capturable meta f → Encode meta f v = Ok data →
    d ∈ WriteFileDurable_trace (snapshotFileName (LastIncludedIndex meta)) data torn (mg_dir m) → dir_crash d d' →
    snap_step (m, p, h) (NewSnapManager d', p, captured meta f v :: h)
| ss_crash_install m p h data torn snap d d' :
    wf_bytes data → Decode data = Ok snap →
    d ∈ WriteFileDurable_trace (snapshotFileName (LastIncludedIndex (snap_Meta snap))) data torn (mg_dir m) →
    dir_crash d d' → snap_step (m, p, h) (NewSnapManager d', p, snap :: h)
| ss_crash_prune m p h d d' :
    d ∈ prune_trace m p → dir_crash d d' → snap_step (m, p, h) (NewSnapManager d', p, h).

(** [data] is a file of [snap], under its name. *)
Definition file_of (snap : Snapshot) (name data : bytes) : Prop :=
  Decode data = Ok snap ∧ is_u64 (LastIncludedIndex (snap_Meta snap)) ∧
  name = snapshotFileName (LastIncludedIndex (snap_Meta snap)).

Definition files_ok (p : Z) (h : list Snapshot) (files : gmap bytes bytes) : Prop :=
  (∀ name data, files !! name = Some data → ∃ snap, snap ∈ h ∧ file_of snap name data) ∧
  (p ≠ 0 → is_u64 p ∧ is_Some (files !! snapshotFileName p)).

Definition dir_ok (p : Z) (h : list Snapshot) (d : Dir) : Prop := files_ok p h (d_files d) ∧ files_ok p h (d_disk d).

Lemma snapshotFileName_inj i j : is_u64 i → is_u64 j → snapshotFileName i = snapshotFileName j → i = j.
Proof.
  intros Hi Hj E. pose proof (snapshotFileName_candidate i Hi) as H1. rewrite E in H1.
  rewrite (snapshotFileName_candidate j Hj) in H1. congruence.
Qed.

Lemma files_ok_insert p h files snap name data :
  files_ok p h files → file_of snap name data → files_ok p (snap :: h) (<[name := data]> files).
Proof.
  intros [H1 H2] Hs. split.
  - intros name' data'. destruct (decide (name = name')) as [<-|Hn].
    + rewrite lookup_insert_eq. intros [= <-]. exists snap. split; [by left|done].
    + rewrite lookup_insert_ne by done. intros H. destruct (H1 _ _ H) as (s & ? & ?). exists s. split; [by right|done].
  - intros Hp. destruct (H2 Hp) as [Hu Hx]. split; [done|]. by apply lookup_insert_is_Some'; right.
Qed.

Lemma files_ok_weaken p h files snap : files_ok p h files → files_ok p (snap :: h) files.
Proof.
  intros [H1 H2]. split; [|done]. intros name data H. destruct (H1 _ _ H) as (s & ? & ?). exists s. split; [by right|done].
Qed.

Lemma files_ok_delete p h files name :
  files_ok p h files → (p ≠ 0 → name ≠ snapshotFileName p) → files_ok p h (delete name files).
Proof.
  intros [H1 H2] Hn. split.
  - intros name' data' [_ H]%lookup_delete_Some. by apply H1.
  - intros Hp. destruct (H2 Hp) as [Hu Hx]. split; [done|]. by rewrite lookup_delete_ne by (by apply Hn).
Qed.

(** Pruning never removes the file the pointer names. *)
Lemma superseded_spares m p h names :
  dir_ok p h (mg_dir m) → names `sublist_of` superseded m p →
  dir_ok p h (foldl remove_file (mg_dir m) names).
Proof.
  intros Hd Hsub.
  assert (Hne : ∀ name, name ∈ names → p ≠ 0 → name ≠ snapshotFileName p).
  { intros name Hin Hp ->. eapply elem_of_sublist in Hin; [|exact Hsub]. unfold superseded in Hin. cbv zeta in Hin.
    apply list_elem_of_fmap in Hin as (c & Hc & Hin). apply list_elem_of_filter in Hin as [Hi Hin].
    eapply elem_of_sublist in Hin; [|apply sublist_drop]. apply candidatesDescending_elem in Hin as [Hcan _].
    destruct Hd as [[_ Hd] _]. rewrite <- Hc, snapshotFileName_candidate in Hcan by (by apply Hd). injection Hcan as Hcan. by rewrite <- Hcan in Hi. }
  clear Hsub. revert Hd Hne. generalize (mg_dir m). induction names as [|name names IH]; intros d Hd Hne; [done|].
  cbn [foldl]. apply IH; [|intros name' Hn; apply Hne; by right].
  destruct Hd as [H1 H2]. split; [|done]. cbn. apply files_ok_delete; [done|]. apply Hne. by left.
Qed.

Lemma dir_ok_crash p h d d' : dir_ok p h d → dir_crash d d' → dir_ok p h d'.
Proof.
  intros [[H1 H2] [H3 H4]] [E H].
  assert (Hf : files_ok p h (d_files d')).
  { split.
    - intros name data Hn. destruct (H name) as [E'|E']; rewrite E' in Hn; eauto.
    - intros Hp. split; [by apply H2|]. destruct (H (snapshotFileName p)) as [->| ->]; [by apply H2|by apply H4]. }
  split; [done|]. by rewrite <- E.
Qed.

Lemma dir_ok_write p h d snap name data torn d1 :
  dir_ok p h d → file_of snap name data → d1 ∈ WriteFileDurable_trace name data torn d → dir_ok p (snap :: h) d1.
Proof.
  intros [H1 H2] Hs Hin. unfold WriteFileDurable_trace in Hin. cbv zeta in Hin.
  repeat (apply elem_of_cons in Hin as [->|Hin]); [..|by apply not_elem_of_nil in Hin]; split; cbn;
    auto using files_ok_weaken, files_ok_insert.
Qed.

Lemma WriteFileDurable_last name data torn d :
  WriteFileDurable name data d ∈ WriteFileDurable_trace name data torn d.
Proof. unfold WriteFileDurable_trace, WriteFileDurable. cbv zeta. do 3 right. by left. Qed.

Lemma captured_file meta f v data :
  capturable meta f → Encode meta f v = Ok data →
  file_of (captured meta f v) (snapshotFileName (LastIncludedIndex meta)) data.
Proof.
  intros (H1 & H2 & H3) He. split; [by apply decode_encode_snapshot|]. split; [apply H1|done].
Qed.

Lemma installed_file data snap :
  wf_bytes data → Decode data = Ok snap → file_of snap (snapshotFileName (LastIncludedIndex (snap_Meta snap))) data.
Proof.
  intros Hw Hd. split; [done|]. split; [|done]. pose proof (Decode_reads data Hw) as H. rewrite Hd in H. apply H.
Qed.

Lemma dir_ok_prune m p h : dir_ok p h (mg_dir m) → dir_ok p h (mg_dir (Prune m p)).
Proof.
  intros Hd. pose proof (superseded_spares m p h _ Hd (reflexivity _)) as [H _]. split; exact H.
Qed.

Lemma prune_trace_ok m p h d : dir_ok p h (mg_dir m) → d ∈ prune_trace m p → dir_ok p h d.
Proof.
  intros Hd Hin. unfold prune_trace in Hin. cbv zeta in Hin. apply elem_of_app in Hin as [Hin|Hin].
  - apply list_elem_of_fmap in Hin as (k & -> & _). apply superseded_spares; [done|apply sublist_take].
  - apply list_elem_of_singleton in Hin as ->. by apply dir_ok_prune.
Qed.

Definition snap_inv (s : snap_state) : Prop :=
  dir_ok s.1.2 s.2 (mg_dir s.1.1) ∧ d_disk (mg_dir s.1.1) = d_files (mg_dir s.1.1).

Lemma snap_step_inv s s' : snap_inv s → snap_step s s' → snap_inv s'.
Proof.
  intros [Hd Heq] Hs. destruct Hs as [m p h meta f v m' meta' Hcap Hc|m p h data m' snap Hw Hc|m p h i data snap Hi Hb Hdec Hidx
    |m p h|m p h n m' Hr|m p h meta f v data torn d d' Hcap He Hin Hcr|m p h data torn snap d d' Hw Hdec Hin Hcr
    |m p h d d' Hin Hcr]; unfold snap_inv in *; cbn [fst snd] in *.
  - unfold Create in Hc. apply bind_Ok_inv in Hc as (data & He & Hc). injection Hc as <- _. split; [|done].
    eapply dir_ok_write; [done|by apply captured_file|apply (WriteFileDurable_last _ _ [])].
  - unfold Install in Hc. apply bind_Ok_inv in Hc as (sn & He & Hc). injection Hc as <- <-. split; [|done].
    eapply dir_ok_write; [done|by apply installed_file|apply (WriteFileDurable_last _ _ [])].
  - split; [|done]. unfold dir_ok. rewrite Heq. destruct Hd as [[H1 _] _]. unfold Bytes in Hb.
    destruct (H1 _ _ Hb) as (s0 & _ & Hd0 & Hu & _). assert (s0 = snap) as -> by congruence. rewrite Hidx in Hu.
    split; (split; [done|]); by rewrite Hb.
  - split; [by apply dir_ok_prune|done].
  - unfold SetRetainCount in Hr. destruct (n <? 1); [done|]. by injection Hr as <-.
  - split; [|symmetry; apply Hcr]. eapply dir_ok_crash; [|exact Hcr]. by eapply dir_ok_write; [|apply captured_file|].
  - split; [|symmetry; apply Hcr]. eapply dir_ok_crash; [|exact Hcr]. by eapply dir_ok_write; [|apply installed_file|].
  - split; [|symmetry; apply Hcr]. eapply dir_ok_crash; [|exact Hcr]. by eapply prune_trace_ok.
Qed.

Definition empty_dir : Dir := mkDir ∅ ∅ [].

Lemma snap_reachable_inv s : rtc snap_step (NewSnapManager empty_dir, 0, []) s → snap_inv s.
Proof.
  assert (H0 : snap_inv (NewSnapManager empty_dir, 0, [])).
  { split; [|done]. split; (split; [by intros name data H|done]). }
  intros Hs. revert H0. induction Hs as [|x y z Hxy _ IH]; [done|]. intros H. apply IH. by eapply snap_step_inv.
Qed.

Lemma inv_candidate p h files c :
  files_ok p h files → candidate_of (c_path c) = Some c → is_Some (files !! c_path c) →
  c_path c = snapshotFileName (c_index c).
Proof.
  intros [H1 _] Hc [data Hd]. destruct (H1 _ _ Hd) as (snap & _ & _ & Hu & Hn).
  rewrite Hn, snapshotFileName_candidate in Hc by done. injection Hc as Hc. rewrite <- Hc. done.
Qed.

(** The pointer's own file is the newest one [Load] may consider. *)
Lemma inv_load m p h :
  snap_inv (m, p, h) → p ≠ 0 →
  ∃ snap, Load m p = Some snap ∧ LastIncludedIndex (snap_Meta snap) = p ∧ snap ∈ h.
Proof.
  intros [[[H1 H2] _] _] Hp. cbn in H1, H2. destruct (H2 Hp) as [Hu [data Hd]].
  destruct (H1 _ _ Hd) as (snap & Hin & Hdec & Hu' & Hn).
  apply snapshotFileName_inj in Hn; [|done..].
  assert (Hl : loadable m p (mkCandidate p (snapshotFileName p)) snap).
  { split; [by apply snapshotFileName_candidate|]. cbn. split; [done|]. split; [done|]. by exists data. }
  pose proof (Load_spec m p) as HL. destruct (Load m p) as [s|].
  - destruct HL as (_ & c & Hc & Hmax). pose proof (Hmax _ _ Hl) as Hle. cbn in Hle.
    destruct Hc as (Hcan & Hcp & Hi & data' & Hd' & Hdec').
    assert (c_index c = p) as Ep by lia.
    assert (c_path c = snapshotFileName (c_index c)) as En.
    { eapply (inv_candidate p h (d_files (mg_dir m))); [by split|done|by rewrite Hd']. }
    rewrite En, Ep, Hd in Hd'. injection Hd' as <-. assert (s = snap) as -> by congruence.
    exists snap. split; [done|]. split; [done|done].
  - destruct HL as [|HL]; [done|]. by apply HL in Hl.
Qed.

(** ** Torn files *)

Section extend.
  Context {E : Type} `{!Panicking E}.

Lemma u8_at_app b x v b' : u8_at (E:=E) b = Ok (v, b') → u8_at (E:=E) (b ++ x) = Ok (v, b' ++ x).
Proof. destruct b; [done|]. cbn. by intros [= -> ->]. Qed.

Lemma get_app n (b x : bytes) : Z.of_nat n ≤ zlen b → take n (b ++ x) = take n b ∧ drop n (b ++ x) = drop n b ++ x.
Proof. unfold zlen. intros. split; [apply take_app_le; lia|apply drop_app_le; lia]. Qed.

Lemma u32_at_app b x v b' : u32_at (E:=E) b = Ok (v, b') → u32_at (E:=E) (b ++ x) = Ok (v, b' ++ x).
Proof.
  unfold u32_at, get_u32. destruct (Z.ltb_spec (zlen b) 4); [done|]. intros [= <- <-].
  rewrite (proj2 (Z.ltb_ge _ _)) by zlen_lia. by destruct (get_app 4 b x) as [-> ->].
Qed.

Lemma u64_at_app b x v b' : u64_at (E:=E) b = Ok (v, b') → u64_at (E:=E) (b ++ x) = Ok (v, b' ++ x).
Proof.
  unfold u64_at, get_u64. destruct (Z.ltb_spec (zlen b) 8); [done|]. intros [= <- <-].
  rewrite (proj2 (Z.ltb_ge _ _)) by zlen_lia. by destruct (get_app 8 b x) as [-> ->].
Qed.

Lemma slice_at_extend n b x s b' : slice_at (E:=E) n b = Ok (s, b') → slice_at (E:=E) n (b ++ x) = Ok (s, b' ++ x).
Proof.
  unfold slice_at. destruct (Z.ltb_spec n 0); [done|]. destruct (Z.ltb_spec (zlen b) n); [done|]. cbn [orb].
  intros [= <- <-]. rewrite (proj2 (Z.ltb_ge _ _)) by zlen_lia. destruct (get_app (Z.to_nat n) b x) as [-> ->]; [lia|done].
Qed.
End extend.

(** Where the frame ends, as [Decode] computes it: the rest is the checksum. *)
Definition frame_end (data : bytes) : result snapshot_error bytes :=
  '(_, b) ← slice_at 4 data;
  '(version, b) ← u8_at b;
  '(_, b) ← u64_at b;
  '(_, b) ← u64_at b;
  '(stateLen, b) ← u64_at b;
  '(_, b) ← slice_at stateLen b;
  if 2 <=? version then
    '(_, b) ← u8_at b;
    '(configLen, b) ← u64_at b;
    '(_, b) ← slice_at configLen b;
    Ok b
  else Ok b.

Ltac bind_inv H x b := apply bind_Ok_inv in H as ([x b] & ? & H); cbv beta iota in H.

Lemma frame_end_app data x b : frame_end data = Ok b → frame_end (data ++ x) = Ok (b ++ x).
Proof.
  unfold frame_end. intros H. bind_inv H mg b1. bind_inv H v b2. bind_inv H i b3. bind_inv H t b4. bind_inv H l b5.
  bind_inv H st b6. erewrite slice_at_extend by done. rewrite bind_Ok. cbv beta iota.
  erewrite u8_at_app by done. rewrite bind_Ok. cbv beta iota.
  do 3 (erewrite u64_at_app by done; rewrite bind_Ok; cbv beta iota).
  erewrite slice_at_extend by done. rewrite bind_Ok. cbv beta iota.
  destruct (2 <=? v); [|by injection H as <-]. bind_inv H hc b7. bind_inv H cl b8. bind_inv H sec b9. injection H as <-.
  erewrite u8_at_app by done. rewrite bind_Ok. cbv beta iota.
  erewrite u64_at_app by done. rewrite bind_Ok. cbv beta iota. by erewrite slice_at_extend by done.
Qed.

Lemma config_section_end b has cfg b' :
  decode_config_section b = Ok (has, cfg, b') →
  ('(_, b) ← u8_at (E:=snapshot_error) b; '(configLen, b) ← u64_at b; '(_, b) ← slice_at configLen b; Ok b) = Ok b'.
Proof.
  unfold decode_config_section, corrupt. destruct (_ <? 9); [done|]. intros H. bind_inv H hc b1. bind_inv H cl b2.
  repeat match type of H with (if ?c then Err _ else _) = _ => destruct c; [done|] end.
  bind_inv H sec b3.
  assert (b3 = b') as ->.
  { destruct (hc =? 1); [|by injection H]. apply bind_Ok_inv in H as (c & _ & H). by injection H. }
  repeat (match goal with E : _ = Ok _ |- _ => rewrite E end; rewrite bind_Ok; cbv beta iota). done.
Qed.

Lemma Decode_end data snap : Decode data = Ok snap → ∃ b, frame_end data = Ok b ∧ zlen b = snapChecksumSize.
Proof.
  unfold Decode, frame_end, corrupt. intros H. destruct (_ <? snapHeaderSize + snapChecksumSize); [done|]. bind_inv H mg b1.
  destruct (negb _); [done|]. bind_inv H v b2. destruct (_ <? v); [done|]. destruct (v <? _); [done|].
  bind_inv H i b3. bind_inv H t b4. bind_inv H l b5. destruct (_ <? l); [done|]. bind_inv H st b6.
  apply bind_Ok_inv in H as ([[has cfg] b7] & Hc & H). cbv beta iota in H.
  destruct (Z.eqb_spec (zlen b7) snapChecksumSize) as [Hz|]; [|done]. exists b7. split; [|done]. clear H.
  repeat (match goal with E : _ = Ok (_, ?b) |- context [?e ≫= _] => rewrite E end; rewrite bind_Ok; cbv beta iota).
  destruct (2 <=? v); [by eapply config_section_end|]. by injection Hc as _ _ <-.
Qed.

Lemma Decode_prefix_free data x s1 s2 : Decode data = Ok s1 → Decode (data ++ x) = Ok s2 → x = [].
Proof.
  intros (b1 & H1 & L1)%Decode_end (b2 & H2 & L2)%Decode_end. rewrite (frame_end_app _ _ _ H1) in H2.
  injection H2 as <-. rewrite zlen_app in L2. apply nil_length_inv. unfold zlen in *. lia.
Qed.

(** ** Scrubbing *)

Definition scrub_one (files : gmap bytes bytes) (c : candidate) : list Finding :=
  match files !! c_path c with None => [] | Some data => scrub_file c data end.

Lemma SnapshotScrub_findings files :
  (SnapshotScrub files).1 = mjoin (scrub_one files <$> listSnapshotCandidates files).
Proof.
  unfold SnapshotScrub. induction (listSnapshotCandidates files) as [|c cs IH] using rev_ind; [done|].
  rewrite foldl_app, fmap_app, join_app, <- IH. cbn [foldl]. destruct (foldl _ _ cs) as [fs [n sz]]. cbn [fst].
  unfold scrub_one. cbn. destruct (files !! c_path c); cbn; by rewrite ?app_nil_r.
Qed.

(** A file is reported exactly when no pointer makes [Load] trust it. *)
Lemma scrub_reports m c :
  c ∈ candidatesDescending m →
  (∃ k, mkFinding (c_path c) 0 k ∈ (SnapshotScrub (d_files (mg_dir m))).1) ↔ ∀ p snap, ¬ loadable m p c snap.
Proof.
  intros Hc. assert (Hl : c ∈ listSnapshotCandidates (d_files (mg_dir m))).
  { apply listSnapshotCandidates_elem. by apply candidatesDescending_elem. }
  apply candidatesDescending_elem in Hc as [Hcan [data Hd]]. rewrite SnapshotScrub_findings.
  assert (Hone : ∀ f, f ∈ scrub_one (d_files (mg_dir m)) c ↔ f ∈ scrub_file c data).
  { intros f. unfold scrub_one. by rewrite Hd. }
  assert (Hfile : (∃ k, mkFinding (c_path c) 0 k ∈ scrub_file c data) ↔ ∀ p snap, ¬ loadable m p c snap).
  { unfold scrub_file. destruct (Decode data) as [snap|e] eqn:E.
    - destruct (Z.eqb_spec (LastIncludedIndex (snap_Meta snap)) (c_index c)) as [Hi|Hi]; cbn [negb].
      + split; [by intros [k ?%not_elem_of_nil]|]. intros H. exfalso. apply (H (c_index c) snap).
        split; [done|]. split; [done|]. split; [done|]. by exists data.
      + split; [|intros _; eexists; by left]. intros _ p s (_ & _ & Hi' & data' & Hd' & E'). congruence.
    - split; [|intros _; eexists; by left]. intros _ p s (_ & _ & _ & data' & Hd' & E'). congruence. }
  rewrite <- Hfile. split; intros [k Hk].
  - apply list_elem_of_join in Hk as (l & Hk & Hin). apply list_elem_of_fmap in Hin as (c' & -> & Hc').
    apply listSnapshotCandidates_elem in Hc' as [Hcan' [data' Hd']]. unfold scrub_one in Hk. rewrite Hd' in Hk.
    assert (c_path c' = c_path c) as Ep.
    { unfold scrub_file in Hk. destruct (Decode data') as [s|]; [destruct (negb _)|];
        [apply list_elem_of_singleton in Hk|by apply not_elem_of_nil in Hk|apply list_elem_of_singleton in Hk]; congruence. }
    assert (c' = c) as -> by congruence. exists k. by replace data with data' by congruence.
  - exists k. apply list_elem_of_join. exists (scrub_one (d_files (mg_dir m)) c). split; [by apply Hone|].
    apply list_elem_of_fmap. by exists c.
Qed.

(** ** Properties *)

(** C34: a snapshot file decodes to the log position, the configuration and the
    state it was made from, as far as its format version carries them; version
    2 carries the whole position and configuration.  [Encode] panics exactly
    outside the supported versions.  Decoding arbitrary bytes never reads out
    of range, and what it accepts has no sequence number above its own log
    position.  No proper prefix and no extension of an accepted file is
    accepted, so a torn write is never taken for a snapshot. *)
Theorem snapshot_frame meta f v :
  meta_ok meta → state_ok f → state_below (LastIncludedIndex meta) f →
  match Encode meta f v with
  | Ok data => 1 ≤ v ≤ 2 ∧ Decode data = Ok (mkSnapshot (meta_view v meta) (snapshot_view f)) ∧
      (v = 2 → HasConfiguration meta = true → meta_view v meta = meta) ∧
      (∀ n, (n < length data)%nat → is_Ok (Decode (take n data)) = false)
  | Err e => e = SnapshotPanic ∧ (v < 1 ∨ 2 < v)
  end ∧
  (∀ b, wf_bytes b → reads (Decode b) (λ s,
     is_u64 (LastIncludedIndex (snap_Meta s)) ∧ state_below (LastIncludedIndex (snap_Meta s)) (snap_FSM s))) ∧
  (∀ b x, is_Ok (Decode b) = true → is_Ok (Decode (b ++ x)) = true → x = []).
Proof.
  intros Hm Hok Hb. split; [|split; [exact Decode_reads|]].
  2: { intros b x H1 H2. destruct (Decode b) eqn:E1; [|done]. destruct (Decode (b ++ x)) eqn:E2; [|done].
       exact (Decode_prefix_free _ _ _ _ E1 E2). }
  pose proof (decode_encode_snapshot meta f v) as Hd. unfold Encode, MinReadVersion, SnapFormatVersion in *.
  destruct ((v <? 1) || (2 <? v)) eqn:Hv.
  { split; [done|]. apply orb_true_iff in Hv as [Hv%Z.ltb_lt|Hv%Z.ltb_lt]; lia. }
  cbv zeta in *. specialize (Hd _ Hm Hok Hb eq_refl). generalize dependent (snap_frame_body meta f v ++ put_u32 (crc32 (snap_frame_body meta f v))).
  intros data Hd. bool_to_prop. split; [done|]. split; [done|]. split.
  - intros -> Hc. destruct meta as [i t has cfg]. unfold meta_view. cbn in *. by rewrite Hc.
  - intros n Hn. destruct (Decode (take n data)) as [s|] eqn:E; [|done]. exfalso.
    rewrite <- (take_drop n data) in Hd. pose proof (Decode_prefix_free _ _ _ _ E Hd) as Hx.
    apply (f_equal length) in Hx. rewrite length_drop in Hx. cbn in Hx. lia.
Qed.

(** C33: the snapshot that the durable pointer names is always there.  In every
    run of snapshots taken and installed, of pruning and of changes of the
    retention count, with crashes at any point in the middle of any of them,
    [Load] at the pointer returns a snapshot at exactly that log position,
    and it is one that was handed to [Create] or [Install]: never a torn,
    orphaned or superseded file.  [Bytes] finds the same file to send. *)
Theorem snapshot_pointer_survives m p h :
  rtc snap_step (NewSnapManager empty_dir, 0, []) (m, p, h) →
  if p =? 0 then Load m p = None else
  ∃ snap data, Load m p = Some snap ∧ LastIncludedIndex (snap_Meta snap) = p ∧ snap ∈ h ∧
    Bytes m p = Some data ∧ Decode data = Ok snap.
Proof.
  intros Hr. apply snap_reachable_inv in Hr. destruct (Z.eqb_spec p 0) as [->|Hp]; [done|].
  destruct (inv_load m p h Hr Hp) as (snap & H1 & H2 & H3). destruct Hr as [[[H4 H5] _] _]. cbn [fst snd] in *.
  destruct (H5 Hp) as [Hu [data Hd]]. exists snap, data. do 3 (split; [done|]). split; [done|].
  pose proof (Load_spec m p) as HL. rewrite H1 in HL. destruct HL as (_ & c & (Hc & _ & Hi & data' & Hd' & E) & _).
  rewrite H2 in Hi. assert (c_path c = snapshotFileName (c_index c)) as En.
  { eapply (inv_candidate p h (d_files (mg_dir m))); [by split|done|by rewrite Hd']. }
  rewrite <- Hi in En. rewrite En in Hd'. by replace data with data' by congruence.
Qed.

(** In a directory with any files, corrupt or foreign ones included, [Load]
    returns the snapshot with the highest index among those at or below the
    pointer that decode and whose name agrees with their content, and nothing
    exactly when there is none; the scrubber reports exactly the files that
    [Load] would trust at no pointer. *)
Theorem snapshot_load_newest m p :
  match Load m p with
  | Some snap => p ≠ 0 ∧ ∃ c, loadable m p c snap ∧ ∀ c' snap', loadable m p c' snap' → c_index c' ≤ c_index c
  | None => p = 0 ∨ ∀ c snap, ¬ loadable m p c snap
  end ∧
  ∀ c, c ∈ candidatesDescending m →
    (∃ k, mkFinding (c_path c) 0 k ∈ (SnapshotScrub (d_files (mg_dir m))).1) ↔ ∀ p snap, ¬ loadable m p c snap.
Proof. split; [apply Load_spec|]. intros c Hc. by apply scrub_reports. Qed.

(** ** Witnesses *)

Definition demo_meta : Meta :=
  mkMeta 5 2 true (mkSnapConfiguration [mkSnapMember [97] [98; 58; 49]] []).

Lemma demo_capturable : capturable demo_meta demo_state.
Proof.
  split; [|split; [apply demo_state_ok|]].
  - constructor; [by vm_compute|by vm_compute|]. unfold snap_config_ok. vm_compute. done.
  - constructor; [vm_compute; discriminate|..].
    + intros k v Hv. by apply not_elem_of_nil in Hv.
    + intros id e He. done.
    + intros id o Ho. change (({[ [7] := mkOutcome [7] StatusCommitted 4 [] 0 ]} : gmap bytes Outcome) !! id = Some o) in Ho. apply lookup_singleton_Some in Ho as [<- <-]. intros _. vm_compute. discriminate.
    + intros id e He. done.
Qed.

Definition demo_data : bytes := match Encode demo_meta demo_state 2 with Ok d => d | Err _ => [] end.

Lemma snapshot_frame_witness :
  Decode demo_data = Ok (mkSnapshot demo_meta (snapshot_view demo_state)) ∧
  is_Ok (Decode (take 40 demo_data)) = false.
Proof.
  destruct demo_capturable as (H1 & H2 & H3).
  destruct (snapshot_frame demo_meta demo_state 2 H1 H2 H3) as [H _]. unfold demo_data.
  destruct (Encode demo_meta demo_state 2) as [d|e] eqn:E.
  - destruct H as (_ & H4 & H5 & H6). rewrite H5 in H4 by reflexivity. split; [exact H4|]. apply H6.
    apply (f_equal (λ r, match r with Ok d => length d | Err _ => 0%nat end)) in E. rewrite <- E.
    apply Nat.ltb_lt. vm_compute. reflexivity.
  - exfalso. vm_compute in E. discriminate.
Defined.

(** The snapshot is taken and adopted, a second one at a later index is being
    written when the process crashes. *)
Definition demo_manager : SnapManager := writeDurable (NewSnapManager empty_dir) 5 demo_data.
Definition demo_crashed : Dir :=
  mkDir (<[snapshotFileName 5 := demo_data]> ∅) (<[snapshotFileName 5 := demo_data]> ∅) [[1; 2; 3]].

Lemma demo_run :
  rtc snap_step (NewSnapManager empty_dir, 0, [])
    (NewSnapManager demo_crashed, 5, [captured (mkMeta 9 2 false zero_SnapConfiguration) demo_state 1; captured demo_meta demo_state 2]).
Proof.
  pose proof demo_capturable as Hcap.
  assert (Hcap' : capturable (mkMeta 9 2 false zero_SnapConfiguration) demo_state).
  { destruct Hcap as (_ & H2 & H3). split; [|split; [done|]].
    - constructor; [by vm_compute|by vm_compute|]. unfold snap_config_ok. vm_compute. done.
    - eapply state_below_mono; [|exact H3]. vm_compute. discriminate. }
  assert (He : Encode demo_meta demo_state 2 = Ok demo_data) by (vm_compute; reflexivity).
  eapply rtc_l.
  { apply (ss_create _ _ _ demo_meta demo_state 2 demo_manager demo_meta); [done|]. unfold Create. by rewrite He. }
  eapply rtc_l.
  { destruct Hcap as (H1 & H2 & H3).
    apply (ss_adopt _ _ _ 5 demo_data (captured demo_meta demo_state 2)); [done| | |done].
    - unfold Bytes, demo_manager. cbn. by rewrite lookup_insert_eq.
    - by apply decode_encode_snapshot. }
  apply rtc_once.
  destruct (Encode (mkMeta 9 2 false zero_SnapConfiguration) demo_state 1) as [d|] eqn:E; [|vm_compute in E; discriminate].
  eapply (ss_crash_create _ _ _ _ _ 1 d [1; 2; 3] (mg_dir demo_manager) demo_crashed); [done|done|by left|].
  split; [done|]. intros name. by left.
Qed.

Lemma snapshot_pointer_survives_witness :
  ∃ snap, Load (NewSnapManager demo_crashed) 5 = Some snap ∧ LastIncludedIndex (snap_Meta snap) = 5.
Proof.
  destruct (snapshot_pointer_survives _ _ _ demo_run) as (snap & data & H1 & H2 & _). exists snap. split; [exact H1|exact H2].
Defined.
