(* ===== verification/Backup.v ===== *)
(** * Backup and restore ([internal/backup])

    [Export] copies a snapshot and the log behind it into a directory of its
    own and describes them in a manifest; [Restore] checks every component
    against the manifest and builds the data directory of a new node from
    them.  The file system is explicit: both return the directories next to
    the error.  I/O errors are not modelled, the clock and the random node
    identifier of a new log are arguments, and a file name of the manifest is
    looked up in the one directory it is meant for. *)

From Stdlib Require Import String.
From S2P Require Import Prelude Bytes Hash Scrub Json Mvcc FsmCommand Fsm FsmSnapshot WalRecord Wal Snapshot.

(** ** The manifest *)

Definition BackupFormatVersion : Z := 1.
Definition manifestFileName : bytes := Eval vm_compute in str "manifest.json"%string.
(** [version.Version] of a build without a stamp *)
Definition BuildVersion : bytes := Eval vm_compute in str "dev"%string.

Record WALSegmentInfo := mkSegmentInfo { si_FileName : bytes; si_Size : Z; si_Checksum : Z }.
#[export] Instance WALSegmentInfo_eta : Eta WALSegmentInfo := λ s,
  mkSegmentInfo (si_FileName s) (si_Size s) (si_Checksum s).
#[export] Instance set_si_FileName : Setter si_FileName.
Proof. derive_setter. Defined.
#[export] Instance set_si_Size : Setter si_Size.
Proof. derive_setter. Defined.
#[export] Instance set_si_Checksum : Setter si_Checksum.
Proof. derive_setter. Defined.

Record Manifest := mkManifest {
  mf_FormatVersion : Z;
  mf_ChronicleDBVersion : bytes;
  mf_ClusterID : bytes;
  mf_LastIncludedIndex : Z;
  mf_LastIncludedTerm : Z;
  mf_SnapshotFile : bytes;
  mf_SnapshotSize : Z;
  mf_SnapshotChecksum : Z;
  mf_WALFromIndex : Z;
  mf_WALUntilIndex : Z;
  mf_WALSegments : list WALSegmentInfo;
  mf_CreatedAtUnixNano : Z
}.
#[export] Instance Manifest_eta : Eta Manifest := λ m,
  mkManifest (mf_FormatVersion m) (mf_ChronicleDBVersion m) (mf_ClusterID m) (mf_LastIncludedIndex m)
    (mf_LastIncludedTerm m) (mf_SnapshotFile m) (mf_SnapshotSize m) (mf_SnapshotChecksum m)
    (mf_WALFromIndex m) (mf_WALUntilIndex m) (mf_WALSegments m) (mf_CreatedAtUnixNano m).
#[export] Instance set_mf_FormatVersion : Setter mf_FormatVersion.
Proof. derive_setter. Defined.
#[export] Instance set_mf_ChronicleDBVersion : Setter mf_ChronicleDBVersion.
Proof. derive_setter. Defined.
#[export] Instance set_mf_ClusterID : Setter mf_ClusterID.
Proof. derive_setter. Defined.
#[export] Instance set_mf_LastIncludedIndex : Setter mf_LastIncludedIndex.
Proof. derive_setter. Defined.
#[export] Instance set_mf_LastIncludedTerm : Setter mf_LastIncludedTerm.
Proof. derive_setter. Defined.
#[export] Instance set_mf_SnapshotFile : Setter mf_SnapshotFile.
Proof. derive_setter. Defined.
#[export] Instance set_mf_SnapshotSize : Setter mf_SnapshotSize.
Proof. derive_setter. Defined.
#[export] Instance set_mf_SnapshotChecksum : Setter mf_SnapshotChecksum.
Proof. derive_setter. Defined.
#[export] Instance set_mf_WALFromIndex : Setter mf_WALFromIndex.
Proof. derive_setter. Defined.
#[export] Instance set_mf_WALUntilIndex : Setter mf_WALUntilIndex.
Proof. derive_setter. Defined.
#[export] Instance set_mf_WALSegments : Setter mf_WALSegments.
Proof. derive_setter. Defined.
#[export] Instance set_mf_CreatedAtUnixNano : Setter mf_CreatedAtUnixNano.
Proof. derive_setter. Defined.

(** The struct tags. *)
Definition segment_info_json (s : WALSegmentInfo) : json :=
  JObject [(str "fileName"%string, JString (si_FileName s)); (str "size"%string, JNumber (FormatInt (si_Size s)));
           (str "checksum"%string, JNumber (FormatUint (si_Checksum s)))].

Definition segment_info_fields : list (bytes * decoder WALSegmentInfo) :=
  [(str "fileName"%string, field si_FileName dec_string); (str "size"%string, field si_Size dec_int64);
   (str "checksum"%string, field si_Checksum (dec_uint (2 ^ 32)))].

Definition manifest_json (m : Manifest) : json :=
  JObject [(str "formatVersion"%string, JNumber (FormatUint (mf_FormatVersion m)));
           (str "chronicledbVersion"%string, JString (mf_ChronicleDBVersion m));
           (str "clusterId"%string, JString (mf_ClusterID m));
           (str "lastIncludedIndex"%string, JNumber (FormatUint (mf_LastIncludedIndex m)));
           (str "lastIncludedTerm"%string, JNumber (FormatUint (mf_LastIncludedTerm m)));
           (str "snapshotFile"%string, JString (mf_SnapshotFile m));
           (str "snapshotSize"%string, JNumber (FormatInt (mf_SnapshotSize m)));
           (str "snapshotChecksum"%string, JNumber (FormatUint (mf_SnapshotChecksum m)));
           (str "walFromIndex"%string, JNumber (FormatUint (mf_WALFromIndex m)));
           (str "walUntilIndex"%string, JNumber (FormatUint (mf_WALUntilIndex m)));
           (str "walSegments"%string, JArray (segment_info_json <$> mf_WALSegments m));
           (str "createdAtUnixNano"%string, JNumber (FormatInt (mf_CreatedAtUnixNano m)))].

Definition manifest_fields : list (bytes * decoder Manifest) :=
  [(str "formatVersion"%string, field mf_FormatVersion (dec_uint (2 ^ 8)));
   (str "chronicledbVersion"%string, field mf_ChronicleDBVersion dec_string);
   (str "clusterId"%string, field mf_ClusterID dec_string);
   (str "lastIncludedIndex"%string, field mf_LastIncludedIndex (dec_uint (2 ^ 64)));
   (str "lastIncludedTerm"%string, field mf_LastIncludedTerm (dec_uint (2 ^ 64)));
   (str "snapshotFile"%string, field mf_SnapshotFile dec_string);
   (str "snapshotSize"%string, field mf_SnapshotSize dec_int64);
   (str "snapshotChecksum"%string, field mf_SnapshotChecksum (dec_uint (2 ^ 32)));
   (str "walFromIndex"%string, field mf_WALFromIndex (dec_uint (2 ^ 64)));
   (str "walUntilIndex"%string, field mf_WALUntilIndex (dec_uint (2 ^ 64)));
   (str "walSegments"%string, field mf_WALSegments (dec_slice (mkSegmentInfo [] 0 0) (dec_struct segment_info_fields)));
   (str "createdAtUnixNano"%string, field mf_CreatedAtUnixNano dec_int64)].

Definition zero_manifest : Manifest := mkManifest 0 [] [] 0 0 [] 0 0 0 0 [] 0.

Inductive backup_error :=
| BkCorrupt
| BkUnsupportedVersion
| BkMissingComponent
| BkTargetNotClean
| BkInvalidBoundary
| BkUntilBeforeBase
| BkNoSnapshotFile
| BkIndexMismatch
| BkTargetExists
| BkSnapshot (e : snapshot_error)
| BkWal (e : wal_error).

(** The JSON text and a line with its checksum. *)
Definition manifest_bytes (m : Manifest) : bytes :=
  let body := MarshalIndent (manifest_json m) in
  body ++ [10] ++ hex_put 8 (crc32 body) ++ [10].

Definition writeManifest (outDir : Dir) (m : Manifest) : Dir := WriteFileDurable manifestFileName (manifest_bytes m) outDir.

Definition readManifest (dir : Dir) : result backup_error Manifest :=
  match d_files dir !! manifestFileName with
  | None => Err BkMissingComponent
  | Some raw =>
      match split_last 10 (TrimRight 10 raw) with
      | None => Err BkCorrupt
      | Some (body, line) =>
          match ParseHex32 (TrimSpace line) with
          | None => Err BkCorrupt
          | Some wantCRC =>
              if negb (wantCRC =? crc32 body) then Err BkCorrupt else
              match Unmarshal (dec_struct manifest_fields) body zero_manifest with
              | None => Err BkCorrupt
              | Some m => if negb (mf_FormatVersion m =? BackupFormatVersion) then Err BkUnsupportedVersion else Ok m
              end
          end
      end
  end.

(** ** Directories *)

(** A backup: [manifest.json], [snapshot/] and [wal/]. *)
Record BackupDir := mkBackupDir { bd_root : Dir; bd_snapshot : Dir; bd_wal : Disk }.
#[export] Instance BackupDir_eta : Eta BackupDir := λ d, mkBackupDir (bd_root d) (bd_snapshot d) (bd_wal d).
#[export] Instance set_bd_root : Setter bd_root.
Proof. derive_setter. Defined.
#[export] Instance set_bd_snapshot : Setter bd_snapshot.
Proof. derive_setter. Defined.
#[export] Instance set_bd_wal : Setter bd_wal.
Proof. derive_setter. Defined.

Definition no_files : Dir := mkDir ∅ ∅ [].
Definition empty_backup : BackupDir := mkBackupDir no_files no_files [].

(** A node's data directory: segments at its root, [snapshot/], and the names
    of whatever else is there. *)
Record DataDir := mkDataDir { dd_wal : Disk; dd_snapshot : option Dir; dd_other : list bytes }.

(** ** Export *)

Definition UntilLatest : Z := 2 ^ 64 - 1.

Record Source := mkSource {
  src_BaseMeta : Meta; src_BaseFSM : FSM; src_WAL : WAL; src_SnapshotWriteVersion : Z
}.
Record ExportOptions := mkExportOptions { eo_UntilIndex : Z; eo_ClusterID : bytes }.

Definition as_backup {A} (r : result wal_error A) : result backup_error A :=
  match r with Ok a => Ok a | Err e => Err (BkWal e) end.

(** A new log that starts behind a snapshot. *)
Definition newBaseWAL (dir : Disk) (nodeID : bytes) (baseIndex : Z) : result backup_error WAL :=
  as_backup (
    w ← Open dir nodeID 0;
    w ← AppendMetadataSnapshot w baseIndex;
    Truncate w (baseIndex + 1)%u64).

(** The loop over the iterator: it stops at the bound, or with the
    iterator's error once it gets there. *)
Fixpoint copy_records (transform : bytes → bytes) (untilIndex : Z) (recs : list Record_) (e : option wal_error) (dst : WAL)
    (last : Z) : WAL * result backup_error Z :=
  match recs with
  | [] => (dst, match e with Some e => Err (BkWal e) | None => Ok last end)
  | rec :: recs =>
      if negb (untilIndex =? UntilLatest) && (untilIndex <? r_Index rec) then (dst, Ok last) else
      match AppendLogEntry dst (transform (r_Payload rec)) with
      | Err e => (dst, Err (BkWal e))
      | Ok (dst, idx) =>
          if negb (idx =? r_Index rec) then (dst, Err BkIndexMismatch)
          else copy_records transform untilIndex recs e dst (r_Index rec)
      end
  end.

Definition copyWALSuffix (src dst : WAL) (baseIndex untilIndex : Z) (transform : bytes → bytes) : WAL * result backup_error Z :=
  match Replay src (baseIndex + 1)%u64 with
  | Err e => (dst, Err (BkWal e))
  | Ok (recs, e) => copy_records transform untilIndex recs e dst baseIndex
  end.

(** [os.ReadDir] lists by name. *)
Definition readSoleSnapshotFile (files : gmap bytes bytes) : result backup_error (bytes * bytes) :=
  match list_find (λ e, HasSuffix e.1 snapshotFileSuffix = true) (sorted_entries files) with
  | Some (_, e) => Ok e
  | None => Err BkNoSnapshotFile
  end.

Definition describe_segment (s : Segment) : WALSegmentInfo :=
  mkSegmentInfo (SegmentFileName (seg_id s)) (zlen (seg_bytes s)) (crc32 (seg_bytes s)).
Definition describeWALSegments (d : Disk) : list WALSegmentInfo := describe_segment <$> d.

(** The directory after the call, also when it fails. *)
Definition ExportBackup (now : Z) (nodeID : bytes) (src : Source) (opts : ExportOptions) (d : BackupDir)
    : BackupDir * result backup_error Manifest :=
  let meta := src_BaseMeta src in
  let base := LastIncludedIndex meta in
  let until := eo_UntilIndex opts in
  if negb (until =? UntilLatest) && (until <? base) then (d, Err BkUntilBeforeBase) else
  let snapMgr := NewSnapManager (bd_snapshot d) in
  let d := d <| bd_snapshot := mg_dir snapMgr |> in
  let writeVersion := if src_SnapshotWriteVersion src =? 0 then MinReadVersion else src_SnapshotWriteVersion src in
  match Create snapMgr meta (src_BaseFSM src) writeVersion with
  | Err e => (d, Err (BkSnapshot e))
  | Ok (snapMgr, _) =>
      let d := d <| bd_snapshot := mg_dir snapMgr |> in
      match readSoleSnapshotFile (d_files (bd_snapshot d)) with
      | Err e => (d, Err e)
      | Ok (snapFileName, snapBytes) =>
          match newBaseWAL (bd_wal d) nodeID base with
          | Err e => (d, Err e)
          | Ok bw =>
              match copyWALSuffix (src_WAL src) bw base until (λ p, p) with
              | (bw, Err e) => (d <| bd_wal := w_disk bw |>, Err e)
              | (bw, Ok walUntil) =>
                  match as_backup (w ← Sync bw; Close w) with
                  | Err e => (d <| bd_wal := w_disk bw |>, Err e)
                  | Ok bw =>
                      let d := d <| bd_wal := w_disk bw |> in
                      let m := mkManifest BackupFormatVersion BuildVersion (eo_ClusterID opts) base (LastIncludedTerm meta)
                                 snapFileName (zlen snapBytes) (crc32 snapBytes) (base + 1)%u64 walUntil
                                 (describeWALSegments (bd_wal d)) now in
                      (d <| bd_root := writeManifest (bd_root d) m |>, Ok m)
                  end
              end
          end
      end
  end.

(** ** Membership in a restored log ([membership.go]) *)

Definition entryPayloadTypeSentinelByte : Z := 0xFF.
Definition entryTypeConfigByte : Z := 1.
Definition entryPayloadTypedHeaderLen : Z := 8 + 1 + 1.
Definition voidedConfigChangePayload : bytes := [0xF0; 19] ++ replicate 16 0.

Definition voidConfigEntryPayload (payload : bytes) : bytes :=
  if zlen payload <? entryPayloadTypedHeaderLen then payload
  else if negb (nth 8 payload 0 =? entryPayloadTypeSentinelByte) || negb (nth 9 payload 0 =? entryTypeConfigByte) then payload
  else take (Z.to_nat entryPayloadTypedHeaderLen) payload ++ voidedConfigChangePayload.

Definition voidRestoredMembershipEntries : bool := true.

Definition stripSnapshotConfiguration (snapBytes : bytes) : result snapshot_error bytes :=
  snap ← Decode snapBytes;
  if negb (HasConfiguration (snap_Meta snap)) then Ok snapBytes else
  let meta := snap_Meta snap in
  Encode (mkMeta (LastIncludedIndex meta) (LastIncludedTerm meta) false zero_SnapConfiguration) (snap_FSM snap) SnapFormatVersion.

(** ** Restore *)

Record RestoreOptions := mkRestoreOptions { ro_UntilIndex : Z; ro_Force : bool }.
Record RestoreResult := mkRestoreResult { rr_Manifest : Manifest; rr_RestoredUntilIndex : Z }.

Definition verifySnapshotComponent (backup : BackupDir) (m : Manifest) : result backup_error bytes :=
  if bool_decide (mf_SnapshotFile m = []) then Err BkCorrupt else
  match d_files (bd_snapshot backup) !! mf_SnapshotFile m with
  | None => Err BkMissingComponent
  | Some data =>
      if negb (zlen data =? mf_SnapshotSize m) || negb (crc32 data =? mf_SnapshotChecksum m) then Err BkCorrupt else
      match Decode data with
      | Err SnapshotPanic => Err (BkSnapshot SnapshotPanic)
      | Err _ => Err BkCorrupt
      | Ok snap =>
          if negb (LastIncludedIndex (snap_Meta snap) =? mf_LastIncludedIndex m) ||
             negb (LastIncludedTerm (snap_Meta snap) =? mf_LastIncludedTerm m) then Err BkCorrupt else Ok data
      end
  end.

Definition segment_file (d : Disk) (name : bytes) : option bytes :=
  (λ x, seg_bytes x.2) <$> list_find (λ s, SegmentFileName (seg_id s) = name) d.

Fixpoint verifyWALSegmentComponents (d : Disk) (segs : list WALSegmentInfo) : result backup_error () :=
  match segs with
  | [] => Ok ()
  | seg :: segs =>
      match segment_file d (si_FileName seg) with
      | None => Err BkMissingComponent
      | Some data =>
          if negb (zlen data =? si_Size seg) || negb (crc32 data =? si_Checksum seg) then Err BkCorrupt
          else verifyWALSegmentComponents d segs
      end
  end.

(** The data directory built beside the target, and the log of the backup,
    which is opened to be read. *)
Definition buildStaging (nodeID : bytes) (backupWAL : Disk) (m : Manifest) (snapBytes : bytes) (until : Z)
    : result backup_error (DataDir * Disk) :=
  let base := mf_LastIncludedIndex m in
  match stripSnapshotConfiguration snapBytes with
  | Err e => Err (BkSnapshot e)
  | Ok stagedSnapBytes =>
      match Install (NewSnapManager no_files) stagedSnapBytes with
      | Err e => Err (BkSnapshot e)
      | Ok (snapMgr, installedSnap) =>
          sw ← newBaseWAL [] nodeID base;
          sw ← as_backup (SetClusterGeneration sw (f_clusterGeneration (snap_FSM installedSnap)));
          srcWAL ← as_backup (Open backupWAL nodeID 0);
          let transform := if voidRestoredMembershipEntries then voidConfigEntryPayload else λ p, p in
          let '(sw, copied) := copyWALSuffix srcWAL sw base until transform in
          _ ← copied;
          _ ← as_backup (Close srcWAL);
          sw ← as_backup (w ← Sync sw; Close w);
          Ok (mkDataDir (w_disk sw) (Some (mg_dir snapMgr)) [], w_disk srcWAL)
      end
  end.

(** An absent or empty directory. *)
Definition dataDirIsClean (target : option DataDir) : bool :=
  match target with
  | None => true
  | Some dd =>
      bool_decide (dd_wal dd = []) && bool_decide (dd_other dd = []) &&
      match dd_snapshot dd with Some _ => false | None => true end
  end.

(** The validation that precedes every write: the manifest, the bytes of its
    snapshot and the index to restore up to. *)
Definition validate_backup (backup : BackupDir) (opts : RestoreOptions) : result backup_error (Manifest * bytes * Z) :=
  m ← readManifest (bd_root backup);
  snapBytes ← verifySnapshotComponent backup m;
  _ ← verifyWALSegmentComponents (bd_wal backup) (mf_WALSegments m);
  let until := if ro_UntilIndex opts =? UntilLatest then mf_WALUntilIndex m else ro_UntilIndex opts in
  if (until <? mf_LastIncludedIndex m) || (mf_WALUntilIndex m <? until) then Err BkInvalidBoundary else
  Ok (m, snapBytes, until).

(** [os.Rename] refuses an existing directory as its target. *)
Definition Rename (staging : DataDir) (target : option DataDir) : option DataDir * result backup_error () :=
  match target with
  | None => (Some staging, Ok ())
  | Some _ => (target, Err BkTargetExists)
  end.

(** The backup and the target after the call, also when it fails. *)
Definition Restore (nodeID : bytes) (opts : RestoreOptions) (backup : BackupDir) (target : option DataDir)
    : BackupDir * option DataDir * result backup_error RestoreResult :=
  match validate_backup backup opts with
  | Err e => (backup, target, Err e)
  | Ok (m, snapBytes, until) =>
      let clean := dataDirIsClean target in
      if negb clean && negb (ro_Force opts) then (backup, target, Err BkTargetNotClean) else
      match buildStaging nodeID (bd_wal backup) m snapBytes until with
      | Err e => (backup, target, Err e)
      | Ok (staging, backupWAL) =>
          let backup := backup <| bd_wal := backupWAL |> in
          let target := if negb clean then None else target in
          match Rename staging target with
          | (target, Err e) => (backup, target, Err e)
          | (target, Ok _) => (backup, target, Ok (mkRestoreResult m until))
          end
      end
  end.
