(* ===== verification/BackupSpec.v ===== *)
(** * Backups restore what they captured

    The manifest round trip, the logs that [Export] and [Restore] write, and
    their composition: the data directory restored from an export opens as a
    node with the snapshot and the log entries of the source.  The last part
    proves what goes wrong: the term of the restored node, a target directory
    that exists, and a second export into the same directory. *)

From Stdlib Require Import String.
From stdpp Require Import functions.
From S2P Require Import Prelude Bytes Hash Scrub Json JsonSpec Mvcc FsmCommand Fsm FsmSnapshot WalRecord Wal WalSpec RaftTypes Storage StorageSpec Snapshot SnapshotSpec Backup.

(** ** The manifest *)

Record segment_info_ok (s : WALSegmentInfo) : Prop := {
  sio_name : text_ok (si_FileName s);
  sio_size : is_int64 (si_Size s);
  sio_checksum : is_u32 (si_Checksum s)
}.

Record manifest_ok (m : Manifest) : Prop := {
  mo_version : mf_FormatVersion m = BackupFormatVersion;
  mo_build : text_ok (mf_ChronicleDBVersion m);
  mo_cluster : text_ok (mf_ClusterID m);
  mo_lastIndex : is_u64 (mf_LastIncludedIndex m);
  mo_lastTerm : is_u64 (mf_LastIncludedTerm m);
  mo_file : text_ok (mf_SnapshotFile m);
  mo_size : is_int64 (mf_SnapshotSize m);
  mo_checksum : is_u32 (mf_SnapshotChecksum m);
  mo_from : is_u64 (mf_WALFromIndex m);
  mo_until : is_u64 (mf_WALUntilIndex m);
  mo_segments : Forall segment_info_ok (mf_WALSegments m);
  mo_created : is_int64 (mf_CreatedAtUnixNano m)
}.

Lemma segment_info_tree s : segment_info_ok s → json_ok (segment_info_json s) ∧ json_depth (segment_info_json s) = 1%nat.
Proof.
  intros [[H1 _] H2 H3]. split; [|done]. unfold segment_info_json. cbn [json_ok foldr fst snd].
  repeat (split; [by apply key_ok|split]); [done|by apply int_ok|by apply u32_uint_ok|done].
Qed.

Lemma manifest_tree m :
  manifest_ok m → json_ok (manifest_json m) ∧ (json_depth (manifest_json m) ≤ maxNestingDepth)%nat.
Proof.
  intros [H1 [H2 _] [H3 _] H4 H5 [H6 _] H7 H8 H9 H10 H11 H12]. split.
  - unfold manifest_json. cbn [json_ok foldr fst snd]. rewrite H1.
    repeat (split; [by apply key_ok|split]); try done; try (by apply uint_ok); try (by apply u32_uint_ok); try (by apply int_ok).
    apply array_ok_Forall, Forall_fmap. eapply Forall_impl; [exact H11|]. intros s Hs. by apply segment_info_tree.
  - change maxNestingDepth with (S (S (maxNestingDepth - 2))). cbn [json_depth manifest_json].
    apply le_n_S, Forall_depth. do 10 (apply Forall_cons; split; [apply Nat.le_0_l|]).
    apply Forall_cons; split; [|apply Forall_cons; split; [apply Nat.le_0_l|by apply Forall_nil]].
    cbn [snd json_depth]. apply le_n_S, Forall_depth, Forall_fmap. eapply Forall_impl; [exact H11|].
    intros s Hs. destruct (segment_info_tree s Hs) as [_ E]. unfold compose. rewrite E. apply le_n_S, Nat.le_0_l.
Qed.

Lemma segment_info_stored s :
  segment_info_ok s →
  dec_struct segment_info_fields (coerce_json (segment_info_json s)) (mkSegmentInfo [] 0 0) = Some s.
Proof.
  intros [H1 H2 H3]. unfold segment_info_json. rewrite coerce_members by plain_keys.
  rewrite dec_struct_all; [|apply (bool_decide_eq_true_1 (NoDup _)); vm_compute; reflexivity|reflexivity].
  cbn [fmap list_fmap segment_info_fields fst snd coerce_json store_all]. unfold field. cbn [dec_string fmap option_fmap option_map].
  rewrite text_coerce by done. rewrite dec_int64_format by done. cbn [fmap option_fmap option_map].
  rewrite dec_uint_format by (done || unfold is_u32 in *; lia). by destruct s.
Qed.

(** Store one field, and write the record out again. *)
Ltac store_field H :=
  rewrite (field_reads _ _ _ _ _ H);
  cbv beta iota delta [modify set_mf_FormatVersion set_mf_ChronicleDBVersion set_mf_ClusterID set_mf_LastIncludedIndex
       set_mf_LastIncludedTerm set_mf_SnapshotFile set_mf_SnapshotSize set_mf_SnapshotChecksum
       set_mf_WALFromIndex set_mf_WALUntilIndex set_mf_CreatedAtUnixNano
       mf_FormatVersion mf_ChronicleDBVersion mf_ClusterID mf_LastIncludedIndex mf_LastIncludedTerm mf_SnapshotFile
       mf_SnapshotSize mf_SnapshotChecksum mf_WALFromIndex mf_WALUntilIndex mf_WALSegments mf_CreatedAtUnixNano].

Lemma manifest_fields_stored v1 v2 v3 v4 v5 v6 v7 v8 v9 v10 v11 v12 m :
  reads_as (dec_uint (2 ^ 8)) v1 (mf_FormatVersion m) → reads_as dec_string v2 (mf_ChronicleDBVersion m) →
  reads_as dec_string v3 (mf_ClusterID m) → reads_as (dec_uint (2 ^ 64)) v4 (mf_LastIncludedIndex m) →
  reads_as (dec_uint (2 ^ 64)) v5 (mf_LastIncludedTerm m) → reads_as dec_string v6 (mf_SnapshotFile m) →
  reads_as dec_int64 v7 (mf_SnapshotSize m) → reads_as (dec_uint (2 ^ 32)) v8 (mf_SnapshotChecksum m) →
  reads_as (dec_uint (2 ^ 64)) v9 (mf_WALFromIndex m) → reads_as (dec_uint (2 ^ 64)) v10 (mf_WALUntilIndex m) →
  dec_slice (mkSegmentInfo [] 0 0) (dec_struct segment_info_fields) v11 [] = Some (mf_WALSegments m) →
  reads_as dec_int64 v12 (mf_CreatedAtUnixNano m) →
  store_all (manifest_fields.*2) [v1; v2; v3; v4; v5; v6; v7; v8; v9; v10; v11; v12] zero_manifest = Some m.
Proof.
  intros H1 H2 H3 H4 H5 H6 H7 H8 H9 H10 H11 H12. unfold manifest_fields, zero_manifest. rewrite !fmap_cons, fmap_nil. cbn [snd store_all].
  store_field H1. store_field H2. store_field H3. store_field H4. store_field H5. store_field H6.
  store_field H7. store_field H8. store_field H9. store_field H10.
  unfold field at 1. cbn [mf_WALSegments]. rewrite H11. cbv beta iota delta [fmap option_fmap option_map modify set_mf_WALSegments mf_FormatVersion mf_ChronicleDBVersion mf_ClusterID
    mf_LastIncludedIndex mf_LastIncludedTerm mf_SnapshotFile mf_SnapshotSize mf_SnapshotChecksum mf_WALFromIndex
    mf_WALUntilIndex mf_WALSegments mf_CreatedAtUnixNano].
  store_field H12. by destruct m.
Qed.

Lemma manifest_stored m :
  manifest_ok m → dec_struct manifest_fields (coerce_json (manifest_json m)) zero_manifest = Some m.
Proof.
  intros [H1 H2 H3 H4 H5 H6 H7 H8 H9 H10 H11 H12]. unfold manifest_json. rewrite coerce_members by plain_keys.
  rewrite dec_struct_all; [|apply (bool_decide_eq_true_1 (NoDup _)); vm_compute; reflexivity|reflexivity].
  rewrite !fmap_cons, fmap_nil. cbn [snd fst].
  apply manifest_fields_stored; try intros old; cbn [coerce_json].
  all: try (rewrite text_coerce by done; reflexivity).
  all: try (apply dec_uint_format; unfold is_u64, is_u32, BackupFormatVersion in *; lia).
  all: try (by apply dec_int64_format).
  cbn [dec_slice]. rewrite <- list_fmap_compose.
  apply (store_elements_format _ _ (coerce_json ∘ segment_info_json)).
  intros s Hs. rewrite Forall_forall in H11. by apply segment_info_stored, H11.
Qed.

Lemma crc32_hex b : 0 ≤ crc32 b < 16 ^ Z.of_nat 8.
Proof. pose proof (crc32_range b). unfold is_u32 in *. change (16 ^ Z.of_nat 8) with (2 ^ 32). lia. Qed.

(** The manifest is read as it was written. *)
Lemma read_write_manifest dir m : manifest_ok m → readManifest (writeManifest dir m) = Ok m.
Proof.
  intros Hm. unfold readManifest, writeManifest, WriteFileDurable. cbn [d_files SyncDir modify set_d_files set_d_disk].
  rewrite lookup_insert_eq. unfold manifest_bytes. cbv zeta. remember (MarshalIndent (manifest_json m)) as body eqn:Hbody.
  destruct (hex_put_spec 8 (crc32 body) (crc32_hex body)) as (H1 & H2 & H3 & H4 & H5).
  remember (hex_put 8 (crc32 body)) as line eqn:Hline. clear Hline. destruct line as [|x l _] using rev_ind; [done|]. apply Forall_app in H5 as [H5 H5'].
  rewrite Forall_singleton in H5'.
  replace (body ++ [10] ++ (l ++ [x]) ++ [10]) with ((body ++ 10 :: l) ++ [x] ++ [10]) by (by rewrite <- !app_assoc).
  rewrite TrimRight_one by done. rewrite <- app_assoc. cbn [app].
  rewrite split_last_app by (apply Forall_app_2; [done|by apply Forall_singleton]).
  rewrite TrimSpace_plain by done. unfold ParseHex32. rewrite H2, H3. unfold zlen. rewrite H1.
  rewrite (proj2 (Z.ltb_lt _ _)) by (pose proof (crc32_range body); unfold is_u32 in *; lia). cbn [negb andb].
  change (Z.of_nat 8 =? 0) with false. cbn [negb andb]. cbv beta iota. rewrite Z.eqb_refl. cbn [negb].
  rewrite Hbody. destruct (manifest_tree m Hm) as [T1 T2]. rewrite Unmarshal_MarshalIndent by done.
  rewrite manifest_stored by done. by rewrite (mo_version m Hm).
Qed.

(** ** The state a snapshot carries, captured again *)

Lemma EncodeState_view f : EncodeState (snapshot_view f) = EncodeState f.
Proof.
  unfold EncodeState, encode_generation_block, encode_membership_block, encode_gc_block.
  unfold snapshot_view, view_control, view_membership, view_gc. cbv zeta.
  cbn [f_store f_outcomes f_clusterGeneration f_controlOutcomes f_membershipOutcomes f_gcWatermark f_gcCursor f_gcPasses f_gcPassSeq].
  by destruct (0 <? f_clusterGeneration f), (2 <=? f_clusterGeneration f), (3 <=? f_clusterGeneration f).
Qed.

Lemma snapshot_view_idemp f : snapshot_view (snapshot_view f) = snapshot_view f.
Proof.
  unfold snapshot_view, view_control, view_membership, view_gc. cbv zeta.
  cbn [f_store f_outcomes f_clusterGeneration f_controlOutcomes f_membershipOutcomes f_gcWatermark f_gcCursor f_gcPasses f_gcPassSeq].
  by destruct (0 <? f_clusterGeneration f), (2 <=? f_clusterGeneration f), (3 <=? f_clusterGeneration f).
Qed.

Lemma state_ok_view f : state_ok f → state_ok (snapshot_view f).
Proof.
  intros [[H1a H1b H1c H1d] H2 H3 H4 H5 H6 H7 (H8 & H9 & H10) H11].
  constructor; [by constructor|done|done|done| | |done| |by rewrite EncodeState_view].
  - intros id o. cbn. unfold view_control. destruct (0 <? f_clusterGeneration f); [apply H5|by rewrite lookup_empty].
  - intros id e. cbn. unfold view_membership. destruct (2 <=? f_clusterGeneration f); [apply H6|by rewrite lookup_empty].
  - cbn. unfold view_gc. destruct (3 <=? f_clusterGeneration f); cbn; [done|]. unfold is_u64. lia.
Qed.

Lemma state_below_view n f : state_ok f → state_below n f → state_below n (snapshot_view f).
Proof.
  intros Hok Hb. destruct (decode_encode_state f Hok) as (seq & Hd & _ & Hseq).
  eapply state_below_mono; [by apply Hseq|]. by eapply DecodeState_below.
Qed.

(** ** Logs *)

(** The records determine what the log keeps in memory. *)
Lemma facts_det rs m n hs m' n' hs' :
  hist_facts rs m n hs → hist_facts rs m' n' hs' → m = m' ∧ n = n' ∧ hs = hs'.
Proof.
  intros [_ _ Hn _ _ Hl Hs] [_ _ Hn' _ _ Hl' Hs']. rewrite Hs in Hs'. injection Hs' as <- <-.
  split; [done|]. split; [|done]. rewrite Hl in Hl'. apply (f_equal length) in Hl'. rewrite !length_seqZ in Hl'. lia.
Qed.

(** A log that holds these records, with this metadata, next index and hard state. *)
Record log_at (w : WAL) (base rs : list Record_) (m : Metadata) (n : Z) (hs : bytes) : Prop := {
  la_inv : wal_inv w base rs;
  la_meta : w_metadata w = m;
  la_next : w_nextLogIndex w = n;
  la_hs : w_latestHardState w = hs
}.

Lemma log_at_intro w base rs m n hs : wal_inv w base rs → hist_facts rs m n hs → log_at w base rs m n hs.
Proof.
  intros Hi Hf. destruct (facts_det rs _ _ _ m n hs (hist_has_facts _ _ _ _ _ (wi_hist _ _ _ Hi)) Hf) as (H1 & H2 & H3).
  by constructor.
Qed.

Lemma log_at_hist w base rs m n hs : log_at w base rs m n hs → hist base rs m n hs.
Proof. intros [Hi <- <- <-]. apply Hi. Qed.

Lemma log_at_do w base rs m n hs op :
  log_at w base rs m n hs → op_ok w op → ∃ w', wal_do w op = Ok w' ∧ wal_inv w' base (rs ++ op_records w op).
Proof. intros [Hi _ _ _] Hop. by apply wal_do_inv. Qed.

Lemma log_at_append w base rs m n hs p :
  log_at w base rs m n hs → payload_ok p → n + 1 < 2 ^ 64 →
  ∃ w', AppendLogEntry w p = Ok (w', n) ∧ log_at w' base (rs ++ [log_rec n p]) m (n + 1) hs.
Proof.
  intros Hl Hp Hn. pose proof Hl as [Hi Hm Hx Hh]. destruct (log_at_do _ _ _ _ _ _ (OpLog p) Hl) as (w' & Hdo & Hi').
  { split; [done|by rewrite Hx]. }
  cbn [wal_do op_records] in *. rewrite Hx in Hi'.
  apply bind_Ok_inv in Hdo as ([w1 i] & Ha & Hw). injection Hw as ->. exists w'. split.
  - rewrite Ha. do 2 f_equal. unfold AppendLogEntry in Ha. rewrite (wi_open _ _ _ Hi) in Ha.
    apply bind_Ok_inv in Ha as (w2 & _ & E). injection E as _ <-. exact Hx.
  - apply log_at_intro; [done|]. apply (hist_has_facts base). apply hist_log; [by apply (log_at_hist w)|done|done].
Qed.

Lemma log_at_sync w base rs m n hs :
  log_at w base rs m n hs →
  ∃ w' w'', Sync w = Ok w' ∧ Close w' = Ok w'' ∧ w_disk w'' = w_disk w' ∧ log_at w' base rs m n hs.
Proof.
  intros Hl. destruct (log_at_do _ _ _ _ _ _ OpSync Hl ltac:(done)) as (w' & Hdo & Hi'). rewrite app_nil_r in Hi'.
  exists w', (w' <| w_closed := true |>). split; [done|]. split; [unfold Close; by rewrite (wi_open _ _ _ Hi')|].
  split; [done|]. apply log_at_intro; [done|]. by eapply (hist_has_facts base), log_at_hist.
Qed.

Lemma log_at_reopen w base rs m n hs nid maxsz :
  log_at w base rs m n hs →
  ∃ w', Open (w_disk w) nid maxsz = Ok w' ∧ w_disk w' = w_disk w ∧ log_at w' base rs m n hs ∧
    w_firstLogIndex w' = md_LatestSnapshotIndex m + 1.
Proof.
  intros Hl. pose proof Hl as [[Ho Hh Hf Hlay] Hm Hx Hhs].
  pose proof Hlay as [_ _ _ (d0 & s & rss & rl & Hd & Hc & Hd0 & [Hb Hok] & -> & _)].
  destruct (open_facts d0 s rss rl [] m n hs nid maxsz) as (sz & HO); [done|by rewrite app_nil_r|done|apply torn_nil| |].
  { by eapply (hist_has_facts base), log_at_hist. }
  rewrite decide_True in HO by done. rewrite Hd. eexists. split; [exact HO|]. split; [done|]. split; [|done].
  constructor; [|done|done|done]. constructor; [done|by eapply log_at_hist|done|]. cbn. rewrite <- Hd, Hc. done.
Qed.

Definition id_ok (nid : bytes) : Prop := wf_bytes nid ∧ zlen nid < 2 ^ 16.
Definition base_meta (nid : bytes) (b : Z) : Metadata := mkMetadata nid FormatVersion b 0.
Definition base_records (nid : bytes) (b : Z) : list Record_ := [meta_rec (fresh_meta nid); meta_rec (base_meta nid b)].

Lemma newBaseWAL_ok nid b :
  id_ok nid → 0 ≤ b → b + 1 < 2 ^ 64 →
  ∃ w, newBaseWAL [] nid b = Ok w ∧ log_at w [meta_rec (fresh_meta nid)] (base_records nid b) (base_meta nid b) (b + 1) [].
Proof.
  intros [Hn Hl] Hb Hb1. destruct (open_fresh nid 0 Hn Hl) as (w & HO & Hi & _).
  pose proof (fresh_meta_good nid Hn Hl) as Hg.
  assert (Hw : log_at w [meta_rec (fresh_meta nid)] [meta_rec (fresh_meta nid)] (fresh_meta nid) 1 []).
  { apply log_at_intro; [done|]. by apply fresh_facts. }
  destruct (log_at_do _ _ _ _ _ _ (OpInstall b) Hw) as (w' & Hdo & Hi').
  { split; [rewrite (la_next _ _ _ _ _ _ Hw); lia|done]. }
  exists w'. unfold newBaseWAL. rewrite HO, bind_Ok. cbn [wal_do op_records] in *. rewrite Hdo. split; [done|].
  rewrite (la_meta _ _ _ _ _ _ Hw) in Hi'. change ((fresh_meta nid) <| md_LatestSnapshotIndex := b |>) with (base_meta nid b) in Hi'.
  apply log_at_intro; [exact Hi'|]. apply (hist_has_facts [meta_rec (fresh_meta nid)]).
  change (base_records nid b) with ([meta_rec (fresh_meta nid)] ++ [meta_rec (base_meta nid b)]).
  replace (b + 1) with (Z.max 1 (md_LatestSnapshotIndex (base_meta nid b) + 1)) by (cbn; lia).
  apply (hist_meta _ _ (fresh_meta nid)); [apply (log_at_hist w), Hw| |done|done].
  apply (meta_good_snapshot (fresh_meta nid) b Hg). unfold is_u64. lia.
Qed.

(** The records that [copyWALSuffix] copies up to a bound. *)
Definition within (untilIndex : Z) (rs : list Record_) : list Record_ :=
  filter (λ r, untilIndex = UntilLatest ∨ r_Index r ≤ untilIndex) rs.
Definition copied (transform : bytes → bytes) (rs : list Record_) : list Record_ :=
  (λ r, log_rec (r_Index r) (transform (r_Payload r))) <$> rs.

Lemma within_indices (until i k : Z) (rs : list Record_) :
  r_Index <$> rs = seqZ i k → i ≤ until + 1 ∨ until = UntilLatest → 0 ≤ k →
  r_Index <$> within until rs = seqZ i (if until =? UntilLatest then k else Z.min k (until + 1 - i)).
Proof.
  unfold within. revert i k. induction rs as [|r rs IH]; intros i k Hi Hu Hk.
  - assert (k = 0) as -> by (apply (f_equal length) in Hi; rewrite length_seqZ in Hi; cbn in Hi; lia).
    rewrite seqZ_nil; [done|]. destruct (until =? UntilLatest); lia.
  - assert (0 < k).
    { apply (f_equal length) in Hi. rewrite length_seqZ in Hi. cbn in Hi. lia. }
    rewrite fmap_cons, seqZ_cons in Hi by lia. injection Hi as Hr Hi. rewrite filter_cons.
    destruct (Z.eqb_spec until UntilLatest) as [->|Hne].
    + rewrite decide_True by auto. rewrite fmap_cons, (IH (Z.succ i) (Z.pred k)) by (auto || lia).
      rewrite (seqZ_cons i) by lia. by rewrite Hr.
    + destruct Hu as [Hu|]; [|done]. destruct (Z.le_gt_cases (r_Index r) until) as [Hd|Hd].
      * rewrite decide_True by (by right). rewrite fmap_cons, (IH (Z.succ i) (Z.pred k)) by first [done|lia|left; lia].
        rewrite (seqZ_cons i) by lia. rewrite Hr. do 2 f_equal. lia.
      * rewrite decide_False by (intros [|]; [done|lia]). rewrite seqZ_nil by lia.
        rewrite filter_none; [done|]. apply Forall_forall. intros x Hx [|Hle]; [done|].
        assert (Hin : r_Index x ∈ r_Index <$> rs) by (by apply list_elem_of_fmap_2). rewrite Hi in Hin.
        apply elem_of_seqZ in Hin. lia.
Qed.

Lemma copy_records_ok f until recs dst base rs m n hs :
  log_at dst base rs m n hs → r_Index <$> recs = seqZ n (zlen recs) → Forall (λ r, payload_ok (f (r_Payload r))) recs →
  n + zlen recs < 2 ^ 64 →
  ∃ dst', copy_records f until recs None dst (n - 1) = (dst', Ok (n - 1 + zlen (within until recs))) ∧
    log_at dst' base (rs ++ copied f (within until recs)) m (n + zlen (within until recs)) hs.
Proof.
  revert dst rs n. induction recs as [|r recs IH]; intros dst rs n Hl Hi Hp Hn.
  { exists dst. change (within until []) with (@nil Record_). cbn [copied fmap list_fmap]. rewrite zlen_nil, !Z.add_0_r, app_nil_r. done. }
  rewrite zlen_cons in *. pose proof (zlen_nonneg recs). rewrite fmap_cons, seqZ_cons in Hi by lia. injection Hi as Hr Hi.
  apply Forall_cons in Hp as [Hp0 Hp]. cbn [copy_records]. unfold within in *. rewrite filter_cons.
  destruct (Z.eqb_spec until UntilLatest) as [Hu|Hu]; cbn [negb andb];
    [|destruct (Z.ltb_spec until (r_Index r)) as [Hlt|Hge]].
  2: { exists dst. rewrite decide_False by (intros [|]; [done|lia]).
       assert (filter (λ r, until = UntilLatest ∨ r_Index r ≤ until) recs = []) as ->.
       { apply filter_none, Forall_forall. intros x Hx [|Hle]; [done|].
         assert (Hin : r_Index x ∈ r_Index <$> recs) by (by apply list_elem_of_fmap_2). rewrite Hi in Hin.
         apply elem_of_seqZ in Hin. lia. }
       cbn [copied fmap list_fmap]. rewrite zlen_nil, !Z.add_0_r, app_nil_r. done. }
  all: rewrite decide_True by (auto || right; lia);
    destruct (log_at_append _ _ _ _ _ _ (f (r_Payload r)) Hl Hp0 ltac:(lia)) as (w1 & -> & Hl1);
    rewrite Hr, Z.eqb_refl; cbn [negb];
    destruct (IH w1 (rs ++ [log_rec n (f (r_Payload r))]) (n + 1) Hl1) as (dst' & HC & Hl'); [|done|lia|];
    [rewrite Hi; f_equal; lia|];
    exists dst'; replace (n + 1 - 1) with n in HC by lia; rewrite HC, zlen_cons;
    (split; [do 2 f_equal; lia|]);
    unfold copied in *; rewrite fmap_cons, Hr; rewrite <- app_assoc in Hl'; cbn [app] in Hl';
    eapply (eq_rect _ (λ k, log_at dst' base _ m k hs)); [exact Hl'|lia].
Qed.

Lemma source_suffix w base rs m n hs b :
  log_at w base rs m n hs → md_LatestSnapshotIndex m ≤ b < n →
  Replay w (b + 1)%u64 = Ok (served (b + 1) rs, None) ∧ r_Index <$> served (b + 1) rs = seqZ (b + 1) (n - 1 - b) ∧
  Forall (λ r, payload_ok (r_Payload r)) (served (b + 1) rs).
Proof.
  intros Hl Hb. pose proof (hist_has_facts _ _ _ _ _ (log_at_hist _ _ _ _ _ _ Hl)) as [Hok _ Hn H0 _ Hlive _].
  pose proof Hl as [[Ho _ _ Hlay] _ _ _]. split_and!.
  - unfold Replay. rewrite Ho, u64_small by (unfold is_u64; lia). by rewrite (replay_layout _ (w_current w) rs).
  - rewrite served_indices. apply (live_suffix _ b) in Hlive; [|lia].
    replace (n - 1 - b) with (md_LatestSnapshotIndex m + (n - 1 - md_LatestSnapshotIndex m) - b) by lia.
    rewrite <- Hlive. apply list_filter_iff. intros i. lia.
  - apply Forall_forall. intros r [_ Hr]%list_elem_of_filter. rewrite Forall_forall in Hok.
    destruct (Hok r Hr) as [[_ H1] H2]. by split.
Qed.

Lemma copyWALSuffix_ok src sbase srs sm sn shs dst base rs m hs b until f :
  log_at src sbase srs sm sn shs → md_LatestSnapshotIndex sm ≤ b < sn → log_at dst base rs m (b + 1) hs →
  (∀ p, payload_ok p → payload_ok (f p)) →
  ∃ dst', copyWALSuffix src dst b until f = (dst', Ok (b + zlen (within until (served (b + 1) srs)))) ∧
    log_at dst' base (rs ++ copied f (within until (served (b + 1) srs))) m
      (b + 1 + zlen (within until (served (b + 1) srs))) hs.
Proof.
  intros Hs Hb Hd Hf. destruct (source_suffix _ _ _ _ _ _ b Hs Hb) as (H1 & H2 & H3).
  assert (Hz : zlen (served (b + 1) srs) = sn - 1 - b).
  { apply (f_equal length) in H2. rewrite length_fmap, length_seqZ in H2. unfold zlen. lia. }
  pose proof (hf_next _ _ _ _ (hist_has_facts _ _ _ _ _ (log_at_hist _ _ _ _ _ _ Hs))).
  destruct (copy_records_ok f until (served (b + 1) srs) dst base rs m (b + 1) hs Hd) as (dst' & HC & Hl).
  - by rewrite H2, Hz.
  - eapply Forall_impl; [exact H3|]. intros r. apply Hf.
  - lia.
  - exists dst'. replace (b + 1 - 1) with b in HC by lia. unfold copyWALSuffix. by rewrite H1.
Qed.

Lemma void_payload_ok p : payload_ok p → payload_ok (voidConfigEntryPayload p).
Proof.
  intros [H1 H2]. unfold voidConfigEntryPayload. destruct (_ <? _); [done|]. destruct (_ || _); [done|]. split.
  - apply Forall_app_2; [by apply Forall_take|]. by apply wf_bytes_compute.
  - rewrite zlen_app. change (zlen voidedConfigChangePayload) with 18. unfold zlen. rewrite length_take.
    unfold MaxRecordPayloadSize, entryPayloadTypedHeaderLen. lia.
Qed.

(** ** File names *)

Lemma plain_text s : plain s → text_ok s.
Proof.
  intros Hs. split.
  - eapply Forall_impl; [exact Hs|]. intros c [Hc _]. unfold is_byte. lia.
  - unfold utf8_valid. rewrite pieces_plain by done. induction Hs as [|c s [Hc _] Hs IH]; [done|].
    rewrite fmap_cons. cbn [forallb]. rewrite IH, andb_true_r. unfold valid_piece. cbn [DecodeRune length].
    rewrite (proj2 (Z.ltb_lt _ _)) by lia. cbn [fst]. unfold RuneError. by rewrite (proj2 (Z.eqb_neq _ _)) by lia.
Qed.

Lemma digits_plain l : forallb (λ d, (48 <=? d) && (d <=? 57)) l = true → plain l.
Proof.
  intros H. apply Forall_forall. intros d Hd. rewrite forallb_forall in H. apply list_elem_of_In, H in Hd. bool_to_prop.
  split; [lia|]. unfold rune_space. rewrite bool_decide_false, (proj2 (Z.leb_gt _ _)) by (set_solver by lia || lia). done.
Qed.

Lemma dec_width_upper fuel n v : 0 ≤ v < 10 ^ Z.of_nat (n + fuel) → v < 10 ^ Z.of_nat (dec_width fuel n v).
Proof.
  revert n. induction fuel as [|fuel IH]; intros n Hv; cbn [dec_width]; [rewrite Nat.add_0_r in Hv; lia|].
  destruct (Z.ltb_spec v (10 ^ Z.of_nat n)); [done|]. apply IH. by replace (S n + fuel)%nat with (n + S fuel)%nat by lia.
Qed.

Lemma SegmentFileName_digits i :
  is_u64 i → ∃ l, SegmentFileName i = l ++ segmentFileSuffix ∧ plain l ∧ dec_value l = i.
Proof.
  intros Hi. unfold SegmentFileName. eexists. split; [reflexivity|]. unfold is_u64, segmentIDWidth in *.
  pose proof (dec_width_upper 20 16 i) as Hu. change (Z.of_nat (16 + 20)) with 36 in Hu.
  destruct (dec_put_spec (dec_width 20 16 i) i) as (_ & H2 & H3); [lia|]. split; [by apply digits_plain|done].
Qed.

Lemma SegmentFileName_inj i j : is_u64 i → is_u64 j → SegmentFileName i = SegmentFileName j → i = j.
Proof.
  intros Hi Hj E. destruct (SegmentFileName_digits i Hi) as (l & E1 & _ & <-), (SegmentFileName_digits j Hj) as (l' & E2 & _ & <-).
  rewrite E1, E2 in E. by apply app_inv_tail in E as ->.
Qed.

Lemma SegmentFileName_text i : is_u64 i → text_ok (SegmentFileName i).
Proof.
  intros Hi. destruct (SegmentFileName_digits i Hi) as (l & -> & Hl & _). apply plain_text, Forall_app_2; [done|].
  repeat (apply Forall_cons; split; [split; [lia|vm_compute; reflexivity]|]). by apply Forall_nil.
Qed.

Lemma snapshotFileName_text i : is_u64 i → text_ok (snapshotFileName i).
Proof.
  intros Hi. destruct (dec_put_spec snapshotIDWidth i) as (_ & _ & H3).
  { unfold is_u64, snapshotIDWidth in *. change (10 ^ Z.of_nat 20) with 100000000000000000000. lia. }
  apply plain_text, Forall_app_2; [by apply digits_plain|].
  repeat (apply Forall_cons; split; [split; [lia|vm_compute; reflexivity]|]). by apply Forall_nil.
Qed.

Lemma snapshotFileName_suffix i : HasSuffix (snapshotFileName i) snapshotFileSuffix = true.
Proof.
  unfold HasSuffix, snapshotFileName. apply bool_decide_eq_true. rewrite length_app, Nat.add_sub. apply drop_app_length.
Qed.

(** ** Exports *)

Lemma readSoleSnapshotFile_one name data :
  HasSuffix name snapshotFileSuffix = true → readSoleSnapshotFile {[name := data]} = Ok (name, data).
Proof.
  intros H. unfold readSoleSnapshotFile.
  assert (sorted_entries {[name := data]} = [(name, data)]) as ->.
  { apply Permutation_singleton_r. rewrite sorted_entries_perm. by rewrite map_to_list_singleton. }
  cbn [list_find]. by rewrite decide_True.
Qed.

Lemma Encode_total meta f v : v = 1 ∨ v = 2 → ∃ data, Encode meta f v = Ok data.
Proof. intros [->| ->]; by eexists. Qed.

Lemma Encode_size meta f v data : capturable meta f → Encode meta f v = Ok data → is_int64 (zlen data).
Proof.
  intros ([_ _ Hc] & Hok & _) He. unfold Encode in He. destruct (_ || _); [done|]. cbv zeta in He.
  assert (data = snap_frame_body meta f v ++ put_u32 (crc32 (snap_frame_body meta f v))) as -> by congruence.
  unfold snap_frame_body. cbv zeta. pose proof (so_size f Hok). pose proof (zlen_section (HasConfiguration meta) _ Hc).
  assert (zlen (if 2 <=? v then encodeConfigSection (HasConfiguration meta) (meta_Configuration meta) else []) < 2 ^ 33).
  { destruct (2 <=? v); [done|]. rewrite zlen_nil. lia. }
  change magic with [67; 83; 78; 80]. unfold is_int64. zlen_lia.
Qed.

(** What a node hands to [Export]: its snapshot and the log behind it. *)
Record source_ok (src : Source) (sbase srs : list Record_) (sm : Metadata) (sn : Z) (shs : bytes) : Prop := {
  sk_state : capturable (src_BaseMeta src) (src_BaseFSM src);
  sk_version : 0 ≤ src_SnapshotWriteVersion src ≤ SnapFormatVersion;
  sk_log : log_at (src_WAL src) sbase srs sm sn shs;
  sk_base : md_LatestSnapshotIndex sm ≤ LastIncludedIndex (src_BaseMeta src) < sn;
  sk_generation : f_clusterGeneration (src_BaseFSM src) ≤ MaxSupportedGeneration
}.

Record export_ok (now : Z) (nid : bytes) (src : Source) (opts : ExportOptions) : Prop := {
  ek_now : is_int64 now;
  ek_id : id_ok nid;
  ek_cluster : text_ok (eo_ClusterID opts);
  ek_until : LastIncludedIndex (src_BaseMeta src) ≤ eo_UntilIndex opts ≤ UntilLatest
}.

Abbreviation base_of src := (LastIncludedIndex (src_BaseMeta src)).
Definition write_version (src : Source) : Z :=
  if src_SnapshotWriteVersion src =? 0 then MinReadVersion else src_SnapshotWriteVersion src.

(** The entries a backup captures. *)
Definition captured_entries (src : Source) (opts : ExportOptions) (srs : list Record_) : list Record_ :=
  within (eo_UntilIndex opts) (served (base_of src + 1) srs).

Lemma copied_id until from rs : copied (λ p, p) (within until (served from rs)) = within until (served from rs).
Proof.
  unfold copied. rewrite <- (list_fmap_id (within until (served from rs))) at 2. apply list_fmap_ext.
  intros k r Hr. apply list_elem_of_lookup_2, list_elem_of_filter in Hr as [_ [[Ht _] _]%list_elem_of_filter].
  destruct r as [t i p]. cbn in *. by subst.
Qed.

Lemma ExportBackup_ok now nid src opts sbase srs sm sn shs :
  source_ok src sbase srs sm sn shs → export_ok now nid src opts →
  ∃ data w m,
    Encode (src_BaseMeta src) (src_BaseFSM src) (write_version src) = Ok data ∧
    log_at w [meta_rec (fresh_meta nid)] (base_records nid (base_of src) ++ captured_entries src opts srs)
      (base_meta nid (base_of src)) (base_of src + 1 + zlen (captured_entries src opts srs)) [] ∧
    m = mkManifest BackupFormatVersion BuildVersion (eo_ClusterID opts) (base_of src) (LastIncludedTerm (src_BaseMeta src))
          (snapshotFileName (base_of src)) (zlen data) (crc32 data) (base_of src + 1)
          (base_of src + zlen (captured_entries src opts srs)) (describeWALSegments (w_disk w)) now ∧
    ExportBackup now nid src opts empty_backup =
      (mkBackupDir (writeManifest no_files m)
         (WriteFileDurable (snapshotFileName (base_of src)) data no_files) (w_disk w), Ok m).
Proof.
  intros [Hcap Hver Hlog Hbase _] [Hnow Hid Hcl Hun]. set (b := base_of src) in *.
  pose proof (hist_has_facts _ _ _ _ _ (log_at_hist _ _ _ _ _ _ Hlog)) as Hf. pose proof (hf_next _ _ _ _ Hf).
  pose proof (hf_snap _ _ _ _ Hf).
  destruct (Encode_total (src_BaseMeta src) (src_BaseFSM src) (write_version src)) as [data Hdata].
  { unfold write_version, SnapFormatVersion, MinReadVersion in *. destruct (Z.eqb_spec (src_SnapshotWriteVersion src) 0); lia. }
  destruct (newBaseWAL_ok nid b Hid ltac:(lia) ltac:(lia)) as (w0 & HN & Hw0).
  destruct (copyWALSuffix_ok _ _ _ _ _ _ w0 _ _ _ _ b (eo_UntilIndex opts) (λ p, p) Hlog Hbase Hw0 ltac:(done)) as (w1 & HC & Hw1).
  destruct (log_at_sync _ _ _ _ _ _ Hw1) as (w2 & w3 & HS & HCl & Hdisk & Hw2).
  rewrite copied_id in Hw2. exists data, w2. eexists. split; [done|]. split; [exact Hw2|].
  split; [reflexivity|].
  unfold ExportBackup. cbv zeta. fold b.
  assert ((negb (eo_UntilIndex opts =? UntilLatest) && (eo_UntilIndex opts <? b)) = false) as ->.
  { rewrite (proj2 (Z.ltb_ge _ _)) by lia. apply andb_false_r. }
  fold (write_version src). unfold Create. rewrite Hdata, bind_Ok. cbv beta iota.
  unfold writeDurable. fold b.
  match goal with |- context [readSoleSnapshotFile ?fs] => change fs with ({[snapshotFileName b := data]} : gmap bytes bytes) end.
  rewrite readSoleSnapshotFile_one by apply snapshotFileName_suffix.
  match goal with |- context [newBaseWAL ?d nid b] => change d with (@nil Segment) end. rewrite HN.
  rewrite HC, HS, bind_Ok, HCl. cbn [as_backup]. rewrite Hdisk.
  rewrite u64_small by (unfold is_u64; lia). unfold captured_entries. fold b. reflexivity.
Qed.

(** ** Restores *)

Lemma ids_NoDup (l : list Z) : StronglySorted Z.lt l → NoDup l.
Proof.
  induction 1 as [|x l Hs IH Hx]; constructor; [|done]. intros Hin. rewrite Forall_forall in Hx. specialize (Hx x Hin). lia.
Qed.

Lemma segment_file_ok d cur rs s :
  layout d cur rs → s ∈ d → segment_file d (SegmentFileName (seg_id s)) = Some (seg_bytes s).
Proof.
  intros [Hsort _ Hids _] Hs. unfold segment_file. apply list_elem_of_lookup_1 in Hs as [i Hi].
  assert (list_find (λ x, SegmentFileName (seg_id x) = SegmentFileName (seg_id s)) d = Some (i, s)) as ->; [|done].
  apply list_find_Some. split; [done|]. split; [done|]. intros j y Hj Hlt E.
  assert (Hu : ∀ k z, d !! k = Some z → is_u64 (seg_id z)).
  { intros k z Hz. rewrite Forall_fmap, Forall_lookup in Hids. specialize (Hids k z Hz). cbn in Hids. unfold is_u64. lia. }
  apply SegmentFileName_inj in E; [|by eapply Hu..].
  assert (j = i); [|lia]. eapply NoDup_lookup; [by apply ids_NoDup| |]; rewrite list_lookup_fmap; [by rewrite Hj|by rewrite Hi, E].
Qed.

Lemma verify_segments_ok d cur rs segs :
  layout d cur rs → (∀ s, s ∈ segs → s ∈ d) → verifyWALSegmentComponents d (describe_segment <$> segs) = Ok ().
Proof.
  intros Hl. induction segs as [|s segs IH]; intros Hin; [done|]. rewrite fmap_cons. cbn [verifyWALSegmentComponents describe_segment si_FileName si_Size si_Checksum].
  rewrite (segment_file_ok _ _ _ s Hl) by set_solver. rewrite !Z.eqb_refl. cbn [negb orb]. apply IH. set_solver.
Qed.

Lemma describe_ok d cur rs :
  layout d cur rs → Forall (λ s, zlen (seg_bytes s) < 2 ^ 63) d → Forall segment_info_ok (describeWALSegments d).
Proof.
  intros [_ _ Hids _] Hsm. apply Forall_fmap. rewrite Forall_fmap in Hids. rewrite Forall_forall in *. intros s Hs.
  specialize (Hids s Hs). specialize (Hsm s Hs). cbn in *. constructor; cbn.
  - apply SegmentFileName_text. unfold is_u64. lia.
  - pose proof (zlen_nonneg (seg_bytes s)). unfold is_int64. lia.
  - apply crc32_range.
Qed.

(** The snapshot of the staging directory names no members. *)
Definition restored_meta (src : Source) : Meta :=
  mkMeta (base_of src) (LastIncludedTerm (src_BaseMeta src)) false zero_SnapConfiguration.
Definition restored_snapshot (src : Source) : Snapshot := mkSnapshot (restored_meta src) (snapshot_view (src_BaseFSM src)).

Lemma strip_ok src data :
  capturable (src_BaseMeta src) (src_BaseFSM src) →
  Encode (src_BaseMeta src) (src_BaseFSM src) (write_version src) = Ok data →
  ∃ data', stripSnapshotConfiguration data = Ok data' ∧ Decode data' = Ok (restored_snapshot src).
Proof.
  intros (Hm & Hok & Hb) He. pose proof (decode_encode_snapshot _ _ _ _ Hm Hok Hb He) as Hd.
  unfold stripSnapshotConfiguration. rewrite Hd, bind_Ok. cbn [snap_Meta snap_FSM].
  destruct (HasConfiguration (meta_view (write_version src) (src_BaseMeta src))) eqn:Hc; cbn [negb].
  - destruct (Encode_total (restored_meta src) (snapshot_view (src_BaseFSM src)) 2 ltac:(by right)) as [data' He'].
    exists data'. split; [exact He'|]. rewrite (decode_encode_snapshot (restored_meta src) (snapshot_view (src_BaseFSM src)) 2 data').
    + by rewrite snapshot_view_idemp.
    + destruct Hm as [H1 H2 _]. constructor; [done|done|]. vm_compute. reflexivity.
    + by apply state_ok_view.
    + by apply state_below_view.
    + done.
  - exists data. split; [done|]. rewrite Hd. unfold restored_snapshot, restored_meta, meta_view in *. cbn [HasConfiguration] in Hc.
    cbv zeta in *. by rewrite Hc.
Qed.

Lemma served_base nid b rs from : served from (base_records nid b ++ rs) = served from rs.
Proof. unfold served, base_records. rewrite filter_app, !filter_cons_False; [done|naive_solver..]. Qed.

(** The log that [Restore] writes. *)
Definition restored_log_meta (rid : bytes) (src : Source) : Metadata :=
  mkMetadata rid FormatVersion (base_of src) (f_clusterGeneration (src_BaseFSM src)).

Definition generation_records (rid : bytes) (src : Source) : list Record_ :=
  if f_clusterGeneration (src_BaseFSM src) <=? 0 then [] else [meta_rec (restored_log_meta rid src)].

Lemma set_generation_ok rid src w rs :
  id_ok rid → 0 ≤ f_clusterGeneration (src_BaseFSM src) ≤ MaxSupportedGeneration →
  0 ≤ base_of src → base_of src + 1 < 2 ^ 64 →
  log_at w rs (base_records rid (base_of src)) (base_meta rid (base_of src)) (base_of src + 1) [] →
  ∃ w', SetClusterGeneration w (f_clusterGeneration (src_BaseFSM src)) = Ok w' ∧
    log_at w' rs (base_records rid (base_of src) ++ generation_records rid src) (restored_log_meta rid src) (base_of src + 1) [].
Proof.
  intros [Hid1 Hid2] Hg Hb Hb1 Hw. destruct (log_at_do _ _ _ _ _ _ (OpGeneration (f_clusterGeneration (src_BaseFSM src))) Hw Hg) as (w' & Hdo & Hi).
  exists w'. split; [exact Hdo|]. cbn [op_records] in Hi. rewrite (la_meta _ _ _ _ _ _ Hw) in Hi.
  change (md_ClusterGeneration (base_meta rid (base_of src))) with 0 in Hi.
  change ((base_meta rid (base_of src)) <| md_ClusterGeneration := f_clusterGeneration (src_BaseFSM src) |>)
    with (restored_log_meta rid src) in Hi. fold (generation_records rid src) in Hi.
  apply log_at_intro; [done|]. apply (hist_has_facts rs). unfold generation_records, restored_log_meta.
  destruct (Z.leb_spec (f_clusterGeneration (src_BaseFSM src)) 0) as [H0|H0].
  - assert (f_clusterGeneration (src_BaseFSM src) = 0) as -> by lia. rewrite app_nil_r. by apply (log_at_hist w).
  - set (m := mkMetadata _ _ _ _).
    replace (base_of src + 1) with (Z.max (base_of src + 1) (md_LatestSnapshotIndex m + 1)) by (cbn; lia).
    apply (hist_meta _ _ (base_meta rid (base_of src))); [by apply (log_at_hist w)| |done|done].
    apply (meta_good_generation (base_meta rid (base_of src))); [|done].
    apply (meta_good_snapshot (fresh_meta rid) (base_of src)); [by apply fresh_meta_good|]. unfold is_u64. lia.
Qed.

Section roundtrip.
  Context (now : Z) (nid rid : bytes) (src : Source) (opts : ExportOptions).
  Context (sbase srs : list Record_) (sm : Metadata) (sn : Z) (shs : bytes).
  Hypothesis Hsrc : source_ok src sbase srs sm sn shs.
  Hypothesis Hexp : export_ok now nid src opts.
  Hypothesis Hrid : id_ok rid.
  Context (data : bytes) (w : WAL).
  Hypothesis Hdata : Encode (src_BaseMeta src) (src_BaseFSM src) (write_version src) = Ok data.
  Hypothesis Hw : log_at w [meta_rec (fresh_meta nid)] (base_records nid (base_of src) ++ captured_entries src opts srs)
      (base_meta nid (base_of src)) (base_of src + 1 + zlen (captured_entries src opts srs)) [].
  Hypothesis Hsmall : Forall (λ s, zlen (seg_bytes s) < 2 ^ 63) (w_disk w).

Abbreviation wal_until := (base_of src + zlen (captured_entries src opts srs)).
Abbreviation the_manifest :=
  (mkManifest BackupFormatVersion BuildVersion (eo_ClusterID opts) (base_of src) (LastIncludedTerm (src_BaseMeta src))
     (snapshotFileName (base_of src)) (zlen data) (crc32 data) (base_of src + 1) wal_until (describeWALSegments (w_disk w)) now).
Abbreviation the_backup :=
  (mkBackupDir (writeManifest no_files the_manifest) (WriteFileDurable (snapshotFileName (base_of src)) data no_files) (w_disk w)).

Lemma base_range : 0 ≤ base_of src ∧ wal_until + 1 < 2 ^ 64.
Proof.
  destruct Hsrc as [_ _ Hlog Hb _]. pose proof (hist_has_facts _ _ _ _ _ (log_at_hist _ _ _ _ _ _ Hlog)) as Hf.
  pose proof (hf_snap _ _ _ _ Hf). split; [lia|].
  pose proof (hf_next _ _ _ _ (hist_has_facts _ _ _ _ _ (log_at_hist _ _ _ _ _ _ Hw))). lia.
Qed.

Lemma the_manifest_ok : manifest_ok the_manifest.
Proof.
  pose proof base_range as [H0 H1]. pose proof (zlen_nonneg (captured_entries src opts srs)).
  destruct Hsrc as [Hcap _ _ _ _], Hexp as [Hnow _ Hcl _]. pose proof Hcap as ([Hi Ht _] & _ & _).
  constructor; cbn [mf_FormatVersion mf_ChronicleDBVersion mf_ClusterID mf_LastIncludedIndex mf_LastIncludedTerm mf_SnapshotFile
       mf_SnapshotSize mf_SnapshotChecksum mf_WALFromIndex mf_WALUntilIndex mf_WALSegments mf_CreatedAtUnixNano]; try done.
  - split; [by apply wf_bytes_compute|vm_compute; reflexivity].
  - by apply snapshotFileName_text.
  - by eapply Encode_size.
  - apply crc32_range.
  - unfold is_u64. lia.
  - unfold is_u64. lia.
  - eapply describe_ok; [apply Hw|done].
Qed.

Lemma validate_ok (ropts : RestoreOptions) (u : Z) :
  u = (if ro_UntilIndex ropts =? UntilLatest then wal_until else ro_UntilIndex ropts) → base_of src ≤ u ≤ wal_until →
  validate_backup the_backup ropts = Ok (the_manifest, data, u).
Proof.
  intros Hu Hr. unfold validate_backup. cbn [bd_root bd_wal]. rewrite read_write_manifest by apply the_manifest_ok. rewrite bind_Ok.
  destruct Hsrc as [(Hm & Hok & Hb) _ _ _ _].
  assert (Hs : verifySnapshotComponent the_backup the_manifest = Ok data).
  { unfold verifySnapshotComponent. cbn [mf_SnapshotFile mf_SnapshotSize mf_SnapshotChecksum mf_LastIncludedIndex mf_LastIncludedTerm].
    rewrite bool_decide_false by (unfold snapshotFileName; by intros [_ ?]%app_eq_nil).
    match goal with |- context [d_files ?d !! ?k] => assert (d_files d !! k = Some data) as -> by apply lookup_insert_eq end.
    rewrite !Z.eqb_refl. cbn [negb orb]. rewrite (decode_encode_snapshot _ _ _ _ Hm Hok Hb Hdata).
    cbn [snap_Meta meta_view LastIncludedIndex LastIncludedTerm]. by rewrite !Z.eqb_refl. }
  rewrite Hs, bind_Ok. cbn [mf_WALSegments]. unfold describeWALSegments. erewrite verify_segments_ok; [|apply Hw|done].
  rewrite bind_Ok. cbv zeta. cbn [mf_WALUntilIndex mf_LastIncludedIndex]. rewrite <- Hu.
  by rewrite !(proj2 (Z.ltb_ge _ _)) by lia.
Qed.

Lemma staging_ok u :
  base_of src ≤ u ≤ wal_until →
  ∃ dir sw,
    buildStaging rid (w_disk w) the_manifest data u = Ok (mkDataDir (w_disk sw) (Some dir) [], w_disk w) ∧
    (∃ data', d_files dir = {[snapshotFileName (base_of src) := data']} ∧ Decode data' = Ok (restored_snapshot src)) ∧
    log_at sw [meta_rec (fresh_meta rid)]
      ((base_records rid (base_of src) ++ generation_records rid src) ++
       copied voidConfigEntryPayload (within u (captured_entries src opts srs)))
      (restored_log_meta rid src) (base_of src + 1 + zlen (within u (captured_entries src opts srs))) [].
Proof.
  intros Hu. pose proof base_range as [H0 H1]. pose proof (zlen_nonneg (captured_entries src opts srs)).
  destruct Hsrc as [Hcap _ Hlog Hb Hg]. destruct (strip_ok src data Hcap Hdata) as (data' & Hst & Hd').
  destruct Hcap as (_ & Hok & _). pose proof (so_generation _ Hok) as Hg0. unfold is_u32 in Hg0.
  destruct (newBaseWAL_ok rid (base_of src) Hrid H0 ltac:(lia)) as (sw0 & HN & Hsw0).
  destruct (set_generation_ok rid src sw0 _ Hrid ltac:(lia) H0 ltac:(lia) Hsw0) as (sw1 & HG & Hsw1).
  destruct (log_at_reopen _ _ _ _ _ _ rid 0 Hw) as (w' & HO & Hdisk & Hw' & _).
  pose proof (copyWALSuffix_ok _ _ _ _ _ _ _ _ _ _ _ (base_of src) u voidConfigEntryPayload Hw' ltac:(cbn; lia) Hsw1 void_payload_ok)
    as (sw2 & HC & Hsw2).
  rewrite served_base in HC, Hsw2.
  assert (Hser : served (base_of src + 1) (captured_entries src opts srs) = captured_entries src opts srs).
  { apply filter_all, Forall_forall. intros r [_ [Hr _]%list_elem_of_filter]%list_elem_of_filter. exact Hr. }
  rewrite Hser in HC, Hsw2. destruct (log_at_sync _ _ _ _ _ _ Hsw2) as (sw3 & sw4 & HS & HCl & Hdk & Hsw3).
  exists (WriteFileDurable (snapshotFileName (base_of src)) data' no_files), sw3. split; [|split; [|exact Hsw3]].
  - unfold buildStaging. cbv zeta. cbn [mf_LastIncludedIndex]. rewrite Hst. unfold Install. rewrite Hd', bind_Ok.
    cbn [snap_FSM snap_Meta restored_snapshot restored_meta LastIncludedIndex f_clusterGeneration snapshot_view].
    rewrite HN, bind_Ok, HG. cbn [as_backup]. rewrite bind_Ok, HO. cbn [as_backup]. rewrite bind_Ok. cbn [voidRestoredMembershipEntries].
    rewrite HC, bind_Ok. assert (Close w' = Ok (w' <| w_closed := true |>)) as ->.
    { unfold Close. by rewrite (wi_open _ _ _ (la_inv _ _ _ _ _ _ Hw')). }
    cbn [as_backup]. rewrite bind_Ok.
    rewrite HS, bind_Ok, HCl. cbn [as_backup]. rewrite bind_Ok, Hdk, Hdisk. done.
  - exists data'. split; [done|exact Hd'].
Qed.
End roundtrip.

Lemma Load_sole dir b data snap :
  is_u64 b → b ≠ 0 → d_files dir = {[snapshotFileName b := data]} → Decode data = Ok snap →
  LastIncludedIndex (snap_Meta snap) = b → Load (NewSnapManager dir) b = Some snap.
Proof.
  intros Hb H0 Hd Hs Hi. pose proof (Load_spec (NewSnapManager dir) b) as H.
  assert (Hf : d_files (mg_dir (NewSnapManager dir)) = {[snapshotFileName b := data]}) by exact Hd.
  destruct (Load (NewSnapManager dir) b) as [snap'|].
  - destruct H as (_ & c & (_ & _ & _ & data' & Hx & Hs') & _). rewrite Hf in Hx.
    apply lookup_singleton_Some in Hx as [_ <-]. congruence.
  - destruct H as [|H]; [done|]. exfalso. apply (H (mkCandidate b (snapshotFileName b)) snap).
    split; [by apply snapshotFileName_candidate|]. split; [done|]. split; [exact Hi|]. exists data. split; [|done].
    cbn [c_path]. rewrite Hf. apply lookup_singleton_eq.
Qed.

(** ** Properties of backups *)

(** The composition of the two. *)
Lemma export_restores now nid rid src opts ropts target sbase srs sm sn shs u :
  source_ok src sbase srs sm sn shs → export_ok now nid src opts → id_ok rid →
  Forall (λ s, zlen (seg_bytes s) < 2 ^ 63) (bd_wal (ExportBackup now nid src opts empty_backup).1) →
  u = (if ro_UntilIndex ropts =? UntilLatest then base_of src + zlen (captured_entries src opts srs) else ro_UntilIndex ropts) →
  base_of src ≤ u ≤ base_of src + zlen (captured_entries src opts srs) →
  target = None ∨ (dataDirIsClean target = false ∧ ro_Force ropts = true) →
  ∃ bk m dd dir,
    ExportBackup now nid src opts empty_backup = (bk, Ok m) ∧
    Restore rid ropts bk target = (bk, Some dd, Ok (mkRestoreResult m u)) ∧
    dd_snapshot dd = Some dir ∧
    (base_of src ≠ 0 → Load (NewSnapManager dir) (base_of src) = Some (restored_snapshot src)) ∧
    ∀ nid' maxsz, ∃ w, Open (dd_wal dd) nid' maxsz = Ok w ∧ w_metadata w = restored_log_meta rid src ∧
      FirstIndex w = base_of src + 1 ∧
      NextIndex w = base_of src + 1 + zlen (within u (captured_entries src opts srs)) ∧
      LatestHardState w = [] ∧
      Replay w (base_of src + 1)%u64 =
        Ok (copied voidConfigEntryPayload (within u (captured_entries src opts srs)), None).
Proof.
  intros Hsrc Hexp Hrid Hsmall Hu Hr Ht.
  destruct (ExportBackup_ok _ _ _ _ _ _ _ _ _ Hsrc Hexp) as (data & w & m & Hdata & Hw & -> & HE). rewrite HE in Hsmall. cbn [fst bd_wal] in Hsmall.
  destruct (staging_ok now nid rid src opts sbase srs sm sn shs Hsrc Hrid data w Hdata Hw u Hr) as (dir & sw & HB & (data' & Hfile & Hdec) & Hsw).
  pose proof (base_range nid src opts sbase srs sm sn shs Hsrc w Hw) as [H0 H1]. pose proof (zlen_nonneg (captured_entries src opts srs)).
  eexists _, _, (mkDataDir (w_disk sw) (Some dir) []), dir. split; [exact HE|]. split; [|split; [reflexivity|split]].
  - unfold Restore. erewrite validate_ok by eassumption. cbn [bd_wal]. rewrite HB.
    assert ((negb (dataDirIsClean target) && negb (ro_Force ropts)) = false) as ->.
    { destruct Ht as [->|[-> ->]]; done. }
    destruct Ht as [->|[-> _]]; reflexivity.
  - intros Hne. eapply Load_sole; [unfold is_u64; lia|done|exact Hfile|exact Hdec|done].
  - intros nid' maxsz. destruct (log_at_reopen _ _ _ _ _ _ nid' maxsz Hsw) as (w' & HO & _ & Hw' & Hfst).
    exists w'. split; [exact HO|]. split; [apply Hw'|]. split; [exact Hfst|]. split; [apply Hw'|]. split; [apply Hw'|].
    destruct (source_suffix _ _ _ _ _ _ (base_of src) Hw') as (-> & _ & _).
    { pose proof (zlen_nonneg (within u (captured_entries src opts srs))). cbn. lia. }
    rewrite <- app_assoc, served_base. do 2 f_equal. rewrite served_app.
    assert (served (base_of src + 1) (generation_records rid src) = []) as ->.
    { unfold generation_records. destruct (_ <=? 0); [done|]. unfold served. rewrite filter_cons_False; [done|naive_solver]. }
    cbn [app]. apply filter_all, Forall_fmap, Forall_forall.
    intros r [_ [_ [[_ Hr'] _]%list_elem_of_filter]%list_elem_of_filter]%list_elem_of_filter. done.
Qed.

(** C36: restoring an export gives back what it captured.  Exporting a node's
    snapshot and log into a new directory succeeds; restoring from it, up to
    any index of the captured range, into a directory that does not exist (or,
    forced, over one that is in use) succeeds, leaves the backup as it is and
    yields a data directory that opens: the snapshot is the source's without
    its membership, the log starts right behind it and holds exactly the
    source's entries up to the index, with membership changes voided, and the
    cluster generation is the source's.  The hard state is empty. *)
Theorem backup_restore_roundtrip now nid rid src opts ropts target sbase srs sm sn shs u :
  source_ok src sbase srs sm sn shs → export_ok now nid src opts → id_ok rid →
  Forall (λ s, zlen (seg_bytes s) < 2 ^ 63) (bd_wal (ExportBackup now nid src opts empty_backup).1) →
  u = (if ro_UntilIndex ropts =? UntilLatest then base_of src + zlen (captured_entries src opts srs) else ro_UntilIndex ropts) →
  base_of src ≤ u ≤ base_of src + zlen (captured_entries src opts srs) →
  target = None ∨ (dataDirIsClean target = false ∧ ro_Force ropts = true) →
  ∃ bk m dd dir,
    ExportBackup now nid src opts empty_backup = (bk, Ok m) ∧
    Restore rid ropts bk target = (bk, Some dd, Ok (mkRestoreResult m u)) ∧
    dd_snapshot dd = Some dir ∧
    (base_of src ≠ 0 → Load (NewSnapManager dir) (base_of src) = Some (restored_snapshot src)) ∧
    ∀ nid' maxsz, ∃ w, Open (dd_wal dd) nid' maxsz = Ok w ∧ w_metadata w = restored_log_meta rid src ∧
      FirstIndex w = base_of src + 1 ∧
      NextIndex w = base_of src + 1 + zlen (within u (captured_entries src opts srs)) ∧
      LatestHardState w = [] ∧
      Replay w (base_of src + 1)%u64 =
        Ok (copied voidConfigEntryPayload (within u (captured_entries src opts srs)), None).
Proof. apply export_restores. Qed.


(** The manifest appears last: an export that fails leaves the directory with
    the manifest it had. *)
Lemma failed_export_writes_no_manifest now nid src opts d :
  match ExportBackup now nid src opts d with
  | (d', Err _) => bd_root d' = bd_root d
  | (d', Ok m) => bd_root d' = writeManifest (bd_root d) m
  end.
Proof.
  unfold ExportBackup. cbv zeta. repeat (case_match; simplify_eq; try done).
Qed.

(** An existing empty directory counts as clean, so it is not removed, and
    the final rename refuses it: no restore into it succeeds, forced or not. *)
Theorem restore_refuses_empty_directory rid ropts bk res :
  dataDirIsClean (Some (mkDataDir [] None [])) = true ∧
  (Restore rid ropts bk (Some (mkDataDir [] None []))).2 ≠ Ok res.
Proof.
  split; [done|]. unfold Restore. destruct (validate_backup bk ropts) as [[[m data] until]|e]; [|done].
  cbv zeta. change (dataDirIsClean (Some (mkDataDir [] None []))) with true. cbn [negb andb].
  by destruct (buildStaging _ _ _ _ _) as [[dd disk]|e].
Qed.

(** ** A backup used by the concrete instances *)

Definition or_else {E A} (r : result E A) (d : A) : A := match r with Ok a => a | Err _ => d end.
Definition appended (p : bytes) (w : WAL) : WAL := match AppendLogEntry w p with Ok (w, _) => w | Err _ => w end.

(** A log behind a snapshot at 5: a command of term 2 and a membership change. *)
Definition demo_base : WAL := or_else (newBaseWAL [] [97] 5) demo_wal.
Definition demo_entry : bytes := put_u64 2 ++ [9].
Definition demo_change : bytes := put_u64 2 ++ [255; 1; 240; 1].
Definition demo_source_wal : WAL := appended demo_change (appended demo_entry demo_base).
Definition demo_source : Source := mkSource demo_meta demo_state demo_source_wal 2.
Definition demo_export_options : ExportOptions := mkExportOptions UntilLatest [99].
Definition demo_records : list Record_ := (base_records [97] 5 ++ [log_rec 6 demo_entry]) ++ [log_rec 7 demo_change].

Lemma demo_entry_ok p : is_wf_bytes p = true → zlen p ≤ 100 → payload_ok p.
Proof. intros Hw Hl. split; [by apply wf_bytes_compute|]. unfold MaxRecordPayloadSize. lia. Qed.

Lemma demo_source_log : log_at demo_source_wal [meta_rec (fresh_meta [97])] demo_records (base_meta [97] 5) 8 [].
Proof.
  destruct (newBaseWAL_ok [97] 5) as (w0 & H0 & L0); [split; [by repeat constructor|done]|done|done|].
  assert (E0 : demo_base = w0) by (unfold demo_base; rewrite H0; done).
  destruct (log_at_append _ _ _ _ _ _ demo_entry L0) as (w1 & H1 & L1); [by apply demo_entry_ok|done|].
  destruct (log_at_append _ _ _ _ _ _ demo_change L1) as (w2 & H2 & L2); [by apply demo_entry_ok|done|].
  unfold demo_source_wal, appended. rewrite E0, H1, H2. exact L2.
Qed.

Lemma demo_source_ok : source_ok demo_source [meta_rec (fresh_meta [97])] demo_records (base_meta [97] 5) 8 [].
Proof.
  constructor; [exact demo_capturable|done|exact demo_source_log|done|vm_compute; discriminate].
Qed.

Lemma demo_export_ok : export_ok 0 [97] demo_source demo_export_options.
Proof.
  constructor; [done|split; [by repeat constructor|done]|split; [by repeat constructor|vm_compute; reflexivity]|].
  vm_compute. split; discriminate.
Qed.

Lemma backup_restore_roundtrip_witness :
  ∃ bk m dd w, ExportBackup 0 [97] demo_source demo_export_options empty_backup = (bk, Ok m) ∧
    Restore [98] (mkRestoreOptions UntilLatest false) bk None = (bk, Some dd, Ok (mkRestoreResult m 7)) ∧
    Open (dd_wal dd) [] 0 = Ok w ∧
    Replay w 6 = Ok ([log_rec 6 demo_entry; log_rec 7 (put_u64 2 ++ [255; 1] ++ voidedConfigChangePayload)], None).
Proof.
  destruct (backup_restore_roundtrip 0 [97] [98] demo_source demo_export_options (mkRestoreOptions UntilLatest false) None
    _ _ _ _ _ 7 demo_source_ok demo_export_ok) as (bk & m & dd & dir & H1 & H2 & _ & _ & H3).
  - split; [by repeat constructor|done].
  - apply Forall_forall. intros s Hs. vm_compute in Hs. apply list_elem_of_singleton in Hs as ->. vm_compute. reflexivity.
  - vm_compute. reflexivity.
  - vm_compute. split; discriminate.
  - by left.
  - destruct (H3 [] 0) as (w & H4 & _ & _ & _ & _ & H5). exists bk, m, dd, w.
    split; [exact H1|]. split; [exact H2|]. split; [exact H4|]. exact H5.
Defined.

(** A second export into the same directory, after the snapshot has moved
    on: the old snapshot file comes first in the directory, so the manifest
    names it, and no restore accepts the result although the export reported
    success. *)
Definition demo_later_source : Source := mkSource (mkMeta 6 2 true (meta_Configuration demo_meta)) demo_state demo_source_wal 2.
Definition demo_backup : BackupDir := (ExportBackup 0 [97] demo_source demo_export_options empty_backup).1.

Theorem second_export_not_restorable :
  ∃ bk m, ExportBackup 1 [97] demo_later_source demo_export_options demo_backup = (bk, Ok m) ∧
    mf_LastIncludedIndex m = 6 ∧ mf_SnapshotFile m = snapshotFileName 5 ∧
    Restore [98] (mkRestoreOptions UntilLatest false) bk None = (bk, None, Err BkCorrupt).
Proof.
  destruct (ExportBackup 1 [97] demo_later_source demo_export_options demo_backup) as [bk [m|e]] eqn:E; [|vm_compute in E; discriminate].
  exists bk, m. vm_compute in E. injection E as <- <-. split; [done|]. split; [vm_compute; reflexivity|]. split; vm_compute; reflexivity.
Qed.
