(* ===== verification/BackupTerm.v ===== *)
(** * The term of a restored cluster ([internal/backup/restore.go])

    [Restore] writes no hard state, so a restored node starts in term 0 with
    entries of the source's terms in its log.  Raft's log comparison then
    prefers the restored entries to everything that the new cluster appends
    in its own, lower terms.  Here three nodes are restored from one backup
    and run in the simulator of [internal/fault]. *)

From S2P Require Import Prelude Bytes Mvcc Fsm WalRecord Wal RaftTypes RaftMembership RaftCore Storage Snapshot Backup Fault FaultSpec.

(** A source whose log holds one command of term 5 and no snapshot. *)
Definition term_source : option Source :=
  match Open [] node_a 0 with
  | Err _ => None
  | Ok w =>
      match AppendLogEntry w (encodeEntryPayload 5 EntryNormal [9]) with
      | Err _ => None
      | Ok (w, _) => Some (mkSource (mkMeta 0 0 false zero_SnapConfiguration) (New NewStore) w 1)
      end
  end.

(** What a node restored from its backup starts with. *)
Definition restored_storage (id : NodeID) : option MemoryStorage :=
  src ← term_source;
  match Restore id (mkRestoreOptions UntilLatest false)
          (ExportBackup 0 node_a src (mkExportOptions UntilLatest []) empty_backup).1 None with
  | (_, Some dd, Ok _) =>
      match Open (dd_wal dd) id 0 with
      | Err _ => None
      | Ok w =>
          match OpenWALStorage w with
          | Err _ => None
          | Ok s => Some (mkMemoryStorage (ws_hs s) (ws_entries s) 0 0 0)
          end
      end
  | _ => None
  end.

(** The simulated cluster with these logs on its disks. *)
Definition restored_cluster (early : list nat) : result fault_panic (Cluster nat) :=
  cl ← NewCluster (λ _, 0%nat) (demo_draws early) demo_peers demo_options;
  Ok (foldl (λ cl id,
        match cl_nodes cl !! id, restored_storage id with
        | Some n, Some st => put_node cl id (n <| fn_storage := st |>) (cl_transport cl) (cl_rnd cl)
        | _, _ => cl
        end) cl demo_peers).

Definition restored_run (early : list nat) (ops : list op) : result fault_panic (Cluster nat) :=
  cl ← restored_cluster early; run (demo_draws early) ops cl.

(** The nodes start; [a] wins term 1, and its first command reaches [b] and
    commits.  [b] restarts, and [c], which has seen neither, wins term 2 with
    the vote of [b]: its last entry, restored, is of term 5. *)
Definition restored_ops : list op :=
  [OpCrash node_a; OpRestart node_a; OpCrash node_b; OpRestart node_b; OpCrash node_c; OpRestart node_c;
   OpTick; OpDeliver 1; OpDeliver 3; OpPropose node_a [1]; OpDeliver 6; OpDeliver 8;
   OpCrash node_c; OpRestart node_c; OpTick; OpTick; OpCrash node_b; OpRestart node_b;
   OpDeliver 12; OpDeliver 13; OpPropose node_c [2]; OpDeliver 17; OpDeliver 18].

(** A cluster restored from a backup loses a committed command and commits
    another one at the same index, without a failing disk: every node starts
    in term 0 with an entry of term 5.  The scripts are of the kind for which
    a cluster that starts empty is proved safe. *)
Theorem restored_cluster_diverges :
  forallb (allowed demo_peers) restored_ops = true ∧
  Forall (λ id, ∃ st e, restored_storage id = Some st ∧ ms_hs st = mkHardState 0 noVote ∧
    ms_entries st = [e] ∧ e_Term e = 5) demo_peers ∧
  ∃ cl e e', restored_run [3; 9; 10; 11; 12]%nat restored_ops = Ok cl ∧
    e ∈ committed_at cl node_a ∧ e' ∈ committed_at cl node_c ∧ e_Index e = e_Index e' ∧ e ≠ e'.
Proof.
  split; [reflexivity|]. split.
  { repeat (apply Forall_cons; split; [eexists _, _; split; [vm_compute; reflexivity|by split_and!]|]). apply Forall_nil_2. }
  destruct (holds_inv (restored_run [3; 9; 10; 11; 12]%nat restored_ops)
    (λ cl, bool_decide (committed_at cl node_a !! 1%nat = Some (mkEntry 2 1 EntryNormal [1])) &&
           bool_decide (committed_at cl node_c !! 1%nat = Some (mkEntry 2 2 EntryNormal [2])))) as (cl & E & H); [vm_compute; reflexivity|].
  apply andb_true_iff in H as [H1%bool_decide_eq_true_1 H2%bool_decide_eq_true_1]. apply list_elem_of_lookup_2 in H1, H2.
  exists cl, (mkEntry 2 1 EntryNormal [1]), (mkEntry 2 2 EntryNormal [2]).
  split; [exact E|]. split; [exact H1|]. split; [exact H2|]. split; [reflexivity|discriminate].
Qed.
