(* ===== verification/AuditTrail.v ===== *)
(** * The audit log ([internal/audit])

    Administrative actions are recorded in one append-only file of their own,
    as JSON entries in checksummed frames.  Each frame carries the SHA-256
    hash of the frame before it, so that the records form a chain.  Writing
    is modelled with its failures, since [Append] says what they leave. *)

From Stdlib Require Import String.
From S2P Require Import Prelude Bytes Hash Scrub Json WalRecord Wal.

Definition AuditFormatVersion : Z := 1.
Definition AuditMaxPayloadSize : Z := 1 * 1024 * 1024.
Definition hashSize : Z := 32.
Definition auditRecordType : Z := 1.
Definition auditHeaderSize : Z := 14.
Definition auditChecksumSize : Z := 4.

(** ** Entries *)

Record AuditEntry := mkAudit {
  au_Seq : Z;
  au_Timestamp : Z;
  au_Principal : bytes;
  au_Role : bytes;
  au_Action : bytes;
  au_Endpoint : bytes;
  au_Result : bytes;
  au_Detail : bytes
}.
#[export] Instance AuditEntry_eta : Eta AuditEntry := λ e,
  mkAudit (au_Seq e) (au_Timestamp e) (au_Principal e) (au_Role e) (au_Action e) (au_Endpoint e) (au_Result e) (au_Detail e).
#[export] Instance set_au_Seq : Setter au_Seq.
Proof. derive_setter. Defined.
#[export] Instance set_au_Timestamp : Setter au_Timestamp.
Proof. derive_setter. Defined.
#[export] Instance set_au_Principal : Setter au_Principal.
Proof. derive_setter. Defined.
#[export] Instance set_au_Role : Setter au_Role.
Proof. derive_setter. Defined.
#[export] Instance set_au_Action : Setter au_Action.
Proof. derive_setter. Defined.
#[export] Instance set_au_Endpoint : Setter au_Endpoint.
Proof. derive_setter. Defined.
#[export] Instance set_au_Result : Setter au_Result.
Proof. derive_setter. Defined.
#[export] Instance set_au_Detail : Setter au_Detail.
Proof. derive_setter. Defined.

(** [detail] is left out when it is empty. *)
Definition entry_json (e : AuditEntry) : json :=
  JObject ([(str "seq"%string, JNumber (FormatUint (au_Seq e)));
            (str "timestamp"%string, JNumber (FormatInt (au_Timestamp e)));
            (str "principal"%string, JString (au_Principal e));
            (str "role"%string, JString (au_Role e));
            (str "action"%string, JString (au_Action e));
            (str "endpoint"%string, JString (au_Endpoint e));
            (str "result"%string, JString (au_Result e))] ++
           (if bool_decide (au_Detail e = []) then [] else [(str "detail"%string, JString (au_Detail e))])).

Definition entry_fields : list (bytes * decoder AuditEntry) :=
  [(str "seq"%string, field au_Seq (dec_uint (2 ^ 64)));
   (str "timestamp"%string, field au_Timestamp dec_int64);
   (str "principal"%string, field au_Principal dec_string);
   (str "role"%string, field au_Role dec_string);
   (str "action"%string, field au_Action dec_string);
   (str "endpoint"%string, field au_Endpoint dec_string);
   (str "result"%string, field au_Result dec_string);
   (str "detail"%string, field au_Detail dec_string)].

Definition zero_entry : AuditEntry := mkAudit 0 0 [] [] [] [] [] [].

Record audit_record := mkAuditRecord { ar_Seq : Z; ar_PrevHash : bytes; ar_Entry : AuditEntry; ar_RecordHash : bytes }.

Inductive audit_error :=
| AuTornTail
| AuVersion
| AuType
| AuTooLarge
| AuTooShort
| AuChecksum
| AuHashMismatch
| AuJSON
| AuChainBroken
| AuSequenceGap
| AuWriteFailed
| AuSegmentExists
| AuPanic.
#[export] Instance audit_error_eq_dec : EqDecision audit_error.
Proof. solve_decision. Defined.
#[export] Instance audit_panicking : Panicking audit_error := AuPanic.

(** ** Frames *)

(** What the checksum covers. *)
Definition audit_body (seq : Z) (payload : bytes) : bytes :=
  [auditRecordType] ++ put_u64 seq ++ put_u32 (zlen payload) ++ [AuditFormatVersion] ++ payload.

(** What the hash covers. *)
Definition audit_hashed (seq : Z) (payload : bytes) : bytes :=
  audit_body seq payload ++ put_u32 (crc32 (audit_body seq payload)).

(** The frame and its hash. *)
Definition encodeFrame (prevHash : bytes) (e : AuditEntry) : result audit_error (bytes * bytes) :=
  let payload := prevHash ++ Marshal (entry_json e) in
  if AuditMaxPayloadSize <? zlen payload then Err AuTooLarge else
  let hashed := audit_hashed (au_Seq e) payload in
  Ok (hashed ++ sha256 hashed, sha256 hashed).

Definition decodeFrame (buf : bytes) : result audit_error (audit_record * Z) :=
  if zlen buf <? auditHeaderSize then Err AuTornTail else
  '(typ, b) ← u8_at buf;
  '(seq, b) ← u64_at b;
  '(length, b) ← u32_at b;
  '(version, b) ← u8_at b;
  if negb (version =? AuditFormatVersion) then Err AuVersion else
  if negb (typ =? auditRecordType) then Err AuType else
  let need := auditHeaderSize + length + auditChecksumSize + hashSize in
  if zlen buf <? need then Err AuTornTail else
  if AuditMaxPayloadSize <? length then Err AuTooLarge else
  if length <? hashSize then Err AuTooShort else
  let payloadEnd := auditHeaderSize + length in
  let hashOff := payloadEnd + auditChecksumSize in
  '(payload, b) ← slice_at length b;
  '(wantCRC, b) ← u32_at b;
  if negb (crc32 (take (Z.to_nat payloadEnd) buf) =? wantCRC) then Err AuChecksum else
  '(storedHash, _) ← slice_at hashSize b;
  if negb (bool_decide (sha256 (take (Z.to_nat hashOff) buf) = storedHash)) then Err AuHashMismatch else
  '(prevHash, entryJSON) ← slice_at hashSize payload;
  match Unmarshal (dec_struct entry_fields) entryJSON zero_entry with
  | None => Err AuJSON
  | Some e => Ok (mkAuditRecord seq prevHash e storedHash, need)
  end.

(** ** The log *)

Record AuditLog := mkAuditLog { al_disk : Disk; al_seg : Z; al_nextSeq : Z; al_lastHash : bytes }.
#[export] Instance AuditLog_eta : Eta AuditLog := λ l, mkAuditLog (al_disk l) (al_seg l) (al_nextSeq l) (al_lastHash l).
#[export] Instance set_al_disk : Setter al_disk.
Proof. derive_setter. Defined.
#[export] Instance set_al_nextSeq : Setter al_nextSeq.
Proof. derive_setter. Defined.
#[export] Instance set_al_lastHash : Setter al_lastHash.
Proof. derive_setter. Defined.

Definition zero_hash : bytes := replicate 32 0.

(** The loop of [recoverTail]: where a torn tail begins, if there is one, the
    next sequence number and the hash of the last record.  Every frame has at
    least 50 bytes, so the length of the file is fuel enough. *)
Fixpoint recover_frames (fuel : nat) (data : bytes) (offset : Z) (prev : bytes) (seq : Z)
    : result audit_error (option Z * Z * bytes) :=
  match fuel with
  | O => Ok (None, seq, prev)
  | S fuel =>
      if zlen data <=? offset then Ok (None, seq, prev) else
      match decodeFrame (drop (Z.to_nat offset) data) with
      | Err AuTornTail => Ok (Some offset, seq, prev)
      | Err e => Err e
      | Ok (rec, frameLen) =>
          if negb (bool_decide (ar_PrevHash rec = prev)) then Err AuChainBroken
          else recover_frames fuel data (offset + frameLen) (ar_RecordHash rec) (ar_Seq rec + 1)%u64
      end
  end.

Definition recoverTail (d : Disk) (id : Z) : result audit_error AuditLog :=
  let data := match find_segment d id with Some s => seg_bytes s | None => [] end in
  '(torn, seq, prev) ← recover_frames (S (length data)) data 0 zero_hash 0;
  let d := match torn with Some offset => TruncateSegment offset id d | None => d end in
  Ok (mkAuditLog d id seq prev).

(** The log goes on in the segment with the highest number. *)
Definition OpenAudit (d : Disk) : result audit_error AuditLog :=
  match d with
  | [] =>
      match CreateSegment d 0 with
      | Err _ => Err AuSegmentExists
      | Ok d => recoverTail d 0
      end
  | _ => recoverTail d (last_id d)
  end.

(** How the file system answers one append: in full, with an error after so
    many bytes, or with a failing sync. *)
Inductive audit_io := IoOk | IoShortWrite (n : nat) | IoSyncError.

(** The log after the call, also when it fails. *)
Definition AppendAudit (io : audit_io) (l : AuditLog) (entry : AuditEntry) : AuditLog * result audit_error () :=
  match encodeFrame (al_lastHash l) (entry <| au_Seq := al_nextSeq l |>) with
  | Err _ => (l, Err AuWriteFailed)
  | Ok (frame, recordHash) =>
      match io with
      | IoShortWrite n => (l <| al_disk := AppendSegment (take n frame) (al_seg l) (al_disk l) |>, Err AuWriteFailed)
      | IoSyncError => (l <| al_disk := AppendSegment frame (al_seg l) (al_disk l) |>, Err AuWriteFailed)
      | IoOk =>
          let d := SyncSegment (al_seg l) (AppendSegment frame (al_seg l) (al_disk l)) in
          (mkAuditLog d (al_seg l) (al_nextSeq l + 1)%u64 recordHash, Ok ())
      end
  end.

(** ** Reading *)

(** The frames of one segment: the entries, the last hash and the next
    number.  A torn tail ends the segment. *)
Fixpoint read_frames (fuel : nat) (data : bytes) (offset : Z) (entries : list AuditEntry) (prev : bytes) (wantSeq : Z)
    : result audit_error (list AuditEntry * bytes * Z) :=
  match fuel with
  | O => Ok (entries, prev, wantSeq)
  | S fuel =>
      if zlen data <=? offset then Ok (entries, prev, wantSeq) else
      match decodeFrame (drop (Z.to_nat offset) data) with
      | Err AuTornTail => Ok (entries, prev, wantSeq)
      | Err e => Err e
      | Ok (rec, frameLen) =>
          if negb (ar_Seq rec =? wantSeq) then Err AuSequenceGap else
          if negb (bool_decide (ar_PrevHash rec = prev)) then Err AuChainBroken else
          read_frames fuel data (offset + frameLen) (entries ++ [ar_Entry rec]) (ar_RecordHash rec) (wantSeq + 1)%u64
      end
  end.

Fixpoint read_segments (d : Disk) (entries : list AuditEntry) (prev : bytes) (wantSeq : Z)
    : result audit_error (list AuditEntry * bytes * Z) :=
  match d with
  | [] => Ok (entries, prev, wantSeq)
  | s :: d =>
      '(entries, prev, wantSeq) ← read_frames (S (length (seg_bytes s))) (seg_bytes s) 0 entries prev wantSeq;
      read_segments d entries prev wantSeq
  end.

Definition readAllInternal (d : Disk) : result audit_error (list AuditEntry * bytes) :=
  '(entries, prev, _) ← read_segments d [] zero_hash 0; Ok (entries, prev).

Definition ReadAll (d : Disk) : result audit_error (list AuditEntry) := '(entries, _) ← readAllInternal d; Ok entries.
Definition VerifyAudit (d : Disk) : result audit_error () := _ ← readAllInternal d; Ok ().

(** ** Scrubbing ([scrub.go]) *)

(** The variables of [Scrub]: the findings, the statistics and the chain. *)
Record audit_scrub := mkAuditScrub {
  as_findings : list Finding; as_RecordsChecked : Z; as_BytesRead : Z; as_prev : bytes; as_wantSeq : Z
}.
#[export] Instance audit_scrub_eta : Eta audit_scrub := λ s,
  mkAuditScrub (as_findings s) (as_RecordsChecked s) (as_BytesRead s) (as_prev s) (as_wantSeq s).
#[export] Instance set_as_findings : Setter as_findings.
Proof. derive_setter. Defined.
#[export] Instance set_as_BytesRead : Setter as_BytesRead.
Proof. derive_setter. Defined.

Definition audit_report (file : bytes) (offset : Z) (k : FindingKind) (st : audit_scrub) : audit_scrub :=
  st <| as_findings := as_findings st ++ [mkFinding file offset k] |>.

Fixpoint scrub_audit_frames (fuel : nat) (isCurrent : bool) (file data : bytes) (offset : Z) (st : audit_scrub) : audit_scrub :=
  match fuel with
  | O => st
  | S fuel =>
      if zlen data <=? offset then st else
      match decodeFrame (drop (Z.to_nat offset) data) with
      | Err AuTornTail => if isCurrent then st else audit_report file offset FindingBadFraming st
      | Err _ => audit_report file offset FindingAuditChainBroken st
      | Ok (rec, frameLen) =>
          if negb (ar_Seq rec =? as_wantSeq st) || negb (bool_decide (ar_PrevHash rec = as_prev st))
          then audit_report file offset FindingAuditChainBroken st
          else scrub_audit_frames fuel isCurrent file data (offset + frameLen)
                 (mkAuditScrub (as_findings st) (as_RecordsChecked st + 1) (as_BytesRead st)
                    (ar_RecordHash rec) (as_wantSeq st + 1)%u64)
      end
  end.

Definition scrub_audit_segment (currentSegmentID : Z) (st : audit_scrub) (s : Segment) : audit_scrub :=
  let st := st <| as_BytesRead := as_BytesRead st + zlen (seg_bytes s) |> in
  scrub_audit_frames (S (length (seg_bytes s))) (seg_id s =? currentSegmentID) (SegmentFileName (seg_id s)) (seg_bytes s) 0 st.

Definition ScrubAudit (d : Disk) : list Finding * (Z * Z) :=
  let st := foldl (scrub_audit_segment (last_id d)) (mkAuditScrub [] 0 0 zero_hash 0) d in
  (as_findings st, (as_RecordsChecked st, as_BytesRead st)).
