(* ===== verification/AuditTrailSpec.v ===== *)
(** * The audit log is a chain

    Entries are read back as they were written, a crash loses at most the
    entry that was being appended, and changing recorded entries without
    changing the hash of the last one takes a collision of SHA-256.  The last
    part is about failed writes. *)

From Stdlib Require Import String.
From stdpp Require Import functions.
From S2P Require Import Prelude Bytes Hash Scrub Json JsonSpec WalRecord Wal AuditTrail.

(** ** Entries *)

Record entry_ok (e : AuditEntry) : Prop := {
  eo_time : is_int64 (au_Timestamp e);
  eo_principal : wf_bytes (au_Principal e);
  eo_role : wf_bytes (au_Role e);
  eo_action : wf_bytes (au_Action e);
  eo_endpoint : wf_bytes (au_Endpoint e);
  eo_result : wf_bytes (au_Result e);
  eo_detail : wf_bytes (au_Detail e)
}.

(** What is read back: bytes that are not UTF-8 are replaced. *)
Definition entry_view (seq : Z) (e : AuditEntry) : AuditEntry :=
  mkAudit seq (au_Timestamp e) (coerce (au_Principal e)) (coerce (au_Role e)) (coerce (au_Action e))
    (coerce (au_Endpoint e)) (coerce (au_Result e)) (coerce (au_Detail e)).

Definition with_seq (seq : Z) (e : AuditEntry) : AuditEntry :=
  mkAudit seq (au_Timestamp e) (au_Principal e) (au_Role e) (au_Action e) (au_Endpoint e) (au_Result e) (au_Detail e).

Lemma set_seq e seq : e <| au_Seq := seq |> = with_seq seq e.
Proof. by destruct e. Qed.

Lemma entry_tree e : entry_ok e → is_u64 (au_Seq e) →
  json_ok (entry_json e) ∧ (json_depth (entry_json e) ≤ maxNestingDepth)%nat.
Proof.
  intros [H1 H2 H3 H4 H5 H6 H7] Hs. split.
  - apply object_ok_Forall, Forall_app. split.
    + repeat (apply Forall_cons; split; [split; [by apply key_ok|cbn [snd]]|]); try done; [by apply uint_ok|by apply int_ok].
    + case_bool_decide; [done|]. apply Forall_singleton. split; [by apply key_ok|done].
  - change maxNestingDepth with (S (maxNestingDepth - 1)). cbn [json_depth entry_json].
    apply le_n_S, Forall_depth. apply Forall_app. split; [do 7 (apply Forall_cons; split; [apply Nat.le_0_l|]); apply Forall_nil_2|].
    case_bool_decide; [apply Forall_nil_2|]. apply Forall_singleton, Nat.le_0_l.
Qed.

Ltac store_audit H :=
  rewrite (field_reads _ _ _ _ _ H);
  cbv beta iota delta [modify set_au_Seq set_au_Timestamp set_au_Principal set_au_Role set_au_Action set_au_Endpoint
    set_au_Result set_au_Detail au_Seq au_Timestamp au_Principal au_Role au_Action au_Endpoint au_Result au_Detail].

Lemma entry_fields_stored v1 v2 v3 v4 v5 v6 v7 vs e :
  reads_as (dec_uint (2 ^ 64)) v1 (au_Seq e) → reads_as dec_int64 v2 (au_Timestamp e) →
  reads_as dec_string v3 (au_Principal e) → reads_as dec_string v4 (au_Role e) →
  reads_as dec_string v5 (au_Action e) → reads_as dec_string v6 (au_Endpoint e) →
  reads_as dec_string v7 (au_Result e) →
  (vs = [] ∧ au_Detail e = [] ∨ ∃ v, vs = [v] ∧ reads_as dec_string v (au_Detail e)) →
  store_all (entry_fields.*2) ([v1; v2; v3; v4; v5; v6; v7] ++ vs) zero_entry = Some e.
Proof.
  intros H1 H2 H3 H4 H5 H6 H7 H8. unfold entry_fields, zero_entry. rewrite !fmap_cons, fmap_nil. cbn [snd store_all app].
  store_audit H1. store_audit H2. store_audit H3. store_audit H4. store_audit H5. store_audit H6. store_audit H7.
  destruct H8 as [[-> H8]|(v & -> & H8)].
  - destruct e. cbn in *. by subst.
  - store_audit H8. by destruct e.
Qed.

Lemma reads_text s : reads_as dec_string (JString s) s.
Proof. by intros old. Qed.

(** An entry is read back from its text. *)
Lemma entry_stored e :
  entry_ok e → is_u64 (au_Seq e) →
  Unmarshal (dec_struct entry_fields) (Marshal (entry_json e)) zero_entry = Some (entry_view (au_Seq e) e).
Proof.
  intros He Hs. destruct (entry_tree e He Hs) as [T1 T2]. rewrite Unmarshal_Marshal by done. unfold entry_json.
  rewrite coerce_members by (apply Forall_app; split; [plain_keys|case_bool_decide; plain_keys]).
  rewrite fmap_app, !fmap_cons, fmap_nil. cbn [fst snd coerce_json].
  rewrite (dec_struct_prefix _ _ (if bool_decide (au_Detail e = []) then [str "detail"%string] else [])); [|apply (bool_decide_eq_true_1 (NoDup _)); vm_compute; reflexivity|].
  - rewrite fmap_app, !fmap_cons, fmap_nil. cbn [snd]. apply entry_fields_stored; try apply reads_text.
    + intros old. apply dec_uint_format; unfold is_u64 in *; cbn; lia.
    + intros old. apply dec_int64_format, (eo_time e He).
    + cbn [entry_view au_Detail]. case_bool_decide as Hd; [left|right].
      * rewrite Hd. done.
      * eexists. split; [reflexivity|apply reads_text].
  - rewrite fmap_app, !fmap_cons, fmap_nil. cbn [fst]. case_bool_decide; reflexivity.
Qed.

(** ** Frames *)

Lemma zlen_audit_body seq p : zlen (audit_body seq p) = auditHeaderSize + zlen p.
Proof. unfold audit_body, auditHeaderSize. zlen_lia. Qed.

Lemma zlen_audit_hashed seq p : zlen (audit_hashed seq p) = auditHeaderSize + zlen p + auditChecksumSize.
Proof. unfold audit_hashed. rewrite zlen_app, zlen_audit_body, zlen_be_put. done. Qed.

(** The decoder in closed form; the header is that of a log record. *)
Definition audit_need (b : bytes) : Z := auditHeaderSize + fr_length b + auditChecksumSize + hashSize.

Definition audit_closed (b : bytes) : result audit_error (audit_record * Z) :=
  if negb (fr_version b =? AuditFormatVersion) then Err AuVersion else
  if negb (fr_type b =? auditRecordType) then Err AuType else
  if zlen b <? audit_need b then Err AuTornTail else
  if AuditMaxPayloadSize <? fr_length b then Err AuTooLarge else
  if fr_length b <? hashSize then Err AuTooShort else
  let n := Z.to_nat (auditHeaderSize + fr_length b) in
  if negb (crc32 (take n b) =? get_u32 (drop n b)) then Err AuChecksum else
  let stored := take 32 (drop (n + 4) b) in
  if negb (bool_decide (sha256 (take (n + 4) b) = stored)) then Err AuHashMismatch else
  let payload := take (Z.to_nat (fr_length b)) (drop 14 b) in
  match Unmarshal (dec_struct entry_fields) (drop 32 payload) zero_entry with
  | None => Err AuJSON
  | Some e => Ok (mkAuditRecord (fr_index b) (take 32 payload) e stored, audit_need b)
  end.

Lemma decodeFrame_closed b :
  wf_bytes b → auditHeaderSize ≤ zlen b → decodeFrame b = audit_closed b.
Proof.
  intros Hwf Hl. pose proof (fr_length_range b Hwf) as Hlen. unfold auditHeaderSize in Hl.
  assert (Hn : (14 ≤ length b)%nat) by (unfold zlen in Hl; lia).
  unfold decodeFrame. rewrite (proj2 (Z.ltb_ge _ _)) by (unfold auditHeaderSize; lia).
  pose proof (nth_drop_nil b 0 ltac:(lia)) as H0. rewrite drop_0 in H0.
  rewrite H0 at 1. rewrite u8_at_put, bind_Ok. cbv beta iota.
  rewrite u64_at_ok by (unfold zlen; rewrite length_drop; lia).
  rewrite bind_Ok, drop_drop. cbv beta iota.
  rewrite u32_at_ok by (unfold zlen; rewrite length_drop; lia).
  rewrite bind_Ok, drop_drop. cbv beta iota. cbn [Nat.add].
  rewrite (nth_drop_nil b 13) by lia. rewrite u8_at_put, bind_Ok. cbv beta iota.
  fold (fr_index b). fold (fr_length b). fold (fr_version b). fold (fr_type b). cbv zeta. fold (audit_need b).
  unfold audit_closed. destruct (negb _); [done|]. destruct (negb _); [done|].
  destruct (Z.ltb_spec (zlen b) (audit_need b)) as [|Hneed]; [done|].
  destruct (_ <? fr_length b); [done|]. destruct (Z.ltb_spec (fr_length b) hashSize) as [|Hmin]; [done|].
  unfold audit_need, auditHeaderSize, auditChecksumSize, hashSize, is_u32 in *.
  rewrite slice_at_ok by (unfold zlen in *; rewrite length_drop; lia).
  rewrite bind_Ok, drop_drop. cbv beta iota.
  rewrite u32_at_ok by (unfold zlen in *; rewrite length_drop; lia).
  rewrite bind_Ok, drop_drop. cbv beta iota zeta.
  replace (14 + Z.to_nat (fr_length b))%nat with (Z.to_nat (14 + fr_length b)) by lia.
  destruct (negb _); [done|].
  rewrite (slice_at_ok 32 (drop _ b)) by (unfold zlen in *; rewrite length_drop; lia). rewrite bind_Ok. cbv beta iota.
  change (Z.to_nat 32) with 32%nat.
  replace (Z.to_nat (14 + fr_length b + 4)) with (Z.to_nat (14 + fr_length b) + 4)%nat by lia.
  destruct (negb _); [done|].
  rewrite slice_at_ok by (unfold zlen in *; rewrite length_take, length_drop; lia). done.
Qed.

(** The payload of a record, and its frame. *)
Definition payload_of (prev : bytes) (seq : Z) (e : AuditEntry) : bytes := prev ++ Marshal (entry_json (with_seq seq e)).
Definition record_hash (prev : bytes) (seq : Z) (e : AuditEntry) : bytes := sha256 (audit_hashed seq (payload_of prev seq e)).
Definition frame_of (prev : bytes) (seq : Z) (e : AuditEntry) : bytes :=
  audit_hashed seq (payload_of prev seq e) ++ record_hash prev seq e.

(** An entry that the log accepts behind [prev]. *)
Definition fits (prev : bytes) (seq : Z) (e : AuditEntry) : Prop := zlen (payload_of prev seq e) ≤ AuditMaxPayloadSize.
#[export] Instance fits_dec prev seq e : Decision (fits prev seq e).
Proof. unfold fits. apply _. Defined.

Lemma encodeFrame_ok prev seq e :
  encodeFrame prev (with_seq seq e) =
    if bool_decide (fits prev seq e) then Ok (frame_of prev seq e, record_hash prev seq e) else Err AuTooLarge.
Proof.
  unfold encodeFrame. cbv zeta. change (au_Seq (with_seq seq e)) with seq. fold (payload_of prev seq e).
  fold (record_hash prev seq e). fold (frame_of prev seq e).
  destruct (Z.ltb_spec AuditMaxPayloadSize (zlen (payload_of prev seq e))).
  - by rewrite bool_decide_false by (unfold fits; lia).
  - by rewrite bool_decide_true by (unfold fits; lia).
Qed.

Lemma zlen_record_hash prev seq e : zlen (record_hash prev seq e) = 32.
Proof. apply zlen_sha256. Qed.

Lemma zlen_frame_of prev seq e : zlen (frame_of prev seq e) = auditHeaderSize + zlen (payload_of prev seq e) + auditChecksumSize + hashSize.
Proof. unfold frame_of. by rewrite zlen_app, zlen_audit_hashed, zlen_record_hash. Qed.

Lemma decode_frame_of prev seq e rest :
  zlen prev = hashSize → is_u64 seq → entry_ok e → fits prev seq e →
  decodeFrame (frame_of prev seq e ++ rest) =
    Ok (mkAuditRecord seq prev (entry_view seq e) (record_hash prev seq e), zlen (frame_of prev seq e)).
Proof.
  intros Hprev Hs He Hf. rewrite zlen_frame_of. pose proof (crc32_range (audit_body seq (payload_of prev seq e))) as Hcrc.
  set (p := payload_of prev seq e) in *. set (h := record_hash prev seq e).
  assert (Hp : zlen p = hashSize + zlen (Marshal (entry_json (with_seq seq e)))) by (unfold p, payload_of; rewrite zlen_app; lia).
  pose proof (zlen_nonneg (Marshal (entry_json (with_seq seq e)))). pose proof (zlen_nonneg rest).
  assert (Hbuf : frame_of prev seq e ++ rest = audit_body seq p ++ put_u32 (crc32 (audit_body seq p)) ++ h ++ rest).
  { unfold frame_of, audit_hashed. fold p h. by rewrite <- !app_assoc. }
  assert (H1 : take (Z.to_nat (auditHeaderSize + zlen p)) (frame_of prev seq e ++ rest) = audit_body seq p).
  { rewrite Hbuf, <- (zlen_audit_body seq). apply take_app_zlen. }
  assert (H2 : take (Z.to_nat (auditHeaderSize + zlen p + auditChecksumSize)) (frame_of prev seq e ++ rest) = audit_hashed seq p).
  { unfold frame_of. fold p. rewrite <- app_assoc, <- (zlen_audit_hashed seq). apply take_app_zlen. }
  assert (Hlen : zlen (frame_of prev seq e ++ rest) = auditHeaderSize + zlen p + auditChecksumSize + hashSize + zlen rest).
  { by rewrite zlen_app, zlen_frame_of. }
  assert (Hu : u8_at (frame_of prev seq e ++ rest) = Ok (E := audit_error) (auditRecordType,
    put_u64 seq ++ put_u32 (zlen p) ++ [AuditFormatVersion] ++ p ++ put_u32 (crc32 (audit_body seq p)) ++ h ++ rest)).
  { rewrite Hbuf. unfold audit_body at 1. by rewrite <- !app_assoc. }
  unfold decodeFrame. rewrite Hlen. generalize dependent (frame_of prev seq e ++ rest). intros buf _ H1 H2 Hlen Hu.
  unfold fits in Hf. fold p in Hf. unfold AuditMaxPayloadSize in *.
  rewrite (proj2 (Z.ltb_ge _ _)) by (unfold auditHeaderSize, auditChecksumSize, hashSize in *; lia).
  rewrite Hu, bind_Ok. cbv beta iota. rewrite u64_at_put, bind_Ok by done. cbv beta iota.
  rewrite u32_at_put, bind_Ok by (unfold is_u32, hashSize in *; lia). cbv beta iota. cbn [app u8_at]. rewrite bind_Ok. cbv beta iota zeta.
  rewrite !Z.eqb_refl. cbn [negb]. rewrite !(proj2 (Z.ltb_ge _ _)) by lia.
  rewrite (slice_at_app (zlen p) p) by done. rewrite bind_Ok. cbv beta iota. rewrite u32_at_put, bind_Ok by done. cbv beta iota.
  rewrite H1, Z.eqb_refl. cbn [negb]. rewrite (slice_at_app hashSize h) by apply zlen_record_hash. rewrite bind_Ok. cbv beta iota.
  rewrite H2. rewrite bool_decide_true by done. cbn [negb]. unfold p, payload_of. rewrite slice_at_app by done. rewrite bind_Ok.
  cbv beta iota. rewrite entry_stored; [done|by destruct He|done].
Qed.

(** A frame cut anywhere reads as a torn tail. *)
Lemma decode_cut_frame prev seq e n :
  is_u64 seq → fits prev seq e → (n < length (frame_of prev seq e))%nat →
  decodeFrame (take n (frame_of prev seq e)) = Err AuTornTail.
Proof.
  intros Hs Hf Hn. pose proof (zlen_frame_of prev seq e) as Hl. unfold fits, AuditMaxPayloadSize in Hf.
  assert (Ht : zlen (take n (frame_of prev seq e)) = Z.of_nat n) by (unfold zlen; rewrite length_take; lia).
  unfold decodeFrame. rewrite Ht. destruct (Z.ltb_spec (Z.of_nat n) auditHeaderSize) as [|Hge]; [done|].
  set (p := payload_of prev seq e) in *. pose proof (zlen_nonneg p).
  assert (Hb : ∃ y, take n (frame_of prev seq e) =
    auditRecordType :: put_u64 seq ++ put_u32 (zlen p) ++ AuditFormatVersion :: y).
  { unfold frame_of, audit_hashed, audit_body. fold p. rewrite <- !app_assoc. unfold auditHeaderSize in Hge.
    eexists (take (n - 14) _). replace n with (S (8 + (4 + S (n - 14)))) by lia. cbn [app take]. f_equal.
    rewrite !take_app_add' by (by rewrite length_be_put). cbn [take]. do 4 f_equal. lia. }
  destruct Hb as [y ->]. cbn [u8_at]. rewrite bind_Ok. cbv beta iota. rewrite u64_at_put, bind_Ok by done. cbv beta iota.
  rewrite u32_at_put, bind_Ok by (unfold is_u32; lia). cbv beta iota. cbn [u8_at]. rewrite bind_Ok. cbv beta iota zeta.
  rewrite !Z.eqb_refl. cbn [negb]. rewrite (proj2 (Z.ltb_lt _ _)); [done|]. unfold zlen in *. lia.
Qed.

(** ** Chains *)

(** The file that records [es] behind a record with hash [prev]. *)
Fixpoint chain_bytes (prev : bytes) (seq : Z) (es : list AuditEntry) : bytes :=
  match es with
  | [] => []
  | e :: es => frame_of prev seq e ++ chain_bytes (record_hash prev seq e) (seq + 1) es
  end.
Fixpoint tip (prev : bytes) (seq : Z) (es : list AuditEntry) : bytes :=
  match es with [] => prev | e :: es => tip (record_hash prev seq e) (seq + 1) es end.
Fixpoint chain_ok (prev : bytes) (seq : Z) (es : list AuditEntry) : Prop :=
  match es with
  | [] => True
  | e :: es => entry_ok e ∧ fits prev seq e ∧ chain_ok (record_hash prev seq e) (seq + 1) es
  end.
(** What a reader sees. *)
Fixpoint views (seq : Z) (es : list AuditEntry) : list AuditEntry :=
  match es with [] => [] | e :: es => entry_view seq e :: views (seq + 1) es end.

Lemma chain_snoc es e prev seq :
  chain_bytes prev seq (es ++ [e]) = chain_bytes prev seq es ++ frame_of (tip prev seq es) (seq + zlen es) e ∧
  tip prev seq (es ++ [e]) = record_hash (tip prev seq es) (seq + zlen es) e ∧
  (chain_ok prev seq (es ++ [e]) ↔
    chain_ok prev seq es ∧ entry_ok e ∧ fits (tip prev seq es) (seq + zlen es) e) ∧
  views seq (es ++ [e]) = views seq es ++ [entry_view (seq + zlen es) e].
Proof.
  revert prev seq. induction es as [|x es IH]; intros prev seq; cbn [app chain_bytes tip chain_ok views].
  - rewrite zlen_nil, Z.add_0_r, app_nil_r. tauto.
  - destruct (IH (record_hash prev seq x) (seq + 1)) as (-> & -> & H3 & ->). rewrite H3, zlen_cons.
    replace (seq + (1 + zlen es)) with (seq + 1 + zlen es) by lia. rewrite <- app_assoc. split_and!; [done|done|tauto|done].
Qed.

Lemma zlen_tip prev seq es : zlen prev = hashSize → zlen (tip prev seq es) = hashSize.
Proof. revert prev seq. induction es as [|e es IH]; intros prev seq H; [done|]. apply IH, zlen_record_hash. Qed.

Lemma chain_ok_take n prev seq es : chain_ok prev seq es → chain_ok prev seq (take n es).
Proof. revert n prev seq. induction es as [|e es IH]; intros [|n] prev seq H; cbn in *; [done..|]. destruct H as (? & ? & ?). auto. Qed.

(** What may follow the last record: nothing, or a torn frame. *)
Definition torn_end (tail : bytes) : Prop := tail = [] ∨ tail ≠ [] ∧ decodeFrame tail = Err AuTornTail.

Lemma drop_frame (offset : Z) data (b rest : bytes) :
  0 ≤ offset → drop (Z.to_nat offset) data = b ++ rest → drop (Z.to_nat (offset + zlen b)) data = rest.
Proof.
  intros H0 H. pose proof (zlen_nonneg b). rewrite Z2Nat.inj_add, <- drop_drop, H by lia. apply drop_app_zlen.
Qed.

Lemma offset_inside (offset : Z) (data : bytes) b rest :
  0 ≤ offset → drop (Z.to_nat offset) data = b ++ rest → b ≠ [] → (zlen data <=? offset) = false.
Proof.
  intros H0 H Hb. apply Z.leb_gt. assert (length (drop (Z.to_nat offset) data) ≠ 0)%nat.
  { rewrite H, length_app. destruct b; [done|]. cbn. lia. }
  rewrite length_drop in *. unfold zlen. lia.
Qed.

Lemma offset_end (offset : Z) (data : bytes) : 0 ≤ offset → drop (Z.to_nat offset) data = [] → (zlen data <=? offset) = true.
Proof. intros H0 H. apply Z.leb_le. apply (f_equal length) in H. rewrite length_drop in H. cbn in H. unfold zlen. lia. Qed.

Lemma frame_of_ne prev seq e : frame_of prev seq e ≠ [].
Proof. intros H. pose proof (zlen_frame_of prev seq e) as Hl. rewrite H, zlen_nil in Hl. pose proof (zlen_nonneg (payload_of prev seq e)). unfold auditHeaderSize, auditChecksumSize, hashSize in *. lia. Qed.

Lemma frame_of_length prev seq e : (1 ≤ length (frame_of prev seq e))%nat.
Proof. pose proof (frame_of_ne prev seq e). destruct (frame_of prev seq e); [done|]. cbn. lia. Qed.

Lemma u64_succ seq : 0 ≤ seq < 2 ^ 64 - 1 → (seq + 1)%u64 = seq + 1.
Proof. intros H. apply Z.mod_small. lia. Qed.

Lemma read_chain es : ∀ fuel data offset entries prev seq tail,
  zlen prev = hashSize → chain_ok prev seq es → 0 ≤ seq → seq + zlen es < 2 ^ 64 → 0 ≤ offset → torn_end tail →
  drop (Z.to_nat offset) data = chain_bytes prev seq es ++ tail → (length (chain_bytes prev seq es ++ tail) < fuel)%nat →
  read_frames fuel data offset entries prev seq = Ok (entries ++ views seq es, tip prev seq es, seq + zlen es).
Proof.
  induction es as [|e es IH]; intros [|fuel] data offset entries prev seq tail Hp Hok H0 Hs Ho Ht Hd Hf; cbn [chain_bytes app] in *; try lia.
  - cbn [read_frames views tip]. rewrite zlen_nil, Z.add_0_r, app_nil_r. destruct Ht as [->|[Hne Ht]].
    + by rewrite offset_end.
    + rewrite (offset_inside offset data tail []) by (done || by rewrite app_nil_r). by rewrite Hd, Ht.
  - destruct Hok as (He & Hfit & Hok). rewrite zlen_cons in *. pose proof (zlen_nonneg es). rewrite <- app_assoc in Hd, Hf.
    cbn [read_frames]. rewrite (offset_inside _ _ _ _ Ho Hd (frame_of_ne _ _ _)), Hd.
    rewrite decode_frame_of by (done || unfold is_u64; lia). cbn [ar_Seq ar_PrevHash ar_Entry ar_RecordHash].
    rewrite Z.eqb_refl, bool_decide_true by done. cbn [negb]. rewrite u64_succ by lia.
    pose proof (zlen_nonneg (frame_of prev seq e)). pose proof (frame_of_length prev seq e).
    rewrite (IH fuel data _ _ (record_hash prev seq e) (seq + 1) tail); [|apply zlen_record_hash|done|lia..|done|by apply drop_frame|rewrite length_app in Hf; lia].
    cbn [views tip]. rewrite <- app_assoc. replace (seq + 1 + zlen es) with (seq + (1 + zlen es)) by lia. done.
Qed.

Lemma recover_chain es : ∀ fuel data offset prev seq tail,
  zlen prev = hashSize → chain_ok prev seq es → 0 ≤ seq → seq + zlen es < 2 ^ 64 → 0 ≤ offset → torn_end tail →
  drop (Z.to_nat offset) data = chain_bytes prev seq es ++ tail → (length (chain_bytes prev seq es ++ tail) < fuel)%nat →
  recover_frames fuel data offset prev seq =
    Ok (if bool_decide (tail = []) then None else Some (offset + zlen (chain_bytes prev seq es)), seq + zlen es, tip prev seq es).
Proof.
  induction es as [|e es IH]; intros [|fuel] data offset prev seq tail Hp Hok H0 Hs Ho Ht Hd Hf; cbn [chain_bytes app] in *; try lia.
  - cbn [recover_frames tip]. rewrite !zlen_nil, !Z.add_0_r. destruct Ht as [->|[Hne Ht]].
    + rewrite bool_decide_true by done. by rewrite offset_end.
    + rewrite bool_decide_false by done. rewrite (offset_inside offset data tail []) by (done || by rewrite app_nil_r). by rewrite Hd, Ht.
  - destruct Hok as (He & Hfit & Hok). rewrite zlen_cons in *. pose proof (zlen_nonneg es). rewrite <- app_assoc in Hd, Hf.
    cbn [recover_frames]. rewrite (offset_inside _ _ _ _ Ho Hd (frame_of_ne _ _ _)), Hd.
    rewrite decode_frame_of by (done || unfold is_u64; lia). cbn [ar_Seq ar_PrevHash ar_Entry ar_RecordHash].
    rewrite bool_decide_true by done. cbn [negb]. rewrite u64_succ by lia.
    pose proof (zlen_nonneg (frame_of prev seq e)). pose proof (frame_of_length prev seq e).
    rewrite (IH fuel data _ (record_hash prev seq e) (seq + 1) tail); [|apply zlen_record_hash|done|lia..|done|by apply drop_frame|rewrite length_app in Hf; lia].
    cbn [tip]. rewrite zlen_app. replace (seq + 1 + zlen es) with (seq + (1 + zlen es)) by lia. by rewrite <- (Z.add_assoc offset).
Qed.

(** ** The log of a history *)

(** The directory after [es] were recorded, everything synced. *)
Definition audit_disk (es : list AuditEntry) : Disk :=
  [mkSegment 0 (chain_bytes zero_hash 0 es) (zlen (chain_bytes zero_hash 0 es))].
Definition audit_log (es : list AuditEntry) : AuditLog := mkAuditLog (audit_disk es) 0 (zlen es) (tip zero_hash 0 es).

(** What can have been recorded. *)
Definition recordable (es : list AuditEntry) : Prop := chain_ok zero_hash 0 es ∧ zlen es < 2 ^ 64.

Lemma zero_hash_length : zlen zero_hash = hashSize.
Proof. done. Qed.

(** An entry of this size is accepted after [es]. *)
Definition acceptable (es : list AuditEntry) (e : AuditEntry) : Prop :=
  hashSize + zlen (Marshal (entry_json (with_seq (zlen es) e))) ≤ AuditMaxPayloadSize.

Lemma acceptable_fits es e : acceptable es e ↔ fits (tip zero_hash 0 es) (zlen es) e.
Proof. unfold acceptable, fits, payload_of. by rewrite zlen_app, zlen_tip. Qed.

#[export] Instance acceptable_dec es e : Decision (acceptable es e).
Proof. unfold acceptable. apply _. Defined.

Lemma recordable_snoc es e :
  recordable es → entry_ok e → acceptable es e → zlen es + 1 < 2 ^ 64 → recordable (es ++ [e]).
Proof.
  intros [H1 H2] He Ha Hl. split; [|zlen_lia].
  destruct (chain_snoc es e zero_hash 0) as (_ & _ & H & _). apply H. by rewrite <- acceptable_fits.
Qed.

Lemma read_audit_disk es tail n :
  recordable es → torn_end tail →
  readAllInternal [mkSegment 0 (chain_bytes zero_hash 0 es ++ tail) n] = Ok (views 0 es, tip zero_hash 0 es).
Proof.
  intros [H1 H2] Ht. unfold readAllInternal. cbn [read_segments seg_bytes].
  rewrite (read_chain es _ _ 0 [] zero_hash 0 tail); [|done|done|lia..|done|by rewrite drop_0|lia]. done.
Qed.

(** Opening finds the recorded entries and cuts off a torn frame. *)
Lemma open_audit_disk es tail n :
  recordable es → torn_end tail → n = zlen (chain_bytes zero_hash 0 es ++ tail) →
  OpenAudit [mkSegment 0 (chain_bytes zero_hash 0 es ++ tail) n] = Ok (audit_log es).
Proof.
  intros [H1 H2] Ht ->. unfold OpenAudit. cbn [last_id last seg_id]. unfold recoverTail.
  assert (find_segment [mkSegment 0 (chain_bytes zero_hash 0 es ++ tail) (zlen (chain_bytes zero_hash 0 es ++ tail))] 0 =
    Some (mkSegment 0 (chain_bytes zero_hash 0 es ++ tail) (zlen (chain_bytes zero_hash 0 es ++ tail)))) as -> by done.
  cbn [seg_bytes]. cbv zeta.
  rewrite (recover_chain es _ _ 0 zero_hash 0 tail); [|done|done|lia..|done|by rewrite drop_0|lia]. rewrite bind_Ok. cbv beta iota.
  unfold audit_log, audit_disk. rewrite !Z.add_0_l. case_bool_decide as Hn; [by rewrite Hn, app_nil_r|].
  do 2 f_equal. unfold TruncateSegment, on_segment. cbn [fmap list_fmap seg_id seg_bytes].
  rewrite bool_decide_true by done. by rewrite take_app_zlen.
Qed.

Lemma append_audit io es e :
  AppendAudit io (audit_log es) e =
    if bool_decide (acceptable es e) then
      let frame := frame_of (tip zero_hash 0 es) (zlen es) e in
      let file b n := [mkSegment 0 (chain_bytes zero_hash 0 es ++ b) n] in
      let synced := zlen (chain_bytes zero_hash 0 es) in
      match io with
      | IoShortWrite n => (mkAuditLog (file (take n frame) synced) 0 (zlen es) (tip zero_hash 0 es), Err AuWriteFailed)
      | IoSyncError => (mkAuditLog (file frame synced) 0 (zlen es) (tip zero_hash 0 es), Err AuWriteFailed)
      | IoOk => (mkAuditLog (file frame (synced + zlen frame)) 0 (zlen es + 1)%u64
                   (record_hash (tip zero_hash 0 es) (zlen es) e), Ok ())
      end
    else (audit_log es, Err AuWriteFailed).
Proof.
  unfold AppendAudit. cbn [audit_log al_lastHash al_nextSeq al_seg al_disk]. rewrite set_seq, encodeFrame_ok.
  rewrite (bool_decide_ext _ _ (acceptable_fits es e)). case_bool_decide; [|done].
  unfold AppendSegment, SyncSegment, on_segment, audit_disk. destruct io; cbn [fmap list_fmap seg_id].
  all: rewrite bool_decide_true by done; cbn [seg_id seg_bytes seg_synced]; try done.
  rewrite bool_decide_true by done. cbn [seg_id seg_bytes seg_synced]. by rewrite zlen_app.
Qed.

Lemma append_audit_ok es e :
  acceptable es e → zlen es + 1 < 2 ^ 64 → AppendAudit IoOk (audit_log es) e = (audit_log (es ++ [e]), Ok ()).
Proof.
  intros Ha Hl. pose proof (zlen_nonneg es). rewrite append_audit, bool_decide_true by done. cbv zeta. rewrite u64_succ by lia.
  destruct (chain_snoc es e zero_hash 0) as (Hc & Ht & _). rewrite !Z.add_0_l in *. unfold audit_log, audit_disk.
  rewrite Hc, Ht, !zlen_app. done.
Qed.

(** Whatever an append does, a crash then leaves the entries before it and a
    part of the new frame. *)
Lemma crash_append io es e d :
  crash (al_disk (AppendAudit io (audit_log es) e).1) d →
  ∃ k, d = [mkSegment 0 (chain_bytes zero_hash 0 es ++ take k (frame_of (tip zero_hash 0 es) (zlen es) e))
              (zlen (chain_bytes zero_hash 0 es ++ take k (frame_of (tip zero_hash 0 es) (zlen es) e)))] ∧
       (¬ acceptable es e → k = 0%nat) ∧
       ((AppendAudit io (audit_log es) e).2 = Ok () → (length (frame_of (tip zero_hash 0 es) (zlen es) e) ≤ k)%nat).
Proof.
  set (frame := frame_of _ _ _). set (old := chain_bytes zero_hash 0 es). rewrite append_audit. fold frame. fold old.
  assert (Hgen : ∀ b synced, (∃ j, b = take j frame) → zlen old ≤ synced ≤ zlen (old ++ b) → crash [mkSegment 0 (old ++ b) synced] d →
    ∃ k, d = [mkSegment 0 (old ++ take k frame) (zlen (old ++ take k frame))] ∧ (k ≤ length b)%nat ∧
         (synced = zlen (old ++ b) → b = frame → k = length frame)).
  { intros b synced [j ->] Hs Hc. apply Forall2_cons_inv_l in Hc as (s & d' & (Hid & n & Hn & Hb & Hsy) & Hd' & ->).
    apply Forall2_nil_inv_l in Hd' as ->. cbn [seg_id seg_bytes seg_synced] in *.
    exists (Z.to_nat (n - zlen old)). destruct s as [id bs sy]. cbn [seg_id seg_bytes seg_synced] in *. subst id bs sy.
    rewrite zlen_app in Hn, Hs. pose proof (zlen_nonneg old).
    assert (Htk : take (Z.to_nat n) (old ++ take j frame) = old ++ take (Z.to_nat (n - zlen old)) frame).
    { replace (Z.to_nat n) with (length old + Z.to_nat (n - zlen old))%nat by (unfold zlen in *; lia).
      rewrite take_app_add, take_take. do 2 f_equal. unfold zlen in *. rewrite length_take in Hn. lia. }
    rewrite Htk. split_and!.
    - do 2 f_equal. rewrite zlen_app. unfold zlen in *. rewrite length_take in *. lia.
    - unfold zlen in *. lia.
    - intros Hs' Hb. rewrite zlen_app in Hs'. rewrite Hb in *. unfold zlen in *. lia. }
  assert (Hfr : ∃ j, frame = take j frame) by (exists (length frame); by rewrite take_ge).
  pose proof (zlen_nonneg frame).
  case_bool_decide as Ha; cbv zeta; [destruct io as [|j|]; cbn [fst snd al_disk]|cbn [fst snd al_disk audit_log]]; intros Hc.
  - destruct (Hgen frame (zlen old + zlen frame) Hfr ltac:(rewrite zlen_app; lia) Hc) as (k & -> & H1 & H2).
    exists k. split; [done|]. split; [done|]. intros _. rewrite H2 by (done || by rewrite zlen_app). lia.
  - destruct (Hgen (take j frame) (zlen old) ltac:(by exists j) ltac:(rewrite zlen_app; pose proof (zlen_nonneg (take j frame)); lia) Hc) as (k & -> & H1 & _).
    by exists k.
  - destruct (Hgen frame (zlen old) Hfr ltac:(rewrite zlen_app; lia) Hc) as (k & -> & H1 & _). by exists k.
  - destruct (Hgen [] (zlen old)) as (k & -> & H1 & _); [by exists 0%nat|rewrite app_nil_r; lia|rewrite app_nil_r; exact Hc|].
    exists k. split; [done|]. split; [intros _; cbn in H1; lia|done].
Qed.

Lemma recover_append io es e d :
  recordable es → entry_ok e → zlen es + 1 < 2 ^ 64 → crash (al_disk (AppendAudit io (audit_log es) e).1) d →
  ∃ es', OpenAudit d = Ok (audit_log es') ∧ recordable es' ∧
    (es' = es ∧ (AppendAudit io (audit_log es) e).2 ≠ Ok () ∨ es' = es ++ [e] ∧ acceptable es e).
Proof.
  intros Hr He Hl (k & -> & H1 & H2)%crash_append. set (frame := frame_of _ _ _) in *. pose proof (zlen_nonneg es).
  destruct (decide (length frame ≤ k)%nat) as [Hk|Hk].
  - assert (Ha : acceptable es e).
    { destruct (decide (acceptable es e)) as [|Hn]; [done|]. rewrite H1 in Hk by done.
      pose proof (frame_of_length (tip zero_hash 0 es) (zlen es) e). unfold frame in Hk. lia. }
    exists (es ++ [e]). pose proof (recordable_snoc es e Hr He Ha Hl) as Hr'. split; [|by auto].
    rewrite take_ge by done. destruct (chain_snoc es e zero_hash 0) as (Hc & _). rewrite Z.add_0_l in Hc. fold frame in Hc.
    rewrite <- Hc, <- (app_nil_r (chain_bytes zero_hash 0 (es ++ [e]))). apply open_audit_disk; [done|by left|done].
  - exists es. split; [|split; [done|left; split; [done|naive_solver lia]]].
    apply open_audit_disk; [done| |done]. destruct (decide (k = 0%nat)) as [->|Hk0]; [by left|right]. split.
    + intros E. apply (f_equal length) in E. rewrite length_take in E. cbn in E. lia.
    + apply decode_cut_frame; [unfold is_u64; lia| |unfold frame in Hk; lia]. apply acceptable_fits.
      destruct (decide (acceptable es e)) as [|Hn]; [done|]. by apply H1 in Hn.
Qed.

(** ** Runs *)

(** A log in use with the entries recorded in it: created, appended to, and
    opened again after a crash in any append.  After a crash the next sequence
    number tells whether the last entry was recorded. *)
Inductive audit_run : AuditLog → list AuditEntry → Prop :=
| run_open l : OpenAudit [] = Ok l → audit_run l []
| run_append l es e l' :
    audit_run l es → entry_ok e → zlen es + 1 < 2 ^ 64 → AppendAudit IoOk l e = (l', Ok ()) → audit_run l' (es ++ [e])
| run_restart l es io e d l' es' :
    audit_run l es → entry_ok e → zlen es + 1 < 2 ^ 64 → crash (al_disk (AppendAudit io l e).1) d → OpenAudit d = Ok l' →
    es' = es ∨ es' = es ++ [e] → al_nextSeq l' = zlen es' → audit_run l' es'.

Lemma audit_run_log l es : audit_run l es → l = audit_log es ∧ recordable es.
Proof.
  induction 1 as [l H|l es e l' _ [-> Hr] He Hl H|l es io e d l' es' _ [-> Hr] He Hl Hc HO Hes Hn].
  - revert H. change (OpenAudit []) with (Ok (E := audit_error) (audit_log [])). intros [= <-]. split; [done|]. split; [done|by cbn].
  - destruct (decide (acceptable es e)) as [Ha|Ha].
    + rewrite append_audit_ok in H by done. injection H as <-. split; [done|by apply recordable_snoc].
    + rewrite append_audit, bool_decide_false in H by done. done.
  - destruct (recover_append io es e d Hr He Hl Hc) as (es'' & HO' & Hr' & Hes''). rewrite HO in HO'. injection HO' as ->.
    cbn [audit_log al_nextSeq] in Hn. assert (es'' = es') as ->; [|done].
    destruct Hes as [-> | -> ], Hes'' as [[-> _]|[-> _]]; rewrite ?zlen_app, ?zlen_cons, ?zlen_nil in Hn; done || lia.
Qed.

Lemma read_audit_log es : recordable es → ReadAll (audit_disk es) = Ok (views 0 es).
Proof.
  intros Hr. pose proof (read_audit_disk es [] (zlen (chain_bytes zero_hash 0 es)) Hr ltac:(by left)) as H.
  rewrite app_nil_r in H. unfold ReadAll, audit_disk. by rewrite H.
Qed.


(** ** Tampering *)

(** The bytes of the accepted records that their hashes cover. *)
Fixpoint hashed_frames (fuel : nat) (data : bytes) (offset : Z) : list bytes :=
  match fuel with
  | O => []
  | S fuel =>
      if zlen data <=? offset then [] else
      match decodeFrame (drop (Z.to_nat offset) data) with
      | Err _ => []
      | Ok (_, n) => take (Z.to_nat (n - hashSize)) (drop (Z.to_nat offset) data) :: hashed_frames fuel data (offset + n)
      end
  end.
Definition hashed_records (d : Disk) : list bytes := mjoin ((λ s, hashed_frames (S (length (seg_bytes s))) (seg_bytes s) 0) <$> d).

(** Records [rs] that hold [es], linked by their hashes, the last being [h]. *)
Inductive linked : list bytes → list AuditEntry → bytes → Prop :=
| linked_nil : linked [] [] zero_hash
| linked_snoc rs es h text e :
    linked rs es h → zlen h = hashSize → zlen (h ++ text) < 2 ^ 32 →
    Unmarshal (dec_struct entry_fields) text zero_entry = Some e →
    linked (rs ++ [audit_hashed (u64 (zlen rs)) (h ++ text)]) (es ++ [e]) (sha256 (audit_hashed (u64 (zlen rs)) (h ++ text))).

(** What the decoder accepts is a record. *)
Lemma decodeFrame_exact b rec n :
  wf_bytes b → decodeFrame b = Ok (rec, n) →
  ∃ text, zlen (ar_PrevHash rec) = hashSize ∧ zlen (ar_PrevHash rec ++ text) < 2 ^ 32 ∧ is_u64 (ar_Seq rec) ∧
    Unmarshal (dec_struct entry_fields) text zero_entry = Some (ar_Entry rec) ∧
    take (Z.to_nat (n - hashSize)) b = audit_hashed (ar_Seq rec) (ar_PrevHash rec ++ text) ∧
    ar_RecordHash rec = sha256 (audit_hashed (ar_Seq rec) (ar_PrevHash rec ++ text)) ∧ hashSize ≤ n.
Proof.
  intros Hwf Hd. destruct (Z.ltb_spec (zlen b) auditHeaderSize) as [Hlt|Hge].
  { unfold decodeFrame in Hd. by rewrite (proj2 (Z.ltb_lt _ _)) in Hd by done. }
  rewrite decodeFrame_closed in Hd by done. revert Hd. unfold audit_closed.
  pose proof (fr_length_range b Hwf) as Hlen.
  destruct (Z.eqb_spec (fr_version b) AuditFormatVersion) as [Hv|]; cbn [negb]; [|done].
  destruct (Z.eqb_spec (fr_type b) auditRecordType) as [Hty|]; cbn [negb]; [|done].
  destruct (Z.ltb_spec (zlen b) (audit_need b)) as [|Hneed]; [done|].
  destruct (Z.ltb_spec AuditMaxPayloadSize (fr_length b)) as [|Hmax]; [done|].
  destruct (Z.ltb_spec (fr_length b) hashSize) as [|Hmin]; [done|]. cbv zeta.
  set (N := Z.to_nat (auditHeaderSize + fr_length b)).
  destruct (Z.eqb_spec (crc32 (take N b)) (get_u32 (drop N b))) as [Hcrc|]; cbn [negb]; [|done].
  case_bool_decide as Hsha; cbn [negb]; [|done].
  destruct (Unmarshal _ _ _) as [e|] eqn:Hu; [|done]. intros [= <- <-]. cbn [ar_Seq ar_PrevHash ar_Entry ar_RecordHash].
  exists (drop 32 (take (Z.to_nat (fr_length b)) (drop 14 b))). rewrite take_drop.
  unfold audit_need, auditHeaderSize, auditChecksumSize, hashSize, AuditMaxPayloadSize, is_u32, zlen in *.
  assert (Hpl : length (take (Z.to_nat (fr_length b)) (drop 14 b)) = Z.to_nat (fr_length b)).
  { rewrite length_take, length_drop. lia. }
  assert (Hbody : audit_body (fr_index b) (take (Z.to_nat (fr_length b)) (drop 14 b)) = take N b).
  { unfold audit_body. rewrite <- Hty, <- Hv. unfold zlen. rewrite Hpl, Z2Nat.id by lia.
    unfold fr_index at 1, fr_length at 1, get_u64, get_u32. rewrite !be_put_take by (done || lia).
    unfold fr_type, fr_version, N.
    replace (Z.to_nat (14 + fr_length b)) with (1 + (8 + (4 + (1 + Z.to_nat (fr_length b)))))%nat by lia.
    match goal with |- _ = take ?n b => change (take n b) with (take n (drop 0 b)) end.
    rewrite !take_add_drop, !(take_1_drop b) by lia. done. }
  assert (Hh : audit_hashed (fr_index b) (take (Z.to_nat (fr_length b)) (drop 14 b)) = take (N + 4) b).
  { unfold audit_hashed. rewrite Hbody, Hcrc. unfold get_u32. rewrite be_put_take by (done || unfold N; lia).
    by rewrite take_take_drop. }
  rewrite Hh. split_and!; [|lia|apply get_u64_range; by apply Forall_drop|done| |by rewrite <- Hsha|lia].
  - rewrite length_take, Hpl. lia.
  - f_equal. unfold N. lia.
Qed.

Lemma linked_length rs es h : linked rs es h → length rs = length es ∧ zlen h = hashSize.
Proof. induction 1 as [|rs es h text e _ [IH _] Hh]; [done|]. rewrite !length_app, IH. split; [done|]. apply zlen_sha256. Qed.

Lemma u64_zlen_snoc {A} (l : list A) x : u64 (zlen (l ++ [x])) = (u64 (zlen l) + 1)%u64.
Proof. rewrite zlen_app, zlen_cons, zlen_nil. unfold u64. by rewrite Zplus_mod_idemp_l. Qed.

Lemma read_frames_linked fuel : ∀ data offset rs entries prev wantSeq entries' prev' wantSeq',
  wf_bytes data → linked rs entries prev → wantSeq = u64 (zlen rs) →
  read_frames fuel data offset entries prev wantSeq = Ok (entries', prev', wantSeq') →
  linked (rs ++ hashed_frames fuel data offset) entries' prev' ∧ wantSeq' = u64 (zlen (rs ++ hashed_frames fuel data offset)).
Proof.
  induction fuel as [|fuel IH]; intros data offset rs entries prev wantSeq entries' prev' wantSeq' Hwf Hl -> H; cbn [read_frames hashed_frames] in *.
  { injection H as <- <- <-. by rewrite app_nil_r. }
  destruct (zlen data <=? offset); [injection H as <- <- <-; by rewrite app_nil_r|].
  destruct (decodeFrame (drop (Z.to_nat offset) data)) as [[rec n]|err] eqn:Hd.
  - destruct (Z.eqb_spec (ar_Seq rec) (u64 (zlen rs))) as [Hs|]; cbn [negb] in H; [|done].
    case_bool_decide as Hp; cbn [negb] in H; [|done].
    destruct (decodeFrame_exact _ _ _ (Forall_drop _ _ _ Hwf) Hd) as (text & H1 & H2 & _ & Hu & Ht & Hh & _).
    rewrite Ht, cons_middle, app_assoc. eapply IH; [done| | |exact H].
    + rewrite Hh, Hp, Hs in *. by constructor.
    + by rewrite u64_zlen_snoc.
  - destruct err; try done. injection H as <- <- <-. by rewrite app_nil_r.
Qed.

Lemma read_segments_linked d : ∀ rs entries prev wantSeq entries' prev' wantSeq',
  Forall (λ s, wf_bytes (seg_bytes s)) d → linked rs entries prev → wantSeq = u64 (zlen rs) →
  read_segments d entries prev wantSeq = Ok (entries', prev', wantSeq') → linked (rs ++ hashed_records d) entries' prev'.
Proof.
  induction d as [|s d IH]; intros rs entries prev wantSeq entries' prev' wantSeq' Hwf Hl Hw H; cbn [read_segments] in H.
  { injection H as <- <- <-. unfold hashed_records. cbn. by rewrite app_nil_r. }
  apply Forall_cons in Hwf as [Hs Hwf]. apply bind_Ok_inv in H as ([[es p] w] & H1 & H2).
  destruct (read_frames_linked _ _ _ _ _ _ _ _ _ _ Hs Hl Hw H1) as [Hl' ->].
  unfold hashed_records. rewrite fmap_cons. cbn [mjoin list_join]. rewrite app_assoc. by eapply IH.
Qed.

Lemma audit_hashed_inj s1 p1 s2 p2 :
  is_u64 s1 → is_u64 s2 → zlen p1 < 2 ^ 32 → zlen p2 < 2 ^ 32 → audit_hashed s1 p1 = audit_hashed s2 p2 → s1 = s2 ∧ p1 = p2.
Proof.
  intros H1 H2 H3 H4 H. pose proof (zlen_nonneg p1). pose proof (zlen_nonneg p2).
  unfold audit_hashed in H. apply app_inj_2 in H as [H _]; [|by rewrite !length_be_put].
  unfold audit_body in H. apply app_inj_1 in H as [_ H]; [|done].
  apply app_inj_1 in H as [Hs H]; [|by rewrite !length_be_put]. apply app_inj_1 in H as [_ H]; [|by rewrite !length_be_put].
  apply app_inj_1 in H as [_ ->]; [|done]. split; [|done].
  apply (f_equal be_get) in Hs. rewrite !be_get_put in Hs by (unfold is_u64 in *; cbn; lia). done.
Qed.

(** Chains with the same last hash are the same, if their hashes do not
    collide. *)
Lemma linked_inj rs1 es1 h rs2 es2 :
  linked rs1 es1 h → linked rs2 es2 h →
  (∀ x y, x ∈ rs1 → y ∈ rs2 → sha256 x = sha256 y → x = y) → (∀ x, x ∈ rs1 ++ rs2 → sha256 x ≠ zero_hash) →
  rs1 = rs2 ∧ es1 = es2.
Proof.
  intros H1. revert rs2 es2. induction H1 as [|rs es h text e H1 IH Hh Hlen Hu]; intros rs2 es2 H2 Hc Hz.
  - remember zero_hash as h eqn:E. destruct H2 as [|rs' es' h' text' e' H2' Hh' Hlen' Hu']; [done|].
    exfalso. apply (Hz (audit_hashed (u64 (zlen rs')) (h' ++ text'))); [set_solver|exact eq_refl].
  - remember (sha256 (audit_hashed (u64 (zlen rs)) (h ++ text))) as h2 eqn:E.
    destruct H2 as [|rs' es' h' text' e' H2' Hh' Hlen' Hu'].
    { exfalso. apply (Hz (audit_hashed (u64 (zlen rs)) (h ++ text))); [set_solver|exact (eq_sym E)]. }
    assert (E' : audit_hashed (u64 (zlen rs)) (h ++ text) = audit_hashed (u64 (zlen rs')) (h' ++ text')).
    { apply Hc; [apply elem_of_app; right; by apply list_elem_of_singleton..|exact (eq_sym E)]. }
    clear E. rename E' into E.
    apply audit_hashed_inj in E as [_ E]; [|apply Z.mod_pos_bound; lia..|done|done].
    apply app_inj_1 in E as [-> ->]; [|unfold zlen in *; lia].
    destruct (IH rs' es' H2') as [-> ->].
    { intros x y Hx Hy. apply Hc; apply elem_of_app; by left. }
    { intros x Hx. apply Hz. set_solver. }
    rewrite Hu in Hu'. injection Hu' as ->. exact (conj eq_refl eq_refl).
Qed.

(** The records of a log. *)
Fixpoint chain_hashed (prev : bytes) (seq : Z) (es : list AuditEntry) : list bytes :=
  match es with
  | [] => []
  | e :: es => audit_hashed seq (payload_of prev seq e) :: chain_hashed (record_hash prev seq e) (seq + 1) es
  end.

Lemma hashed_chain es : ∀ fuel data offset prev seq tail,
  zlen prev = hashSize → chain_ok prev seq es → 0 ≤ seq → seq + zlen es < 2 ^ 64 → 0 ≤ offset → torn_end tail →
  drop (Z.to_nat offset) data = chain_bytes prev seq es ++ tail → (length (chain_bytes prev seq es ++ tail) < fuel)%nat →
  hashed_frames fuel data offset = chain_hashed prev seq es.
Proof.
  induction es as [|e es IH]; intros [|fuel] data offset prev seq tail Hp Hok H0 Hs Ho Ht Hd Hf; cbn [chain_bytes app] in *; try lia.
  - cbn [hashed_frames chain_hashed]. destruct Ht as [->|[Hne Ht]].
    + by rewrite offset_end.
    + rewrite (offset_inside offset data tail []) by (done || by rewrite app_nil_r). by rewrite Hd, Ht.
  - destruct Hok as (He & Hfit & Hok). rewrite zlen_cons in *. pose proof (zlen_nonneg es). rewrite <- app_assoc in Hd, Hf.
    cbn [hashed_frames chain_hashed]. rewrite (offset_inside _ _ _ _ Ho Hd (frame_of_ne _ _ _)), Hd.
    rewrite decode_frame_of by (done || unfold is_u64; lia).
    pose proof (zlen_nonneg (frame_of prev seq e)). pose proof (frame_of_length prev seq e). f_equal.
    + rewrite zlen_frame_of, Z.add_simpl_r, <- (zlen_audit_hashed seq). unfold frame_of. rewrite <- app_assoc. apply take_app_zlen.
    + apply (IH fuel data _ (record_hash prev seq e) (seq + 1) tail); [apply zlen_record_hash|done|lia..|done|by apply drop_frame|rewrite length_app in Hf; lia].
Qed.

Lemma hashed_audit_disk es tail n :
  recordable es → torn_end tail →
  hashed_records [mkSegment 0 (chain_bytes zero_hash 0 es ++ tail) n] = chain_hashed zero_hash 0 es.
Proof.
  intros [H1 H2] Ht. unfold hashed_records. cbn [fmap list_fmap mjoin list_join seg_bytes]. rewrite app_nil_r.
  apply (hashed_chain es _ _ 0 zero_hash 0 tail); [done|done|lia..|done|by rewrite drop_0|lia].
Qed.

(** C39: the audit log is tamper-evident.  If two directories, whatever their
    files hold, both pass verification and end with the same hash, then they
    have the same records and read as the same entries - unless two of their
    records have the same SHA-256 hash or one hashes to zero.  So an altered,
    reordered, inserted or removed record is noticed by whoever knows the
    last hash. *)
Theorem audit_tamper_evident d1 d2 es1 es2 h :
  Forall (λ s, wf_bytes (seg_bytes s)) d1 → Forall (λ s, wf_bytes (seg_bytes s)) d2 →
  readAllInternal d1 = Ok (es1, h) → readAllInternal d2 = Ok (es2, h) →
  (∀ x y, x ∈ hashed_records d1 → y ∈ hashed_records d2 → sha256 x = sha256 y → x = y) →
  (∀ x, x ∈ hashed_records d1 ++ hashed_records d2 → sha256 x ≠ zero_hash) →
  hashed_records d1 = hashed_records d2 ∧ es1 = es2.
Proof.
  intros W1 W2 R1 R2. unfold readAllInternal in R1, R2.
  apply bind_Ok_inv in R1 as ([[a1 b1] c1] & R1 & E1). injection E1 as -> ->.
  apply bind_Ok_inv in R2 as ([[a2 b2] c2] & R2 & E2). injection E2 as -> ->.
  apply (read_segments_linked d1 []) in R1; [|done|constructor|done].
  apply (read_segments_linked d2 []) in R2; [|done|constructor|done]. by apply (linked_inj _ _ h).
Qed.

(** ** Scrubbing *)

(** The scrubber reads like [Verify] until it reports something. *)
Lemma scrub_audit_agree fuel : ∀ isCurrent file data offset entries st,
  let st' := scrub_audit_frames fuel isCurrent file data offset st in
  match read_frames fuel data offset entries (as_prev st) (as_wantSeq st) with
  | Ok (_, prev, wantSeq) =>
      as_prev st' = prev ∧ as_wantSeq st' = wantSeq ∧
      (as_findings st' = as_findings st ∨
       isCurrent = false ∧ ∃ off, as_findings st' = as_findings st ++ [mkFinding file off FindingBadFraming])
  | Err _ => ∃ off, as_findings st' = as_findings st ++ [mkFinding file off FindingAuditChainBroken]
  end.
Proof.
  induction fuel as [|fuel IH]; intros isCurrent file data offset entries st; cbn [scrub_audit_frames read_frames]; cbv zeta.
  { by auto. }
  destruct (zlen data <=? offset); [by auto|].
  destruct (decodeFrame (drop (Z.to_nat offset) data)) as [[rec n]|err].
  - destruct (ar_Seq rec =? as_wantSeq st); cbn [negb orb]; [|by exists offset].
    case_bool_decide; cbn [negb]; [|by exists offset].
    specialize (IH isCurrent file data (offset + n) (entries ++ [ar_Entry rec])
      (mkAuditScrub (as_findings st) (as_RecordsChecked st + 1) (as_BytesRead st) (ar_RecordHash rec) (as_wantSeq st + 1)%u64)).
    exact IH.
  - destruct err; try by exists offset. destruct isCurrent; [by auto|]. split; [done|]. split; [done|]. right. split; [done|]. by exists offset.
Qed.

Lemma scrub_findings_grow cur d : ∀ st, as_findings (foldl (scrub_audit_segment cur) st d) = [] → as_findings st = [].
Proof.
  induction d as [|s d IH]; intros st H; [done|]. apply IH in H. unfold scrub_audit_segment in H.
  pose proof (scrub_audit_agree (S (length (seg_bytes s))) (seg_id s =? cur) (SegmentFileName (seg_id s)) (seg_bytes s) 0 []
    (st <| as_BytesRead := as_BytesRead st + zlen (seg_bytes s) |>)) as G.
  revert H G. generalize (scrub_audit_frames (S (length (seg_bytes s))) (seg_id s =? cur) (SegmentFileName (seg_id s)) (seg_bytes s) 0
    (st <| as_BytesRead := as_BytesRead st + zlen (seg_bytes s) |>)). cbv zeta. intros st' H.
  destruct (read_frames _ _ _ _ _ _) as [[[? ?] ?]|?]; rewrite H; [intros (_ & _ & [G|(_ & off & G)])|intros [off G]];
    [exact (eq_sym G)|by apply eq_sym, app_eq_nil in G as [_ ?]..].
Qed.

Lemma scrub_audit_silent cur d : ∀ st entries,
  as_findings (foldl (scrub_audit_segment cur) st d) = [] →
  ∃ r, read_segments d entries (as_prev st) (as_wantSeq st) = Ok r.
Proof.
  induction d as [|s d IH]; intros st entries H; [by eexists|]. cbn [foldl read_segments] in *.
  pose proof (scrub_findings_grow _ _ _ H) as Hs. set (st1 := scrub_audit_segment cur st s) in *.
  pose proof (scrub_audit_agree (S (length (seg_bytes s))) (seg_id s =? cur) (SegmentFileName (seg_id s)) (seg_bytes s) 0 entries
    (st <| as_BytesRead := as_BytesRead st + zlen (seg_bytes s) |>)) as G. cbv zeta in G.
  fold (scrub_audit_segment cur st s) in G. fold st1 in G. cbn [as_prev as_wantSeq modify set_as_BytesRead] in G.
  destruct (read_frames _ _ _ _ _ _) as [[[es prev] w]|err].
  - rewrite bind_Ok. destruct G as (<- & <- & _). by apply IH.
  - destruct G as [off G]. rewrite Hs in G. by apply eq_sym, app_eq_nil in G as [_ ?].
Qed.

(** The scrubber agrees with [Verify].  In a directory with at most one
    segment, which is all that a log ever has, it reports something exactly if
    verification fails; with more it reports at least that. *)
Theorem audit_scrub_agrees_with_verify d :
  ((ScrubAudit d).1 = [] → VerifyAudit d = Ok ()) ∧
  ((length d ≤ 1)%nat → VerifyAudit d = Ok () → (ScrubAudit d).1 = []).
Proof.
  unfold ScrubAudit, VerifyAudit, readAllInternal. cbn [fst]. split.
  - intros H. destruct (scrub_audit_silent _ _ _ [] H) as [[[es p] w] E]. cbn [as_prev as_wantSeq] in E. by rewrite E.
  - destruct d as [|s [|s' d]]; cbn [length]; [done| |lia]. intros _. cbn [foldl read_segments]. unfold last_id. cbn [last].
    unfold scrub_audit_segment. rewrite Z.eqb_refl.
    match goal with |- context [scrub_audit_frames ?f ?c ?n ?b 0 ?st] => pose proof (scrub_audit_agree f c n b 0 [] st) as G end.
    cbv zeta in G. cbn [as_prev as_wantSeq as_findings modify set_as_BytesRead] in G.
    destruct (read_frames _ _ _ _ _ _) as [[[es prev] w]|err]; [|done]. intros _. destruct G as (_ & _ & [G|[? _]]); [exact G|done].
Qed.

(** ** An example *)

Definition demo_entry (who : string) : AuditEntry :=
  mkAudit 0 1700000000000000000 (str who) (str "admin"%string) (str "fault.block"%string) (str "/fault"%string)
    (str "allow"%string) [].

Definition entry_okb (e : AuditEntry) : bool :=
  (- 2 ^ 63 <=? au_Timestamp e) && (au_Timestamp e <? 2 ^ 63) &&
  forallb is_wf_bytes [au_Principal e; au_Role e; au_Action e; au_Endpoint e; au_Result e; au_Detail e].

Lemma entry_okb_ok e : entry_okb e = true → entry_ok e.
Proof.
  unfold entry_okb. cbn [forallb]. rewrite !andb_true_iff. intros [[H1 H2] (H3 & H4 & H5 & H6 & H7 & H8 & _)].
  apply Z.leb_le in H1. apply Z.ltb_lt in H2. by constructor; first [done | apply wf_bytes_compute].
Qed.

Definition demo_disk (names : list string) : Disk := audit_disk (demo_entry <$> names).

Lemma demo_audit_run : audit_run (audit_log [demo_entry "alice"%string]) [demo_entry "alice"%string].
Proof.
  apply (run_append (audit_log []) [] (demo_entry "alice"%string)); [by apply run_open|by apply entry_okb_ok|done|].
  apply append_audit_ok; [|done]. apply (bool_decide_eq_true_1 (acceptable _ _)). vm_compute. reflexivity.
Qed.


Definition demo_chain : bytes := chain_bytes zero_hash 0 [demo_entry "alice"%string].

(** A file and the same with a torn frame behind it. *)
Lemma audit_tamper_evident_witness :
  hashed_records [mkSegment 0 (demo_chain ++ []) 0] = hashed_records [mkSegment 0 (demo_chain ++ [1; 2]) 0] ∧
  views 0 [demo_entry "alice"%string] = views 0 [demo_entry "alice"%string].
Proof.
  destruct (audit_run_log _ _ demo_audit_run) as [_ Hr]. assert (Ht : torn_end [1; 2]) by (by right).
  assert (H0 : torn_end []) by (by left).
  assert (Hw : wf_bytes demo_chain) by (apply wf_bytes_compute; vm_compute; reflexivity).
  assert (Hz : sha256 (audit_hashed 0 (payload_of zero_hash 0 (demo_entry "alice"%string))) ≠ zero_hash) by (vm_compute; discriminate).
  pose proof (hashed_audit_disk _ [] 0 Hr H0) as H1. pose proof (hashed_audit_disk _ [1; 2] 0 Hr Ht) as H2.
  fold demo_chain in H1, H2. cbn [chain_hashed] in H1, H2.
  apply (audit_tamper_evident _ _ _ _ (tip zero_hash 0 [demo_entry "alice"%string])).
  - apply Forall_singleton, Forall_app_2; [exact Hw|apply Forall_nil_2].
  - apply Forall_singleton, Forall_app_2; [exact Hw|by apply wf_bytes_compute].
  - exact (read_audit_disk _ [] 0 Hr H0).
  - exact (read_audit_disk _ [1; 2] 0 Hr Ht).
  - rewrite H1, H2. intros x y ->%list_elem_of_singleton ->%list_elem_of_singleton _. exact eq_refl.
  - rewrite H1, H2. intros x [->%list_elem_of_singleton | ->%list_elem_of_singleton]%elem_of_app; exact Hz.
Defined.

(** ** Findings *)

(** A retry after a failed append ruins the log.  [Append] promises that a
    retry is safe, because the failed record was never committed to the chain,
    but the record, or a part of it, stays in the file.  After a failing sync
    and a successful retry the log does not open and does not verify. *)
Theorem retry_after_failed_append_breaks_log :
  let bob := demo_entry "bob"%string in
  let '(l1, r1) := AppendAudit IoSyncError (audit_log []) bob in
  let '(l2, r2) := AppendAudit IoOk l1 bob in
  r1 = Err AuWriteFailed ∧ r2 = Ok () ∧
  OpenAudit (al_disk l2) = Err AuChainBroken ∧ VerifyAudit (al_disk l2) = Err AuSequenceGap.
Proof. vm_compute. repeat split. Qed.

(** Removing the last records is not noticed by [Verify], which documents that
    it detects deletion, nor by [Open]: every prefix of a log is a log. *)
Theorem removed_tail_not_detected l es n :
  audit_run l es → VerifyAudit (audit_disk (take n es)) = Ok () ∧ OpenAudit (audit_disk (take n es)) = Ok (audit_log (take n es)).
Proof.
  intros [_ [Hc Hl]]%audit_run_log. assert (Hr : recordable (take n es)).
  { split; [by apply chain_ok_take|]. unfold zlen in *. rewrite length_take. lia. }
  split.
  - pose proof (read_audit_log _ Hr) as H. unfold ReadAll, VerifyAudit in *. apply bind_Ok_inv in H as ([es' h] & -> & _). done.
  - pose proof (open_audit_disk (take n es) [] _ Hr ltac:(by left) eq_refl) as H. by rewrite app_nil_r in H.
Qed.

(** One wrong byte erases the log.  [decodeFrame] promises to tell a torn tail
    from a record with an oversized length, but compares the length with what
    is left of the file first: with a wrong first byte in the length of the
    first record, [Verify] accepts the log as empty and [Open] truncates it to
    nothing. *)
Definition demo_corrupt : Disk :=
  (λ s, mkSegment (seg_id s) (<[9%nat := 1]> (seg_bytes s)) (seg_synced s)) <$> demo_disk ["alice"%string].

Theorem wrong_length_erases_log :
  ReadAll (demo_disk ["alice"%string]) = Ok (views 0 [demo_entry "alice"%string]) ∧
  VerifyAudit demo_corrupt = Ok () ∧ OpenAudit demo_corrupt = Ok (audit_log []).
Proof.
  split; [apply read_audit_log, (audit_run_log _ _ demo_audit_run)|]. split; vm_compute; reflexivity.
Qed.
