(* ===== verification/Leases.v ===== *)
(** * Read leases ([internal/node/leases.go])

    The start sequences of the open read transactions of a leader, in a binary
    heap with lazy deletion: releasing a lease removes it from the map only,
    and [Min] drops stale heap entries when they come to the top.  The heap
    operations are those of Go's [container/heap]. *)

From S2P Require Import Prelude.

Record leaseHeapEntry := mkLeaseHeapEntry { lh_startSeq : Z; lh_id : Z }.
Abbreviation leaseMinHeap := (list leaseHeapEntry).

(** ** [container/heap] *)

Definition Less (h : leaseMinHeap) (i j : nat) : bool :=
  match h !! i, h !! j with
  | Some a, Some b => lh_startSeq a <? lh_startSeq b
  | _, _ => false
  end.

Definition Swap (h : leaseMinHeap) (i j : nat) : leaseMinHeap :=
  match h !! i, h !! j with
  | Some a, Some b => <[i := b]> (<[j := a]> h)
  | _, _ => h
  end.

Definition parent (j : nat) : nat := ((j - 1) / 2)%nat.

(** The index decreases: [j] steps are enough. *)
Fixpoint up (fuel : nat) (h : leaseMinHeap) (j : nat) : leaseMinHeap :=
  match fuel with
  | O => h
  | S fuel =>
      let i := parent j in
      if (i =? j)%nat || negb (Less h j i) then h else up fuel (Swap h i j) i
  end.

(** The index increases up to [n]: [n] steps are enough. *)
Fixpoint down (fuel : nat) (h : leaseMinHeap) (i n : nat) : leaseMinHeap :=
  match fuel with
  | O => h
  | S fuel =>
      let j1 := (2 * i + 1)%nat in
      if (n <=? j1)%nat then h else
      let j2 := (j1 + 1)%nat in
      let j := if (j2 <? n)%nat && Less h j2 j1 then j2 else j1 in
      if negb (Less h j i) then h else down fuel (Swap h i j) j n
  end.

Definition heap_Push (h : leaseMinHeap) (x : leaseHeapEntry) : leaseMinHeap :=
  let h := h ++ [x] in up (length h) h (length h - 1).

Definition heap_Pop (h : leaseMinHeap) : leaseMinHeap :=
  let n := (length h - 1)%nat in
  take n (down n (Swap h 0 n) 0 n).

(** ** The registry *)

Record leaseRegistry := mkLeaseRegistry { lr_live : gmap Z Z; lr_heap : leaseMinHeap }.

Definition newLeaseRegistry : leaseRegistry := mkLeaseRegistry ∅ [].

Definition Register (r : leaseRegistry) (id startSeq : Z) : leaseRegistry :=
  mkLeaseRegistry (<[id := startSeq]> (lr_live r)) (heap_Push (lr_heap r) (mkLeaseHeapEntry startSeq id)).

Definition ReleaseLease (r : leaseRegistry) (id : Z) : leaseRegistry :=
  mkLeaseRegistry (delete id (lr_live r)) (lr_heap r).

Definition lease_Len (r : leaseRegistry) : Z := Z.of_nat (size (lr_live r)).

(** The top of the heap, once stale entries are dropped.  Every round pops
    one entry. *)
Fixpoint Min_loop (fuel : nat) (r : leaseRegistry) : leaseRegistry * option Z :=
  match fuel with
  | O => (r, None)
  | S fuel =>
      match lr_heap r with
      | [] => (r, None)
      | top :: _ =>
          if bool_decide (lr_live r !! lh_id top = Some (lh_startSeq top))
          then (r, Some (lh_startSeq top))
          else Min_loop fuel (mkLeaseRegistry (lr_live r) (heap_Pop (lr_heap r)))
      end
  end.

Definition lease_Min (r : leaseRegistry) : leaseRegistry * option Z := Min_loop (S (length (lr_heap r))) r.

(** ** Heap order

    Positions are compared by their keys; a position outside the heap has the
    key 0, which never matters. *)

Definition key (h : leaseMinHeap) (i : nat) : Z := match h !! i with Some e => lh_startSeq e | None => 0 end.

Definition heap_ok (n : nat) (h : leaseMinHeap) : Prop :=
  ∀ j, (0 < j < n)%nat → key h (parent j) ≤ key h j.

Lemma parent_child j : (0 < j)%nat → (j = 2 * parent j + 1 ∨ j = 2 * parent j + 2)%nat.
Proof. intros Hj. unfold parent. pose proof (Nat.div_mod_eq (j - 1) 2). pose proof (Nat.mod_upper_bound (j - 1) 2). lia. Qed.

Lemma Less_key h i j : (i < length h)%nat → (j < length h)%nat → Less h i j = (key h i <? key h j).
Proof.
  intros [a Ha]%lookup_lt_is_Some_2 [b Hb]%lookup_lt_is_Some_2. unfold Less, key. by rewrite Ha, Hb.
Qed.

Lemma length_Swap h i j : length (Swap h i j) = length h.
Proof. unfold Swap. destruct (h !! i), (h !! j); by rewrite ?length_insert. Qed.

Lemma key_Swap h i j k :
  (i < length h)%nat → (j < length h)%nat →
  key (Swap h i j) k = if decide (k = i) then key h j else if decide (k = j) then key h i else key h k.
Proof.
  intros Hi Hj. destruct (lookup_lt_is_Some_2 h i Hi) as [a Ha]. destruct (lookup_lt_is_Some_2 h j Hj) as [b Hb].
  unfold Swap, key. rewrite Ha, Hb. destruct (decide (k = i)) as [->|Hki].
  { by rewrite list_lookup_insert_eq by (by rewrite length_insert). }
  rewrite list_lookup_insert_ne by done. destruct (decide (k = j)) as [->|Hkj]; [|by rewrite list_lookup_insert_ne].
  by rewrite list_lookup_insert_eq.
Qed.

Lemma Swap_perm h i j : Swap h i j ≡ₚ h.
Proof.
  unfold Swap. destruct (h !! i) as [a|] eqn:Ha; [|done]. destruct (h !! j) as [b|] eqn:Hb; [|done].
  by apply Permutation_insert_swap.
Qed.

Lemma up_length fuel h j : length (up fuel h j) = length h.
Proof.
  revert h j. induction fuel as [|fuel IH]; intros h j; [done|]. cbn [up]. cbv zeta.
  destruct (_ || _); [done|]. by rewrite IH, length_Swap.
Qed.

Lemma up_perm fuel h j : up fuel h j ≡ₚ h.
Proof.
  revert h j. induction fuel as [|fuel IH]; intros h j; [done|]. cbn [up]. cbv zeta.
  destruct (_ || _); [done|]. by rewrite IH, Swap_perm.
Qed.

Lemma down_length fuel h i n : length (down fuel h i n) = length h.
Proof.
  revert h i. induction fuel as [|fuel IH]; intros h i; [done|]. cbn [down]. cbv zeta.
  destruct (_ <=? _)%nat; [done|]. destruct (negb _); [done|]. by rewrite IH, length_Swap.
Qed.

(** Everything below position [n] except the one that [down] may have reached
    stays where it is. *)
Lemma down_above fuel h i n k : (i < n)%nat → (n ≤ k)%nat → (n ≤ length h)%nat → down fuel h i n !! k = h !! k.
Proof.
  revert h i. induction fuel as [|fuel IH]; intros h i Hi Hk Hn; [done|]. cbn [down]. cbv zeta.
  destruct (Nat.leb_spec n (2 * i + 1)) as [|H1]; [done|].
  set (j := if _ && _ then _ else _).
  assert (Hj : (j < n)%nat).
  { unfold j. destruct (Nat.ltb_spec (2 * i + 1 + 1) n); cbn [andb]; [destruct (Less h _ _)|]; lia. }
  clearbody j. destruct (negb (Less h j i)); [done|]. rewrite IH by (rewrite ?length_Swap; lia).
  unfold Swap. destruct (h !! i); [|done]. destruct (h !! j); [|done]. by rewrite !list_lookup_insert_ne by lia.
Qed.

Lemma down_perm fuel h i n : down fuel h i n ≡ₚ h.
Proof.
  revert h i. induction fuel as [|fuel IH]; intros h i; [done|]. cbn [down]. cbv zeta.
  destruct (_ <=? _)%nat; [done|]. destruct (negb _); [done|]. by rewrite IH, Swap_perm.
Qed.

(** [up] repairs a heap that is in order except between [j] and its parent. *)
Lemma up_heap fuel h j :
  (j < fuel)%nat → (j < length h)%nat →
  (∀ k, (0 < k < length h)%nat → k ≠ j → key h (parent k) ≤ key h k) →
  (∀ k, (0 < k < length h)%nat → (0 < j)%nat → parent k = j → key h (parent j) ≤ key h k) →
  heap_ok (length h) (up fuel h j).
Proof.
  revert h j. induction fuel as [|fuel IH]; intros h j Hf Hj H1 H2; [lia|]. cbn [up]. cbv zeta.
  destruct (Nat.eqb_spec (parent j) j) as [E|E]; cbn [orb].
  { intros k Hk. destruct (decide (k = j)) as [->|Hkj]; [|by apply H1].
    destruct (parent_child j ltac:(lia)); lia. }
  assert (Hj0 : (0 < j)%nat) by (destruct j; [done|lia]).
  assert (Hpj : (parent j < j)%nat) by (destruct (parent_child j Hj0); lia).
  rewrite Less_key by lia. destruct (Z.ltb_spec (key h j) (key h (parent j))) as [Hlt|Hge]; cbn [negb].
  2: { intros k Hk. destruct (decide (k = j)) as [->|Hkj]; [done|by apply H1]. }
  rewrite <- (length_Swap h (parent j) j). apply IH; [lia|rewrite length_Swap; lia|..]; rewrite length_Swap.
  - intros k Hk Hkp. rewrite !key_Swap by lia.
    destruct (decide (k = parent j)); [done|]. destruct (decide (k = j)) as [->|Hkj].
    { rewrite decide_True by done. lia. }
    destruct (decide (parent k = parent j)) as [E1|E1]; [specialize (H1 k Hk Hkj); rewrite E1 in H1; lia|].
    destruct (decide (parent k = j)) as [E2|E2]; [by apply H2|by apply H1].
  - intros k Hk Hp0 Ek. assert (Hpp : (parent (parent j) < parent j)%nat) by (destruct (parent_child (parent j) Hp0); lia).
    rewrite !key_Swap by lia. rewrite (decide_False (P := parent (parent j) = parent j)) by lia.
    rewrite (decide_False (P := parent (parent j) = j)) by lia.
    assert (key h (parent (parent j)) ≤ key h (parent j)) by (apply H1; lia).
    destruct (decide (k = parent j)) as [->|]; [lia|]. destruct (decide (k = j)) as [->|Hkj]; [lia|].
    specialize (H1 k Hk Hkj). rewrite Ek in H1. lia.
Qed.

(** [down] repairs a heap that is in order except between [i] and its
    children. *)
Lemma down_heap fuel h i n :
  (n ≤ i + fuel)%nat → (i < n)%nat → (n ≤ length h)%nat →
  (∀ k, (0 < k < n)%nat → parent k ≠ i → key h (parent k) ≤ key h k) →
  (∀ k, (0 < k < n)%nat → (0 < i)%nat → parent k = i → key h (parent i) ≤ key h k) →
  heap_ok n (down fuel h i n).
Proof.
  revert h i. induction fuel as [|fuel IH]; intros h i Hf Hi Hn H1 H2; [lia|]. cbn [down]. cbv zeta.
  destruct (Nat.leb_spec n (2 * i + 1)) as [Hend|Hc].
  { intros k Hk. apply H1; [done|]. intros E. destruct (parent_child k); lia. }
  assert (Hch : ∀ k, (0 < k < n)%nat → parent k = i → (k = 2 * i + 1 ∨ k = 2 * i + 2)%nat).
  { intros k Hk <-. apply parent_child. lia. }
  assert (Hpar : ∀ k, (k = 2 * i + 1 ∨ k = 2 * i + 2)%nat → parent k = i).
  { intros k Hk. destruct (parent_child k); lia. }
  set (j := if _ && _ then _ else _).
  assert (Hj : (i < j < n)%nat ∧ parent j = i ∧ ∀ k, (0 < k < n)%nat → parent k = i → key h j ≤ key h k).
  { unfold j. destruct (Nat.ltb_spec (2 * i + 1 + 1) n) as [H3|H3]; cbn [andb].
    - rewrite Less_key by lia. destruct (Z.ltb_spec (key h (2 * i + 1 + 1)) (key h (2 * i + 1))) as [H4|H4].
      + split; [lia|]. split; [apply Hpar; lia|]. intros k Hk Ek. destruct (Hch k Hk Ek) as [->| ->]; [lia|].
        by replace (2 * i + 2)%nat with (2 * i + 1 + 1)%nat by lia.
      + split; [lia|]. split; [apply Hpar; lia|]. intros k Hk Ek. destruct (Hch k Hk Ek) as [->| ->]; [done|].
        replace (2 * i + 2)%nat with (2 * i + 1 + 1)%nat by lia. done.
    - split; [lia|]. split; [apply Hpar; lia|]. intros k Hk Ek. destruct (Hch k Hk Ek) as [->| ->]; [done|lia]. }
  clearbody j. destruct Hj as (Hj & Hpj & Hmin). rewrite Less_key by lia.
  destruct (Z.ltb_spec (key h j) (key h i)) as [Hlt|Hge]; cbn [negb].
  2: { intros k Hk. destruct (decide (parent k = i)) as [E|E]; [|by apply H1]. rewrite E. specialize (Hmin k Hk E). lia. }
  apply IH; [lia|lia|rewrite length_Swap; lia|..].
  - intros k Hk Hpk. rewrite !key_Swap by lia. rewrite (decide_False (P := parent k = j)) by done.
    destruct (decide (parent k = i)) as [E|E].
    + destruct (decide (k = i)) as [->|]; [destruct (parent_child i); lia|].
      destruct (decide (k = j)); [lia|]. by apply Hmin.
    + destruct (decide (k = i)) as [->|]; [by apply H2; [lia|lia|]|]. destruct (decide (k = j)) as [->|]; [done|]. by apply H1.
  - intros k Hk _ Ek. rewrite !key_Swap by lia. rewrite Hpj, (decide_True (P := i = i)) by done.
    destruct (parent_child k ltac:(lia)); rewrite (decide_False (P := k = i)), (decide_False (P := k = j)) by lia;
      rewrite <- Ek; apply H1; [lia|lia|lia|lia].
Qed.

Lemma heap_ok_app h x : heap_ok (length h) h → ∀ k, (0 < k < length h)%nat → key (h ++ [x]) (parent k) ≤ key (h ++ [x]) k.
Proof.
  intros Hh k Hk. specialize (Hh k Hk). destruct (parent_child k ltac:(lia));
    unfold key in *; rewrite !lookup_app_l by lia; done.
Qed.

Lemma heap_Push_ok h x : heap_ok (length h) h → heap_ok (length (heap_Push h x)) (heap_Push h x) ∧ heap_Push h x ≡ₚ x :: h.
Proof.
  intros Hh. unfold heap_Push. cbv zeta. rewrite up_length. split.
  - apply up_heap; rewrite ?length_app; cbn [length]; [lia|lia| |].
    + intros k Hk Hne. apply heap_ok_app; [done|]. lia.
    + intros k Hk Hj Ek. destruct (parent_child k); lia.
  - rewrite up_perm. by rewrite Permutation_app_comm.
Qed.

Lemma heap_Pop_ok e h :
  heap_ok (length (e :: h)) (e :: h) →
  heap_ok (length (heap_Pop (e :: h))) (heap_Pop (e :: h)) ∧ e :: heap_Pop (e :: h) ≡ₚ e :: h.
Proof.
  intros Hh. unfold heap_Pop. cbv zeta. cbn [length]. rewrite Nat.sub_succ, Nat.sub_0_r.
  set (n := length h). set (h1 := Swap (e :: h) 0 n). set (h2 := down n h1 0 n).
  assert (L1 : length h1 = S n) by (unfold h1; by rewrite length_Swap).
  assert (L2 : length h2 = S n) by (unfold h2; by rewrite down_length).
  assert (Hlast : h1 !! n = Some e).
  { unfold h1, Swap. change ((e :: h) !! 0%nat) with (Some e).
    destruct (lookup_lt_is_Some_2 (e :: h) n) as [x Hx]; [cbn; lia|]. rewrite Hx.
    destruct (decide (n = 0%nat)) as [E|E].
    - rewrite E in *. cbn. cbn in Hx. by injection Hx as ->.
    - rewrite list_lookup_insert_ne by done. by rewrite list_lookup_insert_eq by (cbn; lia). }
  assert (Hlast2 : h2 !! n = Some e).
  { unfold h2. destruct (decide (n = 0%nat)) as [E|E]; [by rewrite E in *|]. by rewrite down_above by lia. }
  assert (Hsplit : h2 = take n h2 ++ [e]).
  { rewrite <- (take_drop n h2) at 1. f_equal. apply list_eq. intros [|k]; rewrite lookup_drop.
    - by rewrite Nat.add_0_r, Hlast2.
    - rewrite lookup_ge_None_2 by lia. done. }
  split.
  - rewrite length_take, Nat.min_l by lia.
    assert (Hk : ∀ k, (k < n)%nat → key (take n h2) k = key h2 k) by (intros k Hk; unfold key; by rewrite lookup_take_lt).
    destruct (decide (n = 0%nat)) as [E|E]; [intros k Hk2; lia|].
    assert (H2 : heap_ok n h2).
    { unfold h2. apply down_heap; [lia|lia|lia| |lia]. intros k Hk2 Hp. unfold h1. rewrite !key_Swap by (cbn; lia).
      destruct (parent_child k ltac:(lia)); rewrite (decide_False (P := parent k = 0%nat)) by done;
        rewrite !decide_False by lia; apply Hh; cbn; lia. }
    intros k Hk2. specialize (H2 k Hk2). destruct (parent_child k ltac:(lia)); rewrite !Hk by lia; done.
  - rewrite <- (Swap_perm (e :: h) 0 n). fold h1. rewrite <- (down_perm n h1 0 n). fold h2.
    rewrite Hsplit at 2. by rewrite Permutation_app_comm.
Qed.

Lemma heap_top e h x : heap_ok (length (e :: h)) (e :: h) → x ∈ e :: h → lh_startSeq e ≤ lh_startSeq x.
Proof.
  intros Hh [k Hx]%list_elem_of_lookup. revert x Hx. induction k as [k IH] using lt_wf_ind. intros x Hx.
  destruct (decide (k = 0%nat)) as [->|Hk]; [by injection Hx as ->|].
  pose proof (lookup_lt_Some _ _ _ Hx) as Hl. destruct (parent_child k ltac:(lia)) as [Hp|Hp];
    (destruct (lookup_lt_is_Some_2 (e :: h) (parent k)) as [y Hy]; [lia|];
     etrans; [apply (IH (parent k) ltac:(lia) y Hy)|]; specialize (Hh k ltac:(lia)); unfold key in Hh; by rewrite Hy, Hx in Hh).
Qed.

(** ** What the registry promises *)

(** The heap is in order and has an entry for every live lease. *)
Definition leases_ok (r : leaseRegistry) : Prop :=
  heap_ok (length (lr_heap r)) (lr_heap r) ∧
  ∀ id s, lr_live r !! id = Some s → mkLeaseHeapEntry s id ∈ lr_heap r.

Lemma newLeaseRegistry_ok : leases_ok newLeaseRegistry.
Proof. split; [intros j Hj; cbn in Hj; lia|]. intros id s H. done. Qed.

Lemma Register_ok r id s : leases_ok r → leases_ok (Register r id s).
Proof.
  intros [H1 H2]. unfold Register. destruct (heap_Push_ok (lr_heap r) (mkLeaseHeapEntry s id) H1) as [H3 H4].
  split; [exact H3|]. cbn. intros id' s'. rewrite H4. destruct (decide (id = id')) as [<-|Hne].
  - rewrite lookup_insert_eq. intros [= <-]. by left.
  - rewrite lookup_insert_ne by done. intros H. right. by apply H2.
Qed.

Lemma ReleaseLease_ok r id : leases_ok r → leases_ok (ReleaseLease r id).
Proof. intros [H1 H2]. split; [done|]. intros id' s H. cbn in H. apply lookup_delete_Some in H as [_ H]. by apply H2. Qed.

Lemma Min_loop_spec fuel r :
  (length (lr_heap r) < fuel)%nat → leases_ok r →
  let '(r', m) := Min_loop fuel r in
  leases_ok r' ∧ lr_live r' = lr_live r ∧
  match m with
  | Some s => (∃ id, lr_live r !! id = Some s) ∧ ∀ id s', lr_live r !! id = Some s' → s ≤ s'
  | None => lr_live r = ∅
  end.
Proof.
  revert r. induction fuel as [|fuel IH]; intros r Hf Hr; [lia|]. cbn [Min_loop]. pose proof Hr as [H1 H2].
  destruct (lr_heap r) as [|top h] eqn:Eh.
  { split; [done|]. split; [done|]. apply map_empty. intros id. destruct (lr_live r !! id) eqn:E; [|done].
    by apply H2, not_elem_of_nil in E. }
  case_bool_decide as Ht.
  { split; [done|]. split; [done|]. split; [by eexists|]. intros id s' Hs.
    apply (heap_top top h (mkLeaseHeapEntry s' id)); [done|by apply H2]. }
  destruct (heap_Pop_ok top h H1) as [H3 H4].
  specialize (IH (mkLeaseRegistry (lr_live r) (heap_Pop (top :: h)))). cbn [lr_heap lr_live] in IH. apply IH.
  - apply Permutation_length in H4. cbn [length] in *. lia.
  - split; [done|]. cbn. intros id s Hs. specialize (H2 id s Hs). rewrite <- H4 in H2.
    apply elem_of_cons in H2 as [<-|H2]; [done|done].
Qed.

Lemma lease_Min_spec r :
  leases_ok r →
  let '(r', m) := lease_Min r in
  leases_ok r' ∧ lr_live r' = lr_live r ∧
  match m with
  | Some s => (∃ id, lr_live r !! id = Some s) ∧ ∀ id s', lr_live r !! id = Some s' → s ≤ s'
  | None => lr_live r = ∅
  end.
Proof. intros Hr. unfold lease_Min. apply Min_loop_spec; [lia|done]. Qed.
