(* ===== verification/Admission.v ===== *)
(** * Admission control ([internal/admission/gate.go], [reason.go], [errors.go],
    and the gates of a node, [internal/node/admission.go])

    A [Gate] is two buffered channels of empty structs and a few atomic
    variables; many goroutines are inside [Acquire] at once.  A channel of
    empty structs is its length.  A caller is the point of [Acquire] or of the
    release function at which it stands, and [caller_step] is its next atomic
    action: one channel operation or one atomic load.  [None] is a blocked
    operation. *)

From S2P Require Import Prelude.

(** ** Reasons and rejections *)

Inductive Reason :=
| ReasonQueueFull
| ReasonQueueTimeout
| ReasonConcurrencyLimit
| ReasonReadLeaseLimit
| ReasonDiskPressure
| ReasonDiskCritical
| ReasonMemoryPressure
| ReasonAdminOperationInProgress
| ReasonShuttingDown.
#[export] Instance Reason_eq_dec : EqDecision Reason.
Proof. solve_decision. Defined.

Definition KnownReasons : list Reason :=
  [ReasonQueueFull; ReasonQueueTimeout; ReasonConcurrencyLimit; ReasonReadLeaseLimit;
   ReasonDiskPressure; ReasonDiskCritical; ReasonMemoryPressure; ReasonAdminOperationInProgress;
   ReasonShuttingDown].

(** In seconds. *)
Definition DefaultRetryAfter (r : Reason) : Z :=
  match r with
  | ReasonQueueFull | ReasonQueueTimeout | ReasonConcurrencyLimit | ReasonReadLeaseLimit => 1
  | ReasonDiskPressure | ReasonMemoryPressure => 5
  | ReasonDiskCritical => 30
  | ReasonAdminOperationInProgress => 10
  | ReasonShuttingDown => 0
  end.

Record RejectedError := mkRejectedError { re_Reason : Reason; re_RetryAfter : Z }.

(** What [Acquire] can fail with: a rejection, or the error of the context. *)
Inductive acquire_error := Rejected (e : RejectedError) | ContextError.

Definition rejected (r : Reason) : acquire_error := Rejected (mkRejectedError r (DefaultRetryAfter r)).

(** ** Gates *)

Record Limits := mkLimits { MaxConcurrent : Z; MaxQueueDepth : Z; MaxWait : Z }.

Record Gate := mkGate {
  g_lim : Limits;
  g_admission : Z;
  g_slots : Z;
  g_eff : Z;
  g_pressureReason : option Reason;
  g_admittedTotal : Z;
  g_rejectedTotal : Reason → Z
}.
#[export] Instance Gate_eta : Eta Gate := λ g,
  mkGate (g_lim g) (g_admission g) (g_slots g) (g_eff g) (g_pressureReason g) (g_admittedTotal g)
    (g_rejectedTotal g).
#[export] Instance set_g_admission : Setter g_admission.
Proof. derive_setter. Defined.
#[export] Instance set_g_slots : Setter g_slots.
Proof. derive_setter. Defined.
#[export] Instance set_g_eff : Setter g_eff.
Proof. derive_setter. Defined.
#[export] Instance set_g_pressureReason : Setter g_pressureReason.
Proof. derive_setter. Defined.
#[export] Instance set_g_admittedTotal : Setter g_admittedTotal.
Proof. derive_setter. Defined.
#[export] Instance set_g_rejectedTotal : Setter g_rejectedTotal.
Proof. derive_setter. Defined.

Inductive gate_error := ErrMaxConcurrent | ErrMaxQueueDepth | ErrMaxWait | GatePanic.

(** [cap(admission)]: the sum is a Go [int]. *)
Definition admission_cap (lim : Limits) : Z := i64 (MaxConcurrent lim + MaxQueueDepth lim).

(** [make] of a channel panics on a negative capacity. *)
Definition NewGate (lim : Limits) : result gate_error Gate :=
  if MaxConcurrent lim <=? 0 then Err ErrMaxConcurrent else
  if MaxQueueDepth lim <? 0 then Err ErrMaxQueueDepth else
  if MaxWait lim <? 0 then Err ErrMaxWait else
  if admission_cap lim <? 0 then Err GatePanic else
  Ok (mkGate lim 0 0 (MaxConcurrent lim) None 0 (λ _, 0)).

Definition reject (g : Gate) (r : Reason) : Gate :=
  g <| g_rejectedTotal := λ r', if decide (r' = r) then (g_rejectedTotal g r' + 1)%u64 else g_rejectedTotal g r' |>.

Definition InFlight (g : Gate) : Z := g_slots g.
Definition Queued (g : Gate) : Z :=
  let q := g_admission g - g_slots g in if q <? 0 then 0 else q.

Definition SetEffectiveConcurrent (g : Gate) (n : Z) : Gate :=
  let n := if MaxConcurrent (g_lim g) <? n then MaxConcurrent (g_lim g) else n in
  let n := if n <? 0 then 0 else n in
  g <| g_eff := n |>.
Definition SetPressureReason (g : Gate) (r : Reason) : Gate := g <| g_pressureReason := Some r |>.

(** *** Channel operations *)

Definition send_admission (g : Gate) : option Gate :=
  if g_admission g <? admission_cap (g_lim g) then Some (g <| g_admission := g_admission g + 1 |>) else None.
Definition recv_admission (g : Gate) : option Gate :=
  if 0 <? g_admission g then Some (g <| g_admission := g_admission g - 1 |>) else None.
Definition send_slots (g : Gate) : option Gate :=
  if g_slots g <? MaxConcurrent (g_lim g) then Some (g <| g_slots := g_slots g + 1 |>) else None.
Definition recv_slots (g : Gate) : option Gate :=
  if 0 <? g_slots g then Some (g <| g_slots := g_slots g - 1 |>) else None.

(** ** Callers *)

Inductive caller :=
| Outside                          (* not inside [Acquire], no release pending *)
| Waiting                          (* at the second select *)
| Leaving (e : acquire_error)      (* the context or the timer won *)
| Slotted                          (* about to read the number in flight *)
| Measured (inFlight : Z)          (* about to load the ceiling *)
| Over                             (* above it: about to give the slot back *)
| OverTicket                       (* about to give the ticket back *)
| Running                          (* [Acquire] returned the release function *)
| Releasing.                       (* release gave the slot back *)

(** Which case of a select is taken, and what the caller does next. *)
Inductive choice := Go | CtxDone | TimerFires | Release.

(** What a call returns in a step, if it returns. *)
Inductive answer := Accepted | Failed (e : acquire_error) | Released.

Definition caller_step (g : Gate) (p : caller) (c : choice) : option (Gate * caller * option answer) :=
  match p, c with
  | Outside, Go =>
      match send_admission g with
      | Some g => Some (g, Waiting, None)
      | None => Some (reject g ReasonQueueFull, Outside, Some (Failed (rejected ReasonQueueFull)))
      end
  | Waiting, Go => g ← send_slots g; Some (g, Slotted, None)
  | Waiting, CtxDone => Some (g, Leaving ContextError, None)
  | Waiting, TimerFires =>
      if 0 <? MaxWait (g_lim g) then Some (g, Leaving (rejected ReasonQueueTimeout), None) else None
  | Leaving e, Go =>
      g ← recv_admission g;
      let g := match e with Rejected r => reject g (re_Reason r) | ContextError => g end in
      Some (g, Outside, Some (Failed e))
  | Slotted, Go => Some (g, Measured (InFlight g), None)
  | Measured n, Go =>
      if g_eff g <? n then Some (g, Over, None)
      else Some (g <| g_admittedTotal := (g_admittedTotal g + 1)%u64 |>, Running, Some Accepted)
  | Over, Go => g ← recv_slots g; Some (g, OverTicket, None)
  | OverTicket, Go =>
      g ← recv_admission g;
      let r := default ReasonDiskPressure (g_pressureReason g) in
      Some (reject g r, Outside, Some (Failed (rejected r)))
  | Running, Release => g ← recv_slots g; Some (g, Releasing, None)
  | Releasing, Go => g ← recv_admission g; Some (g, Outside, Some Released)
  | _, _ => None
  end.

(** ** All callers of a gate

    A state is the gate and where each caller stands; a step is one caller's
    action or a change of the ceiling by the pressure monitor.  Calling a
    release function again is no step: [sync.Once] has run. *)

Abbreviation gate_state := (Gate * list caller)%type.

Inductive gate_step : gate_state → gate_state → Prop :=
| step_caller g ps i p c g' p' a :
    ps !! i = Some p → caller_step g p c = Some (g', p', a) → gate_step (g, ps) (g', <[i := p']> ps)
| step_effective g ps n : gate_step (g, ps) (SetEffectiveConcurrent g n, ps)
| step_reason g ps r : gate_step (g, ps) (SetPressureReason g r, ps).

(** ** The gates of a node *)

Record admissionGates := mkAdmissionGates {
  ag_write : Gate; ag_read : Gate; ag_control : Gate; ag_maintenance : Gate;
  ag_backupSlot : Gate; ag_scrubSlot : Gate
}.

Definition newAdmissionGates (maxInflightProposals maxConcurrentReads maxAdmin maxMaintenance queueDepth maxWait : Z)
    : result gate_error admissionGates :=
  let laneB n := NewGate (mkLimits n queueDepth maxWait) in
  let laneA n := NewGate (mkLimits n 0 0) in
  write ← laneB maxInflightProposals;
  read ← laneB maxConcurrentReads;
  control ← laneA maxAdmin;
  maintenance ← laneA maxMaintenance;
  backupSlot ← laneA 1;
  scrubSlot ← laneA 1;
  Ok (mkAdmissionGates write read control maintenance backupSlot scrubSlot).

(** What [acquireSingleSlot] makes of an error of [Acquire]. *)
Definition single_slot_error (e : acquire_error) : acquire_error :=
  match e with
  | Rejected r => if decide (re_Reason r = ReasonQueueFull) then rejected ReasonAdminOperationInProgress else e
  | ContextError => e
  end.
