(* ===== verification/NodePressure.v ===== *)
(** * Disk and heap pressure ([internal/node/pressure.go],
    [internal/admission/pressure.go])

    A node samples its free disk space and its heap and keeps one of three
    states; leaving a state takes a margin of a tenth.  The state sets the
    ceiling of the write gate.  A threshold is its method [Bytes], which
    resolves it against the size of the disk: the code computes percentages
    with floating-point numbers. *)

From S2P Require Import Prelude Admission.

(** ** Samples *)

Inductive sample_error := ErrDiskUsageUnsupported | ErrStatfs.
#[export] Instance sample_error_eq_dec : EqDecision sample_error.
Proof. solve_decision. Defined.

Record Pressure := mkPressure {
  p_DiskFreeBytes : Z;
  p_DiskTotalBytes : Z;
  p_HeapBytes : Z;
  p_Err : option sample_error
}.

Abbreviation Threshold := (Z → Z).

(** ** Settings of a node

    [None] stands for a threshold that is not set. *)

Record PressureSettings := mkPressureSettings {
  ps_diskPressure : option Threshold;
  ps_diskCritical : option Threshold;
  ps_MaxHeapBytes : Z;
  ps_MaxInflightProposals : Z;
  ps_FsyncFailureThreshold : Z
}.

Inductive setup_error := ErrCriticalWithoutPressure | ErrProbeUnsupported | ErrCriticalNotBelowPressure.

(** What [setupDiskPressure] requires; [probe] is the result of
    [storage.DiskUsage] on the data directory: the total size and the error. *)
Definition setupDiskPressure (s : PressureSettings) (probe : Z * option sample_error) : result setup_error () :=
  match ps_diskPressure s, ps_diskCritical s with
  | None, Some _ => Err ErrCriticalWithoutPressure
  | pressure, critical =>
      if bool_decide (is_Some pressure ∨ is_Some critical)
         && bool_decide (probe.2 = Some ErrDiskUsageUnsupported) then Err ErrProbeUnsupported else
      match pressure, critical with
      | Some p, Some c => if p probe.1 <=? c probe.1 then Err ErrCriticalNotBelowPressure else Ok ()
      | _, _ => Ok ()
      end
  end.

(** ** The state machine *)

Inductive PressureState := PressureNormal | PressureLowSpace | PressureCritical.
#[export] Instance PressureState_eq_dec : EqDecision PressureState.
Proof. solve_decision. Defined.

Definition scaleTenths (v tenths : Z) : Z := u64 (u64 (v / 10 * tenths) + u64 (v mod 10 * tenths) / 10).

Definition sampled (p : Pressure) : bool := bool_decide (p_Err p = None).

(** [DiskFreeBytes < thresh.Bytes(DiskTotalBytes)], for a threshold that is
    set and a sample that succeeded. *)
Definition below (t : option Threshold) (p : Pressure) : bool :=
  match t with
  | None => false
  | Some t => sampled p && (p_DiskFreeBytes p <? t (p_DiskTotalBytes p))
  end.

(** The condition to leave a state entered below the threshold. *)
Definition clear (t : option Threshold) (p : Pressure) : bool :=
  match t with
  | None => true
  | Some t => sampled p && (scaleTenths (t (p_DiskTotalBytes p)) 11 <=? p_DiskFreeBytes p)
  end.

Definition heapLow (s : PressureSettings) (p : Pressure) : bool :=
  (0 <? ps_MaxHeapBytes s) && (ps_MaxHeapBytes s <? p_HeapBytes p).
Definition heapLowClear (s : PressureSettings) (p : Pressure) : bool :=
  (ps_MaxHeapBytes s =? 0) || (p_HeapBytes p <=? scaleTenths (ps_MaxHeapBytes s) 9).

Definition next_pressure (s : PressureSettings) (old : PressureState) (p : Pressure) : PressureState :=
  let diskLow := below (ps_diskPressure s) p in
  let diskCritical := below (ps_diskCritical s) p in
  match old with
  | PressureCritical =>
      if diskCritical || negb (sampled p) then PressureCritical
      else if clear (ps_diskCritical s) p then PressureLowSpace
      else PressureCritical
  | PressureLowSpace =>
      if diskCritical then PressureCritical
      else if negb (sampled p) || diskLow || heapLow s p then PressureLowSpace
      else if clear (ps_diskPressure s) p && heapLowClear s p then PressureNormal
      else PressureLowSpace
  | PressureNormal =>
      if diskCritical then PressureCritical
      else if negb (sampled p) || diskLow || heapLow s p then PressureLowSpace
      else PressureNormal
  end.

Definition pressure_reason (s : PressureSettings) (p : Pressure) : Reason :=
  if negb (sampled p) || below (ps_diskPressure s) p || below (ps_diskCritical s) p
  then ReasonDiskPressure else ReasonMemoryPressure.

(** ** The write gate *)

Definition applyPressureGate (s : PressureSettings) (write : Gate) (st : PressureState) (reason : Reason) : Gate :=
  match st with
  | PressureCritical => SetEffectiveConcurrent (SetPressureReason write ReasonDiskCritical) 0
  | PressureLowSpace =>
      let eff := Z.quot (ps_MaxInflightProposals s) 4 in
      let eff := if eff <? 1 then 1 else eff in
      SetEffectiveConcurrent (SetPressureReason write reason) eff
  | PressureNormal => SetEffectiveConcurrent write (ps_MaxInflightProposals s)
  end.

(** [checkResourcePressure] without its log and audit entries: the new state,
    the gate, and whether a garbage collection pass is to be proposed. *)
Definition checkResourcePressure (s : PressureSettings) (gcEnabled : bool) (old : PressureState) (write : Gate)
    (p : Pressure) : PressureState * Gate * bool :=
  let next := next_pressure s old p in
  if bool_decide (next = old) then (old, write, false) else
  (next, applyPressureGate s write next (pressure_reason s p),
   bool_decide (old = PressureNormal) && negb (bool_decide (next = PressureNormal)) && gcEnabled).

(** The [diskPressure] field of the status. *)
Inductive disk_status := StatusUnsupported | StatusProbeFailed | StatusPressure (s : PressureState).

Definition diskPressureStatusString (s : PressureSettings) (st : PressureState) (p : Pressure) : disk_status :=
  let set := bool_decide (is_Some (ps_diskPressure s)) || bool_decide (is_Some (ps_diskCritical s)) in
  if set && bool_decide (p_Err p = Some ErrDiskUsageUnsupported) then StatusUnsupported
  else if negb (sampled p) then StatusProbeFailed
  else if negb set then StatusPressure PressureNormal
  else StatusPressure st.

(** ** Failing durable writes *)

Inductive FsyncPath := FsyncPathRaft | FsyncPathSnapshot | FsyncPathBackup | FsyncPathAudit.
#[export] Instance FsyncPath_eq_dec : EqDecision FsyncPath.
Proof. solve_decision. Defined.

(** [consecutiveNonRaftFsyncFailures] and [storageUnhealthy]. *)
Record Health := mkHealth { h_failures : Z; h_unhealthy : bool }.

Definition noteFsyncResult (threshold : Z) (path : FsyncPath) (failed : bool) (h : Health) : Health :=
  if negb failed then mkHealth 0 false else
  if bool_decide (path = FsyncPathRaft) then h else
  let count := h_failures h + 1 in
  if count <? threshold then mkHealth count (h_unhealthy h) else mkHealth count true.

(** ** Properties *)

(** The ceiling that goes with a state. *)
Definition ceiling_of (s : PressureSettings) (st : PressureState) : Z :=
  match st with
  | PressureNormal => ps_MaxInflightProposals s
  | PressureLowSpace => Z.max 1 (ps_MaxInflightProposals s / 4)
  | PressureCritical => 0
  end.

Definition gate_follows (s : PressureSettings) (st : PressureState) (write : Gate) : Prop :=
  MaxConcurrent (g_lim write) = ps_MaxInflightProposals s ∧ g_eff write = ceiling_of s st.

(** A failed probe leaves the state or, from normal, tightens it by one
    step. *)
Definition no_relaxation (p : Pressure) (old new : PressureState) : Prop :=
  sampled p = false →
  match old with
  | PressureNormal => new = PressureLowSpace
  | _ => new = old
  end.

(** States as levels. *)
Definition level (st : PressureState) : Z :=
  match st with PressureNormal => 0 | PressureLowSpace => 1 | PressureCritical => 2 end.

Lemma SetEffective_eff g n : g_eff (SetEffectiveConcurrent g n) = Z.max 0 (Z.min n (MaxConcurrent (g_lim g))).
Proof. unfold SetEffectiveConcurrent. cbn. repeat case_match; bool_to_prop; lia. Qed.

Lemma applyPressureGate_follows s g st r :
  0 < ps_MaxInflightProposals s → MaxConcurrent (g_lim g) = ps_MaxInflightProposals s →
  gate_follows s st (applyPressureGate s g st r).
Proof.
  intros Hm Hl. unfold gate_follows, applyPressureGate. destruct st; cbn [ceiling_of].
  - rewrite SetEffective_eff. split; [done|]. rewrite Hl. lia.
  - rewrite SetEffective_eff. cbn. rewrite Z.quot_div_nonneg by lia. split; [done|]. rewrite Hl.
    pose proof (Z.div_lt (ps_MaxInflightProposals s) 4). destruct (Z.ltb_spec (ps_MaxInflightProposals s / 4) 1); lia.
  - rewrite SetEffective_eff. cbn. split; [done|]. lia.
Qed.

(** The write gate's ceiling is the one of the current state after any number
    of samples. *)
Lemma pressure_run_follows s gc ps st g :
  0 < ps_MaxInflightProposals s → gate_follows s st g →
  let '(st', g') := foldl (λ '(st, g) p, (checkResourcePressure s gc st g p).1) (st, g) ps in
  gate_follows s st' g'.
Proof.
  intros Hm. revert st g. induction ps as [|p ps IH]; intros st g Hg; [done|]. cbn [foldl].
  destruct (checkResourcePressure s gc st g p) as [[st' g'] b] eqn:E. cbn [fst]. apply IH.
  unfold checkResourcePressure in E. case_bool_decide.
  - by injection E as <- <- _.
  - injection E as <- <- _. apply applyPressureGate_follows; [done|apply Hg].
Qed.

Lemma next_pressure_levels s st p : level st - 1 ≤ level (next_pressure s st p).
Proof. unfold next_pressure. destruct st; repeat case_match; cbn; lia. Qed.

Lemma below_failed t p : sampled p = false → below t p = false.
Proof. intros Hs. destruct t; [|done]. unfold below. by rewrite Hs. Qed.

Lemma next_pressure_failed s st p : no_relaxation p st (next_pressure s st p).
Proof. intros Hs. unfold next_pressure. rewrite !(below_failed _ p Hs), Hs. by destruct st. Qed.

(** [noteFsyncResult] over a sequence of outcomes off the Raft path: the node
    is unhealthy exactly when the failures since the last success reach the
    threshold. *)
Definition failing_suffix (outcomes : list bool) : Z :=
  foldl (λ k failed, if failed : bool then k + 1 else 0) 0 outcomes.

Lemma note_run threshold outcomes :
  let h := foldl (λ h failed, noteFsyncResult threshold FsyncPathSnapshot failed h) (mkHealth 0 false) outcomes in
  h_failures h = failing_suffix outcomes ∧
  h_unhealthy h = (0 <? failing_suffix outcomes) && (threshold <=? failing_suffix outcomes).
Proof.
  cbn zeta. induction outcomes as [|failed l IH] using rev_ind; [done|]. unfold failing_suffix in *. rewrite !foldl_app.
  destruct IH as [IH1 IH2]. set (h := foldl _ (mkHealth 0 false) l) in *. set (k := foldl _ 0 l) in *. cbn [foldl].
  assert (0 ≤ k) as Hk.
  { unfold k. clear. induction l as [|b l IH] using rev_ind; [done|]. rewrite foldl_app. cbn. destruct b; lia. }
  unfold noteFsyncResult. destruct failed; [|done]. cbn [negb]. rewrite bool_decide_eq_false_2 by done. rewrite IH1.
  rewrite (proj2 (Z.ltb_lt 0 (k + 1))) by lia. cbn [andb].
  destruct (Z.ltb_spec (k + 1) threshold); cbn; (split; [done|]).
  - rewrite IH2. rewrite (proj2 (Z.leb_gt threshold k)), (proj2 (Z.leb_gt threshold (k + 1))) by lia. by rewrite andb_false_r.
  - by rewrite (proj2 (Z.leb_le threshold (k + 1))) by lia.
Qed.
