(* ===== verification/ControlPlane.v ===== *)
(** * The guarded control plane ([internal/authn], [internal/authz],
    [cmd/chronicledb-node/auth.go] and the routes of [main.go])

    Who may call what: tokens and client certificates name a principal, a
    mapping file gives the principal a role, a table says which roles may call
    an endpoint, and every call is recorded in the audit log before its handler
    runs.  A request is what the code reads of it; the clock, the answers of
    the file system to the audit log and the text of a health record are
    arguments. *)

From Stdlib Require Import String.
From S2P Require Import Prelude Bytes Json WalRecord Wal AuditTrail Admission NodePressure.

(** ** Roles and endpoints ([authz.go]) *)

Definition RoleAdmin : bytes := Eval vm_compute in str "admin"%string.
Definition RoleOperator : bytes := Eval vm_compute in str "operator"%string.
Definition RoleReadOnly : bytes := Eval vm_compute in str "read-only"%string.
Definition AllRoles : list bytes := [RoleAdmin; RoleOperator; RoleReadOnly].

Inductive auth_error :=
| AuthUnknownRole
| AuthTokenLine
| AuthTokenFileTooLong
| AuthMappingSyntax
| AuthUnauthenticated
| AuthInvalidMode
| AuthPeerTLSIncomplete
| AuthMissingTokenFile
| AuthMissingMapping
| AuthMissingTLS
| AuthMissingCA.

Definition ParseRole (s : bytes) : result auth_error bytes :=
  if bool_decide (s = RoleAdmin) || bool_decide (s = RoleOperator) || bool_decide (s = RoleReadOnly)
  then Ok s else Err AuthUnknownRole.

Definition EndpointStatus : bytes := Eval vm_compute in str "status"%string.
Definition EndpointMetrics : bytes := Eval vm_compute in str "metrics"%string.
Definition EndpointHealth : bytes := Eval vm_compute in str "health"%string.
Definition EndpointPropose : bytes := Eval vm_compute in str "propose"%string.
Definition EndpointOutcome : bytes := Eval vm_compute in str "outcome"%string.
Definition EndpointFault : bytes := Eval vm_compute in str "fault"%string.
Definition EndpointReloadTLS : bytes := Eval vm_compute in str "admin.reload-tls"%string.
Definition EndpointBackup : bytes := Eval vm_compute in str "admin.backup"%string.
Definition EndpointUpgradePrecheck : bytes := Eval vm_compute in str "admin.upgrade.precheck"%string.
Definition EndpointUpgradeFinalize : bytes := Eval vm_compute in str "admin.upgrade.finalize"%string.
Definition EndpointMembershipAdd : bytes := Eval vm_compute in str "admin.membership.add"%string.
Definition EndpointMembershipPromote : bytes := Eval vm_compute in str "admin.membership.promote"%string.
Definition EndpointMembershipRemove : bytes := Eval vm_compute in str "admin.membership.remove"%string.
Definition EndpointMembershipStatus : bytes := Eval vm_compute in str "admin.membership.status"%string.
Definition EndpointStorageScrub : bytes := Eval vm_compute in str "admin.storage.scrub"%string.
Definition EndpointStorageStatus : bytes := Eval vm_compute in str "admin.storage.status"%string.

Definition AllEndpoints : list bytes :=
  [EndpointStatus; EndpointMetrics; EndpointHealth; EndpointPropose; EndpointOutcome; EndpointFault; EndpointReloadTLS;
   EndpointBackup; EndpointUpgradePrecheck; EndpointUpgradeFinalize;
   EndpointMembershipAdd; EndpointMembershipPromote; EndpointMembershipRemove; EndpointMembershipStatus;
   EndpointStorageScrub; EndpointStorageStatus].

(** A row of the table. *)
Definition row (admin operator readOnly : bool) : gmap bytes bool :=
  list_to_map [(RoleAdmin, admin); (RoleOperator, operator); (RoleReadOnly, readOnly)].

Definition decisionTable : gmap bytes (gmap bytes bool) :=
  list_to_map
    [(EndpointStatus, row true true true); (EndpointMetrics, row true true true); (EndpointHealth, row true true true);
     (EndpointPropose, row true true false); (EndpointOutcome, row true true false);
     (EndpointFault, row true false false); (EndpointReloadTLS, row true false false);
     (EndpointBackup, row true true false);
     (EndpointUpgradePrecheck, row true false false); (EndpointUpgradeFinalize, row true false false);
     (EndpointMembershipAdd, row true false false); (EndpointMembershipPromote, row true false false);
     (EndpointMembershipRemove, row true false false); (EndpointMembershipStatus, row true true true);
     (EndpointStorageScrub, row true false false); (EndpointStorageStatus, row true true false)].

(** A missing entry of a map reads as [false]. *)
Definition Allowed (endpoint role : bytes) : bool :=
  match decisionTable !! endpoint with
  | None => false
  | Some roles => default false (roles !! role)
  end.

(** ** Files *)

(** [bufio.Scanner]: the lines, without their ends; the last one need not end.
    A line of 64 KiB or more is an error when it is met. *)
Fixpoint split_lines (b cur : bytes) : list bytes :=
  match b with
  | [] => if bool_decide (cur = []) then [] else [reverse cur]
  | c :: b => if c =? 10 then reverse cur :: split_lines b [] else split_lines b (c :: cur)
  end.

Definition drop_cr (l : bytes) : bytes :=
  match reverse l with c :: r => if c =? 13 then reverse r else l | [] => l end.

Definition MaxScanTokenSize : Z := 64 * 1024.

(** [strings.SplitN(text, ":", 2)], when there is a colon. *)
Fixpoint cut_colon (s : bytes) : option (bytes * bytes) :=
  match s with
  | [] => None
  | c :: s => if c =? 58 then Some ([], s) else match cut_colon s with Some (a, b) => Some (c :: a, b) | None => None end
  end.

Fixpoint load_tokens (lines : list bytes) (tokens : gmap bytes bytes) : result auth_error (gmap bytes bytes) :=
  match lines with
  | [] => Ok tokens
  | line :: lines =>
      if MaxScanTokenSize <=? zlen line then Err AuthTokenFileTooLong else
      let text := TrimSpace (drop_cr line) in
      if bool_decide (text = []) || has_prefix text [35] then load_tokens lines tokens else
      match cut_colon text with
      | None => Err AuthTokenLine
      | Some (tok, principal) =>
          if bool_decide (tok = []) || bool_decide (principal = []) then Err AuthTokenLine
          else load_tokens lines (<[tok := principal]> tokens)
      end
  end.

Definition LoadTokenFile (file : bytes) : result auth_error (gmap bytes bytes) := load_tokens (split_lines file []) ∅.

(** The order in which the principals are visited does not matter. *)
Definition LoadMappingFile (file : bytes) : result auth_error (gmap bytes bytes) :=
  match Unmarshal dec_string_map file ∅ with
  | None => Err AuthMappingSyntax
  | Some raw => if forallb (λ '(_, role), match ParseRole role with Ok _ => true | Err _ => false end) (map_to_list raw)
                then Ok raw else Err AuthUnknownRole
  end.

(** ** Authentication ([authn.go]) *)

(** What the code reads of a request: the [Authorization] header, the common
    name of the first client certificate, if there is one, and the URL. *)
Record Request := mkRequest {
  rq_Authorization : bytes; rq_PeerCommonName : option bytes; rq_Path : bytes; rq_RawQuery : bytes
}.

Definition bearer_prefix : bytes := Eval vm_compute in str "Bearer "%string.

Definition bearerToken (r : Request) : option bytes :=
  let h := rq_Authorization r in
  if (zlen h <=? zlen bearer_prefix) || negb (bool_decide (take (length bearer_prefix) h = bearer_prefix)) then None
  else Some (drop (length bearer_prefix) h).

Inductive Authenticator := TokenAuthenticator (tokens : gmap bytes bytes) | MTLSAuthenticator.

(** Every token is compared, also after a match. *)
Definition authenticate_token (tokens : gmap bytes bytes) (r : Request) : result auth_error bytes :=
  match bearerToken r with
  | None => Err AuthUnauthenticated
  | Some presented =>
      if bool_decide (presented = []) then Err AuthUnauthenticated else
      match foldl (λ m '(tok, name), if bool_decide (tok = presented) then Some name else m) None (map_to_list tokens) with
      | None => Err AuthUnauthenticated
      | Some name => Ok name
      end
  end.

Definition authenticate_mtls (r : Request) : result auth_error bytes :=
  match rq_PeerCommonName r with
  | None => Err AuthUnauthenticated
  | Some cn => if bool_decide (cn = []) then Err AuthUnauthenticated else Ok cn
  end.

Definition Authenticate (a : Authenticator) (r : Request) : result auth_error bytes :=
  match a with TokenAuthenticator tokens => authenticate_token tokens r | MTLSAuthenticator => authenticate_mtls r end.

(** ** Flags ([auth.go]) *)

Definition authModeNone : bytes := Eval vm_compute in str "none"%string.
Definition authModeToken : bytes := Eval vm_compute in str "token"%string.
Definition authModeMTLS : bytes := Eval vm_compute in str "mtls"%string.

Record securityFlags := mkSecurityFlags {
  sf_tlsCertFile : bytes; sf_tlsKeyFile : bytes; sf_tlsCAFile : bytes;
  sf_peerTLSCertFile : bytes; sf_peerTLSKeyFile : bytes; sf_peerTLSCAFile : bytes;
  sf_authModeFlag : bytes; sf_authTokenFile : bytes; sf_rbacMappingFile : bytes; sf_enableFault : bool
}.

Definition countNonEmpty (vals : list bytes) : nat := length (filter (λ v, v ≠ []) vals).

Definition validateSecurityFlags (f : securityFlags) : result auth_error bytes :=
  let mode := sf_authModeFlag f in
  if negb (bool_decide (mode ∈ [authModeNone; authModeToken; authModeMTLS])) then Err AuthInvalidMode else
  let peerTLSCount := countNonEmpty [sf_peerTLSCertFile f; sf_peerTLSKeyFile f; sf_peerTLSCAFile f] in
  if negb (peerTLSCount =? 0)%nat && negb (peerTLSCount =? 3)%nat then Err AuthPeerTLSIncomplete else
  if bool_decide (mode = authModeToken) && bool_decide (sf_authTokenFile f = []) then Err AuthMissingTokenFile else
  if bool_decide (mode = authModeToken) && bool_decide (sf_rbacMappingFile f = []) then Err AuthMissingMapping else
  if bool_decide (mode = authModeMTLS) && (bool_decide (sf_tlsCertFile f = []) || bool_decide (sf_tlsKeyFile f = []))
  then Err AuthMissingTLS else
  if bool_decide (mode = authModeMTLS) && bool_decide (sf_tlsCAFile f = []) then Err AuthMissingCA else
  if bool_decide (mode = authModeMTLS) && bool_decide (sf_rbacMappingFile f = []) then Err AuthMissingMapping else
  Ok mode.

Record security := mkSecurity {
  sc_authenticator : Authenticator;
  sc_rbac : gmap bytes bytes;
  sc_auditLog : AuditLog;
  sc_authSuccessTotal : Z;
  sc_authFailureTotal : Z;
  sc_auditWriteFailuresTotal : Z
}.

(** The files are read from the paths in the flags; [None] is the mode without
    authentication. *)
Definition newSecurity (tokenFile mappingFile : bytes) (mode : bytes) (log : AuditLog) : result auth_error (option security) :=
  if bool_decide (mode = authModeNone) then Ok None else
  authenticator ← (if bool_decide (mode = authModeToken)
                   then tokens ← LoadTokenFile tokenFile; Ok (TokenAuthenticator tokens)
                   else Ok MTLSAuthenticator);
  rbac ← LoadMappingFile mappingFile;
  Ok (Some (mkSecurity authenticator rbac log 0 0 0)).

(** ** The middleware *)

(** The node behind the control plane: its storage health. *)
Record Guard := mkGuard { gd_sec : option security; gd_health : Health }.

Inductive response :=
| Handled (endpoint name role : bytes)   (** the handler of the endpoint runs *)
| HttpError (code : Z).

Definition result_allow : bytes := Eval vm_compute in str "allow"%string.
Definition result_unauthenticated : bytes := Eval vm_compute in str "deny_unauthenticated"%string.
Definition result_unauthorized : bytes := Eval vm_compute in str "deny_unauthorized"%string.

(** [auditHealth]: best effort. *)
Definition auditHealth (io : audit_io) (action detail : bytes) (log : AuditLog) : AuditLog :=
  (AppendAudit io log (mkAudit 0 0 (str "node"%string) (str "system"%string) action [] result_allow detail)).1.

(** [NoteAuditWriteResult]: the health changes, and a change of the flag is
    recorded in the same log. *)
Definition NoteAuditWriteResult (threshold : Z) (hio : audit_io) (detail : bytes) (failed : bool) (h : Health) (log : AuditLog)
    : Health * AuditLog :=
  let h' := noteFsyncResult threshold FsyncPathAudit failed h in
  let log := match h_unhealthy h, h_unhealthy h' with
             | false, true => auditHealth hio (str "node.storage_unhealthy"%string) detail log
             | true, false => auditHealth hio (str "node.storage_healthy"%string) detail log
             | _, _ => log
             end in
  (h', log).

(** The result that [wrap] decides on, and the role. *)
Definition decide_request (s : security) (endpoint : bytes) (r : Request) : bytes * bytes * bytes :=
  match Authenticate (sc_authenticator s) r with
  | Err _ => (result_unauthenticated, [], [])
  | Ok name =>
      match sc_rbac s !! name with
      | None => (result_unauthorized, name, [])
      | Some role => (if Allowed endpoint role then result_allow else result_unauthorized, name, role)
      end
  end.

Definition audit_entry (now : Z) (endpoint : bytes) (r : Request) (d : bytes * bytes * bytes) : AuditEntry :=
  let '(result, name, role) := d in mkAudit 0 now name role endpoint (rq_Path r) result (rq_RawQuery r).

Definition security_wrap (threshold now : Z) (io hio : audit_io) (detail : bytes) (g : Guard) (endpoint : bytes) (r : Request)
    : Guard * response :=
  match gd_sec g with
  | None => (g, Handled endpoint [] [])
  | Some s =>
      let d := decide_request s endpoint r in
      let '(result, name, role) := d in
      let authOk := negb (bool_decide (result = result_unauthenticated)) in
      let success := sc_authSuccessTotal s + (if authOk then 1 else 0) in
      let failure := sc_authFailureTotal s + (if authOk then 0 else 1) in
      let '(log, answer) := AppendAudit io (sc_auditLog s) (audit_entry now endpoint r d) in
      let failed := match answer with Ok _ => false | Err _ => true end in
      let '(h, log) := NoteAuditWriteResult threshold hio detail failed (gd_health g) log in
      let writeFailures := sc_auditWriteFailuresTotal s + (if failed then 1 else 0) in
      let g := mkGuard (Some (mkSecurity (sc_authenticator s) (sc_rbac s) log success failure writeFailures)) h in
      if failed then (g, HttpError 500)
      else if bool_decide (result = result_unauthenticated) then (g, HttpError 401)
      else if bool_decide (result = result_unauthorized) then (g, HttpError 403)
      else (g, Handled endpoint name role)
  end.

(** ** Routes ([newControlServer]) *)

Definition routes (enableFault : bool) : gmap bytes bytes :=
  list_to_map (
    [(str "/status"%string, EndpointStatus); (str "/propose"%string, EndpointPropose);
     (str "/outcome"%string, EndpointOutcome); (str "/metrics"%string, EndpointMetrics);
     (str "/health"%string, EndpointHealth); (str "/admin/reload-tls"%string, EndpointReloadTLS);
     (str "/admin/backup"%string, EndpointBackup); (str "/admin/upgrade/precheck"%string, EndpointUpgradePrecheck);
     (str "/admin/upgrade/finalize"%string, EndpointUpgradeFinalize);
     (str "/admin/membership/add"%string, EndpointMembershipAdd);
     (str "/admin/membership/promote"%string, EndpointMembershipPromote);
     (str "/admin/membership/remove"%string, EndpointMembershipRemove);
     (str "/admin/membership/status"%string, EndpointMembershipStatus);
     (str "/admin/storage/scrub"%string, EndpointStorageScrub); (str "/admin/storage/status"%string, EndpointStorageStatus)] ++
    (if enableFault then [(str "/fault"%string, EndpointFault)] else [])).

(** The routes are exact paths; anything else is not found. *)
Definition ServeHTTP (enableFault : bool) (threshold now : Z) (io hio : audit_io) (detail : bytes) (g : Guard) (r : Request)
    : Guard * response :=
  match routes enableFault !! rq_Path r with
  | None => (g, HttpError 404)
  | Some endpoint => security_wrap threshold now io hio detail g endpoint r
  end.
