(* ===== verification/ControlPlaneSpec.v ===== *)
(** * Only who may, and only on the record

    A request reaches a handler exactly if its credential names a principal
    whose role the table permits, and then its audit record is on disk.  Every
    other answer is accounted for.  The last part is about requests that do
    not fit an audit record. *)

From Stdlib Require Import String.
From stdpp Require Import functions.
From S2P Require Import Prelude Bytes Hash Scrub Json JsonSpec WalRecord Wal AuditTrail AuditTrailSpec Admission NodePressure ControlPlane.

(** ** The table *)

Definition operator_endpoints : list bytes :=
  [EndpointStatus; EndpointMetrics; EndpointHealth; EndpointPropose; EndpointOutcome; EndpointBackup;
   EndpointMembershipStatus; EndpointStorageStatus].
Definition readonly_endpoints : list bytes := [EndpointStatus; EndpointMetrics; EndpointHealth; EndpointMembershipStatus].

(** Administrators call everything, operators what does not change the
    cluster, readers what only observes. *)
Definition permitted (endpoint role : bytes) : Prop :=
  (role = RoleAdmin ∧ endpoint ∈ AllEndpoints) ∨ (role = RoleOperator ∧ endpoint ∈ operator_endpoints) ∨
  (role = RoleReadOnly ∧ endpoint ∈ readonly_endpoints).
#[export] Instance permitted_dec endpoint role : Decision (permitted endpoint role).
Proof. unfold permitted. apply _. Defined.

Lemma row_lookup a o r role :
  default false (row a o r !! role) =
    (bool_decide (role = RoleAdmin) && a || bool_decide (role = RoleOperator) && o || bool_decide (role = RoleReadOnly) && r).
Proof.
  unfold row. rewrite !list_to_map_cons, list_to_map_nil. destruct (decide (role = RoleAdmin)) as [->|H1]; [by rewrite lookup_insert_eq; destruct a|].
  rewrite lookup_insert_ne by done. destruct (decide (role = RoleOperator)) as [->|H2]; [by rewrite lookup_insert_eq; destruct o|].
  rewrite lookup_insert_ne by done. destruct (decide (role = RoleReadOnly)) as [->|H3]; [by rewrite lookup_insert_eq; destruct r|].
  rewrite lookup_insert_ne, lookup_empty by done. by rewrite !bool_decide_false by done.
Qed.

Lemma table_lookup endpoint :
  decisionTable !! endpoint =
    if bool_decide (endpoint ∈ AllEndpoints)
    then Some (row true (bool_decide (endpoint ∈ operator_endpoints)) (bool_decide (endpoint ∈ readonly_endpoints))) else None.
Proof.
  destruct (decide (endpoint ∈ AllEndpoints)) as [H|H].
  - rewrite bool_decide_true by done.
    assert (Hall : forallb (λ endpoint, bool_decide (decisionTable !! endpoint =
      Some (row true (bool_decide (endpoint ∈ operator_endpoints)) (bool_decide (endpoint ∈ readonly_endpoints))))) AllEndpoints = true)
      by (vm_compute; reflexivity).
    rewrite forallb_forall in Hall. exact (bool_decide_eq_true_1 _ (Hall endpoint (proj1 (list_elem_of_In _ _) H))).
  - rewrite bool_decide_false by done. apply not_elem_of_list_to_map_1. intros H'. apply H. clear H. revert H'. cbn [fmap list_fmap fst].
    unfold AllEndpoints. intros H'. set_solver.
Qed.

Lemma Allowed_permitted endpoint role : Allowed endpoint role = bool_decide (permitted endpoint role).
Proof.
  unfold Allowed. rewrite table_lookup. destruct (decide (endpoint ∈ AllEndpoints)) as [H|H].
  - rewrite (bool_decide_true (endpoint ∈ AllEndpoints)) by done. rewrite row_lookup. apply eq_true_iff_eq.
    rewrite !orb_true_iff, !andb_true_iff, !bool_decide_eq_true. unfold permitted. tauto.
  - rewrite (bool_decide_false (endpoint ∈ AllEndpoints)) by done. symmetry. apply bool_decide_false. intros [[_ H']|[[_ H']|[_ H']]]; [done| |];
      apply H; clear H; unfold operator_endpoints, readonly_endpoints, AllEndpoints in *; set_solver.
Qed.

(** ** Files *)

Lemma cut_colon_spec s : match cut_colon s with Some (a, b) => s = a ++ 58 :: b ∧ 58 ∉ a | None => 58 ∉ s end.
Proof.
  induction s as [|c s IH]; cbn [cut_colon]; [apply not_elem_of_nil|]. destruct (Z.eqb_spec c 58) as [->|Hc].
  - split; [done|apply not_elem_of_nil].
  - destruct (cut_colon s) as [[a b]|].
    + destruct IH as [-> IH]. split; [done|]. intros [E|E]%elem_of_cons; [by subst|done].
    + intros [E|E]%elem_of_cons; [by subst|done].
Qed.

(** A line that gives a token to a principal. *)
Definition token_line (line tok name : bytes) : Prop :=
  TrimSpace (drop_cr line) = (tok ++ 58 :: name) ∧ ¬ (58 ∈ tok) ∧ tok ≠ [] ∧ name ≠ [] ∧
  has_prefix (TrimSpace (drop_cr line)) [35] = false.

Lemma cut_colon_app a b : 58 ∉ a → cut_colon (a ++ 58 :: b) = Some (a, b).
Proof.
  induction a as [|c a IH]; intros H; [done|]. cbn [app cut_colon]. apply not_elem_of_cons in H as [H1 H2].
  rewrite (proj2 (Z.eqb_neq _ _)) by (intros ->; done). by rewrite IH.
Qed.

Lemma load_tokens_spec lines : ∀ tokens m,
  load_tokens lines tokens = Ok m →
  (∀ t p, m !! t = Some p → tokens !! t = Some p ∨ ∃ line, line ∈ lines ∧ token_line line t p) ∧
  (∀ t, is_Some (tokens !! t) → is_Some (m !! t)) ∧
  (∀ line t p, line ∈ lines → token_line line t p → is_Some (m !! t)).
Proof.
  induction lines as [|line lines IH]; intros tokens m H; cbn [load_tokens] in H.
  { injection H as ->. split_and!; [by left|done|by intros ? ? ? ?%not_elem_of_nil]. }
  destruct (MaxScanTokenSize <=? zlen line); [done|]. cbv zeta in H.
  destruct (bool_decide (TrimSpace (drop_cr line) = []) || has_prefix (TrimSpace (drop_cr line)) [35]) eqn:Hskip.
  - destruct (IH _ _ H) as (H1 & H2 & H3). split_and!.
    + intros t p Hm. destruct (H1 t p Hm) as [?|(l & ? & ?)]; [by left|]. right. exists l. by split; [right|].
    + done.
    + intros l t p [->|Hl]%elem_of_cons Ht; [|by eapply H3]. destruct Ht as (Ht & _ & Hne & _ & Hp). rewrite Hp, Ht in Hskip.
      rewrite bool_decide_false in Hskip by (by intros [_ ?]%app_eq_nil). done.
  - apply orb_false_iff in Hskip as [_ Hpre]. pose proof (cut_colon_spec (TrimSpace (drop_cr line))) as Hcut.
    destruct (cut_colon (TrimSpace (drop_cr line))) as [[tok name]|] eqn:Ecut; [|done].
    destruct (bool_decide (tok = []) || bool_decide (name = [])) eqn:Hne; [done|].
    apply orb_false_iff in Hne as [Hn1%bool_decide_eq_false Hn2%bool_decide_eq_false]. destruct Hcut as [Hc1 Hc2].
    destruct (IH _ _ H) as (H1 & H2 & H3). split_and!.
    + intros t p Hm. destruct (H1 t p Hm) as [Hi|(l & ? & ?)]; [|right; exists l; by split; [right|]].
      apply lookup_insert_Some in Hi as [[<- <-]|[_ Hi]]; [|by left]. right. exists line. split; [by left|]. done.
    + intros t Ht. apply H2, lookup_insert_is_Some'. by right.
    + intros l t p [->|Hl]%elem_of_cons Ht; [|by eapply H3]. apply H2, lookup_insert_is_Some'. left.
      destruct Ht as (Ht & Ht2 & _). rewrite Ht, cut_colon_app in Ecut by done. by injection Ecut as -> _.
Qed.

Lemma wf_drop_while (f : bytes → bool) ps : Forall wf_bytes ps → Forall wf_bytes (drop_while f ps).
Proof. induction 1 as [|p ps Hp Hps IH]; [constructor|]. cbn. destruct (f p); [done|by constructor]. Qed.

Lemma wf_mjoin (ps : list bytes) : Forall wf_bytes ps → wf_bytes (mjoin ps).
Proof. induction 1 as [|p ps Hp Hps IH]; [constructor|]. cbn [mjoin list_join]. by apply Forall_app. Qed.

Lemma wf_TrimSpace s : wf_bytes s → wf_bytes (TrimSpace s).
Proof.
  intros H. unfold TrimSpace. cbv zeta. apply wf_mjoin, Forall_reverse, wf_drop_while, Forall_reverse, wf_drop_while.
  eapply Forall_impl; [by apply pieces_ok|]. by intros p (_ & ? & _).
Qed.

Lemma wf_drop_cr l : wf_bytes l → wf_bytes (drop_cr l).
Proof.
  intros H. unfold drop_cr. apply Forall_reverse in H as H'. destruct (reverse l) as [|c r]; [done|].
  destruct (c =? 13); [|done]. apply Forall_reverse. by apply Forall_cons in H' as [_ ?].
Qed.

Lemma wf_split_lines b : ∀ cur, wf_bytes b → wf_bytes cur → Forall wf_bytes (split_lines b cur).
Proof.
  induction b as [|c b IH]; intros cur Hb Hc; cbn [split_lines].
  - case_bool_decide; [constructor|]. by apply Forall_singleton, Forall_reverse.
  - apply Forall_cons in Hb as [H1 H2]. destruct (c =? 10); [constructor; [by apply Forall_reverse|apply IH; [done|constructor]]|].
    apply IH; [done|by constructor].
Qed.

Lemma wf_token_line file line tok name :
  wf_bytes file → line ∈ split_lines file [] → token_line line tok name → wf_bytes name.
Proof.
  intros Hf Hl (Ht & _). assert (Hw : wf_bytes (tok ++ 58 :: name)).
  { rewrite <- Ht. apply wf_TrimSpace, wf_drop_cr. pose proof (wf_split_lines file [] Hf ltac:(constructor)) as H.
    rewrite Forall_forall in H. by apply H. }
  apply Forall_app in Hw as [_ Hw]. by apply Forall_cons in Hw as [_ ?].
Qed.

Lemma mapping_roles file m name role : LoadMappingFile file = Ok m → m !! name = Some role → role ∈ AllRoles.
Proof.
  unfold LoadMappingFile. destruct (Unmarshal _ _ _) as [raw|]; [|done]. destruct (forallb _ _) eqn:Hall; [|done].
  intros [= <-] Hm. rewrite forallb_forall in Hall. specialize (Hall (name, role)). cbn in Hall.
  rewrite <- list_elem_of_In, elem_of_map_to_list in Hall. specialize (Hall Hm). unfold ParseRole in Hall. unfold AllRoles.
  destruct (bool_decide (role = RoleAdmin)) eqn:E1; [apply bool_decide_eq_true in E1; set_solver|].
  destruct (bool_decide (role = RoleOperator)) eqn:E2; [apply bool_decide_eq_true in E2; set_solver|].
  destruct (bool_decide (role = RoleReadOnly)) eqn:E3; [apply bool_decide_eq_true in E3; set_solver|done].
Qed.

(** ** Credentials *)

Lemma fold_tokens (presented : bytes) (l : list (bytes * bytes)) : ∀ m : option bytes,
  NoDup (l.*1) →
  foldl (λ m '(tok, name), if bool_decide (tok = presented) then Some name else m) m l =
    match list_find (λ x, x.1 = presented) l with Some (_, x) => Some x.2 | None => m end.
Proof.
  induction l as [|[tok name] l IH]; intros m Hn; [done|]. rewrite fmap_cons in Hn. apply NoDup_cons in Hn as [H1 Hn].
  cbn [foldl list_find fst]. rewrite IH by done. destruct (decide (tok = presented)) as [->|Hne].
  - rewrite bool_decide_true by done. assert (list_find (λ x, x.1 = presented) l = None) as ->; [|done].
    apply list_find_None, Forall_forall. intros x Hx E. apply H1. cbn. rewrite <- E. exact (list_elem_of_fmap_2 fst l x Hx).
  - rewrite bool_decide_false by done. by destruct (list_find _ l) as [[i x]|].
Qed.

Lemma fold_tokens_lookup (tokens : gmap bytes bytes) presented :
  foldl (λ m '(tok, name), if bool_decide (tok = presented) then Some name else m) None (map_to_list tokens) = tokens !! presented.
Proof.
  rewrite fold_tokens by apply NoDup_fst_map_to_list. destruct (list_find _ _) as [[i [tok name]]|] eqn:E.
  - apply list_find_Some in E as (E1 & E2 & _). cbn in *. subst tok. symmetry. apply elem_of_map_to_list. by eapply list_elem_of_lookup_2.
  - apply list_find_None in E. symmetry. apply eq_None_not_Some. intros [name Hn]. apply elem_of_map_to_list in Hn.
    rewrite Forall_forall in E. by apply (E _ Hn).
Qed.

Lemma bearerToken_spec r tok : tok ≠ [] → bearerToken r = Some tok ↔ rq_Authorization r = bearer_prefix ++ tok.
Proof.
  intros Hne. unfold bearerToken. cbv zeta. split.
  - destruct (_ || _) eqn:E; [done|]. apply orb_false_iff in E as [_ E%negb_false_iff%bool_decide_eq_true].
    intros [= <-]. by rewrite <- E at 1; rewrite take_drop.
  - intros ->. rewrite take_app_length, drop_app_length. rewrite bool_decide_true by done. rewrite zlen_app.
    rewrite (proj2 (Z.leb_gt _ _)); [done|]. destruct tok; [done|]. rewrite zlen_cons. pose proof (zlen_nonneg tok). lia.
Qed.

Lemma authenticate_token_spec tokens r name :
  authenticate_token tokens r = Ok name ↔
  ∃ tok, tok ≠ [] ∧ rq_Authorization r = bearer_prefix ++ tok ∧ tokens !! tok = Some name.
Proof.
  unfold authenticate_token. split.
  - destruct (bearerToken r) as [tok|] eqn:Eb; [|done]. case_bool_decide as Hne; [done|]. rewrite fold_tokens_lookup.
    destruct (tokens !! tok) as [n|] eqn:Et; [|done]. intros [= ->]. exists tok. split; [done|]. split; [|done]. by apply bearerToken_spec.
  - intros (tok & Hne & Hr & Ht). rewrite (proj2 (bearerToken_spec r tok Hne) Hr). rewrite bool_decide_false by done.
    by rewrite fold_tokens_lookup, Ht.
Qed.

(** The request carries a credential of the principal. *)
Definition credential (mode tokenFile : bytes) (r : Request) (name : bytes) : Prop :=
  (mode = authModeToken ∧ ∃ line tok, line ∈ split_lines tokenFile [] ∧ token_line line tok name ∧
     rq_Authorization r = bearer_prefix ++ tok) ∨
  (mode = authModeMTLS ∧ rq_PeerCommonName r = Some name ∧ name ≠ []).

(** A control plane in use: its authenticator and its mapping are those that
    were loaded from the files. *)
Definition configured (f : securityFlags) (tokenFile mappingFile : bytes) (s : security) : Prop :=
  ∃ mode log s0, validateSecurityFlags f = Ok mode ∧ newSecurity tokenFile mappingFile mode log = Ok (Some s0) ∧
    sc_authenticator s = sc_authenticator s0 ∧ sc_rbac s = sc_rbac s0.

Lemma valid_mode f mode : validateSecurityFlags f = Ok mode → sf_authModeFlag f = mode ∧ mode ∈ [authModeNone; authModeToken; authModeMTLS].
Proof.
  unfold validateSecurityFlags. cbv zeta. destruct (bool_decide (sf_authModeFlag f ∈ _)) eqn:E; [|done].
  apply bool_decide_eq_true in E. cbn [negb]. repeat (destruct (_ && _); [done|]). by intros [= <-].
Qed.

Lemma configured_facts f tokenFile mappingFile s :
  configured f tokenFile mappingFile s →
  (∀ name role, sc_rbac s !! name = Some role → role ∈ AllRoles) ∧
  (∀ r name, Authenticate (sc_authenticator s) r = Ok name → credential (sf_authModeFlag f) tokenFile r name) ∧
  (∀ r name, credential (sf_authModeFlag f) tokenFile r name → ∃ name', Authenticate (sc_authenticator s) r = Ok name').
Proof.
  intros (mode & log & s0 & Hv & Hn & Ha & Hr). apply valid_mode in Hv as [-> Hmode]. rewrite Ha, Hr. unfold newSecurity in Hn.
  case_bool_decide as Hnone; [done|]. apply bind_Ok_inv in Hn as (a & Hau & Hn). apply bind_Ok_inv in Hn as (rbac & Hmap & Hn).
  injection Hn as <-. cbn [sc_authenticator sc_rbac]. split; [intros name role; by eapply mapping_roles|].
  case_bool_decide as Htok.
  - apply bind_Ok_inv in Hau as (tokens & Hl & [= <-]). destruct (load_tokens_spec _ _ _ Hl) as (H1 & _ & H3). cbn [Authenticate]. split.
    + intros r name (tok & Hne & Hau & Ht)%authenticate_token_spec. left. split; [done|].
      destruct (H1 _ _ Ht) as [H|(line & ? & ?)]; [by rewrite lookup_empty in H|]. by exists line, tok.
    + intros r name [(_ & line & tok & Hin & Hline & Hau)|(E & _)]; [|by rewrite Htok in E].
      destruct (H3 line tok name Hin Hline) as [name' Hn']. exists name'. apply authenticate_token_spec. exists tok.
      split; [by destruct Hline as (_ & _ & ? & _)|done].
  - injection Hau as <-. assert (mode = authModeMTLS) as -> by set_solver. cbn [Authenticate]. unfold authenticate_mtls. split.
    + intros r name H. right. split; [done|]. destruct (rq_PeerCommonName r) as [cn|]; [|done]. case_bool_decide; [done|]. by injection H as ->.
    + intros r name [[E _]|(_ & -> & Hne)]; [done|]. rewrite bool_decide_false by done. by exists name.
Qed.

(** ** The record *)

Record request_ok (r : Request) : Prop := {
  ro_cn : ∀ cn, rq_PeerCommonName r = Some cn → wf_bytes cn;
  ro_path : wf_bytes (rq_Path r);
  ro_query : wf_bytes (rq_RawQuery r)
}.

Lemma credential_wf mode tokenFile r name : wf_bytes tokenFile → request_ok r → credential mode tokenFile r name → wf_bytes name.
Proof.
  intros Hf Hr [(_ & line & tok & Hin & Hl & _)|(_ & Hcn & _)]; [by eapply wf_token_line|by apply (ro_cn r Hr)].
Qed.

Lemma endpoint_wf enableFault path endpoint : routes enableFault !! path = Some endpoint → endpoint ∈ AllEndpoints ∧ (endpoint = EndpointFault → enableFault = true).
Proof.
  intros H. apply elem_of_list_to_map_2 in H. apply elem_of_app in H as [H|H].
  - split.
    + apply (list_elem_of_fmap_2 snd) in H. revert H. cbn [fmap list_fmap snd]. unfold AllEndpoints. intros H. set_solver.
    + intros ->. exfalso. apply (list_elem_of_fmap_2 snd) in H. revert H. cbn [fmap list_fmap snd].
      apply (bool_decide_eq_false_1 (EndpointFault ∈ _)). vm_compute. reflexivity.
  - destruct enableFault; [|by apply not_elem_of_nil in H]. apply list_elem_of_singleton in H. injection H as _ ->. split; [|done].
    apply (bool_decide_eq_true_1 (EndpointFault ∈ _)). vm_compute. reflexivity.
Qed.

Lemma all_endpoints_wf endpoint : endpoint ∈ AllEndpoints → wf_bytes endpoint.
Proof.
  intros H. apply wf_bytes_compute. assert (Hall : forallb is_wf_bytes AllEndpoints = true) by (vm_compute; reflexivity).
  rewrite forallb_forall in Hall. exact (Hall _ (proj1 (list_elem_of_In _ _) H)).
Qed.

Lemma all_roles_wf role : role ∈ AllRoles → wf_bytes role.
Proof.
  intros H. apply wf_bytes_compute. assert (Hall : forallb is_wf_bytes AllRoles = true) by (vm_compute; reflexivity).
  rewrite forallb_forall in Hall. exact (Hall _ (proj1 (list_elem_of_In _ _) H)).
Qed.

(** A further append, whatever becomes of it, leaves what was recorded. *)
Lemma append_keeps io es e :
  recordable es → entry_ok e → zlen es + 1 < 2 ^ 64 →
  ∃ rest, ReadAll (al_disk (AppendAudit io (audit_log es) e).1) = Ok (views 0 (es ++ rest)) ∧
    (io = IoOk → (AppendAudit io (audit_log es) e).1 = audit_log (es ++ rest) ∧ recordable (es ++ rest)).
Proof.
  intros Hr He Hl. destruct (decide (acceptable es e)) as [Ha|Ha].
  2: { exists []. rewrite append_audit, bool_decide_false, app_nil_r by done. split; [by apply read_audit_log|done]. }
  pose proof (recordable_snoc es e Hr He Ha Hl) as Hr'. destruct (chain_snoc es e zero_hash 0) as (Hc & _). rewrite Z.add_0_l in Hc.
  assert (Hfull : ∀ n, ReadAll [mkSegment 0 (chain_bytes zero_hash 0 es ++ frame_of (tip zero_hash 0 es) (zlen es) e) n] = Ok (views 0 (es ++ [e]))).
  { intros n. rewrite <- Hc. pose proof (read_audit_disk (es ++ [e]) [] n Hr' ltac:(by left)) as H. rewrite app_nil_r in H. unfold ReadAll. by rewrite H. }
  destruct io as [|k|].
  - exists [e]. rewrite append_audit_ok by done. split; [by apply read_audit_log|done].
  - rewrite append_audit, bool_decide_true by done. cbv zeta. cbn [fst al_disk].
    destruct (decide (length (frame_of (tip zero_hash 0 es) (zlen es) e) ≤ k)%nat) as [Hk|Hk].
    + exists [e]. rewrite take_ge by done. split; [apply Hfull|done].
    + exists []. rewrite app_nil_r. split; [|done]. unfold ReadAll. rewrite read_audit_disk; [done|done|].
      destruct (decide (k = 0%nat)) as [->|Hk0]; [by left|right]. split.
      * intros E. apply (f_equal length) in E. rewrite length_take in E. cbn in E. lia.
      * apply decode_cut_frame; [unfold is_u64; pose proof (zlen_nonneg es); lia|by apply acceptable_fits|lia].
  - exists [e]. rewrite append_audit, bool_decide_true by done. cbv zeta. cbn [fst al_disk]. split; [apply Hfull|done].
Qed.

(** The entry is on record behind [es], and the log is still in use if the
    file system did not fail a health record. *)
Definition recorded (hio : audit_io) (es : list AuditEntry) (e : AuditEntry) (g : Guard) : Prop :=
  ∃ s rest, gd_sec g = Some s ∧ ReadAll (al_disk (sc_auditLog s)) = Ok (views 0 (es ++ [e] ++ rest)) ∧
    (hio = IoOk → audit_run (sc_auditLog s) (es ++ [e] ++ rest)).

(** A log that was written without failures is one in use. *)
Lemma recordable_run es : recordable es → audit_run (audit_log es) es.
Proof.
  induction es as [|e es IH] using rev_ind; intros [Hc Hl].
  - by apply run_open.
  - destruct (chain_snoc es e zero_hash 0) as (_ & _ & H & _). apply H in Hc as (H1 & H2 & H3). rewrite Z.add_0_l in H3.
    rewrite zlen_app, zlen_cons, zlen_nil in Hl.
    apply (run_append (audit_log es) es e); [apply IH; split; [done|lia]|done|lia|].
    apply append_audit_ok; [by apply acceptable_fits|lia].
Qed.

Lemma health_entry_ok action detail :
  wf_bytes action → wf_bytes detail → entry_ok (mkAudit 0 0 (str "node"%string) (str "system"%string) action [] result_allow detail).
Proof.
  intros H1 H2. constructor; cbn [au_Timestamp au_Principal au_Role au_Action au_Endpoint au_Result au_Detail];
    first [exact H1|exact H2|unfold is_int64; lia|by apply wf_bytes_compute].
Qed.

Lemma noted_keeps threshold hio detail h es :
  recordable es → wf_bytes detail → zlen es + 1 < 2 ^ 64 →
  ∃ rest, ReadAll (al_disk (NoteAuditWriteResult threshold hio detail false h (audit_log es)).2) = Ok (views 0 (es ++ rest)) ∧
    (hio = IoOk → audit_run (NoteAuditWriteResult threshold hio detail false h (audit_log es)).2 (es ++ rest)).
Proof.
  intros Hr Hd Hl. unfold NoteAuditWriteResult. cbn [noteFsyncResult negb h_unhealthy snd]. destruct (h_unhealthy h).
  - unfold auditHealth. destruct (append_keeps hio es (mkAudit 0 0 (str "node"%string) (str "system"%string)
      (str "node.storage_healthy"%string) [] result_allow detail) Hr) as (rest & H1 & H2); [|done|].
    { apply health_entry_ok; [|done]. by apply wf_bytes_compute. }
    exists rest. split; [exact H1|]. intros E. destruct (H2 E) as [-> H3]. by apply recordable_run.
  - exists []. rewrite app_nil_r. split; [by apply read_audit_log|]. intros _. by apply recordable_run.
Qed.

(** ** The middleware *)

(** The three decisions, and when each is taken. *)
Inductive decision f tokenFile (s : security) endpoint r : bytes * bytes * bytes → Prop :=
| decided_allow name role :
    credential (sf_authModeFlag f) tokenFile r name → sc_rbac s !! name = Some role → permitted endpoint role →
    decision f tokenFile s endpoint r (result_allow, name, role)
| decided_unauthenticated :
    (∀ name, ¬ credential (sf_authModeFlag f) tokenFile r name) → decision f tokenFile s endpoint r (result_unauthenticated, [], [])
| decided_unauthorized name role :
    credential (sf_authModeFlag f) tokenFile r name →
    (sc_rbac s !! name = None ∧ role = [] ∨ sc_rbac s !! name = Some role ∧ ¬ permitted endpoint role) →
    decision f tokenFile s endpoint r (result_unauthorized, name, role).

Lemma decide_request_spec f tokenFile mappingFile s endpoint r :
  configured f tokenFile mappingFile s → decision f tokenFile s endpoint r (decide_request s endpoint r).
Proof.
  intros (_ & H2 & H3)%configured_facts. unfold decide_request.
  destruct (Authenticate (sc_authenticator s) r) as [name|e] eqn:Ea.
  - apply H2 in Ea. destruct (sc_rbac s !! name) as [role|] eqn:Er; [|apply decided_unauthorized; [done|by left]].
    rewrite Allowed_permitted. case_bool_decide; [by constructor|apply decided_unauthorized; [done|by right]].
  - constructor. intros name Hc. destruct (H3 r name Hc) as [name' E]. by rewrite E in Ea.
Qed.

Lemma decided_entry f tokenFile mappingFile s endpoint r d now :
  configured f tokenFile mappingFile s → wf_bytes tokenFile → request_ok r → is_int64 now → endpoint ∈ AllEndpoints →
  decision f tokenFile s endpoint r d → entry_ok (audit_entry now endpoint r d).
Proof.
  intros (H1 & _ & _)%configured_facts Hf Hr Hnow Hend%all_endpoints_wf Hd.
  assert (Hgen : ∀ result name role, wf_bytes result → wf_bytes name → wf_bytes role → entry_ok (audit_entry now endpoint r (result, name, role))).
  { intros result name role ? ? ?. destruct Hr. constructor; cbn; assumption. }
  destruct Hd as [name role Hc Hrole _|_|name role Hc Hrole]; apply Hgen; try (by apply wf_bytes_compute);
    try exact (credential_wf _ _ _ _ Hf Hr Hc).
  - exact (all_roles_wf _ (H1 _ _ Hrole)).
  - destruct Hrole as [[_ ->]|[Hrole _]]; [by apply wf_bytes_compute|exact (all_roles_wf _ (H1 _ _ Hrole))].
Qed.

(** The answer that goes with a decision. *)
Definition answer_of (endpoint : bytes) (d : bytes * bytes * bytes) : response :=
  let '(result, name, role) := d in
  if bool_decide (result = result_unauthenticated) then HttpError 401
  else if bool_decide (result = result_unauthorized) then HttpError 403 else Handled endpoint name role.

Lemma wrap_spec threshold now io hio detail s h es endpoint r d :
  d = decide_request s endpoint r → entry_ok (audit_entry now endpoint r d) → wf_bytes detail →
  audit_run (sc_auditLog s) es → zlen es + 2 < 2 ^ 64 →
  ∃ s' h', sc_authenticator s' = sc_authenticator s ∧ sc_rbac s' = sc_rbac s ∧
    (security_wrap threshold now io hio detail (mkGuard (Some s) h) endpoint r = (mkGuard (Some s') h', HttpError 500) ∧
       (io ≠ IoOk ∨ ¬ acceptable es (audit_entry now endpoint r d)) ∨
     security_wrap threshold now io hio detail (mkGuard (Some s) h) endpoint r = (mkGuard (Some s') h', answer_of endpoint d) ∧
       recorded hio es (audit_entry now endpoint r d) (mkGuard (Some s') h')).
Proof.
  intros Hd He Hdet Hrun Hl. destruct (audit_run_log _ _ Hrun) as [Hlog Hr]. unfold security_wrap. cbn [gd_sec gd_health]. rewrite <- Hd.
  destruct d as [[result name] role]. rewrite Hlog. cbv zeta.
  destruct (AppendAudit io (audit_log es) (audit_entry now endpoint r (result, name, role))) as [log answer] eqn:EA.
  destruct answer as [[]|err].
  - assert (Hok : io = IoOk ∧ acceptable es (audit_entry now endpoint r (result, name, role))).
    { rewrite append_audit in EA. case_bool_decide; [|done]. cbv zeta in EA. by destruct io. }
    destruct Hok as [-> Ha]. rewrite append_audit_ok in EA by (done || lia). injection EA as <-.
    pose proof (recordable_snoc es _ Hr He Ha ltac:(lia)) as Hr'.
    destruct (noted_keeps threshold hio detail h _ Hr' Hdet ltac:(zlen_lia)) as (rest & H1 & H2).
    destruct (NoteAuditWriteResult threshold hio detail false h _) as [h' log']. cbn [snd] in H1, H2.
    cbv beta iota zeta. match goal with |- context [mkGuard (Some (mkSecurity ?a ?b ?c ?d ?e ?f)) h'] => exists (mkSecurity a b c d e f), h' end.
    split; [done|]. split; [done|]. right. split; [unfold answer_of; by repeat case_bool_decide|].
    eexists _, rest. split; [done|]. cbn [sc_auditLog]. rewrite <- app_assoc in H1, H2. done.
  - assert (Hno : io ≠ IoOk ∨ ¬ acceptable es (audit_entry now endpoint r (result, name, role))).
    { rewrite append_audit in EA. case_bool_decide; [left|by right]. cbv zeta in EA. by destruct io. }
    destruct (NoteAuditWriteResult threshold hio detail true h log) as [h' log'].
    cbv beta iota zeta. match goal with |- context [mkGuard (Some (mkSecurity ?a ?b ?c ?d ?e ?f)) h'] => exists (mkSecurity a b c d e f), h' end.
    split; [done|]. split; [done|]. left. exact (conj eq_refl Hno).
Qed.


(** ** An example *)

Definition demo_flags : securityFlags :=
  mkSecurityFlags [] [] [] [] [] [] authModeToken (str "tokens"%string) (str "roles"%string) false.
Definition demo_token_file : bytes := str "# operators
s3cret:alice
"%string.
(** {"alice":"operator"} *)
Definition demo_mapping_file : bytes := [123] ++ quote (str "alice"%string) ++ [58] ++ quote RoleOperator ++ [125].
Definition demo_control_request (token : string) (path query : bytes) : Request :=
  mkRequest (bearer_prefix ++ str token) None path query.
Definition demo_security : security :=
  mkSecurity (TokenAuthenticator {[ str "s3cret"%string := str "alice"%string ]})
    {[ str "alice"%string := RoleOperator ]} (audit_log []) 0 0 0.

Lemma demo_configured : configured demo_flags demo_token_file demo_mapping_file demo_security.
Proof.
  exists authModeToken, (audit_log []), demo_security. split; [vm_compute; reflexivity|]. split; [vm_compute; reflexivity|done].
Qed.


(** ** Findings *)

Lemma print_items_item brk items x : x ∈ items → zlen x ≤ zlen (print_items brk items).
Proof.
  induction items as [|y [|z items] IH]; intros H; [by apply not_elem_of_nil in H|..].
  - apply list_elem_of_singleton in H as ->. cbn [print_items]. rewrite zlen_app. pose proof (zlen_nonneg brk). lia.
  - cbn [print_items]. rewrite !zlen_app. pose proof (zlen_nonneg brk). pose proof (zlen_nonneg y). cbn [print_items] in IH.
    pose proof (zlen_nonneg (print_items brk (z :: items))). cbn [print_items] in *. rewrite zlen_cons, zlen_nil.
    apply elem_of_cons in H as [->|H]; [lia|]. specialize (IH H). lia.
Qed.

Lemma quote_ampersands n : zlen (quote_body (replicate n 38)) = 6 * Z.of_nat n.
Proof.
  unfold quote_body. rewrite pieces_plain by (apply Forall_replicate; done). induction n as [|n IH]; [done|].
  rewrite replicate_S, !fmap_cons, mjoin_cons, zlen_app, IH. change (zlen (quote_piece [38])) with 6. lia.
Qed.

(** The text of an object is at least as long as each of its strings. *)
Lemma Marshal_member l k v : (k, JString v) ∈ l → zlen (quote_body v) ≤ zlen (Marshal (JObject l)).
Proof.
  intros H. unfold Marshal. destruct l as [|m l]; [by apply not_elem_of_nil in H|]. cbn [print].
  pose proof (print_items_item (ly_break compact_text 1) ((λ '(k, v), quote k ++ ly_colon compact_text ++ print compact_text 1 v) <$> m :: l)
    (quote k ++ ly_colon compact_text ++ quote v)) as G.
  rewrite !zlen_app. pose proof (zlen_nonneg (ly_break compact_text 0)).
  assert (Hi : (quote k ++ ly_colon compact_text ++ quote v) ∈ ((λ '(k, v), quote k ++ ly_colon compact_text ++ print compact_text 1 v) <$> m :: l)).
  { exact (list_elem_of_fmap_2 _ _ _ H). }
  specialize (G Hi). unfold quote at 2 in G. rewrite !zlen_app in G. pose proof (zlen_nonneg (quote k)).
  rewrite zlen_cons, zlen_app in G. cbn [zlen length] in *. pose proof (zlen_nonneg (quote_body v)).
  change (zlen [123]) with 1. change (zlen [125]) with 1. change (zlen [34]) with 1 in G. change (zlen (ly_colon compact_text)) with 1 in G. lia.
Qed.

(** An ampersand takes six bytes of JSON, so that a query of 180 kB, which is
    well within the limit of a request, does not fit a record. *)
Lemma long_query_not_acceptable es now endpoint r d :
  rq_RawQuery r = replicate (Z.to_nat 180000) 38 → ¬ acceptable es (audit_entry now endpoint r d).
Proof.
  intros Hq. unfold acceptable. destruct d as [[result name] role]. unfold audit_entry, with_seq, entry_json.
  cbn [au_Seq au_Timestamp au_Principal au_Role au_Action au_Endpoint au_Result au_Detail]. rewrite Hq.
  rewrite bool_decide_false by (intros E; apply (f_equal length) in E; rewrite length_replicate in E; cbn [length] in E; lia).
  match goal with |- context [Marshal (JObject ?l)] =>
    pose proof (Marshal_member l (str "detail"%string) (replicate (Z.to_nat 180000) 38)) as H end.
  rewrite quote_ampersands in H. unfold hashSize, AuditMaxPayloadSize. intros Hle.
  assert (6 * Z.of_nat (Z.to_nat 180000) ≤ zlen (Marshal (JObject _))) as Hlow by (apply H, elem_of_app; right; by left).
  lia.
Qed.

(** One request of that kind, whoever sends it, is answered 500, leaves no
    record and counts as a failed write of the storage. *)
Lemma oversized_step threshold now hio detail s n endpoint r es :
  sc_auditLog s = audit_log es → rq_RawQuery r = replicate (Z.to_nat 180000) 38 →
  ∃ s', security_wrap threshold now IoOk hio detail (mkGuard (Some s) (mkHealth n false)) endpoint r =
    (mkGuard (Some s') (mkHealth (n + 1) (threshold <=? n + 1)), HttpError 500) ∧
    (n + 1 < threshold → sc_auditLog s' = audit_log es).
Proof.
  intros Hlog Hq. unfold security_wrap. cbn [gd_sec gd_health]. destruct (decide_request s endpoint r) as [[result name] role].
  rewrite Hlog, append_audit, bool_decide_false by (by apply long_query_not_acceptable). cbv beta iota zeta.
  unfold NoteAuditWriteResult. cbv zeta. unfold noteFsyncResult. cbn [negb h_failures h_unhealthy].
  rewrite bool_decide_false by done. destruct (Z.ltb_spec (n + 1) threshold) as [Hlt|Hge]; cbn [h_unhealthy].
  - rewrite (proj2 (Z.leb_gt _ _)) by lia. by eexists.
  - rewrite (proj2 (Z.leb_le _ _)) by lia. eexists. split; [reflexivity|lia].
Qed.

(** Requests without any credential make the node unready.  A call whose
    record does not fit is not recorded at all (the middleware promises one
    record per call, for every outcome), and the refusal is counted as a
    failing disk: as many such requests in a row as the threshold says, from
    anyone who can reach the port, mark the storage as unhealthy. *)
Theorem oversized_requests_mark_storage_unhealthy threshold now hio detail s endpoint r es :
  0 < threshold → sc_auditLog s = audit_log es → rq_RawQuery r = replicate (Z.to_nat 180000) 38 →
  h_unhealthy (gd_health (Nat.iter (Z.to_nat threshold)
    (λ g, (security_wrap threshold now IoOk hio detail g endpoint r).1) (mkGuard (Some s) (mkHealth 0 false)))) = true.
Proof.
  intros Ht Hlog Hq.
  assert (Hk : ∀ k, Z.of_nat k < threshold → ∃ s', sc_auditLog s' = audit_log es ∧
    Nat.iter k (λ g, (security_wrap threshold now IoOk hio detail g endpoint r).1) (mkGuard (Some s) (mkHealth 0 false)) =
      mkGuard (Some s') (mkHealth (Z.of_nat k) false)).
  { induction k as [|k IH]; intros Hlt; [by exists s|]. destruct IH as (s' & Hl & IH); [lia|]. rewrite Nat.iter_succ, IH.
    destruct (oversized_step threshold now hio detail s' (Z.of_nat k) endpoint r es Hl Hq) as (s'' & -> & Hl'). exists s''.
    split; [apply Hl'; lia|]. cbn [fst]. rewrite (proj2 (Z.leb_gt _ _)) by lia. do 2 f_equal. lia. }
  destruct (Hk (Z.to_nat threshold - 1)%nat) as (s' & Hl & E); [lia|].
  replace (Z.to_nat threshold) with (S (Z.to_nat threshold - 1)) by lia. rewrite Nat.iter_succ, E.
  destruct (oversized_step threshold now hio detail s' (Z.of_nat (Z.to_nat threshold - 1)) endpoint r es Hl Hq) as (s'' & -> & _).
  cbn [fst gd_health h_unhealthy]. apply Z.leb_le. lia.
Qed.
