(* ===== verification/Node.v ===== *)
(** * The node ([internal/node/node.go], [membership.go])

    A node runs one event loop over its Raft core, its durable storage, its
    snapshot files and its state machine.  Each handler of the loop is a
    function on the node; a Go panic, which ends the process, is an [Err].
    What leaves the node is recorded in it: the messages given to the
    transport, the values sent on the callers' result channels (a channel is
    a number), and the addresses the transport dials.  A fatal error stops the
    loop: [n_fatal] keeps the first one, and [n_stopped] says that the stop
    channel is closed.

    Metrics, logs, audit entries and the test hooks are not modelled;
    [handleBackup] is in [Maintenance].  [n_storage] owns the log ([n.walog]
    is [ws_w]). *)

From Stdlib Require Import String.
From S2P Require Import Prelude Bytes Hash Scrub Mvcc FsmCommand Fsm FsmSnapshot RaftTypes RaftMembership RaftCore WalRecord Wal Storage Snapshot Leases Admission NodePressure.

(** ** Data *)

Record NodeConfig := mkNodeConfig {
  nc_ID : NodeID;
  nc_Peers : list NodeID;
  nc_PeerAddrs : gmap bytes bytes;
  nc_ListenAddr : bytes;
  nc_SegmentMaxSize : Z;
  nc_SnapshotThreshold : Z;
  nc_ElectionTimeoutTicks : Z;
  nc_ElectionTimeoutJitterTicks : Z;
  nc_HeartbeatTimeoutTicks : Z;
  nc_TickInterval : Z;
  nc_PromotionMaxLagEntries : Z;
  nc_MaxConcurrentReads : Z;
  nc_MaxLiveReadLeases : Z;
  nc_AdmissionQueueDepth : Z;
  nc_AdmissionMaxWait : Z;
  nc_MaxAdminConcurrency : Z;
  nc_MaxMaintenanceConcurrency : Z;
  nc_GCInterval : Z;
  nc_GCMinRetainSeqs : Z;
  nc_GCMinAdvanceSeqs : Z;
  nc_GCMaxVersionsPerPass : Z;
  nc_GCMaxKeysPerPass : Z;
  nc_WALRetainExtraSegments : Z;
  nc_SnapshotRetainCount : Z;
  nc_ResourcePollInterval : Z;
  nc_pressure : PressureSettings
}.

Definition nc_MaxInflightProposals (c : NodeConfig) : Z := ps_MaxInflightProposals (nc_pressure c).

Inductive node_panic :=
| RaftPanicked (p : raft_panic)
| SnapshotPanicked
| FsmPanicked
| OutOfFuel.

Inductive fatal_error :=
| FatalPersist (e : storage_error)
| FatalProposeShape
| FatalDecode (e : fsm_error)
| FatalApply (e : fsm_error)
| FatalGeneration (e : wal_error)
| FatalUnsupportedTarget
| FatalGCGeneration
| FatalConfigDecode (e : membership_error)
| FatalConfigGeneration
| FatalMembershipOutcome (e : fsm_error)
| FatalSnapshotConfiguration
| FatalInstall (e : storage_error).

Inductive node_error :=
| NotLeaderError (leader : NodeID)
| ErrLeadershipLost
| ErrProposalSuperseded
| ErrNodeStopped
| ErrNodeRemoved
| ErrMembershipNotPermitted
| ErrPeerGenerationTooOld
| ErrConfirmationRequired (resulting : Z)
| ErrLearnerNotCaughtUp (lag : Z)
| ErrOverloaded (e : acquire_error)
| ErrFsm (e : fsm_error)
| ErrMembership (e : membership_error).

Record PeerGenerationInfo := mkPeerGeneration { pg_Generation : Z; pg_Known : bool; pg_IsVoter : bool }.

Record PrecheckResult := mkPrecheckResult {
  pre_LocalClusterGeneration : Z;
  pre_LocalMaxSupportedGeneration : Z;
  pre_TargetGeneration : Z;
  pre_Peers : gmap bytes PeerGenerationInfo;
  pre_AlreadyFinalized : bool;
  pre_Ready : bool;
  pre_IsLeader : bool;
  pre_Leader : NodeID
}.

Record MemberStatus := mkMemberStatus {
  mst_ID : NodeID; mst_Address : bytes; mst_MatchIndex : Z; mst_Lag : Z; mst_Generation : Z;
  mst_GenerationKnown : bool
}.

Record MembershipStatusResult := mkMembershipStatus {
  msr_ConfigIndex : Z;
  msr_CommittedConfigIndex : Z;
  msr_Voters : list MemberStatus;
  msr_Learners : list MemberStatus;
  msr_InProgress : bool;
  msr_NotReady : option not_ready
}.

(** A successful read carries its start sequence and the id of its lease. *)
Inductive reply :=
| ProposeReply (r : result node_error Outcome)
| ReadReply (r : result node_error (Z * Z))
| PrecheckReply (r : PrecheckResult)
| MembershipStatusReply (r : MembershipStatusResult).

Record waiter := mkWaiter { wt_requestID : RequestID; wt_resultCh : Z }.

Record pendingRead := mkPendingRead {
  rd_term : Z;
  rd_target : Z;
  rd_requiredSeq : Z;
  rd_leaseID : Z;
  rd_resultCh : Z
}.

Record Node := mkNode {
  n_cfg : NodeConfig;
  n_core : Core;
  n_storage : WALStorage;
  n_snapMgr : SnapManager;
  n_fsm : FSM;
  n_electionArmed : bool;
  n_electionTicksLeft : Z;
  n_heartbeatArmed : bool;
  n_heartbeatTicksLeft : Z;
  n_appliedIndex : Z;
  n_waiters : gmap Z waiter;
  n_pendingReads : list pendingRead;
  n_leases : leaseRegistry;
  n_gcIntervalTicks : Z;
  n_gcTicksLeft : Z;
  n_gcProposalInFlight : bool;
  n_gcProposalIndex : Z;
  n_resourcePollTicks : Z;
  n_resourcePollLeft : Z;
  n_pressureState : PressureState;
  n_health : Health;
  n_admission : admissionGates;
  n_clusterGeneration : Z;
  n_sentSeqCounter : Z;
  n_ackSeq : gmap bytes Z;
  n_peerGenerations : gmap bytes Z;
  n_peerAddrs : gmap bytes bytes;
  n_sent : list Message;
  n_replies : list (Z * reply);
  n_fatal : option fatal_error;
  n_stopped : bool
}.
#[export] Instance Node_eta : Eta Node := λ n,
  mkNode (n_cfg n) (n_core n) (n_storage n) (n_snapMgr n) (n_fsm n) (n_electionArmed n)
    (n_electionTicksLeft n) (n_heartbeatArmed n) (n_heartbeatTicksLeft n) (n_appliedIndex n)
    (n_waiters n) (n_pendingReads n) (n_leases n) (n_gcIntervalTicks n) (n_gcTicksLeft n)
    (n_gcProposalInFlight n) (n_gcProposalIndex n) (n_resourcePollTicks n) (n_resourcePollLeft n)
    (n_pressureState n) (n_health n) (n_admission n) (n_clusterGeneration n) (n_sentSeqCounter n)
    (n_ackSeq n) (n_peerGenerations n) (n_peerAddrs n) (n_sent n) (n_replies n) (n_fatal n) (n_stopped n).

(** Named setters of [Node]. *)
#[export] Instance set_n_core : Setter n_core.
Proof. derive_setter. Defined.
#[export] Instance set_n_storage : Setter n_storage.
Proof. derive_setter. Defined.
#[export] Instance set_n_snapMgr : Setter n_snapMgr.
Proof. derive_setter. Defined.
#[export] Instance set_n_fsm : Setter n_fsm.
Proof. derive_setter. Defined.
#[export] Instance set_n_electionArmed : Setter n_electionArmed.
Proof. derive_setter. Defined.
#[export] Instance set_n_electionTicksLeft : Setter n_electionTicksLeft.
Proof. derive_setter. Defined.
#[export] Instance set_n_heartbeatArmed : Setter n_heartbeatArmed.
Proof. derive_setter. Defined.
#[export] Instance set_n_heartbeatTicksLeft : Setter n_heartbeatTicksLeft.
Proof. derive_setter. Defined.
#[export] Instance set_n_appliedIndex : Setter n_appliedIndex.
Proof. derive_setter. Defined.
#[export] Instance set_n_waiters : Setter n_waiters.
Proof. derive_setter. Defined.
#[export] Instance set_n_pendingReads : Setter n_pendingReads.
Proof. derive_setter. Defined.
#[export] Instance set_n_leases : Setter n_leases.
Proof. derive_setter. Defined.
#[export] Instance set_n_gcTicksLeft : Setter n_gcTicksLeft.
Proof. derive_setter. Defined.
#[export] Instance set_n_gcProposalInFlight : Setter n_gcProposalInFlight.
Proof. derive_setter. Defined.
#[export] Instance set_n_gcProposalIndex : Setter n_gcProposalIndex.
Proof. derive_setter. Defined.
#[export] Instance set_n_resourcePollLeft : Setter n_resourcePollLeft.
Proof. derive_setter. Defined.
#[export] Instance set_n_pressureState : Setter n_pressureState.
Proof. derive_setter. Defined.
#[export] Instance set_n_health : Setter n_health.
Proof. derive_setter. Defined.
#[export] Instance set_n_admission : Setter n_admission.
Proof. derive_setter. Defined.
#[export] Instance set_n_clusterGeneration : Setter n_clusterGeneration.
Proof. derive_setter. Defined.
#[export] Instance set_n_sentSeqCounter : Setter n_sentSeqCounter.
Proof. derive_setter. Defined.
#[export] Instance set_n_ackSeq : Setter n_ackSeq.
Proof. derive_setter. Defined.
#[export] Instance set_n_peerGenerations : Setter n_peerGenerations.
Proof. derive_setter. Defined.
#[export] Instance set_n_peerAddrs : Setter n_peerAddrs.
Proof. derive_setter. Defined.
#[export] Instance set_n_sent : Setter n_sent.
Proof. derive_setter. Defined.
#[export] Instance set_n_replies : Setter n_replies.
Proof. derive_setter. Defined.
#[export] Instance set_n_fatal : Setter n_fatal.
Proof. derive_setter. Defined.
#[export] Instance set_n_stopped : Setter n_stopped.
Proof. derive_setter. Defined.

(** ** Results of the components *)

Definition run_core {A} (r : result raft_panic A) : result node_panic A :=
  match r with Ok a => Ok a | Err p => Err (RaftPanicked p) end.

(** A decoder's error is a value the node handles; its panic is not. *)
Definition run_fsm {A} (r : result fsm_error A) : result node_panic (result fsm_error A) :=
  match r with Err FsmPanic => Err FsmPanicked | r => Ok r end.

(** ** Elementary effects *)

Definition node_fail (n : Node) (e : fatal_error) : Node :=
  n <| n_fatal := match n_fatal n with Some first => Some first | None => Some e end |> <| n_stopped := true |>.

Definition answer_on (ch : Z) (r : reply) (n : Node) : Node := n <| n_replies := n_replies n ++ [(ch, r)] |>.

Definition node_send (n : Node) (m : Message) : Node :=
  n <| n_sent := n_sent n ++ [m <| m_SenderGeneration := MaxSupportedGeneration |>] |>.

Definition note_fsync (path : FsyncPath) (failed : bool) (n : Node) : Node :=
  n <| n_health := noteFsyncResult (ps_FsyncFailureThreshold (nc_pressure (n_cfg n))) path failed (n_health n) |>.

Definition recordPeerGeneration (n : Node) (peer : NodeID) (gen : Z) : Node :=
  if bool_decide (peer = []) || bool_decide (peer = nc_ID (n_cfg n)) then n else
  n <| n_peerGenerations := <[peer := gen]> (n_peerGenerations n) |>.

(** A call on the log. *)
Definition node_wal (f : WAL → result wal_error WAL) (n : Node) : Node * result wal_error () :=
  match f (ws_w (n_storage n)) with
  | Ok w => (n <| n_storage := mkWALStorage w (ws_hs (n_storage n)) (ws_baseIndex (n_storage n))
                                 (ws_entries (n_storage n)) |>, Ok ())
  | Err e => (n, Err e)
  end.

Definition node_selfRemoved (n : Node) : bool :=
  let cfg := c_activeConfig (n_core n) in negb (IsZero cfg) && negb (IsMember cfg (nc_ID (n_cfg n))).

(** ** Configurations of snapshots *)

Definition toSnapshotMembers (ms : list Member) : list SnapMember := (λ m, mkSnapMember (m_ID m) (m_Address m)) <$> ms.
Definition toSnapshotConfiguration (c : Configuration) : SnapConfiguration :=
  mkSnapConfiguration (toSnapshotMembers (Voters c)) (toSnapshotMembers (Learners c)).
Definition fromSnapshotMembers (ms : list SnapMember) : list Member := (λ m, mkMember (sm_ID m) (sm_Address m)) <$> ms.
Definition fromSnapshotConfiguration (c : SnapConfiguration) : Configuration :=
  mkConfiguration (fromSnapshotMembers (sc_Voters c)) (fromSnapshotMembers (sc_Learners c)).

Definition bootstrapConfiguration (cfg : NodeConfig) : Configuration :=
  mkConfiguration
    ((λ p, mkMember p (if bool_decide (p = nc_ID cfg) then nc_ListenAddr cfg
                       else default [] (nc_PeerAddrs cfg !! p))) <$> nc_Peers cfg) [].

Definition snapshotWriteVersion (n : Node) : Z := if 2 <=? n_clusterGeneration n then SnapFormatVersion else 1.

(** ** Waiters and reads *)

Definition resolveWaiter (n : Node) (index : Z) (requestID : RequestID) (outcome : Outcome) : Node :=
  match n_waiters n !! index with
  | None => n
  | Some w =>
      let n := n <| n_waiters := delete index (n_waiters n) |> in
      if negb (bool_decide (wt_requestID w = requestID))
      then answer_on (wt_resultCh w) (ProposeReply (Err ErrProposalSuperseded)) n
      else answer_on (wt_resultCh w) (ProposeReply (Ok outcome)) n
  end.

(** Every waiter gets [e]; Go visits the map in an arbitrary order. *)
Definition flush_waiters (e : node_error) (n : Node) : Node :=
  n <| n_replies := n_replies n ++ ((λ w, (wt_resultCh w.2, ProposeReply (Err e))) <$> map_to_list (n_waiters n)) |>
    <| n_waiters := ∅ |>.

(** The voters that acknowledged a request sent after the read began. *)
Definition read_acks (n : Node) (pr : pendingRead) : Z :=
  let cfg := c_activeConfig (n_core n) in
  let id := nc_ID (n_cfg n) in
  (if IsVoter cfg id then 1 else 0) +
  zlen (filter (λ v, m_ID v ≠ id ∧ rd_requiredSeq pr < default 0 (n_ackSeq n !! m_ID v)) (Voters cfg)).

(** What one round of [checkPendingReads] does with a read: keep it, or
    answer it. *)
Definition check_read (n : Node) (pr : pendingRead) : Node :=
  if negb (bool_decide (c_role (n_core n) = Leader)) || negb (c_currentTerm (n_core n) =? rd_term pr) then
    answer_on (rd_resultCh pr) (ReadReply (Err ErrLeadershipLost))
      (n <| n_leases := ReleaseLease (n_leases n) (rd_leaseID pr) |>)
  else if read_acks n pr <? Majority (c_activeConfig (n_core n)) then
    n <| n_pendingReads := n_pendingReads n ++ [pr] |>
  else if n_appliedIndex n <? rd_target pr then
    n <| n_pendingReads := n_pendingReads n ++ [pr] |>
  else answer_on (rd_resultCh pr) (ReadReply (Ok (rd_target pr, rd_leaseID pr))) n.

Definition checkPendingReads (n : Node) : Node :=
  foldl check_read (n <| n_pendingReads := [] |>) (n_pendingReads n).

(** ** Applying committed entries

    The entry functions return [false] when they stopped the node. *)

Definition set_applied (n : Node) (e : Entry) : Node :=
  n <| n_appliedIndex := e_Index e |> <| n_core := SetApplied (n_core n) (e_Index e) |>.

Definition stop_with (n : Node) (e : fatal_error) : result node_panic (Node * bool) := Ok (node_fail n e, false).

Definition adoptClusterGeneration (n : Node) (generation : Z) : Node * bool :=
  match node_wal (λ w, SetClusterGeneration w generation) n with
  | (n, Err e) => (node_fail n (FatalGeneration e), false)
  | (n, Ok _) => (n <| n_clusterGeneration := generation |>, true)
  end.

Definition applySetClusterVersionEntry (n : Node) (e : Entry) : result node_panic (Node * bool) :=
  dec ← run_fsm (DecodeSetClusterVersion (e_Data e));
  match dec with
  | Err err => stop_with n (FatalDecode err)
  | Ok cmd =>
      if MaxSupportedGeneration <? scv_TargetGeneration cmd then stop_with n FatalUnsupportedTarget else
      let '(f, outcome) := ApplySetClusterVersion (n_fsm n) (e_Index e) cmd in
      let n := set_applied (n <| n_fsm := f |>) e in
      let '(n, ok) := if bool_decide (o_Status outcome = StatusCommitted)
                      then adoptClusterGeneration n (scv_TargetGeneration cmd) else (n, true) in
      if negb ok then Ok (n, false) else
      Ok (resolveWaiter n (e_Index e) (scv_RequestID cmd) outcome, true)
  end.

Definition applyAdvanceGCWatermarkEntry (n : Node) (e : Entry) : result node_panic (Node * bool) :=
  if n_clusterGeneration n <? 3 then stop_with n FatalGCGeneration else
  dec ← run_fsm (DecodeAdvanceGCWatermark (e_Data e));
  match dec with
  | Err err => stop_with n (FatalDecode err)
  | Ok cmd =>
      let '(f, outcome) := ApplyAdvanceGCWatermark (n_fsm n) (e_Index e) cmd in
      let n := set_applied (n <| n_fsm := f |>) e in
      let n := if n_gcProposalInFlight n && (e_Index e =? n_gcProposalIndex n)
               then n <| n_gcProposalInFlight := false |> <| n_gcProposalIndex := 0 |> else n in
      Ok (resolveWaiter n (e_Index e) (gc_RequestID cmd) outcome, true)
  end.

Definition applyControlEntry (n : Node) (e : Entry) : result node_panic (Node * bool) :=
  match ControlKind (e_Data e) with
  | None => stop_with n (FatalDecode ErrMalformedCommand)
  | Some kind =>
      if kind =? controlKindSetClusterVersion then applySetClusterVersionEntry n e
      else if kind =? controlKindAdvanceGCWatermark then applyAdvanceGCWatermarkEntry n e
      else stop_with n (FatalDecode ErrUnknownControlCommand)
  end.

Definition fsmMembershipKind (kind : MembershipChangeKind) : MembershipKind :=
  match kind with
  | AddLearnerChange => MembershipAddLearner
  | PromoteToVoterChange => MembershipPromoteVoter
  | RemoveServerChange => MembershipRemoveServer
  end.

Definition set_peer_addrs (ms : list Member) (n : Node) : Node :=
  n <| n_peerAddrs := foldl (λ t m, <[m_ID m := m_Address m]> t) (n_peerAddrs n) ms |>.

Definition applyConfigEntry (n : Node) (e : Entry) : result node_panic (Node * bool) :=
  match DecodeConfigEntry e with
  | Err err => stop_with n (FatalConfigDecode err)
  | Ok (kind, cc) =>
      let n := set_applied n e in
      match kind with
      | None => Ok (n, true)
      | Some kind =>
          if n_clusterGeneration n <? 2 then stop_with n FatalConfigGeneration else
          let outcome := mkOutcome (cc_requestID cc) StatusCommitted (e_Index e) [] 0 in
          match RecordMembershipOutcome (n_fsm n) (cc_requestID cc) (fsmMembershipKind kind)
                  (cc_targetID cc) (cc_targetAddr cc) outcome with
          | Err err => stop_with n (FatalMembershipOutcome err)
          | Ok (f, recorded) =>
              let n := set_peer_addrs (Learners (cc_cfg cc)) (set_peer_addrs (Voters (cc_cfg cc)) (n <| n_fsm := f |>)) in
              Ok (resolveWaiter n (e_Index e) (cc_requestID cc) recorded, true)
          end
      end
  end.

Definition applyCommitEntry (n : Node) (e : Entry) : result node_panic (Node * bool) :=
  dec ← run_fsm (DecodeCommitTxn (e_Data e));
  match dec with
  | Err err => stop_with n (FatalDecode err)
  | Ok cmd =>
      match Apply (n_fsm n) (e_Index e) cmd with
      | Err err => stop_with n (FatalApply err)
      | Ok (f, outcome) =>
          let n := set_applied (n <| n_fsm := f |>) e in
          Ok (resolveWaiter n (e_Index e) (c_RequestID cmd) outcome, true)
      end
  end.

Definition applyEntry (n : Node) (e : Entry) : result node_panic (Node * bool) :=
  if e_Index e <=? n_appliedIndex n then Ok (n, true)
  else if bool_decide (e_Type e = EntryConfig) then applyConfigEntry n e
  else if IsControlCommand (e_Data e) then applyControlEntry n e
  else applyCommitEntry n e.

Fixpoint apply_entries (n : Node) (es : list Entry) : result node_panic (Node * bool) :=
  match es with
  | [] => Ok (n, true)
  | e :: es => '(n, ok) ← applyEntry n e; if negb ok then Ok (n, false) else apply_entries n es
  end.

(** ** Snapshots *)

Definition termAtApplied (n : Node) : Z :=
  let idx := n_appliedIndex n in
  if idx =? c_snapshotIndex (n_core n) then c_snapshotTerm (n_core n) else
  match EntryAt (n_core n) idx with Some e => e_Term e | None => 0 end.

(** A durable step of [maybeSnapshot] that can fail: its result is counted,
    and a failure abandons the attempt. *)
Definition snapshot_step {E} (r : Node * result E ()) (k : Node → result node_panic Node) : result node_panic Node :=
  match r with
  | (n, Err _) => Ok (note_fsync FsyncPathSnapshot true n)
  | (n, Ok _) => k (note_fsync FsyncPathSnapshot false n)
  end.

Definition node_reaffirm (n : Node) : Node * result storage_error () :=
  let '(st, r) := Reaffirm (n_storage n) in (n <| n_storage := st |>, r).

Definition snapshot_meta (n : Node) : Meta :=
  mkMeta (n_appliedIndex n) (termAtApplied n) true
    (toSnapshotConfiguration (ConfigAt (n_core n) (n_appliedIndex n)).1).

Definition maybeSnapshot (n : Node) : result node_panic Node :=
  if (n_appliedIndex n - c_snapshotIndex (n_core n))%u64 <? nc_SnapshotThreshold (n_cfg n) then Ok n else
  let idx := n_appliedIndex n in
  match Create (n_snapMgr n) (snapshot_meta n) (n_fsm n) (snapshotWriteVersion n) with
  | Err _ => Err SnapshotPanicked
  | Ok (mgr, _) =>
      let n := note_fsync FsyncPathSnapshot false (n <| n_snapMgr := mgr |>) in
      snapshot_step (node_wal (λ w, AppendMetadataSnapshot w idx) n) (λ n,
      '(core, _) ← run_core (Compact (n_core n) idx);
      let n := n <| n_core := core |> in
      let n := n <| n_storage := ws_Compact idx (n_storage n) |> in
      snapshot_step (node_reaffirm n) (λ n,
      snapshot_step (node_wal (λ w, CompactBeforeRetaining w idx (nc_WALRetainExtraSegments (n_cfg n))) n) (λ n,
      Ok (note_fsync FsyncPathSnapshot false (n <| n_snapMgr := Prune (n_snapMgr n) idx |>)))))
  end.

Definition applyCommitted (n : Node) (es : list Entry) : result node_panic Node :=
  '(n, ok) ← apply_entries n es;
  if negb ok then Ok n else maybeSnapshot n.

(** ** Outputs of the core *)

Definition arm_timers (n : Node) (out : Output) : Node :=
  let n := if out_ResetElectionTimer out
           then n <| n_electionArmed := true |> <| n_electionTicksLeft := out_ElectionTimeoutTicks out |> else n in
  if out_ResetHeartbeatTimer out
  then n <| n_heartbeatArmed := true |> <| n_heartbeatTicksLeft := out_HeartbeatTimeoutTicks out |> else n.

(** One outbound message: the snapshot bytes filled in, or the message
    skipped, and a fresh correlation number on an AppendEntries request. *)
Definition transmit (n : Node) (m : Message) : Node :=
  let filled :=
    if bool_decide (m_Type m = MsgInstallSnapshotRequest) && (zlen (m_SnapshotData m) =? 0) then
      (λ data, m <| m_SnapshotData := data |>) <$> Bytes (n_snapMgr n) (m_LastIncludedIndex m)
    else Some m in
  match filled with
  | None => n
  | Some m =>
      if bool_decide (m_Type m = MsgAppendEntriesRequest) then
        let n := n <| n_sentSeqCounter := (n_sentSeqCounter n + 1)%u64 |> in
        node_send n (m <| m_Seq := n_sentSeqCounter n |>)
      else node_send n m
  end.

(** Leadership is gone: every waiter learns that its outcome is unknown. *)
Definition lose_leadership (n : Node) : Node :=
  (flush_waiters ErrLeadershipLost n) <| n_gcProposalInFlight := false |> <| n_gcProposalIndex := 0 |>.

(** [%d] *)
Definition decimal (v : Z) : bytes := dec_put (dec_width 20 1 v) v.

Definition election_noop (n : Node) : CommitTxnCommand :=
  mkCommitTxn (0 :: str "chronicledb-election-noop" ++ 0 :: nc_ID (n_cfg n) ++ 0 :: decimal (c_currentTerm (n_core n)))
    (c_currentTerm (n_core n)) 0 [].

Section Loop.
(** The values the random source returns during the event. *)
Context (intn : Z → Z).

Definition proposeElectionNoOp (process : Node → Output → result node_panic Node) (n : Node)
    : result node_panic Node :=
  let cmd := election_noop n in
  match Precheck (n_fsm n) cmd with
  | Err ErrRequestIDUnknown =>
      '(core, out) ← run_core (Step intn (n_core n) (InputPropose (EncodeCommitTxn cmd)));
      let n := n <| n_core := core |> in
      if out_ProposalRejected out then Ok n else process n out
  | _ => Ok n
  end.

(** The durable part of an output, and the acknowledgement to the core; [false]
    when the node stopped. *)
Definition persist_output (process : Node → Output → result node_panic Node) (n : Node) (pr : PersistRequest)
    : result node_panic (Node * bool) :=
  let '(st, r) := ApplyPersistRequest (Some pr) (n_storage n) in
  let n := n <| n_storage := st |> in
  match r with
  | Err e => Ok (node_fail (n <| n_health := mkHealth (h_failures (n_health n)) true |>) (FatalPersist e), false)
  | Ok _ =>
      '(core, ack) ← run_core (Step intn (n_core n) (InputPersistenceComplete (pr_Seq pr)));
      n ← process (n <| n_core := core |>) ack;
      Ok (n, true)
  end.

(** The part of [processOutput] before the new leader's own entry. *)
Definition take_output (process : Node → Output → result node_panic Node) (n : Node) (out : Output)
    : result node_panic (Node * bool) :=
  let n := foldl transmit (arm_timers n out) (out_Messages out) in
  '(n, ok) ← (match out_PersistRequest out with
              | None => Ok (n, true)
              | Some pr => persist_output process n pr
              end);
  if negb ok then Ok (n, false) else
  n ← applyCommitted n (out_CommittedEntries out);
  Ok (if out_SteppedDown out then lose_leadership n else n, true).

Fixpoint process_output (fuel : nat) (n : Node) (out : Output) : result node_panic Node :=
  match fuel with
  | O => Err OutOfFuel
  | S fuel =>
      '(n, ok) ← take_output (process_output fuel) n out;
      if negb ok then Ok n else
      n ← (if out_BecameLeader out then proposeElectionNoOp (process_output fuel) n else Ok n);
      Ok (checkPendingReads n)
  end.

(** The acknowledgement of a persisted request asks for nothing more to be
    persisted and makes no leader, so that the code's recursion is at most
    three deep. *)
Definition processOutput : Node → Output → result node_panic Node := process_output 3.

(** ** Inputs of the core *)

Definition note_ack (n : Node) (i : Input) : Node :=
  match i with
  | InputMessage m =>
      if bool_decide (m_Type m = MsgAppendEntriesResponse) && m_Success m
         && bool_decide (c_role (n_core n) = Leader) && (m_Term m =? c_currentTerm (n_core n))
         && (default 0 (n_ackSeq n !! m_From m) <? m_Seq m)
      then n <| n_ackSeq := <[m_From m := m_Seq m]> (n_ackSeq n) |> else n
  | _ => n
  end.

Definition echo_seq (i : Input) (out : Output) : Output :=
  match i with
  | InputMessage m =>
      if bool_decide (m_Type m = MsgAppendEntriesRequest) then
        out <| out_Messages := (λ r, if bool_decide (m_Type r = MsgAppendEntriesResponse)
                                     then r <| m_Seq := m_Seq m |> else r) <$> out_Messages out |>
      else out
  | _ => out
  end.

Definition node_step (n : Node) (i : Input) : result node_panic Node :=
  let n := note_ack n i in
  '(core, out) ← run_core (Step intn (n_core n) i);
  processOutput (n <| n_core := core |>) (echo_seq i out).

(** ** Proposals *)

(** What a request's proposal path ends with: the entry's waiter, and the
    output processed. *)
Definition await (n : Node) (out : Output) (requestID : RequestID) (ch : Z) : result node_panic Node :=
  match out_PersistRequest out with
  | Some pr =>
      match pr_Entries pr with
      | [e] => processOutput (n <| n_waiters := <[e_Index e := mkWaiter requestID ch]> (n_waiters n) |>) out
      | _ => Ok (answer_on ch (ProposeReply (Err ErrNodeStopped)) (node_fail n FatalProposeShape))
      end
  | None => Ok (answer_on ch (ProposeReply (Err ErrNodeStopped)) (node_fail n FatalProposeShape))
  end.

Definition refuse (ch : Z) (e : node_error) (n : Node) : result node_panic Node :=
  Ok (answer_on ch (ProposeReply (Err e)) n).

Definition proposeAndAwait (n : Node) (payload : bytes) (requestID : RequestID) (ch : Z) : result node_panic Node :=
  if node_selfRemoved n then refuse ch ErrNodeRemoved n else
  if negb (bool_decide (c_role (n_core n) = Leader)) then refuse ch (NotLeaderError (c_leaderID (n_core n))) n else
  '(core, out) ← run_core (Step intn (n_core n) (InputPropose payload));
  let n := n <| n_core := core |> in
  if out_ProposalRejected out then refuse ch (NotLeaderError (out_LeaderHint out)) n else
  await n out requestID ch.

Definition node_handlePropose (n : Node) (cmd : CommitTxnCommand) (ch : Z) : result node_panic Node :=
  if nc_MaxInflightProposals (n_cfg n) <=? Z.of_nat (size (n_waiters n)) then
    refuse ch (ErrOverloaded (rejected ReasonConcurrencyLimit)) n
  else proposeAndAwait n (EncodeCommitTxn cmd) (c_RequestID cmd) ch.

Definition handleControlPropose (n : Node) (requestID : RequestID) (payload : bytes) (ch : Z)
    : result node_panic Node := proposeAndAwait n payload requestID ch.

Definition handleReadIndex (n : Node) (leaseID ch : Z) : result node_panic Node :=
  let no e := Ok (answer_on ch (ReadReply (Err e)) n) in
  if node_selfRemoved n then no ErrNodeRemoved else
  if negb (bool_decide (c_role (n_core n) = Leader)) then no (NotLeaderError (c_leaderID (n_core n))) else
  if nc_MaxConcurrentReads (n_cfg n) <=? zlen (n_pendingReads n)
  then no (ErrOverloaded (rejected ReasonConcurrencyLimit)) else
  if nc_MaxLiveReadLeases (n_cfg n) <=? lease_Len (n_leases n)
  then no (ErrOverloaded (rejected ReasonReadLeaseLimit)) else
  let term0 := c_currentTerm (n_core n) in
  let target := lastIndex (n_core n) in
  let n := n <| n_leases := Register (n_leases n) leaseID target |> in
  let requiredSeq := n_sentSeqCounter n in
  '(core, out) ← run_core (Step intn (n_core n) InputHeartbeatTimeout);
  processOutput (n <| n_core := core |>
                   <| n_pendingReads := n_pendingReads n ++ [mkPendingRead term0 target requiredSeq leaseID ch] |>) out.

(** ** Garbage collection *)

(** The watermark to propose, if any: the registry of leases may drop stale
    entries. *)
Definition gc_watermark (n : Node) : Node * option Z :=
  let '(leases, minLease) := lease_Min (n_leases n) in
  let applied := n_appliedIndex n in
  let w := match minLease with Some m => if m <? applied then m else applied | None => applied end in
  let floor := if nc_GCMinRetainSeqs (n_cfg n) <? applied then applied - nc_GCMinRetainSeqs (n_cfg n) else 0 in
  let w := if floor <? w then floor else w in
  let current := f_gcWatermark (n_fsm n) in
  let advance := (current + nc_GCMinAdvanceSeqs (n_cfg n))%u64 <? w in
  let cont := negb (bool_decide (f_gcCursor (n_fsm n) = [])) in
  (n <| n_leases := leases |>,
   if negb advance && negb cont then None else Some (if w <? current then current else w)).

Definition gc_command (n : Node) (watermark : Z) : AdvanceGCWatermarkCommand :=
  mkAdvanceGC (0 :: str "chronicledb-gc" ++ 0 :: str "w=" ++ decimal watermark ++ 0 :: str "p=" ++
               decimal (f_gcPassSeq (n_fsm n)))
    watermark (nc_GCMaxVersionsPerPass (n_cfg n)) (nc_GCMaxKeysPerPass (n_cfg n)).

Definition maybeProposeGC (n : Node) : result node_panic Node :=
  if negb (bool_decide (c_role (n_core n) = Leader)) || node_selfRemoved n then Ok n else
  if n_clusterGeneration n <? 3 then Ok n else
  if n_gcProposalInFlight n then Ok n else
  match gc_watermark n with
  | (n, None) => Ok n
  | (n, Some watermark) =>
      '(core, out) ← run_core (Step intn (n_core n) (InputPropose (EncodeAdvanceGCWatermark (gc_command n watermark))));
      let n := n <| n_core := core |> in
      if out_ProposalRejected out then Ok n else
      match out_PersistRequest out with
      | Some (mkPersistRequest _ _ _ [e]) =>
          processOutput (n <| n_gcProposalInFlight := true |> <| n_gcProposalIndex := e_Index e |>) out
      | _ => Ok (node_fail n FatalProposeShape)
      end
  end.

(** ** The clock *)

Definition tick_election (n : Node) : result node_panic Node :=
  if n_electionArmed n then
    let n := n <| n_electionTicksLeft := n_electionTicksLeft n - 1 |> in
    if n_electionTicksLeft n <=? 0 then node_step (n <| n_electionArmed := false |>) InputElectionTimeout else Ok n
  else Ok n.

Definition tick_heartbeat (n : Node) : result node_panic Node :=
  if n_heartbeatArmed n then
    let n := n <| n_heartbeatTicksLeft := n_heartbeatTicksLeft n - 1 |> in
    if n_heartbeatTicksLeft n <=? 0 then node_step (n <| n_heartbeatArmed := false |>) InputHeartbeatTimeout else Ok n
  else Ok n.

Definition tick_gc (n : Node) : result node_panic Node :=
  if 0 <? n_gcIntervalTicks n then
    let n := n <| n_gcTicksLeft := n_gcTicksLeft n - 1 |> in
    if n_gcTicksLeft n <=? 0 then maybeProposeGC (n <| n_gcTicksLeft := n_gcIntervalTicks n |>) else Ok n
  else Ok n.

Definition node_checkResourcePressure (p : Pressure) (n : Node) : result node_panic Node :=
  let '(st, write, gc) := checkResourcePressure (nc_pressure (n_cfg n)) (0 <? n_gcIntervalTicks n)
                            (n_pressureState n) (ag_write (n_admission n)) p in
  let g := n_admission n in
  let n := n <| n_pressureState := st |>
             <| n_admission := mkAdmissionGates write (ag_read g) (ag_control g) (ag_maintenance g)
                                 (ag_backupSlot g) (ag_scrubSlot g) |> in
  if gc then maybeProposeGC n else Ok n.

Definition tick_resources (p : Pressure) (n : Node) : result node_panic Node :=
  let n := n <| n_resourcePollLeft := n_resourcePollLeft n - 1 |> in
  if n_resourcePollLeft n <=? 0
  then node_checkResourcePressure p (n <| n_resourcePollLeft := n_resourcePollTicks n |>) else Ok n.

Definition tick (p : Pressure) (n : Node) : result node_panic Node :=
  n ← tick_election n; n ← tick_heartbeat n; n ← tick_gc n; tick_resources p n.

(** ** Membership *)

Definition resultingVoterCount (cfg : Configuration) (kind : MembershipChangeKind) (targetID : NodeID) : Z :=
  match kind with
  | PromoteToVoterChange => zlen (Voters cfg) + 1
  | RemoveServerChange => if IsVoter cfg targetID then zlen (Voters cfg) - 1 else zlen (Voters cfg)
  | AddLearnerChange => zlen (Voters cfg)
  end.

Definition MatchIndexOf (c : Core) (peer : NodeID) : Z := map_read 0 (c_matchIndex c) peer.

Definition learner_lag (n : Node) (peer : NodeID) : Z :=
  if MatchIndexOf (n_core n) peer <? lastIndex (n_core n)
  then lastIndex (n_core n) - MatchIndexOf (n_core n) peer else 0.

(** The checks a leader makes before it proposes a change: the first error. *)
Definition membership_refusal (n : Node) (kind : MembershipChangeKind) (targetID : NodeID) (confirmVoterCount : Z)
    : option node_error :=
  let cfg := c_activeConfig (n_core n) in
  let resulting := resultingVoterCount cfg kind targetID in
  if node_selfRemoved n then Some ErrNodeRemoved else
  if negb (bool_decide (c_role (n_core n) = Leader)) then Some (NotLeaderError (c_leaderID (n_core n))) else
  if n_clusterGeneration n <? 2 then Some ErrMembershipNotPermitted else
  if negb (bool_decide (kind = AddLearnerChange)) && (resulting <? 3) && negb (resulting =? confirmVoterCount)
  then Some (ErrConfirmationRequired resulting) else
  if bool_decide (kind = PromoteToVoterChange) && IsLearner cfg targetID then
    if nc_PromotionMaxLagEntries (n_cfg n) <? learner_lag n targetID
    then Some (ErrLearnerNotCaughtUp (learner_lag n targetID)) else
    match n_peerGenerations n !! targetID with
    | Some gen => if gen <? n_clusterGeneration n then Some ErrPeerGenerationTooOld else None
    | None => Some ErrPeerGenerationTooOld
    end
  else None.

Definition handleMembership (n : Node) (kind : MembershipChangeKind) (requestID : RequestID) (targetID : NodeID)
    (targetAddr : bytes) (confirmVoterCount ch : Z) : result node_panic Node :=
  match GetMembershipOutcome (n_fsm n) requestID (fsmMembershipKind kind) targetID targetAddr with
  | Ok outcome => Ok (answer_on ch (ProposeReply (Ok outcome)) n)
  | Err ErrRequestIDConflict => refuse ch (ErrFsm ErrRequestIDConflict) n
  | Err _ =>
      match membership_refusal n kind targetID confirmVoterCount with
      | Some e => refuse ch e n
      | None =>
          '(core, r) ← run_core (ProposeConfigChange (n_core n) kind requestID targetID targetAddr);
          let n := n <| n_core := core |> in
          match r with
          | Err ErrNotLeader => refuse ch (NotLeaderError (c_leaderID (n_core n))) n
          | Err e => refuse ch (ErrMembership e) n
          | Ok out => await n out requestID ch
          end
      end
  end.

Definition member_status (voter : bool) (n : Node) (m : Member) : MemberStatus :=
  if voter then mkMemberStatus (m_ID m) (m_Address m) (MatchIndexOf (n_core n) (m_ID m)) 0 0 false
  else mkMemberStatus (m_ID m) (m_Address m) (MatchIndexOf (n_core n) (m_ID m)) (learner_lag n (m_ID m))
         (default 0 (n_peerGenerations n !! m_ID m)) (bool_decide (is_Some (n_peerGenerations n !! m_ID m))).

Definition computeMembershipStatus (n : Node) : MembershipStatusResult :=
  let c := n_core n in
  let cfg := c_activeConfig c in
  mkMembershipStatus (c_activeConfigIndex c) (ConfigAt c (c_commitIndex c)).2
    (member_status true n <$> Voters cfg) (member_status false n <$> Learners cfg)
    (c_commitIndex c <? c_activeConfigIndex c) (ConfigChangeReady c).

(** ** Upgrades *)

Definition peer_info (n : Node) (voter : bool) (m : Member) : PeerGenerationInfo :=
  let g := n_peerGenerations n !! m_ID m in
  mkPeerGeneration (default 0 g) (bool_decide (is_Some g)) voter.

Definition computePrecheck (n : Node) : PrecheckResult :=
  let local := n_clusterGeneration n in
  let target := u32 (local + 1) in
  let cfg := c_activeConfig (n_core n) in
  let others := filter (λ m, m_ID m ≠ nc_ID (n_cfg n)) (Voters cfg) in
  let peers := foldl (λ t m, <[m_ID m := peer_info n true m]> t) (∅ : gmap bytes PeerGenerationInfo) others in
  let peers := foldl (λ t m, <[m_ID m := peer_info n false m]> t) peers (Learners cfg) in
  let finalized := MaxSupportedGeneration <=? local in
  let ready := negb finalized &&
    forallb (λ m, let i := peer_info n true m in pg_Known i && (target <=? pg_Generation i)) others in
  mkPrecheckResult local MaxSupportedGeneration target peers finalized ready
    (bool_decide (c_role (n_core n) = Leader)) (c_leaderID (n_core n)).

Inductive finalize_error := FinalizeNotLeader (leader : NodeID) | ErrAlreadyFinalized | ErrUpgradeNotReady.

(** The command [FinalizeUpgrade] proposes, given the precheck. *)
Definition finalize_command (pre : PrecheckResult) : result finalize_error SetClusterVersionCommand :=
  if negb (pre_IsLeader pre) then Err (FinalizeNotLeader (pre_Leader pre)) else
  if pre_AlreadyFinalized pre then Err ErrAlreadyFinalized else
  if negb (pre_Ready pre) then Err ErrUpgradeNotReady else
  Ok (mkSetClusterVersion (0 :: str "chronicledb-finalize" ++ 0 :: str "target=" ++ decimal (pre_TargetGeneration pre))
        (pre_TargetGeneration pre)).

(** ** Snapshot installation *)

Definition will_advance (c : Core) (term lastIncluded : Z) : bool :=
  (c_currentTerm c <=? term) && (c_snapshotIndex c <? lastIncluded) && (c_commitIndex c <? lastIncluded).

(** The driver's half of an installation; [false] when the node stopped. *)
Definition install_state (n : Node) (snap : Snapshot) : Node * bool :=
  let idx := LastIncludedIndex (snap_Meta snap) in
  let '(st, r) := InstallSnapshot idx (n_storage n) in
  let n := n <| n_storage := st |> in
  match r with
  | Err e => (node_fail n (FatalInstall e), false)
  | Ok _ =>
      let n := n <| n_fsm := snap_FSM snap |> <| n_appliedIndex := idx |> in
      let '(n, ok) := adoptClusterGeneration n (f_clusterGeneration (snap_FSM snap)) in
      if negb ok then (n, false) else (n <| n_snapMgr := Prune (n_snapMgr n) idx |>, true)
  end.

Definition handleInstallSnapshot (n : Node) (msg : Message) : result node_panic Node :=
  match Install (n_snapMgr n) (m_SnapshotData msg) with
  | Err SnapshotPanic => Err SnapshotPanicked
  | Err _ =>
      Ok (node_send n (message MsgInstallSnapshotResponse (nc_ID (n_cfg n)) (m_From msg) (c_currentTerm (n_core n))))
  | Ok (mgr, snap) =>
      let n := n <| n_snapMgr := mgr |> in
      let meta := snap_Meta snap in
      if HasConfiguration meta &&
         (negb (m_HasConfiguration msg) ||
          negb (ConfigurationEqual (fromSnapshotConfiguration (meta_Configuration meta)) (m_Configuration msg)))
      then Ok (node_fail n FatalSnapshotConfiguration) else
      let '(n, ok) := if will_advance (n_core n) (m_Term msg) (LastIncludedIndex meta)
                      then install_state n snap else (n, true) in
      if negb ok then Ok n else node_step n (InputMessage msg)
  end.

(** ** The loop *)

Inductive event :=
| EvTick (p : Pressure)
| EvMessage (m : Message)
| EvPropose (cmd : CommitTxnCommand) (ch : Z)
| EvControl (requestID : RequestID) (payload : bytes) (ch : Z)
| EvReadIndex (leaseID ch : Z)
| EvMembership (kind : MembershipChangeKind) (requestID : RequestID) (targetID : NodeID) (targetAddr : bytes)
    (confirmVoterCount ch : Z)
| EvPrecheck (ch : Z)
| EvMembershipStatus (ch : Z)
| EvReleaseLease (id : Z)
| EvStop.

Definition handle_message (n : Node) (m : Message) : result node_panic Node :=
  let n := recordPeerGeneration n (m_From m) (m_SenderGeneration m) in
  if bool_decide (m_Type m = MsgInstallSnapshotRequest) then handleInstallSnapshot n m
  else node_step n (InputMessage m).

(** One iteration of [run]: the case of its select that was taken.  [EvStop]
    is [Stop] closing the channel; the loop ends with [shutdown]. *)
Definition handle_event (n : Node) (ev : event) : result node_panic Node :=
  match ev with
  | EvTick p => tick p n
  | EvMessage m => handle_message n m
  | EvPropose cmd ch => node_handlePropose n cmd ch
  | EvControl requestID payload ch => handleControlPropose n requestID payload ch
  | EvReadIndex leaseID ch => handleReadIndex n leaseID ch
  | EvMembership kind requestID targetID targetAddr confirm ch =>
      handleMembership n kind requestID targetID targetAddr confirm ch
  | EvPrecheck ch => Ok (answer_on ch (PrecheckReply (computePrecheck n)) n)
  | EvMembershipStatus ch => Ok (answer_on ch (MembershipStatusReply (computeMembershipStatus n)) n)
  | EvReleaseLease id => Ok (n <| n_leases := ReleaseLease (n_leases n) id |>)
  | EvStop => Ok (n <| n_stopped := true |>)
  end.

End Loop.

Definition shutdown (n : Node) : Node :=
  let n := flush_waiters ErrNodeStopped n in
  let n := foldl (λ n pr, answer_on (rd_resultCh pr) (ReadReply (Err ErrNodeStopped))
                            (n <| n_leases := ReleaseLease (n_leases n) (rd_leaseID pr) |>)) n (n_pendingReads n) in
  (node_wal Close (n <| n_pendingReads := [] |>)).1.

(** ** The callers' half of [Propose]

    [None] when the command goes to the loop. *)
Definition Propose_precheck (f : FSM) (cmd : CommitTxnCommand) : option (result fsm_error Outcome) :=
  match Precheck f cmd with
  | Ok outcome => Some (Ok outcome)
  | Err ErrRequestIDUnknown => None
  | Err e => Some (Err e)
  end.

(** ** Opening *)

Definition or_default (v d : Z) : Z := if v <=? 0 then d else v.
Definition zero_default (v d : Z) : Z := if v =? 0 then d else v.

Definition node_setDefaults (c : NodeConfig) : NodeConfig :=
  let p := nc_pressure c in
  mkNodeConfig (nc_ID c) (nc_Peers c) (nc_PeerAddrs c) (nc_ListenAddr c) (nc_SegmentMaxSize c)
    (zero_default (nc_SnapshotThreshold c) 4096) (or_default (nc_ElectionTimeoutTicks c) 10)
    (or_default (nc_ElectionTimeoutJitterTicks c) 10) (or_default (nc_HeartbeatTimeoutTicks c) 2)
    (or_default (nc_TickInterval c) 20000000) (nc_PromotionMaxLagEntries c)
    (zero_default (nc_MaxConcurrentReads c) 512) (zero_default (nc_MaxLiveReadLeases c) 4096)
    (nc_AdmissionQueueDepth c) (nc_AdmissionMaxWait c) (zero_default (nc_MaxAdminConcurrency c) 2)
    (zero_default (nc_MaxMaintenanceConcurrency c) 2) (nc_GCInterval c) (nc_GCMinRetainSeqs c)
    (nc_GCMinAdvanceSeqs c) (nc_GCMaxVersionsPerPass c) (nc_GCMaxKeysPerPass c) (nc_WALRetainExtraSegments c)
    (nc_SnapshotRetainCount c) (or_default (nc_ResourcePollInterval c) 5000000000)
    (mkPressureSettings (ps_diskPressure p) (ps_diskCritical p) (ps_MaxHeapBytes p)
       (zero_default (ps_MaxInflightProposals p) 256) (ps_FsyncFailureThreshold p)).

Definition node_validate (c : NodeConfig) : bool :=
  negb (bool_decide (nc_ID c = [])) &&
  ((zlen (nc_Peers c) =? 0) || bool_decide (nc_ID c ∈ nc_Peers c)) &&
  (0 <=? nc_WALRetainExtraSegments c) && (0 <=? nc_SnapshotRetainCount c).

Definition raft_config (c : NodeConfig) : Config :=
  mkConfig (nc_ID c) (bootstrapConfiguration c) (nc_ElectionTimeoutTicks c) (nc_ElectionTimeoutJitterTicks c)
    (nc_HeartbeatTimeoutTicks c) true.

Inductive open_error :=
| OpenConfig
| OpenWal (e : wal_error)
| ErrRecoveryGap
| OpenStorage (e : storage_error)
| OpenCore (e : new_error)
| OpenAdmission (e : gate_error)
| OpenPressure (e : setup_error).

Definition as_open {E A} (f : E → open_error) (r : result E A) : result open_error A :=
  match r with Ok a => Ok a | Err e => Err (f e) end.

(** [interval / TickInterval], at least one tick. *)
Definition ticks_of (interval tick : Z) : Z := let t := Z.quot interval tick in if t <? 1 then 1 else t.

(** [disk] and [dir] are what the data directory holds, [nodeID] the
    identifier a new log is given and [probe] the disk usage. *)
Definition node_Open (cfg : NodeConfig) (disk : Disk) (dir : Dir) (nodeID : bytes) (probe : Z * option sample_error)
    (intn : Z → Z) : result open_error Node :=
  let cfg := node_setDefaults cfg in
  if negb (node_validate cfg) then Err OpenConfig else
  w ← as_open OpenWal (Open disk nodeID (nc_SegmentMaxSize cfg));
  let mgr := NewSnapManager dir in
  let mgr := if 0 <? nc_SnapshotRetainCount cfg then default mgr (SetRetainCount mgr (nc_SnapshotRetainCount cfg)) else mgr in
  let snap := Load mgr (md_LatestSnapshotIndex (w_metadata w)) in
  let '(baseIndex, baseTerm, fsm) :=
    match snap with
    | Some s => (LastIncludedIndex (snap_Meta s), LastIncludedTerm (snap_Meta s), snap_FSM s)
    | None => (0, 0, New NewStore)
    end in
  if (baseIndex + 1)%u64 <? FirstIndex w then Err ErrRecoveryGap else
  st ← as_open OpenStorage (OpenWALStorage w);
  let entries := ws_Entries st (baseIndex + 1)%u64 (ws_LastIndex st + 1)%u64 in
  let '(snapConfig, snapHasConfig) :=
    match snap with
    | Some s => (fromSnapshotConfiguration (meta_Configuration (snap_Meta s)), HasConfiguration (snap_Meta s))
    | None => (no_config, false)
    end in
  core ← as_open OpenCore
    (NewCoreFromSnapshot (raft_config cfg) (ws_hs st) baseIndex baseTerm snapConfig snapHasConfig entries);
  gates ← as_open OpenAdmission
    (newAdmissionGates (nc_MaxInflightProposals cfg) (nc_MaxConcurrentReads cfg) (nc_MaxAdminConcurrency cfg)
       (nc_MaxMaintenanceConcurrency cfg) (nc_AdmissionQueueDepth cfg) (nc_AdmissionMaxWait cfg));
  _ ← as_open OpenPressure (setupDiskPressure (nc_pressure cfg) probe);
  let gcTicks := if 0 <? nc_GCInterval cfg then ticks_of (nc_GCInterval cfg) (nc_TickInterval cfg) else 0 in
  let pollTicks := ticks_of (nc_ResourcePollInterval cfg) (nc_TickInterval cfg) in
  Ok (mkNode cfg core st mgr fsm true (electionTimeout (c_cfg core) intn) false 0 baseIndex ∅ []
        newLeaseRegistry gcTicks gcTicks false 0 pollTicks pollTicks PressureNormal (mkHealth 0 false) gates
        (f_clusterGeneration fsm) 0 ∅ ∅ (nc_PeerAddrs cfg) [] [] None false).
