(* ===== verification/Maintenance.v ===== *)
(** * Maintenance of a running node ([internal/node/scrub.go] and
    [handleBackup] of [internal/node/node.go])

    A backup of the node's own snapshot and log, and a scrub of everything it
    keeps on disk.  The gates in front of both are in [Admission]; whether the
    caller has given up between two parts of a scrub is an argument. *)

From S2P Require Import Prelude Bytes Hash Scrub Json Mvcc FsmCommand Fsm FsmSnapshot RaftTypes RaftMembership RaftCore WalRecord Wal WalScrub Storage Snapshot Backup AuditTrail Leases Admission NodePressure Node.

(** ** Backup *)

Inductive maintenance_error := MtNoSnapshot | MtBackup (e : backup_error).

(** What [handleBackup] hands to [Export]. *)
Definition backup_source (n : Node) : option Source :=
  let baseIndex := c_snapshotIndex (n_core n) in
  let baseFSM := if baseIndex =? 0 then Some (New NewStore) else snap_FSM <$> Load (n_snapMgr n) baseIndex in
  let baseTerm := if baseIndex =? 0 then 0 else c_snapshotTerm (n_core n) in
  let cfgAtBase := (ConfigAt (n_core n) baseIndex).1 in
  f ← baseFSM;
  Some (mkSource (mkMeta baseIndex baseTerm true (toSnapshotConfiguration cfgAtBase)) f (ws_w (n_storage n)) (snapshotWriteVersion n)).

Definition backup_options (n : Node) (continuous : bool) (clusterID : bytes) : ExportOptions :=
  mkExportOptions (if continuous then UntilLatest else c_snapshotIndex (n_core n)) clusterID.

Definition handleBackup (now : Z) (nodeID : bytes) (continuous : bool) (clusterID : bytes) (n : Node) (outDir : BackupDir)
    : Node * BackupDir * result maintenance_error Manifest :=
  match backup_source n with
  | None => (n, outDir, Err MtNoSnapshot)
  | Some src =>
      match ExportBackup now nodeID src (backup_options n continuous clusterID) outDir with
      | (outDir, Err e) => (note_fsync FsyncPathBackup true n, outDir, Err (MtBackup e))
      | (outDir, Ok m) => (note_fsync FsyncPathBackup false n, outDir, Ok m)
      end
  end.

(** ** Scrub *)

Record ScrubReport := mkScrubReport {
  sr_BytesRead : Z;
  sr_WALSegmentsChecked : Z;
  sr_WALFramesChecked : Z;
  sr_SnapshotsChecked : Z;
  sr_AuditRecordsChecked : Z;
  sr_Findings : list Finding;
  sr_Truncated : bool
}.

(** The directories of the node: the log, the snapshots and, if it is
    configured, the audit log; [stop1] and [stop2] say whether the context was
    cancelled after the log and after the snapshots. *)
Definition NodeScrub (stop1 stop2 : bool) (log : Disk) (snapshots : gmap bytes bytes) (audit : option Disk) : ScrubReport :=
  let '(walFindings, (segments, frames, walBytes)) := WalScrub log in
  if stop1 then mkScrubReport walBytes segments frames 0 0 walFindings true else
  let '(snapFindings, (checked, snapBytes)) := SnapshotScrub snapshots in
  let findings := walFindings ++ snapFindings in
  let bytesRead := walBytes + snapBytes in
  if stop2 then mkScrubReport bytesRead segments frames checked 0 findings true else
  match audit with
  | None => mkScrubReport bytesRead segments frames checked 0 findings false
  | Some d =>
      let '(auditFindings, (records, auditBytes)) := ScrubAudit d in
      mkScrubReport (bytesRead + auditBytes) segments frames checked records (findings ++ auditFindings) false
  end.


