(* ===== verification/MaintenanceSpec.v ===== *)
(** * What backups and scrubs of a running node show

    A backup taken from a running node restores its snapshot and its log; a
    silent scrub means that the node could restart from what it has on disk.
    The last part is about what a backup takes as the node's snapshot. *)

From S2P Require Import Prelude Bytes Hash Scrub Json JsonSpec Mvcc FsmCommand Fsm FsmSnapshot RaftTypes RaftMembership RaftCore WalRecord Wal WalSpec WalScrub Storage Snapshot SnapshotSpec Backup BackupSpec AuditTrail AuditTrailSpec Leases Admission NodePressure Node Maintenance.

Lemma backup_source_meta n src :
  backup_source n = Some src →
  src_WAL src = ws_w (n_storage n) ∧ LastIncludedIndex (src_BaseMeta src) = c_snapshotIndex (n_core n) ∧
  (c_snapshotIndex (n_core n) = 0 ∧ src_BaseFSM src = New NewStore ∨
   c_snapshotIndex (n_core n) ≠ 0 ∧ ∃ snap, Load (n_snapMgr n) (c_snapshotIndex (n_core n)) = Some snap ∧ src_BaseFSM src = snap_FSM snap).
Proof.
  unfold backup_source. cbv zeta. destruct (Z.eqb_spec (c_snapshotIndex (n_core n)) 0) as [H|H].
  - intros [= <-]. rewrite H. split; [done|]. split; [done|]. by left.
  - destruct (Load _ _) as [snap|]; [|done]. intros [= <-]. split; [done|]. split; [done|]. right. split; [done|]. by exists snap.
Qed.

(** A backup of a running node succeeds and restores: the data directory has
    the node's snapshot, without its membership, and behind it exactly the
    entries of the node's log up to the chosen index.  Of the node only the
    health of its storage changes. *)
Theorem live_backup_restores now nid rid n continuous cid ropts target src sbase srs sm sn shs u :
  backup_source n = Some src → source_ok src sbase srs sm sn shs →
  let opts := backup_options n continuous cid in
  export_ok now nid src opts → id_ok rid →
  Forall (λ s, zlen (seg_bytes s) < 2 ^ 63) (bd_wal (handleBackup now nid continuous cid n empty_backup).1.2) →
  u = (if ro_UntilIndex ropts =? UntilLatest then base_of src + zlen (captured_entries src opts srs) else ro_UntilIndex ropts) →
  base_of src ≤ u ≤ base_of src + zlen (captured_entries src opts srs) →
  target = None ∨ (dataDirIsClean target = false ∧ ro_Force ropts = true) →
  ∃ bk m dd dir,
    handleBackup now nid continuous cid n empty_backup = (note_fsync FsyncPathBackup false n, bk, Ok m) ∧
    Restore rid ropts bk target = (bk, Some dd, Ok (mkRestoreResult m u)) ∧
    dd_snapshot dd = Some dir ∧
    (base_of src ≠ 0 → Load (NewSnapManager dir) (base_of src) = Some (restored_snapshot src)) ∧
    ∀ nid' maxsz, ∃ w, Open (dd_wal dd) nid' maxsz = Ok w ∧ FirstIndex w = base_of src + 1 ∧
      Replay w (base_of src + 1)%u64 =
        Ok (copied voidConfigEntryPayload (within u (captured_entries src opts srs)), None).
Proof.
  intros Hs Hok opts Hexp Hrid Hsmall Hu Hr Ht. unfold handleBackup in *. rewrite Hs in *. fold opts in Hsmall |- *.
  assert (Hsmall' : Forall (λ s, zlen (seg_bytes s) < 2 ^ 63) (bd_wal (ExportBackup now nid src opts empty_backup).1)).
  { destruct (ExportBackup now nid src opts empty_backup) as [bk [m|e]]; exact Hsmall. }
  destruct (export_restores now nid rid src opts ropts target sbase srs sm sn shs u Hok Hexp Hrid Hsmall' Hu Hr Ht)
    as (bk & m & dd & dir & HE & HR & Hd & HL & HO).
  exists bk, m, dd, dir. rewrite HE. split; [done|]. split; [done|]. split; [done|]. split; [done|].
  intros nid' maxsz. destruct (HO nid' maxsz) as (w & H1 & _ & H2 & _ & _ & H3). by exists w.
Qed.

(** ** Scrubbing *)

(** The file decodes as a snapshot at the index of its name. *)
Definition readable (files : gmap bytes bytes) (c : candidate) : Prop :=
  ∀ data, files !! c_path c = Some data → ∃ snap, Decode data = Ok snap ∧ LastIncludedIndex (snap_Meta snap) = c_index c.

Lemma snapshot_scrub_silent files :
  (SnapshotScrub files).1 = [] ↔ Forall (readable files) (listSnapshotCandidates files).
Proof.
  rewrite SnapshotScrub_findings. induction (listSnapshotCandidates files) as [|c cs IH]; [done|].
  rewrite fmap_cons, mjoin_cons, Forall_cons, <- IH. rewrite app_nil. apply and_iff_compat_r. clear.
  unfold scrub_one, readable. destruct (files !! c_path c) as [data|]; [|split; [by intros _ data ?|done]]. unfold scrub_file.
  destruct (Decode data) as [snap|e] eqn:E.
  - destruct (Z.eqb_spec (LastIncludedIndex (snap_Meta snap)) (c_index c)) as [Hi|Hi]; cbn [negb].
    + split; [|done]. intros _ d [= <-]. by exists snap.
    + split; [done|]. intros H. destruct (H data eq_refl) as (s & Hs & Hi'). rewrite E in Hs. injection Hs as <-. done.
  - split; [done|]. intros H. destruct (H data eq_refl) as (s & Hs & _). by rewrite E in Hs.
Qed.

(** A complete scrub reports nothing exactly if everything the node keeps is
    sound: its log recovers, every snapshot file decodes as the snapshot its
    name says, and the audit log verifies.  One that was cut short reports no
    less of what it did read. *)
Theorem node_scrub_silent log snapshots audit stop1 stop2 :
  Forall (λ s, no_oversized (seg_bytes s)) log → NoDup (seg_id <$> log) → (length (default [] audit) ≤ 1)%nat →
  let report := NodeScrub stop1 stop2 log snapshots audit in
  sr_Truncated report = stop1 || stop2 ∧
  (sr_Findings report = [] ↔
    recovers log = true ∧ (stop1 = false → Forall (readable snapshots) (listSnapshotCandidates snapshots)) ∧
    (stop1 || stop2 = false → VerifyAudit (default [] audit) = Ok ())).
Proof.
  intros Ho Hn Ha. cbv zeta. unfold NodeScrub. rewrite <- (WalScrub.scrub_silent log Ho Hn), <- snapshot_scrub_silent.
  destruct (WalScrub log) as [wf [[segs frames] wb]]. destruct (SnapshotScrub snapshots) as [sf [checked sb]]. cbn [fst].
  destruct stop1; cbn [orb]; cbv beta iota zeta.
  { cbn [sr_Truncated sr_Findings]. split; [done|]. split; [by intros ->|by intros [-> _]]. }
  destruct stop2; cbn [orb]; cbv beta iota zeta.
  { cbn [sr_Truncated sr_Findings]. split; [done|]. rewrite app_nil. split; [by intros [-> ->]|intros (-> & H & _); by rewrite H]. }
  destruct audit as [d|].
  - change (default [] (Some d)) with d in *.
    assert (Hv : (ScrubAudit d).1 = [] ↔ VerifyAudit d = Ok ())
      by (destruct (audit_scrub_agrees_with_verify d) as [H1 H2]; split; [done|by apply H2]).
    destruct (ScrubAudit d) as [af [records ab]]. cbn [fst] in Hv. cbn [sr_Truncated sr_Findings]. split; [done|].
    rewrite !app_nil, Hv. split; [by intros [[-> ->] ->]|]. intros (-> & H & H'). by rewrite H, H'.
  - cbn [sr_Truncated sr_Findings]. split; [done|]. rewrite app_nil. split; [intros [-> ->]; by split_and!|].
    intros (-> & H & _). by rewrite H.
Qed.

(** ** Findings *)

(** A continuous backup does not look at the commit index: it exports the
    whole log, with entries that no majority has, which a restored cluster
    then commits.  The documents promise the committed history. *)
Theorem continuous_backup_ignores_commit now nid cid n src sbase srs sm sn shs :
  backup_source n = Some src → source_ok src sbase srs sm sn shs → export_ok now nid src (backup_options n true cid) →
  (∀ k outDir, let n' := n <| n_core := (n_core n) <| c_commitIndex := k |> |> in
     (handleBackup now nid true cid n' outDir).1.2 = (handleBackup now nid true cid n outDir).1.2 ∧
     (handleBackup now nid true cid n' outDir).2 = (handleBackup now nid true cid n outDir).2) ∧
  ∃ m, (handleBackup now nid true cid n empty_backup).2 = Ok m ∧
    mf_WALUntilIndex m = c_snapshotIndex (n_core n) + zlen (served (c_snapshotIndex (n_core n) + 1) srs).
Proof.
  intros Hs Hok Hexp. split.
  - intros k outDir. cbv zeta. unfold handleBackup.
    change (backup_source (n <| n_core := (n_core n) <| c_commitIndex := k |> |>)) with (backup_source n).
    change (backup_options (n <| n_core := (n_core n) <| c_commitIndex := k |> |>) true cid) with (backup_options n true cid).
    rewrite Hs. by destruct (ExportBackup _ _ _ _ _) as [bk [m|e]].
  - destruct (ExportBackup_ok _ _ _ _ _ _ _ _ _ Hok Hexp) as (data & w & m & _ & _ & Hm & HE).
    exists m. unfold handleBackup. rewrite Hs, HE. split; [done|]. rewrite Hm. cbn [mf_WALUntilIndex].
    destruct (backup_source_meta n src Hs) as (_ & Hb & _). rewrite Hb. do 2 f_equal. unfold captured_entries.
    rewrite Hb. unfold within. apply filter_all, Forall_true. intros r. by left.
Qed.

(** A backup can pair an old state with a new boundary.  If the file of the
    adopted snapshot at [b] cannot be read, [Load] falls back to an older one,
    at [a]; the backup takes its state, but labels it with [b] and exports the
    log behind [b].  The entries from [a + 1] to [b], all committed, are in
    neither; the backup reports success and restores without complaint. *)
Theorem backup_of_older_snapshot_loses_entries now nid continuous cid n src snap sbase srs sm sn shs :
  let b := c_snapshotIndex (n_core n) in
  b ≠ 0 → Load (n_snapMgr n) b = Some snap → LastIncludedIndex (snap_Meta snap) < b →
  backup_source n = Some src → source_ok src sbase srs sm sn shs → export_ok now nid src (backup_options n continuous cid) →
  ∃ bk m data, handleBackup now nid continuous cid n empty_backup = (note_fsync FsyncPathBackup false n, bk, Ok m) ∧
    mf_LastIncludedIndex m = b ∧ mf_WALFromIndex m = b + 1 ∧
    d_files (bd_snapshot bk) !! mf_SnapshotFile m = Some data ∧
    ∃ meta, Decode data = Ok (mkSnapshot meta (snapshot_view (snap_FSM snap))) ∧ LastIncludedIndex meta = b.
Proof.
  intros b Hb HL Hlt Hs Hok Hexp. destruct (backup_source_meta n src Hs) as (_ & Hbase & [[? _]|(_ & snap' & HL' & Hf)]); [done|].
  fold b in HL'. rewrite HL in HL'. injection HL' as <-.
  destruct (ExportBackup_ok _ _ _ _ _ _ _ _ _ Hok Hexp) as (data & w & m & Hdata & _ & Hm & HE).
  destruct Hok as [(Hmeta & Hst & Hbelow) _ _ _ _].
  eexists _, m, data. unfold handleBackup. rewrite Hs, HE. split; [done|]. rewrite Hm.
  cbn [mf_LastIncludedIndex mf_WALFromIndex mf_SnapshotFile bd_snapshot]. rewrite Hbase. split; [done|]. split; [done|].
  split; [apply lookup_insert_eq|]. pose proof (decode_encode_snapshot _ _ _ _ Hmeta Hst Hbelow Hdata) as HD. rewrite Hf in HD.
  eexists. split; [exact HD|]. cbn. exact Hbase.
Qed.

(** The fallback happens: a readable file at 5 and a damaged one at 9. *)
Definition demo_damaged : SnapManager :=
  match Create (NewSnapManager no_files) demo_meta demo_state 2 with
  | Ok (m, _) => NewSnapManager (WriteFileDurable (snapshotFileName 9) [0; 1; 2] (mg_dir m))
  | Err _ => NewSnapManager no_files
  end.

Example load_falls_back : (λ s, LastIncludedIndex (snap_Meta s)) <$> Load demo_damaged 9 = Some 5.
Proof. vm_compute. reflexivity. Qed.
