(* ===== verification/NodeInv.v ===== *)
(** * Invariants of a node

    Between two events a running node has applied every entry its core knows
    to be committed; its state machine is the replay of the applied entries;
    and the result channel of every request is either answered, or held by
    exactly one waiter or pending read. *)

From S2P Require Import Prelude Bytes Hash Scrub Mvcc FsmCommand Fsm FsmSnapshot RaftTypes RaftMembership RaftMembershipSpec RaftCore RaftInv RaftSpec WalRecord Wal Storage StorageSpec RaftPersist RaftDriver Snapshot SnapshotSpec Leases Admission NodePressure Node.

(** ** Outcomes of the handlers

    The only panics are the protocol's own checks on what other nodes sent. *)

Definition nsafe {A} (r : result node_panic A) (Q : A → Prop) : Prop :=
  match r with Ok a => Q a | Err p => ∃ q, p = RaftPanicked q ∧ protocol_panic q end.

Lemma nsafe_bind {A B} (r : result node_panic A) (f : A → result node_panic B) Q :
  nsafe r (λ a, nsafe (f a) Q) → nsafe (r ≫= f) Q.
Proof. by destruct r. Qed.

Lemma nsafe_mono {A} (r : result node_panic A) (P Q : A → Prop) : nsafe r P → (∀ a, P a → Q a) → nsafe r Q.
Proof. destruct r; cbn; auto. Qed.

Lemma nsafe_core {A} (r : result raft_panic A) (Q : A → Prop) : safe r Q → nsafe (run_core r) Q.
Proof. destruct r; cbn; eauto. Qed.

(** ** The replicated machine

    What a committed entry does to the state machine and the node's record of
    the cluster generation, and the request it decides.  [None]: the node
    stops. *)

Abbreviation machine := (FSM * Z)%type.
Definition machine_of (n : Node) : machine := (n_fsm n, n_clusterGeneration n).

Abbreviation decision := (option (RequestID * Outcome)).

Definition decide_config (m : machine) (e : Entry) : option (machine * decision) :=
  match DecodeConfigEntry e with
  | Err _ => None
  | Ok (None, _) => Some (m, None)
  | Ok (Some kind, cc) =>
      if m.2 <? 2 then None else
      match RecordMembershipOutcome m.1 (cc_requestID cc) (fsmMembershipKind kind) (cc_targetID cc) (cc_targetAddr cc)
              (mkOutcome (cc_requestID cc) StatusCommitted (e_Index e) [] 0) with
      | Err _ => None
      | Ok (f, recorded) => Some ((f, m.2), Some (cc_requestID cc, recorded))
      end
  end.

Definition decide_control (m : machine) (e : Entry) : option (machine * decision) :=
  match ControlKind (e_Data e) with
  | None => None
  | Some kind =>
      if kind =? controlKindSetClusterVersion then
        match DecodeSetClusterVersion (e_Data e) with
        | Err _ => None
        | Ok cmd =>
            if MaxSupportedGeneration <? scv_TargetGeneration cmd then None else
            let '(f, o) := ApplySetClusterVersion m.1 (e_Index e) cmd in
            Some ((f, if bool_decide (o_Status o = StatusCommitted) then scv_TargetGeneration cmd else m.2),
                  Some (scv_RequestID cmd, o))
        end
      else if kind =? controlKindAdvanceGCWatermark then
        if m.2 <? 3 then None else
        match DecodeAdvanceGCWatermark (e_Data e) with
        | Err _ => None
        | Ok cmd =>
            let '(f, o) := ApplyAdvanceGCWatermark m.1 (e_Index e) cmd in
            Some ((f, m.2), Some (gc_RequestID cmd, o))
        end
      else None
  end.

Definition decide_commit (m : machine) (e : Entry) : option (machine * decision) :=
  match DecodeCommitTxn (e_Data e) with
  | Err _ => None
  | Ok cmd =>
      match Apply m.1 (e_Index e) cmd with
      | Err _ => None
      | Ok (f, o) => Some ((f, m.2), Some (c_RequestID cmd, o))
      end
  end.

Definition decide_entry (m : machine) (e : Entry) : option (machine * decision) :=
  if bool_decide (e_Type e = EntryConfig) then decide_config m e
  else if IsControlCommand (e_Data e) then decide_control m e
  else decide_commit m e.

(** The machine after a sequence of entries. *)
Fixpoint replays (m : machine) (es : list Entry) : option machine :=
  match es with
  | [] => Some m
  | e :: es => '(m, _) ← decide_entry m e; replays m es
  end.

Lemma replays_app m es es' : replays m (es ++ es') = (replays m es ≫= λ m', replays m' es').
Proof.
  revert m. induction es as [|e es IH]; intros m; [done|]. cbn [app replays].
  destruct (decide_entry m e) as [[m' d]|]; [|done]. cbn. apply IH.
Qed.

(** ** Requests *)

Definition waiting_channels (m : gmap Z waiter) : list Z := (λ w, wt_resultCh w.2) <$> map_to_list m.

(** The channels of all requests the node has taken: answered, waiting for an
    entry, or reading. *)
Definition channels (n : Node) : list Z :=
  (n_replies n).*1 ++ waiting_channels (n_waiters n) ++ (rd_resultCh <$> n_pendingReads n).

Lemma channels_eq n n' :
  n_replies n' = n_replies n → n_waiters n' = n_waiters n → n_pendingReads n' = n_pendingReads n →
  channels n' = channels n.
Proof. intros H1 H2 H3. unfold channels. by rewrite H1, H2, H3. Qed.

Lemma waiting_insert m i w : m !! i = None → waiting_channels (<[i := w]> m) ≡ₚ wt_resultCh w :: waiting_channels m.
Proof. intros H. unfold waiting_channels. by rewrite map_to_list_insert. Qed.

Lemma waiting_delete m i w : m !! i = Some w → waiting_channels m ≡ₚ wt_resultCh w :: waiting_channels (delete i m).
Proof. intros H. unfold waiting_channels. by rewrite <- (map_to_list_delete m i w). Qed.

Lemma channels_resolve n i rid o : channels (resolveWaiter n i rid o) ≡ₚ channels n.
Proof.
  unfold resolveWaiter. destruct (n_waiters n !! i) as [w|] eqn:E; [|done].
  assert (H : ∀ r, channels (answer_on (wt_resultCh w) r (n <| n_waiters := delete i (n_waiters n) |>)) ≡ₚ channels n).
  { intros r. unfold channels, answer_on. cbn. rewrite fmap_app. cbn. rewrite (waiting_delete _ _ _ E). solve_Permutation. }
  case_match; apply H.
Qed.

Lemma channels_flush e n : channels (flush_waiters e n) ≡ₚ channels n.
Proof.
  unfold channels, flush_waiters. cbn. rewrite fmap_app, <- list_fmap_compose. unfold waiting_channels.
  rewrite map_to_list_empty. cbn. rewrite <- app_assoc. done.
Qed.

Lemma channels_check_read n pr :
  channels (check_read n pr) ≡ₚ rd_resultCh pr :: channels n.
Proof.
  unfold check_read. repeat case_if; unfold channels, answer_on; cbn; rewrite ?fmap_app; cbn; solve_Permutation.
Qed.

Lemma channels_checkPendingReads n : channels (checkPendingReads n) ≡ₚ channels n.
Proof.
  unfold checkPendingReads.
  assert (H : ∀ prs m, channels (foldl check_read m prs) ≡ₚ (rd_resultCh <$> prs) ++ channels m).
  { induction prs as [|pr prs IH]; intros m; [done|]. cbn [foldl]. rewrite IH, channels_check_read. cbn. solve_Permutation. }
  rewrite H. unfold channels. cbn. solve_Permutation.
Qed.

(** ** Reads

    What holds of a read when it is registered, its channel, its lease and its
    target, holds when it is answered, and then the target is applied. *)
Definition reads_in (Q : Z → Z → Z → Prop) (n : Node) : Prop :=
  (∀ pr, pr ∈ n_pendingReads n → Q (rd_resultCh pr) (rd_leaseID pr) (rd_target pr)) ∧
  (∀ ch s id, (ch, ReadReply (Ok (s, id))) ∈ n_replies n → Q ch id s ∧ s ≤ n_appliedIndex n).

Definition reads_from (n n' : Node) : Prop := ∀ Q, reads_in Q n → reads_in Q n'.

Lemma reads_from_trans n n1 n2 : reads_from n n1 → reads_from n1 n2 → reads_from n n2.
Proof. intros H1 H2 Q H. auto. Qed.

(** Answers that are not reads. *)
Lemma reads_from_answers n n' rs :
  n_pendingReads n' = n_pendingReads n → n_appliedIndex n ≤ n_appliedIndex n' → n_replies n' = n_replies n ++ rs →
  Forall (λ r, ∀ x, r.2 ≠ ReadReply (Ok x)) rs → reads_from n n'.
Proof.
  intros Hp Ha Hr Hrs Q [H1 H2]. split; [by rewrite Hp|]. intros ch s id Hin. rewrite Hr in Hin.
  apply elem_of_app in Hin as [Hin|Hin]; [destruct (H2 _ _ _ Hin); split; [done|lia]|].
  rewrite Forall_forall in Hrs. by destruct (Hrs _ Hin (s, id)).
Qed.

Lemma reads_from_same n n' :
  n_pendingReads n' = n_pendingReads n → n_appliedIndex n ≤ n_appliedIndex n' → n_replies n' = n_replies n → reads_from n n'.
Proof. intros Hp Ha Hr. apply (reads_from_answers n n' []); [done|done|by rewrite app_nil_r|constructor]. Qed.

Lemma resolve_replies n i rid o :
  ∃ rs, n_replies (resolveWaiter n i rid o) = n_replies n ++ rs ∧ Forall (λ r, ∀ x, r.2 ≠ ReadReply (Ok x)) rs.
Proof.
  unfold resolveWaiter. case_match; [|exists []; split; [by rewrite app_nil_r|constructor]].
  case_match; eexists; (split; [done|by apply Forall_singleton]).
Qed.

Lemma check_read_reads n pr Q :
  Q (rd_resultCh pr) (rd_leaseID pr) (rd_target pr) → reads_in Q n → reads_in Q (check_read n pr).
Proof.
  intros Hq [H1 H2]. unfold check_read. case_if; [|case_if; [|destruct (Z.ltb_spec (n_appliedIndex n) (rd_target pr))]].
  - split; [done|]. intros ch s id Hin. cbn in Hin. apply elem_of_app in Hin as [Hin|Hin]; [by apply H2|].
    by apply list_elem_of_singleton in Hin.
  - split; [|done]. intros p Hp. cbn in Hp. apply elem_of_app in Hp as [Hp|Hp]; [by apply H1|]. by apply list_elem_of_singleton in Hp as ->.
  - split; [|done]. intros p Hp. cbn in Hp. apply elem_of_app in Hp as [Hp|Hp]; [by apply H1|]. by apply list_elem_of_singleton in Hp as ->.
  - split; [done|]. intros ch s id Hin. cbn in Hin. apply elem_of_app in Hin as [Hin|Hin]; [by apply H2|].
    apply list_elem_of_singleton in Hin. injection Hin as -> -> ->. split; [done|exact H].
Qed.

Lemma checkPendingReads_reads n : reads_from n (checkPendingReads n).
Proof.
  intros Q [H1 H2]. unfold checkPendingReads.
  assert (H : ∀ prs m, (∀ pr, pr ∈ prs → Q (rd_resultCh pr) (rd_leaseID pr) (rd_target pr)) → reads_in Q m → reads_in Q (foldl check_read m prs)).
  { induction prs as [|pr prs IH]; intros m Hp Hm; [done|]. cbn [foldl]. apply IH; [intros p Hin; apply Hp; by right|].
    apply check_read_reads; [apply Hp; by left|done]. }
  apply H; [done|]. split; [|done]. intros pr Hin. by apply elem_of_nil in Hin.
Qed.

(** ** Frames *)

(** What no handler but [handleReadIndex] and the lease events change. *)
Record reads_kept (n n' : Node) : Prop := {
  rk_leases : n_leases n' = n_leases n;
  rk_reads : n_pendingReads n' = n_pendingReads n;
  rk_acks : n_ackSeq n' = n_ackSeq n;
  rk_cfg : n_cfg n' = n_cfg n
}.

Lemma reads_kept_refl n : reads_kept n n.
Proof. done. Qed.

Lemma reads_kept_trans n n1 n2 : reads_kept n n1 → reads_kept n1 n2 → reads_kept n n2.
Proof. intros [] []. constructor; congruence. Qed.

(** An effect outside the machine, the core and the requests. *)
Record still (n n' : Node) : Prop := {
  sti_core : n_core n' = n_core n;
  sti_machine : machine_of n' = machine_of n;
  sti_applied : n_appliedIndex n' = n_appliedIndex n;
  sti_fatal : n_fatal n' = n_fatal n;
  sti_waiters : n_waiters n' = n_waiters n;
  sti_replies : n_replies n' = n_replies n;
  sti_reads : reads_kept n n'
}.

Lemma still_refl n : still n n.
Proof. done. Qed.

Lemma still_trans n n1 n2 : still n n1 → still n1 n2 → still n n2.
Proof. intros [] []. constructor; try congruence. by eapply reads_kept_trans. Qed.

Lemma still_channels n n' : still n n' → channels n' = channels n.
Proof. intros []. by apply channels_eq; [| |apply sti_reads0]. Qed.

Lemma still_storage n st : still n (n <| n_storage := st |>).
Proof. done. Qed.
Lemma still_fsync path b n : still n (note_fsync path b n).
Proof. done. Qed.

Lemma still_wal f n : still n (node_wal f n).1.
Proof. unfold node_wal. by case_match. Qed.

Lemma still_transmit n m : still n (transmit n m).
Proof. unfold transmit, node_send. cbv zeta. repeat case_match; done. Qed.

Lemma still_transmits ms n : still n (foldl transmit n ms).
Proof.
  revert n. induction ms as [|m ms IH]; intros n; [done|]. cbn [foldl].
  eapply still_trans; [apply still_transmit|apply IH].
Qed.

Lemma still_timers n out : still n (arm_timers n out).
Proof. unfold arm_timers. cbv zeta. repeat case_match; done. Qed.

(** The node stopped itself: its requests are where they were. *)
Record halted (i : Z) (n n' : Node) : Prop := {
  ha_fatal : n_fatal n' ≠ None;
  ha_core : n_core n' = n_core n ∨ n_core n' = SetApplied (n_core n) i;
  ha_waiters : n_waiters n' = n_waiters n;
  ha_replies : n_replies n' = n_replies n;
  ha_applied : n_appliedIndex n' = n_appliedIndex n ∨ n_appliedIndex n' = i;
  ha_channels : channels n' = channels n;
  ha_reads : reads_kept n n'
}.

Lemma node_fail_halted i n n1 e :
  n_core n1 = n_core n ∨ n_core n1 = SetApplied (n_core n) i → n_waiters n1 = n_waiters n → n_replies n1 = n_replies n →
  n_appliedIndex n1 = n_appliedIndex n ∨ n_appliedIndex n1 = i → channels n1 = channels n → reads_kept n n1 →
  halted i n (node_fail n1 e).
Proof. intros H1 H2 H3 H4 H5 H6. constructor; [cbn; by destruct (n_fatal n1)|done|done|done|done|exact H5|by destruct H6]. Qed.

Lemma node_fail_here i n e : halted i n (node_fail n e).
Proof. apply node_fail_halted; auto using reads_kept_refl. Qed.

Lemma node_fail_applied n e err : halted (e_Index e) n (node_fail (set_applied n e) err).
Proof. apply node_fail_halted; [by right|done|done|by right|done|done]. Qed.

(** ** Applying one entry *)

Record applied_by (e : Entry) (n n' : Node) : Prop := {
  ab_decision : ∃ d, decide_entry (machine_of n) e = Some (machine_of n', d) ∧
    match d with
    | None => n_waiters n' = n_waiters n ∧ n_replies n' = n_replies n
    | Some (rid, o) => n_waiters n' = n_waiters (resolveWaiter n (e_Index e) rid o) ∧
                       n_replies n' = n_replies (resolveWaiter n (e_Index e) rid o)
    end;
  ab_applied : n_appliedIndex n' = e_Index e;
  ab_core : n_core n' = SetApplied (n_core n) (e_Index e);
  ab_fatal : n_fatal n' = n_fatal n;
  ab_reads : reads_kept n n'
}.

Lemma resolve_frame n i rid o :
  n_core (resolveWaiter n i rid o) = n_core n ∧ machine_of (resolveWaiter n i rid o) = machine_of n ∧
  n_appliedIndex (resolveWaiter n i rid o) = n_appliedIndex n ∧ n_fatal (resolveWaiter n i rid o) = n_fatal n ∧
  reads_kept n (resolveWaiter n i rid o).
Proof. unfold resolveWaiter, answer_on. repeat case_match; done. Qed.

(** The state before the waiter is resolved, and the resolution. *)
Lemma applied_by_resolve e n n1 rid o :
  decide_entry (machine_of n) e = Some (machine_of n1, Some (rid, o)) →
  n_waiters n1 = n_waiters n → n_replies n1 = n_replies n → n_appliedIndex n1 = e_Index e →
  n_core n1 = SetApplied (n_core n) (e_Index e) → n_fatal n1 = n_fatal n → reads_kept n n1 →
  applied_by e n (resolveWaiter n1 (e_Index e) rid o).
Proof.
  intros Hd Hw Hr Ha Hc Hf Hk. destruct (resolve_frame n1 (e_Index e) rid o) as (F1 & F2 & F3 & F4 & F5).
  constructor; [|congruence..|by eapply reads_kept_trans]. exists (Some (rid, o)). split; [by rewrite F2|].
  unfold resolveWaiter, answer_on. rewrite Hw. case_match; [|done]. case_match; cbn; by rewrite Hr.
Qed.

Lemma adopt_spec n g :
  match adoptClusterGeneration n g with
  | (n', true) => n_clusterGeneration n' = g ∧ still (n <| n_clusterGeneration := g |>) n'
  | (n', false) => halted 0 n n' ∧ n_core n' = n_core n ∧ n_appliedIndex n' = n_appliedIndex n
  end.
Proof.
  unfold adoptClusterGeneration. destruct (node_wal _ n) as [n1 r] eqn:E.
  pose proof (still_wal (λ w, SetClusterGeneration w g) n) as S. rewrite E in S. cbn [fst] in S. destruct r.
  - split; [done|]. destruct S as [S1 S2 S3 S4 S5 S6 [S7 S8 S9 S10]]. unfold machine_of in S2. injection S2 as S2 _.
    by constructor; [|unfold machine_of; cbn; congruence|..|by constructor].
  - split; [|split; apply S]. apply node_fail_halted; [left; apply S|apply S|apply S|left; apply S|by apply still_channels|apply S].
Qed.

Lemma reads_run_fsm {A} (r : result fsm_error A) Q : reads r Q → run_fsm r = Ok r.
Proof. destruct r as [a|e]; [done|]. by destruct e. Qed.

Lemma applyCommitEntry_spec n e :
  wf_bytes (e_Data e) → bool_decide (e_Type e = EntryConfig) = false → IsControlCommand (e_Data e) = false →
  ∃ n' ok, applyCommitEntry n e = Ok (n', ok) ∧ if ok : bool then applied_by e n n' else halted (e_Index e) n n'.
Proof.
  intros Hb Ht Hc. unfold applyCommitEntry. rewrite (reads_run_fsm _ _ (DecodeCommitTxn_reads _ Hb)). cbn [mbind result_bind].
  destruct (DecodeCommitTxn (e_Data e)) as [cmd|err] eqn:Ed; [|do 2 eexists; split; [done|apply node_fail_here]].
  destruct (Apply (n_fsm n) (e_Index e) cmd) as [[f o]|err] eqn:Ea;
    [|do 2 eexists; split; [done|apply node_fail_here]].
  do 2 eexists. split; [done|]. apply applied_by_resolve; try done.
  unfold decide_entry, decide_commit. rewrite Ht, Hc, Ed. unfold machine_of at 1. cbn [fst]. by rewrite Ea.
Qed.

Lemma applyConfigEntry_spec n e :
  bool_decide (e_Type e = EntryConfig) = true →
  ∃ n' ok, applyConfigEntry n e = Ok (n', ok) ∧ if ok : bool then applied_by e n n' else halted (e_Index e) n n'.
Proof.
  intros Ht. unfold applyConfigEntry. destruct (DecodeConfigEntry e) as [[kind cc]|err] eqn:Ed;
    [|do 2 eexists; split; [done|apply node_fail_here]].
  destruct kind as [kind|].
  2: { do 2 eexists. split; [done|]. constructor; try done. exists None. split; [|done].
       unfold decide_entry, decide_config. by rewrite Ht, Ed. }
  cbv zeta. destruct (Z.ltb_spec (n_clusterGeneration (set_applied n e)) 2) as [Hg|Hg];
    [do 2 eexists; split; [done|apply node_fail_applied]|].
  destruct (RecordMembershipOutcome _ _ _ _ _ _) as [[f r]|err] eqn:Er;
    [|do 2 eexists; split; [done|apply node_fail_applied]].
  do 2 eexists. split; [done|]. apply applied_by_resolve; try done.
  unfold decide_entry, decide_config. rewrite Ht, Ed. unfold machine_of at 1 2. cbn [fst snd].
  rewrite (proj2 (Z.ltb_ge (n_clusterGeneration n) 2)) by exact Hg. cbn in Er. rewrite Er. done.
Qed.

Lemma applyControlEntry_spec n e :
  wf_bytes (e_Data e) → bool_decide (e_Type e = EntryConfig) = false → IsControlCommand (e_Data e) = true →
  ∃ n' ok, applyControlEntry n e = Ok (n', ok) ∧ if ok : bool then applied_by e n n' else halted (e_Index e) n n'.
Proof.
  intros Hb Ht Hc. unfold applyControlEntry, decide_entry.
  destruct (ControlKind (e_Data e)) as [kind|] eqn:Ek; [|do 2 eexists; split; [done|apply node_fail_here]].
  destruct (kind =? controlKindSetClusterVersion) eqn:E1; [|destruct (kind =? controlKindAdvanceGCWatermark) eqn:E2;
    [|do 2 eexists; split; [done|apply node_fail_here]]].
  - unfold applySetClusterVersionEntry. rewrite (reads_run_fsm _ _ (DecodeSetClusterVersion_reads _ Hb)). cbn [mbind result_bind].
    destruct (DecodeSetClusterVersion (e_Data e)) as [cmd|err] eqn:Ed; [|do 2 eexists; split; [done|apply node_fail_here]].
    destruct (Z.ltb_spec MaxSupportedGeneration (scv_TargetGeneration cmd)) as [|Hm];
      [do 2 eexists; split; [done|apply node_fail_here]|].
    destruct (ApplySetClusterVersion (n_fsm n) (e_Index e) cmd) as [f o] eqn:Ea.
    assert (D : decide_entry (machine_of n) e = Some ((f, if bool_decide (o_Status o = StatusCommitted)
        then scv_TargetGeneration cmd else n_clusterGeneration n), Some (scv_RequestID cmd, o))).
    { unfold decide_entry, decide_control. rewrite Ht, Hc, Ek, E1, Ed. unfold machine_of. cbn [fst snd].
      rewrite (proj2 (Z.ltb_ge MaxSupportedGeneration (scv_TargetGeneration cmd))) by done. by rewrite Ea. }
    set (n1 := set_applied (n <| n_fsm := f |>) e). case_bool_decide as Hs.
    + pose proof (adopt_spec n1 (scv_TargetGeneration cmd)) as A.
      destruct (adoptClusterGeneration n1 (scv_TargetGeneration cmd)) as [n2 [|]].
      * destruct A as [_ [S1 S2 S3 S4 S5 S6 S7]]. do 2 eexists. split; [done|].
        apply applied_by_resolve; [by rewrite S2|done..|by eapply reads_kept_trans; [|exact S7]].
      * do 2 eexists. split; [done|]. destruct A as [[A1 _ A3 A4 _ A5 A6] [A2 A7]].
        constructor; [done|by right; rewrite A2|done|done|by right; rewrite A7|done|by eapply reads_kept_trans; [|exact A6]].
    + do 2 eexists. split; [done|]. by apply applied_by_resolve.
  - unfold applyAdvanceGCWatermarkEntry. destruct (Z.ltb_spec (n_clusterGeneration n) 3) as [|Hg];
      [do 2 eexists; split; [done|apply node_fail_here]|].
    rewrite (reads_run_fsm _ _ (DecodeAdvanceGCWatermark_reads _ Hb)). cbn [mbind result_bind].
    destruct (DecodeAdvanceGCWatermark (e_Data e)) as [cmd|err] eqn:Ed; [|do 2 eexists; split; [done|apply node_fail_here]].
    destruct (ApplyAdvanceGCWatermark (n_fsm n) (e_Index e) cmd) as [f o] eqn:Ea.
    do 2 eexists. split; [done|].
    assert (D : decide_entry (machine_of n) e = Some ((f, n_clusterGeneration n), Some (gc_RequestID cmd, o))).
    { unfold decide_entry, decide_control. rewrite Ht, Hc, Ek, E1, E2, Ed. unfold machine_of. cbn [fst snd].
      rewrite (proj2 (Z.ltb_ge (n_clusterGeneration n) 3)) by done. by rewrite Ea. }
    apply applied_by_resolve; case_match; done.
Qed.

Lemma applyEntry_spec n e :
  (e_Type e ≠ EntryConfig → wf_bytes (e_Data e)) → n_appliedIndex n < e_Index e →
  ∃ n' ok, applyEntry n e = Ok (n', ok) ∧ if ok : bool then applied_by e n n' else halted (e_Index e) n n'.
Proof.
  intros Hb Hi. unfold applyEntry. rewrite (proj2 (Z.leb_gt (e_Index e) (n_appliedIndex n))) by done.
  destruct (bool_decide (e_Type e = EntryConfig)) eqn:Ht; [by apply applyConfigEntry_spec|].
  specialize (Hb ltac:(by apply bool_decide_eq_false in Ht)).
  destruct (IsControlCommand (e_Data e)) eqn:Hc; [by apply applyControlEntry_spec|by apply applyCommitEntry_spec].
Qed.
