(* ===== verification/NodeRun.v ===== *)
(** * Processing the outputs of the core

    What [processOutput] does to a node: nothing but protocol violations makes
    it panic, its recursion fits the fuel, the state machine advances by the
    entries that became committed, and no request is lost. *)

From S2P Require Import Prelude Bytes Hash Scrub Mvcc FsmCommand Fsm FsmSnapshot RaftTypes RaftMembership RaftMembershipSpec RaftCore RaftInv RaftSpec WalRecord Wal Storage StorageSpec RaftPersist RaftDriver Snapshot SnapshotSpec Leases Admission NodePressure Node NodeInv.

(** ** The core under its driver *)

Definition entry_ok (e : Entry) : Prop := e_Type e ≠ EntryConfig → wf_bytes (e_Data e).

Lemma entry_ok_empty e : e_Data e = [] → entry_ok e.
Proof. intros H _. rewrite H. constructor. Qed.

(** What holds of every node, stopped or not. *)
Record sound (n : Node) : Prop := {
  so_core : core_wf (n_core n);
  so_data : ∀ e, e ∈ c_log (n_core n) → entry_ok e;
  so_term : 0 ≤ c_currentTerm (n_core n);
  so_leases : leases_ok (n_leases n)
}.

(** The driver marked entries applied, or compacted the log. *)
Record core_kept (c c' : Core) : Prop := {
  ck_role : c_role c' = c_role c;
  ck_term : c_currentTerm c' = c_currentTerm c;
  ck_commit : c_commitIndex c' = c_commitIndex c;
  ck_last : lastIndex c' = lastIndex c;
  ck_snapshot : c_snapshotIndex c ≤ c_snapshotIndex c';
  ck_entries : ∀ i, c_snapshotIndex c' < i → EntryAt c' i = EntryAt c i
}.

Lemma core_kept_refl c : core_kept c c.
Proof. by constructor. Qed.

Lemma core_kept_trans c c1 c2 : core_kept c c1 → core_kept c1 c2 → core_kept c c2.
Proof.
  intros [A1 A2 A3 A4 A5 A6] [B1 B2 B3 B4 B5 B6]. constructor; try congruence; [lia|].
  intros i Hi. rewrite B6, A6 by lia. done.
Qed.

Lemma core_kept_applied c a : core_kept c (c <| c_appliedIndex := a |>).
Proof. by constructor. Qed.

Lemma wf_set_applied c a : core_wf c → a ≤ c_commitIndex c → core_wf (c <| c_appliedIndex := a |>).
Proof. intros [] Ha. by constructor. Qed.

Lemma Compact_origin c n c' b e : Compact c n = Ok (c', b) → e ∈ c_log c' → e ∈ c_log c ∨ e_Data e = [].
Proof.
  unfold Compact. case_if; [intros [= <- _]; auto|]. destruct (ConfigAt c n) as [cfg i].
  intros H He. apply bind_Ok_inv in H as (t & _ & H). apply bind_Ok_inv in H as (rest & Hr & H).
  assert (c' = compact_to c n (e_Term t) cfg rest) as -> by congruence.
  destruct (compact_to_fields c n (e_Term t) cfg rest) as (Hl & _). rewrite Hl in He.
  apply elem_of_cons in He as [->|He]; [by right|left].
  unfold log_slice in Hr. case_match; [done|]. apply Ok_inj in Hr. rewrite <- Hr in He.
  by apply subseteq_take, subseteq_drop in He.
Qed.

(** ** Taking a snapshot *)

Record quietly (n n' : Node) : Prop := {
  qu_sound : sound n → sound n';
  qu_core : core_kept (n_core n) (n_core n');
  qu_marked : c_appliedIndex (n_core n') = c_appliedIndex (n_core n);
  qu_machine : machine_of n' = machine_of n;
  qu_applied : n_appliedIndex n' = n_appliedIndex n;
  qu_fatal : n_fatal n' = n_fatal n;
  qu_waiters : n_waiters n' = n_waiters n;
  qu_replies : n_replies n' = n_replies n;
  qu_reads : reads_kept n n'
}.

Lemma quietly_trans n n1 n2 : quietly n n1 → quietly n1 n2 → quietly n n2.
Proof.
  intros [] []. constructor; try congruence; [auto|by eapply core_kept_trans|by eapply reads_kept_trans].
Qed.

Lemma quietly_still n n' : still n n' → quietly n n'.
Proof.
  intros []. constructor; try done; [|rewrite sti_core; apply core_kept_refl|congruence].
  intros []. constructor; rewrite ?sti_core, ?(rk_leases _ _ sti_reads); done.
Qed.

Lemma quietly_channels n n' : quietly n n' → channels n' = channels n.
Proof. intros []. apply channels_eq; [done..|apply qu_reads0]. Qed.

Lemma snapshot_step_quietly {E} n (r : Node * result E ()) k :
  quietly n r.1 → (∀ n1, quietly n n1 → ∃ n', k n1 = Ok n' ∧ quietly n n') →
  ∃ n', snapshot_step r k = Ok n' ∧ quietly n n'.
Proof.
  intros Hr Hk. destruct r as [n1 [u|e]]; cbn in *.
  - apply Hk. by eapply quietly_trans; [|apply quietly_still, still_fsync].
  - eexists. split; [done|]. by eapply quietly_trans; [|apply quietly_still, still_fsync].
Qed.

Lemma quietly_compact n c' b i :
  sound n → Compact (n_core n) i = Ok (c', b) → quietly n (n <| n_core := c' |>).
Proof.
  intros [Hwf Hd Ht Hls] Hc. destruct (compact_transparent (n_core n) i Hwf) as (c1 & b1 & Hc1 & Hi & Hb).
  rewrite Hc in Hc1. apply Ok_inj in Hc1. injection Hc1 as <- <-.
  destruct b; [|subst c'; by apply quietly_still]. apply proj1 in Hi. specialize (Hi eq_refl).
  destruct Hb as [B1 B2 (B3 & B4 & B5) B6 _ _ (B7 & B8 & _)]. constructor; try done.
  - intros _. constructor; [done| |cbn; lia|done]. intros e He. destruct (Compact_origin _ _ _ _ e Hc He); [auto|by apply entry_ok_empty].
  - constructor; cbn; try done; [lia|by rewrite B2].
Qed.

Lemma quietly_reaffirm n : quietly n (node_reaffirm n).1.
Proof. unfold node_reaffirm. destruct (Reaffirm _) as [st r]. by apply quietly_still. Qed.

Lemma snapshotWriteVersion_ok n : snapshotWriteVersion n = 1 ∨ snapshotWriteVersion n = 2.
Proof. unfold snapshotWriteVersion. case_if; auto. Qed.

Lemma maybeSnapshot_spec n : sound n → ∃ n', maybeSnapshot n = Ok n' ∧ quietly n n'.
Proof.
  intros Hs. unfold maybeSnapshot. case_if; [exists n; by split; [|apply quietly_still]|].
  unfold Create, Encode. assert ((snapshotWriteVersion n <? MinReadVersion) || (SnapFormatVersion <? snapshotWriteVersion n) = false) as ->
    by (by destruct (snapshotWriteVersion_ok n) as [-> | ->]). cbn [mbind result_bind].
  set (n1 := note_fsync _ _ _). assert (Hn1 : quietly n n1) by (by apply quietly_still). clearbody n1.
  apply snapshot_step_quietly; [eapply quietly_trans; [done|apply quietly_still, still_wal]|]. intros n2 Hn2.
  assert (Hs2 : sound n2) by (by apply Hn2).
  destruct (compact_transparent (n_core n2) (n_appliedIndex n) (so_core _ Hs2)) as (c' & b & Hc & _). rewrite Hc.
  cbn [run_core mbind result_bind]. pose proof (quietly_compact _ _ _ _ Hs2 Hc) as Hn3.
  apply snapshot_step_quietly.
  { eapply quietly_trans; [exact Hn2|]. eapply quietly_trans; [exact Hn3|]. eapply quietly_trans; [apply quietly_still, still_storage|apply quietly_reaffirm]. }
  intros n3 Hn3'. apply snapshot_step_quietly; [eapply quietly_trans; [done|apply quietly_still, still_wal]|].
  intros n4 Hn4. eexists. split; [done|]. eapply quietly_trans; [done|by apply quietly_still].
Qed.

(** ** Applying entries *)

(** Nothing but what the driver does with entries that are committed. *)
Record settles (n n' : Node) : Prop := {
  se_sound : sound n → sound n';
  se_core : core_kept (n_core n) (n_core n');
  se_fatal : n_fatal n ≠ None → n_fatal n' ≠ None;
  se_waiters : n_waiters n' ⊆ n_waiters n;
  se_channels : channels n' ≡ₚ channels n;
  se_cfg : n_cfg n' = n_cfg n;
  se_reads : reads_from n n'
}.

Lemma settles_trans n n1 n2 : settles n n1 → settles n1 n2 → settles n n2.
Proof.
  intros [] []. constructor; [auto|by eapply core_kept_trans|auto|by etrans|by etrans|congruence|by eapply reads_from_trans].
Qed.

Lemma settles_quietly n n' : quietly n n' → settles n n'.
Proof.
  intros H. pose proof (quietly_channels _ _ H) as Hc. destruct H.
  constructor; [done|done|congruence|by rewrite qu_waiters0|by rewrite Hc|apply qu_reads0|].
  apply reads_from_same; [apply qu_reads0|lia|done].
Qed.

Lemma settles_refl n : settles n n.
Proof. by apply settles_quietly, quietly_still. Qed.

Lemma SetApplied_kept c i : core_kept c (SetApplied c i).
Proof. unfold SetApplied. case_if; [apply core_kept_applied|apply core_kept_refl]. Qed.

Lemma SetApplied_sound n n' i :
  n_core n' = SetApplied (n_core n) i → reads_kept n n' → i ≤ c_commitIndex (n_core n) → sound n → sound n'.
Proof.
  intros Hc Hk Hi [H1 H2 H3 H4]. rewrite <- (rk_leases _ _ Hk) in H4. unfold SetApplied in Hc.
  destruct (_ <? _); [|constructor; by rewrite ?Hc]. constructor; rewrite ?Hc; [by apply wf_set_applied|done..].
Qed.

Lemma resolve_waiters n i rid o : n_waiters (resolveWaiter n i rid o) ⊆ n_waiters n.
Proof. unfold resolveWaiter. case_match; [|done]. case_match; cbn; apply delete_subseteq. Qed.

Lemma applied_by_settles e n n' :
  applied_by e n n' → n_appliedIndex n < e_Index e ≤ c_commitIndex (n_core n) → settles n n'.
Proof.
  intros [(d & _ & Hd) Ha Hc Hf Hr] [Hlt Hi]. constructor.
  - by eapply SetApplied_sound.
  - rewrite Hc. apply SetApplied_kept.
  - congruence.
  - destruct d as [[rid o]|]; destruct Hd as [-> _]; [apply resolve_waiters|done].
  - destruct d as [[rid o]|]; destruct Hd as [Hw Hp].
    + rewrite <- (channels_resolve n (e_Index e) rid o). rewrite (channels_eq (resolveWaiter n (e_Index e) rid o) n'); [done..|].
      destruct (resolve_frame n (e_Index e) rid o) as (_ & _ & _ & _ & Hk). rewrite (rk_reads _ _ Hr). by rewrite (rk_reads _ _ Hk).
    + rewrite (channels_eq n n'); [done..|apply Hr].
  - apply Hr.
  - destruct d as [[rid o]|]; destruct Hd as [_ Hp]; [|apply reads_from_same; [apply Hr|lia|done]].
    destruct (resolve_replies n (e_Index e) rid o) as (rs & Hrs & Hall).
    apply (reads_from_answers n n' rs); [apply Hr|lia|congruence|done].
Qed.

Lemma halted_settles i n n' : halted i n n' → n_appliedIndex n < i ≤ c_commitIndex (n_core n) → settles n n'.
Proof.
  intros [Hf Hc Hw Hrp Hap Hch Hr] [Hlt Hi]. constructor; [|destruct Hc as [-> | ->]; [apply core_kept_refl|apply SetApplied_kept]|done|
    by rewrite Hw|by rewrite Hch|apply Hr|apply reads_from_same; [apply Hr|destruct Hap; lia|done]].
  destruct Hc as [Hc|Hc]; [intros []; constructor; rewrite ?Hc, ?(rk_leases _ _ Hr); done|by eapply SetApplied_sound].
Qed.

(** The machine after a run of consecutive entries. *)
Definition replayed (es : list Entry) (n n' : Node) : Prop :=
  entries_from (n_appliedIndex n) es → n_appliedIndex n = c_appliedIndex (n_core n) →
  replays (machine_of n) es = Some (machine_of n') ∧ n_appliedIndex n' = n_appliedIndex n + zlen es ∧
  n_appliedIndex n' = c_appliedIndex (n_core n').

Lemma apply_entries_spec es n :
  (∀ e, e ∈ es → entry_ok e ∧ e_Index e ≤ c_commitIndex (n_core n)) →
  ∃ n' ok, apply_entries n es = Ok (n', ok) ∧ settles n n' ∧ reads_kept n n' ∧
    if ok : bool then n_fatal n' = n_fatal n ∧ replayed es n n' else n_fatal n' ≠ None.
Proof.
  revert n. induction es as [|e es IH]; intros n He; cbn [apply_entries].
  { exists n, true. split; [done|]. split; [apply settles_refl|]. split; [done|]. split; [done|].
    intros _ H. split; [done|]. rewrite zlen_nil. split; [lia|done]. }
  destruct (He e) as [Hok Hc]; [left|].
  assert (∃ n1 ok, applyEntry n e = Ok (n1, ok) ∧ settles n n1 ∧ reads_kept n n1 ∧
    if ok : bool then n_fatal n1 = n_fatal n ∧ (n_appliedIndex n < e_Index e → applied_by e n n1) else n_fatal n1 ≠ None)
    as (n1 & ok & -> & Hs & Hr & Hn1).
  { destruct (Z.leb_spec (e_Index e) (n_appliedIndex n)) as [Hle|Hlt].
    - exists n, true. unfold applyEntry. rewrite (proj2 (Z.leb_le (e_Index e) (n_appliedIndex n))) by done.
      split; [done|]. split; [apply settles_refl|]. split; [done|]. split; [done|lia].
    - destruct (applyEntry_spec n e) as (n1 & ok & Hn1 & H); [done..|]. exists n1, ok. split; [done|]. destruct ok.
      + split; [by apply (applied_by_settles e)|]. split; [apply H|]. split; [apply H|done].
      + split; [by apply (halted_settles (e_Index e))|]. split; apply H. }
  cbn [mbind result_bind]. destruct ok; cbn [negb]; [|exists n1, false; done]. destruct Hn1 as [Hf1 Hn1].
  destruct (IH n1) as (n2 & ok & -> & Hs2 & Hr2 & H2).
  { intros x Hx. rewrite (ck_commit _ _ (se_core _ _ Hs)). apply He. by right. }
  exists n2, ok. split; [done|]. split; [by eapply settles_trans|]. split; [by eapply reads_kept_trans|].
  destruct ok; [|done]. destruct H2 as [Hf2 H2]. split; [congruence|]. intros Hes Hap.
  assert (e_Index e = n_appliedIndex n + 1) as Hi by (rewrite (Hes O e) by done; lia).
  destruct (Hn1 ltac:(lia)) as [(d & Hd & _) A1 A2 _ _].
  destruct H2 as (R1 & R2 & R3).
  { rewrite A1, Hi. by eapply entries_from_tail. }
  { rewrite A1, A2. unfold SetApplied. rewrite (proj2 (Z.ltb_lt (c_appliedIndex (n_core n)) (e_Index e))) by lia. done. }
  cbn [replays]. rewrite Hd. cbn [mbind option_bind]. split; [done|]. rewrite zlen_cons. split; [lia|done].
Qed.

(** ** Committed entries *)

Section between.
Context (c : Core) (lo hi : Z).
Context (Hwf : core_wf c) (Hlo : c_snapshotIndex c ≤ lo) (Hhi : hi ≤ lastIndex c).

Lemma entries_between_lookup k :
  (k < Z.to_nat (hi - lo))%nat → entries_between c lo hi !! k = c_log c !! (Z.to_nat (lo + 1 - c_snapshotIndex c) + k)%nat.
Proof. intros Hk. unfold entries_between. rewrite lookup_take_lt by done. by rewrite lookup_drop. Qed.

Lemma entries_between_length : length (entries_between c lo hi) = Z.to_nat (hi - lo).
Proof.
  unfold entries_between. rewrite length_take, length_drop. destruct (wf_log_cons c Hwf) as (s & es & Hl).
  rewrite (lastIndex_cons c s es Hl) in Hhi. rewrite Hl. cbn [length]. lia.
Qed.

Lemma entries_between_from : entries_from lo (entries_between c lo hi).
Proof.
  intros k e He. pose proof (lookup_lt_Some _ _ _ He) as Hk. rewrite entries_between_length in Hk.
  rewrite entries_between_lookup in He by done. rewrite (wf_indexed c Hwf _ _ He). lia.
Qed.

Lemma entries_between_EntryAt i :
  lo < i ≤ hi → EntryAt c i = entries_between c lo hi !! Z.to_nat (i - lo - 1).
Proof.
  intros Hi. rewrite entries_between_lookup by lia. unfold EntryAt. rewrite (proj2 (Z.leb_gt i (c_snapshotIndex c))) by lia.
  unfold pos. destruct (wf_log_cons c Hwf) as (s & es & Hl). pose proof (lastIndex_cons c s es Hl) as Hlast.
  rewrite (proj2 (Z.ltb_ge (i - c_snapshotIndex c) 0)) by lia. cbn [orb].
  destruct (Z.leb_spec (zlen (c_log c)) (i - c_snapshotIndex c)) as [Hx|_].
  { exfalso. rewrite Hl in Hx. unfold zlen in Hx. cbn [length] in Hx. lia. }
  f_equal. lia.
Qed.
End between.

Lemma entries_between_elem c lo hi e : e ∈ entries_between c lo hi → e ∈ c_log c.
Proof. unfold entries_between. intros He. by apply subseteq_take, subseteq_drop in He. Qed.

(** The entries an output hands over end at the commit index. *)
Record delivers (lo : Z) (n : Node) (es : list Entry) : Prop := {
  de_range : c_snapshotIndex (n_core n) ≤ lo ≤ c_commitIndex (n_core n);
  de_entries : es = entries_between (n_core n) lo (c_commitIndex (n_core n))
}.

Lemma delivers_ok lo n es :
  sound n → delivers lo n es → ∀ e, e ∈ es → entry_ok e ∧ e_Index e ≤ c_commitIndex (n_core n).
Proof.
  intros [Hwf Hd _ _] [Hr ->] e He. split; [by eapply Hd, entries_between_elem|].
  pose proof (wf_commit _ Hwf). apply list_elem_of_lookup in He as [k Hk]. pose proof (lookup_lt_Some _ _ _ Hk) as Hlt.
  rewrite entries_between_length in Hlt by (done || lia).
  pose proof (entries_between_from (n_core n) lo (c_commitIndex (n_core n)) Hwf ltac:(lia) ltac:(lia) _ _ Hk).
  lia.
Qed.

Lemma delivers_nil n : sound n → delivers (c_commitIndex (n_core n)) n [].
Proof.
  intros [Hwf _ _ _]. pose proof (wf_commit _ Hwf). constructor; [lia|by rewrite entries_between_nil].
Qed.

Lemma delivers_none lo n : sound n → delivers lo n [] → lo = c_commitIndex (n_core n).
Proof.
  intros [Hwf _ _ _] [Hr He]. pose proof (wf_commit _ Hwf).
  pose proof (entries_between_length (n_core n) lo (c_commitIndex (n_core n)) Hwf ltac:(lia) ltac:(lia)) as Hl.
  rewrite <- He in Hl. cbn in Hl. lia.
Qed.

(** ** Advancing *)

(** Between two states the entries [es] were applied, once and in the order of
    their indices, and they are the entries of the log. *)
Record advances (n : Node) (es : list Entry) (n' : Node) : Prop := {
  ad_machine : replays (machine_of n) es = Some (machine_of n');
  ad_indices : entries_from (n_appliedIndex n) es;
  ad_applied : n_appliedIndex n' = n_appliedIndex n + zlen es;
  ad_snapshot : c_snapshotIndex (n_core n) ≤ c_snapshotIndex (n_core n');
  ad_old : ∀ i, c_snapshotIndex (n_core n') < i ≤ n_appliedIndex n → EntryAt (n_core n') i = EntryAt (n_core n) i;
  ad_new : ∀ i, c_snapshotIndex (n_core n') < i → n_appliedIndex n < i ≤ n_appliedIndex n' →
    EntryAt (n_core n') i = es !! Z.to_nat (i - n_appliedIndex n - 1)
}.

Lemma entries_from_app b es es' : entries_from b es → entries_from (b + zlen es) es' → entries_from b (es ++ es').
Proof.
  intros H1 H2 i e He. apply lookup_app_Some in He as [He|[Hi He]]; [by apply H1|].
  rewrite (H2 _ _ He). unfold zlen. lia.
Qed.

Lemma advances_trans n es n1 es' n2 : advances n es n1 → advances n1 es' n2 → advances n (es ++ es') n2.
Proof.
  intros [A1 A2 A3 A4 A5 A6] [B1 B2 B3 B4 B5 B6]. pose proof (zlen_nonneg es). constructor.
  - rewrite replays_app, A1. done.
  - apply entries_from_app; [done|]. by rewrite <- A3.
  - rewrite zlen_app. lia.
  - lia.
  - intros i Hi. rewrite B5, A5 by lia. done.
  - intros i Hs Hi. destruct (decide (i ≤ n_appliedIndex n1)).
    + rewrite B5, A6 by lia. rewrite lookup_app_l; [done|]. unfold zlen in *. lia.
    + rewrite B6 by lia. rewrite lookup_app_r by (unfold zlen in *; lia). f_equal. unfold zlen in *. lia.
Qed.

(** A change that applies nothing. *)
Lemma advances_none n n' :
  machine_of n' = machine_of n → n_appliedIndex n' = n_appliedIndex n →
  c_snapshotIndex (n_core n) ≤ c_snapshotIndex (n_core n') →
  (∀ i, c_snapshotIndex (n_core n') < i ≤ n_appliedIndex n → EntryAt (n_core n') i = EntryAt (n_core n) i) →
  advances n [] n'.
Proof. intros H1 H2 H3 H4. constructor; [by rewrite H1|intros i e [=]|by rewrite zlen_nil, H2; lia|done|done|lia]. Qed.

(** ** Between two events *)

(** Waiters belong to a leader and to entries of its log; [down]: it has just
    lost the leadership and is about to answer them. *)
Definition waiters_ok (down : bool) (n : Node) : Prop :=
  ∀ i w, n_waiters n !! i = Some w → down = true ∨ c_role (n_core n) = Leader ∧ i ≤ lastIndex (n_core n).

(** Everything committed is applied. *)
Record synced (down : bool) (n : Node) : Prop := {
  sy_marked : n_appliedIndex n = c_appliedIndex (n_core n);
  sy_applied : n_appliedIndex n = c_commitIndex (n_core n);
  sy_waiters : waiters_ok down n
}.

(** A change of neither the core, the machine nor the history. *)
Record steady (n n' : Node) : Prop := {
  sd_core : n_core n' = n_core n;
  sd_machine : machine_of n' = machine_of n;
  sd_applied : n_appliedIndex n' = n_appliedIndex n;
  sd_fatal : n_fatal n' = n_fatal n;
  sd_waiters : n_waiters n' ⊆ n_waiters n;
  sd_channels : channels n' ≡ₚ channels n;
  sd_cfg : n_cfg n' = n_cfg n;
  sd_leases : leases_ok (n_leases n) → leases_ok (n_leases n');
  sd_reads : reads_from n n'
}.

(** A change of fields that [steady] does not see. *)
Ltac steady_frame := constructor; try done; by apply reads_from_same.

Lemma steady_trans n n1 n2 : steady n n1 → steady n1 n2 → steady n n2.
Proof. intros [] []. constructor; try congruence; [by etrans|by etrans|auto|by eapply reads_from_trans]. Qed.

Lemma steady_still n n' : still n n' → steady n n'.
Proof.
  intros H. pose proof (still_channels _ _ H) as Hc.
  constructor; [apply H..|by rewrite (sti_waiters _ _ H)|by rewrite Hc|apply H| |].
  - by rewrite (rk_leases _ _ (sti_reads _ _ H)).
  - apply reads_from_same; [apply H|rewrite (sti_applied _ _ H); lia|apply H].
Qed.

Lemma steady_sound n n' : steady n n' → sound n → sound n'.
Proof. intros H []. constructor; rewrite ?(sd_core _ _ H); [done..|by apply H]. Qed.

Lemma steady_settles n n' : steady n n' → settles n n'.
Proof.
  intros H. constructor; [by apply steady_sound|rewrite (sd_core _ _ H); apply core_kept_refl|by rewrite (sd_fatal _ _ H)|apply H..].
Qed.

Lemma steady_waiters d n n' : steady n n' → waiters_ok d n → waiters_ok d n'.
Proof. intros H Hw i w Hi. rewrite (sd_core _ _ H). eapply Hw. by eapply lookup_weaken; [|apply H]. Qed.

Lemma steady_synced d n n' : steady n n' → synced d n → synced d n'.
Proof.
  intros H [H1 H2 H3]. constructor; [..|by eapply steady_waiters]; rewrite (sd_applied _ _ H), (sd_core _ _ H); done.
Qed.

Lemma steady_advances n n' : steady n n' → advances n [] n'.
Proof. intros H. apply advances_none; [apply H|apply H|by rewrite (sd_core _ _ H)|intros; by rewrite (sd_core _ _ H)]. Qed.

Lemma steady_delivers n n' lo es : steady n n' → delivers lo n es → delivers lo n' es.
Proof. intros H [H1 H2]. constructor; by rewrite (sd_core _ _ H). Qed.

Lemma steady_lose n : steady n (lose_leadership n).
Proof.
  constructor; try done; [apply map_empty_subseteq|apply (channels_flush ErrLeadershipLost n)|].
  eapply reads_from_answers; [done|done|done|]. apply Forall_fmap, Forall_true. done.
Qed.

Lemma check_read_frame n pr :
  n_core (check_read n pr) = n_core n ∧ machine_of (check_read n pr) = machine_of n ∧
  n_appliedIndex (check_read n pr) = n_appliedIndex n ∧ n_fatal (check_read n pr) = n_fatal n ∧
  n_waiters (check_read n pr) = n_waiters n ∧ n_cfg (check_read n pr) = n_cfg n ∧
  (leases_ok (n_leases n) → leases_ok (n_leases (check_read n pr))).
Proof. unfold check_read. repeat case_match; repeat (split; [done|]); try done. apply ReleaseLease_ok. Qed.

Lemma check_reads_frame prs n :
  let n' := foldl check_read n prs in
  n_core n' = n_core n ∧ machine_of n' = machine_of n ∧ n_appliedIndex n' = n_appliedIndex n ∧
  n_fatal n' = n_fatal n ∧ n_waiters n' = n_waiters n ∧ n_cfg n' = n_cfg n ∧ (leases_ok (n_leases n) → leases_ok (n_leases n')).
Proof.
  cbv zeta. revert n. induction prs as [|pr prs IH]; intros n; [done|]. cbn [foldl].
  destruct (check_read_frame n pr) as (<- & <- & <- & <- & <- & <- & Hl).
  destruct (IH (check_read n pr)) as (I1 & I2 & I3 & I4 & I5 & I6 & I7). repeat (split; [done|]). auto.
Qed.

Lemma steady_checkPendingReads n : steady n (checkPendingReads n).
Proof.
  pose proof (channels_checkPendingReads n) as Hc. unfold checkPendingReads in *.
  destruct (check_reads_frame (n_pendingReads n) (n <| n_pendingReads := [] |>)) as (H1 & H2 & H3 & H4 & H5 & H6 & H7).
  constructor; try done; [by rewrite H5|apply checkPendingReads_reads].
Qed.

(** Committed entries applied, and the waiters answered after a loss of
    leadership. *)
Lemma settle_spec down d lo n es :
  sound n → delivers lo n es →
  ∃ n1, applyCommitted n es = Ok n1 ∧
    let n' := if down : bool then lose_leadership n1 else n1 in
    settles n n' ∧
    (n_fatal n' = None → lo = n_appliedIndex n → n_appliedIndex n = c_appliedIndex (n_core n) →
     waiters_ok (d || down) n → synced d n' ∧ advances n es n').
Proof.
  intros Hs Hd. destruct (apply_entries_spec es n) as (n1 & ok & Ha & Hse & _ & Hn1); [by eapply delivers_ok|].
  unfold applyCommitted. rewrite Ha. cbn [mbind result_bind].
  assert (∃ n2, (if negb ok then Ok n1 else maybeSnapshot n1) = Ok n2 ∧ settles n n2 ∧
    (n_fatal n2 = None → replayed es n n2)) as (n2 & -> & Hs2 & Hn2).
  { destruct ok; cbn [negb]; [|by exists n1]. destruct (maybeSnapshot_spec n1) as (n2 & -> & Hq); [by apply Hse|].
    exists n2. split; [done|]. split; [by eapply settles_trans, settles_quietly|]. destruct Hn1 as [_ Hn1].
    intros _ He Hm. destruct (Hn1 He Hm) as (R1 & R2 & R3). destruct Hq. split; [congruence|]. split; congruence. }
  exists n2. split; [done|]. cbv zeta.
  assert (Hst : steady n2 (if down then lose_leadership n2 else n2)) by (destruct down; [apply steady_lose|by apply steady_still]).
  split; [by eapply settles_trans, steady_settles|]. rewrite (sd_fatal _ _ Hst). intros Hf -> Hm Hw.
  pose proof (wf_commit _ (so_core _ Hs)) as Hc. destruct Hd as [Hlo ->]. set (c := n_core n) in *.
  pose proof (entries_between_length c (n_appliedIndex n) (c_commitIndex c) (so_core _ Hs) ltac:(lia) ltac:(lia)) as Hlen.
  pose proof (entries_between_from c (n_appliedIndex n) (c_commitIndex c) (so_core _ Hs) ltac:(lia) ltac:(lia)) as Hfrom.
  destruct (Hn2 Hf Hfrom Hm) as (R1 & R2 & R3). destruct (se_core _ _ Hs2) as [K1 K2 K3 K4 K5 K6].
  assert (Ha2 : n_appliedIndex n2 = c_commitIndex c) by (rewrite R2; unfold zlen; rewrite Hlen; lia). split.
  - constructor; [by rewrite (sd_applied _ _ Hst), (sd_core _ _ Hst)|by rewrite (sd_applied _ _ Hst), (sd_core _ _ Hst), K3|].
    intros i w Hi. rewrite (sd_core _ _ Hst), K1, K4. destruct down; [change ((∅ : gmap Z waiter) !! i = Some w) in Hi; by rewrite lookup_empty in Hi|].
    destruct (Hw i w) as [Hx|Hx]; [by eapply lookup_weaken; [|apply Hs2]| |by right]. left. by rewrite orb_false_r in Hx.
  - rewrite <- (app_nil_r (entries_between _ _ _)). eapply advances_trans; [|by apply steady_advances].
    constructor; [done|done|done|done|intros; apply K6; lia|]. intros i Hi Hr. rewrite K6 by lia. fold c.
    apply (entries_between_EntryAt c (n_appliedIndex n)); [apply Hs|lia..].
Qed.

(** ** Processing an output *)

(** What holds after a handler of any node; its log grows by at most [k]
    entries of its own. *)
Record evolves (k : Z) (n n' : Node) : Prop := {
  ev_sound : sound n';
  ev_last : lastIndex (n_core n') ≤ lastIndex (n_core n) + k;
  ev_fatal : n_fatal n ≠ None → n_fatal n' ≠ None;
  ev_channels : channels n' ≡ₚ channels n;
  ev_cfg : n_cfg n' = n_cfg n;
  ev_reads : reads_from n n'
}.

Lemma evolves_trans j k n n1 n2 : evolves j n n1 → evolves k n1 n2 → evolves (j + k) n n2.
Proof. intros [] []. constructor; [done|lia|auto|by etrans|congruence|by eapply reads_from_trans]. Qed.

Lemma evolves_settles n n' : sound n → settles n n' → evolves 0 n n'.
Proof. intros Hs []. constructor; [auto|rewrite (ck_last _ _ se_core0); lia|done..]. Qed.

(** A running node that is handed an output whose entries start where it
    stopped, and what it is afterwards if it still runs. *)
Definition prepared (d down : bool) (lo : Z) (n : Node) : Prop :=
  lo = n_appliedIndex n ∧ n_appliedIndex n = c_appliedIndex (n_core n) ∧ waiters_ok (d || down) n.
Definition kept_up (d : bool) (n n' : Node) : Prop :=
  n_fatal n' = None → synced d n' ∧ ∃ es, advances n es n'.

Lemma kept_up_steady d n n1 n2 : kept_up d n n1 → steady n1 n2 → kept_up d n n2.
Proof.
  intros H Hs Hf. rewrite (sd_fatal _ _ Hs) in Hf. destruct (H Hf) as [H1 [es H2]].
  split; [by eapply steady_synced|]. exists (es ++ []). by eapply advances_trans, steady_advances.
Qed.

(** Timers and messages. *)
Lemma steady_transmit n out : steady n (foldl transmit (arm_timers n out) (out_Messages out)).
Proof. apply steady_still. eapply still_trans; [apply still_timers|apply still_transmits]. Qed.

Lemma nsafe_core_eq {A} (r : result raft_panic A) (P Q : A → Prop) :
  safe r P → (∀ a, r = Ok a → P a → Q a) → nsafe (run_core r) Q.
Proof. intros H HQ. apply nsafe_core. destruct r; [by apply HQ|done]. Qed.

Section process.
Context (intn : Z → Z).

(** An output that asks for nothing. *)
Lemma process_plain fuel d lo n out :
  sound n → delivers lo n (out_CommittedEntries out) → out_PersistRequest out = None → out_BecameLeader out = false →
  ∃ n', process_output intn (S fuel) n out = Ok n' ∧ settles n n' ∧
    (prepared d (out_SteppedDown out) lo n → kept_up d n n').
Proof.
  intros Hs Hd Hp Hl. cbn [process_output]. unfold take_output. rewrite Hp, Hl. cbn [mbind result_bind negb].
  pose proof (steady_transmit n out) as Ht. set (n1 := foldl transmit _ _) in *. clearbody n1.
  destruct (settle_spec (out_SteppedDown out) d lo n1 (out_CommittedEntries out)) as (n2 & -> & Hse & H2);
    [by eapply steady_sound|by eapply steady_delivers|]. cbn [mbind result_bind negb]. cbv zeta in *.
  set (n3 := if out_SteppedDown out then lose_leadership n2 else n2) in *. eexists. split; [done|].
  split; [eapply settles_trans; [by apply steady_settles|]; eapply settles_trans; [done|apply steady_settles, steady_checkPendingReads]|].
  intros (-> & Hm & Hw). eapply kept_up_steady; [|apply steady_checkPendingReads]. intros Hf.
  destruct H2 as [H2 H3]; [done|by rewrite (sd_applied _ _ Ht)|by rewrite (sd_applied _ _ Ht), (sd_core _ _ Ht)|by eapply steady_waiters|].
  split; [done|]. eexists. eapply advances_trans; [by apply steady_advances|done].
Qed.

(** A step of the core, as its driver sees it. *)
Lemma step_handed n i c' out :
  sound n → step_post (n_core n) (c', out) → driver_view (input_entries (n_core n) i) (n_core n) c' out →
  (∀ e, e ∈ input_entries (n_core n) i → entry_ok e) →
  sound (n <| n_core := c' |>) ∧ delivers (c_commitIndex (n_core n)) (n <| n_core := c' |>) (out_CommittedEntries out).
Proof.
  intros [Hwf Hd Ht Hls] [P1 P2 P3 [E1 E2 E3 E4 E5]] [V1 _ _ _] Hi. cbn [fst snd] in *. pose proof (wf_commit _ Hwf). split.
  - constructor; [done| |cbn; lia|done]. intros e He. destruct (V1 e He) as [Hx|[Hx|Hx]]; [auto|auto|by apply entry_ok_empty].
  - constructor; [cbn; lia|done].
Qed.

(** The same step on a running node. *)
Lemma step_prepared n i c' out :
  sound n → synced false n → step_post (n_core n) (c', out) → driver_view (input_entries (n_core n) i) (n_core n) c' out →
  prepared false (out_SteppedDown out) (c_commitIndex (n_core n)) (n <| n_core := c' |>) ∧ advances n [] (n <| n_core := c' |>).
Proof.
  intros [Hwf Hd Ht _] [Y1 Y2 Y3] [P1 P2 P3 P4] [_ _ _ V4]. pose proof P4 as [E1 E2 E3 E4 E5]. cbn [fst snd] in *. split.
  - split; [done|]. split; [cbn; congruence|]. intros j w Hj. destruct (Y3 j w Hj) as [Hx|[Hr Hle]]; [done|].
    cbn in *. destruct (V4 Hr) as [[V5 V6]|[_ V5]]; [right; split; [done|lia]|by left].
  - apply advances_none; [done|done|cbn; lia|]. intros j Hj. eapply committed_entry; [done|done|done|lia].
Qed.

Lemma ack_step n seq c' ack :
  sound n → Step intn (n_core n) (InputPersistenceComplete seq) = Ok (c', ack) →
  step_post (n_core n) (c', ack) ∧ drives (n_core n) no_output c' ack.
Proof.
  intros Hs H. split; [|by eapply handlePersistenceComplete_drive].
  pose proof (Step_result intn (n_core n) (InputPersistenceComplete seq) (so_core _ Hs) I) as Hr. by rewrite H in Hr.
Qed.

(** The node after the acknowledgement, before its output is processed. *)
Lemma ack_prepared d down n seq c' ack :
  sound n → waiters_ok (d || down) n → n_appliedIndex n = c_appliedIndex (n_core n) →
  n_appliedIndex n = c_commitIndex (n_core n) →
  Step intn (n_core n) (InputPersistenceComplete seq) = Ok (c', ack) →
  prepared (d || down) (out_SteppedDown ack) (c_commitIndex (n_core n)) (n <| n_core := c' |>) ∧
  advances n [] (n <| n_core := c' |>).
Proof.
  intros Hs Hw Hm Ha H. destruct (ack_step n seq c' ack Hs H) as [[P1 P2 P3 P4] Hd].
  pose proof (drives_lastIndex _ _ _ _ Hd) as Hl. destruct Hd as [_ _ _ _ D5]. pose proof P4 as [E1 E2 E3 E4 E5]. cbn [fst snd] in *.
  split; [split; [done|split; [cbn; congruence|]]|].
  - intros j w Hj. destruct (Hw j w Hj) as [->|[Hr Hle]]; [by left|]. cbn. destruct D5 as [D5|(_ & _ & ->)];
      [right; split; [congruence|lia]|left; apply orb_true_r].
  - apply advances_none; [done|done|cbn; lia|]. intros j Hj. eapply committed_entry; [apply Hs|done|done|lia].
Qed.

(** The durable part of an output. *)
Lemma persist_spec fuel d down n pr :
  sound n →
  nsafe (persist_output intn (process_output intn (S fuel)) n pr) (λ '(n', ok),
    evolves 0 n n' ∧
    if ok : bool then
      waiters_ok (d || down) n → n_appliedIndex n = c_appliedIndex (n_core n) →
      n_appliedIndex n = c_commitIndex (n_core n) → kept_up (d || down) n n'
    else n_fatal n' ≠ None).
Proof.
  intros Hs. unfold persist_output. destruct (ApplyPersistRequest (Some pr) (n_storage n)) as [st r].
  assert (Hst : steady n (n <| n_storage := st |>)) by (by apply steady_still). set (n1 := n <| n_storage := st |>) in *. clearbody n1.
  assert (Hs1 : sound n1) by (by eapply steady_sound). pose proof (evolves_settles n n1 Hs (steady_settles _ _ Hst)) as He1. destruct r as [u|e].
  2: { cbn [nsafe]. assert (Hne : n_fatal (node_fail (n1 <| n_health := mkHealth (h_failures (n_health n1)) true |>) (FatalPersist e)) ≠ None)
         by (cbn; by destruct (n_fatal n1)). split; [|done].
       destruct He1 as [[]]. constructor; [by constructor|done..]. }
  apply nsafe_bind. eapply nsafe_core_eq; [by apply Step_result; [apply Hs1|]|]. intros [c' ack] Hstep _. destruct (ack_step n1 (pr_Seq pr) c' ack Hs1 Hstep) as [Hp Hd]. apply nsafe_bind.
  destruct (step_handed n1 (InputPersistenceComplete (pr_Seq pr)) c' ack Hs1 Hp (drives_view _ _ _ _ Hd)) as [Hs2 Hd2];
    [intros e He; by apply elem_of_nil in He|].
  destruct (process_plain fuel (d || down) (c_commitIndex (n_core n1)) (n1 <| n_core := c' |>) ack) as (n2 & -> & Hse & Hk);
    [done|done|apply Hd|apply Hd|]. cbn [nsafe]. split.
  - assert (evolves 0 n1 (n1 <| n_core := c' |>)) as He2.
    { constructor; [done|rewrite <- (drives_lastIndex _ _ _ _ Hd); cbn; lia|done|done|done|by apply reads_from_same]. }
    pose proof (evolves_trans _ _ _ _ _ He1 (evolves_trans _ _ _ _ _ He2 (evolves_settles _ _ Hs2 Hse))). done.
  - intros Hw Hm Ha Hf. rewrite <- (sd_applied _ _ Hst), <- (sd_core _ _ Hst) in Hm, Ha.
    destruct (ack_prepared d down n1 (pr_Seq pr) c' ack Hs1) as [Hpr Had]; [by eapply steady_waiters|done..|].
    destruct (Hk Hpr Hf) as [Hy [es Hes]]. split; [done|]. exists ([] ++ ([] ++ es)).
    eapply advances_trans; [by apply steady_advances|]. by eapply advances_trans.
Qed.

(** Everything before a new leader's own entry. *)
Lemma take_output_spec fuel d lo n out :
  sound n → delivers lo n (out_CommittedEntries out) →
  (out_PersistRequest out ≠ None → out_CommittedEntries out = []) →
  nsafe (take_output intn (process_output intn (S fuel)) n out) (λ '(n', ok),
    evolves 0 n n' ∧
    if ok : bool then prepared d (out_SteppedDown out) lo n → kept_up d n n' else n_fatal n' ≠ None).
Proof.
  intros Hs Hd Hp. unfold take_output. pose proof (steady_transmit n out) as Ht. set (n1 := foldl transmit _ _) in *. clearbody n1.
  assert (Hs1 : sound n1) by (by eapply steady_sound). assert (Hd1 : delivers lo n1 (out_CommittedEntries out)) by (by eapply steady_delivers).
  pose proof (evolves_settles n n1 Hs (steady_settles _ _ Ht)) as He1. apply nsafe_bind.
  destruct (out_PersistRequest out) as [pr|].
  2: { cbn [nsafe negb]. destruct (settle_spec (out_SteppedDown out) d lo n1 (out_CommittedEntries out)) as (n2 & -> & Hse & H2); [done..|].
       cbn [mbind result_bind nsafe]. cbv zeta in *. set (n3 := if out_SteppedDown out then lose_leadership n2 else n2) in *.
       split; [pose proof (evolves_trans _ _ _ _ _ He1 (evolves_settles _ _ Hs1 Hse)); done|].
       intros (-> & Hm & Hw) Hf. destruct H2 as [H2 H3]; [done|by rewrite (sd_applied _ _ Ht)|
         by rewrite (sd_applied _ _ Ht), (sd_core _ _ Ht)|by eapply steady_waiters|].
       split; [done|]. eexists. eapply advances_trans; [by apply steady_advances|done]. }
  rewrite (Hp ltac:(done)) in *. pose proof (delivers_none lo n Hs Hd) as Hlo.
  eapply nsafe_mono; [apply (persist_spec fuel d (out_SteppedDown out) n1 pr Hs1)|]. intros [n2 ok] [He2 H2].
  pose proof (evolves_trans _ _ _ _ _ He1 He2) as He. destruct ok; cbn [negb nsafe]; [|done].
  destruct (settle_spec (out_SteppedDown out) d (c_commitIndex (n_core n2)) n2 []) as (n3 & -> & Hse & H3); [apply He2|by apply delivers_nil, He2|].
  cbn [mbind result_bind nsafe]. cbv zeta in *. set (n4 := if out_SteppedDown out then lose_leadership n3 else n3) in *.
  split; [pose proof (evolves_trans _ _ _ _ _ He (evolves_settles _ _ (ev_sound _ _ _ He2) Hse)); done|].
  intros (-> & Hm & Hw) Hf. assert (Hf2 : n_fatal n2 = None) by (destruct (n_fatal n2) eqn:E; [|done]; by destruct (se_fatal _ _ Hse); rewrite ?E).
  destruct H2 as [[Y1 Y2 Y3] [es Hes]]; [by eapply steady_waiters|by rewrite (sd_applied _ _ Ht), (sd_core _ _ Ht)|
    by rewrite (sd_applied _ _ Ht), (sd_core _ _ Ht), <- Hlo|done|].
  destruct H3 as [H3 H4]; [done|done|done|done|]. split; [done|]. eexists.
  eapply advances_trans; [by apply steady_advances|]. by eapply advances_trans.
Qed.

(** An output that makes no leader. *)
Lemma process_quiet fuel d lo n out :
  sound n → delivers lo n (out_CommittedEntries out) →
  (out_PersistRequest out ≠ None → out_CommittedEntries out = []) → out_BecameLeader out = false →
  nsafe (process_output intn (S (S fuel)) n out) (λ n',
    evolves 0 n n' ∧ (prepared d (out_SteppedDown out) lo n → kept_up d n n')).
Proof.
  intros Hs Hd Hp Hl. change (process_output intn (S (S fuel)) n out) with
    ('(n, ok) ← take_output intn (process_output intn (S fuel)) n out;
     if negb ok then Ok n else
     n ← (if out_BecameLeader out then proposeElectionNoOp intn (process_output intn (S fuel)) n else Ok n);
     Ok (checkPendingReads n)). rewrite Hl.
  apply nsafe_bind. eapply nsafe_mono; [by apply (take_output_spec fuel d lo)|]. intros [n1 ok] [He H1].
  destruct ok; cbn [negb mbind result_bind nsafe]; [|by split].
  pose proof (steady_checkPendingReads n1) as Hc.
  split; [pose proof (evolves_trans _ _ _ _ _ He (evolves_settles _ _ (ev_sound _ _ _ He) (steady_settles _ _ Hc))); done|].
  intros Hpr. by eapply kept_up_steady; [apply H1|].
Qed.

(** ** Steps of the core *)

(** A step that installs no snapshot: the outputs are handed over. *)
Lemma step_view n i :
  sound n → input_ok (n_core n) i → installs (n_core n) i = None → (∀ e, e ∈ input_entries (n_core n) i → entry_ok e) →
  safe (Step intn (n_core n) i) (λ '(c', out),
    sound (n <| n_core := c' |>) ∧ delivers (c_commitIndex (n_core n)) (n <| n_core := c' |>) (out_CommittedEntries out) ∧
    driver_view (input_entries (n_core n) i) (n_core n) c' out ∧
    (synced false n → prepared false (out_SteppedDown out) (c_commitIndex (n_core n)) (n <| n_core := c' |>) ∧
       advances n [] (n <| n_core := c' |>))).
Proof.
  intros Hs Hok Hi He. pose proof (Step_result intn (n_core n) i (so_core _ Hs) Hok) as H. unfold step_result in H. rewrite Hi in H.
  destruct (Step intn (n_core n) i) as [[c' out]|p] eqn:E; [|done]. cbn [safe] in *.
  pose proof (Step_view intn _ _ _ _ (so_core _ Hs) Hok E) as Hv.
  destruct (step_handed n i c' out Hs H Hv He) as [H1 H2]. split; [done|]. split; [done|]. split; [done|].
  intros Hy. by eapply step_prepared.
Qed.

(** A proposal that appended one entry. *)
Record proposed (n : Node) (t : EntryType) (data : bytes) (c' : Core) (out : Output) : Prop := {
  pp_sound : sound (n <| n_core := c' |>);
  pp_delivers : delivers (c_commitIndex (n_core n)) (n <| n_core := c' |>) (out_CommittedEntries out);
  pp_request : ∃ seq, out_PersistRequest out = Some (mkPersistRequest seq None 0 [leader_entry (n_core n) t data]);
  pp_empty : out_CommittedEntries out = [];
  pp_leader : out_BecameLeader out = false;
  pp_role : c_role c' = Leader;
  pp_last : lastIndex c' = lastIndex (n_core n) + 1;
  pp_prepared : synced false n →
    prepared false (out_SteppedDown out) (c_commitIndex (n_core n)) (n <| n_core := c' |>) ∧ advances n [] (n <| n_core := c' |>)
}.

Lemma appended_proposed n t data c' out :
  sound n → c_role (n_core n) = Leader → lastIndex (n_core n) + 2 < 2 ^ 64 → (t = EntryConfig → is_Some (established data)) →
  entry_ok (leader_entry (n_core n) t data) → appendLeaderEntry (n_core n) t data = Ok (c', out) → proposed n t data c' out.
Proof.
  intros Hs Hr Hb Ht He H. destruct (appendLeaderEntry_post (n_core n) t data (so_core _ Hs) Hr Hb Ht) as (r & Hr' & Hp & Ha & Hpr).
  destruct (appendLeaderEntry_flags _ _ _ _ _ H) as (F1 & F2 & F3). rewrite H in Hr'. apply Ok_inj in Hr'. subst r.
  cbn [fst snd] in *. pose proof Hp as [P1 P2 P3 P4]. pose proof P4 as [E1 E2 E3 E4 E5]. cbn [fst snd] in *.
  pose proof (appended_lastIndex _ _ _ Ha) as Hl. destruct Hs as [Hwf Hd Htm Hls]. pose proof (wf_commit _ Hwf). constructor; try done.
  - constructor; [done| |cbn; lia|done]. cbn. rewrite (ap_log _ _ _ Ha). intros e Hx. apply elem_of_app in Hx as [Hx|Hx]; [by apply Hd|].
    by apply list_elem_of_singleton in Hx as ->.
  - constructor; [cbn; lia|done].
  - rewrite E4, (ap_commit _ _ _ Ha). apply entries_between_nil.
  - apply Ha.
  - intros [Y1 Y2 Y3]. split.
    + split; [done|]. split; [cbn; congruence|]. intros i w Hi. right. split; [apply Ha|]. destruct (Y3 i w Hi) as [?|[_ ?]]; [done|]. cbn. lia.
    + apply advances_none; [done|done|cbn; lia|]. intros i Hi. eapply committed_entry; [done|done|done|lia].
Qed.

Lemma propose_spec n data :
  sound n → lastIndex (n_core n) + 2 < 2 ^ 64 → wf_bytes data →
  safe (Step intn (n_core n) (InputPropose data)) (λ '(c', out),
    if out_ProposalRejected out then c' = n_core n else proposed n EntryNormal data c' out).
Proof.
  intros Hs Hb Hd. pose proof (Step_result intn (n_core n) (InputPropose data) (so_core _ Hs) Hb) as H.
  destruct (Step intn (n_core n) (InputPropose data)) as [[c' out]|p] eqn:E; [|done]. clear H. cbn [safe Step] in *.
  unfold handlePropose in E. case_bool_decide as Hr; cbn [negb] in E.
  - destruct (appendLeaderEntry_flags _ _ _ _ _ E) as (_ & _ & ->). apply appended_proposed; try done. by intros _.
  - apply Ok_inj in E. by injection E as <- <-.
Qed.

Lemma evolves_proposed n t data c' out n' :
  proposed n t data c' out → evolves 0 (n <| n_core := c' |>) n' → evolves 1 n n'.
Proof. intros [] []. constructor; try done. cbn in *. lia. Qed.

(** Processing the output of a proposal. *)
Lemma proposed_process fuel n t data c' out :
  proposed n t data c' out →
  nsafe (process_output intn (S (S fuel)) (n <| n_core := c' |>) out) (λ n',
    evolves 1 n n' ∧ (synced false n → kept_up false n n')).
Proof.
  intros Hp. eapply nsafe_mono; [apply (process_quiet fuel false (c_commitIndex (n_core n))); [apply Hp|apply Hp|by rewrite (pp_empty _ _ _ _ _ Hp)|apply Hp]|].
  intros n' [He Hk]. split; [by eapply evolves_proposed|]. intros Hy Hf.
  destruct (pp_prepared _ _ _ _ _ Hp Hy) as [Hpr Ha]. destruct (Hk Hpr Hf) as [H1 [es H2]].
  split; [done|]. exists ([] ++ es). by eapply advances_trans.
Qed.

(** ** A new leader *)

Lemma dec_put_wf k v : wf_bytes (dec_put k v).
Proof.
  revert v. induction k as [|k IH]; intros v; [constructor|]. cbn [dec_put]. apply Forall_app_2; [apply IH|].
  apply Forall_singleton. unfold is_byte. pose proof (Z.mod_pos_bound v 10). lia.
Qed.

Lemma election_noop_wf n : wf_bytes (nc_ID (n_cfg n)) → wf_bytes (EncodeCommitTxn (election_noop n)).
Proof.
  intros H. apply encode_commit_bytes; [|constructor]. unfold election_noop. cbn [c_RequestID].
  constructor; [done|]. apply Forall_app_2; [by apply wf_bytes_compute|]. constructor; [done|].
  apply Forall_app_2; [done|]. constructor; [done|apply dec_put_wf].
Qed.

Lemma evolves_refl n : sound n → evolves 0 n n.
Proof. intros H. apply evolves_settles; [done|apply settles_refl]. Qed.

Lemma evolves_weaken j k n n' : evolves j n n' → j ≤ k → evolves k n n'.
Proof. intros [] H. constructor; [done|lia|done..]. Qed.

Lemma synced_kept_up d n : synced d n → kept_up d n n.
Proof. intros H _. split; [done|]. exists []. by apply steady_advances, steady_still. Qed.

Lemma core_id n : n <| n_core := n_core n |> = n.
Proof. by destruct n. Qed.

Lemma noop_spec fuel n :
  sound n → lastIndex (n_core n) + 2 < 2 ^ 64 → wf_bytes (nc_ID (n_cfg n)) →
  nsafe (proposeElectionNoOp intn (process_output intn (S (S fuel))) n) (λ n',
    evolves 1 n n' ∧ (synced false n → kept_up false n n')).
Proof.
  intros Hs Hb Hid. unfold proposeElectionNoOp. assert (Hself : evolves 1 n n ∧ (synced false n → kept_up false n n)).
  { split; [by eapply evolves_weaken; [apply evolves_refl|]|apply synced_kept_up]. }
  destruct (Precheck (n_fsm n) (election_noop n)) as [o|[]]; try exact Hself.
  apply nsafe_bind, nsafe_core. eapply safe_mono; [apply propose_spec; [done|done|by apply election_noop_wf]|].
  intros [c' out] H. destruct (out_ProposalRejected out); [subst c'; rewrite core_id; exact Hself|].
  by eapply proposed_process.
Qed.

(** ** [processOutput] *)

Lemma processOutput_spec lo n out :
  sound n → delivers lo n (out_CommittedEntries out) →
  (out_PersistRequest out ≠ None → out_CommittedEntries out = []) →
  (out_BecameLeader out = true → lastIndex (n_core n) + 2 < 2 ^ 64) → wf_bytes (nc_ID (n_cfg n)) →
  nsafe (processOutput intn n out) (λ n',
    evolves (if out_BecameLeader out then 1 else 0) n n' ∧ (prepared false (out_SteppedDown out) lo n → kept_up false n n')).
Proof.
  intros Hs Hd Hp Hl Hid. unfold processOutput. destruct (out_BecameLeader out) eqn:El; [|by apply (process_quiet 1 false lo)].
  change (process_output intn 3 n out) with ('(n, ok) ← take_output intn (process_output intn 2) n out;
     if negb ok then Ok n else
     n ← (if out_BecameLeader out then proposeElectionNoOp intn (process_output intn 2) n else Ok n);
     Ok (checkPendingReads n)). rewrite El.
  apply nsafe_bind. eapply nsafe_mono; [by apply (take_output_spec 1 false lo)|]. intros [n1 ok] [He H1].
  destruct ok; cbn [negb nsafe]; [|split; [by eapply evolves_weaken|by intros _ Hf]].
  apply nsafe_bind. eapply nsafe_mono; [apply (noop_spec 0); [apply He|pose proof (ev_last _ _ _ He); specialize (Hl eq_refl); lia|
    by rewrite (ev_cfg _ _ _ He)]|].
  intros n2 [He2 H2]. cbn [nsafe]. pose proof (steady_checkPendingReads n2) as Hc. split.
  - pose proof (evolves_trans _ _ _ _ _ (evolves_trans _ _ _ _ _ He He2)
      (evolves_settles _ _ (ev_sound _ _ _ He2) (steady_settles _ _ Hc))). done.
  - intros Hpr. eapply kept_up_steady; [|exact Hc]. intros Hf.
    assert (Hf1 : n_fatal n1 = None) by (destruct (n_fatal n1) eqn:E; [|done]; by destruct (ev_fatal _ _ _ He2); rewrite ?E).
    destruct (H1 Hpr Hf1) as [Y1 [es1 A1]]. destruct (H2 Y1 Hf) as [Y2 [es2 A2]].
    split; [done|]. eexists. by eapply advances_trans.
Qed.
End process.
