(* ===== verification/NodeEvents.v ===== *)
(** * One event of a node

    What each handler of the event loop does: it leaves a running node in order
    or stops it, the machine advances by committed entries or is replaced by a
    snapshot, and the request the event carries is registered or answered. *)

From Stdlib Require Import String.
From S2P Require Import Prelude Bytes Hash Scrub Mvcc FsmCommand Fsm FsmSnapshot RaftTypes RaftMembership RaftMembershipSpec RaftCore RaftInv RaftSpec WalRecord Wal Storage StorageSpec RaftPersist RaftDriver Snapshot SnapshotSpec Leases Admission NodePressure Node NodeInv NodeRun.

(** ** Inputs of the core *)

Lemma echo_seq_frame i out :
  out_CommittedEntries (echo_seq i out) = out_CommittedEntries out ∧
  out_PersistRequest (echo_seq i out) = out_PersistRequest out ∧
  out_BecameLeader (echo_seq i out) = out_BecameLeader out ∧
  out_SteppedDown (echo_seq i out) = out_SteppedDown out.
Proof. unfold echo_seq. destruct i; try done. by case_match. Qed.

Lemma steady_note_ack n i : steady n (note_ack n i).
Proof. unfold note_ack. destruct i; try by apply steady_still. case_match; [steady_frame|by apply steady_still]. Qed.

Lemma steady_recordPeerGeneration n p g : steady n (recordPeerGeneration n p g).
Proof. unfold recordPeerGeneration. case_match; by apply steady_still. Qed.

(** A handler: what it does to any node, and to a running one. *)
Definition handles (k : Z) (n n' : Node) : Prop := evolves k n n' ∧ (synced false n → kept_up false n n').

Lemma handles_trans j k n n1 n2 : handles j n n1 → handles k n1 n2 → handles (j + k) n n2.
Proof.
  intros [E1 H1] [E2 H2]. split; [by eapply evolves_trans|]. intros Hy Hf.
  assert (Hf1 : n_fatal n1 = None) by (destruct (n_fatal n1) eqn:E; [|done]; by destruct (ev_fatal _ _ _ E2); rewrite ?E).
  destruct (H1 Hy Hf1) as [Y1 [es1 A1]]. destruct (H2 Y1 Hf) as [Y2 [es2 A2]]. split; [done|]. eexists. by eapply advances_trans.
Qed.

Lemma handles_steady n n' : sound n → steady n n' → handles 0 n n'.
Proof.
  intros Hs Hst. split; [by apply evolves_settles, steady_settles|]. intros Hy.
  eapply kept_up_steady; [by apply synced_kept_up|done].
Qed.

Lemma handles_weaken j k n n' : handles j n n' → j ≤ k → handles k n n'.
Proof. intros [H1 H2] Hle. split; [by eapply evolves_weaken|done]. Qed.

(** An input and the entries it brings. *)
Record input_fits (n : Node) (i : Input) : Prop := {
  if_ok : input_ok (n_core n) i;
  if_entries : ∀ e, e ∈ input_entries (n_core n) i → entry_ok e;
  if_room : lastIndex (n_core n) + 2 < 2 ^ 64;
  if_id : wf_bytes (nc_ID (n_cfg n))
}.

Lemma input_fits_steady n n' i : steady n n' → input_fits n i → input_fits n' i.
Proof. intros Hs [H1 H2 H3 H4]. constructor; by rewrite ?(sd_core _ _ Hs), ?(sd_cfg _ _ Hs). Qed.

Lemma node_step_spec intn g n i :
  sound n → input_fits n i → installs (n_core n) i = None →
  (∀ c' out, Step intn (n_core n) i = Ok (c', out) → lastIndex c' ≤ lastIndex (n_core n) + g) →
  nsafe (node_step intn n i) (handles (g + 1) n).
Proof.
  intros Hs Hf Hi Hg. unfold node_step. pose proof (steady_note_ack n i) as Ha. set (n1 := note_ack n i) in *. clearbody n1.
  assert (Hs1 : sound n1) by (by eapply steady_sound). pose proof (input_fits_steady _ _ _ Ha Hf) as [F1 F2 F3 F4].
  rewrite <- (sd_core _ _ Ha) in Hi, Hg. apply nsafe_bind.
  eapply nsafe_core_eq; [by apply step_view|]. intros [c' out] Hstep (H1 & H2 & H3 & H4).
  destruct (echo_seq_frame i out) as (X1 & X2 & X3 & X4). set (out' := echo_seq i out) in *. clearbody out'.
  eapply nsafe_mono; [apply (processOutput_spec intn (c_commitIndex (n_core n1)) (n1 <| n_core := c' |>) out'); [done|by rewrite X1| | |done]|].
  { rewrite X1, X2. apply H3. }
  { rewrite X3. intros Hl. destruct (dv_leader _ _ _ _ H3 Hl) as (_ & _ & L1 & L2). unfold lastIndex in *. cbn. by rewrite L1, L2. }
  intros n2 [He Hk]. apply (handles_trans 0 (g + 1) n n1); [by apply handles_steady|]. split.
  - destruct He as [E1 E2 E3 E4 E5]. pose proof (Hg _ _ Hstep). constructor; try done. cbn in E2. destruct (out_BecameLeader out'); lia.
  - intros Hy Hfa. destruct (H4 Hy) as [Hpr Had]. rewrite X4 in Hk. destruct (Hk Hpr Hfa) as [Hy2 [es Hes]].
    split; [done|]. exists ([] ++ es). by eapply advances_trans.
Qed.

(** Timeouts leave the log alone. *)
Lemma timeout_last intn c i c' out :
  i = InputElectionTimeout ∨ i = InputHeartbeatTimeout → Step intn c i = Ok (c', out) → lastIndex c' = lastIndex c.
Proof.
  intros [-> | ->] H; cbn [Step] in H.
  - revert H. unfold handleElectionTimeout. case_bool_decide; [by intros [= <- _]|]. cbv zeta. case_if; [by intros [= <- _]|].
    set (c0 := become_candidate _). assert (Hc0 : lastIndex c0 = lastIndex c) by done. clearbody c0.
    destruct (persist_hard_state_flags c0 no_output) as (P1 & P2 & _).
    destruct (persist_hard_state c0 no_output) as [c1 o1]. cbn [fst] in *.
    assert (Hc1 : lastIndex c1 = lastIndex c) by (rewrite <- Hc0; unfold lastIndex; by rewrite P1, P2).
    set (o2 := request_votes _ _). clearbody o2. case_if; [|intros Hx; apply Ok_inj in Hx; by injection Hx as <- _].
    destruct (becomeLeader_spec c1 o2) as (x & y & msgs & -> & _). intros Hx. apply Ok_inj in Hx.
    assert (c' = _) as -> by (exact (eq_sym (f_equal fst Hx))). exact Hc1.
  - revert H. unfold handleHeartbeatTimeout. case_if; [by intros [= <- _]|]. intros H.
    by apply broadcast_drive, drives_lastIndex in H.
Qed.

(** ** Requests *)

(** The handler of a request with result channel [ch], of a read if it names a
    lease. *)
Record takes (ch : Z) (read : option Z) (n n' : Node) : Prop := {
  tk_sound : sound n';
  tk_fatal : n_fatal n ≠ None → n_fatal n' ≠ None;
  tk_cfg : n_cfg n' = n_cfg n;
  tk_channels : synced false n → channels n' ≡ₚ ch :: channels n;
  tk_running : synced false n → kept_up false n n';
  tk_reads : ∀ Q, (∀ id, read = Some id → Q ch id (lastIndex (n_core n))) → reads_in Q n → reads_in Q n'
}.

Lemma channels_answer ch r n : channels (answer_on ch r n) ≡ₚ ch :: channels n.
Proof. unfold channels, answer_on. cbn. rewrite fmap_app. cbn. solve_Permutation. Qed.

Lemma synced_answer ch r n : synced false n → synced false (answer_on ch r n).
Proof. intros []. by constructor. Qed.

Lemma takes_answer ch rd r n : sound n → (∀ x, r ≠ ReadReply (Ok x)) → takes ch rd n (answer_on ch r n).
Proof.
  intros Hs Hr. constructor; [by destruct Hs|done|done|intros _; apply channels_answer| |].
  - intros Hy _. split; [by apply synced_answer|]. exists []. by apply advances_none.
  - intros Q _. apply (reads_from_answers n _ [(ch, r)]); [done|done|done|]. by apply Forall_singleton.
Qed.

(** Requests are registered beside the machine. *)
Record beside (n n' : Node) : Prop := {
  be_core : n_core n' = n_core n;
  be_machine : machine_of n' = machine_of n;
  be_applied : n_appliedIndex n' = n_appliedIndex n;
  be_fatal : n_fatal n' = n_fatal n;
  be_cfg : n_cfg n' = n_cfg n
}.

(** The channel is taken first, then the rest is handled. *)
Lemma takes_handles ch id k n n1 n' :
  beside n n1 → (synced false n → channels n1 ≡ₚ ch :: channels n ∧ synced false n1) →
  (∀ Q : Z → Z → Z → Prop, Q ch id (lastIndex (n_core n)) → reads_in Q n → reads_in Q n1) →
  handles k n1 n' → takes ch (Some id) n n'.
Proof.
  intros [B1 B2 B3 B4 B5] H1 HQ [He Hk]. constructor.
  - apply He.
  - intros Hf. apply He. congruence.
  - by rewrite (ev_cfg _ _ _ He).
  - intros Hy. destruct (H1 Hy) as [H2 _]. by rewrite (ev_channels _ _ _ He).
  - intros Hy Hf. destruct (H1 Hy) as [_ Hy1]. destruct (Hk Hy1 Hf) as [Hy2 [es Hes]]. split; [done|]. exists ([] ++ es).
    eapply advances_trans; [|done]. apply advances_none; [done|done|by rewrite B1|by rewrite B1].
  - intros Q Hn Hq. apply (ev_reads _ _ _ He), HQ; [by apply Hn|done].
Qed.

Section handlers.
Context (intn : Z → Z).

Lemma await_spec n t data c' out rid ch :
  proposed n t data c' out →
  nsafe (await intn (n <| n_core := c' |>) out rid ch) (takes ch None n).
Proof.
  intros Hp. unfold await. destruct (pp_request _ _ _ _ _ Hp) as [seq Hr]. rewrite Hr. cbn [pr_Entries].
  assert (Hi : e_Index (leader_entry (n_core n) t data) = lastIndex (n_core n) + 1) by done. set (e := leader_entry _ _ _) in *. clearbody e.
  set (n1 := n <| n_core := c' |> <| n_waiters := <[e_Index e := mkWaiter rid ch]> (n_waiters (n <| n_core := c' |>)) |>).
  pose proof (pp_sound _ _ _ _ _ Hp) as [S1 S2 S3 S4]. pose proof (pp_delivers _ _ _ _ _ Hp) as [D1 D2].
  eapply nsafe_mono; [apply (process_quiet intn 1 false (c_commitIndex (n_core n)) n1 out); [by constructor|by constructor|
    by rewrite (pp_empty _ _ _ _ _ Hp)|apply Hp]|]. intros n' [He Hk].
  assert (Hfresh : synced false n → n_waiters n !! e_Index e = None).
  { intros Hy. destruct (n_waiters n !! e_Index e) as [w|] eqn:E; [|done]. destruct (sy_waiters _ _ Hy _ _ E) as [?|[_ ?]]; [done|lia]. }
  constructor; [apply He|intros Hf; by apply He|apply He| | |].
  - intros Hy. rewrite (ev_channels _ _ _ He). unfold channels. cbn. rewrite waiting_insert by auto. cbn. solve_Permutation.
  - intros Hy Hf. destruct (pp_prepared _ _ _ _ _ Hp Hy) as [(P1 & P2 & P3) Ha].
    destruct (Hk) as [Hy2 [es Hes]]; [|done|].
    + split; [done|]. split; [done|]. intros i w Hw. change (<[e_Index e := mkWaiter rid ch]> (n_waiters n) !! i = Some w) in Hw.
      apply lookup_insert_Some in Hw as [[<- _]|[_ Hw]]; [|by eapply P3].
      right. split; [apply Hp|]. change (n_core n1) with c'. rewrite (pp_last _ _ _ _ _ Hp). lia.
    + split; [done|]. exists ([] ++ ([] ++ es)). eapply advances_trans; [exact Ha|]. eapply advances_trans; [|exact Hes]. by apply advances_none.
  - intros Q _ Hq. apply (ev_reads _ _ _ He). by apply (reads_from_same n n1).
Qed.

Lemma takes_refuse ch rd e n : sound n → nsafe (refuse ch e n) (takes ch rd n).
Proof. intros Hs. by apply takes_answer. Qed.

Lemma proposeAndAwait_spec n payload rid ch :
  sound n → lastIndex (n_core n) + 2 < 2 ^ 64 → wf_bytes payload → nsafe (proposeAndAwait intn n payload rid ch) (takes ch None n).
Proof.
  intros Hs Hb Hd. unfold proposeAndAwait. case_if; [by apply takes_refuse|]. case_if; [by apply takes_refuse|].
  apply nsafe_bind, nsafe_core. eapply safe_mono; [by apply propose_spec|]. intros [c' out] H.
  case_if; [subst c'; rewrite core_id; by apply takes_refuse|]. by eapply await_spec.
Qed.

Lemma handleReadIndex_spec n leaseID ch :
  sound n → lastIndex (n_core n) + 2 < 2 ^ 64 → wf_bytes (nc_ID (n_cfg n)) → nsafe (handleReadIndex intn n leaseID ch) (takes ch (Some leaseID) n).
Proof.
  intros Hs Hb Hid. unfold handleReadIndex. repeat (case_if; [by apply takes_answer|]). cbv zeta.
  set (n1 := (n <| n_leases := Register (n_leases n) leaseID (lastIndex (n_core n)) |>) <| n_pendingReads := n_pendingReads n ++ [mkPendingRead (c_currentTerm (n_core n))
    (lastIndex (n_core n)) (n_sentSeqCounter n) leaseID ch] |>).
  eapply nsafe_mono; [apply (node_step_spec intn 0 n1 InputHeartbeatTimeout); [destruct Hs; constructor; [done..|by apply Register_ok]|
    constructor; [done|intros e He; by apply elem_of_nil in He|done..]|done|]|].
  { intros c' out H. rewrite (timeout_last _ _ _ _ _ (or_intror eq_refl) H). lia. }
  intros n' Hh. eapply takes_handles; [..|exact Hh]; [done|intros []; split; [|by constructor]|].
  - unfold channels. cbn. rewrite fmap_app. cbn. solve_Permutation.
  - intros Q Hq [Q1 Q2]. split; [|exact Q2]. intros pr Hp. cbn in Hp. apply elem_of_app in Hp as [Hp|Hp]; [by apply Q1|].
    apply list_elem_of_singleton in Hp as ->. exact Hq.
Qed.

Lemma handleMembership_spec n kind rid tid taddr confirm ch :
  sound n → lastIndex (n_core n) + 2 < 2 ^ 64 → config_ok (c_activeConfig (n_core n)) → change_fits (n_core n) kind rid tid taddr →
  nsafe (handleMembership intn n kind rid tid taddr confirm ch) (takes ch None n).
Proof.
  intros Hs Hb Hc Hf. unfold handleMembership.
  assert (nsafe (match membership_refusal n kind tid confirm with
      | Some e => refuse ch e n
      | None =>
          '(core, r) ← run_core (ProposeConfigChange (n_core n) kind rid tid taddr);
          let n := n <| n_core := core |> in
          match r with
          | Err ErrNotLeader => refuse ch (NotLeaderError (c_leaderID (n_core n))) n
          | Err e => refuse ch (ErrMembership e) n
          | Ok out => await intn n out rid ch
          end
      end) (takes ch None n)) as Hgo.
  { destruct (membership_refusal n kind tid confirm); [by apply takes_refuse|].
    destruct (propose_config_change_appends (n_core n) kind rid tid taddr (so_core _ Hs) Hb Hc Hf) as (c' & r & -> & H).
    cbn [run_core mbind result_bind]. cbv zeta. destruct r as [out|e].
    - destruct H as (Hl & _ & _ & _ & new & data & _ & _ & _ & He & Ha).
      eapply await_spec, (appended_proposed n EntryConfig data); [done|done|done|by rewrite He|intros []; done|done].
    - subst c'. rewrite core_id. destruct e; by apply takes_refuse. }
  destruct (GetMembershipOutcome _ _ _ _ _) as [o|[]]; try exact Hgo; by apply takes_answer.
Qed.

(** ** The clock *)

Lemma gc_request_wf n w : wf_bytes (EncodeAdvanceGCWatermark (gc_command n w)).
Proof.
  apply encode_gc_bytes. unfold gc_command. cbn [gc_RequestID]. constructor; [done|].
  apply Forall_app_2; [by apply wf_bytes_compute|]. constructor; [done|]. apply Forall_app_2; [by apply wf_bytes_compute|].
  apply Forall_app_2; [apply dec_put_wf|]. constructor; [done|]. apply Forall_app_2; [by apply wf_bytes_compute|apply dec_put_wf].
Qed.

Lemma handles_here k n : sound n → 0 ≤ k → handles k n n.
Proof. intros Hs Hk. eapply handles_weaken; [by apply handles_steady, steady_still|done]. Qed.

(** A steady change, then a handler. *)
Lemma handles_after k n n1 r : sound n → steady n n1 → nsafe r (handles k n1) → nsafe r (handles k n).
Proof.
  intros Hs Hst Hr. eapply nsafe_mono; [exact Hr|]. intros n' H. apply (handles_trans 0 k n n1); [by apply handles_steady|done].
Qed.

Lemma steady_gc_watermark n : steady n (gc_watermark n).1.
Proof.
  unfold gc_watermark. pose proof (lease_Min_spec (n_leases n)) as H. destruct (lease_Min (n_leases n)) as [r m].
  constructor; try done; [intros Hl; by apply H|by apply reads_from_same].
Qed.

Lemma maybeProposeGC_spec n :
  sound n → lastIndex (n_core n) + 2 < 2 ^ 64 → nsafe (maybeProposeGC intn n) (handles 1 n).
Proof.
  intros Hs Hb. unfold maybeProposeGC. repeat (case_if; [by apply handles_here|]).
  assert (Hst : steady n (gc_watermark n).1) by by apply steady_gc_watermark.
  destruct (gc_watermark n) as [n1 [w|]]; cbn [fst] in Hst.
  2: { eapply handles_weaken; [by apply handles_steady|lia]. }
  assert (Hs1 : sound n1) by (by eapply steady_sound). eapply handles_after; [done|done|].
  apply nsafe_bind, nsafe_core. eapply safe_mono; [apply (propose_spec intn n1); [done|by rewrite (sd_core _ _ Hst)|apply gc_request_wf]|].
  intros [c' out] H. case_if; [subst c'; rewrite core_id; by apply handles_here|].
  destruct (pp_request _ _ _ _ _ H) as [seq Hr]. rewrite Hr. set (e := leader_entry _ _ _) in *.
  set (n2 := n1 <| n_gcProposalInFlight := true |> <| n_gcProposalIndex := e_Index e |>).
  assert (Hst2 : steady n1 n2) by steady_frame. assert (Hp2 : proposed n2 EntryNormal (EncodeAdvanceGCWatermark (gc_command n1 w)) c' out).
  { destruct H as [[X1 X2 X3 X0] [X4 X5] X6 X7 X8 X9 X10 X11]. constructor; try done.
    intros [Y1 Y2 Y3]. destruct X11 as [[X11 [X12 X13]] [Z1 Z2 Z3 Z4 Z5 Z6]]; [by constructor|]. split; [done|by constructor]. }
  eapply handles_after; [done|exact Hst2|]. exact (proposed_process intn 1 _ _ _ _ _ Hp2).
Qed.

Lemma handles_bind j k n (r : result node_panic Node) f :
  nsafe r (handles j n) → (∀ n1, handles j n n1 → nsafe (f n1) (handles k n1)) → nsafe (r ≫= f) (handles (j + k) n).
Proof.
  intros Hr Hf. apply nsafe_bind. eapply nsafe_mono; [exact Hr|]. intros n1 H1.
  eapply nsafe_mono; [by apply Hf|]. intros n2 H2. by eapply handles_trans.
Qed.

(** What a node needs to run: its identifier is bytes and its log has room. *)
Definition roomy (k : Z) (n : Node) : Prop := wf_bytes (nc_ID (n_cfg n)) ∧ lastIndex (n_core n) + k < 2 ^ 64.

Lemma roomy_handles j k n n1 : handles j n n1 → roomy (j + k) n → roomy k n1.
Proof. intros [[_ E2 _ _ E5] _] [H1 H2]. split; [by rewrite E5|lia]. Qed.

Lemma timeout_step n i :
  sound n → roomy 2 n → i = InputElectionTimeout ∨ i = InputHeartbeatTimeout → input_ok (n_core n) i →
  nsafe (node_step intn n i) (handles 1 n).
Proof.
  intros Hs [Hid Hb] Hi Hok. apply (node_step_spec intn 0); [done| |by destruct Hi as [-> | ->]|].
  - constructor; [done| |done|done]. intros e He. by destruct Hi as [-> | ->]; apply elem_of_nil in He.
  - intros c' out H. rewrite (timeout_last _ _ _ _ _ Hi H). lia.
Qed.

Lemma tick_election_spec n :
  sound n → roomy 2 n → c_currentTerm (n_core n) + 1 < 2 ^ 64 → nsafe (tick_election intn n) (handles 1 n).
Proof.
  intros Hs Hb Ht. unfold tick_election. case_if; [|by apply handles_here]. cbv zeta. case_if.
  - eapply (handles_after _ n (n <| n_electionTicksLeft := n_electionTicksLeft n - 1 |> <| n_electionArmed := false |>)); [done|steady_frame|].
    apply timeout_step; [by destruct Hs|done|by left|]. split; [apply Hs|done].
  - eapply (handles_weaken 0); [apply handles_steady; [done|steady_frame]|lia].
Qed.

Lemma tick_heartbeat_spec n : sound n → roomy 2 n → nsafe (tick_heartbeat intn n) (handles 1 n).
Proof.
  intros Hs Hb. unfold tick_heartbeat. case_if; [|by apply handles_here]. cbv zeta. case_if.
  - eapply (handles_after _ n (n <| n_heartbeatTicksLeft := n_heartbeatTicksLeft n - 1 |> <| n_heartbeatArmed := false |>)); [done|steady_frame|].
    apply timeout_step; [by destruct Hs|done|by right|done].
  - eapply (handles_weaken 0); [apply handles_steady; [done|steady_frame]|lia].
Qed.

Lemma tick_gc_spec n : sound n → roomy 2 n → nsafe (tick_gc intn n) (handles 1 n).
Proof.
  intros Hs [_ Hb]. unfold tick_gc. case_if; [|by apply handles_here]. cbv zeta. case_if.
  - eapply (handles_after _ n (n <| n_gcTicksLeft := n_gcTicksLeft n - 1 |> <| n_gcTicksLeft := n_gcIntervalTicks n |>)); [done|steady_frame|].
    apply maybeProposeGC_spec; [by destruct Hs|done].
  - eapply (handles_weaken 0); [apply handles_steady; [done|steady_frame]|lia].
Qed.

Lemma tick_resources_spec p n : sound n → roomy 2 n → nsafe (tick_resources intn p n) (handles 1 n).
Proof.
  intros Hs [_ Hb]. unfold tick_resources. cbv zeta. case_if.
  2: { eapply (handles_weaken 0); [apply handles_steady; [done|steady_frame]|lia]. }
  unfold node_checkResourcePressure. destruct (checkResourcePressure _ _ _ _ _) as [[st write] gc]. cbv zeta.
  match goal with |- nsafe (if gc then maybeProposeGC intn ?m else _) _ => set (n1 := m) end.
  assert (Hst : steady n n1) by steady_frame. destruct gc; [|eapply (handles_weaken 0); [by apply handles_steady|lia]].
  eapply handles_after; [done|exact Hst|]. apply maybeProposeGC_spec; [by destruct Hs|done].
Qed.

Lemma tick_spec p n :
  sound n → roomy 5 n → c_currentTerm (n_core n) + 1 < 2 ^ 64 → nsafe (tick intn p n) (handles 4 n).
Proof.
  intros Hs Hb Ht. unfold tick. apply (handles_bind 1 3).
  { apply tick_election_spec; [done| |done]. destruct Hb. split; [done|lia]. }
  intros n1 H1. pose proof (roomy_handles 1 4 _ _ H1 Hb) as R1. apply (handles_bind 1 2).
  { apply tick_heartbeat_spec; [apply H1|]. destruct R1. split; [done|lia]. }
  intros n2 H2. pose proof (roomy_handles 1 3 _ _ H2 R1) as R2. apply (handles_bind 1 1).
  { apply tick_gc_spec; [apply H2|]. destruct R2. split; [done|lia]. }
  intros n3 H3. apply tick_resources_spec; [apply H3|]. by apply (roomy_handles 1 2 _ _ H3).
Qed.

(** ** Messages *)

(** A message another node may send: within the machine's integers, its
    entries are bytes, and a snapshot is the one its header announces. *)
Record message_ok (m : Message) : Prop := {
  mo_ok : msg_ok m;
  mo_entries : ∀ e, e ∈ m_Entries m → entry_ok e;
  mo_data : wf_bytes (m_SnapshotData m);
  mo_snapshot : m_Type m = MsgInstallSnapshotRequest →
    ∀ s, Decode (m_SnapshotData m) = Ok s → LastIncludedIndex (snap_Meta s) = m_LastIncludedIndex m
}.

(** [n0] is [n] with its machine replaced by the snapshot of [m]. *)
Record installed (m : Message) (n n0 : Node) : Prop := {
  in_snapshot : ∃ s, Decode (m_SnapshotData m) = Ok s ∧ machine_of n0 = (snap_FSM s, f_clusterGeneration (snap_FSM s)) ∧
    n_appliedIndex n0 = LastIncludedIndex (snap_Meta s);
  in_request : m_Type m = MsgInstallSnapshotRequest ∧ c_currentTerm (n_core n) ≤ m_Term m;
  in_forward : n_appliedIndex n < n_appliedIndex n0;
  in_boundary : c_snapshotIndex (n_core n0) = n_appliedIndex n0
}.

Definition progress (m : option Message) (n n' : Node) : Prop :=
  (∃ es, advances n es n') ∨ ∃ msg n0 es, m = Some msg ∧ installed msg n n0 ∧ advances n0 es n'.

(** The handler of a message. *)
Record receives (m : option Message) (n n' : Node) : Prop := {
  rc_sound : sound n';
  rc_fatal : n_fatal n ≠ None → n_fatal n' ≠ None;
  rc_channels : channels n' ≡ₚ channels n;
  rc_cfg : n_cfg n' = n_cfg n;
  rc_running : synced false n → n_fatal n' = None → synced false n' ∧ progress m n n';
  rc_reads : synced false n → reads_from n n'
}.

Lemma handles_receives k m n n' : handles k n n' → receives m n n'.
Proof.
  intros [[E1 E2 E3 E4 E5 E6] Hk]. constructor; try done. intros Hy Hf. destruct (Hk Hy Hf) as [H1 H2]. split; [done|by left].
Qed.

Definition step_growth (n : Node) (i : Input) : Z :=
  match Step intn (n_core n) i with Ok (c', _) => lastIndex c' - lastIndex (n_core n) | Err _ => 0 end.

Lemma message_step n m :
  sound n → roomy 2 n → message_ok m → installs (n_core n) (InputMessage m) = None →
  nsafe (node_step intn n (InputMessage m)) (receives (Some m) n).
Proof.
  intros Hs [Hid Hb] [M1 M2 M3 _] Hi. eapply nsafe_mono; [apply (node_step_spec intn (step_growth n (InputMessage m))); [done|by constructor|done|]|].
  - intros c' out H. unfold step_growth. rewrite H. lia.
  - intros n' H. by eapply handles_receives.
Qed.

Lemma receives_after m n n1 r : steady n n1 → nsafe r (receives m n1) → nsafe r (receives m n).
Proof.
  intros Hst Hr. eapply nsafe_mono; [exact Hr|]. intros n' [R1 R2 R3 R4 R5 R6]. constructor; [done|..].
  - intros Hf. apply R2. by rewrite (sd_fatal _ _ Hst).
  - rewrite R3. apply Hst.
  - rewrite R4. apply Hst.
  - intros Hy Hf. destruct (R5 (steady_synced _ _ _ Hst Hy) Hf) as [Hy' Hp]. split; [done|]. destruct Hp as [[es He]|(msg & n0 & es & -> & Hin & He)].
    + left. exists ([] ++ es). eapply advances_trans; [by apply steady_advances|done].
    + right. exists msg, n0, es. split; [done|]. split; [|done]. destruct Hin as [I1 I2 I3 I4].
      rewrite (sd_core _ _ Hst) in I2. rewrite (sd_applied _ _ Hst) in I3. by constructor.
  - intros Hy. eapply reads_from_trans; [apply Hst|]. apply R6. by eapply steady_synced.
Qed.

(** The node's own half of an installation. *)
Lemma install_state_spec n s :
  match install_state n s with
  | (n', true) => n_core n' = n_core n ∧ machine_of n' = (snap_FSM s, f_clusterGeneration (snap_FSM s)) ∧
      n_appliedIndex n' = LastIncludedIndex (snap_Meta s) ∧ n_fatal n' = n_fatal n ∧ n_waiters n' = n_waiters n ∧
      channels n' = channels n ∧ reads_kept n n' ∧ n_replies n' = n_replies n
  | (n', false) => n_fatal n' ≠ None ∧ n_core n' = n_core n ∧ channels n' = channels n ∧ reads_kept n n' ∧
      n_replies n' = n_replies n ∧
      (n_appliedIndex n' = n_appliedIndex n ∨ n_appliedIndex n' = LastIncludedIndex (snap_Meta s))
  end.
Proof.
  unfold install_state. destruct (InstallSnapshot _ (n_storage n)) as [st [u|e]]; cbv zeta.
  2: { split; [cbn; by destruct (n_fatal n)|]. repeat (split; [done|]). by left. }
  set (n1 := _ <| n_appliedIndex := _ |>). set (g := f_clusterGeneration (snap_FSM s)).
  pose proof (adopt_spec n1 g) as A. destruct (adoptClusterGeneration n1 g) as [n2 [|]]; cbn [negb].
  - destruct A as [A1 [S1 S2 S3 S4 S5 S6 S7]]. unfold machine_of in *. cbn in *. split; [done|]. split; [done|].
    split; [done|]. split; [done|]. split; [done|]. split; [|by destruct S7; split]. apply (channels_eq n); [done..|apply S7].
  - destruct A as [[A1 _ A3 A4 _ A5 A6] [A7 A8]]. split; [done|]. split; [done|]. split; [done|]. split; [by destruct A6|].
    split; [done|]. by right.
Qed.

(** The core's half, on a node whose machine was replaced. *)
Lemma install_step n n1 m :
  sound n → roomy 2 n → message_ok m → installs (n_core n) (InputMessage m) = Some m →
  n_core n1 = n_core n → n_appliedIndex n1 = m_LastIncludedIndex m → reads_kept n n1 → n_waiters n1 = n_waiters n →
  nsafe (node_step intn n1 (InputMessage m)) (λ n',
    sound n' ∧ (n_fatal n1 ≠ None → n_fatal n' ≠ None) ∧ channels n' ≡ₚ channels n1 ∧ n_cfg n' = n_cfg n ∧
    reads_from n1 n' ∧
    (synced false n → n_fatal n' = None → synced false n' ∧
       ∃ n0 es, advances n0 es n' ∧ machine_of n0 = machine_of n1 ∧ n_appliedIndex n0 = n_appliedIndex n1 ∧
         c_commitIndex (n_core n) < n_appliedIndex n0 ∧ c_snapshotIndex (n_core n0) = n_appliedIndex n0)).
Proof.
  intros Hs [Hid Hb] [M1 M2 M3 _] Hi H1 H2 [H0 _ _ H3] H4. unfold node_step.
  pose proof (steady_note_ack n1 (InputMessage m)) as Ha. set (n2 := note_ack n1 (InputMessage m)) in *. clearbody n2.
  assert (Hc2 : n_core n2 = n_core n) by (by rewrite (sd_core _ _ Ha)). rewrite Hc2. apply nsafe_bind.
  eapply nsafe_core_eq; [apply (Step_result intn (n_core n) (InputMessage m)); [apply Hs|exact M1]|]. intros [c' out] Hstep Hr.
  unfold step_result in Hr. rewrite Hi in Hr. destruct Hr as [S1 S2 S3 S4 (B1 & _ & B3 & B4 & B5) _ S7]. cbn [fst snd] in *.
  pose proof (Step_view intn _ _ _ _ (so_core _ Hs) (M1 : input_ok (n_core n) (InputMessage m)) Hstep) as [V1 _ V3 V4].
  destruct (echo_seq_frame (InputMessage m) out) as (X1 & X2 & X3 & X4). set (out' := echo_seq _ out) in *. clearbody out'.
  set (n3 := n2 <| n_core := c' |>). assert (Hs3 : sound n3).
  { assert (c_currentTerm (n_core n) ≤ m_Term m) by (unfold installs in Hi; destruct (_ && _) eqn:E; [by bool_to_prop|done]).
    pose proof (so_term _ Hs). constructor; [done| |cbn; lia|apply Ha; rewrite H0; apply Hs]. intros e He.
    destruct (V1 e He) as [Hx|[Hx|Hx]]; [by apply Hs|by apply M2|by apply entry_ok_empty]. }
  eapply nsafe_mono; [apply (processOutput_spec intn (c_commitIndex c') n3 out'); [done|rewrite X1, S7; by apply (delivers_nil n3)|by rewrite X1, S7| |]|].
  { rewrite X3. intros Hl. destruct (V3 Hl) as (_ & _ & L1 & L2). unfold lastIndex in *. cbn. by rewrite L1, L2. }
  { cbn. by rewrite (sd_cfg _ _ Ha), H3. }
  intros n' [[E1 E2 E3 E4 E5 E6] Hk]. split; [done|]. split; [intros Hf; apply E3; cbn; by rewrite (sd_fatal _ _ Ha)|].
  split; [rewrite E4; apply (sd_channels _ _ Ha)|]. split; [rewrite E5; cbn; by rewrite (sd_cfg _ _ Ha)|].
  split; [eapply reads_from_trans; [apply Ha|]; eapply reads_from_trans; [|exact E6]; by apply reads_from_same|].
  intros [Y1 Y2 Y3] Hf. assert (Ha3 : n_appliedIndex n3 = m_LastIncludedIndex m) by (cbn; by rewrite (sd_applied _ _ Ha)).
  destruct Hk as [Hy [es Hes]]; [|done|].
  - split; [by rewrite Ha3|]. split; [by rewrite Ha3|]. intros i w Hw. apply (lookup_weaken _ (n_waiters n1)) in Hw; [|apply Ha].
    rewrite H4 in Hw. destruct (Y3 i w Hw) as [?|[Hr Hle]]; [done|]. destruct (V4 Hr) as [[V5 V6]|[_ V5]].
    + right. split; [done|]. cbn. lia.
    + left. by rewrite X4.
  - split; [done|]. exists n3, es. split; [done|]. split; [apply (sd_machine _ _ Ha)|]. split; [by rewrite Ha3|].
    split; [rewrite Ha3; lia|by rewrite Ha3].
Qed.

Lemma stopped_receives m n n' :
  sound n → n_core n' = n_core n → n_fatal n' ≠ None → channels n' = channels n → reads_kept n n' →
  n_replies n' = n_replies n → (synced false n → n_appliedIndex n ≤ n_appliedIndex n') → receives m n n'.
Proof.
  intros [] Hc Hf Hch [K1 K3 _ K2] Hr Ha. constructor; [constructor; rewrite ?Hc, ?K1; done|done|by rewrite Hch|done|done|].
  intros Hy. apply reads_from_same; [done|by apply Ha|done].
Qed.

Lemma will_advance_commit c t i : will_advance c t i = true → c_commitIndex c ≤ i.
Proof. unfold will_advance. intros H. bool_to_prop. lia. Qed.

Lemma will_advance_installs c m :
  core_wf c → m_Type m = MsgInstallSnapshotRequest →
  installs c (InputMessage m) = if will_advance c (m_Term m) (m_LastIncludedIndex m) then Some m else None.
Proof.
  intros Hwf Ht. pose proof (wf_commit c Hwf). unfold installs, will_advance. rewrite bool_decide_true by done. cbn [andb].
  destruct (Z.ltb_spec (c_commitIndex c) (m_LastIncludedIndex m)); [|by rewrite !andb_false_r].
  rewrite (proj2 (Z.ltb_lt (c_snapshotIndex c) (m_LastIncludedIndex m))) by lia. by rewrite !andb_true_r.
Qed.

Lemma handleInstallSnapshot_spec n m :
  sound n → roomy 2 n → message_ok m → m_Type m = MsgInstallSnapshotRequest →
  nsafe (handleInstallSnapshot intn n m) (receives (Some m) n).
Proof.
  intros Hs Hb Hm Ht. unfold handleInstallSnapshot, Install. pose proof (Decode_reads _ (mo_data _ Hm)) as Hd.
  pose proof (mo_snapshot _ Hm Ht) as Hidx. destruct (Decode (m_SnapshotData m)) as [s|e] eqn:Es; cbn [mbind result_bind].
  2: { assert (Hst : steady n (node_send n (message MsgInstallSnapshotResponse (nc_ID (n_cfg n)) (m_From m) (c_currentTerm (n_core n)))))
         by steady_frame. destruct e; [..|by destruct Hd]; by eapply handles_receives, handles_steady. }
  specialize (Hidx s eq_refl). cbv zeta. set (n1 := n <| n_snapMgr := _ |>). assert (Hst : steady n n1) by steady_frame.
  assert (Hs1 : sound n1) by (by destruct Hs). case_if.
  { apply stopped_receives; [done|done|cbn; by destruct (n_fatal n)|done..]. }
  change (n_core n1) with (n_core n). rewrite Hidx. pose proof (will_advance_installs (n_core n) m (so_core _ Hs) Ht) as Hw.
  destruct (will_advance _ _ _) eqn:Ew.
  2: { cbn [negb]. apply (receives_after _ _ n1); [done|]. by apply message_step. }
  pose proof (install_state_spec n1 s) as Hi. destruct (install_state n1 s) as [n2 ok]. destruct ok; cbn [negb].
  2: { destruct Hi as (I1 & I2 & I3 & I4 & I5 & I6). apply stopped_receives; [done|done|done|done|by destruct I4|done|].
       intros Hy. rewrite (sy_applied _ _ Hy). destruct I6 as [-> | ->]; [cbn; rewrite (sy_applied _ _ Hy); lia|]. rewrite Hidx. by apply will_advance_commit in Ew. }
  destruct Hi as (I1 & I2 & I3 & I4 & I5 & I6 & I7 & I8).
  eapply nsafe_mono; [apply (install_step n n2 m); [done|done|done|done|done|congruence|by destruct I7|done]|].
  intros n' (R1 & R2 & R3 & R4 & R6 & R5). constructor; [done|rewrite I4 in R2; exact R2|rewrite R3, I6; done|done| |].
  2: { intros Hy. eapply reads_from_trans; [|exact R6]. apply reads_from_same; [apply I7| |done].
       rewrite (sy_applied _ _ Hy), I3, Hidx. by apply will_advance_commit in Ew. }
  intros Hy Hf. destruct (R5 Hy Hf) as [Hy' (n0 & es & A1 & A2 & A3 & A4 & A5)]. split; [done|]. right. exists m, n0, es.
  split; [done|]. split; [|done]. constructor.
  - exists s. rewrite A2, A3. done.
  - split; [done|]. unfold will_advance in Ew. by bool_to_prop.
  - rewrite (sy_applied _ _ Hy). done.
  - done.
Qed.

(** ** Events *)

Definition event_ok (n : Node) (ev : event) : Prop :=
  match ev with
  | EvTick _ => c_currentTerm (n_core n) + 1 < 2 ^ 64
  | EvMessage m => message_ok m
  | EvPropose cmd _ => wf_bytes (c_RequestID cmd) ∧ Forall mutation_wf (c_Mutations cmd)
  | EvControl _ payload _ => wf_bytes payload
  | EvMembership kind rid tid taddr _ _ => config_ok (c_activeConfig (n_core n)) ∧ change_fits (n_core n) kind rid tid taddr
  | _ => True
  end.

Definition event_channel (ev : event) : list Z :=
  match ev with
  | EvPropose _ ch | EvControl _ _ ch | EvReadIndex _ ch | EvMembership _ _ _ _ _ ch | EvPrecheck ch | EvMembershipStatus ch => [ch]
  | _ => []
  end.

Definition event_message (ev : event) : option Message := match ev with EvMessage m => Some m | _ => None end.

(** A node between two events. *)
Record node_ok (n : Node) : Prop := { nk_sound : sound n; nk_synced : synced false n }.

(** What one event does. *)
Record reacts (ev : event) (n n' : Node) : Prop := {
  rx_sound : sound n';
  rx_cfg : n_cfg n' = n_cfg n;
  rx_fatal : n_fatal n ≠ None → n_fatal n' ≠ None;
  rx_channels : channels n' ≡ₚ event_channel ev ++ channels n;
  rx_running : n_fatal n' = None → node_ok n' ∧ progress (event_message ev) n n';
  rx_reads : ∀ Q : Z → Z → Z → Prop,
    (∀ id ch, ev = EvReadIndex id ch → Q ch id (lastIndex (n_core n))) → reads_in Q n → reads_in Q n'
}.

Lemma receives_reacts ev n n' :
  node_ok n → event_channel ev = [] → receives (event_message ev) n n' → reacts ev n n'.
Proof.
  intros [Hs Hy] He [R1 R2 R3 R4 R5 R6]. constructor; [done..|by rewrite He| |].
  - intros Hf. by destruct (R5 Hy Hf).
  - intros Q _. by apply R6.
Qed.

Definition event_read (ev : event) : option Z := match ev with EvReadIndex id _ => Some id | _ => None end.

Lemma takes_reacts ev ch n n' :
  node_ok n → event_channel ev = [ch] → takes ch (event_read ev) n n' → reacts ev n n'.
Proof.
  intros [Hs Hy] He [R1 R2 R3 R4 R5 R6]. constructor; [done..|by rewrite He; apply R4| |].
  - intros Hf. destruct (R5 Hy Hf) as [H1 H2]. split; [done|by left].
  - intros Q HQ. apply R6. intros id Hid. destruct ev; try done. injection Hid as ->. injection He as ->. by apply HQ.
Qed.

Lemma event_reacts n ev :
  node_ok n → roomy 5 n → event_ok n ev → nsafe (handle_event intn n ev) (reacts ev n).
Proof.
  intros Hn [Hid Hb] Hok. pose proof (nk_sound _ Hn) as Hs. destruct ev as [p|m|cmd ch|rid payload ch|lease ch|kind rid tid taddr confirm ch|ch|ch|id|];
    cbn [handle_event event_ok] in *.
  - eapply nsafe_mono; [by apply tick_spec|]. intros n' H. apply receives_reacts; [done|done|by eapply handles_receives].
  - unfold handle_message. cbv zeta. apply (nsafe_mono _ (receives (Some m) n)); [|intros n'; by apply (receives_reacts (EvMessage m))].
    pose proof (steady_recordPeerGeneration n (m_From m) (m_SenderGeneration m)) as Hst.
    eapply receives_after; [exact Hst|]. set (n1 := recordPeerGeneration _ _ _) in *. clearbody n1.
    assert (Hs1 : sound n1) by (by eapply steady_sound). assert (Hr1 : roomy 2 n1) by (split; rewrite ?(sd_core _ _ Hst), ?(sd_cfg _ _ Hst); [done|lia]).
    case_bool_decide as Ht; [by apply handleInstallSnapshot_spec|]. apply message_step; [done..|].
    unfold installs. by rewrite bool_decide_false by done.
  - apply (nsafe_mono _ (takes ch None n)); [|intros n'; by apply (takes_reacts (EvPropose cmd ch) ch)]. unfold node_handlePropose. case_if; [by apply takes_refuse|].
    apply proposeAndAwait_spec; [done|lia|]. by apply encode_commit_bytes; apply Hok.
  - apply (nsafe_mono _ (takes ch None n)); [|intros n'; by apply (takes_reacts (EvControl rid payload ch) ch)]. apply proposeAndAwait_spec; [done|lia|done].
  - apply (nsafe_mono _ (takes ch (Some lease) n)); [|intros n'; by apply (takes_reacts (EvReadIndex lease ch) ch)]. apply handleReadIndex_spec; [done|lia|done].
  - apply (nsafe_mono _ (takes ch None n)); [|intros n'; by apply (takes_reacts (EvMembership kind rid tid taddr confirm ch) ch)]. apply handleMembership_spec; [done|lia|apply Hok..].
  - eapply takes_reacts; [done|done|by apply takes_answer].
  - eapply takes_reacts; [done|done|by apply takes_answer].
  - eapply receives_reacts; [done|done|]. eapply handles_receives, handles_steady; [done|]. constructor; try done; [apply ReleaseLease_ok|by apply reads_from_same].
  - eapply receives_reacts; [done|done|]. eapply handles_receives, handles_steady; [done|steady_frame].
Qed.
End handlers.
