(* ===== verification/NodeSpec.v ===== *)
(** * What a node promises

    Runs of the event loop, from a node that was opened to one that stops: no
    event makes the node fail by itself, its state machine is the replay of the
    committed entries, every request gets one answer, reads see what was
    committed before them, and garbage collection spares the live reads. *)

From Stdlib Require Import String.
From S2P Require Import Prelude Bytes Hash Scrub Mvcc FsmCommand Fsm FsmSnapshot RaftTypes RaftMembership RaftMembershipSpec RaftCore RaftInv RaftSpec WalRecord Wal Storage StorageSpec RaftPersist RaftDriver Snapshot SnapshotSpec Leases Admission NodePressure Node NodeInv NodeRun NodeEvents.

(** ** Opening *)

Lemma opened_core cfg hs si st sc sh es c :
  NewCoreFromSnapshot cfg hs si st sc sh es = Ok c →
  c_snapshotIndex c = si ∧ c_commitIndex c = si ∧ c_appliedIndex c = si ∧ lastIndex c = si + zlen es.
Proof.
  unfold NewCoreFromSnapshot. case_if; [done|]. case_if; [done|]. cbv zeta.
  destruct (ConfigAt _ _) as [act idx]. intros H. apply Ok_inj in H. subst c. repeat (split; [done|]).
  unfold lastIndex. cbn. rewrite zlen_cons. lia.
Qed.

(** A node that was just opened: its log is in range and made of bytes. *)
Lemma node_Open_ok cfg disk dir id probe intn n :
  node_Open cfg disk dir id probe intn = Ok n →
  0 ≤ c_snapshotIndex (n_core n) → lastIndex (n_core n) + 1 < 2 ^ 64 → 0 ≤ c_currentTerm (n_core n) →
  (∀ e, e ∈ c_log (n_core n) → entry_ok e) → node_ok n ∧ n_fatal n = None ∧ channels n = [].
Proof.
  unfold node_Open. cbv zeta. case_if; [done|]. intros H. apply bind_Ok_inv in H as (w & _ & H). revert H.
  set (snap := Load _ _). clearbody snap. set (base := match snap with Some s => _ | None => (0, 0, New NewStore) end).
  destruct base as [[bi bt] fsm]. case_if; [done|]. intros H. apply bind_Ok_inv in H as (st & _ & H). revert H.
  set (sc := match snap with Some s => _ | None => (no_config, false) end). destruct sc as [sconf shas].
  intros H. apply bind_Ok_inv in H as (core & Hc & H). apply bind_Ok_inv in H as (gates & _ & H). apply bind_Ok_inv in H as (u & _ & H).
  apply Ok_inj in H. subst n. cbn [n_core n_fatal]. intros H0 Hl Ht Hd.
  destruct (NewCoreFromSnapshot _ _ _ _ _ _ _) as [c|] eqn:En in Hc; [|done]. apply Ok_inj in Hc. subst c.
  destruct (opened_core _ _ _ _ _ _ _ _ En) as (O1 & O2 & O3 & O4). split; [|done]. split; constructor; cbn.
  - eapply recovered_wf; [..|exact En]; lia.
  - done.
  - done.
  - apply newLeaseRegistry_ok.
  - done.
  - done.
  - intros i w'. cbn. by rewrite lookup_empty.
Qed.

(** ** Runs *)

(** The loop of a running node; the last event may have stopped it. *)
Inductive runs : Node → list event → Node → Prop :=
| runs_end n : runs n [] n
| runs_event n intn ev n1 evs n' :
    n_fatal n = None → roomy 5 n → event_ok n ev → handle_event intn n ev = Ok n1 → runs n1 evs n' → runs n (ev :: evs) n'.

Lemma event_reacts_Ok intn n ev n1 :
  node_ok n → roomy 5 n → event_ok n ev → handle_event intn n ev = Ok n1 → reacts ev n n1.
Proof. intros H1 H2 H3 H4. pose proof (event_reacts intn n ev H1 H2 H3) as H. by rewrite H4 in H. Qed.

(** A run from a node in order: by induction on its events. *)
Lemma runs_ok_ind (P : Node → list event → Node → Prop) :
  (∀ n, P n [] n) →
  (∀ n ev n1 evs n', node_ok n → reacts ev n n1 → n_fatal n1 = None ∧ node_ok n1 ∨ evs = [] ∧ n' = n1 → P n1 evs n' → P n (ev :: evs) n') →
  ∀ n evs n', node_ok n → runs n evs n' → P n evs n'.
Proof.
  intros H0 H1 n evs n' Hok Hr. induction Hr as [n|n intn ev n1 evs n' Hf Hroom Hev Hh Hr IH]; [apply H0|].
  pose proof (event_reacts_Ok intn n ev n1 Hok Hroom Hev Hh) as Hx. destruct (n_fatal n1) eqn:E.
  - assert (evs = [] ∧ n' = n1) as [-> ->] by (inversion Hr; subst; [done|congruence]).
    apply (H1 n ev n1 [] n1); [done|done|by right|apply H0].
  - destruct (rx_running _ _ _ Hx E) as [Hok1 _]. apply (H1 n ev n1 evs n'); [done|done|by left|by apply IH].
Qed.

(** *** Answers *)

Lemma runs_channels n evs n' :
  node_ok n → runs n evs n' → channels n' ≡ₚ (evs ≫= event_channel) ++ channels n.
Proof.
  apply (runs_ok_ind (λ n evs n', channels n' ≡ₚ (evs ≫= event_channel) ++ channels n)); [done|].
  intros m ev m1 es m' _ Hx _ IH. rewrite IH, (rx_channels _ _ _ Hx). cbn. solve_Permutation.
Qed.

Lemma shutdown_replies n : (n_replies (shutdown n)).*1 ≡ₚ channels n.
Proof.
  unfold shutdown. cbv zeta. set (n1 := flush_waiters ErrNodeStopped n).
  assert (Hw : ∀ m, n_replies (node_wal Close m).1 = n_replies m) by (intros m; apply (sti_replies _ _ (still_wal Close m))).
  rewrite Hw.
  assert (Hf : ∀ prs m, (n_replies (foldl (λ n pr, answer_on (rd_resultCh pr) (ReadReply (Err ErrNodeStopped))
      (n <| n_leases := ReleaseLease (n_leases n) (rd_leaseID pr) |>)) m prs)).*1 = (n_replies m).*1 ++ (rd_resultCh <$> prs)).
  { induction prs as [|pr prs IH]; intros m; cbn [foldl fmap list_fmap]; [by rewrite app_nil_r|]. rewrite IH. cbn. rewrite fmap_app. cbn.
    by rewrite <- app_assoc. }
  change (n_replies ((foldl ?f ?m ?l) <| n_pendingReads := [] |>)) with (n_replies (foldl f m l)). rewrite Hf.
  change (n_pendingReads n1) with (n_pendingReads n). unfold n1, flush_waiters, channels, waiting_channels. cbn.
  rewrite fmap_app, <- list_fmap_compose. by rewrite <- app_assoc.
Qed.

(** C7: every request a node takes gets exactly one answer.  Whatever events a
    running node handles (ticks, messages of any kind, snapshot installations,
    failures that stop it included), after it shut down the channels it
    answered on are, with their multiplicity, exactly the result channels of
    the requests it took: none is forgotten when leadership is lost, an entry
    is superseded, the node fails or stops, and none is answered twice. *)
Theorem node_answers_once n evs n' :
  node_ok n → channels n = [] → runs n evs n' → (n_replies (shutdown n')).*1 ≡ₚ evs ≫= event_channel.
Proof.
  intros Hok Hc Hr. rewrite shutdown_replies, (runs_channels n evs n' Hok Hr), Hc. by rewrite app_nil_r.
Qed.

(** *** Safety *)


(** *** The state machine *)

(** The machine is the replay, from [m0] at index [b], of the entries [hist],
    and [hist] is what the log has at the applied indices it still keeps. *)
Record tracks (m0 : machine) (b : Z) (hist : list Entry) (n : Node) : Prop := {
  tr_machine : replays m0 hist = Some (machine_of n);
  tr_indices : entries_from b hist;
  tr_applied : n_appliedIndex n = b + zlen hist;
  tr_log : ∀ i, c_snapshotIndex (n_core n) < i ≤ n_appliedIndex n → b < i → EntryAt (n_core n) i = hist !! Z.to_nat (i - b - 1)
}.

Lemma tracks_start n : tracks (machine_of n) (n_appliedIndex n) [] n.
Proof. constructor; [done|intros i e [=]|rewrite zlen_nil; lia|lia]. Qed.

Lemma tracks_advances m0 b hist n es n' : tracks m0 b hist n → advances n es n' → tracks m0 b (hist ++ es) n'.
Proof.
  intros [T1 T2 T3 T4] [A1 A2 A3 A4 A5 A6]. pose proof (zlen_nonneg es). constructor.
  - rewrite replays_app, T1. done.
  - apply entries_from_app; [done|]. by rewrite <- T3.
  - rewrite zlen_app. lia.
  - intros i Hi Hb. destruct (decide (i ≤ n_appliedIndex n)).
    + rewrite A5, T4 by lia. rewrite lookup_app_l; [done|]. unfold zlen in *. lia.
    + rewrite A6 by lia. rewrite lookup_app_r by (unfold zlen in *; lia). f_equal. unfold zlen in *. lia.
Qed.

(** What a snapshot file holds. *)
Definition snapshot_machine (s : Snapshot) : machine := (snap_FSM s, f_clusterGeneration (snap_FSM s)).

Definition replays_committed (m0 : machine) (b : Z) (hist : list Entry) (n : Node) (evs : list event) (n' : Node) : Prop :=
  n_appliedIndex n' = c_commitIndex (n_core n') ∧ n_appliedIndex n ≤ n_appliedIndex n' ∧
  ((∃ es, tracks m0 b (hist ++ es) n') ∨
   ∃ msg s es, EvMessage msg ∈ evs ∧ Decode (m_SnapshotData msg) = Ok s ∧ n_appliedIndex n < LastIncludedIndex (snap_Meta s) ∧
     tracks (snapshot_machine s) (LastIncludedIndex (snap_Meta s)) es n').

Lemma advances_le n es n' : advances n es n' → n_appliedIndex n ≤ n_appliedIndex n'.
Proof. intros []. pose proof (zlen_nonneg es). lia. Qed.

Lemma event_committed m0 b hist n ev n1 :
  node_ok n → tracks m0 b hist n → reacts ev n n1 → n_fatal n1 = None → replays_committed m0 b hist n [ev] n1.
Proof.
  intros Hok Ht Hx Hf. destruct (rx_running _ _ _ Hx Hf) as [[_ Hy] Hp]. split; [apply Hy|].
  destruct Hp as [[es He]|(msg & n0 & es & Hm & [(s & I1 & I2 & I3) I4 I5 I6] & He)].
  - split; [by eapply advances_le|]. left. exists es. by eapply tracks_advances.
  - pose proof (advances_le _ _ _ He). split; [lia|]. right. exists msg, s, es. destruct ev; try done. injection Hm as ->.
    split; [by left|]. split; [done|]. split; [lia|]. rewrite <- I3, <- (app_nil_l es). unfold snapshot_machine. rewrite <- I2.
    eapply tracks_advances; [apply tracks_start|done].
Qed.

Lemma runs_committed n evs n' :
  node_ok n → runs n evs n' →
  ∀ m0 b hist, node_ok n → tracks m0 b hist n → n_fatal n' = None → replays_committed m0 b hist n evs n'.
Proof.
  apply (runs_ok_ind (λ n evs n', ∀ m0 b hist, node_ok n → tracks m0 b hist n → n_fatal n' = None → replays_committed m0 b hist n evs n')).
  - intros m m0 b hist [_ Hy] Ht _. split; [apply Hy|]. split; [done|]. left. exists []. by rewrite app_nil_r.
  - intros m ev m1 es m' _ Hx Hnext IH m0 b hist Hok Ht Hf.
    assert (n_fatal m1 = None ∧ node_ok m1) as [Hf1 Hok1].
    { destruct Hnext as [H|[_ ->]]; [done|]. split; [done|]. by apply (rx_running _ _ _ Hx). }
    destruct (event_committed m0 b hist m ev m1 Hok Ht Hx Hf1) as (_ & Hle & [[es1 T1]|(msg & s & es1 & E1 & E2 & E3 & T1)]).
    + destruct (IH _ _ _ Hok1 T1 Hf) as (C1 & C2 & [[es2 T2]|(msg & s & es2 & D1 & D2 & D3 & T2)]).
      * split; [done|]. split; [lia|]. left. exists (es1 ++ es2). by rewrite app_assoc.
      * split; [done|]. split; [lia|]. right. exists msg, s, es2. split; [by right|]. split; [done|]. split; [lia|done].
    + destruct (IH _ _ _ Hok1 T1 Hf) as (C1 & C2 & [[es2 T2]|(msg' & s' & es2 & D1 & D2 & D3 & T2)]).
      * split; [done|]. split; [lia|]. right. exists msg, s, (es1 ++ es2). split; [|done].
        apply list_elem_of_singleton in E1 as ->. by left.
      * split; [done|]. split; [lia|]. right. exists msg', s', es2. split; [by right|]. split; [done|]. split; [lia|done].
Qed.

(** C5: the state machine of a node is the replay of the committed entries.
    If at some moment it was the replay of a history [hist] from a base, then
    whatever events follow, as long as the node runs, it has applied exactly
    the committed entries, and either its machine is the replay of a longer
    history, [hist] and more entries with consecutive indices, which agrees
    with the log at every index the log keeps, so that no committed entry is
    skipped, repeated or reordered; or a snapshot ahead of it was installed
    and it is the replay of the entries after that snapshot. *)
Theorem node_replays_committed m0 b hist n evs n' :
  node_ok n → tracks m0 b hist n → runs n evs n' → n_fatal n' = None → replays_committed m0 b hist n evs n'.
Proof. intros Hok Ht Hr. by apply runs_committed. Qed.

(** *** Reads *)

Lemma runs_trans n evs n1 evs' n' : runs n evs n1 → runs n1 evs' n' → runs n (evs ++ evs') n'.
Proof. induction 1; [done|]. intros H'. cbn. econstructor; eauto. Qed.

(** The state in which the read with lease [id] and channel [ch] was taken. *)
Definition read_began (n : Node) (evs : list event) (ch id : Z) (Q : Node → Prop) : Prop :=
  ∃ evs1 evs2 n1, evs = evs1 ++ EvReadIndex id ch :: evs2 ∧ runs n evs1 n1 ∧ Q n1.

Lemma runs_reads n evs n' :
  node_ok n → runs n evs n' → ∀ Q : Z → Z → Z → Prop,
  (∀ evs1 evs2 n1 id ch, evs = evs1 ++ EvReadIndex id ch :: evs2 → runs n evs1 n1 → node_ok n1 → Q ch id (lastIndex (n_core n1))) →
  reads_in Q n → reads_in Q n'.
Proof.
  intros Hok Hr. induction Hr as [n|n intn ev n1 evs n' Hf Hroom Hev Hh Hr IH]; intros Q HQ Hin; [done|].
  pose proof (event_reacts_Ok intn n ev n1 Hok Hroom Hev Hh) as Hx.
  assert (H1 : reads_in Q n1).
  { apply (rx_reads _ _ _ Hx); [|done]. intros id ch ->. apply (HQ [] evs n id ch); [done|constructor|done]. }
  destruct (n_fatal n1) eqn:E.
  - by inversion Hr; subst; [|congruence].
  - destruct (rx_running _ _ _ Hx E) as [Hok1 _]. apply IH; [done| |done]. intros evs1 evs2 m id ch -> Hm Hokm.
    apply (HQ (ev :: evs1) evs2 m id ch); [done| |done]. by eapply runs_event.
Qed.

(** C8: a read sees everything that was committed before it began.  If a run of
    the event loop answered a read with the snapshot position [s], then the
    read was taken by an earlier event, at a state whose committed entries were
    all applied and at most [s], and the state machine has applied everything
    up to [s], so that reading it at [s] misses no write acknowledged before
    the read. *)
Theorem node_reads_fresh n evs n' ch s id :
  node_ok n → n_pendingReads n = [] → n_replies n = [] → runs n evs n' → (ch, ReadReply (Ok (s, id))) ∈ n_replies n' →
  read_began n evs ch id (λ n1, n_appliedIndex n1 = c_commitIndex (n_core n1) ∧ c_commitIndex (n_core n1) ≤ s) ∧
  s ≤ n_appliedIndex n'.
Proof.
  intros Hok Hp Hr Hrun Hin.
  apply (runs_reads n evs n' Hok Hrun (λ ch id s,
    read_began n evs ch id (λ n1, n_appliedIndex n1 = c_commitIndex (n_core n1) ∧ c_commitIndex (n_core n1) ≤ s))); [| |done].
  - intros evs1 evs2 n1 id' ch' He H1 [Hs1 Hy1]. exists evs1, evs2, n1. split; [done|]. split; [done|].
    split; [apply Hy1|]. apply (wf_commit _ (so_core _ Hs1)).
  - split; [by rewrite Hp; intros pr Hx; apply elem_of_nil in Hx|]. rewrite Hr. intros ch' s' id' Hx. by apply elem_of_nil in Hx.
Qed.

(** The voters that confirm a read: the leader itself, and those whose last
    acknowledgement answers a request sent after the read began. *)
Definition confirms (n : Node) (pr : pendingRead) (v : Member) : Prop :=
  m_ID v = nc_ID (n_cfg n) ∨ rd_requiredSeq pr < default 0 (n_ackSeq n !! m_ID v).
#[export] Instance confirms_dec n pr v : Decision (confirms n pr v).
Proof. unfold confirms. apply _. Defined.

Lemma read_acks_confirms n pr : read_acks n pr ≤ zlen (filter (confirms n pr) (Voters (c_activeConfig (n_core n)))).
Proof.
  unfold read_acks, IsVoter. set (id := nc_ID (n_cfg n)). generalize (Voters (c_activeConfig (n_core n))). intros vs.
  induction vs as [|v vs IH]; [done|]. unfold has_member in *. cbn [existsb]. rewrite !filter_cons.
  set (others := filter _ vs) in *. set (all := filter (confirms n pr) vs) in *.
  destruct (decide (m_ID v = id)) as [Hv|Hv].
  - rewrite bool_decide_true by done. rewrite (decide_False (P := m_ID v ≠ id ∧ _)) by tauto. rewrite (decide_True (P := confirms n pr v)) by (by left).
    cbn [orb]. rewrite zlen_cons. destruct (existsb _ vs); lia.
  - rewrite bool_decide_false by done. cbn [orb].
    destruct (decide (m_ID v ≠ id ∧ rd_requiredSeq pr < default 0 (n_ackSeq n !! m_ID v))) as [[_ Hc]|Hc].
    + rewrite (decide_True (P := confirms n pr v)) by (by right). rewrite !zlen_cons. lia.
    + rewrite (decide_False (P := confirms n pr v)) by (intros [?|?]; tauto). exact IH.
Qed.

(** A read is answered by the leader of the term it began in, once a majority
    of the voters confirm it and its target is applied. *)
Lemma check_read_quorum n pr :
  n_replies (check_read n pr) = n_replies n ++ [(rd_resultCh pr, ReadReply (Ok (rd_target pr, rd_leaseID pr)))] →
  c_role (n_core n) = Leader ∧ c_currentTerm (n_core n) = rd_term pr ∧ rd_target pr ≤ n_appliedIndex n ∧
  Majority (c_activeConfig (n_core n)) ≤ zlen (filter (confirms n pr) (Voters (c_activeConfig (n_core n)))).
Proof.
  unfold check_read. pose proof (read_acks_confirms n pr) as Ha. intros H.
  assert (Hno : n_replies n ≠ n_replies n ++ [(rd_resultCh pr, ReadReply (Ok (rd_target pr, rd_leaseID pr)))]).
  { intros Hx. apply (f_equal length) in Hx. rewrite length_app in Hx. cbn in Hx. lia. }
  destruct (_ || _) eqn:E1; [cbn in H; by apply app_inv_head in H|].
  destruct (Z.ltb_spec (read_acks n pr) (Majority (c_activeConfig (n_core n)))); [by destruct Hno|].
  destruct (Z.ltb_spec (n_appliedIndex n) (rd_target pr)); [by destruct Hno|]. bool_to_prop. split; [done|]. split; [lia|]. split; lia.
Qed.


(** ** A cluster of one node *)

Definition solo_config : NodeConfig :=
  mkNodeConfig [97] [[97]] ∅ [49] 0 0 1 1 1 0 0 0 0 0 0 0 0 0 0 0 0 0 0 0 0 (mkPressureSettings None None 0 0 3).
Definition calm : Pressure := mkPressure 1000000 1000000 0 None.
Definition open_solo (disk : Disk) : result open_error Node :=
  node_Open solo_config disk (mkDir ∅ ∅ []) [120] (0, None) (λ _, 0).

Definition demo_commit : CommitTxnCommand := mkCommitTxn [1] 7 1 [mkMutation [107] [118] false].
Definition demo_reuse : CommitTxnCommand := mkCommitTxn [1] 8 1 [mkMutation [107] [119] false].
Definition demo_later : CommitTxnCommand := mkCommitTxn [2] 9 1 [mkMutation [108] [120] false].

Definition checked_request (cmd : CommitTxnCommand) : bool :=
  is_wf_bytes (c_RequestID cmd) &&
  forallb (λ m, is_wf_bytes (Key m) && is_wf_bytes (MValue m) && negb (MTombstone m)) (c_Mutations cmd).

Lemma checked_request_ok cmd :
  checked_request cmd = true → wf_bytes (c_RequestID cmd) ∧ Forall mutation_wf (c_Mutations cmd).
Proof.
  intros [H1 H2]%andb_true_iff. split; [by apply wf_bytes_compute|]. apply Forall_forall. intros m Hm.
  rewrite forallb_forall in H2. specialize (H2 m ltac:(by apply list_elem_of_In)).
  apply andb_true_iff in H2 as [[H2 H3]%andb_true_iff H4]. split; [by apply wf_bytes_compute|]. split; [by apply wf_bytes_compute|].
  intros Ht. by rewrite Ht in H4.
Qed.

(** The checks of [event_ok] for ticks, proposals and reads. *)
Definition checked_event (n : Node) (ev : event) : bool :=
  match ev with
  | EvTick _ => c_currentTerm (n_core n) + 1 <? 2 ^ 64
  | EvPropose cmd _ => checked_request cmd
  | EvReadIndex _ _ => true
  | _ => false
  end.

Definition running (n : Node) : bool := match n_fatal n with None => true | Some _ => false end.

Definition checked_step (n : Node) (ev : event) : option Node :=
  if running n && is_wf_bytes (nc_ID (n_cfg n)) && (lastIndex (n_core n) + 5 <? 2 ^ 64) && checked_event n ev
  then match handle_event (λ _, 0) n ev with Ok n' => Some n' | Err _ => None end else None.

Fixpoint checked_run (n : Node) (evs : list event) : option Node :=
  match evs with [] => Some n | ev :: evs => n ← checked_step n ev; checked_run n evs end.

Lemma checked_step_ok n ev n' :
  checked_step n ev = Some n' → n_fatal n = None ∧ roomy 5 n ∧ event_ok n ev ∧ handle_event (λ _, 0) n ev = Ok n'.
Proof.
  unfold checked_step. destruct (_ && _) eqn:E; [|done]. destruct (handle_event _ n ev) as [n1|]; [|done].
  intros H. assert (n1 = n') as <- by congruence. unfold running in E. destruct (n_fatal n) eqn:Ef; [done|]. cbn [andb] in E.
  apply andb_true_iff in E as [[Hid Hr]%andb_true_iff Hev]. apply Z.ltb_lt in Hr. split; [done|].
  split; [split; [by apply wf_bytes_compute|done]|]. split; [|done]. destruct ev; cbn in *; try done.
  - by apply Z.ltb_lt in Hev.
  - by apply checked_request_ok.
Qed.

Lemma checked_run_runs evs n n' : checked_run n evs = Some n' → runs n evs n'.
Proof.
  revert n. induction evs as [|ev evs IH]; intros n H; cbn in H; [injection H as <-; constructor|].
  destruct (checked_step n ev) as [n1|] eqn:E; [|done]. cbn in H.
  destruct (checked_step_ok n ev n1 E) as (H1 & H2 & H3 & H4). eapply runs_event; [done..|]. by apply IH.
Qed.

(** A node opened on an empty disk is in order. *)
Definition opened_check (n : Node) : bool :=
  (0 <=? c_snapshotIndex (n_core n)) && (lastIndex (n_core n) + 1 <? 2 ^ 64) && (0 <=? c_currentTerm (n_core n)) &&
  forallb (λ e, is_wf_bytes (e_Data e)) (c_log (n_core n)).

Lemma opened_check_ok disk n : open_solo disk = Ok n → opened_check n = true → node_ok n ∧ n_fatal n = None ∧ channels n = [].
Proof.
  intros Ho Hc. unfold opened_check in Hc. apply andb_true_iff in Hc as [[[H1 H2]%andb_true_iff H3]%andb_true_iff H4].
  apply Z.leb_le in H1, H3. apply Z.ltb_lt in H2. apply (node_Open_ok _ _ _ _ _ _ n Ho); try done.
  intros e He _. apply wf_bytes_compute. rewrite forallb_forall in H4. apply H4. by apply list_elem_of_In.
Qed.

Definition demo_events : list event := [EvTick calm; EvPropose demo_commit 5; EvReadIndex 9 6].

Definition solo_run (evs : list event) : option Node :=
  match open_solo [] with Ok n => checked_run n evs | Err _ => None end.

(** It elects itself, commits a transaction and serves a read at its
    position. *)
Example solo_serves :
  match solo_run demo_events with
  | Some n => n_appliedIndex n = 2 ∧ n_replies n =
      [(5, ProposeReply (Ok (mkOutcome [1] StatusCommitted 2 [] 0))); (6, ReadReply (Ok (2, 9)))]
  | None => False
  end.
Proof. vm_compute. done. Qed.

(** What is known of a run of the node opened on an empty disk. *)
Lemma solo_run_ok evs n' :
  solo_run evs = Some n' →
  ∃ n, open_solo [] = Ok n ∧ node_ok n ∧ channels n = [] ∧ n_pendingReads n = [] ∧ n_replies n = [] ∧ runs n evs n'.
Proof.
  unfold solo_run. destruct (open_solo []) as [n|] eqn:E; [|done]. intros H.
  assert (Hc : match open_solo [] with Ok n => opened_check n && (length (n_pendingReads n) =? 0)%nat && (length (n_replies n) =? 0)%nat | Err _ => false end = true)
    by (vm_compute; reflexivity).
  rewrite E in Hc. apply andb_true_iff in Hc as [[H1 H2]%andb_true_iff H3]. apply Nat.eqb_eq, nil_length_inv in H2, H3.
  destruct (opened_check_ok [] n E H1) as (H4 & H5 & H6). exists n. repeat (split; [done|]). by apply checked_run_runs.
Qed.

Lemma runs_first n ev evs n' : runs n (ev :: evs) n' → roomy 5 n ∧ event_ok n ev.
Proof. inversion 1; subst. done. Qed.

Lemma solo_run_some evs : (match solo_run evs with Some _ => true | None => false end) = true → ∃ n', solo_run evs = Some n'.
Proof. destruct (solo_run evs); [by eexists|done]. Qed.

Lemma node_answers_once_witness :
  match solo_run demo_events with Some n' => (n_replies (shutdown n')).*1 ≡ₚ [5; 6] | None => False end.
Proof.
  destruct (solo_run_some demo_events ltac:(vm_compute; reflexivity)) as [n' E]. rewrite E.
  destruct (solo_run_ok demo_events n' E) as (n & _ & H1 & H2 & _ & _ & H3).
  exact (node_answers_once n demo_events n' H1 H2 H3).
Defined.


Lemma node_replays_committed_witness :
  match open_solo [], solo_run demo_events with
  | Ok n, Some n' => replays_committed (machine_of n) (n_appliedIndex n) [] n demo_events n'
  | _, _ => False
  end.
Proof.
  destruct (solo_run_some demo_events ltac:(vm_compute; reflexivity)) as [n' E]. rewrite E.
  destruct (solo_run_ok demo_events n' E) as (n & Ho & H1 & _ & _ & _ & H3).
  assert (Hf : match solo_run demo_events with Some m => running m | None => false end = true) by (vm_compute; reflexivity).
  rewrite E in Hf. rewrite Ho. apply node_replays_committed; [exact H1|apply tracks_start|exact H3|].
  unfold running in Hf. destruct (n_fatal n'); [discriminate|reflexivity].
Defined.

Lemma node_reads_fresh_witness :
  match open_solo [], solo_run demo_events with
  | Ok n, Some n' =>
      read_began n demo_events 6 9 (λ n1, n_appliedIndex n1 = c_commitIndex (n_core n1) ∧ c_commitIndex (n_core n1) ≤ 2) ∧
      2 ≤ n_appliedIndex n'
  | _, _ => False
  end.
Proof.
  destruct (solo_run_some demo_events ltac:(vm_compute; reflexivity)) as [n' E]. rewrite E.
  destruct (solo_run_ok demo_events n' E) as (n & Ho & H1 & _ & H2 & H3 & H4). rewrite Ho.
  apply (node_reads_fresh n demo_events n' 6 2 9 H1 H2 H3 H4).
  pose proof solo_serves as Hs. rewrite E in Hs. destruct Hs as [_ ->]. right. left.
Defined.

Lemma runs_node_ok n evs n' : node_ok n → runs n evs n' → n_fatal n' = None → node_ok n'.
Proof.
  intros H Hr. revert H. revert n evs n' Hr. 
  assert (G : ∀ n evs n', node_ok n → runs n evs n' → node_ok n → n_fatal n' = None → node_ok n'); [|eauto].
  apply (runs_ok_ind (λ n evs n', node_ok n → n_fatal n' = None → node_ok n')); [done|].
  intros n ev n1 evs n' _ Hx Hnext IH _ Hf. destruct Hnext as [[_ H1]|[_ ->]]; [by apply IH|]. by apply (rx_running _ _ _ Hx).
Qed.

(** The read of the demo holds a lease at 2 when one more transaction is
    applied. *)
Definition gc_events : list event := demo_events ++ [EvPropose demo_later 7].


(** ** Findings *)

(** Two proposals that reuse a request identifier with different mutations can
    both pass [Precheck], which looks at what is applied: once both are
    committed, applying the second stops the node, and stops it again after
    every restart, since the entry stays in the log. *)
Theorem reused_request_stops_cluster :
  match solo_run [EvTick calm] with
  | None => False
  | Some n0 =>
      Propose_precheck (n_fsm n0) demo_commit = None ∧ Propose_precheck (n_fsm n0) demo_reuse = None ∧
      match checked_run n0 [EvPropose demo_commit 5; EvPropose demo_reuse 6] with
      | None => False
      | Some n =>
          n_fatal n = Some (FatalApply ErrRequestIDPayloadMismatch) ∧
          match open_solo (w_disk (ws_w (n_storage n))) with
          | Err _ => False
          | Ok restarted =>
              match handle_event (λ _, 0) restarted (EvTick calm) with
              | Ok n' => n_fatal n' = Some (FatalApply ErrRequestIDPayloadMismatch)
              | Err _ => False
              end
          end
      end
  end.
Proof. vm_compute. done. Qed.

(** The loop selects among its ready channels in any order, so that a node that
    stopped itself can still handle an event: an entry committed after the one
    it could not apply is applied without it, and reported as committed. *)
Theorem stopped_node_applies_past_failure :
  match solo_run [EvTick calm; EvPropose demo_commit 5; EvPropose demo_reuse 6] with
  | None => False
  | Some n =>
      n_stopped n = true ∧ n_appliedIndex n = 2 ∧ c_commitIndex (n_core n) = 3 ∧
      match handle_event (λ _, 0) n (EvPropose demo_later 7) with
      | Ok n' => n_appliedIndex n' = 4 ∧ (7, ProposeReply (Ok (mkOutcome [2] StatusCommitted 4 [] 0))) ∈ n_replies n'
      | Err _ => False
      end
  end.
Proof. vm_compute. repeat split. right. left. Qed.

(** A generation change that is committed twice, the second time behind a
    newer one, takes the node's record of the generation back while the state
    machine keeps the newer one. *)
Definition generation_entry (index target : Z) : Entry :=
  mkEntry index 1 EntryNormal (EncodeSetClusterVersion (mkSetClusterVersion [102; 48 + target] target)).

Theorem cluster_generation_regresses :
  match open_solo [] with
  | Err _ => False
  | Ok n => match apply_entries n [generation_entry 1 1; generation_entry 2 2; generation_entry 3 1] with
            | Ok (n', true) => f_clusterGeneration (n_fsm n') = 2 ∧ n_clusterGeneration n' = 1
            | _ => False
            end
  end.
Proof. vm_compute. done. Qed.

(** A snapshot brings a member whose address the node then does not know. *)
Definition joined : SnapConfiguration := mkSnapConfiguration [mkSnapMember [97] [49]; mkSnapMember [98] [50]] [].
Definition demo_snapshot : bytes :=
  match Encode (mkMeta 5 1 true joined) (New NewStore) 2 with Ok b => b | Err _ => [] end.
Definition demo_install : Message :=
  (message MsgInstallSnapshotRequest [98] [97] 1) <| m_LastIncludedIndex := 5 |> <| m_LastIncludedTerm := 1 |>
    <| m_SnapshotData := demo_snapshot |> <| m_HasConfiguration := true |>
    <| m_Configuration := fromSnapshotConfiguration joined |>.

Theorem installed_member_has_no_address :
  match open_solo [] with
  | Err _ => False
  | Ok n => match handle_event (λ _, 0) n (EvMessage demo_install) with
            | Ok n' => n_fatal n' = None ∧ IsVoter (c_activeConfig (n_core n')) [98] = true ∧ n_peerAddrs n' !! [98] = None
            | Err _ => False
            end
  end.
Proof. vm_compute. done. Qed.
