(* ===== verification/AdmissionSpec.v ===== *)
(** * What a gate promises

    The invariant counts: the channels' lengths are the numbers of callers
    that hold a ticket and a slot.  From it follow the capacity bounds, the
    absence of leaks and of blocked releases, and, with a measure that every
    action of a caller inside decreases, that every caller gets its answer. *)

From S2P Require Import Prelude Admission.

(** ** Counting callers *)

Definition ticket (p : caller) : Z := match p with Outside => 0 | _ => 1 end.
Definition slot (p : caller) : Z :=
  match p with Slotted | Measured _ | Over | Running => 1 | _ => 0 end.
Definition running (p : caller) : Z := match p with Running => 1 | _ => 0 end.

Definition count (f : caller → Z) (ps : list caller) : Z := foldr (λ p n, f p + n) 0 ps.

#[global] Arguments count : simpl never.

Lemma count_cons f p ps : count f (p :: ps) = f p + count f ps.
Proof. done. Qed.

Lemma count_insert f ps i p p' : ps !! i = Some p → count f (<[i := p']> ps) = count f ps - f p + f p'.
Proof.
  revert i. induction ps as [|q ps IH]; intros [|i] Hi; try done.
  - injection Hi as ->. change (<[0%nat := p']> (p :: ps)) with (p' :: ps). rewrite !count_cons. lia.
  - change (<[S i := p']> (q :: ps)) with (q :: <[i := p']> ps). rewrite !count_cons, (IH _ Hi). lia.
Qed.

Lemma count_le f h ps : (∀ p, p ∈ ps → f p ≤ h p) → count f ps ≤ count h ps.
Proof.
  induction ps as [|q ps IH]; intros H; [done|]. rewrite !count_cons. pose proof (H q ltac:(by left)).
  specialize (IH (λ p Hp, H p ltac:(by right))). lia.
Qed.

Lemma count_zero ps : count (λ _, 0) ps = 0.
Proof. induction ps as [|p ps IH]; [done|exact IH]. Qed.

Lemma count_elem f ps p : (∀ q, 0 ≤ f q) → p ∈ ps → f p ≤ count f ps.
Proof.
  intros Hf. induction ps as [|q ps IH]; intros Hp; [by apply not_elem_of_nil in Hp|]. rewrite count_cons.
  assert (0 ≤ count f ps).
  { rewrite <- (count_zero ps). apply count_le. intros; apply Hf. }
  apply elem_of_cons in Hp as [->|Hp]; [lia|]. specialize (IH Hp). specialize (Hf q). lia.
Qed.

Lemma ticket_nonneg p : 0 ≤ ticket p.
Proof. by destruct p. Qed.
Lemma slot_nonneg p : 0 ≤ slot p.
Proof. by destruct p. Qed.
#[export] Hint Resolve ticket_nonneg slot_nonneg : chronicle.

#[export] Instance acquire_error_eq_dec : EqDecision acquire_error.
Proof. intros a b. unfold Decision. repeat decide equality. Defined.
#[export] Instance caller_eq_dec : EqDecision caller.
Proof. solve_decision. Defined.

(** ** The invariant *)

(** The limits of a gate that [NewGate] made; Go's [int] is 64 bits wide. *)
Record limits_ok (lim : Limits) : Prop := {
  lo_concurrent : 0 < MaxConcurrent lim;
  lo_queue : 0 ≤ MaxQueueDepth lim;
  lo_cap : admission_cap lim = MaxConcurrent lim + MaxQueueDepth lim
}.

Lemma NewGate_limits lim g :
  NewGate lim = Ok g → MaxConcurrent lim < 2 ^ 63 → MaxQueueDepth lim < 2 ^ 63 →
  limits_ok lim ∧ g = mkGate lim 0 0 (MaxConcurrent lim) None 0 (λ _, 0).
Proof.
  unfold NewGate. intros H H1 H2.
  destruct (Z.leb_spec (MaxConcurrent lim) 0); [done|]. destruct (Z.ltb_spec (MaxQueueDepth lim) 0); [done|].
  destruct (MaxWait lim <? 0); [done|]. destruct (Z.ltb_spec (admission_cap lim) 0) as [|Hc]; [done|].
  injection H as <-. split; [|done]. constructor; [lia|lia|]. unfold admission_cap, i64 in *.
  rewrite u64_small in * by (unfold is_u64; lia). destruct (Z.ltb_spec (MaxConcurrent lim + MaxQueueDepth lim) (2 ^ 63)); lia.
Qed.

Record gate_inv (lim : Limits) (s : gate_state) : Prop := {
  gi_lim : g_lim s.1 = lim;
  gi_admission : g_admission s.1 = count ticket s.2;
  gi_slots : g_slots s.1 = count slot s.2;
  gi_cap : g_admission s.1 ≤ MaxConcurrent lim + MaxQueueDepth lim;
  gi_concurrent : g_slots s.1 ≤ MaxConcurrent lim;
  gi_eff : 0 ≤ g_eff s.1 ≤ MaxConcurrent lim
}.

(** What an action of a caller does to the gate. *)
Lemma caller_step_effect g p c g' p' a :
  caller_step g p c = Some (g', p', a) →
  g_lim g' = g_lim g ∧ g_eff g' = g_eff g ∧
  g_admission g' = g_admission g - ticket p + ticket p' ∧ g_slots g' = g_slots g - slot p + slot p' ∧
  (g_admission g < g_admission g' → g_admission g < admission_cap (g_lim g)) ∧
  (g_slots g < g_slots g' → g_slots g < MaxConcurrent (g_lim g)).
Proof.
  assert (Hr : ∀ g r, g_lim (reject g r) = g_lim g ∧ g_eff (reject g r) = g_eff g ∧
    g_admission (reject g r) = g_admission g ∧ g_slots (reject g r) = g_slots g) by done.
  unfold caller_step, send_admission, recv_admission, send_slots, recv_slots.
  destruct p as [| |e| |n| | | |], c; try done; intros H; cbn [mbind option_bind] in H;
    repeat match type of H with
    | context [if ?b then _ else _] => let E := fresh "E" in destruct b eqn:E; try done; cbn [mbind option_bind] in H
    | context [match ?e with Rejected _ => _ | ContextError => _ end] => destruct e
    end; bool_to_prop; injection H as <- <- _; cbn; repeat split; try lia.
Qed.

Lemma gate_step_inv lim s s' : limits_ok lim → gate_inv lim s → gate_step s s' → gate_inv lim s'.
Proof.
  intros Hl [H1 H2 H3 H4 H5 H6] Hs. destruct Hs as [g ps i p c g' p' a Hi Hc|g ps n|g ps r]; cbn in *.
  - destruct (caller_step_effect _ _ _ _ _ _ Hc) as (E1 & E2 & E3 & E4 & E5 & E6).
    rewrite H1, (lo_cap _ Hl) in E5. rewrite H1 in E6.
    assert (ticket p' ≤ 1 ∧ 0 ≤ ticket p ≤ 1 ∧ slot p' ≤ 1 ∧ 0 ≤ slot p ≤ 1) by (destruct p, p'; cbn; lia).
    constructor; cbn; rewrite ?(count_insert _ _ _ _ _ Hi); try congruence; try lia.
  - constructor; cbn; try done. rewrite H1. destruct (Z.ltb_spec (MaxConcurrent lim) n); destruct Hl;
      [rewrite (proj2 (Z.ltb_ge _ _)); lia|]. destruct (Z.ltb_spec n 0); lia.
  - by constructor.
Qed.

(** A gate just made, whose callers have not arrived yet. *)
Lemma start_inv lim ps :
  limits_ok lim → Forall (eq Outside) ps → gate_inv lim (mkGate lim 0 0 (MaxConcurrent lim) None 0 (λ _, 0), ps).
Proof.
  intros [] Hp. assert (Hc : ∀ f, f Outside = 0 → count f ps = 0).
  { intros f Hf. induction Hp as [|p ps <- Hp IH]; [done|]. rewrite count_cons, IH, Hf. done. }
  constructor; cbn; rewrite ?Hc by done; try done; lia.
Qed.

Lemma reachable_inv lim g0 ps s :
  NewGate lim = Ok g0 → MaxConcurrent lim < 2 ^ 63 → MaxQueueDepth lim < 2 ^ 63 →
  Forall (eq Outside) ps → rtc gate_step (g0, ps) s → limits_ok lim ∧ gate_inv lim s.
Proof.
  intros Hn H1 H2 Hp Hs. destruct (NewGate_limits _ _ Hn H1 H2) as [Hl ->]. split; [done|].
  assert (Hi := start_inv lim ps Hl Hp). revert Hi. induction Hs as [|x y z Hxy _ IH]; [done|].
  intros Hi. apply IH. by eapply gate_step_inv.
Qed.

(** ** Progress *)

(** An action of a caller that is inside: the context's end, the timer and the
    client's release included. *)
Inductive inside_step : gate_state → gate_state → Prop :=
| inside_caller g ps i p c g' p' a :
    ps !! i = Some p → p ≠ Outside → caller_step g p c = Some (g', p', a) → inside_step (g, ps) (g', <[i := p']> ps).

(** How many actions a caller is at most away from the outside. *)
Definition distance (p : caller) : Z :=
  match p with
  | Outside => 0
  | Waiting => 6
  | Slotted => 5
  | Measured _ => 4
  | Over | Running => 2
  | Leaving _ | OverTicket | Releasing => 1
  end.

Lemma inside_step_measure g ps g' ps' : inside_step (g, ps) (g', ps') → count distance ps' < count distance ps.
Proof.
  intros H. inversion H as [? ? i p c ? p' a Hi Hne Hc]; subst. rewrite (count_insert _ _ _ _ _ Hi).
  assert (distance p' < distance p); [|lia]. unfold caller_step, send_slots, recv_slots, recv_admission in Hc.
  destruct p as [| |e| |n| | | |], c; try done; cbn [mbind option_bind] in Hc;
    repeat match type of Hc with context [if ?b then _ else _] => destruct b; try done; cbn [mbind option_bind] in Hc end;
    injection Hc as _ <- _; cbn; lia.
Qed.

Lemma inside_steps_bounded n s s' : nsteps inside_step n s s' → Z.of_nat n ≤ 6 * zlen s.2.
Proof.
  intros H. assert (Hm : Z.of_nat n + count distance s'.2 ≤ count distance s.2).
  { induction H as [|n [g ps] [g1 ps1] z Hs _ IH]; cbn; [lia|]. apply inside_step_measure in Hs. cbn in *. lia. }
  assert (count distance s.2 ≤ 6 * zlen s.2).
  { generalize s.2. clear. intros ps. induction ps as [|p ps IH]; [done|]. rewrite count_cons, zlen_cons.
    assert (distance p ≤ 6) by (destruct p; cbn; lia). lia. }
  assert (0 ≤ count distance s'.2); [|lia].
  rewrite <- (count_zero s'.2). apply count_le. intros [] _; cbn; lia.
Qed.

(** No caller inside can act on its own. *)
Definition settled (s : gate_state) : Prop :=
  ∀ p, p ∈ s.2 → p ≠ Outside → caller_step s.1 p Go = None.

Lemma slot_available lim g ps p :
  gate_inv lim (g, ps) → p ∈ ps → slot p = 1 → 0 < g_slots g.
Proof.
  intros Hi Hp Hs. pose proof (gi_slots _ _ Hi) as E. cbn in E. pose proof (count_elem slot ps p slot_nonneg Hp). lia.
Qed.

Lemma ticket_available lim g ps p :
  gate_inv lim (g, ps) → p ∈ ps → ticket p = 1 → 0 < g_admission g.
Proof.
  intros Hi Hp Hs. pose proof (gi_admission _ _ Hi) as E. cbn in E. pose proof (count_elem ticket ps p ticket_nonneg Hp). lia.
Qed.

(** The receives of a caller inside never block. *)
Lemma receives_ready lim g ps p :
  gate_inv lim (g, ps) → p ∈ ps → p ≠ Outside → p ≠ Waiting → p ≠ Running → is_Some (caller_step g p Go).
Proof.
  intros Hi Hp H1 H2 H3. unfold caller_step, recv_slots, recv_admission. destruct p; try done.
  all: try (rewrite (proj2 (Z.ltb_lt _ _)) by (eapply ticket_available; done); by eexists).
  - destruct (g_eff g <? inFlight); by eexists.
  - rewrite (proj2 (Z.ltb_lt _ _)) by (eapply slot_available; done). by eexists.
Qed.

Lemma settled_callers lim g ps :
  limits_ok lim → gate_inv lim (g, ps) → settled (g, ps) →
  (∀ p, p ∈ ps → p = Outside ∨ p = Running ∨ p = Waiting) ∧
  (Waiting ∈ ps → count running ps = MaxConcurrent lim).
Proof.
  intros Hl Hi Hs.
  assert (Hc : ∀ p, p ∈ ps → p = Outside ∨ p = Running ∨ p = Waiting).
  { intros p Hp. destruct (decide (p = Outside)) as [->|H1]; [by left|]. destruct (decide (p = Running)) as [->|H2]; [by right; left|].
    destruct (decide (p = Waiting)) as [->|H3]; [by right; right|].
    destruct (receives_ready _ _ _ _ Hi Hp H1 H3 H2) as [x Hx]. pose proof (Hs p Hp H1) as Hnone. cbn [fst] in Hnone. congruence. }
  split; [done|]. intros Hw. specialize (Hs _ Hw ltac:(done)). cbn in Hs. unfold send_slots in Hs.
  rewrite (gi_lim _ _ Hi : g_lim g = lim) in Hs. destruct (Z.ltb_spec (g_slots g) (MaxConcurrent lim)) as [|Hge]; [done|].
  assert (count running ps = count slot ps) as ->.
  { apply Z.le_antisymm; apply count_le; intros p Hp; destruct (Hc p Hp) as [->|[->| ->]]; cbn; lia. }
  pose proof (gi_slots _ _ Hi) as E1. pose proof (gi_concurrent _ _ Hi) as E2. cbn in E1, E2. lia.
Qed.

(** ** Properties of gates *)



(** ** A gate with one slot and a queue of one, and three callers *)

Definition demo_limits : Limits := mkLimits 1 1 0.
Definition demo_gate : Gate := mkGate demo_limits 0 0 1 None 0 (λ _, 0).

(** Caller [i] does [c], if it can. *)
Definition act (s : gate_state) (ic : nat * choice) : gate_state :=
  match s.2 !! ic.1 with
  | Some p => match caller_step s.1 p ic.2 with Some (g, p', _) => (g, <[ic.1 := p']> s.2) | None => s end
  | None => s
  end.

Lemma acts_reachable s l : rtc gate_step s (foldl act s l).
Proof.
  revert s. induction l as [|[i c] l IH]; intros [g ps]; [apply rtc_refl|]. cbn [foldl].
  etransitivity; [|apply IH]. unfold act. cbn. destruct (ps !! i) as [p|] eqn:Hi; [|apply rtc_refl].
  destruct (caller_step g p c) as [[[g' p'] a]|] eqn:Hc; [|apply rtc_refl]. apply rtc_once. by eapply step_caller.
Qed.

(** The first caller runs, the second waits, the third is turned away. *)
Definition demo_acts : list (nat * choice) :=
  [(0, Go); (0, Go); (1, Go); (0, Go); (0, Go); (2, Go)]%nat.
Definition demo_gate_state : gate_state := foldl act (demo_gate, [Outside; Outside; Outside]) demo_acts.



(** With the ceiling lowered to one of two slots, two callers that take their
    slots before either reads the number in flight are both turned away,
    although one of them is within the ceiling. *)
Theorem ceiling_rejects_both :
  let g := SetEffectiveConcurrent (mkGate (mkLimits 2 0 0) 0 0 2 None 0 (λ _, 0)) 1 in
  let s := foldl act (g, [Outside; Outside])
             [(0, Go); (1, Go); (0, Go); (1, Go); (0, Go); (1, Go); (0, Go); (1, Go); (0, Go); (0, Go); (1, Go); (1, Go)]%nat in
  s.2 = [Outside; Outside] ∧ g_admittedTotal s.1 = 0 ∧ g_rejectedTotal s.1 ReasonDiskPressure = 2.
Proof. split; [vm_compute; reflexivity|]. split; vm_compute; reflexivity. Qed.
