(* ===== verification/Oracle.v ===== *)
(** * The reference oracle ([internal/oracle])

    The program comes with a reference model of its own: [KVModel], a map of
    the latest committed value of each key, which predicts conflicts;
    [OutcomeTracker], which remembers the first answer to each request; and
    [Recorder], the trace of a run.  They are modelled here as they are
    written, without reference to the store or the state machine.

    [OutcomeTracker.Digest] and [RecordedOutcome.String] are not modelled:
    they format diagnostics with [%q]. *)

From Stdlib Require Import String.
From S2P Require Import Prelude Bytes Hash GoSort Scrub Json.

(** ** The model of committed state ([oracle.go]) *)

Record KVMutation := mkKVMutation { kv_Key : bytes; kv_Value : bytes; kv_Tombstone : bool }.

Record KVModel := mkKVModel {
  kv_value : gmap bytes bytes;
  kv_tomb : gmap bytes bool;
  kv_lastSeq : gmap bytes Z
}.

Definition NewKVModel : KVModel := mkKVModel ∅ ∅ ∅.

Fixpoint predict_loop (m : KVModel) (startSeq : Z) (keys : list bytes) : bool * bytes * Z :=
  match keys with
  | [] => (true, [], 0)
  | k :: keys =>
      match kv_lastSeq m !! k with
      | Some seq => if startSeq <? seq then (false, k, seq) else predict_loop m startSeq keys
      | None => predict_loop m startSeq keys
      end
  end.

Definition Predict (m : KVModel) (startSeq : Z) (muts : list KVMutation) : bool * bytes * Z :=
  predict_loop m startSeq (sort_strings (kv_Key <$> muts)).

Definition kv_apply_one (assignedSeq : Z) (m : KVModel) (mu : KVMutation) : KVModel :=
  mkKVModel
    (if kv_Tombstone mu then delete (kv_Key mu) (kv_value m)
     else <[kv_Key mu := kv_Value mu]> (kv_value m))
    (<[kv_Key mu := kv_Tombstone mu]> (kv_tomb m))
    (<[kv_Key mu := assignedSeq]> (kv_lastSeq m)).

Definition KVModel_Apply (m : KVModel) (assignedSeq : Z) (muts : list KVMutation) : KVModel :=
  foldl (kv_apply_one assignedSeq) m muts.

(** [m.tomb[key]] of an absent key is [false]. *)
Definition KVModel_Get (m : KVModel) (key : bytes) : option bytes :=
  if default false (kv_tomb m !! key) then None else kv_value m !! key.

Definition KVModel_Keys (m : KVModel) : list bytes :=
  sort_strings (elements (dom (kv_lastSeq m))).

(** [hex.EncodeToString] *)
Definition hex_encode (b : bytes) : bytes := b ≫= hex_put 2.

(** What [CanonicalKVDigest] writes to the hash for one key:
    [%d:%s\x00%d:%s\x00]. *)
Definition kv_line (k v : bytes) : bytes :=
  FormatUint (zlen k) ++ 58 :: k ++ 0 :: FormatUint (zlen v) ++ 58 :: v ++ [0].

Definition kv_lines (keys : list bytes) (get : bytes → option bytes) : bytes :=
  keys ≫= λ k, match get k with Some v => kv_line k v | None => [] end.

Definition CanonicalKVDigest (keys : list bytes) (get : bytes → option bytes) : bytes :=
  hex_encode (sha256 (kv_lines (sort_strings keys) get)).

Definition KVModel_Digest (m : KVModel) : bytes :=
  CanonicalKVDigest (KVModel_Keys m) (KVModel_Get m).

(** ** The outcomes of requests *)

Record RecordedOutcome := mkRecordedOutcome {
  ro_Committed : bool;
  ro_CommitSeq : Z;
  ro_ConflictKey : bytes
}.
#[export] Instance RecordedOutcome_eq_dec : EqDecision RecordedOutcome.
Proof. solve_decision. Defined.

Record seenEntry := mkSeenEntry {
  se_fingerprint : bytes;
  se_outcome : RecordedOutcome;
  se_firstSeenAt : bytes
}.

Abbreviation OutcomeTracker := (gmap bytes seenEntry).
Definition NewOutcomeTracker : OutcomeTracker := ∅.

(** The error of [Observe], with the values its message shows. *)
Inductive oracle_error :=
| ErrOutcomeUnstable (requestID : bytes) (first : RecordedOutcome) (firstAt : bytes)
                     (got : RecordedOutcome) (provenance : bytes).

Definition Observe (o : OutcomeTracker) (requestID fingerprint : bytes) (got : RecordedOutcome)
    (provenance : bytes) : OutcomeTracker * option oracle_error :=
  match o !! requestID with
  | None => (<[requestID := mkSeenEntry fingerprint got provenance]> o, None)
  | Some prev =>
      if negb (bool_decide (se_fingerprint prev = fingerprint)) then (o, None) else
      if negb (bool_decide (se_outcome prev = got))
      then (o, Some (ErrOutcomeUnstable requestID (se_outcome prev) (se_firstSeenAt prev) got provenance))
      else (o, None)
  end.

(** [%v] of a byte slice: the numbers in brackets, separated by spaces. *)
Fixpoint spaced (b : bytes) : bytes :=
  match b with
  | [] => []
  | [x] => FormatUint x
  | x :: b => FormatUint x ++ 32 :: spaced b
  end.
Definition format_bytes (b : bytes) : bytes := 91 :: spaced b ++ [93].

(** [%t] *)
Definition format_bool (b : bool) : bytes := if b then str "true"%string else str "false"%string.

(** [%s=%v(%t);] *)
Definition fingerprint_one (mu : KVMutation) : bytes :=
  kv_Key mu ++ 61 :: format_bytes (kv_Value mu) ++ 40 :: format_bool (kv_Tombstone mu) ++ [41; 59].

Definition Fingerprint (txnID startSeq : Z) (muts : list KVMutation) : bytes :=
  FormatUint txnID ++ 58 :: FormatUint startSeq ++ 58 :: FormatUint (zlen muts) ++ 58 ::
  (muts ≫= fingerprint_one).

(** ** Recorded histories ([history.go]) *)

Record oracle_Step := mkStep {
  st_Seed : Z;
  st_Index : Z;
  st_Node : bytes;
  st_Term : Z;
  st_Role : bytes;
  st_RequestID : bytes;
  st_Op : bytes;
  st_Args : bytes;
  st_Outcome : bytes;
  st_CommitIndex : Z;
  st_AppliedIndex : Z;
  st_SnapshotBoundary : Z;
  st_Fault : bytes
}.
#[export] Instance oracle_Step_eta : Eta oracle_Step := λ s,
  mkStep (st_Seed s) (st_Index s) (st_Node s) (st_Term s) (st_Role s) (st_RequestID s) (st_Op s)
         (st_Args s) (st_Outcome s) (st_CommitIndex s) (st_AppliedIndex s) (st_SnapshotBoundary s)
         (st_Fault s).

(** [ name=value], left out when the value is empty. *)
Definition optional_field (name value : bytes) : bytes :=
  if bool_decide (value = []) then [] else 32 :: name ++ 61 :: value.

Definition Step_String (s : oracle_Step) : bytes :=
  35 :: FormatInt (st_Index s) ++ str " node="%string ++ st_Node s ++ str " term="%string ++
  FormatUint (st_Term s) ++ str " role="%string ++ st_Role s ++ str " op="%string ++ st_Op s ++
  optional_field (str "args"%string) (st_Args s) ++
  optional_field (str "reqID"%string) (st_RequestID s) ++
  optional_field (str "fault"%string) (st_Fault s) ++
  str " -> "%string ++ st_Outcome s ++ str " [commit="%string ++ FormatUint (st_CommitIndex s) ++
  str " applied="%string ++ FormatUint (st_AppliedIndex s) ++ str " snap="%string ++
  FormatUint (st_SnapshotBoundary s) ++ [93].

Record Recorder := mkRecorder { rec_seed : Z; rec_steps : list oracle_Step }.

Definition NewRecorder (seed : Z) : Recorder := mkRecorder seed [].

Definition Record_step (r : Recorder) (s : oracle_Step) : Recorder :=
  let s := s <| st_Seed := rec_seed r |> in
  let s := if st_Index s =? 0 then s <| st_Index := zlen (rec_steps r) + 1 |> else s in
  mkRecorder (rec_seed r) (rec_steps r ++ [s]).

Definition step_lines (steps : list oracle_Step) : bytes := steps ≫= λ s, Step_String s ++ [10].

Definition Dump (r : Recorder) : bytes :=
  str "seed="%string ++ FormatInt (rec_seed r) ++ str ", "%string ++ FormatInt (zlen (rec_steps r)) ++
  str " steps:"%string ++ 10 :: step_lines (rec_steps r).

(** [r.steps[start:]] panics when [start] is beyond the steps, which a
    negative [n] makes it: [None]. *)
Definition Tail (r : Recorder) (n : Z) : option bytes :=
  let len := zlen (rec_steps r) in
  let start := if n <? len then len - n else 0 in
  if len <? start then None else
  Some (str "seed="%string ++ FormatInt (rec_seed r) ++ str ", last "%string ++ FormatInt (len - start) ++
        str " of "%string ++ FormatInt len ++ str " steps:"%string ++
        10 :: step_lines (drop (Z.to_nat start) (rec_steps r))).
