(* ===== verification/OracleSpec.v ===== *)
(** * The store and the state machine against the reference oracle

    The oracle is fed with what the state machine committed.  Its predictions
    then are the decisions of the state machine, its reads are the reads of
    the store, and its tracker never finds a request with two outcomes, on
    whichever replica it asks.  The digests and fingerprints it compares are
    canonical: equal digests mean equal data, unless SHA-256 collides. *)

From S2P Require Import Prelude Bytes GoSort Hash Scrub Json JsonSpec Mvcc MvccSpec FsmCommand Fsm FsmSpec Oracle.

(** ** Feeding the model with a history *)

Definition to_kv (m : Mutation) : KVMutation := mkKVMutation (Key m) (MValue m) (MTombstone m).

Definition model_of (h : History) : KVModel :=
  foldl (λ m c, KVModel_Apply m (commit_seq c) (to_kv <$> commit_mutations c)) NewKVModel h.

(** What the model should know of a key whose newest version is [o]. *)
Definition knows (m : KVModel) (k : bytes) (o : option Version) : Prop :=
  kv_lastSeq m !! k = CommitSeq <$> o ∧ kv_tomb m !! k = Tombstone <$> o ∧
  kv_value m !! k = (o ≫= version_value).

Lemma knows_one c m x k l :
  knows m k (last l) →
  knows (kv_apply_one c m (to_kv x)) k (last (l ++ mutation_versions c k [x])).
Proof.
  intros (H1 & H2 & H3). unfold knows, kv_apply_one, mutation_versions, to_kv. simpl.
  rewrite filter_cons, filter_nil. case_decide as E; simpl.
  - subst k. rewrite last_snoc, !lookup_insert_eq. unfold version_value. simpl.
    repeat split; [done..|]. destruct (MTombstone x); [apply lookup_delete_eq|apply lookup_insert_eq].
  - rewrite app_nil_r, !lookup_insert_ne by done. repeat split; [done..|].
    destruct (MTombstone x); [by rewrite lookup_delete_ne|by rewrite lookup_insert_ne].
Qed.

Lemma mutation_versions_cons c k x ms :
  mutation_versions c k (x :: ms) = mutation_versions c k [x] ++ mutation_versions c k ms.
Proof. unfold mutation_versions. rewrite <- fmap_app, <- filter_app. done. Qed.

Lemma knows_apply c ms m k l :
  knows m k (last l) →
  knows (KVModel_Apply m c (to_kv <$> ms)) k (last (l ++ mutation_versions c k ms)).
Proof.
  revert m l. induction ms as [|x ms IH]; intros m l H.
  - unfold mutation_versions. simpl. by rewrite app_nil_r.
  - rewrite mutation_versions_cons, app_assoc. by apply IH, knows_one.
Qed.

Lemma model_of_snoc h c :
  model_of (h ++ [c]) = KVModel_Apply (model_of h) (commit_seq c) (to_kv <$> commit_mutations c).
Proof. unfold model_of. by rewrite foldl_app. Qed.

Lemma model_of_knows h k : knows (model_of h) k (last (history_versions h k)).
Proof.
  induction h as [|c h IH] using rev_ind; [done|].
  rewrite model_of_snoc, history_versions_snoc. by apply knows_apply.
Qed.

Lemma knows_get m k o : knows m k o → KVModel_Get m k = (o ≫= version_value).
Proof.
  intros (_ & H2 & H3). unfold KVModel_Get. rewrite H2, H3. destruct o as [v|]; [|done].
  cbn. unfold version_value. by destruct (Tombstone v).
Qed.

Section with_store.
Context (s : Store) (h : History) (Hr : store_refines s h).

Lemma model_last k : kv_lastSeq (model_of h) !! k = LatestCommitSeq s k.
Proof using Hr.
  unfold LatestCommitSeq. rewrite (refines_last s h) by done. apply model_of_knows.
Qed.

Lemma model_keys : KVModel_Keys (model_of h) = orderedKeys s.
Proof using Hr.
  pose proof (ref_wf _ _ Hr) as Hwf. apply strict_sorted_unique.
  - apply sorted_NoDup_strict; [apply sort_strings_sorted|].
    unfold KVModel_Keys. rewrite sort_strings_perm. apply NoDup_elements.
  - apply Hwf.
  - intros k. unfold KVModel_Keys.
    rewrite (sort_strings_perm _), elem_of_elements, elem_of_dom, model_last, wf_mem_chain by done.
    unfold LatestCommitSeq. rewrite fmap_is_Some, <- not_eq_None_Some. apply not_iff_compat, last_None.
Qed.

(** Past every commit, the newest version is the one a reader sees. *)
Lemma model_get k seq :
  gcWatermark s ≤ seq → Forall (λ c, commit_seq c ≤ seq) h →
  Visible s k seq = Ok (KVModel_Get (model_of h) k).
Proof using Hr.
  intros Hw Hall. rewrite (refines_visible s h) by done. f_equal.
  rewrite (knows_get _ _ _ (model_of_knows h k)), db_at_versions. unfold newest_at.
  rewrite filter_all; [done|]. apply Forall_forall. intros v (c & Hc & <- & _)%elem_of_history_versions.
  by apply (proj1 (Forall_forall _ _) Hall).
Qed.
End with_store.

(** ** Predictions *)

(** The commit after [startSeq] that a write of [k] conflicts with. *)
Definition conflict_at (m : KVModel) (startSeq : Z) (k : bytes) : option Z :=
  seq ← kv_lastSeq m !! k; if startSeq <? seq then Some seq else None.

Definition predicted (o : option (bytes * Z)) : bool * bytes * Z :=
  match o with None => (true, [], 0) | Some (k, seq) => (false, k, seq) end.

Lemma predict_loop_cons m startSeq k keys :
  predict_loop m startSeq (k :: keys) =
  match conflict_at m startSeq k with
  | Some seq => (false, k, seq)
  | None => predict_loop m startSeq keys
  end.
Proof.
  unfold conflict_at. cbn [predict_loop]. destruct (kv_lastSeq m !! k) as [seq|]; [|done].
  simpl. by destruct (startSeq <? seq).
Qed.

(** The answer is the first conflicting key of the list. *)
Lemma predict_loop_spec m startSeq keys :
  (predict_loop m startSeq keys = (true, [], 0) ∧ ∀ k, k ∈ keys → conflict_at m startSeq k = None) ∨
  (∃ before k after seq, keys = before ++ k :: after ∧ conflict_at m startSeq k = Some seq ∧
     predict_loop m startSeq keys = (false, k, seq) ∧
     ∀ k', k' ∈ before → conflict_at m startSeq k' = None).
Proof.
  induction keys as [|x keys IH]; [left; split; [done|by intros k ?%not_elem_of_nil]|].
  rewrite predict_loop_cons. destruct (conflict_at m startSeq x) as [seq|] eqn:E.
  - right. exists [], x, keys, seq. repeat split; [done..|]. by intros k ?%not_elem_of_nil.
  - destruct IH as [[-> Hk]|(b & k & a & seq & -> & Hk & -> & Hb)].
    + left. split; [done|]. by intros k [->|?%Hk]%elem_of_cons.
    + right. exists (x :: b), k, a, seq. repeat split; [done..|]. by intros k' [->|?%Hb]%elem_of_cons.
Qed.

Section predictions.
Context (s : Store) (h : History) (Hr : store_refines s h).

(** In mutation order, the loop is the conflict check of the store. *)
Lemma predict_in_order startSeq ms :
  predict_loop (model_of h) startSeq (Key <$> ms) = predicted (CheckConflicts s startSeq ms).
Proof using Hr.
  induction ms as [|m ms IH]; [done|]. rewrite fmap_cons, predict_loop_cons.
  unfold conflict_at. rewrite (model_last s h) by done. unfold LatestCommitSeq. cbn [CheckConflicts].
  destruct (last (chain_of s (Key m))) as [v|]; cbn; [|done]. by destruct (startSeq <? CommitSeq v).
Qed.

(** [Predict] commits exactly when the store finds no conflict.  Otherwise
    it reports the smallest conflicting key. *)
Lemma predict_spec startSeq ms :
  let p := Predict (model_of h) startSeq (to_kv <$> ms) in
  match CheckConflicts s startSeq ms with
  | None => p = (true, [], 0)
  | Some _ => ∃ k seq, p = (false, k, seq) ∧ k ∈ Key <$> ms ∧ LatestCommitSeq s k = Some seq ∧
      startSeq < seq ∧ ∀ k', k' ∈ Key <$> ms → blt k' k → conflict_at (model_of h) startSeq k' = None
  end.
Proof using Hr.
  cbv zeta. unfold Predict. rewrite <- list_fmap_compose.
  change (kv_Key ∘ to_kv) with Key. pose proof (sort_strings_perm (Key <$> ms)) as Hp.
  pose proof (sort_strings_sorted (Key <$> ms)) as Hs.
  pose proof (predict_in_order startSeq ms) as Hin.
  destruct (predict_loop_spec (model_of h) startSeq (Key <$> ms)) as
    [[Hl Hno]|(b & k & a & seq & Hk & Hc & Hl & _)]; rewrite Hl in Hin.
  - destruct (CheckConflicts _ _ _) as [[??]|]; [done|].
    destruct (predict_loop_spec (model_of h) startSeq (sort_strings (Key <$> ms))) as
      [[-> _]|(b & k & a & seq & Hk & Hc & _)]; [done|].
    rewrite Hno in Hc; [done|]. rewrite <- Hp, Hk. set_solver.
  - destruct (CheckConflicts _ _ _) as [[??]|]; [|done].
    destruct (predict_loop_spec (model_of h) startSeq (sort_strings (Key <$> ms))) as
      [[_ Hno]|(b' & k' & a' & seq' & Hk' & Hc' & -> & Hb')].
    { rewrite Hno in Hc; [done|]. rewrite Hp, Hk. set_solver. }
    exists k', seq'. split; [done|]. split; [rewrite <- Hp, Hk'; set_solver|].
    unfold conflict_at in Hc'. rewrite (model_last s h) in Hc' by done.
    destruct (LatestCommitSeq s k') as [q|]; [|done]. cbn in Hc'.
    destruct (Z.ltb_spec startSeq q); [|done]. injection Hc' as ->. do 2 (split; [done|]).
    intros x Hx Hlt. apply Hb'. rewrite <- Hp, Hk' in Hx.
    apply elem_of_app in Hx as [?|Hx]; [done|]. exfalso. rewrite Hk' in Hs.
    apply StronglySorted_app_1_r, StronglySorted_cons in Hs as [Hle _].
    apply elem_of_cons in Hx as [->|Hx]; [by apply blt_irrefl in Hlt|].
    apply (proj1 (Forall_forall _ _) Hle) in Hx.
    destruct (decide (k' = x)) as [->|Hne]; [by apply blt_irrefl in Hlt|].
    apply (ble_ne_blt k' x Hx) in Hne. by apply (blt_asym _ _ Hlt) in Hne.
Qed.
End predictions.

(** ** The tracker *)

Record observation := mkObservation {
  ob_id : bytes; ob_fingerprint : bytes; ob_outcome : RecordedOutcome; ob_at : bytes
}.

(** Observing a list, in order: the tracker and the errors it reported. *)
Fixpoint observe_all (o : OutcomeTracker) (obs : list observation) : OutcomeTracker * list oracle_error :=
  match obs with
  | [] => (o, [])
  | b :: obs =>
      let '(o, e) := Observe o (ob_id b) (ob_fingerprint b) (ob_outcome b) (ob_at b) in
      let '(o, es) := observe_all o obs in
      (o, from_option (.:: es) es e)
  end.

Definition first_observation (obs : list observation) (id : bytes) : option observation :=
  head (filter (λ b, ob_id b = id) obs).

Definition entry_of (b : observation) : seenEntry :=
  mkSeenEntry (ob_fingerprint b) (ob_outcome b) (ob_at b).

(** An observation that contradicts what is remembered. *)
Definition contradicts (o : OutcomeTracker) (b : observation) : Prop :=
  ∃ e, o !! ob_id b = Some e ∧ se_fingerprint e = ob_fingerprint b ∧ se_outcome e ≠ ob_outcome b.

Definition tracks_first (o : OutcomeTracker) (seen : list observation) : Prop :=
  ∀ id, o !! id = entry_of <$> first_observation seen id.

Lemma Observe_first o seen b :
  tracks_first o seen →
  tracks_first (Observe o (ob_id b) (ob_fingerprint b) (ob_outcome b) (ob_at b)).1 (seen ++ [b]) ∧
  ((Observe o (ob_id b) (ob_fingerprint b) (ob_outcome b) (ob_at b)).2 = None ↔ ¬ contradicts o b).
Proof.
  intros H. unfold Observe, contradicts. pose proof (H (ob_id b)) as Hb.
  assert (Hsnoc : ∀ id, first_observation (seen ++ [b]) id =
    match first_observation seen id with Some x => Some x | None => if decide (ob_id b = id) then Some b else None end).
  { intros id. unfold first_observation. rewrite filter_app, head_app, filter_cons, filter_nil.
    destruct (head _); [done|]. by case_decide. }
  destruct (o !! ob_id b) as [e|] eqn:E.
  - assert (Hkeep : tracks_first o (seen ++ [b])).
    { intros id. rewrite H, Hsnoc. destruct (first_observation seen id) eqn:F; [done|].
      case_decide; [|done]. subst id. by rewrite F in Hb. }
    case_bool_decide as Ef; simpl; [|split; [done|]; split; [|done]; intros _ (? & [= <-] & ? & _); done].
    case_bool_decide as Eo; simpl; (split; [done|]); (split; [|done || by intros []; eauto]).
    + intros _ (? & [= <-] & _ & ?). done.
    + done.
  - split; [|split; [intros _ (? & ? & _); done|done]]. simpl. intros id. rewrite Hsnoc.
    destruct (first_observation seen (ob_id b)) as [x|] eqn:F; [done|].
    destruct (decide (ob_id b = id)) as [<-|Hne].
    + by rewrite lookup_insert_eq, F.
    + rewrite lookup_insert_ne, H by done. by destruct (first_observation seen id).
Qed.

(** The tracker is silent exactly when every later observation of a request
    with the payload of its first one has the outcome of its first one. *)
Lemma observe_all_exact o seen obs :
  tracks_first o seen →
  (observe_all o obs).2 = [] ↔
  ∀ before b after x, obs = before ++ b :: after →
    first_observation (seen ++ before) (ob_id b) = Some x →
    ob_fingerprint x = ob_fingerprint b → ob_outcome x = ob_outcome b.
Proof.
  revert o seen. induction obs as [|b obs IH]; intros o seen H.
  { split; [|done]. intros _ before c after x Hs. by destruct before. }
  cbn [observe_all]. destruct (Observe_first o seen b H) as [H1 H2].
  destruct (Observe o _ _ _ _) as [o' e]. cbn in H1, H2. specialize (IH o' (seen ++ [b]) H1).
  destruct (observe_all o' obs) as [o'' es]. cbn [snd] in *. split.
  - intros Hnil. destruct e as [e|]; [done|]. cbn in Hnil. subst es.
    intros before c after x Hs Hf Hfp. destruct before as [|d before]; injection Hs as -> ->.
    + destruct (decide (ob_outcome x = ob_outcome c)) as [?|Hne]; [done|exfalso].
      apply (proj1 H2 eq_refl). rewrite app_nil_r in Hf. exists (entry_of x). by rewrite H, Hf.
    + eapply (proj1 IH); [done|reflexivity| |done]. by rewrite <- app_assoc.
  - intros Hall. destruct e as [e|]; cbn.
    + exfalso. assert (Hc : ¬ ¬ contradicts o b) by (rewrite <- H2; done). apply Hc. clear Hc.
      intros (ent & He & Hfp & Hne). rewrite H in He.
      destruct (first_observation seen (ob_id b)) as [x|] eqn:F; [|done]. injection He as <-.
      apply Hne, (Hall [] b obs x); [done|by rewrite app_nil_r|done].
    + apply IH. intros before c after x -> Hf. apply (Hall (b :: before) c after x); [done|].
      by rewrite <- app_assoc in Hf.
Qed.

(** ** Observing the state machine *)

(** What the tests record of an outcome. *)
Definition recorded_of (o : Outcome) : RecordedOutcome :=
  mkRecordedOutcome (bool_decide (o_Status o = StatusCommitted)) (o_CommitSeq o) (o_ConflictKey o).

Definition observed_answer (cmd : CommitTxnCommand) (o : Outcome) (provenance : bytes) : observation :=
  mkObservation (c_RequestID cmd)
    (Fingerprint (c_TxnID cmd) (c_StartSeq cmd) (to_kv <$> c_Mutations cmd)) (recorded_of o) provenance.

(** An answer some replica gives in a run that has come to [r]: the replica
    has applied a prefix of the run. *)
Definition answer_of (r : run_state) (b : observation) : Prop :=
  ∃ r0 cmd o p, fsm_reachable r0 ∧ rtc fsm_step r0 r ∧ Precheck (r_fsm r0) cmd = Ok o ∧
    b = observed_answer cmd o p.

Lemma answer_of_recorded r b :
  answer_of r b → ∃ e, f_outcomes (r_fsm r) !! ob_id b = Some e ∧ ob_outcome b = recorded_of (oe_outcome e).
Proof.
  intros (r0 & cmd & o & p & Hr0 & Hr & Hp & ->). unfold Precheck, lookupLocked in Hp.
  destruct (f_outcomes (r_fsm r0) !! c_RequestID cmd) as [e|] eqn:E; [|done].
  exists e. split; [by apply (outcomes_persist r0 r)|]. case_bool_decide; [|done]. by injection Hp as <-.
Qed.

Lemma history_bounded r : fsm_reachable r → Forall (λ c, commit_seq c ≤ r_last r) (history_of (r_trace r)).
Proof.
  intros Hr%fsm_reachable_inv. apply Forall_forall. intros c (d & Hd & _ & ->)%elem_of_history_of.
  exact (proj1 (Forall_forall _ _) (fi_last _ Hr) d Hd).
Qed.

(** The value a client reads at [seq], none when the read is refused. *)
Definition store_get (s : Store) (seq : Z) (k : bytes) : option bytes :=
  match Visible s k seq with Ok o => o | Err _ => None end.

Lemma kv_lines_ext keys g1 g2 : (∀ k, g1 k = g2 k) → kv_lines keys g1 = kv_lines keys g2.
Proof. intros H. unfold kv_lines. induction keys as [|k keys IH]; [done|]. rewrite !bind_cons. by rewrite IH, H. Qed.

(** ** Canonical texts *)

(** A field without the separator that ends it is determined by the text. *)
Lemma field_inj (x : Z) (a b : bytes) r1 r2 :
  x ∉ a → x ∉ b → a ++ x :: r1 = b ++ x :: r2 → a = b ∧ r1 = r2.
Proof.
  revert b. induction a as [|y a IH]; intros [|z b] Ha Hb H; simplify_list_eq.
  - done.
  - set_solver.
  - set_solver.
  - destruct (IH b) as [-> ->]; [set_solver..|done|done].
Qed.

Lemma FormatUint_digits v x : is_u64 v → x ∈ FormatUint v → 48 ≤ x ≤ 57.
Proof.
  intros Hv Hx. destruct (FormatUint_spec v Hv) as [[E|(c & t & E & Hd & _)] _]; rewrite E in Hx.
  - apply list_elem_of_singleton in Hx. lia.
  - rewrite E, forallb_forall in Hd. apply list_elem_of_In, Hd in Hx.
    unfold is_digit in Hx. bool_to_prop. lia.
Qed.

Lemma FormatUint_inj a b : is_u64 a → is_u64 b → FormatUint a = FormatUint b → a = b.
Proof.
  intros Ha Hb H. destruct (FormatUint_spec a Ha) as [_ H1], (FormatUint_spec b Hb) as [_ H2].
  rewrite H, H2 in H1. by injection H1.
Qed.

(** A number and a separator that is no digit are determined by the text. *)
Lemma number_inj x a b r1 r2 :
  is_u64 a → is_u64 b → ¬ 48 ≤ x ≤ 57 →
  FormatUint a ++ x :: r1 = FormatUint b ++ x :: r2 → a = b ∧ r1 = r2.
Proof.
  intros Ha Hb Hx H. apply field_inj in H as [?%FormatUint_inj ?]; [done..|intros Hin|intros Hin];
    by apply FormatUint_digits in Hin.
Qed.

(** A field after its length is determined by the text. *)
Lemma sized_inj (k1 k2 r1 r2 : bytes) :
  is_u64 (zlen k1) → is_u64 (zlen k2) →
  FormatUint (zlen k1) ++ 58 :: k1 ++ 0 :: r1 = FormatUint (zlen k2) ++ 58 :: k2 ++ 0 :: r2 →
  k1 = k2 ∧ r1 = r2.
Proof.
  intros H1 H2 H. apply number_inj in H as [Hl H]; [|done|done|lia].
  apply app_inj_1 in H as [-> H]; [by injection H|]. unfold zlen in Hl. lia.
Qed.

Definition fits_u64 (kv : bytes * bytes) : Prop := is_u64 (zlen kv.1) ∧ is_u64 (zlen kv.2).

Lemma kv_line_nonempty k v r : kv_line k v ++ r ≠ [].
Proof. unfold kv_line. by destruct (FormatUint (zlen k)). Qed.

Lemma lines_inj l1 l2 :
  Forall fits_u64 l1 → Forall fits_u64 l2 →
  (l1 ≫= λ kv, kv_line kv.1 kv.2) = (l2 ≫= λ kv, kv_line kv.1 kv.2) → l1 = l2.
Proof.
  intros H1. revert l2. induction H1 as [|[k v] l1 [Hk Hv] _ IH]; intros l2 H2 H.
  - destruct l2 as [|[k' v'] l2]; [done|]. by apply symmetry, kv_line_nonempty in H.
  - destruct H2 as [|[k' v'] l2 [Hk' Hv'] H2].
    { by apply kv_line_nonempty in H. }
    rewrite !bind_cons in H. cbn [fst snd] in H. unfold kv_line in H.
    repeat (rewrite <- !app_assoc in H; cbn [app] in H).
    apply sized_inj in H as [-> H]; [|done|done]. apply sized_inj in H as [-> H]; [|done|done].
    f_equal. by apply IH.
Qed.

(** The pairs a digest is about. *)
Definition live_pairs (keys : list bytes) (get : bytes → option bytes) : list (bytes * bytes) :=
  omap (λ k, pair k <$> get k) (sort_strings keys).

Lemma kv_lines_live keys get :
  kv_lines keys get = omap (λ k, pair k <$> get k) keys ≫= λ kv, kv_line kv.1 kv.2.
Proof.
  induction keys as [|k keys IH]; [done|]. cbn. destruct (get k); cbn; [by f_equal|done].
Qed.

Lemma hex_encode_inj a b : wf_bytes a → wf_bytes b → hex_encode a = hex_encode b → a = b.
Proof.
  intros Ha. revert b. induction Ha as [|x a Hx Ha IH]; intros b Hb H; destruct Hb as [|y b Hy Hb]; [done..|].
  unfold hex_encode in *. rewrite !bind_cons in H.
  destruct (hex_put_spec 2 x Hx) as (L1 & N1 & _), (hex_put_spec 2 y Hy) as (L2 & N2 & _).
  apply app_inj_1 in H as [H1 H2]; [|congruence]. f_equal; [congruence|by apply IH].
Qed.

(** ** Fingerprints *)

Lemma FormatUint_not x v : is_byte v → ¬ 48 ≤ x ≤ 57 → x ∉ FormatUint v.
Proof. intros Hv Hx Hin. apply Hx, (FormatUint_digits v); [|done]. unfold is_u64, is_byte in *. lia. Qed.

Lemma spaced_cons x y b : spaced (x :: y :: b) = FormatUint x ++ 32 :: spaced (y :: b).
Proof. done. Qed.

Lemma spaced_not x b : wf_bytes b → ¬ 48 ≤ x ≤ 57 → x ≠ 32 → x ∉ spaced b.
Proof.
  intros Hb Hx Hs. induction Hb as [|y b Hy Hb IH]; [by intros ?%not_elem_of_nil|].
  destruct b as [|z b]; [by apply FormatUint_not|]. rewrite spaced_cons, elem_of_app, elem_of_cons.
  pose proof (FormatUint_not x y Hy Hx). tauto.
Qed.

Lemma FormatUint_nonempty v : is_byte v → FormatUint v ≠ [].
Proof.
  intros Hv. assert (is_u64 v) as H by (unfold is_u64, is_byte in *; lia).
  destruct (FormatUint_spec v H) as [[->|(? & ? & -> & _)] _]; done.
Qed.

Lemma spaced_nonempty x b : is_byte x → spaced (x :: b) ≠ [].
Proof.
  intros Hx. destruct b as [|y b]; [by apply FormatUint_nonempty|]. rewrite spaced_cons.
  pose proof (FormatUint_nonempty x Hx). by destruct (FormatUint x).
Qed.

Lemma byte_u64 x : is_byte x → is_u64 x.
Proof. unfold is_byte, is_u64. lia. Qed.

Lemma spaced_inj a b : wf_bytes a → wf_bytes b → spaced a = spaced b → a = b.
Proof.
  intros Ha. revert b. induction Ha as [|x a Hx Ha IH]; intros b Hb H; destruct Hb as [|y b Hy Hb].
  - done.
  - by apply symmetry, spaced_nonempty in H.
  - by apply spaced_nonempty in H.
  - assert (Hsp : ∀ u, is_byte u → 32 ∉ FormatUint u) by (intros u Hu; apply FormatUint_not; [done|lia]).
    destruct a as [|x' a], b as [|y' b]; rewrite ?spaced_cons in H.
    + apply FormatUint_inj in H as ->; auto using byte_u64.
    + destruct (Hsp x Hx). change (spaced [x]) with (FormatUint x) in H. rewrite H. set_solver.
    + destruct (Hsp y Hy). change (spaced [y]) with (FormatUint y) in H. rewrite <- H. set_solver.
    + apply number_inj in H as [-> H]; [|by apply byte_u64|by apply byte_u64|lia].
      f_equal. by apply IH.
Qed.

(** A key that cannot be confused with the punctuation after it. *)
Definition plain_mutation (mu : KVMutation) : Prop := (61 ∉ kv_Key mu) ∧ wf_bytes (kv_Value mu).

Lemma fingerprint_one_inj a b r1 r2 :
  plain_mutation a → plain_mutation b →
  fingerprint_one a ++ r1 = fingerprint_one b ++ r2 → a = b ∧ r1 = r2.
Proof.
  intros [Ka Va] [Kb Vb] H. unfold fingerprint_one, format_bytes in H.
  repeat (rewrite <- !app_assoc in H; cbn [app] in H).
  apply field_inj in H as [Hk H]; [|done|done]. injection H as H.
  apply (field_inj 93) in H as [Hv H]; [|apply spaced_not; [done|lia|lia]..].
  apply spaced_inj in Hv; [|done|done]. injection H as H.
  destruct a as [ka va ta], b as [kb vb tb]. cbn in *. subst.
  destruct ta, tb; cbn in H; simplify_eq; done.
Qed.

Lemma fingerprints_inj l1 l2 :
  Forall plain_mutation l1 → Forall plain_mutation l2 → length l1 = length l2 →
  (l1 ≫= fingerprint_one) = (l2 ≫= fingerprint_one) → l1 = l2.
Proof.
  intros H1. revert l2. induction H1 as [|a l1 Ha _ IH]; intros l2 H2 Hl H; destruct H2 as [|b l2 Hb H2]; try done.
  rewrite !bind_cons in H. apply fingerprint_one_inj in H as [-> H]; [|done|done].
  f_equal. apply IH; [done|by injection Hl|done].
Qed.

(** ** Properties *)

(** Lock step of the oracle and the state machine.  When a new request whose
    snapshot is still served is decided, the oracle predicts the decision: it
    commits exactly when [Predict] says so, and then, and only then, the
    oracle has to apply its mutations at its index to stay the model of the
    run. *)
Theorem oracle_lock_step r i cmd f' o :
  fsm_reachable r → f_outcomes (r_fsm r) !! c_RequestID cmd = None →
  f_gcWatermark (r_fsm r) ≤ c_StartSeq cmd → Apply (r_fsm r) i cmd = Ok (f', o) →
  let model := model_of (history_of (r_trace r)) in
  let muts := to_kv <$> c_Mutations cmd in
  let p := Predict model (c_StartSeq cmd) muts in
  p.1.1 = bool_decide (o_Status o = StatusCommitted) ∧
  model_of (history_of (r_trace r ++ [mkDecided i cmd o])) =
    (if p.1.1 then KVModel_Apply model i muts else model) ∧
  (p.1.1 = false → ∃ seq, LatestCommitSeq (f_store (r_fsm r)) p.1.2 = Some seq ∧ p.2 = seq ∧
     c_StartSeq cmd < seq).
Proof.
  intros Hr%fsm_reachable_inv Hfresh Hw HA. cbv zeta. rewrite history_of_snoc. unfold is_committed. simpl.
  pose proof (predict_spec _ _ (fi_store _ Hr) (c_StartSeq cmd) (c_Mutations cmd)) as Hp. cbv zeta in Hp.
  destruct (Apply_fresh _ _ _ _ _ Hfresh HA) as [(? & _)|[(key & latest & _ & Hc & -> & _)|(s' & _ & Hc & _ & -> & _)]];
    [lia|rewrite Hc in Hp..]; simpl.
  - destruct Hp as (k & seq & -> & _ & Hl & Hlt & _). rewrite app_nil_r. split; [done|]. split; [done|]. by exists seq.
  - rewrite Hp, model_of_snoc. done.
Qed.

(** Reading past the last applied index, the store has exactly the data of the
    oracle: every key reads the same, and the digests of the two are equal. *)
Theorem oracle_reads_store r seq :
  fsm_reachable r → r_last r ≤ seq → f_gcWatermark (r_fsm r) ≤ seq →
  let model := model_of (history_of (r_trace r)) in
  let s := f_store (r_fsm r) in
  (∀ k, Visible s k seq = Ok (KVModel_Get model k)) ∧
  KVModel_Keys model = orderedKeys s ∧
  KVModel_Digest model = CanonicalKVDigest (orderedKeys s) (store_get s seq).
Proof.
  intros Hr Hl Hw. cbv zeta. pose proof (history_bounded r Hr) as Hb. apply fsm_reachable_inv in Hr.
  pose proof (fi_store _ Hr) as Hs. rewrite <- (fi_horizon _ Hr) in Hw.
  assert (Hall : Forall (λ c, commit_seq c ≤ seq) (history_of (r_trace r))).
  { eapply Forall_impl; [exact Hb|]. simpl. lia. }
  assert (Hv : ∀ k, Visible (f_store (r_fsm r)) k seq = Ok (KVModel_Get (model_of (history_of (r_trace r))) k)).
  { intros k. by apply model_get. }
  pose proof (model_keys _ _ Hs) as Hk. split; [done|]. split; [done|].
  unfold KVModel_Digest, CanonicalKVDigest. rewrite Hk. do 2 f_equal. apply kv_lines_ext.
  intros k. unfold store_get. by rewrite Hv.
Qed.

(** The tracker never accuses the state machine: whatever answers are
    collected from replicas that have applied any prefixes of one run, first
    answers, retries and answers after failover, in any order, no observation
    contradicts an earlier one. *)
Theorem tracker_never_accuses r obs :
  fsm_reachable r → Forall (answer_of r) obs → (observe_all NewOutcomeTracker obs).2 = [].
Proof.
  intros Hr Hall. apply (observe_all_exact _ []); [done|]. intros before b after x -> Hx _.
  apply Forall_app in Hall as [Hb Hall]. apply Forall_cons in Hall as [Hcur _].
  apply answer_of_recorded in Hcur as (e & He & ->).
  apply head_Some_elem_of, list_elem_of_filter in Hx as [Hid Hx].
  apply (proj1 (Forall_forall _ _) Hb), answer_of_recorded in Hx as (e' & He' & ->). congruence.
Qed.

(** Digests are faithful: two sources of data with the same digest have the
    same live keys and values, or the two texts that were hashed are a
    collision of SHA-256. *)
Theorem digest_faithful keys1 get1 keys2 get2 :
  Forall fits_u64 (live_pairs keys1 get1) → Forall fits_u64 (live_pairs keys2 get2) →
  CanonicalKVDigest keys1 get1 = CanonicalKVDigest keys2 get2 →
  live_pairs keys1 get1 = live_pairs keys2 get2 ∨
  ∃ x y, x ≠ y ∧ sha256 x = sha256 y.
Proof.
  intros F1 F2 H. apply hex_encode_inj in H; [|apply wf_sha256..].
  destruct (decide (kv_lines (sort_strings keys1) get1 = kv_lines (sort_strings keys2) get2)) as [E|E]; [left|right; by eauto].
  rewrite !kv_lines_live in E. by apply lines_inj.
Qed.

(** Fingerprints tell requests apart as long as no key has an equals sign. *)
Theorem fingerprint_faithful t1 s1 ms1 t2 s2 ms2 :
  is_u64 t1 → is_u64 s1 → is_u64 (zlen ms1) → is_u64 t2 → is_u64 s2 → is_u64 (zlen ms2) →
  Forall plain_mutation ms1 → Forall plain_mutation ms2 →
  Fingerprint t1 s1 ms1 = Fingerprint t2 s2 ms2 → t1 = t2 ∧ s1 = s2 ∧ ms1 = ms2.
Proof.
  intros A1 A2 A3 B1 B2 B3 P1 P2 H. unfold Fingerprint in H.
  apply number_inj in H as [-> H]; [|done|done|lia]. apply number_inj in H as [-> H]; [|done|done|lia].
  apply number_inj in H as [Hl H]; [|done|done|lia].
  apply fingerprints_inj in H as ->; [done..|]. unfold zlen in Hl. lia.
Qed.

(** The lines of [Tail] are the last lines of [Dump], at most as many as asked
    for, and a negative count panics. *)
Theorem tail_of_dump r n :
  match Tail r n with
  | None => n < 0
  | Some t => 0 ≤ n ∧ ∃ header steps before,
      t = header ++ step_lines steps ∧ rec_steps r = before ++ steps ∧
      zlen steps = Z.min n (zlen (rec_steps r))
  end.
Proof.
  unfold Tail. pose proof (zlen_nonneg (rec_steps r)).
  set (start := if n <? zlen (rec_steps r) then zlen (rec_steps r) - n else 0).
  assert (Hs : start = Z.max 0 (zlen (rec_steps r) - n) ).
  { unfold start. destruct (Z.ltb_spec n (zlen (rec_steps r))); lia. }
  destruct (Z.ltb_spec (zlen (rec_steps r)) start); [lia|]. split; [lia|].
  eexists _, (drop (Z.to_nat start) (rec_steps r)), (take (Z.to_nat start) (rec_steps r)).
  split; [by rewrite cons_middle, !app_assoc|]. split; [by rewrite take_drop|].
  unfold zlen in *. rewrite length_drop. lia.
Qed.

(** Recording numbers the steps from one when the caller leaves the index
    out. *)
Definition record_all (seed : Z) (l : list oracle_Step) : Recorder := foldl Record_step (NewRecorder seed) l.

Theorem recorded_indices seed l :
  Forall (λ s, st_Index s = 0) l →
  st_Index <$> rec_steps (record_all seed l) = seqZ 1 (zlen l) ∧
  Forall (λ s, st_Seed s = seed) (rec_steps (record_all seed l)) ∧
  st_Op <$> rec_steps (record_all seed l) = st_Op <$> l.
Proof.
  unfold record_all. induction l as [|s l IH] using rev_ind; intros Hl; [by repeat split|].
  apply Forall_app in Hl as [Hl [Hs _]%Forall_cons]. destruct (IH Hl) as (I1 & I2 & I3).
  rewrite foldl_snoc. assert (Hseed : rec_seed (foldl Record_step (NewRecorder seed) l) = seed).
  { clear. induction l as [|s l IH] using rev_ind; [done|]. by rewrite foldl_snoc. }
  destruct (foldl Record_step (NewRecorder seed) l) as [sd steps]. cbn in *. subst sd.
  unfold Record_step. cbn. rewrite Hs. cbn. rewrite !fmap_app, I1, I3. cbn.
  assert (Hlen : zlen steps = zlen l).
  { pose proof (f_equal length I1) as HL. rewrite length_fmap, length_seqZ in HL. unfold zlen in *. lia. }
  split; [|split; [apply Forall_app; by repeat constructor|done]].
  rewrite zlen_app, Hlen. change (zlen [s]) with 1. rewrite seqZ_app by (unfold zlen; lia).
  f_equal. by rewrite Z.add_comm.
Qed.

(** ** Findings *)

(** [Fingerprint] does not tell every two requests apart: keys are written
    without quotes or lengths, so a key can contain the text of a mutation. *)
Theorem fingerprint_collision :
  ∃ ms1 ms2, ms1 ≠ ms2 ∧ ∀ txnID startSeq, Fingerprint txnID startSeq ms1 = Fingerprint txnID startSeq ms2.
Proof.
  exists [mkKVMutation [120] [] false; mkKVMutation ([121; 61; 91; 93; 40; 102; 97; 108; 115; 101; 41; 59] ++ [122]) [] false].
  exists [mkKVMutation ([120; 61; 91; 93; 40; 102; 97; 108; 115; 101; 41; 59] ++ [121]) [] false; mkKVMutation [122] [] false].
  split; [done|]. intros txnID startSeq. reflexivity.
Qed.

(** [Predict] does not use the evaluation order of the real conflict check:
    the store reports the first conflicting key in mutation order, the oracle
    the smallest one. *)
Theorem predict_order_differs :
  ∃ s h ms, mvcc_reachable s h ∧
    predicted (CheckConflicts s 0 ms) = (false, [98], 1) ∧
    Predict (model_of h) 0 (to_kv <$> ms) = (false, [97], 1).
Proof.
  set (ms := [mkMutation [98] [] false; mkMutation [97] [] false]).
  destruct (ApplyCommit NewStore 1 ms) as [s|e] eqn:E; [|by vm_compute in E].
  exists s, [mkCommit 1 ms], ms. split; [by eapply rtc_once, (step_commit NewStore [])|].
  vm_compute in E. injection E as <-. split; vm_compute; reflexivity.
Qed.

(** The oracle knows nothing of garbage collection: a transaction whose
    snapshot is below the horizon is refused as stale where the oracle
    predicts a commit. *)
Theorem predict_ignores_horizon r i cmd :
  fsm_reachable r → f_outcomes (r_fsm r) !! c_RequestID cmd = None →
  c_StartSeq cmd < f_gcWatermark (r_fsm r) →
  CheckConflicts (f_store (r_fsm r)) (c_StartSeq cmd) (c_Mutations cmd) = None →
  (Predict (model_of (history_of (r_trace r))) (c_StartSeq cmd) (to_kv <$> c_Mutations cmd)).1.1 = true ∧
  ∃ f' o, Apply (r_fsm r) i cmd = Ok (f', o) ∧ o_Status o = StatusAbortedStale.
Proof.
  intros Hr%fsm_reachable_inv Hf Hlt Hc.
  pose proof (predict_spec _ _ (fi_store _ Hr) (c_StartSeq cmd) (c_Mutations cmd)) as Hp. cbv zeta in Hp.
  rewrite Hc in Hp. rewrite Hp. split; [done|]. unfold Apply, lookupLocked.
  rewrite Hf, (proj2 (Z.ltb_lt _ _)) by done. by do 2 eexists.
Qed.
